(* ===== verification/_CoqProject ===== *)
-Q . S2P
Prelude.v
PyText.v
PyCodec.v
PyFloat.v
PyDict.v
PyJson.v
JsonRoundTrip.v
Ledger.v
LedgerStore.v
Exposure.v
Wire.v
Reconcile.v
Mqi.v
Flow.v
Responder.v
Orchestrator.v
Lifecycle.v
Topology.v
Hostfacts.v
Versions.v
VersionsLoad.v
Stacks.v
Phases.v
Instances.v
Platforms.v
Dns.v
Sequencer.v
Registry.v
Prom.v
NativeHa.v
LogLifecycle.v
Xml.v
ClusterState.v
Rdqm.v
Perf.v
PerfDiff.v
Sampler.v
PerfSource.v
PerfRun.v
Trace.v
Trees.v
Boxes.v
BoxGc.v
BoxClean.v
Runtime.v
Deps.v
Component.v
FileTree.v
BuildEnv.v
Inventory.v
Scrape.v
Artifacts.v
Shell.v
E2e.v
Operator.v
Prereqs.v
SvcResponder.v
AppRequester.v
FloatRank.v
Bench.v
Probes.v
IbmmqRefs.v
Logsearch.v
Corosync.v
CorosyncTree.v
CorosyncEdit.v
Mqweb.v
Verbs.v
GuestBoxes.v
Tools.v
