(* ===== verification/Prelude.v ===== *)
(** * The mqlab verification development

    The repository builds, runs and measures an IBM MQ high-availability and disaster
    recovery lab. This development models the Python code that decides: what the DR
    clients claim about each message, and what the operator tool [mqlab] does to the
    lab. It leaves aside the code that only talks to the outside (processes, files,
    the terminal, the MQ binding): what the outside answers is an input of the models,
    so a theorem holds for every behaviour of it.

    ** The program's parts, and the files that model them

    In the paths below, [mqrc] is components/mq-resiliency-clients/src/mqrc and [mqlab]
    is src/mqlab, both under src/.

    _The language_. [PyText] (str and bytes methods), [PyCodec] (decimal and UTF-8
    codecs, with their round trips), [PyFloat] (binary64 floats), [PyDict]
    (insertion-ordered dictionaries, and the dynamic type [pyval] of loaded YAML),
    [PyJson] and [JsonRoundTrip] (the json module, and that it reads back what it
    writes), [Xml] (element trees), [Shell] (shlex, and a reader of command lines),
    [Trace] (code with effects as the list of its effects and its result), [Trees] and
    [FileTree] (file operations, and a tree of files). A function that may
    raise returns [res E A], [E] being the inductive type of the module's exceptions; an
    exception the code does not catch is a constructor of its own. Integers of Python
    are [Z], and unbounded; a set of integers is a [gset Z], a dict whose order is
    observable a list of pairs.

    _The DR message flow_. Two endpoints exchange numbered messages while a disaster
    recovery is exercised, and each keeps a ledger; afterwards the ledgers are compared.
    - [Ledger], [LedgerStore]: mqrc/dr/model.py and ledger.py, the append-only ledger,
      its queries and its JSONL form.
    - [Wire]: mqrc/header.py, dr/wire.py, dr/snapshot.py, the header and the DRv1 body.
    - [Mqi]: mqrc/dr_mqi.py and deadletter.py, the reconnect contract and the
      dead-letter header. A call of the MQI is an event of a trace.
    - [Flow]: mqrc/dr_flow.py, the producer and consumer loops, and their interleavings over
      the one ledger they share: [flow_run] takes the schedule as an explicit list of steps,
      and a turn of a loop is cut where the other thread can come between (its test of STOP,
      its body up to the append, the flush).
    - [Responder]: mqrc/dr_responder.py, the get/reply/commit loop and the rebuild loop
      around it.
    - [Exposure]: mqrc/dr/exposure.py and floor.py, the peak of unconfirmed messages.
    - [Reconcile]: mqrc/dr/classifier.py, reconcile.py, report.py, catalog.py,
      dr_baseline.py and dr_forced.py, from the ledgers to the bucket of each message
      and the verdict of a drill.
    Flow and Responder produce the ledgers (through Wire and Mqi); LedgerStore carries
    them to Reconcile and Exposure. The other clients of mqrc are modelled over the same MQI
    events:
    - [SvcResponder], [AppRequester]: svc_responder.py and app_requester.py, the counterparty
      and the requester of the lab's applications.
    - [Bench], over [FloatRank]: bench_client.py, its phases and the exact rank of its
      percentiles.
    - [Probes], [IbmmqRefs]: dlq_probe.py, authz_probe.py, reconnect_probe.py, selfcheck.py,
      and ibmmq_refs.py, the check of the names the clients use of the MQ binding.

    _The operator tool_. A bootstrap reads the topology and the version catalog, pins
    the operating system of the stack, and runs command steps phase by phase; a
    teardown undoes it.
    - [Topology]: mqlab/topology.py, the environment profile merged onto the topology.
    - [Hostfacts]: mqlab/hostfacts.py, what the host is.
    - [Versions], [VersionsLoad]: mqlab/versions.py, the catalog of operating systems
      and boxes, and the loader that validates it.
    - [Stacks]: mqlab/stacks.py and the topology side of versions.py, the members of a
      stack and the box each node boots.
    - [Platforms]: mqlab/platforms.py and hugepages.py, the virtual hardware of a node.
    - [Lifecycle]: mqlab/lifecycle.py, netsel.py, guestsel.py, netstate.py, the state of
      guests and networks as virsh prints it.
    - [Orchestrator]: mqlab/runner.py and orchestrator.py, the loop that runs steps with
      bounded retries.
    - [Phases]: mqlab/phases.py and the selection of phases of cli.py.
    - [Instances]: mqlab/instances.py and its use in cli.py, the record that pins the
      operating system of a stack.
    - [Registry]: the machine [Instances] refines, a map from stacks to records.
    - [Dns]: mqlab/dns.py and bind.py, zones, BIND files and resolver facts.
    - [Prereqs]: _ensure_prereqs_for_stack of mqlab/cli.py, what a phase needs first.
    - [Sequencer]: _bootstrap_run and _teardown_run of mqlab/cli.py, which compose all
      of these.
    - [Inventory], [Scrape]: mqlab/inventory.py, roster.py and scrape.py, the renderings
      of the topology for Ansible, salt-ssh and Prometheus.
    - [E2e], [Operator]: mqlab/e2e.py, relay.py, doctor.py and coldboot.py, small verbs.
    - [Verbs]: the qm, reload, e2e and DR verbs of mqlab/cli.py and the probes of the phases, over
      [Stacks], [Instances] and [Orchestrator].
    - [Mqweb]: mqlab/mqweb_endpoints.py, mqweb_probe.py, console.py and console_open of
      cli.py, the search of the live queue manager and the forward to its Console.
    - [Logsearch]: mqlab/logsearch.py, the status, the snapshot and the restore of the logs.
    - [Corosync], [CorosyncTree], [CorosyncEdit]: the Ansible module
      rdqm_corosync_heartbeat.py of ansible/roles/rdqm-ha/library, its parser and edits, the
      tree a file is read as, and that the edits converge.
    - [Tools]: tools/ibm_doc_cache.py and release_version_guard.py, mqlab/mqexporter.py and
      venvsync.py.

    _What is built and cached_. Guests boot boxes baked from the catalog; boxes contain
    components, and both come from downloads that are verified.
    - [Boxes]: mqlab/box.py, the fleet of boxes, the plan and the checks of a build.
    - [BoxGc], [BoxClean]: the collection of base images and the removal of retired,
      unreferenced or cleaned boxes, and the commands of cli.py that call them.
    - [GuestBoxes]: the box side of mqlab/cli.py, from the selection of a verb to the
      reconciliation of Vagrant's metadata before a `vagrant up`.
    - [Runtime]: mqlab/runtime.py, the pinned interpreter.
    - [Deps], [Component]: mqlab/component.py, the locked dependencies of a component,
      and its build, publication and choice.
    - [Artifacts]: mqlab/artifact.py and tarball_name of manifest.py, the MQ tarballs.
    - [BuildEnv]: mqlab/buildenv.py, the buckets of the build directory and the migration
      of legacy entries into them.
    A file operation is a constructor of a type of operations, so that a run cut anywhere
    is a prefix of its list; [BuildEnv], whose migration is all or nothing, acts on a
    [FileTree] instead.

    _What is observed and measured_. [mqro] is components/mq-resiliency-observability/src/mqro.
    - [Prom]: the textfile format the collectors share, with a reader of it.
    - [NativeHa], [LogLifecycle], [ClusterState], [Rdqm]: mqro/nativehastate.py,
      loglifecycle.py, clusterstate.py and rdqmstate.py, the parsers of what the probes
      print and the metrics made of it.
    - [Perf], [PerfDiff], [PerfRun], [Sampler], [PerfSource]: mqlab/perf.py, perfdiff.py,
      perfrun.py and perfsampler.py, the record of a bootstrap, its comparison, its
      capture, and the host-contention sampler with its ssh multiplexing.

    Each operation has the name of its Python function where that is possible; a loop
    body, a comprehension or a nested function has a definition of its own, named for
    what it does. A handler that does I/O returns the trace of its calls in order.

    ** What the theorems show

    _The ledgers tell the truth_ ([Flow], [Responder]). Whatever the queue manager
    answers and however the threads interleave: the SENT entries are exactly the
    messages put and committed, in order and without gaps, every retry reusing the uuid
    of its message; the CONFIRMED entries are exactly the replies got and committed; the
    Watcher's ledger holds one RECEIVED and one REPLIED row per committed request. Both
    programs fail loud: the flow exits 1 exactly when a side failed or its ledger could not be
    written, and a failed side leaves the other at most the entry of the turn it was in; the
    Watcher writes its ledger last and backs out before it disconnects on an error that stops
    it. It disconnects without a backout where a call lost the connection and at the
    deadline; what is then still open is bounded, and that it can be a request is a finding
    ([rebuild_disconnects_open_unit]).

    _The verdicts follow from the ledgers_ ([Reconcile], [Exposure]). A scenario's
    report claims RPO zero exactly when every message sent is safe, bounds and counts the
    others, and counts each situation exactly; [reconcile] is complete and exact; the baseline passes exactly when every sent message is confirmed and not
    duplicated; a forced recovery attributes losses to the window it documents; the peak
    gauge bounds the real exposure of a run without duplicate confirmations.

    _The clients do what they claim_ ([SvcResponder], [AppRequester], [Bench], [Probes],
    [IbmmqRefs]). Every unit of work the counterparty commits holds one request with exactly
    its reply or its dead letter; the requester uses only a connection it opened and has not
    lost, and disconnects each but those whose queues it could not open; the benchmark's
    percentiles are the exact ranks of its samples; a dead letter is inspected as it was put;
    the self-check passes only when every name used exists, and every class member used as a
    keyword or on a local (members used on parameters are out of its reach, a finding).

    _Data survives its encodings_ ([Wire], [LedgerStore], [Instances]): parse after
    build, and read after write.

    _The lab is built as declared_ ([Versions], [VersionsLoad], [Stacks], [Platforms],
    [Topology], [Dns]). A catalog that loads satisfies [catalog_ok], and then [stack_os]
    accepts exactly the supported requests, every node boots a box the inventory bakes,
    of its role and its stack's operating system, at a size that covers it; forward and
    reverse DNS agree; a profile changes nothing but its declared levers.

    _The sequencing is safe_ ([Orchestrator], [Phases], [Instances], [Sequencer]). A run
    stops at the first step that stays failed, with bounded retries and waits; guests
    boot in bounded batches, shared infrastructure first, none twice; the pinned OS
    changes only through a teardown, over every history of commands; a bootstrap goes to
    its next phase only when every step has exited 0, and a failed one names the phase from
    which it resumes; without DR no step acts on a guest of the DR site alone, though the
    boxes of those guests are ensured (a finding); a teardown destroys only what belongs to
    the stack, shared guests with the last stack only, and forgets the OS only after every
    step has exited 0.

    _The verbs act on what they checked_ ([Verbs], [Mqweb], [CorosyncEdit], [Logsearch]). A live
    stack that has no record is refused by every qm verb, the reload, the burst and every DR
    verb; a DR verb runs exactly the declared
    command, drilled only where the drill is implemented; a reload searches exactly the groups
    that run; a probe is sent only to running guests; the Console forward follows the
    instance that reported itself running; the heartbeat editor converges on every file,
    changes nothing else and is idempotent.

    _What is built is whole and what is needed is kept_ ([Boxes], [BoxGc], [BoxClean],
    [GuestBoxes], [Runtime], [Deps], [Component], [Artifacts], [BuildEnv]). A run cut at any operation
    leaves no partial interpreter or tarball in the place of a whole one, and nothing
    unverified; a component build leaves every artifact whole but the one it replaces, while
    it removes it and holds the new one in staging (a finding); a component is published only through its gates; a plan builds
    what its boxes need, in order; a collection deletes exactly what is reclaimable and
    never a box a build file needs; no guest is left on a retired or another box than the
    topology's; the migration of the build directory loses no file.

    _One topology, several readings_ ([Inventory], [Scrape], [E2e]). The inventory and
    the roster say the same; every deployed exporter is scraped; a command sent through a
    shell arrives as the arguments it was made of.

    _What is observed is what was printed_ ([NativeHa], [LogLifecycle], [ClusterState],
    [Rdqm], [Perf], [PerfDiff], [PerfRun], [Sampler], [PerfSource]). The metrics read
    back are those of the parsed state; a printed drbdsetup status is parsed into each
    resource's own role and disk and its last peer's connection (that earlier peers are
    hidden is a finding); a diff is that of the two records; the sampler's
    notes tell of every outage once; ssh multiplexing falls back once, under every
    interleaving of the probes.

    ** Parameters, bounds and fuel

    Parameters, with what is assumed of them as named hypotheses that a witness
    instantiates: the digits of a finite float ([FloatText]), float exponentiation,
    [str.lower] and the word characters of [re] outside ASCII, the XML and YAML parsers
    and writers, SHA-256, downloads and archives, [Path.resolve] and whether a link leads
    somewhere, [uuid4], the clock and the ibmmq binding. What the outside answers is an
    input. Two functions run on fuel, with a proof that it is enough: the JSON parser (twice
    the length of the text and two more, [loads_fuel]) and the merge of two trees (one more
    than the longest path, in [plan_merge_merged]). Every other loop is structural, on the
    data or on the list of what the outside answers. A loop that ends only when the outside
    says so (the flow, the responder, a retried step) is a function of that list; when the
    list ends first the result says so ([ROpen], [BOpen], [TOpen]), and the theorems on it
    hold of every prefix. The integer digit limit of Python (4300 digits) is part of
    [PyCodec], so round trips carry it as a hypothesis.

    ** What is not modelled

    Grafana dashboards (literal data), the fleet table, the capability matrix and the other
    renderings for a terminal, the transcript, the wiring and cleaning of the build
    directory's buckets, git's failure diagnostics, the commands the builders run (docker,
    virt-install and file copies), the install and status verbs of components, the fan-out
    gate of the log search, and the obs and netem verbs of the command line (dispatch to
    playbooks and scripts): what they decide is little, and the rest is external. *)

From stdpp Require Export base tactics list gmap sorting.
From Stdlib Require Export ZArith NArith Lia.

#[global] Set Default Goal Selector "!".

(** ** Hint databases of the development

    [mqlab] holds the lemmas that close routine side conditions; the rewrite
    database of the same name normalises the Python containers. *)
Create HintDb mqlab discriminated.
Create Rewrite HintDb mqlab.

(** ** Results: a value or a raised exception

    A Python function that may raise returns [res E A]; [E] is the inductive
    of the exceptions its module raises. *)
Inductive res (E A : Type) : Type :=
  | Ok (a : A)
  | Err (e : E).
Arguments Ok {E A} a.
Arguments Err {E A} e.

#[global] Instance res_ret {E} : MRet (res E) := λ A a, Ok a.
#[global] Instance res_bind {E} : MBind (res E) := λ A B f m,
  match m with Ok a => f a | Err e => Err e end.
#[global] Instance res_fmap {E} : FMap (res E) := λ A B f m,
  match m with Ok a => Ok (f a) | Err e => Err e end.

#[global] Instance res_eq_dec {E A} `{EqDecision E, EqDecision A} : EqDecision (res E A).
Proof. solve_decision. Defined.

(** [raise_if b e]: [if b: raise e]. *)
Definition raise_if {E} (b : bool) (e : E) : res E unit := if b then Err e else Ok tt.

(** [from_option m e]: the value of [m], or raise [e]. *)
Definition of_option {E A} (e : E) (m : option A) : res E A :=
  match m with Some a => Ok a | None => Err e end.

(** [map_err f m]: [except E as exc: raise f(exc)]. *)
Definition map_err {E E' A} (f : E → E') (m : res E A) : res E' A :=
  match m with Ok a => Ok a | Err e => Err (f e) end.

(** A loop over a list whose body may raise, collecting its results in order. *)
Fixpoint res_mapM {E A B} (f : A → res E B) (l : list A) : res E (list B) :=
  match l with
  | [] => Ok []
  | x :: l => y ← f x; ys ← res_mapM f l; Ok (y :: ys)
  end.

(** A loop over a list that threads an accumulator and may raise. *)
Fixpoint res_foldM {E A S} (f : S → A → res E S) (s : S) (l : list A) : res E S :=
  match l with
  | [] => Ok s
  | x :: l => s' ← f s x; res_foldM f s' l
  end.

Section res.
Context {E : Type}.

Lemma bind_Ok {A B} (m : res E A) (f : A → res E B) b :
  m ≫= f = Ok b ↔ ∃ a, m = Ok a ∧ f a = Ok b.
Proof. destruct m; naive_solver. Qed.

Lemma bind_Err {A B} (m : res E A) (f : A → res E B) e :
  m ≫= f = Err e ↔ m = Err e ∨ ∃ a, m = Ok a ∧ f a = Err e.
Proof. destruct m; naive_solver. Qed.

Lemma fmap_Ok {A B} (f : A → B) (m : res E A) b :
  f <$> m = Ok b ↔ ∃ a, m = Ok a ∧ b = f a.
Proof. destruct m; naive_solver. Qed.

Lemma raise_if_Ok b (e : E) x : raise_if b e = Ok x ↔ b = false.
Proof. destruct b, x; naive_solver. Qed.

Lemma of_option_Ok {A} (e : E) (m : option A) a : of_option e m = Ok a ↔ m = Some a.
Proof. destruct m; naive_solver. Qed.

Lemma map_err_Ok {E' A} (f : E → E') (m : res E A) a : map_err f m = Ok a ↔ m = Ok a.
Proof. destruct m; naive_solver. Qed.

Lemma res_mapM_Ok {A B} (f : A → res E B) l k :
  res_mapM f l = Ok k ↔ Forall2 (λ x y, f x = Ok y) l k.
Proof.
  revert k. induction l as [|x l IH]; intros k; simpl.
  - split; [intros [= <-]; constructor|by inversion_clear 1].
  - rewrite bind_Ok. setoid_rewrite bind_Ok. setoid_rewrite IH. split.
    + intros (y & Hy & ys & Hys & [= <-]). by constructor.
    + inversion_clear 1. eauto.
Qed.

(** The results of a successful map are those of its elements. *)
Lemma res_mapM_elem {A B} (f : A → res E B) l k y :
  res_mapM f l = Ok k → y ∈ k → ∃ x, x ∈ l ∧ f x = Ok y.
Proof.
  intros H%res_mapM_Ok Hy. apply list_elem_of_lookup in Hy as [i Hi].
  destruct (Forall2_lookup_r _ _ _ _ _ H Hi) as (x & Hx & Hf). exists x.
  split; [by eapply list_elem_of_lookup_2|done].
Qed.

Lemma res_mapM_image {A B} (f : A → res E B) l k x :
  res_mapM f l = Ok k → x ∈ l → ∃ y, y ∈ k ∧ f x = Ok y.
Proof.
  intros H%res_mapM_Ok Hx. apply list_elem_of_lookup in Hx as [i Hi].
  destruct (Forall2_lookup_l _ _ _ _ _ H Hi) as (y & Hy & Hf). exists y.
  split; [by eapply list_elem_of_lookup_2|done].
Qed.

Lemma res_foldM_app {A S} (f : S → A → res E S) s l1 l2 :
  res_foldM f s (l1 ++ l2) = (s' ← res_foldM f s l1; res_foldM f s' l2).
Proof.
  revert s. induction l1 as [|x l1 IH]; intros s; simpl; [done|].
  destruct (f s x); simpl; [apply IH|done].
Qed.

(** The loop rule of [res_foldM]: an invariant kept by every successful step. *)
Lemma res_foldM_ind {A S} (P : list A → S → Prop) (f : S → A → res E S) s l s' :
  P [] s →
  (∀ done x s0 s1, P done s0 → x ∈ l → f s0 x = Ok s1 → P (done ++ [x]) s1) →
  res_foldM f s l = Ok s' → P l s'.
Proof.
  intros H0 Hstep Hl.
  assert (∀ pre rest s0, pre ++ rest = l → P pre s0 → res_foldM f s0 rest = Ok s' → P l s')
    as Hgen; [|by apply (Hgen [] l s)].
  intros pre rest. revert pre.
  induction rest as [|x rest IH]; intros pre s0 Heq Hpre; simpl.
  - intros [= <-]. by rewrite app_nil_r in Heq; subst.
  - rewrite bind_Ok. intros (s1 & Hx & Hrest).
    eapply (IH (pre ++ [x])); [by rewrite <-app_assoc| |done].
    eapply Hstep; [done| |done]. subst l. set_solver.
Qed.

(** Every turn of a loop that returned has succeeded. *)
Lemma res_foldM_step {A S} (f : S → A → res E S) s l s' x :
  res_foldM f s l = Ok s' → x ∈ l → ∃ s0 s1, f s0 x = Ok s1.
Proof.
  revert s. induction l as [|y l IH]; intros s; simpl; [set_solver|].
  rewrite bind_Ok. intros (s1 & Hy & Hl) [->|Hx]%elem_of_cons; eauto.
Qed.
End res.

(** Splits every hypothesis that says a monadic computation succeeded. *)
Ltac res_inv :=
  repeat match goal with
  | H : _ ≫= _ = Ok _ |- _ => apply bind_Ok in H as (? & ? & ?)
  | H : _ <$> _ = Ok _ |- _ => apply fmap_Ok in H as (? & ? & ?)
  | H : raise_if _ _ = Ok _ |- _ => apply raise_if_Ok in H
  | H : of_option _ _ = Ok _ |- _ => apply of_option_Ok in H
  | H : map_err _ _ = Ok _ |- _ => apply map_err_Ok in H
  | H : Ok _ = Ok _ |- _ => injection H as H
  | H : Err _ = Ok _ |- _ => discriminate H
  | H : Ok _ = Err _ |- _ => discriminate H
  | x : unit |- _ => destruct x
  end.

(** Case analysis on the conditional of a hypothesis or the goal. *)
Ltac case_if :=
  match goal with
  | H : context [if ?b then _ else _] |- _ => destruct b eqn:?
  | |- context [if ?b then _ else _] => destruct b eqn:?
  end.

(** ** Stable sorting

    Python's [sorted] and [list.sort] are stable; insertion sort is the
    reference stable sort, and on a total preorder every stable sort returns
    the same list. *)
Section isort.
Context {A : Type} (leb : A → A → bool).

Fixpoint insert_sorted (x : A) (l : list A) : list A :=
  match l with
  | [] => [x]
  | y :: l' => if leb x y then x :: l else y :: insert_sorted x l'
  end.

Fixpoint isort (l : list A) : list A :=
  match l with
  | [] => []
  | x :: l => insert_sorted x (isort l)
  end.

Lemma insert_sorted_Permutation x l : insert_sorted x l ≡ₚ x :: l.
Proof.
  induction l as [|y l IH]; simpl; [done|].
  case_if; [done|]. rewrite IH. apply Permutation_swap.
Qed.

Lemma isort_Permutation l : isort l ≡ₚ l.
Proof.
  induction l as [|x l IH]; simpl; [done|].
  by rewrite insert_sorted_Permutation, IH.
Qed.

Lemma elem_of_isort x l : x ∈ isort l ↔ x ∈ l.
Proof. by rewrite isort_Permutation. Qed.

Lemma length_isort l : length (isort l) = length l.
Proof. by rewrite isort_Permutation. Qed.

Lemma NoDup_isort l : NoDup (isort l) ↔ NoDup l.
Proof. by rewrite isort_Permutation. Qed.

(** The order may be total on the elements of the list only. *)
Context (P : A → Prop)
  (leb_total : ∀ x y, P x → P y → leb x y = true ∨ leb y x = true)
  (leb_trans : ∀ x y z, P x → P y → P z →
   leb x y = true → leb y z = true → leb x z = true).

Lemma insert_sorted_StronglySorted x l :
  P x → Forall P l → StronglySorted leb l → StronglySorted leb (insert_sorted x l).
Proof.
  intros Hx HP. induction 1 as [|y l Hl IH Hy]; simpl; [by repeat constructor|].
  inversion_clear HP as [|? ? HPy HPl]. destruct (leb x y) eqn:Hxy.
  - constructor; [by constructor|]. constructor; [by rewrite Hxy|].
    rewrite Forall_forall in Hy, HPl |- *. intros z Hz.
    apply Is_true_true. apply (leb_trans x y z); auto.
    by apply Is_true_true, Hy.
  - constructor; [by apply IH|]. rewrite insert_sorted_Permutation.
    constructor; [|done]. apply Is_true_true.
    destruct (leb_total x y); auto; congruence.
Qed.

Lemma isort_StronglySorted l : Forall P l → StronglySorted leb (isort l).
Proof.
  induction 1; simpl; [constructor|].
  apply insert_sorted_StronglySorted; [done| |done]. by rewrite isort_Permutation.
Qed.
End isort.

(** In a sorted list the elements below a threshold form a prefix. *)
Lemma sorted_filter_prefix {A} (R : A → A → Prop) (p : A → bool) l :
  (∀ x y, x ∈ l → y ∈ l → R x y → p y = true → p x = true) →
  StronglySorted R l →
  take (length (List.filter p l)) l = List.filter p l.
Proof.
  intros Hdown. induction 1 as [|x l Hl IH Hx]; simpl; [done|].
  destruct (p x) eqn:Hpx; simpl.
  - f_equal. apply IH. intros; eapply Hdown; eauto; by right.
  - assert (List.filter p l = []) as ->; [|done].
    rewrite Forall_forall in Hx. clear IH Hl.
    assert (∀ y, y ∈ l → p y = false) as Hall.
    { intros y Hy. apply not_true_iff_false. intros Hpy.
      rewrite (Hdown x y) in Hpx; [done|by left|by right|by apply Hx|done]. }
    clear Hdown Hx. induction l as [|y l IH]; simpl; [done|].
    rewrite Hall by (by left). apply IH. intros; apply Hall. by right.
Qed.

(** [if x not in l: l.append(x)], and a loop of it: the first occurrences in order. *)
Section uniq.
Context {A : Type} `{EqDecision A}.

Definition add_new (l : list A) (x : A) : list A := if decide (x ∈ l) then l else l ++ [x].
Definition uniq_onto (l : list A) (xs : list A) : list A := foldl add_new l xs.
Definition uniq (xs : list A) : list A := uniq_onto [] xs.

Lemma elem_of_add_new l x y : y ∈ add_new l x ↔ y ∈ l ∨ y = x.
Proof. unfold add_new. case_decide; set_solver. Qed.

Lemma elem_of_uniq_onto l xs y : y ∈ uniq_onto l xs ↔ y ∈ l ∨ y ∈ xs.
Proof.
  unfold uniq_onto. revert l. induction xs as [|x xs IH]; intros l; simpl; [set_solver|].
  rewrite IH, elem_of_add_new. set_solver.
Qed.

Lemma NoDup_uniq_onto l xs : NoDup l → NoDup (uniq_onto l xs).
Proof.
  unfold uniq_onto. revert l. induction xs as [|x xs IH]; intros l Hl; simpl; [done|].
  apply IH. unfold add_new. case_decide; [done|]. apply NoDup_app. split_and!; [done| |].
  - intros y ? ->%list_elem_of_singleton. done.
  - apply NoDup_singleton.
Qed.

(** What is already there stays a prefix. *)
Lemma uniq_onto_prefix l xs : l `prefix_of` uniq_onto l xs.
Proof.
  unfold uniq_onto. revert l. induction xs as [|x xs IH]; intros l; simpl; [done|].
  etrans; [|apply IH]. unfold add_new. case_decide; [done|by apply prefix_app_r].
Qed.

Lemma elem_of_uniq xs y : y ∈ uniq xs ↔ y ∈ xs.
Proof. unfold uniq. rewrite elem_of_uniq_onto. set_solver. Qed.

Lemma NoDup_uniq xs : NoDup (uniq xs).
Proof. apply NoDup_uniq_onto. constructor. Qed.
End uniq.

(** Sums of integers. *)
Definition sumZ (l : list Z) : Z := foldr Z.add 0%Z l.

Lemma sumZ_app l k : sumZ (l ++ k) = (sumZ l + sumZ k)%Z.
Proof. induction l; simpl; lia. Qed.

Lemma sumZ_Permutation l k : l ≡ₚ k → sumZ l = sumZ k.
Proof. induction 1; simpl; lia. Qed.

Lemma list_filter_ext {A} (P Q : A → Prop) `{!∀ x, Decision (P x), !∀ x, Decision (Q x)} (l : list A) :
  (∀ x, x ∈ l → P x ↔ Q x) → filter P l = filter Q l.
Proof.
  induction l as [|x l IH]; intros Hiff; [done|]. rewrite !filter_cons, IH by (intros; apply Hiff; by right).
  destruct (decide (P x)) as [Hx|Hx]; rewrite Hiff in Hx by (by left); [by rewrite decide_True|by rewrite decide_False].
Qed.

Lemma bfilter_Permutation {A} (p : A → bool) l k :
  l ≡ₚ k → List.filter p l ≡ₚ List.filter p k.
Proof.
  induction 1; simpl; repeat case_if; auto; try constructor; auto; try (by etrans).
Qed.

(** A strictly sorted list of integers is determined by its elements. *)
Lemma StronglySorted_lt_NoDup (l : list Z) : StronglySorted Z.lt l → NoDup l.
Proof.
  induction 1 as [|x l Hl IH Hx]; constructor; [|done].
  intros Hin. rewrite Forall_forall in Hx. specialize (Hx _ Hin). lia.
Qed.

Lemma StronglySorted_le_lt (l : list Z) :
  NoDup l → StronglySorted Z.leb l → StronglySorted Z.lt l.
Proof.
  intros Hnd Hs. induction Hs as [|x l Hl IH Hx]; [constructor|].
  inversion_clear Hnd. constructor; [by apply IH|].
  rewrite Forall_forall in Hx |- *. intros y Hy. specialize (Hx y Hy).
  apply Is_true_true, Z.leb_le in Hx. assert (x ≠ y) by (by intros ->). lia.
Qed.

(** [sorted(s)] for a set of integers. *)
Definition sorted_Z (s : gset Z) : list Z := isort Z.leb (elements s).

Lemma elem_of_sorted_Z x s : x ∈ sorted_Z s ↔ x ∈ s.
Proof. unfold sorted_Z. by rewrite elem_of_isort, elem_of_elements. Qed.

Lemma sorted_Z_lt s : StronglySorted Z.lt (sorted_Z s).
Proof.
  apply StronglySorted_le_lt.
  - apply NoDup_isort, NoDup_elements.
  - apply (isort_StronglySorted _ (λ _, True)); [..|by apply Forall_true];
      intros *; rewrite !Z.leb_le; lia.
Qed.

Lemma length_sorted_Z s : length (sorted_Z s) = size s.
Proof. apply length_isort. Qed.

#[export] Hint Resolve sorted_Z_lt NoDup_elements : mqlab.
