(* ===== verification/PyText.v ===== *)
(** * Python text and bytes

    A Python [str] is a list of code points, [bytes] a list of octets.  This
    file defines the [str] and [bytes] operations the modelled modules use
    (literals, splitting, stripping, searching, decimal conversion, UTF-8) and
    the lemmas about them.  Names follow the Python methods. *)

From S2P Require Import Prelude.
From stdpp Require Export strings.

Abbreviation text := (list N).
Abbreviation bytes := (list N) (only parsing).

(** An ASCII string literal of the source. *)
Definition u (s : string) : text := Ascii.N_of_ascii <$> String.list_ascii_of_string s.
Arguments u : simpl never.

(** [str.__lt__]: lexicographic on code points. *)
Fixpoint text_leb (s t : text) : bool :=
  match s, t with
  | [], _ => true
  | _ :: _, [] => false
  | a :: s', b :: t' => (a <? b)%N || ((a =? b)%N && text_leb s' t')
  end.

Lemma text_leb_total s t : text_leb s t = true ∨ text_leb t s = true.
Proof.
  revert t. induction s as [|a s IH]; intros [|b t]; simpl; auto.
  destruct (IH t), (N.ltb_spec a b), (N.ltb_spec b a), (N.eqb_spec a b),
    (N.eqb_spec b a); simpl; auto; lia.
Qed.

Lemma text_leb_trans s t v :
  text_leb s t = true → text_leb t v = true → text_leb s v = true.
Proof.
  revert t v. induction s as [|a s IH]; intros [|b t] [|c v]; simpl; try done.
  rewrite !orb_true_iff, !andb_true_iff, !N.ltb_lt, !N.eqb_eq.
  intros [?|[-> ?]] [?|[-> ?]]; try (left; lia). right. eauto.
Qed.

Lemma text_leb_antisym s t : text_leb s t = true → text_leb t s = true → s = t.
Proof.
  revert t. induction s as [|a s IH]; intros [|b t]; simpl; try done.
  rewrite !orb_true_iff, !andb_true_iff, !N.ltb_lt, !N.eqb_eq.
  intros [?|[-> ?]] [?|[? ?]]; try lia. f_equal. auto.
Qed.

(** [sorted(l)] for a list of strings. *)
Definition sorted_text (l : list text) : list text := isort text_leb l.

(** ** Character classes (Unicode database of the interpreter) *)

(** [str.isspace] of one character. *)
Definition is_space (c : N) : bool :=
  (((9 <=? c) && (c <=? 13)) || ((28 <=? c) && (c <=? 32))
   || (c =? 133) || (c =? 160) || (c =? 5760) || ((8192 <=? c) && (c <=? 8202))
   || (c =? 8232) || (c =? 8233) || (c =? 8239) || (c =? 8287) || (c =? 12288))%N.

(** The line boundaries of [str.splitlines]. *)
Definition is_linebreak (c : N) : bool :=
  (((10 <=? c) && (c <=? 13)) || ((28 <=? c) && (c <=? 30))
   || (c =? 133) || (c =? 8232) || (c =? 8233))%N.

(** The zeros of the decimal digit blocks (category Nd); each block holds ten
    consecutive digits. *)
Definition decimal_zeros : list N :=
  [48; 1632; 1776; 1984; 2406; 2534; 2662; 2790; 2918; 3046; 3174; 3302; 3430; 3558;
   3664; 3792; 3872; 4160; 4240; 6112; 6160; 6470; 6608; 6784; 6800; 6992; 7088; 7232;
   7248; 42528; 43216; 43264; 43472; 43504; 43600; 44016; 65296; 66720; 68912; 69734;
   69872; 69942; 70096; 70384; 70736; 70864; 71248; 71360; 71472; 71904; 72016; 72784;
   73040; 73120; 92768; 92864; 93008; 120782; 120792; 120802; 120812; 120822; 123200;
   123632; 125264; 130032]%N.

(** [unicodedata.decimal(c)], when [c] is a decimal digit. *)
Definition decimal_digit (c : N) : option N :=
  z ← list_find (λ z, (z ≤ c < z + 10)%N) decimal_zeros; Some (c - z.2)%N.

(** [\w] of a pattern: a letter, digit or underscore; what the Unicode database says above
    ASCII is [uword]. *)
Definition word_char (uword : N → bool) (c : N) : bool :=
  (((48 <=? c) && (c <=? 57)) || ((65 <=? c) && (c <=? 90)) || ((97 <=? c) && (c <=? 122))
   || (c =? 95) || ((128 <=? c) && uword c))%N.

(** [str.replace] of one character. *)
Definition replace_char (c : N) (r : text) (s : text) : text := s ≫= λ x, if (x =? c)%N then r else [x].

(** [\d] of a pattern. *)
Definition re_digit (c : N) : bool := bool_decide (is_Some (decimal_digit c)).

(** ** Stripping and splitting *)

(** The longest prefix of such characters, and the rest. *)
Fixpoint span (p : N → bool) (s : text) : text * text :=
  match s with
  | c :: s' => if p c then let '(a, b) := span p s' in (c :: a, b) else ([], s)
  | [] => ([], [])
  end.

Fixpoint lstrip_by (p : N → bool) (s : text) : text :=
  match s with
  | [] => []
  | c :: s' => if p c then lstrip_by p s' else s
  end.
Definition rstrip_by (p : N → bool) (s : text) : text := rev (lstrip_by p (rev s)).
Definition lstrip (s : text) : text := lstrip_by is_space s.
Definition rstrip (s : text) : text := rstrip_by is_space s.
Definition strip (s : text) : text := rstrip (lstrip s).

(** [s.partition(sep)] for a one-character separator: [None] when absent. *)
Fixpoint cut (sep : N) (s : text) : option (text * text) :=
  match s with
  | [] => None
  | c :: s' =>
      if (c =? sep)%N then Some ([], s')
      else match cut sep s' with Some (a, b) => Some (c :: a, b) | None => None end
  end.

(** [s.split(sep, n)] for a one-character separator. *)
Fixpoint split_max (sep : N) (n : nat) (s : text) : list text :=
  match n with
  | 0 => [s]
  | S n' =>
      match cut sep s with
      | Some (a, b) => a :: split_max sep n' b
      | None => [s]
      end
  end.

(** [s.split(sep)]: at most one piece more than there are characters. *)
Definition split_on (sep : N) (s : text) : list text := split_max sep (length s) s.

(** [s.split()]: the maximal runs of non-blank characters. *)
Fixpoint split_ws_aux (cur : text) (s : text) : list text :=
  match s with
  | [] => match cur with [] => [] | _ => [rev cur] end
  | c :: s' =>
      if is_space c then
        match cur with [] => split_ws_aux [] s' | _ => rev cur :: split_ws_aux [] s' end
      else split_ws_aux (c :: cur) s'
  end.
Definition split_ws (s : text) : list text := split_ws_aux [] s.

(** [s.splitlines()]; a CR LF pair is one boundary, and no empty last line is
    produced after a final boundary. *)
Fixpoint splitlines_aux (cur : text) (s : text) : list text :=
  match s with
  | [] => match cur with [] => [] | _ => [rev cur] end
  | c :: s' =>
      if is_linebreak c then
        rev cur :: match c, s' with
                   | 13%N, 10%N :: s'' => splitlines_aux [] s''
                   | _, _ => splitlines_aux [] s'
                   end
      else splitlines_aux (c :: cur) s'
  end.
Definition splitlines (s : text) : list text := splitlines_aux [] s.

(** [sep.join(l)]. *)
Fixpoint str_join (sep : text) (l : list text) : text :=
  match l with
  | [] => []
  | [s] => s
  | s :: l => s ++ sep ++ str_join sep l
  end.

Definition startswith (s p : text) : bool := bool_decide (p `prefix_of` s).

(** [name[:-1]] of a name that ends with a newline: where [$] matches too. *)
Definition drop_newline (s : text) : text :=
  match rev s with 10%N :: r => rev r | _ => s end.

(** [s] without a suffix it must have. *)
Definition strip_suffix (suffix s : text) : option text :=
  if startswith (rev s) (rev suffix) then Some (rev (drop (length suffix) (rev s))) else None.

(** [s.endswith(suffix)]. *)
Definition endswith (s suffix : text) : bool := startswith (rev s) (rev suffix).

(** [s.find(p)]: index of the first occurrence. *)
Fixpoint find_sub (p s : text) : option nat :=
  if startswith s p then Some 0
  else match s with
       | [] => None
       | _ :: s' => S <$> find_sub p s'
       end.

(** [s.lower()] on the ASCII letters. *)
Definition lower_ascii (s : text) : text :=
  (λ c, if ((65 <=? c) && (c <=? 90))%N then (c + 32)%N else c) <$> s.

(** ** Lemmas *)

Lemma strip_suffix_app suffix s : strip_suffix suffix (s ++ suffix) = Some s.
Proof.
  unfold strip_suffix. rewrite rev_app_distr.
  assert (startswith (rev suffix ++ rev s) (rev suffix) = true) as -> by (apply bool_decide_eq_true; by apply prefix_app_r).
  rewrite <-(length_rev suffix), drop_app_length. by rewrite rev_involutive.
Qed.

Lemma cut_Some sep s a b : cut sep s = Some (a, b) ↔ s = a ++ sep :: b ∧ sep ∉ a.
Proof.
  revert a b. induction s as [|c s IH]; intros a b; simpl.
  - split; [done|]. intros [H _]. by destruct a.
  - destruct (N.eqb_spec c sep) as [->|Hne].
    + split; [intros [= <- <-]; split; [done|set_solver]|].
      intros [Heq Hnot]. destruct a as [|c' a]; simplify_eq/=; [done|]. set_solver.
    + split.
      * destruct (cut sep s) as [[a' b']|]; [|done]. intros [= <- <-].
        destruct (proj1 (IH a' b') eq_refl) as [-> ?]. set_solver.
      * intros [Heq Hnot]. destruct a as [|c' a]; simplify_eq/=.
        apply not_elem_of_cons in Hnot as [_ Hnot].
        by rewrite (proj2 (IH a b) (conj eq_refl Hnot)).
Qed.

Lemma cut_None sep s : cut sep s = None ↔ sep ∉ s.
Proof.
  split.
  - intros Hcut Hin. apply list_elem_of_split_l in Hin as (a & b & -> & Ha).
    by rewrite (proj2 (cut_Some _ _ a b)) in Hcut.
  - intros Hnot. destruct (cut sep s) as [[a b]|] eqn:H; [|done].
    apply cut_Some in H as [-> _]. set_solver.
Qed.

Lemma cut_app sep a b : sep ∉ a → cut sep (a ++ sep :: b) = Some (a, b).
Proof. intros. by apply cut_Some. Qed.

Lemma split_max_app sep n a b :
  sep ∉ a → split_max sep (S n) (a ++ sep :: b) = a :: split_max sep n b.
Proof. intros. simpl. by rewrite cut_app. Qed.

Lemma str_join_cons sep s l : l ≠ [] → str_join sep (s :: l) = s ++ sep ++ str_join sep l.
Proof. by destruct l. Qed.

Lemma str_join_head sep x l : ∃ q, str_join sep (x :: l) = x ++ q.
Proof. destruct l; [exists []; by rewrite app_nil_r|by eexists]. Qed.

Lemma split_max_ne sep n s : split_max sep n s ≠ [].
Proof. destruct n; simpl; [done|]. by destruct (cut sep s) as [[? ?]|]. Qed.

(** Joining the pieces of a split restores the text. *)
Lemma str_join_split_max sep n s : str_join [sep] (split_max sep n s) = s.
Proof.
  revert s. induction n as [|n IH]; intros s; [done|]. simpl.
  destruct (cut sep s) as [[a b]|] eqn:Hcut; [|done].
  apply cut_Some in Hcut as [-> _].
  by rewrite str_join_cons, IH by apply split_max_ne.
Qed.

Lemma split_max_pieces sep n s p : p ∈ split_max sep n s →
  p = List.last (split_max sep n s) [] ∨ sep ∉ p.
Proof.
  revert s. induction n as [|n IH]; intros s; simpl; [set_solver|].
  destruct (cut sep s) as [[a b]|] eqn:Hcut; [|set_solver].
  apply cut_Some in Hcut as [-> Ha].
  rewrite elem_of_cons. intros [->|Hp]; [by right|].
  destruct (IH b Hp) as [Hl|]; [|by right]. left. rewrite Hl.
  destruct (split_max sep n b) eqn:E; [set_solver|done].
Qed.

Lemma lstrip_by_id p c s : p c = false → lstrip_by p (c :: s) = c :: s.
Proof. intros H. simpl. by rewrite H. Qed.

Lemma lstrip_by_all p s t : Forall (λ c, p c = true) s → lstrip_by p (s ++ t) = lstrip_by p t.
Proof. induction 1 as [|c s Hc _ IH]; simpl; [done|]. by rewrite Hc. Qed.

Lemma span_app p a s : Forall (λ c, p c = true) a → match s with c :: _ => p c = false | [] => True end →
  span p (a ++ s) = (a, s).
Proof.
  intros Ha Hs. induction Ha as [|c a Hc Ha IH]; [destruct s as [|c s]; [done|cbn; by rewrite Hs]|].
  cbn. by rewrite Hc, IH.
Qed.

Lemma rstrip_by_app p s c t :
  p c = false → Forall (λ c, p c = true) t →
  rstrip_by p (s ++ c :: t) = s ++ [c].
Proof.
  intros Hc Ht. unfold rstrip_by.
  rewrite rev_app_distr. simpl. rewrite <-!app_assoc. simpl.
  rewrite lstrip_by_all; [|by apply Forall_rev].
  rewrite lstrip_by_id by done. simpl. by rewrite rev_involutive.
Qed.

Lemma find_sub_Some p s i :
  find_sub p s = Some i ↔
    p `prefix_of` drop i s ∧ i ≤ length s ∧ ∀ j, j < i → ¬ p `prefix_of` drop j s.
Proof.
  revert i. induction s as [|c s IH]; intros i; simpl; unfold startswith;
    case_bool_decide as Hp.
  - split; [intros [= <-]; split_and!; [done|lia|lia]|].
    intros (_ & Hi & _). f_equal. lia.
  - split; [done|]. intros (H & _ & _). by rewrite drop_nil in H.
  - split; [intros [= <-]; split_and!; [done|lia|lia]|].
    intros (_ & _ & Hmin). destruct i as [|i]; [done|].
    destruct (Hmin 0); [lia|done].
  - rewrite fmap_Some. setoid_rewrite IH. split.
    + intros (j & (Hj & Hlen & Hmin) & ->). split; [done|]. split; [lia|].
      intros [|k] Hk; [done|]. apply Hmin. lia.
    + intros (Hi & Hlen & Hmin). destruct i as [|i]; [done|].
      exists i. split; [|done]. split; [done|]. split; [lia|].
      intros j Hj. apply (Hmin (S j)). lia.
Qed.

Lemma find_sub_None p s : find_sub p s = None ↔ ∀ i, ¬ p `prefix_of` drop i s.
Proof.
  induction s as [|c s IH]; simpl; unfold startswith; case_bool_decide as Hp.
  - split; [done|]. intros H. by destruct (H 0).
  - split; [|done]. intros _ i. by rewrite drop_nil.
  - split; [done|]. intros H. by destruct (H 0).
  - rewrite fmap_None, IH. split; [intros H [|i]; [done|apply H]|].
    intros H i. apply (H (S i)).
Qed.

(** ** Lines and blanks *)

Lemma splitlines_aux_line cur s rest :
  Forall (λ c, is_linebreak c = false) s →
  splitlines_aux cur (s ++ 10%N :: rest) = (rev cur ++ s) :: splitlines_aux [] rest.
Proof.
  intros Hs. revert cur. induction Hs as [|c s Hc _ IH]; intros cur; simpl.
  - by rewrite app_nil_r.
  - rewrite Hc, IH. simpl. by rewrite <-app_assoc.
Qed.

(** Lines written with a final newline each are read back one by one. *)
Lemma splitlines_concat (ls : list text) :
  Forall (Forall (λ c, is_linebreak c = false)) ls →
  splitlines (concat ((λ l, l ++ [10%N]) <$> ls)) = ls.
Proof.
  unfold splitlines. induction 1 as [|l ls Hl _ IH]; csimpl; [done|].
  rewrite <-app_assoc. simpl. rewrite splitlines_aux_line by done. by rewrite IH.
Qed.

(** Joined lines with a final line feed, split at the line feeds. *)
Lemma split_max_lines n (ls : list text) :
  Forall (λ l, 10%N ∉ l) ls → length ls ≤ n →
  split_max 10 n (concat ((λ l, l ++ [10%N]) <$> ls)) = ls ++ [[]].
Proof.
  intros Hl. revert n. induction Hl as [|l ls Hl _ IH]; intros n Hn; csimpl.
  { by destruct n. }
  destruct n as [|n]; [simpl in Hn; lia|]. rewrite <-app_assoc. cbn [app].
  rewrite split_max_app by done. rewrite IH; [done|simpl in *; lia].
Qed.

Lemma split_on_lines (ls : list text) :
  Forall (λ l, 10%N ∉ l) ls → split_on 10 (concat ((λ l, l ++ [10%N]) <$> ls)) = ls ++ [[]].
Proof.
  intros Hl. apply split_max_lines; [done|]. clear Hl.
  induction ls as [|l ls IH]; csimpl; [lia|]. rewrite !length_app. simpl. lia.
Qed.

Lemma str_join_lines (ls : list text) :
  ls ≠ [] → str_join [10%N] ls ++ [10%N] = concat ((λ l, l ++ [10%N]) <$> ls).
Proof.
  induction ls as [|l [|l2 ls] IH]; [done|csimpl; by rewrite app_nil_r|]. intros _.
  rewrite str_join_cons by done. rewrite <-!app_assoc, IH by done. csimpl. by rewrite <-!app_assoc.
Qed.

Lemma lstrip_by_nil p s : lstrip_by p s = [] ↔ Forall (λ c, p c = true) s.
Proof.
  induction s as [|c s IH]; simpl; [split; constructor|].
  destruct (p c) eqn:Hc; [rewrite IH, Forall_cons; naive_solver|].
  rewrite Forall_cons. naive_solver congruence.
Qed.

(** [s.strip()] is empty exactly when every character is blank. *)
Lemma strip_nil s : strip s = [] ↔ Forall (λ c, is_space c = true) s.
Proof.
  unfold strip, rstrip, rstrip_by, lstrip. split.
  - intros H. apply (f_equal (@rev N)) in H. rewrite rev_involutive in H. simpl in H.
    apply lstrip_by_nil, Forall_rev in H. rewrite rev_involutive in H.
    destruct (lstrip_by is_space s) as [|c s'] eqn:E; [by apply lstrip_by_nil|].
    exfalso. inversion_clear H as [|? ? Hc _]. revert E. clear -Hc.
    induction s as [|d s IH]; simpl; [done|].
    destruct (is_space d) eqn:Hd; [done|]. intros [= -> _]. congruence.
  - intros H%lstrip_by_nil. by rewrite H.
Qed.

(** Every line boundary is a blank, so a text without blanks is one line. *)
Lemma linebreak_blank c : is_linebreak c = true → is_space c = true.
Proof.
  unfold is_linebreak, is_space. rewrite !orb_true_iff, !andb_true_iff, !N.leb_le, !N.eqb_eq. lia.
Qed.

Lemma word_line w : Forall (λ c, is_space c = false) w → Forall (λ c, is_linebreak c = false) w.
Proof.
  apply List.Forall_impl. intros c Hc. destruct (is_linebreak c) eqn:H; [|done]. apply linebreak_blank in H. congruence.
Qed.

(** ** Words *)

(** A word: characters, none of them blank. *)
Definition word_ok (w : text) : Prop := w ≠ [] ∧ Forall (λ c, is_space c = false) w.

#[export] Instance word_ok_dec w : Decision (word_ok w).
Proof. unfold word_ok. apply _. Defined.

Lemma split_ws_aux_word cur w rest :
  Forall (λ c, is_space c = false) w →
  split_ws_aux cur (w ++ rest) = split_ws_aux (rev w ++ cur) rest.
Proof.
  intros Hw. revert cur. induction Hw as [|c w Hc _ IH]; intros cur; [done|].
  cbn [app split_ws_aux rev]. by rewrite Hc, IH, <-app_assoc.
Qed.

Lemma rev_ne (w : text) : w ≠ [] → rev w ≠ [].
Proof. intros Hw Hr. apply Hw. by rewrite <-(rev_involutive w), Hr. Qed.

Lemma split_ws_word w rest :
  word_ok w → split_ws (w ++ 32%N :: rest) = w :: split_ws rest.
Proof.
  intros [Hne Hw]. unfold split_ws. rewrite split_ws_aux_word, app_nil_r by done.
  apply rev_ne in Hne as Hr. cbn [split_ws_aux]. replace (is_space 32) with true by done.
  rewrite <-(rev_involutive w) at 2. by destruct (rev w).
Qed.

Lemma split_ws_last w : word_ok w → split_ws w = [w].
Proof.
  intros [Hne Hw]. unfold split_ws. rewrite <-(app_nil_r w) at 1.
  rewrite split_ws_aux_word, app_nil_r by done. apply rev_ne in Hne as Hr. cbn [split_ws_aux].
  rewrite <-(rev_involutive w) at 2. by destruct (rev w).
Qed.

Lemma split_ws_blank c s : is_space c = true → split_ws (c :: s) = split_ws s.
Proof. intros Hc. unfold split_ws. cbn [split_ws_aux]. by rewrite Hc. Qed.

(** Words joined by spaces are split back. *)
Lemma split_ws_join ws : Forall word_ok ws → split_ws (str_join [32%N] ws) = ws.
Proof.
  induction 1 as [|w ws Hw Hws IH]; [done|]. destruct ws as [|w2 ws].
  - by apply split_ws_last.
  - rewrite str_join_cons by done. cbn [app]. by rewrite split_ws_word, IH.
Qed.

(** A character that is no blank is no line break either. *)
Lemma linebreak_space c : is_linebreak c = true → is_space c = true.
Proof.
  unfold is_linebreak, is_space. rewrite !orb_true_iff, !andb_true_iff, !N.leb_le, !N.eqb_eq.
  intros H. destruct_or! H; try tauto; repeat (first [left; lia | right]); lia.
Qed.

Lemma join_words_line ws :
  Forall word_ok ws → Forall (λ c, is_linebreak c = false) (str_join [32%N] ws).
Proof.
  assert (∀ w, word_ok w → Forall (λ c, is_linebreak c = false) w) as Hw.
  { intros w [_ Hw]. eapply Forall_impl; [exact Hw|]. intros c Hc.
    destruct (is_linebreak c) eqn:Hl; [|done]. apply linebreak_space in Hl. congruence. }
  induction 1 as [|w ws Hok Hws IH]; [constructor|]. destruct ws as [|w2 ws]; [by apply Hw|].
  rewrite str_join_cons by done. rewrite !Forall_app. split_and!; [by apply Hw|by repeat constructor|done].
Qed.

Lemma strip_ne_word w rest : word_ok w → strip (w ++ rest) ≠ [].
Proof.
  intros [Hne Hw] [Hs _]%strip_nil%Forall_app. destruct w as [|c w]; [done|].
  apply Forall_cons in Hw as [Hc _]. apply Forall_cons in Hs as [Hc' _]. congruence.
Qed.

(** ** Literal texts *)

(** A closed decidable statement, by evaluation. *)
Ltac closed_text := first [done | apply (bool_decide_unpack _); by vm_compute].

(** Decides the equalities of literal texts in the goal, as [decide]s. *)
Ltac decide_closed :=
  repeat match goal with
  | |- context [decide (?a = ?b)] =>
      let e := eval vm_compute in (bool_decide (a = b)) in
      match e with
      | true => rewrite (decide_True (P := a = b)) by done
      | false => rewrite (decide_False (P := a = b)) by closed_text
      end; cbn [mbind res_bind]
  end.

(** The same for the tests of conditionals. *)
Ltac test_closed :=
  repeat match goal with
  | |- context [bool_decide (?a = ?b)] =>
      let e := eval vm_compute in (bool_decide (a = b)) in
      match e with
      | true => rewrite (bool_decide_eq_true_2 (a = b)) by done
      | false => rewrite (bool_decide_eq_false_2 (a = b)) by closed_text
      end; cbn [mbind res_bind]
  end.
