(* ===== verification/PyCodec.v ===== *)
(** * Decimal and UTF-8 codecs of Python

    [str(int)] and [int(str)] with the interpreter's digit limit, and the strict
    UTF-8 codec behind [str.encode("utf-8")] and [bytes.decode("utf-8")].  Each
    codec comes with its round trip. *)

From S2P Require Import Prelude PyText.
From Stdlib Require Import DecimalN.

(** ** Decimal integers *)

(** [sys.get_int_max_str_digits()]: conversions of longer numbers raise ValueError. *)
Definition int_max_str_digits : nat := 4300.

Fixpoint uint_text (d : Decimal.uint) : text :=
  match d with
  | Decimal.Nil => []
  | Decimal.D0 d => 48%N :: uint_text d | Decimal.D1 d => 49%N :: uint_text d
  | Decimal.D2 d => 50%N :: uint_text d | Decimal.D3 d => 51%N :: uint_text d
  | Decimal.D4 d => 52%N :: uint_text d | Decimal.D5 d => 53%N :: uint_text d
  | Decimal.D6 d => 54%N :: uint_text d | Decimal.D7 d => 55%N :: uint_text d
  | Decimal.D8 d => 56%N :: uint_text d | Decimal.D9 d => 57%N :: uint_text d
  end.

Definition N_text (n : N) : text := uint_text (N.to_uint n).

(** The decimal rendering of an integer, as [str(z)] or [f"{z}"] writes it. *)
Definition Z_text (z : Z) : text :=
  if (z <? 0)%Z then 45%N :: N_text (Z.abs_N z) else N_text (Z.abs_N z).

(** [str(z)]: [None] is the ValueError of a number over the digit limit. *)
Definition str_int (z : Z) : option text :=
  if length (N_text (Z.abs_N z)) <=? int_max_str_digits then Some (Z_text z) else None.

Fixpoint uint_of_digits (l : list N) : Decimal.uint :=
  match l with
  | [] => Decimal.Nil
  | d :: l =>
      (match d with
       | 0 => Decimal.D0 | 1 => Decimal.D1 | 2 => Decimal.D2 | 3 => Decimal.D3
       | 4 => Decimal.D4 | 5 => Decimal.D5 | 6 => Decimal.D6 | 7 => Decimal.D7
       | 8 => Decimal.D8 | _ => Decimal.D9
       end)%N (uint_of_digits l)
  end.

(** The blanks [int()] skips once the text is mapped to ASCII. *)
Definition is_int_space (c : N) : bool := ((9 <=? c) && (c <=? 13) || (c =? 32))%N.

(** The interpreter's mapping of blanks and decimal digits to ASCII. *)
Definition int_ascii (c : N) : N :=
  if (c <? 128)%N then c
  else if is_space c then 32%N
  else match decimal_digit c with Some d => (48 + d)%N | None => 63%N end.

(** Digits with single underscores between them; [after] is true after a digit. *)
Fixpoint int_digits (after : bool) (s : text) : option (list N) :=
  match s with
  | [] => if after then Some [] else None
  | c :: s' =>
      if ((48 <=? c) && (c <=? 57))%N then cons (c - 48)%N <$> int_digits true s'
      else if ((c =? 95)%N && after) then int_digits false s'
      else None
  end.

(** [int(s)]: [None] is the ValueError. *)
Definition int_of_text (s : text) : option Z :=
  let s := rstrip_by is_int_space (lstrip_by is_int_space (int_ascii <$> s)) in
  let '(neg, s) :=
    match s with
    | 45%N :: s' => (true, s')
    | 43%N :: s' => (false, s')
    | _ => (false, s)
    end in
  ds ← int_digits false s;
  if length ds <=? int_max_str_digits then
    let n := Z.of_N (N.of_uint (uint_of_digits ds)) in
    Some (if neg : bool then (- n)%Z else n)
  else None.

Lemma uint_text_digits d : Forall (λ c, 48 ≤ c ≤ 57)%N (uint_text d).
Proof. induction d; simpl; constructor; done || lia. Qed.

Lemma length_uint_text_pos n : N.to_uint n ≠ Decimal.Nil.
Proof.
  intros H. assert (N.of_uint (N.to_uint n) = n) as Hn by apply Unsigned.of_to.
  destruct n as [|p]; [done|]. by rewrite H in Hn.
Qed.

Lemma uint_of_digits_text d : uint_of_digits ((λ c, c - 48)%N <$> uint_text d) = d.
Proof. induction d; simpl; f_equal; done. Qed.

Lemma int_digits_uint d after :
  after = true ∨ d ≠ Decimal.Nil →
  int_digits after (uint_text d) = Some ((λ c, c - 48)%N <$> uint_text d).
Proof.
  revert after. induction d; intros after Hd; simpl;
    try (rewrite IHd by (by left); done).
  by destruct Hd as [->|].
Qed.

Lemma int_ascii_digits s : Forall (λ c, 45 ≤ c ≤ 57)%N s → int_ascii <$> s = s.
Proof.
  induction 1 as [|c s Hc _ IH]; csimpl; [done|]. rewrite IH. f_equal.
  unfold int_ascii. destruct (N.ltb_spec c 128); [done|lia].
Qed.

Lemma is_int_space_digit c : (45 ≤ c ≤ 57)%N → is_int_space c = false.
Proof.
  intros. unfold is_int_space.
  rewrite orb_false_iff, andb_false_iff, N.leb_gt, N.leb_gt, N.eqb_neq. lia.
Qed.

Lemma strip_digits s :
  Forall (λ c, 45 ≤ c ≤ 57)%N s →
  rstrip_by is_int_space (lstrip_by is_int_space s) = s.
Proof.
  intros Hs. assert (lstrip_by is_int_space s = s) as ->.
  { destruct Hs as [|c s Hc]; [done|]. by apply lstrip_by_id, is_int_space_digit. }
  destruct s as [|c s _] using rev_ind; [done|].
  apply Forall_app in Hs as [_ Hc]. inversion_clear Hc.
  apply rstrip_by_app; [by apply is_int_space_digit|done].
Qed.

Lemma Z_text_digits z : Forall (λ c, 45 ≤ c ≤ 57)%N (Z_text z).
Proof.
  unfold Z_text, N_text.
  assert (Forall (λ c, 45 ≤ c ≤ 57)%N (uint_text (N.to_uint (Z.abs_N z)))).
  { eapply Forall_impl; [apply uint_text_digits|simpl; lia]. }
  case_if; [constructor; [lia|]|]; done.
Qed.

Lemma N_text_cons n : ∃ c s, N_text n = c :: s ∧ (48 ≤ c ≤ 57)%N.
Proof.
  unfold N_text. pose proof (length_uint_text_pos n) as Hne.
  pose proof (uint_text_digits (N.to_uint n)) as Hd.
  destruct (uint_text (N.to_uint n)) as [|c s] eqn:E.
  - by destruct (N.to_uint n).
  - inversion_clear Hd. eauto.
Qed.

(** The value of a run of ASCII digits, without the interpreter's limit. *)
Definition digits_value (s : text) : N := N.of_uint (uint_of_digits ((λ c, c - 48)%N <$> s)).

Lemma digits_value_text n : digits_value (N_text n) = n.
Proof. unfold digits_value, N_text. rewrite uint_of_digits_text. apply Unsigned.of_to. Qed.

Lemma N_text_digits n : Forall (λ c, 48 ≤ c ≤ 57)%N (N_text n).
Proof. apply uint_text_digits. Qed.

(** [int(str(z)) == z]. *)
Lemma int_of_str_int z s : str_int z = Some s → int_of_text s = Some z.
Proof.
  unfold str_int. destruct (Nat.leb_spec (length (N_text (Z.abs_N z))) int_max_str_digits)
    as [Hlen|]; [|done]. intros [= <-]. unfold int_of_text.
  rewrite int_ascii_digits, strip_digits by apply Z_text_digits.
  assert (int_digits false (N_text (Z.abs_N z)) =
    Some ((λ c, c - 48)%N <$> N_text (Z.abs_N z))) as Hdig.
  { apply int_digits_uint. right. apply length_uint_text_pos. }
  pose proof (digits_value_text (Z.abs_N z)) as Hval. unfold digits_value in Hval.
  unfold Z_text. destruct (Z.ltb_spec z 0).
  - cbn [mbind option_bind]. rewrite Hdig. simpl. rewrite length_fmap.
    destruct (Nat.leb_spec (length (N_text (Z.abs_N z))) int_max_str_digits); [|lia].
    rewrite Hval. f_equal. lia.
  - destruct (N_text_cons (Z.abs_N z)) as (c & s & Hs & Hc).
    rewrite Hs in *. destruct c as [|p]; [lia|].
    assert (match N.pos p :: s with
      | 45%N :: s' => (true, s') | 43%N :: s' => (false, s')
      | _ => (false, N.pos p :: s) end = (false, N.pos p :: s)) as ->.
    { do 6 (destruct p as [p|p|]; try reflexivity); lia. }
    rewrite Hdig. cbn [mbind option_bind]. rewrite length_fmap.
    destruct (Nat.leb_spec (length (N.pos p :: s)) int_max_str_digits); [|lia].
    rewrite Hval. f_equal. lia.
Qed.

(** An integer that was read can be written. *)
Lemma length_uint_text d : length (uint_text d) = Decimal.nb_digits d.
Proof. induction d; simpl; by rewrite ?IHd. Qed.

Lemma nb_digits_of_digits l : Decimal.nb_digits (uint_of_digits l) = length l.
Proof.
  induction l as [|d l IH]; [done|]. cbn [uint_of_digits length]. rewrite <-IH.
  destruct d as [|p]; [done|]. do 4 (destruct p as [p|p|]; try done).
Qed.

Lemma length_N_text_digits l : l ≠ [] → length (N_text (N.of_uint (uint_of_digits l))) ≤ length l.
Proof.
  intros Hl. unfold N_text. rewrite DecimalN.Unsigned.to_of, length_uint_text, <-(nb_digits_of_digits l).
  apply DecimalFacts.nb_digits_unorm. intros Hn. apply Hl.
  apply length_zero_iff_nil. by rewrite <-nb_digits_of_digits, Hn.
Qed.

(** ** How many digits a number has *)

Lemma revapp_digits l m :
  Decimal.revapp (uint_of_digits l) (uint_of_digits m) = uint_of_digits (rev_append l m).
Proof.
  revert m. induction l as [|d l IH]; intros m; [done|]. cbn [rev_append]. rewrite <-IH.
  cbn [uint_of_digits]. destruct d as [|p]; [done|]. do 4 (destruct p as [p|p|]; try done).
Qed.

Lemma of_lu_digit r l :
  (r ≤ 9)%N →
  DecimalPos.Unsigned.of_lu (uint_of_digits (r :: l)) =
    (r + 10 * DecimalPos.Unsigned.of_lu (uint_of_digits l))%N.
Proof.
  intros Hr. assert (r = 0 ∨ r = 1 ∨ r = 2 ∨ r = 3 ∨ r = 4 ∨ r = 5 ∨ r = 6 ∨ r = 7 ∨ r = 8 ∨ r = 9)%N
    as Hcase by lia.
  destruct_or! Hcase; subst r; cbn [uint_of_digits DecimalPos.Unsigned.of_lu]; lia.
Qed.

Lemma of_digits_snoc l r :
  (r ≤ 9)%N →
  N.of_uint (uint_of_digits (l ++ [r])) = (10 * N.of_uint (uint_of_digits l) + r)%N.
Proof.
  intros Hr. unfold N.of_uint. rewrite !DecimalPos.Unsigned.of_uint_alt. unfold Decimal.rev.
  change Decimal.Nil with (uint_of_digits []). rewrite !revapp_digits, <-!rev_alt, rev_unit.
  rewrite of_lu_digit by done. lia.
Qed.

Lemma of_digits_lt l :
  Forall (λ d, d ≤ 9)%N l → (N.of_uint (uint_of_digits l) < 10 ^ N.of_nat (length l))%N.
Proof.
  induction l as [|r l IH] using rev_ind; intros Hl; [done|].
  apply Forall_app in Hl as [Hl Hr]. rewrite Forall_singleton in Hr. rewrite of_digits_snoc by exact Hr.
  rewrite length_app, Nat.add_1_r, Nat2N.inj_succ, N.pow_succ_r'. specialize (IH Hl).
  set (x := (10 ^ N.of_nat (length l))%N) in *. lia.
Qed.

Lemma digits_of k n :
  (n < 10 ^ N.of_nat k)%N → ∃ l, length l = k ∧ N.of_uint (uint_of_digits l) = n.
Proof.
  revert n. induction k as [|k IH]; intros n Hn.
  { exists []. split; [done|]. simpl in *. lia. }
  rewrite Nat2N.inj_succ, N.pow_succ_r' in Hn.
  destruct (IH (n / 10)%N) as (l & Hl & Hv).
  { apply N.Div0.div_lt_upper_bound. lia. }
  pose proof (N.div_mod n 10 ltac:(lia)) as Hd. pose proof (N.mod_lt n 10 ltac:(lia)) as Hm.
  exists (l ++ [(n mod 10)%N]). split; [rewrite length_app; simpl; lia|].
  rewrite of_digits_snoc, Hv by lia. lia.
Qed.

Lemma length_N_text_le a b : (a ≤ b)%N → length (N_text a) ≤ length (N_text b).
Proof.
  intros Hab. assert (a < 10 ^ N.of_nat (length (N_text b)))%N as Ha.
  { eapply N.le_lt_trans; [exact Hab|].
    pose proof (of_digits_lt ((λ c, c - 48)%N <$> N_text b)) as Hlt.
    change (N.of_uint _) with (digits_value (N_text b)) in Hlt.
    rewrite digits_value_text, length_fmap in Hlt. apply Hlt, Forall_fmap.
    eapply Forall_impl; [apply N_text_digits|]. intros c Hc. unfold compose. simpl in *. lia. }
  apply digits_of in Ha as (l & Hl & <-). rewrite <-Hl. apply length_N_text_digits.
  intros ->. destruct (N_text_cons b) as (c & s & Hb & _). by rewrite Hb in Hl.
Qed.

(** A smaller number can be written when a larger can. *)
Lemma str_int_le a b : (0 ≤ a ≤ b)%Z → is_Some (str_int b) → is_Some (str_int a).
Proof.
  intros Hab. unfold str_int. intros [s Hb].
  destruct (Nat.leb_spec (length (N_text (Z.abs_N b))) int_max_str_digits) as [Hle|]; [|done].
  pose proof (length_N_text_le (Z.abs_N a) (Z.abs_N b) ltac:(lia)).
  destruct (Nat.leb_spec (length (N_text (Z.abs_N a))) int_max_str_digits); [by eexists|lia].
Qed.

Lemma str_int_of_text s z : int_of_text s = Some z → is_Some (str_int z).
Proof.
  unfold int_of_text. case_match. destruct (int_digits false _) as [ds|] eqn:Hd; simpl; [|done].
  destruct (length ds <=? int_max_str_digits) eqn:Hle; [|done]. apply Nat.leb_le in Hle. intros [= <-]. unfold str_int.
  assert (ds ≠ []) as Hne.
  { intros ->. revert Hd. clear. destruct l as [|c l]; cbn [int_digits]; [done|].
    rewrite andb_false_r. case_match; [|done]. by destruct (int_digits true l). }
  pose proof (length_N_text_digits ds Hne) as Hlen.
  assert (Z.abs_N (if b then - Z.of_N (N.of_uint (uint_of_digits ds))
    else Z.of_N (N.of_uint (uint_of_digits ds)))%Z = N.of_uint (uint_of_digits ds)) as ->
    by (destruct b; lia).
  rewrite (proj2 (Nat.leb_le _ _)) by lia. done.
Qed.

(** Rendered integers hold no separator of the wire formats. *)
Lemma Z_text_word z : word_ok (Z_text z).
Proof.
  split.
  - unfold Z_text. destruct (N_text_cons (Z.abs_N z)) as (c & s & -> & _). by case_match.
  - eapply Forall_impl; [apply Z_text_digits|]. intros c Hc. unfold is_space.
    rewrite !orb_false_iff, !andb_false_iff, !N.leb_gt, !N.eqb_neq. cbv beta in Hc. lia.
Qed.

Lemma int_of_Z_text z : is_Some (str_int z) → int_of_text (Z_text z) = Some z.
Proof.
  intros [t Ht]. apply int_of_str_int. unfold str_int in *. by destruct (_ <=? _).
Qed.

Lemma Z_text_no c z : (c < 45 ∨ 57 < c)%N → c ∉ Z_text z.
Proof.
  intros Hc Hin. pose proof (Z_text_digits z) as Hd.
  rewrite Forall_forall in Hd. specialize (Hd _ Hin). lia.
Qed.

(** ** UTF-8 *)

#[local] Ltac Zify.zify_post_hook ::= Z.to_euclidean_division_equations.

(** A code point [str.encode] accepts: a Unicode scalar value. *)
Definition is_scalar (c : N) : bool :=
  ((c <? 55296) || ((57344 <=? c) && (c <? 1114112)))%N.

(** One character; [None] is the UnicodeEncodeError of a surrogate. *)
Definition utf8_char (c : N) : option bytes :=
  if negb (is_scalar c) then None
  else Some (
    if c <? 128 then [c]
    else if c <? 2048 then [192 + c / 64; 128 + c mod 64]
    else if c <? 65536 then [224 + c / 4096; 128 + (c / 64) mod 64; 128 + c mod 64]
    else [240 + c / 262144; 128 + (c / 4096) mod 64; 128 + (c / 64) mod 64;
          128 + c mod 64])%N.

(** [s.encode("utf-8")]. *)
Fixpoint utf8_encode (s : text) : option bytes :=
  match s with
  | [] => Some []
  | c :: s => b ← utf8_char c; bs ← utf8_encode s; Some (b ++ bs)
  end.

Definition is_cont (b : N) : bool := ((128 <=? b) && (b <? 192))%N.

(** [b.decode("utf-8")]: [None] is the UnicodeDecodeError (an overlong form, a
    surrogate, a truncated or out-of-range sequence). *)
Fixpoint utf8_decode (bs : bytes) : option text :=
  match bs with
  | [] => Some []
  | b0 :: r0 =>
    if (b0 <? 128)%N then cons b0 <$> utf8_decode r0
    else match r0 with
    | [] => None
    | b1 :: r1 =>
      if ((194 <=? b0) && (b0 <? 224) && is_cont b1)%N then
        cons ((b0 - 192) * 64 + (b1 - 128))%N <$> utf8_decode r1
      else match r1 with
      | [] => None
      | b2 :: r2 =>
        let c3 := ((b0 - 224) * 4096 + (b1 - 128) * 64 + (b2 - 128))%N in
        if ((224 <=? b0) && (b0 <? 240) && is_cont b1 && is_cont b2
            && (2048 <=? c3) && is_scalar c3)%N then
          cons c3 <$> utf8_decode r2
        else match r2 with
        | [] => None
        | b3 :: r3 =>
          let c4 := ((b0 - 240) * 262144 + (b1 - 128) * 4096 + (b2 - 128) * 64
                     + (b3 - 128))%N in
          if ((240 <=? b0) && (b0 <? 245) && is_cont b1 && is_cont b2 && is_cont b3
              && (65536 <=? c4) && is_scalar c4)%N then
            cons c4 <$> utf8_decode r3
          else None
        end
      end
    end
  end.

(** Decides the comparisons of the goal. *)
Ltac decide_N :=
  repeat match goal with
  | |- context [(?a <? ?b)%N] => destruct (N.ltb_spec a b); try lia
  | |- context [(?a <=? ?b)%N] => destruct (N.leb_spec a b); try lia
  end.

Lemma utf8_decode_char c b bs :
  utf8_char c = Some b → utf8_decode (b ++ bs) = cons c <$> utf8_decode bs.
Proof.
  unfold utf8_char. destruct (is_scalar c) eqn:Hsc; [|done]. intros [= <-].
  assert (Hs := Hsc). unfold is_scalar in Hs.
  rewrite orb_true_iff, andb_true_iff, !N.ltb_lt, N.leb_le in Hs.
  destruct (N.ltb_spec c 128); [|destruct (N.ltb_spec c 2048);
    [|destruct (N.ltb_spec c 65536)]]; cbn [app utf8_decode]; unfold is_cont.
  - by destruct (N.ltb_spec c 128); [|lia].
  - decide_N. cbn [andb]. f_equal. f_equal. lia.
  - set (c3 := (_ + _ + _)%N). assert (c3 = c) as -> by lia.
    rewrite Hsc. decide_N. done.
  - set (c3 := (_ + _ + _)%N). set (c4 := (_ + _ + _ + _)%N).
    assert (c4 = c) as -> by lia. rewrite Hsc. decide_N. done.
Qed.

(** [s.encode().decode() == s]. *)
Lemma utf8_decode_encode s b : utf8_encode s = Some b → utf8_decode b = Some s.
Proof.
  revert b. induction s as [|c s IH]; intros b; simpl; [by intros [= <-]|].
  intros (b0 & H0 & (bs & Hbs & [= <-])%bind_Some)%bind_Some.
  by rewrite (utf8_decode_char _ _ _ H0), (IH _ Hbs).
Qed.

Lemma utf8_encode_app s t :
  utf8_encode (s ++ t) = (a ← utf8_encode s; b ← utf8_encode t; Some (a ++ b)).
Proof.
  induction s as [|c s IH]; simpl; [by destruct (utf8_encode t)|].
  destruct (utf8_char c); simpl; [|done]. rewrite IH.
  destruct (utf8_encode s); simpl; [|done].
  destruct (utf8_encode t); simpl; [|done]. by rewrite app_assoc.
Qed.

Lemma utf8_encode_ascii s : Forall (λ c, c < 128)%N s → utf8_encode s = Some s.
Proof.
  induction 1 as [|c s Hc _ IH]; simpl; [done|]. unfold utf8_char, is_scalar.
  decide_N. simpl. by rewrite IH.
Qed.

(** ASCII bytes of an encoding come from ASCII characters only. *)
Lemma utf8_char_ascii c b x : utf8_char c = Some b → x ∈ b → (x < 128)%N → x = c.
Proof.
  unfold utf8_char. destruct (is_scalar c) eqn:Hsc; [|done]. intros [= <-].
  decide_N; rewrite ?elem_of_cons, elem_of_nil; intros; destruct_or?; subst; lia || done.
Qed.
