(* ===== verification/PyFloat.v ===== *)
(** * Python floats

    A Python [float] is an IEEE 754 binary64 number; the Standard Library's
    [spec_float] with precision 53 and maximal exponent 1024 computes it.  This
    file defines the comparisons and operations the source uses and shows that,
    away from NaN, the comparison is a total preorder. *)

From S2P Require Import Prelude.
From Stdlib Require Export SpecFloat.

Abbreviation float := spec_float.

Definition prec : Z := 53.
Definition emax : Z := 1024.

Definition fadd (a b : float) : float := SFadd prec emax a b.
Definition fsub (a b : float) : float := SFsub prec emax a b.
Definition fmul (a b : float) : float := SFmul prec emax a b.
Definition fdiv (a b : float) : float := SFdiv prec emax a b.

(** [a < b], [a <= b], [a == b]; every comparison with NaN is false. *)
Definition fltb (a b : float) : bool := SFltb a b.
Definition fleb (a b : float) : bool := SFleb a b.
Definition feqb (a b : float) : bool := SFeqb a b.

(** [m * 2 ** e] rounded to binary64 ([float(m)] when [e] is 0). *)
Definition float_of (m e : Z) : float := binary_normalize prec emax m e false.
Definition float_of_Z (z : Z) : float := float_of z 0.

Definition fzero : float := S754_zero false.
Definition finf : float := S754_infinity false.

Definition is_nan (a : float) : bool := match a with S754_nan => true | _ => false end.

(** [min(a, b)] and [max(a, b)]: the first argument unless the second compares
    strictly below (above) it. *)
Definition fmin (a b : float) : float := if fltb b a then b else a.
Definition fmax (a b : float) : float := if fltb a b then b else a.

(** ** The order of the non-NaN floats *)

(** A key whose lexicographic order is the comparison of floats. *)
Definition fkey (a : float) : Z * Z * Z :=
  match a with
  | S754_zero _ | S754_nan => (0, 0, 0)
  | S754_infinity s => (if s then -2 else 2, 0, 0)
  | S754_finite true m e => (-1, - e, Z.neg m)
  | S754_finite false m e => (1, e, Z.pos m)
  end%Z.

Definition key_lt (p q : Z * Z * Z) : Prop :=
  (p.1.1 < q.1.1 ∨ (p.1.1 = q.1.1 ∧ (p.1.2 < q.1.2 ∨ (p.1.2 = q.1.2 ∧ p.2 < q.2))))%Z.

Lemma SFcompare_key a b :
  is_nan a = false → is_nan b = false →
  match SFcompare a b with
  | Some Lt => key_lt (fkey a) (fkey b)
  | Some Gt => key_lt (fkey b) (fkey a)
  | Some Eq => fkey a = fkey b
  | None => False
  end.
Proof.
  intros Ha Hb. unfold key_lt.
  destruct a as [s|s| |s m e], b as [s'|s'| |s' m' e']; try discriminate;
    try destruct s; try destruct s'; simpl; try lia; try (f_equal; lia).
  - change (Pos.compare_cont Eq m m') with (m ?= m')%positive.
    destruct (Z.compare_spec e e'), (Pos.compare_spec m m'); simpl; subst; try lia; done.
  - change (Pos.compare_cont Eq m m') with (m ?= m')%positive.
    destruct (Z.compare_spec e e'), (Pos.compare_spec m m'); simpl; subst; try lia; done.
Qed.

Lemma fleb_key a b :
  is_nan a = false → is_nan b = false →
  fleb a b = true ↔ ¬ key_lt (fkey b) (fkey a).
Proof.
  intros Ha Hb. pose proof (SFcompare_key a b Ha Hb) as H.
  unfold fleb, SFleb, key_lt in *.
  destruct (SFcompare a b) as [[]|]; [rewrite H| | |done]; split; try done; lia.
Qed.

Lemma fltb_key a b :
  is_nan a = false → is_nan b = false → fltb a b = true ↔ key_lt (fkey a) (fkey b).
Proof.
  intros Ha Hb. pose proof (SFcompare_key a b Ha Hb) as H.
  unfold fltb, SFltb, key_lt in *.
  destruct (SFcompare a b) as [[]|]; [rewrite H| | |done]; split; try done; lia.
Qed.

Lemma fleb_total a b :
  is_nan a = false → is_nan b = false → fleb a b = true ∨ fleb b a = true.
Proof. intros Ha Hb. rewrite !fleb_key by done. unfold key_lt. lia. Qed.

Lemma fleb_trans a b c :
  is_nan a = false → is_nan b = false → is_nan c = false →
  fleb a b = true → fleb b c = true → fleb a c = true.
Proof. intros Ha Hb Hc. rewrite !fleb_key by done. unfold key_lt. lia. Qed.

Lemma fltb_fleb a b :
  is_nan a = false → is_nan b = false → fltb a b = negb (fleb b a).
Proof.
  intros Ha Hb. apply eq_true_iff_eq.
  rewrite negb_true_iff, <-not_true_iff_false, fleb_key, fltb_key by done.
  unfold key_lt. lia.
Qed.

Lemma fleb_nan_l b : fleb S754_nan b = false.
Proof. done. Qed.
Lemma fleb_nan_r a : fleb a S754_nan = false.
Proof. by destruct a. Qed.

Lemma fleb_true_not_nan a b :
  fleb a b = true → is_nan a = false ∧ is_nan b = false.
Proof. destruct a, b; done. Qed.

Lemma fltb_asym a b : fltb a b = true → fltb b a = false.
Proof.
  intros H. assert (is_nan a = false ∧ is_nan b = false) as [Ha Hb].
  { by destruct a, b. }
  apply not_true_iff_false. rewrite fltb_key in H |- * by done.
  unfold key_lt in *. lia.
Qed.

(** [min] never exceeds its second argument. *)
Lemma fmin_le_r a b :
  is_nan a = false → is_nan b = false → fleb (fmin a b) b = true.
Proof.
  intros Ha Hb. unfold fmin. destruct (fltb b a) eqn:H.
  - by destruct (fleb_total b b Hb Hb).
  - rewrite fltb_fleb in H by done. by apply negb_false_iff.
Qed.
