(* ===== verification/PyDict.v ===== *)
(** * Python dictionaries and dynamically typed values

    A [dict] keeps its insertion order: it is a list of key/value pairs whose
    keys are pairwise different ([dict_wf]).  Assigning to a present key keeps
    its position, assigning to a new one appends.  [pyval] is the type of the
    values YAML and JSON documents load to. *)

From S2P Require Import Prelude PyText.

Section dict.
Context {K V : Type} `{EqDecision K}.
Implicit Types (d : list (K * V)) (k : K) (v : V).

(** [d.get(k)]. *)
Fixpoint dget d k : option V :=
  match d with
  | [] => None
  | (k', v) :: d => if decide (k' = k) then Some v else dget d k
  end.

(** [d[k] = v]. *)
Fixpoint dset d k v : list (K * V) :=
  match d with
  | [] => [(k, v)]
  | (k', v') :: d =>
    if decide (k' = k) then (k', v) :: d else (k', v') :: dset d k v
  end.

(** [d.get(k, default)]. *)
Definition dget_or d k (v : V) : V := default v (dget d k).

(** [k in d]. *)
Definition dmem k d : bool := bool_decide (is_Some (dget d k)).

(** [d.setdefault(k, v)]: the dictionary after the call. *)
Definition dsetdefault d k v : list (K * V) :=
  match dget d k with Some _ => d | None => dset d k v end.

(** [d.pop(k, None)]: the dictionary after the call. *)
Definition dpop d k : list (K * V) := filter (λ p, p.1 ≠ k) d.

Definition dict_wf d : Prop := NoDup d.*1.

Lemma dget_dset_eq d k v : dget (dset d k v) k = Some v.
Proof.
  induction d as [|[k' v'] d IH]; simpl; [by case_decide|].
  destruct (decide (k' = k)); simpl; case_decide; done.
Qed.

Lemma dget_dset_ne d k k' v : k ≠ k' → dget (dset d k v) k' = dget d k'.
Proof.
  intros Hne. induction d as [|[k0 v0] d IH]; simpl; [by case_decide|].
  destruct (decide (k0 = k)); simpl; repeat case_decide; congruence.
Qed.

Lemma dget_dset d k k' v :
  dget (dset d k v) k' = if decide (k = k') then Some v else dget d k'.
Proof.
  case_decide; [subst; apply dget_dset_eq|by apply dget_dset_ne].
Qed.

Lemma dget_None d k : dget d k = None ↔ k ∉ d.*1.
Proof.
  induction d as [|[k' v'] d IH]; csimpl; [set_solver|].
  case_decide; set_solver.
Qed.

Lemma dget_is_Some d k : is_Some (dget d k) ↔ k ∈ d.*1.
Proof.
  rewrite <-not_eq_None_Some, dget_None.
  destruct (decide (k ∈ d.*1)); naive_solver.
Qed.

Lemma dmem_true k d : dmem k d = true ↔ k ∈ d.*1.
Proof. unfold dmem. rewrite bool_decide_eq_true. apply dget_is_Some. Qed.

Lemma dmem_false k d : dmem k d = false ↔ k ∉ d.*1.
Proof. rewrite <-dmem_true. destruct (dmem k d); naive_solver. Qed.

Lemma dget_elem d k v : dget d k = Some v → (k, v) ∈ d.
Proof.
  induction d as [|[k' v'] d IH]; simpl; [done|].
  case_decide; [|set_solver]. intros [= ->]. subst. set_solver.
Qed.

Lemma elem_dget d k v : dict_wf d → (k, v) ∈ d → dget d k = Some v.
Proof.
  unfold dict_wf. induction d as [|[k' v'] d IH]; csimpl; [set_solver|].
  rewrite NoDup_cons, elem_of_cons. intros [Hk Hd] [[= <- <-]|Hin].
  - by rewrite decide_True.
  - rewrite decide_False; [by apply IH|]. intros ->.
    apply Hk, list_elem_of_fmap. by exists (k, v).
Qed.

Lemma dset_keys_old d k v : k ∈ d.*1 → (dset d k v).*1 = d.*1.
Proof.
  induction d as [|[k' v'] d IH]; csimpl; [set_solver|].
  destruct (decide (k' = k)); csimpl; [done|].
  intros Hin. f_equal. apply IH. set_solver.
Qed.

Lemma dset_keys_new d k v : k ∉ d.*1 → dset d k v = d ++ [(k, v)].
Proof.
  induction d as [|[k' v'] d IH]; csimpl; [done|]. intros Hk.
  rewrite decide_False by set_solver. f_equal. apply IH. set_solver.
Qed.

Lemma elem_of_dset_keys d k k' v : k' ∈ (dset d k v).*1 ↔ k' = k ∨ k' ∈ d.*1.
Proof.
  destruct (decide (k ∈ d.*1)) as [Hin|Hin].
  - rewrite dset_keys_old by done. naive_solver.
  - rewrite dset_keys_new, fmap_app by done. csimpl. set_solver.
Qed.

Lemma elem_of_dset d k k' v v' : (k', v') ∈ dset d k v → (k', v') = (k, v) ∨ (k', v') ∈ d.
Proof.
  induction d as [|[k1 v1] d IH]; simpl; [set_solver|].
  case_decide; rewrite !elem_of_cons; naive_solver.
Qed.

Lemma dset_wf d k v : dict_wf d → dict_wf (dset d k v).
Proof.
  unfold dict_wf. intros Hd. destruct (decide (k ∈ d.*1)) as [Hin|Hin].
  - by rewrite dset_keys_old.
  - rewrite dset_keys_new, fmap_app by done. csimpl.
    apply NoDup_app. split; [done|]. split; [set_solver|].
    apply NoDup_singleton.
Qed.

Lemma dsetdefault_wf d k v : dict_wf d → dict_wf (dsetdefault d k v).
Proof. unfold dsetdefault. destruct (dget d k); [done|apply dset_wf]. Qed.

Lemma dget_dsetdefault d k k' v :
  dget (dsetdefault d k v) k' =
  if decide (k = k') then Some (default v (dget d k)) else dget d k'.
Proof.
  unfold dsetdefault. destruct (dget d k) eqn:E; case_decide; simplify_eq/=; auto.
  - apply dget_dset_eq.
  - by apply dget_dset_ne.
Qed.

Lemma dget_dpop d k k' :
  dget (dpop d k) k' = if decide (k = k') then None else dget d k'.
Proof.
  unfold dpop. induction d as [|[k0 v0] d IH]; simpl; [by case_decide|].
  rewrite filter_cons. simpl. destruct (decide (k0 ≠ k)) as [Hne|Heq]; simpl.
  - rewrite IH. repeat case_decide; congruence.
  - rewrite IH. apply dec_stable in Heq. subst. repeat case_decide; congruence.
Qed.

Lemma dpop_wf d k : dict_wf d → dict_wf (dpop d k).
Proof.
  unfold dict_wf, dpop. induction d as [|[k0 v0] d IH]; csimpl; [done|].
  rewrite NoDup_cons. intros [Hk Hd]. rewrite filter_cons.
  case_decide; csimpl; [|by apply IH]. apply NoDup_cons. split; [|by apply IH].
  contradict Hk. apply list_elem_of_fmap in Hk as ([k1 v1] & -> & Hin).
  apply list_elem_of_filter in Hin as [_ Hin]. apply list_elem_of_fmap.
  by exists (k1, v1).
Qed.

Lemma dset_twice d k v v' : dset (dset d k v) k v' = dset d k v'.
Proof.
  induction d as [|[k0 v0] d IH]; simpl; [by rewrite decide_True|].
  destruct (decide (k0 = k)); simpl; [by rewrite decide_True|].
  rewrite decide_False by done. by rewrite IH.
Qed.
End dict.

Arguments dict_wf {K V} d.

#[export] Hint Resolve dset_wf dsetdefault_wf dpop_wf : mqlab.
#[export] Hint Rewrite @dget_dset_eq @dget_dsetdefault @dget_dpop : mqlab.

(** A dictionary comprehension [{k(x): v(x) for x in l}]. *)
Definition dict_of {K V A} `{EqDecision K} (f : A → K * V) (l : list A) : list (K * V) :=
  foldl (λ d x, dset d (f x).1 (f x).2) [] l.

Lemma foldl_dset_wf {K V A} `{EqDecision K} (f : A → K * V) l d :
  dict_wf d → dict_wf (foldl (λ d x, dset d (f x).1 (f x).2) d l).
Proof.
  revert d. induction l as [|x l IH]; intros d Hd; simpl; [done|].
  by apply IH, dset_wf.
Qed.

Lemma dict_of_wf {K V A} `{EqDecision K} (f : A → K * V) l : dict_wf (dict_of f l).
Proof. apply foldl_dset_wf. constructor. Qed.

Lemma foldl_dset_keys {K V A} `{EqDecision K} (f : A → K * V) l d k :
  k ∈ (foldl (λ d x, dset d (f x).1 (f x).2) d l).*1
    ↔ k ∈ d.*1 ∨ ∃ x, x ∈ l ∧ k = (f x).1.
Proof.
  revert d. induction l as [|x l IH]; intros d; simpl.
  - set_solver.
  - rewrite IH, elem_of_dset_keys. set_solver.
Qed.

Lemma dict_of_keys {K V A} `{EqDecision K} (f : A → K * V) l k :
  k ∈ (dict_of f l).*1 ↔ ∃ x, x ∈ l ∧ k = (f x).1.
Proof. unfold dict_of. rewrite foldl_dset_keys. set_solver. Qed.

(** Distinct keys keep every entry. *)
Lemma dict_of_uniq {K V A} `{EqDecision K} (f : A → K * V) l :
  NoDup ((f <$> l).*1) → dict_of f l = f <$> l.
Proof.
  unfold dict_of. induction l as [|x l IH] using rev_ind; [done|].
  rewrite !fmap_app, foldl_app. intros (Hl & Hx & _)%NoDup_app. rewrite IH by done. cbn [foldl].
  destruct (f x) as [k v] eqn:Hf. csimpl. rewrite dset_keys_new, Hf; [done|].
  intros Hin. apply (Hx k Hin). csimpl. rewrite Hf. by left.
Qed.

(** Where an entry comes from. *)
Lemma foldl_dset_inv {K V A} `{EqDecision K} (f : A → K * V) l d k v :
  dget (foldl (λ d x, dset d (f x).1 (f x).2) d l) k = Some v →
  (∃ x, x ∈ l ∧ f x = (k, v)) ∨ dget d k = Some v.
Proof.
  induction l as [|x l IH] using rev_ind; [by right|]. rewrite foldl_app. cbn [foldl]. rewrite dget_dset.
  case_decide as Hk.
  - intros [= <-]. left. exists x. split; [apply elem_of_app; right; by left|]. subst k. by destruct (f x).
  - intros [(y & Hy & Hf)|Hd]%IH; [|by right]. left. exists y. split; [|done]. apply elem_of_app. by left.
Qed.

(** With distinct keys, every entry is found. *)
Lemma foldl_dset_elem {K V A} `{EqDecision K} (f : A → K * V) l d x :
  NoDup (fst ∘ f <$> l) → x ∈ l →
  dget (foldl (λ d x, dset d (f x).1 (f x).2) d l) (f x).1 = Some (f x).2.
Proof.
  intros Hnd Hx. induction l as [|y l IH] using rev_ind; [by apply elem_of_nil in Hx|].
  rewrite foldl_app. cbn [foldl]. rewrite fmap_app in Hnd. apply NoDup_app in Hnd as (Hnd & Hy & _).
  rewrite dget_dset. case_decide as Hk.
  - apply elem_of_app in Hx as [Hx|Hx%list_elem_of_singleton]; [|by subst].
    exfalso. apply (Hy (f x).1); [apply list_elem_of_fmap; by exists x|]. rewrite <-Hk. csimpl. by left.
  - apply IH; [done|]. apply elem_of_app in Hx as [|Hx%list_elem_of_singleton]; [done|by subst].
Qed.

(** The last binding of a key wins. *)
Lemma foldl_dset_get {K V A} `{EqDecision K} (f : A → K * V) l d k :
  dget (foldl (λ d x, dset d (f x).1 (f x).2) d l) k =
    match List.find (λ x, bool_decide ((f x).1 = k)) (rev l) with
    | Some x => Some (f x).2
    | None => dget d k
    end.
Proof.
  revert d. induction l as [|x l IH] using rev_ind; intros d; [done|].
  rewrite foldl_app, rev_app_distr. simpl. rewrite dget_dset.
  case_decide; case_bool_decide; try congruence. apply IH.
Qed.

(** ** Dynamically typed values

    [PyOther] covers the values no modelled module inspects beyond their type
    (floats, dates, ...): its fields are the name of the type, [str(value)] and
    [bool(value)]. *)
Inductive pyval : Type :=
  | PyNone
  | PyBool (b : bool)
  | PyInt (z : Z)
  | PyStr (s : text)
  | PyList (l : list pyval)
  | PyDict (d : list (pyval * pyval))
  | PyOther (ty repr : text) (truth : bool).

Implicit Type v : pyval.

(** [d.get(k)] on a loaded mapping, for a string key. *)
Fixpoint yget (d : list (pyval * pyval)) (k : text) : option pyval :=
  match d with
  | [] => None
  | (PyStr k', v) :: d => if decide (k' = k) then Some v else yget d k
  | _ :: d => yget d k
  end.

(** [d[k] = v] on a loaded mapping, for a string key. *)
Fixpoint yset (d : list (pyval * pyval)) (k : text) v : list (pyval * pyval) :=
  match d with
  | [] => [(PyStr k, v)]
  | (PyStr k', v') :: d =>
      if decide (k' = k) then (PyStr k', v) :: d else (PyStr k', v') :: yset d k v
  | p :: d => p :: yset d k v
  end.

(** [d.pop(k, None)]: the mapping after the call. *)
Fixpoint ypop (d : list (pyval * pyval)) (k : text) : list (pyval * pyval) :=
  match d with
  | [] => []
  | (PyStr k', v') :: d => if decide (k' = k) then ypop d k else (PyStr k', v') :: ypop d k
  | p :: d => p :: ypop d k
  end.

(** [bool(v)]. *)
Definition truthy v : bool :=
  match v with
  | PyNone => false
  | PyBool b => b
  | PyInt z => negb (z =? 0)%Z
  | PyStr s => negb (bool_decide (s = []))
  | PyList l => match l with [] => false | _ => true end
  | PyDict d => match d with [] => false | _ => true end
  | PyOther _ _ b => b
  end.

(** [d.get(k) or {}] and [d.get(k) or []], when the value has the shape the
    callers rely on; [None] stands for the TypeError/AttributeError of another
    shape. *)
Definition or_dict (o : option pyval) : option (list (pyval * pyval)) :=
  match o with
  | None => Some []
  | Some (PyDict d) => Some d
  | Some v => if truthy v then None else Some []
  end.

Definition or_list (o : option pyval) : option (list pyval) :=
  match o with
  | None => Some []
  | Some (PyList l) => Some l
  | Some v => if truthy v then None else Some []
  end.

Section pyval.
Implicit Types d : list (pyval * pyval).

Lemma yget_yset d k k' v :
  yget (yset d k v) k' = if decide (k = k') then Some v else yget d k'.
Proof.
  induction d as [|[kv v'] d IH]; simpl; [by case_decide|].
  destruct kv; simpl; try apply IH.
  destruct (decide (s = k)); simpl; repeat case_decide; congruence.
Qed.

Lemma yget_yset_eq d k v : yget (yset d k v) k = Some v.
Proof. rewrite yget_yset. by rewrite decide_True. Qed.

Lemma yget_yset_ne d k k' v : k ≠ k' → yget (yset d k v) k' = yget d k'.
Proof. intros. rewrite yget_yset. by rewrite decide_False. Qed.

Lemma yget_ypop d k k' :
  yget (ypop d k) k' = if decide (k = k') then None else yget d k'.
Proof.
  induction d as [|[kv v'] d IH]; simpl; [by case_decide|].
  destruct kv; simpl; try apply IH.
  destruct (decide (s = k)); simpl; rewrite ?IH; repeat case_decide; congruence.
Qed.

Lemma yget_elem d k v : yget d k = Some v → (PyStr k, v) ∈ d.
Proof.
  induction d as [|[kv v'] d IH]; simpl; [done|].
  destruct kv; try (intros; right; by apply IH).
  case_decide; [|intros; right; by apply IH]. intros [= ->]. subst. left.
Qed.
End pyval.

#[export] Hint Rewrite yget_yset_eq yget_ypop : mqlab.
