(* ===== verification/PyJson.v ===== *)
(** * JSON documents and the json module

    [json] is the type of the values [json.loads] builds; [enc] is the text
    [json.dumps] writes (with or without [indent]) and [loads] the parser of
    [json.loads], both with Python's choices: ASCII output, surrogate pairs, the three
    non-finite numbers, the digit limit of integers. A document that is well formed in
    Python's sense loads back from what [dumps] wrote ([loads_dumps]). The digits of a
    finite float are CPython's own, so they come from the class [FloatText]. *)

From S2P Require Import Prelude PyText PyCodec PyDict PyFloat.

Inductive json : Type :=
  | JNull
  | JBool (b : bool)
  | JInt (z : Z)
  | JFloat (f : float)
  | JStr (s : text)
  | JArr (l : list json)
  | JObj (d : list (text * json)).

(** [repr(f)] of a finite float and [float(s)]; [None] is the ValueError. *)
Class FloatText := {
    float_repr : float → text;
    float_of_text : text → option float
  }.

(** The exceptions of [dumps] and [loads]; [JTooLong] is the ValueError of an integer
    over the digit limit, and [JFuel] is never the result (see [loads_fuel]). *)
Inductive JsonError := JDecode | JTooLong | JFuel.

(** ** Writing *)

Definition hex_digit (n : N) : N := if (n <? 10)%N then (48 + n)%N else (87 + n)%N.

(** [\uXXXX]. *)
Definition esc_u (n : N) : text :=
  [92; 117; hex_digit (n / 4096 mod 16); hex_digit (n / 256 mod 16);
   hex_digit (n / 16 mod 16); hex_digit (n mod 16)]%N.

Definition esc_char (c : N) : text :=
  (if c =? 34 then [92; 34] else if c =? 92 then [92; 92]
   else if c =? 10 then [92; 110] else if c =? 13 then [92; 114]
   else if c =? 9 then [92; 116] else if c =? 12 then [92; 102]
   else if c =? 8 then [92; 98]
   else if (32 <=? c) && (c <=? 126) then [c]
   else if c <? 65536 then esc_u c
   else esc_u (55296 + (c - 65536) / 1024) ++ esc_u (56320 + (c - 65536) mod 1024))%N.

Definition enc_str (s : text) : text := 34%N :: (s ≫= esc_char) ++ [34%N].

Section json.
Context `{FloatText}.

Definition enc_float (f : float) : text :=
  match f with
  | S754_nan => u "NaN"
  | S754_infinity false => u "Infinity"
  | S754_infinity true => u "-Infinity"
  | _ => float_repr f
  end.

(** The newline and indentation at a level, with [indent] given. *)
Definition nl (ind : option nat) (lvl : nat) : text :=
  match ind with None => [] | Some k => 10%N :: replicate (k * lvl) 32%N end.

(** What stands between two items. *)
Definition item_sep (ind : option nat) (lvl : nat) : text :=
  match ind with None => u ", " | Some _ => 44%N :: nl ind lvl end.

Fixpoint enc (ind : option nat) (lvl : nat) (v : json) : text :=
  match v with
  | JNull => u "null"
  | JBool true => u "true"
  | JBool false => u "false"
  | JInt z => Z_text z
  | JFloat f => enc_float f
  | JStr s => enc_str s
  | JArr [] => u "[]"
  | JArr l =>
      91%N :: nl ind (S lvl) ++ str_join (item_sep ind (S lvl)) (enc ind (S lvl) <$> l)
      ++ nl ind lvl ++ [93%N]
  | JObj [] => u "{}"
  | JObj d =>
      123%N :: nl ind (S lvl)
      ++ str_join (item_sep ind (S lvl))
           ((λ kv, enc_str kv.1 ++ u ": " ++ enc ind (S lvl) kv.2) <$> d)
      ++ nl ind lvl ++ [125%N]
  end.

(** Every integer of the document can be written. *)
Fixpoint ints_ok (v : json) : bool :=
  match v with
  | JInt z => bool_decide (is_Some (str_int z))
  | JArr l => forallb ints_ok l
  | JObj d => forallb (λ kv, ints_ok kv.2) d
  | _ => true
  end.

(** [json.dumps(v, indent=ind)]. *)
Definition dumps (ind : option nat) (v : json) : res JsonError text :=
  if ints_ok v then Ok (enc ind 0 v) else Err JTooLong.

(** ** Reading *)

Definition is_ws (c : N) : bool := ((c =? 32) || (c =? 9) || (c =? 10) || (c =? 13))%N.
Definition skip (s : text) : text := lstrip_by is_ws s.

Definition hex_val (c : N) : option N :=
  (if (48 <=? c) && (c <=? 57) then Some (c - 48)
   else if (97 <=? c) && (c <=? 102) then Some (c - 87)
   else if (65 <=? c) && (c <=? 70) then Some (c - 55) else None)%N.

Definition hex4 (a b c d : N) : option N :=
  a ← hex_val a; b ← hex_val b; c ← hex_val c; d ← hex_val d;
  Some (a * 4096 + b * 256 + c * 16 + d)%N.

Definition is_high (c : N) : bool := ((55296 <=? c) && (c <? 56320))%N.
Definition is_low (c : N) : bool := ((56320 <=? c) && (c <? 57344))%N.

(** The character of a one-letter escape. *)
Definition unescape (e : N) : option N :=
  (if e =? 34 then Some 34 else if e =? 92 then Some 92 else if e =? 47 then Some 47
   else if e =? 98 then Some 8 else if e =? 102 then Some 12 else if e =? 110 then Some 10
   else if e =? 114 then Some 13 else if e =? 116 then Some 9 else None)%N.

Definition push (c : N) (r : option (text * text)) : option (text * text) :=
  '(t, rest) ← r; Some (c :: t, rest).

(** After the opening quote: the string and what follows its closing quote. *)
Fixpoint scan_str (s : text) : option (text * text) :=
  match s with
  | [] => None
  | c :: s1 =>
      if (c =? 34)%N then Some ([], s1)
      else if (c =? 92)%N then
        match s1 with
        | [] => None
        | e :: s2 =>
            if (e =? 117)%N then
              match s2 with
              | a :: b :: c' :: d :: s3 =>
                  match hex4 a b c' d with
                  | None => None
                  | Some h =>
                      if is_high h then
                        match s3 with
                        | x :: y :: a2 :: b2 :: c2 :: d2 :: s4 =>
                            if ((x =? 92) && (y =? 117))%N then
                              match hex4 a2 b2 c2 d2 with
                              | None => None
                              | Some l =>
                                  if is_low l
                                  then push (65536 + (h - 55296) * 1024 + (l - 56320))%N (scan_str s4)
                                  else push h (scan_str s3)
                              end
                            else push h (scan_str s3)
                        | _ => push h (scan_str s3)
                        end
                      else push h (scan_str s3)
                  end
              | _ => None
              end
            else match unescape e with Some x => push x (scan_str s2) | None => None end
        end
      else if (c <? 32)%N then None
      else push c (scan_str s1)
  end.

Definition is_digit (c : N) : bool := ((48 <=? c) && (c <=? 57))%N.

(** The leading digits and the rest. *)
Fixpoint digits (s : text) : text * text :=
  match s with
  | c :: s' => if is_digit c then let '(d, r) := digits s' in (c :: d, r) else ([], s)
  | [] => ([], [])
  end.

(** [.digits], when there is one; and [e], a sign and digits, when there is one. *)
Definition lex_frac (s : text) : text * text :=
  match s with
  | c :: s' =>
      if (c =? 46)%N then
        match digits s' with ([], _) => ([], s) | (d, r) => (c :: d, r) end
      else ([], s)
  | [] => ([], s)
  end.

Definition lex_exp (s : text) : text * text :=
  match s with
  | c :: s' =>
      if ((c =? 101) || (c =? 69))%N then
        let '(sg, s'') := match s' with
                          | g :: t => if ((g =? 43) || (g =? 45))%N then ([g], t) else ([], s')
                          | [] => ([], s')
                          end in
        match digits s'' with ([], _) => ([], s) | (d, r) => (c :: sg ++ d, r) end
      else ([], s)
  | [] => ([], s)
  end.

(** The integer part: no leading zero. *)
Definition lex_int (s : text) : option (text * text) :=
  match s with
  | c :: s' =>
      if (c =? 48)%N then Some ([c], s')
      else if is_digit c then Some (digits s) else None
  | [] => None
  end.

(** A number: its text, whether it is a float, and the rest. *)
Definition lex_number (s : text) : option (text * bool * text) :=
  let '(sg, s1) := match s with
                   | c :: t => if (c =? 45)%N then ([c], t) else ([], s)
                   | [] => ([], s)
                   end in
  '(ip, s2) ← lex_int s1;
  let '(fr, s3) := lex_frac s2 in
  let '(ex, s4) := lex_exp s3 in
  Some (sg ++ ip ++ fr ++ ex, negb (bool_decide (fr ++ ex = [])), s4).

Definition scan_number (s : text) : res JsonError (json * text) :=
  match lex_number s with
  | None => Err JDecode
  | Some (lit, true, r) =>
      match float_of_text lit with Some f => Ok (JFloat f, r) | None => Err JDecode end
  | Some (lit, false, r) =>
      match int_of_text lit with Some z => Ok (JInt z, r) | None => Err JTooLong end
  end.

(** The constants. *)
Definition constants : list (text * json) :=
  [(u "null", JNull); (u "true", JBool true); (u "false", JBool false); (u "NaN", JFloat S754_nan);
   (u "Infinity", JFloat (S754_infinity false)); (u "-Infinity", JFloat (S754_infinity true))].

Definition scan_constant (s : text) : option (json * text) :=
  '(_, (w, v)) ← list_find (λ wv, startswith s wv.1 = true) constants;
  Some (v, drop (length w) s).

Fixpoint scan (n : nat) (s : text) : res JsonError (json * text) :=
  match n with
  | 0 => Err JFuel
  | S n =>
      match s with
      | [] => Err JDecode
      | c :: s1 =>
          if (c =? 34)%N then
            match scan_str s1 with Some (t, r) => Ok (JStr t, r) | None => Err JDecode end
          else if (c =? 91)%N then
            match skip s1 with
            | 93%N :: r => Ok (JArr [], r)
            | r => scan_items n [] r
            end
          else if (c =? 123)%N then
            match skip s1 with
            | 125%N :: r => Ok (JObj [], r)
            | r => scan_members n [] r
            end
          else match scan_constant s with Some r => Ok r | None => scan_number s end
      end
  end
with scan_items (n : nat) (acc : list json) (s : text) : res JsonError (json * text) :=
  match n with
  | 0 => Err JFuel
  | S n =>
      '(v, r) ← scan n s;
      match skip r with
      | 44%N :: r' => scan_items n (acc ++ [v]) (skip r')
      | 93%N :: r' => Ok (JArr (acc ++ [v]), r')
      | _ => Err JDecode
      end
  end
with scan_members (n : nat) (acc : list (text * json)) (s : text) :
    res JsonError (json * text) :=
  match n with
  | 0 => Err JFuel
  | S n =>
      match s with
      | 34%N :: s1 =>
          match scan_str s1 with
          | None => Err JDecode
          | Some (k, r) =>
              match skip r with
              | 58%N :: r' =>
                  '(v, r'') ← scan n (skip r');
                  match skip r'' with
                  | 44%N :: q => scan_members n (dset acc k v) (skip q)
                  | 125%N :: q => Ok (JObj (dset acc k v), q)
                  | _ => Err JDecode
                  end
              | _ => Err JDecode
              end
          end
      | _ => Err JDecode
      end
  end.

(** [json.loads(s)]: one value, blanks around it, nothing else. *)
Definition loads (s : text) : res JsonError json :=
  match s with
  | 65279%N :: _ => Err JDecode
  | _ =>
      let s := skip s in
      '(v, r) ← scan (2 * length s + 2) s;
      match skip r with [] => Ok v | _ => Err JDecode end
  end.
End json.

(** ** The fuel is enough *)

Lemma length_skip s : length (skip s) ≤ length s.
Proof. unfold skip. induction s as [|c s IH]; simpl; [done|]. destruct (is_ws c); simpl; lia. Qed.

Lemma push_Some c r t rest : push c r = Some (t, rest) → ∃ t', r = Some (t', rest) ∧ t = c :: t'.
Proof. destruct r as [[t' r']|]; simpl; [|done]. intros [= <- <-]. eauto. Qed.

Lemma scan_str_length n s t r :
  length s ≤ n → scan_str s = Some (t, r) → length r < length s.
Proof.
  revert s t r. induction n as [|n IH]; intros s t r; (destruct s as [|c s1]; [done|]); simpl; [lia|].
  intros Hn. repeat case_match; try done; intros Hp;
    repeat match goal with
    | H : push _ _ = Some _ |- _ => apply push_Some in H as (? & ? & ->)
    | H : Some _ = Some _ |- _ => injection H as <- <-
    end; try lia;
    match goal with H : scan_str ?q = Some _ |- _ => apply IH in H; simpl in *; lia end.
Qed.

Lemma digits_spec s d r : digits s = (d, r) → s = d ++ r.
Proof.
  revert d r. induction s as [|c s IH]; intros d r; simpl; [by intros [= <- <-]|].
  destruct (is_digit c); [|by intros [= <- <-]].
  destruct (digits s) as [d' r'] eqn:E. intros [= <- <-]. by rewrite (IH _ _ eq_refl).
Qed.

Lemma lex_frac_spec s d r : lex_frac s = (d, r) → s = d ++ r.
Proof.
  unfold lex_frac. repeat case_match; simplify_eq; intros [= <- <-]; try done;
    match goal with H : digits _ = _ |- _ => apply digits_spec in H end; simpl in *;
    rewrite ?N.eqb_eq in *; by subst.
Qed.

Lemma lex_exp_spec s d r : lex_exp s = (d, r) → s = d ++ r.
Proof.
  unfold lex_exp. destruct s as [|c s']; [by intros [= <- <-]|].
  destruct ((c =? 101)%N || (c =? 69)%N); [|by intros [= <- <-]].
  assert (∃ sg t, match s' with g :: t => if ((g =? 43) || (g =? 45))%N then ([g], t)
    else ([], s') | [] => ([], s') end = (sg, t) ∧ s' = sg ++ t) as (sg & t & -> & ->).
  { destruct s' as [|g t]; [by exists [], []|]. case_match; by eexists _, _. }
  destruct (digits t) as [[|x ds] q] eqn:Hd; [by intros [= <- <-]|].
  intros [= <- <-]. apply digits_spec in Hd as ->. simpl. by rewrite <-app_assoc.
Qed.

Lemma lex_int_spec s d r : lex_int s = Some (d, r) → s = d ++ r ∧ d ≠ [].
Proof.
  unfold lex_int. destruct s as [|c s]; [done|]. case_match; [by intros [= <- <-]|].
  destruct (is_digit c) eqn:Hc; [|done]. intros [= Hd]. split; [by apply digits_spec|].
  simpl in Hd. rewrite Hc in Hd. destruct (digits s). by injection Hd as <- _.
Qed.

Lemma lex_number_spec s lit b r : lex_number s = Some (lit, b, r) → s = lit ++ r ∧ lit ≠ [].
Proof.
  unfold lex_number.
  assert (∃ sg s1, match s with c :: t => if (c =? 45)%N then ([c], t) else ([], s)
    | [] => ([], s) end = (sg, s1) ∧ s = sg ++ s1) as (sg & s1 & -> & ->).
  { destruct s as [|c t]; [by exists [], []|]. case_match; by eexists _, _. }
  destruct (lex_int s1) as [[ip s2]|] eqn:Hi; simpl; [|done].
  destruct (lex_frac s2) as [fr s3] eqn:Hf. destruct (lex_exp s3) as [ex s4] eqn:He.
  intros [= <- <- <-]. apply lex_int_spec in Hi as [-> Hne].
  apply lex_frac_spec in Hf as ->. apply lex_exp_spec in He as ->.
  rewrite <-!app_assoc. split; [done|]. destruct sg; [|done]. by destruct ip.
Qed.

Section fuel.
Context `{FloatText}.

Lemma scan_number_length s v r : scan_number s = Ok (v, r) → length r < length s.
Proof.
  unfold scan_number. destruct (lex_number s) as [[[lit b] q]|] eqn:Hl; [|done].
  apply lex_number_spec in Hl as [-> Hne]. rewrite length_app. destruct lit; [done|].
  destruct b; case_match; try done; intros [= _ <-]; simpl; lia.
Qed.

Lemma scan_number_fuel s : scan_number s ≠ Err JFuel.
Proof. unfold scan_number. repeat case_match; done. Qed.

Lemma scan_constant_length s v r : scan_constant s = Some (v, r) → length r < length s.
Proof.
  unfold scan_constant.
  destruct (list_find _ _) as [[i [w x]]|] eqn:Hf; simpl; [|done]. intros [= <- <-].
  apply list_find_Some in Hf as (Hi & Hp & _). simpl in Hp.
  unfold startswith in Hp. apply bool_decide_eq_true in Hp. destruct Hp as [q ->].
  rewrite drop_app_length, length_app.
  assert (w ≠ []); [|by destruct w; simpl; [|lia]].
  repeat (destruct i as [|i]; [by injection Hi as <- <-|]). done.
Qed.

Lemma scan_length_all n :
  (∀ s v r, scan n s = Ok (v, r) → length r < length s) ∧
  (∀ acc s v r, scan_items n acc s = Ok (v, r) → length r < length s) ∧
  (∀ acc s v r, scan_members n acc s = Ok (v, r) → length r < length s).
Proof.
  induction n as [|n (IHv & IHi & IHm)]; [done|]. split_and!.
  - intros [|c s] v r; cbn [scan]; [done|]. pose proof (length_skip s) as Hsk.
    case_match; [|case_match; [|case_match]].
    + destruct (scan_str s) as [[t q]|] eqn:Hs; [|done]. intros [= <- <-].
      apply (scan_str_length _ _ _ _ (le_n _)) in Hs. simpl. lia.
    + intros Hr.
      assert (length r < length (skip s)) as Hl; [|simpl; lia].
      repeat (case_match; simplify_eq; try (by simpl; lia)); by eapply IHi.
    + intros Hr.
      assert (length r < length (skip s)) as Hl; [|simpl; lia].
      repeat (case_match; simplify_eq; try (by simpl; lia)); by eapply IHm.
    + case_match.
      * intros [= ->]. by eapply scan_constant_length.
      * apply scan_number_length.
  - intros acc s v r. cbn [scan_items]. destruct (scan n s) as [[v' q]|] eqn:Hs; simpl; [|done].
    apply IHv in Hs. pose proof (length_skip q) as Hsk. intros Hr.
    destruct (skip q) as [|c q'] eqn:Hq; [done|]. simpl in Hsk.
    pose proof (length_skip q') as Hsk'.
    repeat (case_match; simplify_eq; try done); try lia. apply IHi in Hr. lia.
  - intros acc s v r. cbn [scan_members]. destruct s as [|c s]; [done|].
    repeat (case_match; simplify_eq; try done).
    match goal with Hs : scan_str _ = Some _ |- _ =>
      apply (scan_str_length _ _ _ _ (le_n _)) in Hs as Hlen end.
    match goal with Hq : skip ?a = _ :: _ |- _ => pose proof (length_skip a) as Hx1; rewrite Hq in Hx1 end.
    simpl in *.
    match goal with |- context [scan n (skip ?a)] => pose proof (length_skip a) as Hx2;
      destruct (scan n (skip a)) as [[v' q]|] eqn:Hs' end; simpl; [|done].
    apply IHv in Hs'. pose proof (length_skip q) as Hx3. intros Hr.
    destruct (skip q) as [|c' q'] eqn:Hq; [done|]. simpl in Hx3.
    pose proof (length_skip q') as Hx4.
    repeat (case_match; simplify_eq; try done); try lia. apply IHm in Hr. lia.
Qed.

Lemma scan_fuel_all n :
  (∀ s, 2 * length s + 1 ≤ n → scan n s ≠ Err JFuel) ∧
  (∀ acc s, 2 * length s + 2 ≤ n → scan_items n acc s ≠ Err JFuel) ∧
  (∀ acc s, 2 * length s + 2 ≤ n → scan_members n acc s ≠ Err JFuel).
Proof.
  induction n as [|n (IHv & IHi & IHm)]; [split_and!; intros; lia|]. split_and!.
  - intros [|c s] Hn; cbn [scan]; [done|]. pose proof (length_skip s) as Hsk. simpl in Hn.
    case_match; [|case_match; [|case_match]].
    + by repeat case_match.
    + repeat (case_match; simplify_eq; try done); apply IHi; simpl in *; lia.
    + repeat (case_match; simplify_eq; try done); apply IHm; simpl in *; lia.
    + case_match; [done|apply scan_number_fuel].
  - intros acc s Hn. cbn [scan_items]. destruct (scan n s) as [[v q]|e] eqn:Hs; cbn [mbind res_bind].
    2:{ intros [= ->]. apply (IHv s); [lia|done]. }
    apply scan_length_all in Hs. pose proof (length_skip q) as Hsk.
    destruct (skip q) as [|c q'] eqn:Hq; [done|]. simpl in Hsk.
    pose proof (length_skip q') as Hsk'.
    repeat (case_match; simplify_eq; try done). apply IHi. lia.
  - intros acc s Hn. cbn [scan_members]. destruct s as [|c s]; [done|].
    repeat (case_match; simplify_eq; try done).
    match goal with Hs : scan_str _ = Some _ |- _ =>
      apply (scan_str_length _ _ _ _ (le_n _)) in Hs as Hlen end.
    match goal with Hq : skip ?a = _ :: _ |- _ => pose proof (length_skip a) as Hx1; rewrite Hq in Hx1 end.
    simpl in Hn, Hx1.
    match goal with |- context [scan n (skip ?a)] => pose proof (length_skip a) as Hx2;
      destruct (scan n (skip a)) as [[v' q]|e] eqn:Hs' end; cbn [mbind res_bind].
    2:{ intros [= ->]. eapply IHv, Hs'. lia. }
    apply scan_length_all in Hs'. pose proof (length_skip q) as Hx3.
    destruct (skip q) as [|c' q'] eqn:Hq; [done|]. simpl in Hx3.
    pose proof (length_skip q') as Hx4.
    repeat (case_match; simplify_eq; try done). apply IHm. lia.
Qed.

(** [loads] never runs out of fuel. *)
Lemma loads_fuel s : loads s ≠ Err JFuel.
Proof.
  unfold loads. assert (∀ s, ('(v, r) ← scan (2 * length (skip s) + 2) (skip s);
    match skip r with [] => Ok v | _ => Err JDecode end) ≠ Err JFuel) as Hall.
  { intros t. destruct (scan _ _) as [[v r]|e] eqn:Hs; cbn [mbind res_bind]; [by case_match|].
    intros [= ->]. eapply (proj1 (scan_fuel_all _)), Hs. lia. }
  repeat case_match; try done; apply Hall.
Qed.

Lemma scan_S n c s : scan (S n) (c :: s) =
  if (c =? 34)%N then
    match scan_str s with Some (t, r) => Ok (JStr t, r) | None => Err JDecode end
  else if (c =? 91)%N then
    match skip s with 93%N :: r => Ok (JArr [], r) | r => scan_items n [] r end
  else if (c =? 123)%N then
    match skip s with 125%N :: r => Ok (JObj [], r) | r => scan_members n [] r end
  else match scan_constant (c :: s) with Some r => Ok r | None => scan_number (c :: s) end.
Proof. done. Qed.

Lemma scan_items_S n acc s : scan_items (S n) acc s =
  '(v, r) ← scan n s;
  match skip r with
  | 44%N :: r' => scan_items n (acc ++ [v]) (skip r')
  | 93%N :: r' => Ok (JArr (acc ++ [v]), r')
  | _ => Err JDecode
  end.
Proof. done. Qed.

Lemma scan_members_S n acc s : scan_members (S n) acc (34%N :: s) =
  match scan_str s with
  | None => Err JDecode
  | Some (k, r) =>
      match skip r with
      | 58%N :: r' =>
          '(v, r'') ← scan n (skip r');
          match skip r'' with
          | 44%N :: q => scan_members n (dset acc k v) (skip q)
          | 125%N :: q => Ok (JObj (dset acc k v), q)
          | _ => Err JDecode
          end
      | _ => Err JDecode
      end
  end.
Proof. done. Qed.

(** More fuel does not change a result. *)
Lemma scan_mono_all n :
  (∀ s, scan n s ≠ Err JFuel → scan (S n) s = scan n s) ∧
  (∀ acc s, scan_items n acc s ≠ Err JFuel → scan_items (S n) acc s = scan_items n acc s) ∧
  (∀ acc s, scan_members n acc s ≠ Err JFuel → scan_members (S n) acc s = scan_members n acc s).
Proof.
  induction n as [|n (IHv & IHi & IHm)]; [done|]. split_and!.
  - intros [|c s]; [done|]. rewrite (scan_S (S n)), (scan_S n). intros Hne.
    case_match; [done|]. case_match; [|case_match; [|done]].
    + repeat (case_match; try done); by apply IHi.
    + repeat (case_match; try done); by apply IHm.
  - intros acc s. rewrite (scan_items_S (S n)), (scan_items_S n). intros Hne.
    destruct (scan n s) as [[v r]|e] eqn:Hs; cbn [mbind res_bind] in *.
    + rewrite IHv, Hs by (by rewrite Hs). cbn [mbind res_bind].
      repeat (case_match; try done); by apply IHi.
    + rewrite IHv, Hs by (rewrite Hs; congruence). done.
  - intros acc [|c s]; [done|]. destruct (decide (c = 34%N)) as [->|Hc].
    2:{ intros _. cbn [scan_members]. by repeat (case_match; try done). }
    rewrite (scan_members_S (S n)), (scan_members_S n). intros Hne.
    destruct (scan_str s) as [[k r]|]; [|done].
    repeat (case_match; try done).
    match goal with |- context [scan n ?a] => destruct (scan n a) as [[v q]|e] eqn:Hs end;
      cbn [mbind res_bind] in *.
    + rewrite IHv, Hs by (by rewrite Hs). cbn [mbind res_bind].
      repeat (case_match; try done); by apply IHm.
    + rewrite IHv, Hs by (rewrite Hs; congruence). done.
Qed.

Lemma scan_mono n m s r : scan n s = r → r ≠ Err JFuel → n ≤ m → scan m s = r.
Proof.
  intros Hn Hne Hle. induction Hle as [|m Hle IH]; [done|].
  destruct (scan_mono_all m) as (Hm & _). rewrite Hm; [done|congruence].
Qed.

(** A value scanned with some fuel is what [loads] scans. *)
Lemma scan_any n s v r : scan n s = Ok (v, r) → scan (2 * length s + 2) s = Ok (v, r).
Proof.
  intros Hn. destruct (le_ge_dec n (2 * length s + 2)) as [Hle|Hge].
  - by eapply scan_mono.
  - destruct (scan_fuel_all (2 * length s + 2)) as (Hf & _). specialize (Hf s ltac:(lia)).
    pose proof (scan_mono _ n _ _ eq_refl Hf Hge). congruence.
Qed.
End fuel.
