(* ===== verification/JsonRoundTrip.v ===== *)
(** * What json.dumps writes, json.loads reads back

    The round trip of the models of [PyJson.v], and that a document written on one line
    holds no line break. The laws of [FloatTextLaws] are what Python documents of
    [repr(float)]; the last section shows an instance of them. *)

From S2P Require Import Prelude PyText PyCodec PyDict PyFloat PyJson.

(** ** Strings *)

Lemma hex_val_digit d : (d < 16)%N → hex_val (hex_digit d) = Some d.
Proof.
  intros Hd. unfold hex_digit, hex_val. destruct (N.ltb_spec d 10).
  - destruct (N.leb_spec 48 (48 + d)); [|lia]. destruct (N.leb_spec (48 + d) 57); [|lia].
    simpl. f_equal. lia.
  - destruct (N.leb_spec (87 + d) 57); [lia|]. rewrite andb_false_r.
    destruct (N.leb_spec 97 (87 + d)); [|lia]. destruct (N.leb_spec (87 + d) 102); [|lia].
    simpl. f_equal. lia.
Qed.

Lemma hex4_digits n : (n < 65536)%N →
  hex4 (hex_digit (n / 4096 mod 16)) (hex_digit (n / 256 mod 16))
    (hex_digit (n / 16 mod 16)) (hex_digit (n mod 16)) = Some n.
Proof.
  intros Hn. unfold hex4. rewrite !hex_val_digit by (apply N.mod_lt; lia).
  cbn [mbind option_bind]. f_equal. zify. Z.to_euclidean_division_equations. lia.
Qed.

Lemma scan_str_esc_u n rest : (n < 65536)%N → is_high n = false →
  scan_str (esc_u n ++ rest) = push n (scan_str rest).
Proof.
  intros Hn Hh. unfold esc_u. cbn [app scan_str]. cbn [N.eqb Pos.eqb].
  by rewrite hex4_digits, Hh.
Qed.

Lemma scan_str_esc_high n rest : (n < 65536)%N → is_high n = true →
  scan_str (esc_u n ++ rest) =
  match rest with
  | x :: y :: a :: b :: c :: d :: s4 =>
      if ((x =? 92) && (y =? 117))%N then
        match hex4 a b c d with
        | None => None
        | Some l =>
            if is_low l then push (65536 + (n - 55296) * 1024 + (l - 56320))%N (scan_str s4)
            else push n (scan_str rest)
        end
      else push n (scan_str rest)
  | _ => push n (scan_str rest)
  end.
Proof.
  intros Hn Hh. unfold esc_u. cbn [app]. cbn [scan_str]. cbn [N.eqb Pos.eqb].
  rewrite hex4_digits, Hh by done. done.
Qed.

(** What [loads] gives back: code points, with no high surrogate before a low one. *)
Fixpoint str_ok (s : text) : bool :=
  match s with
  | [] => true
  | c :: s' =>
      (c <? 1114112)%N
      && negb (is_high c && match s' with d :: _ => is_low d | [] => false end) && str_ok s'
  end.

Lemma is_high_range n : is_high n = true ↔ (55296 ≤ n < 56320)%N.
Proof. unfold is_high. rewrite andb_true_iff, N.leb_le, N.ltb_lt. lia. Qed.

Lemma is_low_range n : is_low n = true ↔ (56320 ≤ n < 57344)%N.
Proof. unfold is_low. rewrite andb_true_iff, N.leb_le, N.ltb_lt. lia. Qed.

(** The six ways a character is written. *)
Lemma esc_char_cases c : (c < 1114112)%N →
  (∃ e, esc_char c = [92; e]%N ∧ unescape e = Some c ∧ e ≠ 117%N) ∨
  (esc_char c = [c] ∧ (32 ≤ c ≤ 126)%N ∧ c ≠ 34%N ∧ c ≠ 92%N) ∨
  (esc_char c = esc_u c ∧ (c < 65536)%N) ∨
  ∃ h l, esc_char c = esc_u h ++ esc_u l ∧ is_high h = true ∧ is_low l = true ∧
    (c = 65536 + (h - 55296) * 1024 + (l - 56320))%N.
Proof.
  intros Hc. unfold esc_char.
  destruct (N.eqb_spec c 34) as [->|]; [left; by exists 34%N|].
  destruct (N.eqb_spec c 92) as [->|]; [left; by exists 92%N|].
  destruct (N.eqb_spec c 10) as [->|]; [left; by exists 110%N|].
  destruct (N.eqb_spec c 13) as [->|]; [left; by exists 114%N|].
  destruct (N.eqb_spec c 9) as [->|]; [left; by exists 116%N|].
  destruct (N.eqb_spec c 12) as [->|]; [left; by exists 102%N|].
  destruct (N.eqb_spec c 8) as [->|]; [left; by exists 98%N|].
  right. destruct ((32 <=? c) && (c <=? 126))%N eqn:Hr.
  { left. apply andb_true_iff in Hr as [?%N.leb_le ?%N.leb_le]. split_and!; done || lia. }
  right. destruct (N.ltb_spec c 65536); [by left|]. right. eexists _, _. split; [done|].
  rewrite is_high_range, is_low_range. zify. Z.to_euclidean_division_equations. lia.
Qed.

Lemma scan_str_esc s rest :
  str_ok s = true → scan_str ((s ≫= esc_char) ++ 34%N :: rest) = Some (s, rest).
Proof.
  induction s as [|c s IH]; [done|].
  cbn [str_ok]. rewrite !andb_true_iff, negb_true_iff, N.ltb_lt. intros [[Hc Hsur] Hs].
  specialize (IH Hs). csimpl. rewrite <-app_assoc.
  destruct (esc_char_cases c Hc) as [(e & -> & He & Hne)|[(-> & Hr & Hq & Hb)|[[-> Hl]|
    (h & l & -> & Hh & Hl & ->)]]].
  - cbn [app scan_str]. cbn [N.eqb Pos.eqb].
    destruct (N.eqb_spec e 117); [done|]. by rewrite He, IH.
  - cbn [app scan_str]. destruct (N.eqb_spec c 34); [done|]. destruct (N.eqb_spec c 92); [done|].
    destruct (N.ltb_spec c 32); [lia|]. by rewrite IH.
  - destruct (is_high c) eqn:Hh; [|by rewrite scan_str_esc_u, IH by done].
    rewrite scan_str_esc_high by done. rewrite IH. simpl in Hsur.
    destruct s as [|d s]; [by csimpl; repeat case_match|].
    cbn [str_ok] in Hs. rewrite !andb_true_iff, N.ltb_lt in Hs. destruct Hs as [[Hd _] _].
    csimpl. rewrite <-app_assoc.
    destruct (esc_char_cases d Hd) as [(e & -> & He & Hne)|[(-> & Hr & Hq & Hb)|[[-> Hl2]|
      (h & l & -> & Hh2 & Hl2 & ->)]]].
    + cbn [app]. destruct (N.eqb_spec e 117); [done|]. rewrite andb_false_r.
      by repeat case_match.
    + cbn [app]. destruct (N.eqb_spec d 92); [done|]. by repeat case_match.
    + unfold esc_u. cbn [app]. cbn [N.eqb Pos.eqb andb]. by rewrite hex4_digits, Hsur.
    + unfold esc_u. cbn [app]. cbn [N.eqb Pos.eqb andb].
      apply is_high_range in Hh2 as Hrange. rewrite hex4_digits by lia.
      assert (is_low h = false) as ->; [|done].
      apply not_true_iff_false. rewrite is_low_range. lia.
  - apply is_high_range in Hh as Hhr. apply is_low_range in Hl as Hlr.
    rewrite <-app_assoc, scan_str_esc_high by (done || lia).
    unfold esc_u at 1. cbn [app]. cbn [N.eqb Pos.eqb andb].
    by rewrite hex4_digits, Hl, IH by lia.
Qed.

Lemma scan_str_enc s rest :
  str_ok s = true → ∃ t, enc_str s ++ rest = 34%N :: t ∧ scan_str t = Some (s, rest).
Proof.
  intros Hs. exists ((s ≫= esc_char) ++ 34%N :: rest). split; [|by apply scan_str_esc].
  unfold enc_str. cbn [app]. by rewrite <-app_assoc.
Qed.

(** ** Numbers *)

(** What follows a number does not go on with it. *)
Definition num_stop (rest : text) : bool :=
  match rest with
  | [] => true
  | c :: _ => negb (is_digit c || (c =? 46)%N || (c =? 101)%N || (c =? 69)%N)
  end.

Lemma num_stop_head c rest : num_stop (c :: rest) = true →
  is_digit c = false ∧ (c =? 46)%N = false ∧ ((c =? 101) || (c =? 69))%N = false.
Proof.
  simpl. rewrite negb_true_iff, !orb_false_iff. naive_solver.
Qed.

Lemma digits_app s d r rest :
  num_stop rest = true → digits s = (d, r) → digits (s ++ rest) = (d, r ++ rest).
Proof.
  intros Hs. revert d r. induction s as [|c s IH]; intros d r; simpl.
  { intros [= <- <-]. destruct rest as [|c rest]; [done|].
    apply num_stop_head in Hs as (Hc & _). simpl. by rewrite Hc. }
  destruct (is_digit c); [|by intros [= <- <-]].
  destruct (digits s) as [d' r'] eqn:E. intros [= <- <-]. by rewrite (IH _ _ eq_refl).
Qed.

Lemma lex_frac_app s d r rest :
  num_stop rest = true → lex_frac s = (d, r) → lex_frac (s ++ rest) = (d, r ++ rest).
Proof.
  intros Hs. unfold lex_frac. destruct s as [|c s]; cbn [app].
  { intros [= <- <-]. destruct rest as [|c rest]; [done|].
    apply num_stop_head in Hs as (_ & Hc & _). by rewrite Hc. }
  destruct (c =? 46)%N; [|by intros [= <- <-]].
  destruct (digits s) as [ds q] eqn:Hd. rewrite (digits_app _ _ _ _ Hs Hd).
  destruct ds; by intros [= <- <-].
Qed.

Lemma lex_exp_app s d rest :
  num_stop rest = true → lex_exp s = (d, []) → lex_exp (s ++ rest) = (d, rest).
Proof.
  intros Hs. unfold lex_exp. destruct s as [|c s]; cbn [app].
  { intros [= <-]. destruct rest as [|c rest]; [done|].
    apply num_stop_head in Hs as (_ & _ & Hc). by rewrite Hc. }
  destruct ((c =? 101) || (c =? 69))%N; [|by intros [= <-]].
  destruct s as [|g t]; [done|]. cbn [app].
  destruct ((g =? 43) || (g =? 45))%N.
  - destruct (digits t) as [ds q] eqn:Hd. rewrite (digits_app _ _ _ _ Hs Hd).
    destruct ds; [done|]. by intros [= <- ->].
  - destruct (digits (g :: t)) as [ds q] eqn:Hd.
    pose proof (digits_app _ _ _ _ Hs Hd) as Hd'. cbn [app] in Hd'. rewrite Hd'.
    destruct ds; [done|]. by intros [= <- ->].
Qed.

Lemma lex_int_app s d r rest :
  num_stop rest = true → lex_int s = Some (d, r) → lex_int (s ++ rest) = Some (d, r ++ rest).
Proof.
  intros Hs. unfold lex_int. destruct s as [|c s]; [done|]. cbn [app].
  destruct (c =? 48)%N; [by intros [= <- <-]|]. destruct (is_digit c); [|done].
  intros [= Hd]. f_equal. by apply (digits_app (c :: s)).
Qed.

(** A number read to its end is read the same before a character that stops it. *)
Lemma lex_number_app s lit b rest :
  num_stop rest = true → lex_number s = Some (lit, b, []) →
  lex_number (s ++ rest) = Some (lit, b, rest).
Proof.
  intros Hs. unfold lex_number.
  assert (∃ sg t, match s with c :: t => if (c =? 45)%N then ([c], t) else ([], s)
    | [] => ([], s) end = (sg, t) ∧ (t ≠ [] → match s ++ rest with
    | c :: t => if (c =? 45)%N then ([c], t) else ([], s ++ rest) | [] => ([], s ++ rest) end
      = (sg, t ++ rest))) as (sg & t & -> & Heq).
  { destruct s as [|c t]; [by exists [], []|]. cbn [app]. case_match; by eexists _, _. }
  destruct (lex_int t) as [[ip s2]|] eqn:Hi; simpl; [|done].
  destruct (lex_frac s2) as [fr s3] eqn:Hf. destruct (lex_exp s3) as [ex s4] eqn:He.
  intros [= <- <- ->]. rewrite Heq by (by intros ->).
  rewrite (lex_int_app _ _ _ _ Hs Hi). simpl.
  rewrite (lex_frac_app _ _ _ _ Hs Hf). by rewrite (lex_exp_app _ _ _ Hs He).
Qed.

Lemma is_digit_spec c : is_digit c = true ↔ (48 ≤ c ≤ 57)%N.
Proof. unfold is_digit. by rewrite andb_true_iff, !N.leb_le. Qed.

(** Decimal digits have no leading zero. *)
Lemma N_text_head n : N_text n = [48%N] ∨ ∃ c s, N_text n = c :: s ∧ (49 ≤ c ≤ 57)%N.
Proof.
  unfold N_text. pose proof (DecimalN.Unsigned.to_of (N.to_uint n)) as Hnorm.
  rewrite DecimalN.Unsigned.of_to in Hnorm.
  destruct (N.to_uint n) as [|d|d|d|d|d|d|d|d|d|d] eqn:E;
    try (right; by eexists _, _; split; [done|lia]).
  - done.
  - left. unfold Decimal.unorm in Hnorm.
    destruct (Decimal.nzhead (Decimal.D0 d)) as [|d'|d'|d'|d'|d'|d'|d'|d'|d'|d'] eqn:Hz;
      try discriminate.
    + injection Hnorm as ->. done.
    + by apply DecimalFacts.nzhead_nonzero in Hz.
Qed.

Lemma digits_full s : Forall (λ c, 48 ≤ c ≤ 57)%N s → digits s = (s, []).
Proof. induction 1 as [|c s Hc _ IH]; [done|]. simpl. by rewrite (proj2 (is_digit_spec c) Hc), IH. Qed.

Lemma lex_int_text n : lex_int (N_text n) = Some (N_text n, []).
Proof.
  pose proof (digits_full _ (N_text_digits n)) as Hd.
  destruct (N_text_head n) as [->|(c & s & Heq & Hc)]; [done|]. rewrite Heq in *. unfold lex_int.
  destruct (N.eqb_spec c 48); [lia|]. rewrite (proj2 (is_digit_spec c)) by lia. by rewrite Hd.
Qed.

Lemma lex_number_int z : lex_number (Z_text z) = Some (Z_text z, false, []).
Proof.
  unfold lex_number, Z_text. destruct (z <? 0)%Z.
  - cbn [N.eqb Pos.eqb]. rewrite lex_int_text. simpl. by rewrite app_nil_r.
  - pose proof (lex_int_text (Z.abs_N z)) as Hl.
    destruct (N_text_cons (Z.abs_N z)) as (c & s & Heq & Hc). rewrite Heq in *.
    destruct (N.eqb_spec c 45); [lia|]. rewrite Hl. simpl. by rewrite app_nil_r.
Qed.

(** A number starts with a digit or a minus sign, and no constant does but -Infinity. *)
Lemma lex_number_head s lit b r : lex_number s = Some (lit, b, r) →
  ∃ c t, s = c :: t ∧ (c = 45 ∨ 48 ≤ c ≤ 57)%N ∧
    (c = 45%N → ∃ d t', t = d :: t' ∧ (48 ≤ d ≤ 57)%N).
Proof.
  unfold lex_number. destruct s as [|c t]; [done|]. intros Hl. exists c, t. split; [done|].
  assert (∀ s x, lex_int s = Some x → ∃ d t', s = d :: t' ∧ (48 ≤ d ≤ 57)%N) as Hint.
  { intros [|d t'] x; simpl; [done|]. destruct (N.eqb_spec d 48) as [->|]; [by eexists _, _|].
    destruct (is_digit d) eqn:Hd; [|done]. apply is_digit_spec in Hd. by eexists _, _. }
  destruct (N.eqb_spec c 45) as [->|Hc].
  - split; [by left|]. intros _. destruct (lex_int t) eqn:E; [|done]. by eapply Hint.
  - destruct (lex_int (c :: t)) eqn:E; [|done]. apply Hint in E as (d & t' & [= <- <-] & ?).
    split; [by right|]. lia.
Qed.

Lemma scan_constant_number s lit b r :
  lex_number s = Some (lit, b, r) → scan_constant s = None.
Proof.
  intros (c & t & -> & Hc & Hd)%lex_number_head. unfold scan_constant.
  destruct (list_find _ constants) as [[i [w v]]|] eqn:Hf; [|done].
  apply list_find_Some in Hf as (Hi & Hp & _). simpl in Hp. exfalso.
  unfold startswith in Hp. apply bool_decide_eq_true in Hp. destruct Hp as [q Hq].
  repeat (destruct i as [|i]; [injection Hi as <- <-; injection Hq as Hc' Hq; try lia|]);
    [|done].
  destruct (Hd Hc') as (d & t' & -> & ?). injection Hq as Hd' _. lia.
Qed.

Definition float_finite (f : float) : bool :=
  match f with S754_nan | S754_infinity _ => false | _ => true end.

(** The documented behaviour of [repr]: a finite float is written as a number with a
    fraction or an exponent, and [float] reads it back. *)
Class FloatTextLaws `{FloatText} := {
    repr_number : ∀ f, float_finite f = true → valid_binary prec emax f = true →
      lex_number (float_repr f) = Some (float_repr f, true, []);
    repr_float : ∀ f, float_finite f = true → valid_binary prec emax f = true →
      float_of_text (float_repr f) = Some f
  }.

Section round_trip.
Context `{FloatTextLaws}.

(** The documents that survive: binary64 floats, strings without a split surrogate
    pair, integers within the digit limit, and different keys. *)
Fixpoint json_ok (v : json) : bool :=
  match v with
  | JInt z => bool_decide (is_Some (str_int z))
  | JFloat f => valid_binary prec emax f
  | JStr s => str_ok s
  | JArr l => forallb json_ok l
  | JObj d => bool_decide (NoDup d.*1) && forallb (λ kv, str_ok kv.1 && json_ok kv.2) d
  | _ => true
  end.

Lemma scan_number_int z rest :
  is_Some (str_int z) → num_stop rest = true → scan_number (Z_text z ++ rest) = Ok (JInt z, rest).
Proof.
  intros [s Hs] Hr. unfold scan_number.
  rewrite (lex_number_app _ _ _ _ Hr (lex_number_int z)).
  pose proof (int_of_str_int _ _ Hs) as Hi. unfold str_int in Hs. case_match; [|done].
  injection Hs as <-. by rewrite Hi.
Qed.

Lemma scan_lexed n s lit b rest :
  lex_number s = Some (lit, b, []) → num_stop rest = true →
  scan (S n) (s ++ rest) = scan_number (s ++ rest).
Proof.
  intros Hl Hr. pose proof (lex_number_app _ _ _ _ Hr Hl) as Hl'.
  pose proof (scan_constant_number _ _ _ _ Hl') as Hc.
  apply lex_number_head in Hl as (c & t & -> & Hcr & _). cbn [app] in *. rewrite scan_S, Hc.
  destruct (N.eqb_spec c 34); [lia|]. destruct (N.eqb_spec c 91); [lia|].
  destruct (N.eqb_spec c 123); [lia|]. done.
Qed.

Lemma scan_float n f rest :
  valid_binary prec emax f = true → num_stop rest = true →
  scan (S n) (enc_float f ++ rest) = Ok (JFloat f, rest).
Proof.
  intros Hv Hr. destruct (float_finite f) eqn:Hf.
  - assert (enc_float f = float_repr f) as -> by (by destruct f).
    pose proof (repr_number _ Hf Hv) as Hl. rewrite (scan_lexed _ _ _ _ _ Hl Hr).
    unfold scan_number. rewrite (lex_number_app _ _ _ _ Hr Hl). by rewrite repr_float.
  - destruct f as [| [] | |]; done.
Qed.

(** ** Documents *)

Lemma json_ind' (P : json → Prop) :
  P JNull → (∀ b, P (JBool b)) → (∀ z, P (JInt z)) → (∀ f, P (JFloat f)) → (∀ s, P (JStr s)) →
  (∀ l, Forall P l → P (JArr l)) → (∀ d, Forall (λ kv, P kv.2) d → P (JObj d)) → ∀ v, P v.
Proof.
  intros Hn Hb Hi Hf Hs Ha Ho.
  refine (fix go v := match v with
    | JNull => Hn | JBool b => Hb b | JInt z => Hi z | JFloat f => Hf f | JStr s => Hs s
    | JArr l => Ha l _ | JObj d => Ho d _ end).
  - induction l; constructor; auto.
  - induction d; constructor; auto.
Qed.

Lemma skip_ws w s : Forall (λ c, is_ws c = true) w → skip (w ++ s) = skip s.
Proof. apply lstrip_by_all. Qed.

Lemma nl_ws ind lvl : Forall (λ c, is_ws c = true) (nl ind lvl).
Proof. destruct ind as [k|]; simpl; [|done]. constructor; [done|]. by apply Forall_replicate. Qed.

Lemma item_sep_cons ind lvl : ∃ w, item_sep ind lvl = 44%N :: w ∧ Forall (λ c, is_ws c = true) w.
Proof.
  destruct ind as [k|]; [exists (nl (Some k) lvl); split; [done|apply nl_ws]|].
  exists [32%N]. by repeat constructor.
Qed.

Lemma num_stop_nl ind lvl c rest : num_stop (c :: rest) = true → num_stop (nl ind lvl ++ c :: rest) = true.
Proof. by destruct ind. Qed.

(** The first character of a document is not a blank and closes nothing. *)
Lemma enc_head ind lvl v : json_ok v = true →
  ∃ c t, enc ind lvl v = c :: t ∧ is_ws c = false ∧ c ≠ 93%N ∧ c ≠ 125%N ∧ c ≠ 65279%N.
Proof.
  assert (∀ s lit b, lex_number s = Some (lit, b, []) →
    ∃ c t, s = c :: t ∧ is_ws c = false ∧ c ≠ 93%N ∧ c ≠ 125%N ∧ c ≠ 65279%N) as Hnum.
  { intros s lit b (c & t & -> & Hc & _)%lex_number_head. exists c, t. split; [done|].
    unfold is_ws. rewrite !orb_false_iff, !N.eqb_neq. lia. }
  destruct v as [|[]|z|f|s|[|x l]|[|x d]]; intros Hok; try (by eexists _, _).
  - eapply Hnum, lex_number_int.
  - simpl in Hok |- *. destruct (float_finite f) eqn:Hf.
    + assert (enc_float f = float_repr f) as -> by (by destruct f).
      eapply Hnum, repr_number; done.
    + destruct f as [|[]| |]; try done; by eexists _, _.
Qed.

Lemma skip_enc ind lvl v rest : json_ok v = true → skip (enc ind lvl v ++ rest) = enc ind lvl v ++ rest.
Proof. intros (c & t & -> & Hw & _)%(enc_head ind lvl). by apply lstrip_by_id. Qed.

Definition scans (ind : option nat) (v : json) : Prop := ∀ lvl rest, num_stop rest = true →
  ∃ N, ∀ n, N ≤ n → scan n (enc ind lvl v ++ rest) = Ok (v, rest).

Lemma scan_items_enc ind lvl x l acc rest :
  json_ok x = true → forallb json_ok l = true → scans ind x → Forall (scans ind) l →
  ∃ N, ∀ n, N ≤ n →
    scan_items n acc (str_join (item_sep ind (S lvl)) (enc ind (S lvl) <$> x :: l)
                      ++ nl ind lvl ++ 93%N :: rest) = Ok (JArr (acc ++ x :: l), rest).
Proof.
  intros Hx Hl Hsx Hsl. revert x acc Hx Hsx. induction Hsl as [|y l Hsy Hsl IH]; intros x acc Hx Hsx.
  - destruct (Hsx (S lvl) (nl ind lvl ++ 93%N :: rest)) as [N HN]; [by apply num_stop_nl|].
    exists (S N). intros [|n] Hn; [lia|]. rewrite scan_items_S. csimpl. rewrite HN by lia.
    cbn [mbind res_bind]. by rewrite skip_ws by apply nl_ws.
  - simpl in Hl. apply andb_true_iff in Hl as [Hy Hl].
    destruct (IH Hl y (acc ++ [x]) Hy Hsy) as [N2 HN2].
    destruct (item_sep_cons ind (S lvl)) as (w & Hw & Hws).
    rewrite fmap_cons, str_join_cons by done. rewrite Hw in *.
    set (tl := str_join (44%N :: w) (enc ind (S lvl) <$> y :: l) ++ nl ind lvl ++ 93%N :: rest) in *.
    destruct (Hsx (S lvl) (44%N :: w ++ tl)) as [N1 HN1]; [done|].
    exists (S (N1 `max` N2)). intros [|n] Hn; [lia|]. rewrite scan_items_S.
    rewrite <-?app_assoc. cbn [app]. rewrite <-?app_assoc.
    change (str_join _ _ ++ nl ind lvl ++ 93%N :: rest) with tl. rewrite HN1 by lia.
    cbn [mbind res_bind].
    change (skip (44%N :: w ++ tl)) with (44%N :: w ++ tl). cbn [app].
    rewrite skip_ws by done.
    assert (skip tl = tl) as ->.
    { unfold tl. destruct l; csimpl; rewrite <-?app_assoc; by apply skip_enc. }
    rewrite HN2 by lia. by rewrite <-app_assoc.
Qed.

Lemma scan_members_enc ind lvl kv d acc rest :
  str_ok kv.1 = true → json_ok kv.2 = true →
  forallb (λ kv, str_ok kv.1 && json_ok kv.2) d = true →
  scans ind kv.2 → Forall (λ kv, scans ind kv.2) d →
  ∃ N, ∀ n, N ≤ n →
    scan_members n acc (str_join (item_sep ind (S lvl))
        ((λ kv, enc_str kv.1 ++ u ": " ++ enc ind (S lvl) kv.2) <$> kv :: d)
      ++ nl ind lvl ++ 125%N :: rest)
    = Ok (JObj (foldl (λ d p, dset d p.1 p.2) acc (kv :: d)), rest).
Proof.
  intros Hk Hx Hl Hsx Hsl. revert kv acc Hk Hx Hsx.
  induction Hsl as [|kv2 d Hsy Hsl IH]; intros [k x] acc Hk Hx Hsx; cbn [fst snd] in *.
  - destruct (Hsx (S lvl) (nl ind lvl ++ 125%N :: rest)) as [N HN]; [by apply num_stop_nl|].
    exists (S N). intros [|n] Hn; [lia|]. cbn [fmap list_fmap str_join fst snd].
    rewrite <-!app_assoc. destruct (scan_str_enc k (u ": " ++ enc ind (S lvl) x ++ nl ind lvl ++ 125%N :: rest) Hk)
      as (t & -> & Ht).
    rewrite scan_members_S, Ht. cbn [app]. 
    change (skip (u ": " ++ enc ind (S lvl) x ++ nl ind lvl ++ 125%N :: rest)) with
      (58%N :: [32%N] ++ enc ind (S lvl) x ++ nl ind lvl ++ 125%N :: rest). cbn match.
    rewrite skip_ws, skip_enc, HN by (done || lia || by repeat constructor).
    cbn [mbind res_bind]. by rewrite skip_ws by apply nl_ws.
  - simpl in Hl. apply andb_true_iff in Hl as [[Hk2 Hx2]%andb_true_iff Hl].
    destruct (IH Hl kv2 (dset acc k x) Hk2 Hx2 Hsy) as [N2 HN2].
    destruct (item_sep_cons ind (S lvl)) as (w & Hw & Hws).
    rewrite fmap_cons, str_join_cons by done. rewrite Hw in *.
    set (tl := str_join (44%N :: w) ((λ kv, enc_str kv.1 ++ u ": " ++ enc ind (S lvl) kv.2) <$> kv2 :: d)
               ++ nl ind lvl ++ 125%N :: rest) in *.
    destruct (Hsx (S lvl) (44%N :: w ++ tl)) as [N1 HN1]; [done|].
    exists (S (N1 `max` N2)). intros [|n] Hn; [lia|]. cbn [fst snd].
    rewrite <-?app_assoc. cbn [app]. rewrite <-?app_assoc.
    change (str_join _ _ ++ nl ind lvl ++ 125%N :: rest) with tl.
    destruct (scan_str_enc k (u ": " ++ enc ind (S lvl) x ++ 44%N :: w ++ tl) Hk)
      as (t & -> & Ht).
    rewrite scan_members_S, Ht.
    change (skip (u ": " ++ enc ind (S lvl) x ++ 44%N :: w ++ tl)) with
      (58%N :: [32%N] ++ enc ind (S lvl) x ++ 44%N :: w ++ tl). cbn match.
    rewrite skip_ws, skip_enc, HN1 by (done || lia || by repeat constructor).
    cbn [mbind res_bind]. change (skip (44%N :: w ++ tl)) with (44%N :: w ++ tl). cbn match.
    rewrite skip_ws by done.
    assert (skip tl = tl) as ->.
    { unfold tl. destruct d; csimpl; rewrite <-?app_assoc; by apply lstrip_by_id. }
    by rewrite HN2 by lia.
Qed.

Lemma foldl_dset_new d acc : NoDup (acc ++ d).*1 →
  foldl (λ (d : list (text * json)) p, dset d p.1 p.2) acc d = acc ++ d.
Proof.
  revert acc. induction d as [|[k v] d IH]; intros acc Hd; simpl; [by rewrite app_nil_r|].
  rewrite dset_keys_new.
  - rewrite IH; [by rewrite <-app_assoc|]. by rewrite <-app_assoc.
  - rewrite fmap_app in Hd. apply NoDup_app in Hd as (_ & Hd & _). intros Hk. eapply Hd; [done|left].
Qed.

Lemma scan_enc ind v : json_ok v = true → scans ind v.
Proof.
  induction v as [| b|z|f|s|l IH|d IH] using json_ind'; intros Hok lvl rest Hr.
  - exists 1. intros [|n] Hn; [lia|]. done.
  - exists 1. intros [|n] Hn; [lia|]. by destruct b.
  - exists 1. intros [|n] Hn; [lia|]. simpl in Hok. apply bool_decide_eq_true in Hok. cbn [enc].
    rewrite (scan_lexed _ _ _ _ _ (lex_number_int z) Hr). by apply scan_number_int.
  - exists 1. intros [|n] Hn; [lia|]. by apply scan_float.
  - exists 1. intros [|n] Hn; [lia|]. cbn [enc].
    destruct (scan_str_enc s rest Hok) as (t & -> & Ht). by rewrite scan_S, Ht.
  - destruct l as [|x l]; [exists 1; intros [|n] Hn; [lia|done]|].
    cbn [json_ok forallb] in Hok. apply andb_true_iff in Hok as [Hx Hl].
    apply Forall_cons in IH as [IHx IH].
    assert (Forall (scans ind) l) as Hsl.
    { rewrite Forall_forall in IH |- *. intros y Hy. apply IH; [done|].
      rewrite forallb_forall in Hl. by apply Hl, list_elem_of_In. }
    destruct (scan_items_enc ind lvl x l [] rest Hx Hl (IHx Hx) Hsl) as [N HN].
    exists (S N). intros [|n] Hn; [lia|].
    change (enc ind lvl (JArr (x :: l))) with (91%N :: nl ind (S lvl) ++
      str_join (item_sep ind (S lvl)) (enc ind (S lvl) <$> x :: l) ++ nl ind lvl ++ [93%N]).
    cbn [app]. rewrite scan_S. cbn [N.eqb Pos.eqb]. rewrite <-!app_assoc. cbn [app].
    rewrite skip_ws by apply nl_ws. specialize (HN n ltac:(lia)).
    destruct (enc_head ind (S lvl) x Hx) as (c & t & Hc & Hw & Hne & _ & _).
    destruct (str_join_head (item_sep ind (S lvl)) (enc ind (S lvl) x) (enc ind (S lvl) <$> l))
      as [q Hq].
    rewrite fmap_cons in HN |- *. rewrite Hq, Hc in *. cbn [app] in *.
    unfold skip. rewrite lstrip_by_id by done.
    destruct c as [|p]; [done|]. do 7 (destruct p as [p|p|]; try exact HN); done.
  - destruct d as [|[k x] d]; [exists 1; intros [|n] Hn; [lia|done]|].
    cbn [json_ok] in Hok. apply andb_true_iff in Hok as [Hnd Hok].
    apply bool_decide_eq_true in Hnd.
    cbn [forallb] in Hok. apply andb_true_iff in Hok as [[Hk Hx]%andb_true_iff Hl].
    apply Forall_cons in IH as [IHx IH].
    assert (Forall (λ kv, scans ind kv.2) d) as Hsl.
    { rewrite Forall_forall in IH |- *. intros y Hy. apply IH; [done|].
      rewrite forallb_forall in Hl. apply list_elem_of_In, Hl in Hy.
      by apply andb_true_iff in Hy as [_ ?]. }
    destruct (scan_members_enc ind lvl (k, x) d [] rest Hk Hx Hl (IHx Hx) Hsl) as [N HN].
    exists (S N). intros [|n] Hn; [lia|].
    change (enc ind lvl (JObj ((k, x) :: d))) with (123%N :: nl ind (S lvl) ++
      str_join (item_sep ind (S lvl))
        ((λ kv, enc_str kv.1 ++ u ": " ++ enc ind (S lvl) kv.2) <$> (k, x) :: d)
      ++ nl ind lvl ++ [125%N]).
    cbn [app]. rewrite scan_S. cbn [N.eqb Pos.eqb]. rewrite <-!app_assoc. cbn [app].
    rewrite skip_ws by apply nl_ws. specialize (HN n ltac:(lia)).
    rewrite foldl_dset_new in HN by done. cbn [app] in HN. rewrite <-HN. clear HN.
    destruct (str_join_head (item_sep ind (S lvl)) (enc_str k ++ u ": " ++ enc ind (S lvl) x)
      ((λ kv, enc_str kv.1 ++ u ": " ++ enc ind (S lvl) kv.2) <$> d)) as [q Hq].
    rewrite fmap_cons. cbn [fst snd]. rewrite Hq. unfold enc_str. cbn [app].
    unfold skip. rewrite lstrip_by_id by done. done.
Qed.

(** [json.loads(json.dumps(v)) == v], with or without [indent] and with blanks after it. *)
Lemma loads_dumps ind v s blanks :
  json_ok v = true → Forall (λ c, is_ws c = true) blanks → dumps ind v = Ok s →
  loads (s ++ blanks) = Ok v.
Proof.
  intros Hok Hb. unfold dumps. case_match; [|done]. intros [= <-].
  assert (num_stop blanks = true) as Hstop.
  { destruct Hb as [|c t Hc]; [done|]. simpl. unfold is_ws in Hc.
    rewrite !orb_true_iff, !N.eqb_eq in Hc. destruct_or! Hc; by subst. }
  destruct (scan_enc ind v Hok 0 blanks Hstop) as [N HN].
  pose proof (scan_any _ _ _ _ (HN N (le_n _))) as Hs.
  assert (skip blanks = []) as Hnil by by apply lstrip_by_nil.
  assert (∀ c t, enc ind 0 v ++ blanks = c :: t → c ≠ 65279%N →
    loads (c :: t) = ('(v, r) ← scan (2 * length (c :: t) + 2) (c :: t);
      match skip r with [] => Ok v | _ => Err JDecode end)) as Hl.
  { intros c t Heq Hc. assert (skip (c :: t) = c :: t) as Hsk by (rewrite <-Heq; by apply skip_enc).
    unfold loads. rewrite Hsk. destruct c as [|p]; [done|].
    do 16 (destruct p as [p|p|]; try done). }
  destruct (enc_head ind 0 v Hok) as (c & t & Hc & _ & _ & _ & Hne).
  rewrite Hc in *. cbn [app] in *. rewrite (Hl _ _ eq_refl Hne), Hs.
  cbn [mbind res_bind]. by rewrite Hnil.
Qed.

(** A document dumped on one line is printable ASCII. *)
Definition printable (c : N) : Prop := (32 ≤ c ≤ 126)%N.

Lemma esc_u_printable n : Forall printable (esc_u n).
Proof.
  assert (∀ d, (d < 16)%N → printable (hex_digit d)) as Hd.
  { intros d Hd. unfold printable, hex_digit. destruct (N.ltb_spec d 10); lia. }
  unfold esc_u. repeat constructor; try done; apply Hd, N.mod_lt; lia.
Qed.

Lemma enc_str_printable s : str_ok s = true → Forall printable (enc_str s).
Proof.
  intros Hs. constructor; [done|]. apply Forall_app. split; [|by repeat constructor].
  induction s as [|c s IH]; [done|]. cbn [str_ok] in Hs.
  rewrite !andb_true_iff, N.ltb_lt in Hs. destruct Hs as [[Hc _] Hs]. csimpl. apply Forall_app.
  split; [|by apply IH].
  destruct (esc_char_cases c Hc) as [(e & -> & He & _)|[(-> & Hr & _ & _)|[[-> _]|
    (h & l & -> & _ & _ & _)]]].
  - constructor; [done|]. constructor; [|done]. unfold unescape in He.
    repeat (case_match; [rewrite N.eqb_eq in *; by subst|]); done.
  - constructor; [|done]. exact Hr.
  - apply esc_u_printable.
  - apply Forall_app. split; apply esc_u_printable.
Qed.

Definition num_char (c : N) : Prop := (43 ≤ c ≤ 57)%N ∨ c = 69%N ∨ c = 101%N.

Lemma digits_chars s d r : digits s = (d, r) → Forall num_char d.
Proof.
  revert d r. induction s as [|c s IH]; intros d r; simpl; [by intros [= <- <-]|].
  destruct (is_digit c) eqn:Hc; [|by intros [= <- <-]].
  destruct (digits s) as [d' r'] eqn:E. intros [= <- <-]. constructor; [|by eapply IH].
  apply is_digit_spec in Hc. left. lia.
Qed.

Lemma lex_number_chars s lit b r : lex_number s = Some (lit, b, r) → Forall num_char lit.
Proof.
  unfold lex_number.
  destruct (match s with c :: t => if (c =? 45)%N then ([c], t) else ([], s) | [] => ([], s) end)
    as [sg s1] eqn:Hsg.
  destruct (lex_int s1) as [[ip s2]|] eqn:Hi; simpl; [|done].
  destruct (lex_frac s2) as [fr s3] eqn:Hf. destruct (lex_exp s3) as [ex s4] eqn:He.
  intros [= <- <- <-]. rewrite !Forall_app. split_and!.
  - destruct s as [|c t]; [by injection Hsg as <- <-|].
    destruct (N.eqb_spec c 45) as [->|]; injection Hsg as <- <-; [|done].
    apply Forall_singleton. unfold num_char. lia.
  - unfold lex_int in Hi. destruct s1 as [|c t]; [done|].
    destruct (N.eqb_spec c 48) as [->|]; [injection Hi as <- <-; apply Forall_singleton; unfold num_char; lia|].
    destruct (is_digit c); [|done]. apply (inj Some) in Hi. by apply (digits_chars (c :: t) ip s2).
  - unfold lex_frac in Hf. destruct s2 as [|c t]; [by injection Hf as <- <-|].
    destruct (N.eqb_spec c 46) as [->|]; [|by injection Hf as <- <-].
    destruct (digits t) as [[|x ds] q] eqn:Hd; injection Hf as <- <-; [done|].
    constructor; [left; lia|]. by eapply digits_chars.
  - unfold lex_exp in He. destruct s3 as [|c t]; [by injection He as <- <-|].
    destruct ((c =? 101) || (c =? 69))%N eqn:Hc; [|by injection He as <- <-].
    rewrite orb_true_iff, !N.eqb_eq in Hc.
    destruct (match t with g :: t0 => if ((g =? 43) || (g =? 45))%N then ([g], t0) else ([], t)
      | [] => ([], t) end) as [sg' t'] eqn:Hg.
    destruct (digits t') as [[|x ds] q] eqn:Hd; injection He as <- <-; [done|].
    constructor; [unfold num_char; lia|]. apply Forall_app. split; [|by eapply digits_chars].
    destruct t as [|g t]; [by injection Hg as <- <-|].
    destruct ((g =? 43) || (g =? 45))%N eqn:Hgc; injection Hg as <- <-; try done.
    rewrite orb_true_iff, !N.eqb_eq in Hgc. apply Forall_singleton. unfold num_char. lia.
Qed.

Lemma str_join_Forall (P : N → Prop) sep l :
  Forall P sep → Forall (Forall P) l → Forall P (str_join sep l).
Proof.
  intros Hs. induction 1 as [|x l Hx Hl IH]; [done|]. destruct l; [done|].
  rewrite str_join_cons by done. by rewrite !Forall_app.
Qed.

Lemma u_printable s : forallb (λ c, (32 <=? c)%N && (c <=? 126)%N) (u s) = true → Forall printable (u s).
Proof.
  intros H'. apply Forall_forall. intros c Hc%list_elem_of_In. rewrite forallb_forall in H'.
  specialize (H' c Hc). unfold printable. rewrite andb_true_iff, !N.leb_le in H'. done.
Qed.

Lemma enc_printable v lvl : json_ok v = true → Forall printable (enc None lvl v).
Proof.
  revert lvl. induction v as [| b|z|f|s|l IH|d IH] using json_ind'; intros lvl Hok.
  - by apply u_printable.
  - destruct b; by apply u_printable.
  - cbn [enc]. eapply Forall_impl; [apply Z_text_digits|]. unfold printable. simpl. lia.
  - cbn [enc]. destruct (float_finite f) eqn:Hf.
    + assert (enc_float f = float_repr f) as -> by (by destruct f).
      eapply Forall_impl; [by eapply lex_number_chars, repr_number|].
      unfold num_char, printable. simpl. lia.
    + destruct f as [|[]| |]; try done; by apply u_printable.
  - by apply enc_str_printable.
  - destruct l as [|x l]; [by apply u_printable|].
    change (enc None lvl (JArr (x :: l))) with (91%N :: [] ++
      str_join (item_sep None (S lvl)) (enc None (S lvl) <$> x :: l) ++ [] ++ [93%N]).
    constructor; [done|]. cbn [app]. apply Forall_app. split; [|by repeat constructor].
    apply str_join_Forall; [by apply u_printable|]. apply Forall_fmap.
    rewrite Forall_forall in IH |- *. intros y Hy. apply IH; [done|].
    cbn [json_ok] in Hok. rewrite forallb_forall in Hok. by apply Hok, list_elem_of_In.
  - destruct d as [|kv d]; [by apply u_printable|].
    change (enc None lvl (JObj (kv :: d))) with (123%N :: [] ++
      str_join (item_sep None (S lvl))
        ((λ kv, enc_str kv.1 ++ u ": " ++ enc None (S lvl) kv.2) <$> kv :: d) ++ [] ++ [125%N]).
    constructor; [done|]. cbn [app]. apply Forall_app. split; [|by repeat constructor].
    apply str_join_Forall; [by apply u_printable|]. apply Forall_fmap.
    rewrite Forall_forall in IH |- *. intros y Hy.
    cbn [json_ok] in Hok. apply andb_true_iff in Hok as [_ Hok]. rewrite forallb_forall in Hok.
    specialize (Hok y (proj1 (list_elem_of_In _ _) Hy)). apply andb_true_iff in Hok as [Hk Hv].
    change (Forall printable (enc_str y.1 ++ u ": " ++ enc None (S lvl) y.2)).
    rewrite !Forall_app. split_and!; [by apply enc_str_printable|by apply u_printable|by apply IH].
Qed.
End round_trip.

(** ** An instance of the laws

    A finite float is written as its integer significand and its binary exponent. *)
Definition sign_text (s : bool) : text := if s then [45%N] else [].
Definition unsigned (t : text) : bool * text :=
  match t with c :: r => if (c =? 45)%N then (true, r) else (false, t) | [] => (false, []) end.

#[export] Instance demo_float_text : FloatText := {|
    float_repr f :=
      match f with
      | S754_finite s m e => sign_text s ++ N_text (Npos m) ++ 101%N :: Z_text e
      | S754_zero s => sign_text s ++ u "0e0"
      | _ => []
      end;
    float_of_text t :=
      '(a, b) ← cut 101 t;
      let '(s, a) := unsigned a in
      let '(se, b) := unsigned b in
      match digits_value a with
      | N0 => Some (S754_zero s)
      | Npos m => Some (S754_finite s m ((if se then -1 else 1) * Z.of_N (digits_value b)))
      end
  |}.

Lemma unsigned_text s n : unsigned (sign_text s ++ N_text n) = (s, N_text n).
Proof.
  destruct s; [done|]. destruct (N_text_cons n) as (c & t & -> & Hc). simpl.
  by destruct (N.eqb_spec c 45); [lia|].
Qed.

Lemma Z_text_sign z : Z_text z = sign_text (z <? 0)%Z ++ N_text (Z.abs_N z).
Proof. unfold Z_text. by destruct (z <? 0)%Z. Qed.

Lemma lex_number_parts s ip x ex :
  lex_int (ip ++ x :: ex) = Some (ip, x :: ex) → x ≠ 46%N → lex_exp (x :: ex) = (x :: ex, []) →
  match ip with c :: _ => c ≠ 45%N | [] => False end →
  lex_number (sign_text s ++ ip ++ x :: ex) = Some (sign_text s ++ ip ++ x :: ex, true, []).
Proof.
  intros Hi Hx He Hip. unfold lex_number. destruct ip as [|c ip]; [done|].
  assert (match sign_text s ++ (c :: ip) ++ x :: ex with
    | c0 :: t => if (c0 =? 45)%N then ([c0], t) else ([], sign_text s ++ (c :: ip) ++ x :: ex)
    | [] => ([], sign_text s ++ (c :: ip) ++ x :: ex) end
    = (sign_text s, (c :: ip) ++ x :: ex)) as ->.
  { destruct s; [done|]. cbn [sign_text app]. by destruct (N.eqb_spec c 45). }
  rewrite Hi. cbn [mbind option_bind]. unfold lex_frac.
  destruct (N.eqb_spec x 46); [done|]. by rewrite He.
Qed.

Lemma lex_exp_text z : lex_exp (101%N :: Z_text z) = (101%N :: Z_text z, []).
Proof.
  unfold lex_exp. cbn [N.eqb Pos.eqb orb]. rewrite Z_text_sign.
  destruct (N_text_cons (Z.abs_N z)) as (c & t & Heq & Hc).
  pose proof (digits_full _ (N_text_digits (Z.abs_N z))) as Hd. rewrite Heq in *.
  destruct (z <? 0)%Z; cbn [sign_text app].
  - cbn [N.eqb Pos.eqb orb]. by rewrite Hd.
  - destruct (N.eqb_spec c 43); [lia|]. destruct (N.eqb_spec c 45); [lia|]. cbn [orb]. by rewrite Hd.
Qed.

#[export] Instance demo_float_laws : FloatTextLaws.
Proof.
  split.
  - intros [s| | |s m e] Hf _; try done; cbn [float_repr demo_float_text].
    + by destruct s.
    + apply lex_number_parts; [|done|apply lex_exp_text|].
      * pose proof (digits_full _ (N_text_digits (Npos m))) as Hd.
        destruct (N_text_head (Npos m)) as [Hz|(c & t & Heq & Hc)].
        { by rewrite Hz. }
        rewrite Heq in *. cbn [app]. unfold lex_int.
        destruct (N.eqb_spec c 48); [lia|]. rewrite (proj2 (is_digit_spec c)) by lia. f_equal.
        cbn [digits] in Hd |- *. rewrite (proj2 (is_digit_spec c)) in * by lia.
        destruct (digits t) as [d r] eqn:Ht. injection Hd as -> ->.
        assert (digits (t ++ 101%N :: Z_text e) = (t, 101%N :: Z_text e)) as ->; [|done].
        revert Ht. clear. revert t. induction t as [|c t IH]; cbn [digits app]; [done|].
        destruct (is_digit c); [|done]. destruct (digits t) as [d r] eqn:E. intros [= -> ->].
        by rewrite IH.
      * destruct (N_text_cons (Npos m)) as (c & t & -> & Hc). lia.
  - intros [s| | |s m e] Hf _; try done; cbn [float_of_text float_repr demo_float_text].
    + by destruct s.
    + assert (101%N ∉ sign_text s ++ N_text (N.pos m)) as Hno.
      { intros [Hin|Hin]%elem_of_app; [destruct s; set_solver|].
        pose proof (N_text_digits (Npos m)) as Hd. rewrite Forall_forall in Hd.
        specialize (Hd _ Hin). simpl in Hd. lia. }
      rewrite app_assoc, (cut_app _ _ _ Hno). cbn [mbind option_bind].
      rewrite unsigned_text, Z_text_sign, unsigned_text, !digits_value_text.
      f_equal. f_equal. destruct (Z.ltb_spec e 0); lia.
Qed.
