(* ===== verification/Ledger.v ===== *)
(** * The DR ledger: events, sets of sequence numbers

    Models [mqrc/dr/model.py] and [mqrc/dr/ledger.py].  A ledger is the list of its entries in append order;
    [set[int]] is [gset Z], [dict[int, _]] is [gmap Z _], a timestamp is a
    binary64 float. *)

From S2P Require Import Prelude PyText PyCodec PyDict PyFloat.
From stdpp Require Export gmap.

(** ** model.py *)

Inductive Bucket :=
  | BUCKET_CONFIRMED | CONTINUED | STRANDED | LOST_UNPROCESSED | AMBIGUOUS | DUPLICATED.

#[export] Instance Bucket_eq_dec : EqDecision Bucket.
Proof. solve_decision. Defined.

(** [for b in Bucket]: declaration order. *)
Definition all_buckets : list Bucket :=
  [BUCKET_CONFIRMED; CONTINUED; STRANDED; LOST_UNPROCESSED; AMBIGUOUS; DUPLICATED].

Inductive MessageState := NEVER_SENT | IN_PIPELINE | STATE_CONFIRMED.

Record MessageFacts := mk_facts {
    mf_seq : Z;
    mf_uuid : text;
    mf_app_confirmed : bool;
    mf_svc_received : nat;
    mf_svc_replied : bool;
    mf_on_secondary : bool;
    mf_on_primary_disk : bool
  }.

(** ** ledger.py *)

Inductive Event := SENT | CONFIRMED | RECEIVED | REPLIED.

#[export] Instance Event_eq_dec : EqDecision Event.
Proof. solve_decision. Defined.

(** [Event.value]. *)
Definition event_value (e : Event) : text :=
  match e with
  | SENT => u "sent" | CONFIRMED => u "confirmed"
  | RECEIVED => u "received" | REPLIED => u "replied"
  end.

(** [Event(value)]: [None] is the ValueError. *)
Definition event_of (s : text) : option Event :=
  if bool_decide (s = u "sent") then Some SENT
  else if bool_decide (s = u "confirmed") then Some CONFIRMED
  else if bool_decide (s = u "received") then Some RECEIVED
  else if bool_decide (s = u "replied") then Some REPLIED
  else None.

Record LedgerEntry := mk_entry {
    le_event : Event;
    le_seq : Z;
    le_uuid : text;
    le_ts : float
  }.

(** The state of a [Ledger] object. *)
Abbreviation Ledger := (list LedgerEntry).

(** [Ledger.append]. *)
Definition ledger_append (l : Ledger) (e : LedgerEntry) : Ledger := l ++ [e].

(** [at_ts is None or e.ts <= at_ts]. *)
Definition at_or_before (at_ts : option float) (e : LedgerEntry) : bool :=
  match at_ts with None => true | Some t => fleb (le_ts e) t end.

Definition is_event (ev : Event) (e : LedgerEntry) : bool := bool_decide (le_event e = ev).

(** The entries of one kind, up to [at_ts]. *)
Definition entries_of (ev : Event) (at_ts : option float) (l : Ledger) : list LedgerEntry :=
  List.filter (λ e, is_event ev e && at_or_before at_ts e) l.

Definition seqs_of (ev : Event) (at_ts : option float) (l : Ledger) : gset Z :=
  list_to_set (le_seq <$> entries_of ev at_ts l).

Definition sent_seqs (l : Ledger) : gset Z := seqs_of SENT None l.

Definition confirmed_seqs (at_ts : option float) (l : Ledger) : gset Z :=
  seqs_of CONFIRMED at_ts l.

Definition svc_replied (l : Ledger) : gset Z := seqs_of REPLIED None l.

(** [{e.seq: e.uuid for e in self.entries}]: the last entry of a seq wins. *)
Definition uuid_of (l : Ledger) : gmap Z text :=
  foldl (λ m e, <[le_seq e := le_uuid e]> m) ∅ l.

Definition app_states (l : Ledger) : gmap Z MessageState :=
  let sent := sent_seqs l in
  let confirmed := confirmed_seqs None l in
  set_to_map (λ seq,
    (seq, if bool_decide (seq ∈ confirmed) then STATE_CONFIRMED else IN_PIPELINE)) sent.

Definition svc_receive_counts (l : Ledger) : gmap Z nat :=
  foldl (λ counts e,
    if is_event RECEIVED e
    then <[le_seq e := default 0 (counts !! le_seq e) + 1]> counts
    else counts) ∅ l.

(** ** Lemmas on the sequence sets *)

Lemma elem_of_entries_of ev at_ts l e :
  e ∈ entries_of ev at_ts l ↔ e ∈ l ∧ le_event e = ev ∧ at_or_before at_ts e = true.
Proof.
  unfold entries_of, is_event. rewrite !list_elem_of_In, filter_In, andb_true_iff.
  rewrite bool_decide_eq_true. done.
Qed.

Lemma elem_of_seqs_of ev at_ts l s :
  s ∈ seqs_of ev at_ts l ↔
    ∃ e, e ∈ l ∧ le_event e = ev ∧ le_seq e = s ∧ at_or_before at_ts e = true.
Proof.
  unfold seqs_of. rewrite elem_of_list_to_set, list_elem_of_fmap.
  setoid_rewrite elem_of_entries_of. naive_solver.
Qed.

Lemma entries_of_app ev at_ts l1 l2 :
  entries_of ev at_ts (l1 ++ l2) = entries_of ev at_ts l1 ++ entries_of ev at_ts l2.
Proof. apply List.filter_app. Qed.

Lemma seqs_of_app ev at_ts l1 l2 :
  seqs_of ev at_ts (l1 ++ l2) = seqs_of ev at_ts l1 ∪ seqs_of ev at_ts l2.
Proof. unfold seqs_of. rewrite entries_of_app, fmap_app. by rewrite list_to_set_app_L. Qed.

Lemma seqs_of_at_subset ev at_ts l : seqs_of ev at_ts l ⊆ seqs_of ev None l.
Proof. intros s. rewrite !elem_of_seqs_of. naive_solver. Qed.

Lemma size_seqs_of_le ev at_ts l :
  size (seqs_of ev at_ts l) ≤ length (entries_of ev at_ts l).
Proof.
  unfold seqs_of. rewrite <-(length_fmap le_seq).
  induction (le_seq <$> entries_of ev at_ts l) as [|s k IH]; simpl; [done|].
  rewrite size_union_alt, size_singleton.
  pose proof (subseteq_size (list_to_set k ∖ {[s]}) (list_to_set k : gset Z) ltac:(set_solver)).
  lia.
Qed.

Lemma size_seqs_of_NoDup ev at_ts l :
  NoDup (le_seq <$> entries_of ev at_ts l) →
  size (seqs_of ev at_ts l) = length (entries_of ev at_ts l).
Proof. intros. unfold seqs_of. by rewrite size_list_to_set, length_fmap. Qed.

(** The count of a sequence number is the number of its RECEIVED entries. *)
Lemma svc_receive_counts_lookup l s :
  default 0 (svc_receive_counts l !! s) =
    length (List.filter (λ e, is_event RECEIVED e && bool_decide (le_seq e = s)) l).
Proof.
  induction l as [|e l IH] using rev_ind; [done|].
  unfold svc_receive_counts in *. rewrite foldl_app, List.filter_app, length_app. simpl.
  destruct (is_event RECEIVED e); simpl; [|rewrite IH; lia].
  case_bool_decide as Hs; simpl.
  - subst. rewrite lookup_insert_eq. simpl. lia.
  - rewrite lookup_insert_ne by done. lia.
Qed.

(** [uuid_of] knows exactly the recorded sequence numbers. *)
Lemma uuid_of_is_Some l s : is_Some (uuid_of l !! s) ↔ ∃ e, e ∈ l ∧ le_seq e = s.
Proof.
  induction l as [|e l IH] using rev_ind.
  - unfold uuid_of. simpl. rewrite lookup_empty. split; [by intros [? ?]|set_solver].
  - unfold uuid_of in *. rewrite foldl_app. simpl.
    destruct (decide (le_seq e = s)) as [<-|Hne].
    + rewrite lookup_insert_eq. split; [|eauto]. intros _. exists e. set_solver.
    + rewrite lookup_insert_ne by done. rewrite IH. set_solver.
Qed.

Lemma app_states_lookup l s :
  app_states l !! s =
    if decide (s ∈ sent_seqs l) then
      Some (if bool_decide (s ∈ confirmed_seqs None l) then STATE_CONFIRMED else IN_PIPELINE)
    else None.
Proof.
  unfold app_states. apply option_eq. intros st. rewrite lookup_set_to_map by naive_solver.
  split.
  - intros (y & Hy & [= <- <-]). by rewrite decide_True.
  - case_decide; [|done]. intros [= <-]. eauto.
Qed.
