(* ===== verification/LedgerStore.v ===== *)
(** * Persisting a ledger as JSONL

    Models [Ledger.write_jsonl] and [Ledger.read_jsonl] of [mqrc/dr/ledger.py] over the
    JSON text of [PyJson.v], and proves that a written ledger reads back unchanged, and
    that a write that is cut short by an exception leaves a prefix that reads back. *)

From S2P Require Import Prelude PyText PyCodec PyDict PyFloat PyJson JsonRoundTrip Ledger.

(** [asdict(e)] with the event replaced by its value. *)
Definition row_of (e : LedgerEntry) : json :=
  JObj [(u "event", JStr (event_value (le_event e))); (u "seq", JInt (le_seq e));
        (u "uuid", JStr (le_uuid e)); (u "ts", JFloat (le_ts e))].

(** What [read_jsonl] can raise on one line. *)
Inductive RowError :=
  | LineError (line : text) (e : JsonError)
  | RowNotAMapping
  | RowKeyError (key : text)
  | BadEvent (value : json)
  | BadSeq (value : json)
  | BadUuid (value : json)
  | BadTs (value : json).

(** ** Conversions of a JSON value; [None] is a TypeError, ValueError or OverflowError *)

(** The integer part of a finite float. *)
Definition float_trunc (f : float) : option Z :=
  match f with
  | S754_zero _ => Some 0%Z
  | S754_finite s m e => let a := Z.shiftl (Zpos m) e in Some (if s then (- a)%Z else a)
  | _ => None
  end.

Section store.
Context `{FloatText}.

(** [str] of a list or a dict, which no ledger row holds. *)
Context (container_str : json → text).

Definition py_str (v : json) : option text :=
  match v with
  | JStr s => Some s
  | JNull => Some (u "None")
  | JBool b => Some (if b then u "True" else u "False")
  | JInt z => str_int z
  | JFloat S754_nan => Some (u "nan")
  | JFloat (S754_infinity s) => Some (if s then u "-inf" else u "inf")
  | JFloat f => Some (float_repr f)
  | JArr _ | JObj _ => Some (container_str v)
  end.

Definition py_int (v : json) : option Z :=
  match v with
  | JInt z => Some z
  | JBool b => Some (if b then 1 else 0)%Z
  | JFloat f => float_trunc f
  | JStr s => int_of_text s
  | _ => None
  end.

Definition py_float (v : json) : option float :=
  match v with
  | JFloat f => Some f
  | JInt z => match float_of_Z z with S754_infinity _ => None | f => Some f end
  | JBool b => Some (float_of_Z (if b then 1 else 0))
  | JStr s => float_of_text s
  | _ => None
  end.

(** ** Writing and reading *)

(** [write_jsonl]: what the file holds when the function returns or raises. *)
Fixpoint write_jsonl (l : Ledger) : text * res JsonError unit :=
  match l with
  | [] => ([], Ok tt)
  | e :: l =>
      match dumps None (row_of e) with
      | Err err => ([], Err err)
      | Ok line => let '(rest, r) := write_jsonl l in ((line ++ [10%N]) ++ rest, r)
      end
  end.

(** [row[key]]. *)
Definition row_get (row : json) (key : text) : res RowError json :=
  match row with
  | JObj d => of_option (RowKeyError key) (dget d key)
  | _ => Err RowNotAMapping
  end.

(** [Event(row["event"])]: only a string is a member's value. *)
Definition event_of_json (v : json) : res RowError Event :=
  match v with
  | JStr s => of_option (BadEvent v) (event_of s)
  | _ => Err (BadEvent v)
  end.

Definition entry_of_row (row : json) : res RowError LedgerEntry :=
  ev ← row_get row (u "event"); event ← event_of_json ev;
  sq ← row_get row (u "seq"); seq ← of_option (BadSeq sq) (py_int sq);
  uu ← row_get row (u "uuid"); uuid ← of_option (BadUuid uu) (py_str uu);
  tj ← row_get row (u "ts"); ts ← of_option (BadTs tj) (py_float tj);
  Ok (mk_entry event seq uuid ts).

(** One line of the file. *)
Definition read_line (entries : Ledger) (line : text) : res RowError Ledger :=
  match strip line with
  | [] => Ok entries
  | _ =>
      row ← map_err (LineError line) (loads line);
      e ← entry_of_row row;
      Ok (entries ++ [e])
  end.

(** [read_jsonl]; [None] is a path that does not exist. *)
Definition read_jsonl (file : option text) : res RowError Ledger :=
  match file with
  | None => Ok []
  | Some content => res_foldM read_line [] (splitlines content)
  end.
End store.

(** ** Lemmas *)

(** An entry as Python holds it: a string without a split surrogate pair, a binary64
    timestamp. *)
Definition entry_ok (e : LedgerEntry) : bool :=
  str_ok (le_uuid e) && valid_binary prec emax (le_ts e).

Lemma event_of_value ev : event_of (event_value ev) = Some ev.
Proof. by destruct ev. Qed.

Lemma entry_of_row_of `{FloatText} cs e : entry_of_row cs (row_of e) = Ok e.
Proof. unfold entry_of_row. simpl. rewrite event_of_value. simpl. by destruct e. Qed.

Lemma row_json_ok e : entry_ok e = true → is_Some (str_int (le_seq e)) → json_ok (row_of e) = true.
Proof.
  unfold entry_ok. rewrite andb_true_iff. intros [Hu Ht] Hs. cbn [row_of json_ok].
  rewrite andb_true_iff, bool_decide_eq_true. split; [by apply (bool_decide_unpack _); vm_compute|].
  cbn [forallb fst snd json_ok]. rewrite Hu, Ht, bool_decide_eq_true_2 by done.
  by destruct (le_event e).
Qed.

Section lemmas.
Context `{FloatTextLaws} (cs : json → text).

(** A line holds one row: it has no line break in it, and it reads back. *)
Lemma read_written_line e line acc :
  entry_ok e = true → dumps None (row_of e) = Ok line →
  Forall (λ c, is_linebreak c = false) line ∧ read_line cs acc line = Ok (acc ++ [e]).
Proof.
  intros He Hd. assert (json_ok (row_of e) = true) as Hok.
  { apply row_json_ok; [done|]. unfold dumps in Hd. case_match eqn:Hi; [|done].
    cbn [row_of ints_ok forallb snd] in Hi. rewrite !andb_true_iff in Hi.
    destruct Hi as (_ & Hi & _). by apply bool_decide_eq_true in Hi. }
  pose proof (loads_dumps None _ _ [] Hok (Forall_nil_2 _) Hd) as Hload. rewrite app_nil_r in Hload.
  assert (line = enc None 0 (row_of e)) as -> by (unfold dumps in Hd; case_match; congruence).
  pose proof (enc_printable _ 0 Hok) as Hp. split.
  - eapply Forall_impl; [exact Hp|]. unfold printable, is_linebreak. intros c Hc.
    rewrite !orb_false_iff, !andb_false_iff, !N.leb_gt, !N.eqb_neq. lia.
  - unfold read_line. rewrite Hload. cbn [map_err mbind res_bind].
    rewrite entry_of_row_of. cbn [mbind res_bind].
    destruct (strip (enc None 0 (row_of e))) eqn:Hs; [|done].
    apply strip_nil in Hs. cbn [row_of enc] in Hs. inversion Hs as [|? ? Hc]. done.
Qed.

Lemma write_jsonl_spec l s r :
  Forall (λ e, entry_ok e = true) l → write_jsonl l = (s, r) →
  ∃ k, (∀ acc, res_foldM (read_line cs) acc (splitlines s) = Ok (acc ++ take k l)) ∧
    match r with
    | Ok _ => k = length l
    | Err e => e = JTooLong ∧ ∃ x, l !! k = Some x ∧ str_int (le_seq x) = None
    end.
Proof.
  intros Hl. revert s. induction Hl as [|e l He Hl IH]; intros s; simpl.
  { intros [= <- <-]. exists 0. split; [|done]. intros acc. by rewrite app_nil_r. }
  destruct (dumps None (row_of e)) as [line|err] eqn:Hd.
  - destruct (write_jsonl l) as [rest r'] eqn:Hw. intros [= <- ->].
    destruct (IH _ eq_refl) as (k & Hread & Hr). exists (S k).
    destruct (read_written_line e line [] He Hd) as [Hline _]. split.
    + intros acc. destruct (read_written_line e line acc He Hd) as [_ Hrl].
      unfold splitlines. rewrite <-app_assoc. cbn [app].
      rewrite splitlines_aux_line by done. cbn [res_foldM app rev].
      rewrite Hrl. cbn [mbind res_bind]. change (splitlines_aux [] rest) with (splitlines rest).
      rewrite Hread. by rewrite <-app_assoc.
    + destruct r; simpl; [by rewrite Hr|done].
  - intros [= <- <-]. exists 0. split; [intros acc; by rewrite app_nil_r|].
    unfold dumps in Hd. case_match eqn:Hi; [done|]. injection Hd as <-. split; [done|].
    exists e. split; [done|].
    cbn [row_of ints_ok forallb snd andb] in Hi. rewrite andb_true_r in Hi.
    apply bool_decide_eq_false in Hi. by apply eq_None_not_Some.
Qed.
End lemmas.

(** ** Properties *)

(** C39. A ledger written by [write_jsonl] is read back by [read_jsonl] entry for entry,
    in order; when the write is cut short, it is by an integer over the digit limit, and
    the file then reads back as the entries before it; a missing file reads as the empty
    ledger. *)
Theorem jsonl_round_trip `{FloatTextLaws} cs l s r :
  Forall (λ e, entry_ok e = true) l → write_jsonl l = (s, r) →
  read_jsonl cs None = Ok [] ∧
  match r with
  | Ok _ => read_jsonl cs (Some s) = Ok l
  | Err err => err = JTooLong ∧ ∃ before e after, l = before ++ e :: after ∧
      str_int (le_seq e) = None ∧ read_jsonl cs (Some s) = Ok before
  end.
Proof.
  intros Hl Hw. split; [done|].
  destruct (write_jsonl_spec cs l s r Hl Hw) as (k & Hread & Hr).
  unfold read_jsonl. rewrite Hread. destruct r as [|err].
  - subst k. by rewrite firstn_all.
  - destruct Hr as (-> & x & Hx & Hn). split; [done|].
    exists (take k l), x, (drop (S k) l). split_and!; [|done..]. by rewrite take_drop_middle.
Qed.

Lemma jsonl_round_trip_witness :
  let l := [mk_entry SENT 1 (u "a1") (float_of_Z 7); mk_entry CONFIRMED 1 (u "a1") (float_of_Z 9)] in
  ∃ s, write_jsonl l = (s, Ok tt) ∧ read_jsonl (λ _, []) (Some s) = Ok l.
Proof.
  intros l. destruct (write_jsonl l) as [s r] eqn:Hw. exists s.
  assert (r = Ok tt) as -> by (by vm_compute in Hw; injection Hw as <- <-). split; [done|].
  refine (proj2 (jsonl_round_trip (λ _, []) l s (Ok tt) _ Hw)).
  apply (bool_decide_unpack _). by vm_compute.
Defined.
