(* ===== verification/Exposure.v ===== *)
(** * The exposure gauge and the evidence floor

    Models [mqrc/dr/exposure.py] and [mqrc/dr/floor.py] over the ledgers of
    [Ledger.v]. *)

From S2P Require Import Prelude PyText PyFloat Ledger.

(** ** exposure.py *)

Definition unresolved_seqs (app : Ledger) (at_ts : option float) : gset Z :=
  let sent := seqs_of SENT at_ts app in
  let confirmed := confirmed_seqs at_ts app in
  sent ∖ confirmed.

Definition exposure (app : Ledger) (at_ts : option float) : nat :=
  size (unresolved_seqs app at_ts).

(** The timestamped +1 / -1 events [peak_exposure] replays. *)
Definition exposure_events (app : Ledger) : list (float * Z) :=
  omap (λ e, match le_event e with
             | SENT => Some (le_ts e, 1%Z)
             | CONFIRMED => Some (le_ts e, (-1)%Z)
             | _ => None
             end) app.

(** The comparison of the sort keys [(ts, -delta)]: [x] may stay before [y]
    unless [y]'s key is strictly smaller. *)
Definition key_ltb (x y : float * Z) : bool :=
  if feqb x.1 y.1 then (- x.2 <? - y.2)%Z else fltb x.1 y.1.
Definition key_leb (x y : float * Z) : bool := negb (key_ltb y x).

(** The replay loop: [(inflight, peak)] after the events. *)
Definition replay (evs : list (float * Z)) : Z * Z :=
  foldl (λ '(inflight, peak) ev,
    let inflight := (inflight + ev.2)%Z in (inflight, Z.max peak inflight))
    (0, 0)%Z evs.

Definition peak_exposure (app : Ledger) : Z :=
  (replay (isort key_leb (exposure_events app))).2.

(** ** floor.py *)

Record Floor := mk_floor { min_rate : float; min_seconds : float; min_total : Z }.

(** 20.0, 300.0 and 6000. *)
Definition FLOOR : Floor := mk_floor (float_of_Z 20) (float_of_Z 300) 6000.

(** The three ways to miss the floor, with the numbers the messages quote. *)
Inductive FloorProblem :=
  | TotalBelow (total min : Z)
  | SecondsBelow (seconds min : float)
  | RateBelow (rate min : float).

(** [reason] is the list of problems the code joins with "; ", empty for "ok". *)
Record FloorResult := mk_floor_result {
    fr_ok : bool; fr_rate : float; fr_seconds : float; fr_total : Z;
    fr_reason : list FloorProblem
  }.

(** The sorted SENT timestamps. *)
Definition sent_times (app : Ledger) : list float :=
  isort (λ a b, negb (fltb b a)) (le_ts <$> entries_of SENT None app).

Definition meets_floor (app : Ledger) (floor : Floor) : FloorResult :=
  let sent := sent_times app in
  let total := Z.of_nat (length sent) in
  let seconds :=
    if (2 <=? total)%Z then fsub (List.last sent fzero) (hd fzero sent) else fzero in
  let rate :=
    if fltb fzero seconds then fdiv (float_of_Z total) seconds else fzero in
  let problems :=
    (if (total <? min_total floor)%Z then [TotalBelow total (min_total floor)] else []) ++
    (if fltb seconds (min_seconds floor) then [SecondsBelow seconds (min_seconds floor)]
     else []) ++
    (if fltb rate (min_rate floor) then [RateBelow rate (min_rate floor)] else []) in
  mk_floor_result (match problems with [] => true | _ => false end)
    rate seconds total problems.

(** ** The replay computes the largest prefix sum *)

Lemma replay_app evs ev :
  replay (evs ++ [ev]) =
    let s := ((replay evs).1 + ev.2)%Z in (s, Z.max (replay evs).2 s).
Proof. unfold replay. rewrite foldl_app. simpl. by destruct (foldl _ _ evs). Qed.

Lemma replay_inflight evs : (replay evs).1 = sumZ (snd <$> evs).
Proof.
  induction evs as [|ev evs IH] using rev_ind; [done|].
  rewrite replay_app, fmap_app, sumZ_app, <-IH. simpl. lia.
Qed.

Lemma replay_peak_ge evs k : (sumZ (snd <$> take k evs) ≤ (replay evs).2)%Z.
Proof.
  induction evs as [|ev evs IH] using rev_ind; [by destruct k|].
  rewrite replay_app. simpl. rewrite take_app.
  destruct (decide (k ≤ length evs)) as [Hk|Hk].
  - replace (k - length evs) with 0 by lia. simpl. rewrite app_nil_r. lia.
  - rewrite take_ge by lia. rewrite take_ge by (simpl; lia).
    rewrite fmap_app, sumZ_app, replay_inflight. simpl. lia.
Qed.

Lemma replay_peak_attained evs :
  ∃ k, k ≤ length evs ∧ (replay evs).2 = sumZ (snd <$> take k evs).
Proof.
  induction evs as [|ev evs (k & Hk & IH)] using rev_ind; [by exists 0|].
  rewrite replay_app. simpl. rewrite length_app. simpl.
  destruct (decide ((replay evs).1 + ev.2 ≤ (replay evs).2)%Z).
  - exists k. split; [lia|]. rewrite take_app_le by done. lia.
  - exists (length evs + 1). split; [lia|].
    rewrite take_ge by (rewrite length_app; simpl; lia).
    rewrite fmap_app, sumZ_app, <-replay_inflight. simpl. lia.
Qed.

(** ** The order of the replayed events *)

Lemma key_ltb_spec x y :
  is_nan x.1 = false → is_nan y.1 = false →
  key_ltb x y = true ↔
    key_lt (fkey x.1) (fkey y.1) ∨ (fkey x.1 = fkey y.1 ∧ (y.2 < x.2)%Z).
Proof.
  intros Hx Hy. unfold key_ltb, feqb, SFeqb, fltb, SFltb.
  pose proof (SFcompare_key _ _ Hx Hy) as H. unfold key_lt in *.
  destruct (SFcompare x.1 y.1) as [[]|]; [rewrite Z.ltb_lt| | |done].
  - rewrite H. split; [intros; right; split; [done|lia]|lia].
  - split; auto.
  - split; [done|]. intros [|[Heq ?]]; [lia|]. rewrite Heq in H. lia.
Qed.

Lemma key_leb_spec x y :
  is_nan x.1 = false → is_nan y.1 = false →
  key_leb x y = true ↔
    ¬ (key_lt (fkey y.1) (fkey x.1) ∨ (fkey y.1 = fkey x.1 ∧ (x.2 < y.2)%Z)).
Proof.
  intros. unfold key_leb.
  by rewrite negb_true_iff, <-not_true_iff_false, key_ltb_spec.
Qed.

Lemma pair3_eq (p q : Z * Z * Z) : p = q ↔ p.1.1 = q.1.1 ∧ p.1.2 = q.1.2 ∧ p.2 = q.2.
Proof. destruct p as [[??]?], q as [[??]?]; simpl; naive_solver. Qed.

Definition no_nan_event (ev : float * Z) : Prop := is_nan ev.1 = false.

Lemma exposure_events_sorted evs :
  Forall no_nan_event evs → StronglySorted key_leb (isort key_leb evs).
Proof.
  apply isort_StronglySorted; unfold no_nan_event.
  - intros x y Hx Hy. rewrite !key_leb_spec by done. unfold key_lt.
    rewrite !pair3_eq. lia.
  - intros x y z Hx Hy Hz. rewrite !key_leb_spec by done. unfold key_lt.
    rewrite !pair3_eq. lia.
Qed.

(** The in-flight count the replay has reached once every event up to [t] is
    replayed. *)
Lemma peak_exposure_ge_at app t :
  is_nan t = false → Forall no_nan_event (exposure_events app) →
  (sumZ (snd <$> List.filter (λ ev, fleb ev.1 t) (exposure_events app))
     ≤ peak_exposure app)%Z.
Proof.
  intros Ht Hnan. unfold peak_exposure.
  set (evs := exposure_events app) in *.
  rewrite (sumZ_Permutation _
    (snd <$> List.filter (λ ev, fleb ev.1 t) (isort key_leb evs))).
  2:{ apply fmap_Permutation, bfilter_Permutation. by rewrite isort_Permutation. }
  rewrite <-(sorted_filter_prefix key_leb).
  - apply replay_peak_ge.
  - intros x y Hx Hy Hxy%Is_true_true. rewrite Forall_forall in Hnan.
    rewrite elem_of_isort in Hx, Hy.
    pose proof (Hnan _ Hx). pose proof (Hnan _ Hy). unfold no_nan_event in *.
    rewrite !fleb_key by done. rewrite key_leb_spec in Hxy by done.
    unfold key_lt in *. rewrite pair3_eq in Hxy. lia.
  - by apply exposure_events_sorted.
Qed.

(** The replayed sum counts the SENT entries minus the CONFIRMED entries. *)
Lemma exposure_events_sum app t :
  sumZ (snd <$> List.filter (λ ev, fleb ev.1 t) (exposure_events app)) =
    (Z.of_nat (length (entries_of SENT (Some t) app))
     - Z.of_nat (length (entries_of CONFIRMED (Some t) app)))%Z.
Proof.
  unfold exposure_events, entries_of, is_event, at_or_before.
  induction app as [|e app IH]; [done|]. csimpl.
  destruct (le_event e) eqn:He; csimpl; try apply IH;
    destruct (fleb (le_ts e) t); csimpl; try apply IH.
  - rewrite IH. lia.
  - rewrite IH. lia.
Qed.

(** ** When the gauge is sound

    Each message is confirmed once, after it was recorded SENT. *)
Record exposure_wf (app : Ledger) : Prop := mk_exposure_wf {
    ew_times : Forall (λ e, is_nan (le_ts e) = false) app;
    ew_confirm_once : NoDup (le_seq <$> entries_of CONFIRMED None app);
    ew_sent_first : ∀ c, c ∈ app → le_event c = CONFIRMED →
      ∃ s, s ∈ app ∧ le_event s = SENT ∧ le_seq s = le_seq c ∧ fleb (le_ts s) (le_ts c) = true
  }.

Lemma exposure_events_no_nan app :
  Forall (λ e, is_nan (le_ts e) = false) app → Forall no_nan_event (exposure_events app).
Proof.
  unfold exposure_events. induction 1 as [|e app He _ IH]; simpl; [constructor|].
  destruct (le_event e); try done; by constructor.
Qed.

Lemma entries_of_at_sublist ev t l :
  sublist (entries_of ev (Some t) l) (entries_of ev None l).
Proof.
  unfold entries_of. induction l as [|e l IH]; simpl; [constructor|].
  destruct (is_event ev e); simpl; [|done].
  destruct (fleb (le_ts e) t); by constructor.
Qed.

Lemma exposure_wf_at app t :
  exposure_wf app →
  (Z.of_nat (exposure app (Some t)) ≤
    Z.of_nat (length (entries_of SENT (Some t) app))
    - Z.of_nat (length (entries_of CONFIRMED (Some t) app)))%Z.
Proof.
  intros [Hnan Honce Hfirst]. unfold exposure, unresolved_seqs.
  assert (confirmed_seqs (Some t) app ⊆ seqs_of SENT (Some t) app) as Hsub.
  { intros s. unfold confirmed_seqs. rewrite !elem_of_seqs_of.
    intros (c & Hc & Hev & Hseq & Hat).
    destruct (Hfirst c Hc Hev) as (e & He & Hes & Heq & Hle).
    exists e. split_and!; [done|done|congruence|]. simpl in *.
    rewrite Forall_forall in Hnan.
    apply (fleb_trans _ (le_ts c)); auto. by apply fleb_true_not_nan in Hat as [_ ?]. }
  rewrite size_difference by done.
  pose proof (size_seqs_of_le SENT (Some t) app).
  pose proof (subseteq_size _ _ Hsub).
  assert (size (confirmed_seqs (Some t) app) = length (entries_of CONFIRMED (Some t) app))
    as Hc; [|lia].
  apply size_seqs_of_NoDup.
  eapply sublist_NoDup; [exact Honce|]. apply fmap_sublist, entries_of_at_sublist.
Qed.

(** ** Properties *)

(** The peak gauge never under-reports: on a ledger where every message is
    confirmed at most once and only after its SENT entry, the exposure at any
    instant is at most [peak_exposure]. *)
Theorem peak_exposure_bounds_exposure app t :
  exposure_wf app → is_nan t = false →
  (Z.of_nat (exposure app (Some t)) ≤ peak_exposure app)%Z.
Proof.
  intros Hwf Ht. etrans; [by apply exposure_wf_at|].
  rewrite <-exposure_events_sum. apply peak_exposure_ge_at; [done|].
  apply exposure_events_no_nan, Hwf.
Qed.

(** [peak_exposure] is the largest number of messages in flight over the
    replayed run: it bounds the running sum after every prefix of the
    chronological events and some prefix reaches it; the events replayed are the
    SENT and CONFIRMED entries, in time order, SENT first at equal times. *)
Theorem peak_exposure_is_max app :
  Forall (λ e, is_nan (le_ts e) = false) app →
  ∃ evs, evs ≡ₚ exposure_events app ∧ StronglySorted key_leb evs ∧
    (∀ k, (sumZ (snd <$> take k evs) ≤ peak_exposure app)%Z) ∧
    ∃ k, k ≤ length evs ∧ peak_exposure app = sumZ (snd <$> take k evs).
Proof.
  intros Hnan. exists (isort key_leb (exposure_events app)). split_and!.
  - apply isort_Permutation.
  - by apply exposure_events_sorted, exposure_events_no_nan.
  - intros k. apply replay_peak_ge.
  - apply replay_peak_attained.
Qed.

(** A run over which both theorems are instantiated: two messages in flight. *)
Definition demo_run : Ledger :=
  [mk_entry SENT 1 (u "a") (float_of_Z 1); mk_entry SENT 2 (u "b") (float_of_Z 2);
   mk_entry CONFIRMED 1 (u "a") (float_of_Z 3); mk_entry CONFIRMED 2 (u "b") (float_of_Z 4)].

Lemma demo_run_wf : exposure_wf demo_run.
Proof.
  split.
  - repeat constructor.
  - vm_compute. repeat constructor; set_solver.
  - intros c Hc Hev. unfold demo_run in Hc. rewrite !elem_of_cons, elem_of_nil in Hc.
    destruct_or! Hc; subst; try discriminate.
    + eexists. split; [left|]. done.
    + eexists. split; [right; left|]. done.
Defined.

Lemma peak_exposure_bounds_exposure_witness :
  (Z.of_nat (exposure demo_run (Some (float_of_Z 2))) ≤ peak_exposure demo_run)%Z
  ∧ exposure demo_run (Some (float_of_Z 2)) = 2 ∧ peak_exposure demo_run = 2%Z.
Proof.
  split_and!; [|by vm_compute..].
  apply peak_exposure_bounds_exposure; [apply demo_run_wf|done].
Defined.

Lemma peak_exposure_is_max_witness :
  ∃ evs, evs ≡ₚ exposure_events demo_run ∧ StronglySorted key_leb evs ∧
    (∀ k, (sumZ (snd <$> take k evs) ≤ peak_exposure demo_run)%Z) ∧
    ∃ k, k ≤ length evs ∧ peak_exposure demo_run = sumZ (snd <$> take k evs).
Proof. apply peak_exposure_is_max. apply demo_run_wf. Defined.

(** One SENT entry and two replies: what an in-doubt resend produces. *)
Definition duplicate_confirm_run : Ledger :=
  [mk_entry SENT 1 (u "a") (float_of_Z 1); mk_entry CONFIRMED 1 (u "a") (float_of_Z 2);
   mk_entry CONFIRMED 1 (u "a") (float_of_Z 3);
   mk_entry SENT 2 (u "b") (float_of_Z 4); mk_entry SENT 3 (u "c") (float_of_Z 5)].

(** The gauge under-reports when a message is confirmed twice: two messages are
    unresolved at the end of this run, the reported peak is one. *)
Theorem duplicate_confirm_under_reports :
  exposure duplicate_confirm_run None = 2 ∧ peak_exposure duplicate_confirm_run = 1%Z.
Proof. split; by vm_compute. Qed.
