(* ===== verification/Wire.v ===== *)
(** * The DR wire format

    Models [mqrc/header.py], [mqrc/dr/wire.py] and [mqrc/dr/snapshot.py]: the
    fixed-format header, the self-identifying DRv1 body, and the snapshot that
    turns browsed bodies into sequence numbers. *)

From S2P Require Import Prelude PyText PyCodec.
From stdpp Require Import gmap.

(** ** header.py *)
Module Header.
Definition FIELD : nat := 8.
Definition HEADER_LEN : nat := 4 * FIELD.
Definition ACK_OK : text := u "0000".
Definition ACK_BAD_HEADER : text := u "9001".
Definition ACK_STALE_DATE : text := u "9002".

Record header := mk_header {
  password : text; sender : text; receiver : text; session_date : text; payload : text
  }.

(** The ValueErrors: a field over [FIELD] characters, a message under
    [HEADER_LEN]. *)
Inductive error := FieldTooLong (name : text) | ShorterThanHeader.

Definition check_field (name value : text) : res error unit :=
  raise_if (FIELD <? length value) (FieldTooLong name).

(** [f"{value:<8}"]. *)
Definition ljust (value : text) : text := value ++ replicate (FIELD - length value) 32%N.

Definition pack_header (password sender receiver session_date : text) : res error text :=
  _ ← check_field (u "password") password;
  _ ← check_field (u "sender") sender;
  _ ← check_field (u "receiver") receiver;
  _ ← check_field (u "session_date") session_date;
  Ok (ljust password ++ ljust sender ++ ljust receiver ++ ljust session_date).

(** [msg[a:b]]. *)
Definition slice (a b : nat) (msg : text) : text := take (b - a) (drop a msg).

Definition parse_header (msg : text) : res error header :=
  if length msg <? HEADER_LEN then Err ShorterThanHeader
  else Ok (mk_header (rstrip (slice 0 8 msg)) (rstrip (slice 8 16 msg))
           (rstrip (slice 16 24 msg)) (rstrip (slice 24 32 msg)) (drop 32 msg)).

Definition validate_header (msg today : text) : text :=
  match parse_header msg with
  | Err _ => ACK_BAD_HEADER
  | Ok h =>
    if bool_decide (password h = []) || bool_decide (sender h = [])
       || bool_decide (receiver h = []) then ACK_BAD_HEADER
    else if negb (bool_decide (session_date h = today)) then ACK_STALE_DATE
    else ACK_OK
  end.

(** A field value the padding does not alter: no trailing blank. *)
Definition clean (value : text) : Prop := rstrip value = value.

Lemma length_ljust v : length v ≤ FIELD → length (ljust v) = FIELD.
Proof. intros. unfold ljust. rewrite length_app, length_replicate. lia. Qed.

Lemma rstrip_spaces v n : rstrip (v ++ replicate n 32%N) = rstrip v.
Proof.
  unfold rstrip, rstrip_by. rewrite rev_app_distr, lstrip_by_all; [done|].
  apply Forall_rev, Forall_replicate. done.
Qed.

Lemma rstrip_ljust v : clean v → rstrip (ljust v) = v.
Proof. intros Hv. unfold ljust. by rewrite rstrip_spaces. Qed.

Lemma check_field_Ok name v x : check_field name v = Ok x ↔ length v ≤ FIELD.
Proof. unfold check_field. by rewrite raise_if_Ok, Nat.ltb_ge. Qed.

(** What [pack_header] returns, and when. *)
Lemma pack_header_Ok p s r d h :
  pack_header p s r d = Ok h ↔
  h = ljust p ++ ljust s ++ ljust r ++ ljust d ∧
  length p ≤ FIELD ∧ length s ≤ FIELD ∧ length r ≤ FIELD ∧ length d ≤ FIELD.
Proof.
  unfold pack_header. split.
  - intros. res_inv. rewrite check_field_Ok in *. naive_solver.
  - intros (-> & Hp & Hs & Hr & Hd).
    rewrite <-(check_field_Ok (u "password") p tt) in Hp.
    rewrite <-(check_field_Ok (u "sender") s tt) in Hs.
    rewrite <-(check_field_Ok (u "receiver") r tt) in Hr.
    rewrite <-(check_field_Ok (u "session_date") d tt) in Hd.
    by rewrite Hp; simpl; rewrite Hs; simpl; rewrite Hr; simpl; rewrite Hd.
Qed.

Ltac explode l H :=
  do 8 (destruct l as [|? l]; [discriminate H|]); destruct l; [clear H|discriminate H].

(** Four 8-character fields sit at the offsets [parse_header] slices. *)
Lemma slices (a b c d rest : text) :
  length a = 8 → length b = 8 → length c = 8 → length d = 8 →
  let msg := (a ++ b ++ c ++ d) ++ rest in
  slice 0 8 msg = a ∧ slice 8 16 msg = b ∧ slice 16 24 msg = c ∧ slice 24 32 msg = d ∧
  drop 32 msg = rest ∧ (length msg <? HEADER_LEN) = false.
Proof.
  intros Ha Hb Hc Hd. explode a Ha. explode b Hb. explode c Hc. explode d Hd.
  split_and!; reflexivity.
Qed.

(** A packed header followed by any payload parses back to its four fields
    and that payload, whenever the fields carry no trailing blank. *)
Theorem parse_pack_header p s r d h body :
  pack_header p s r d = Ok h →
  clean p → clean s → clean r → clean d →
  parse_header (h ++ body) = Ok (mk_header p s r d body).
Proof.
  rewrite pack_header_Ok. intros (-> & Hp & Hs & Hr & Hd) Cp Cs Cr Cd.
  apply length_ljust in Hp, Hs, Hr, Hd. unfold parse_header.
  destruct (slices _ _ _ _ body Hp Hs Hr Hd) as (-> & -> & -> & -> & -> & ->).
  by rewrite !rstrip_ljust.
Qed.
End Header.

(** ** wire.py *)

Definition PREFIX : text := u "DRv1".
Definition PIPE : N := 124.
(** [(_PREFIX + "|").encode("ascii")]. *)
Definition MARKER : bytes := PREFIX ++ [PIPE].

Record WireMessage := mk_wire {
    wm_seq : Z; wm_uuid : text; wm_session_date : text; wm_payload : text
  }.

(** [NotDRv1Error]: the body [parse_body] quotes, or the missing marker
    [split_framed] reports. *)
Inductive NotDRv1Error := NotABody (body : bytes) | NoMarker (raw : bytes).

(** [build_body]; [None] is the ValueError of a number over the digit limit or of
    a lone surrogate. *)
Definition build_body (seq : Z) (uuid session_date payload : text) : option bytes :=
  sq ← str_int seq;
  utf8_encode (str_join [PIPE] [PREFIX; sq; uuid; session_date; payload]).

Definition parse_body (body : bytes) : res NotDRv1Error WireMessage :=
  match utf8_decode body with
  | None => Err (NotABody body)
  | Some t =>
      match split_max PIPE 4 t with
      | [p; sq; uuid; session_date; payload] =>
          if bool_decide (p = PREFIX) then
            match int_of_text sq with
            | Some seq => Ok (mk_wire seq uuid session_date payload)
            | None => Err (NotABody body)
            end
          else Err (NotABody body)
      | _ => Err (NotABody body)
      end
  end.

Definition split_framed (raw : bytes) : res NotDRv1Error (bytes * WireMessage) :=
  match find_sub MARKER raw with
  | None => Err (NoMarker raw)
  | Some idx =>
      let body := drop idx raw in
      m ← parse_body body; Ok (body, m)
  end.

(** ** snapshot.py *)

Definition seqs_from_bodies (bodies : list bytes) : gset Z :=
  foldl (λ seqs b, match parse_body b with Ok m => {[wm_seq m]} ∪ seqs | Err _ => seqs end)
    ∅ bodies.

(** ** Lemmas *)

(** The four separators of a body delimit its fields. *)
Lemma split_fields a b c d e :
  PIPE ∉ a → PIPE ∉ b → PIPE ∉ c → PIPE ∉ d →
  split_max PIPE 4 (str_join [PIPE] [a; b; c; d; e]) = [a; b; c; d; e].
Proof.
  intros Ha Hb Hc Hd. cbn [str_join app].
  rewrite !split_max_app by done. done.
Qed.

Lemma split_max_5 t a b c d e :
  split_max PIPE 4 t = [a; b; c; d; e] →
  t = str_join [PIPE] [a; b; c; d; e] ∧ (PIPE ∉ b) ∧ (PIPE ∉ c) ∧ PIPE ∉ d.
Proof.
  intros H. split; [by rewrite <-H, str_join_split_max|]. revert H. simpl.
  repeat (match goal with
    | |- context [cut PIPE ?s] => destruct (cut PIPE s) as [[? ?]|] eqn:?; [|discriminate]
    end).
  intros [= <- <- <- <- <-]. repeat match goal with
    | H : cut _ _ = Some _ |- _ => apply cut_Some in H as [_ ?] end. done.
Qed.

Lemma PREFIX_ascii : Forall (λ c, c < 128)%N PREFIX.
Proof. repeat constructor. Qed.

Lemma utf8_encode_cons_ascii c s :
  (c < 128)%N → utf8_encode (c :: s) = cons c <$> utf8_encode s.
Proof.
  intros. change (utf8_encode (c :: s)) with (utf8_encode ([c] ++ s)).
  rewrite (utf8_encode_app [c] s), (utf8_encode_ascii [c]) by (by constructor).
  by destruct (utf8_encode s).
Qed.

(** A built body starts with the marker. *)
Lemma build_body_marker seq uuid date payload b :
  build_body seq uuid date payload = Some b → MARKER `prefix_of` b.
Proof.
  unfold build_body. intros (sq & _ & H)%bind_Some. cbn [str_join] in H.
  rewrite (app_assoc PREFIX [PIPE]) in H. change (PREFIX ++ [PIPE]) with MARKER in H.
  rewrite (utf8_encode_app MARKER), (utf8_encode_ascii MARKER) in H by (repeat constructor).
  simpl in H. apply bind_Some in H as (b' & _ & [= <-]). by exists b'.
Qed.

Lemma utf8_encode_free x s b :
  utf8_encode s = Some b → (x < 128)%N → x ∉ s → x ∉ b.
Proof.
  revert b. induction s as [|c s IH]; intros b; simpl; [intros [= <-]; set_solver|].
  intros (b0 & H0 & (bs & Hbs & [= <-])%bind_Some)%bind_Some Hx Hnot.
  rewrite not_elem_of_cons in Hnot. destruct Hnot as [Hne Hnot].
  rewrite elem_of_app. intros [Hin|Hin]; [|by eapply IH].
  by apply Hne, (utf8_char_ascii _ _ _ H0).
Qed.

(** No marker starts inside a header that holds no [D]. *)
Lemma find_marker_after h b :
  68%N ∉ h → MARKER `prefix_of` b → find_sub MARKER (h ++ b) = Some (length h).
Proof.
  intros HD Hb. apply find_sub_Some. split; [|split].
  - by rewrite drop_app_length.
  - rewrite length_app. lia.
  - intros j Hj [k Hk]. apply HD.
    rewrite drop_app_le in Hk by lia.
    destruct (drop j h) as [|c rest] eqn:Hd.
    { apply (f_equal length) in Hd. rewrite length_drop in Hd. simpl in Hd. lia. }
    assert (c = 68%N) as -> by (by injection Hk).
    rewrite <-(take_drop j h), Hd. set_solver.
Qed.

Lemma split_framed_app h b m :
  68%N ∉ h → MARKER `prefix_of` b → parse_body b = Ok m → split_framed (h ++ b) = Ok (b, m).
Proof.
  intros HD Hb Hm. unfold split_framed. rewrite find_marker_after by done.
  rewrite drop_app_length. by rewrite Hm.
Qed.

Lemma build_body_parse seq uuid date payload b :
  PIPE ∉ uuid → PIPE ∉ date → build_body seq uuid date payload = Some b →
  parse_body b = Ok (mk_wire seq uuid date payload).
Proof.
  intros Hu Hd (sq & Hsq & Hb)%bind_Some. unfold parse_body.
  rewrite (utf8_decode_encode _ _ Hb).
  assert (PIPE ∉ sq).
  { unfold str_int in Hsq. case_if; [|done]. injection Hsq as <-.
    apply Z_text_no. right. done. }
  assert (PIPE ∉ PREFIX) by (vm_compute; set_solver).
  rewrite split_fields by done. rewrite bool_decide_eq_true_2 by done.
  by rewrite (int_of_str_int _ _ Hsq).
Qed.

(** ** Properties *)

(** A DRv1 body built from fields without a separator in uuid and session
    date parses back to exactly those fields, whatever the payload holds. *)
Theorem parse_build_body seq uuid date payload b :
  PIPE ∉ uuid → PIPE ∉ date → build_body seq uuid date payload = Some b →
  parse_body b = Ok (mk_wire seq uuid date payload).
Proof. apply build_body_parse. Qed.

(** [parse_body] never parses garbage: bytes it accepts are the UTF-8 form of
    "DRv1|seq|uuid|date|payload" with a decimal seq and separator-free uuid and
    date, and every other input raises NotDRv1Error. *)
Theorem parse_body_sound b :
  match parse_body b with
  | Ok m => ∃ t sq, utf8_decode b = Some t ∧
      t = str_join [PIPE] [PREFIX; sq; wm_uuid m; wm_session_date m; wm_payload m] ∧
      int_of_text sq = Some (wm_seq m) ∧ (PIPE ∉ wm_uuid m) ∧ PIPE ∉ wm_session_date m
  | Err e => e = NotABody b ∧
      ∀ t sq uuid date payload seq, utf8_decode b = Some t →
        t = str_join [PIPE] [PREFIX; sq; uuid; date; payload] →
        PIPE ∉ sq → PIPE ∉ uuid → PIPE ∉ date → int_of_text sq ≠ Some seq
  end.
Proof.
  assert (PIPE ∉ PREFIX) as HP by (vm_compute; set_solver).
  destruct (parse_body b) as [m|e] eqn:H; unfold parse_body in H.
  - destruct (utf8_decode b) as [t|] eqn:Ht; [|done].
    destruct (split_max PIPE 4 t) as [|p [|sq [|uu [|d [|pl []]]]]] eqn:Hs; try done.
    case_bool_decide as Hp; [|done]. destruct (int_of_text sq) eqn:Hi; [|done].
    injection H as <-. subst. apply split_max_5 in Hs as (-> & ? & ? & ?). simpl. eauto 10.
  - split.
    + repeat case_match; congruence.
    + intros t sq uuid date payload seq Ht -> H1 H2 H3 Hseq. rewrite Ht in H.
      rewrite split_fields in H by done.
      rewrite bool_decide_eq_true_2 in H by done. by rewrite Hseq in H.
Qed.

(** What the producer puts on the wire the receiver reads back: a body framed
    by a packed header whose fields hold no capital D is found by [split_framed]
    and parsed to the message it was built from. *)
Theorem split_framed_packed p s r d h hb seq uuid date payload b :
  Header.pack_header p s r d = Ok h → utf8_encode h = Some hb →
  68%N ∉ p → 68%N ∉ s → 68%N ∉ r → 68%N ∉ d →
  PIPE ∉ uuid → PIPE ∉ date → build_body seq uuid date payload = Some b →
  split_framed (hb ++ b) = Ok (b, mk_wire seq uuid date payload).
Proof.
  intros Hh Hhb Hp Hs Hr Hd Hu Hdt Hb.
  apply split_framed_app; [|by eapply build_body_marker|by eapply build_body_parse].
  eapply utf8_encode_free; [done|done|].
  apply Header.pack_header_Ok in Hh as (-> & _). unfold Header.ljust.
  rewrite !elem_of_app, !elem_of_replicate.
  intros [[?|[? _]]|[[?|[? _]]|[[?|[? _]]|[?|[? _]]]]]; done.
Qed.

(** [split_framed] returns the bytes from the first marker on, parsed, and
    raises exactly when there is no marker or the bytes after the first one are
    not a body; in particular a responder that echoes the returned bytes behind a
    header without a capital D sends the same message. *)
Theorem split_framed_echo raw :
  match split_framed raw with
  | Ok (body, m) =>
      (∃ pre, raw = pre ++ body ∧ find_sub MARKER raw = Some (length pre)) ∧
      parse_body body = Ok m ∧
      ∀ h, 68%N ∉ h → split_framed (h ++ body) = Ok (body, m)
  | Err (NoMarker r) => r = raw ∧ ∀ i, ¬ MARKER `prefix_of` drop i raw
  | Err (NotABody b) => ∃ i, find_sub MARKER raw = Some i ∧ b = drop i raw
  end.
Proof.
  unfold split_framed. destruct (find_sub MARKER raw) as [i|] eqn:Hf.
  - apply find_sub_Some in Hf as Hi. destruct Hi as (Hpre & Hlen & _).
    destruct (parse_body (drop i raw)) as [m|e] eqn:Hm; simpl.
    + split_and!; [|done|].
      * exists (take i raw). by rewrite take_drop, length_take_le.
      * intros h Hh. rewrite find_marker_after, drop_app_length by done. by rewrite Hm.
    + pose proof (parse_body_sound (drop i raw)) as Hs. rewrite Hm in Hs.
      destruct Hs as [-> _]. eauto.
  - split; [done|]. by apply find_sub_None.
Qed.

(** The snapshot is exactly the set of sequence numbers of the bodies that
    parse; foreign messages are not counted. *)
Theorem elem_of_seqs_from_bodies s bodies :
  s ∈ seqs_from_bodies bodies ↔ ∃ b m, b ∈ bodies ∧ parse_body b = Ok m ∧ wm_seq m = s.
Proof.
  induction bodies as [|b bodies IH] using rev_ind; [set_solver|].
  unfold seqs_from_bodies in *. rewrite foldl_app. simpl.
  setoid_rewrite elem_of_app. setoid_rewrite list_elem_of_singleton.
  destruct (parse_body b) as [m|e] eqn:Hb.
  - rewrite elem_of_union, elem_of_singleton, IH. split.
    + intros [->|(b' & m' & ? & ? & ?)]; eauto 10.
    + intros (b' & m' & [?| ->] & ? & ?); [eauto 10|left; congruence].
  - rewrite IH. split; [intros (b' & m' & ? & ? & ?); eauto 10|].
    intros (b' & m' & [?| ->] & ? & ?); [eauto 10|congruence].
Qed.

(** ** Witnesses *)

Lemma parse_pack_header_witness :
  Header.parse_header (u "pw      APP01   SVC     20260608" ++ u "DRv1|1|ab|d|x") =
    Ok (Header.mk_header (u "pw") (u "APP01") (u "SVC") (u "20260608") (u "DRv1|1|ab|d|x")).
Proof. apply Header.parse_pack_header; by vm_compute. Defined.

Lemma parse_build_body_witness :
  parse_body (u "DRv1|42|cafe|20260608|a|b") =
    Ok (mk_wire 42 (u "cafe") (u "20260608") (u "a|b")).
Proof.
  apply parse_build_body; [by apply (bool_decide_unpack _)..|by vm_compute].
Defined.

(** The header and body [mq-dr-flow] sends for its third message. *)
Lemma split_framed_packed_witness :
  split_framed (u "pw      APP01   SVC     20260608" ++ u "DRv1|3|cafe|20260608|MSG-3") =
    Ok (u "DRv1|3|cafe|20260608|MSG-3", mk_wire 3 (u "cafe") (u "20260608") (u "MSG-3")).
Proof.
  apply (split_framed_packed (u "pw") (u "APP01") (u "SVC") (u "20260608")
    (u "pw      APP01   SVC     20260608"));
    first [by vm_compute | by apply (bool_decide_unpack _)].
Defined.
