(* ===== verification/Reconcile.v ===== *)
(** * Reconciliation: from ledgers to buckets to reports

    Models [mqrc/dr/classifier.py], [mqrc/dr/reconcile.py], [mqrc/dr/report.py],
    [mqrc/dr/catalog.py] and the analyses of [mqrc/dr_baseline.py] and
    [mqrc/dr_forced.py]. *)

From S2P Require Import Prelude PyText PyDict PyFloat PyJson Ledger Exposure.

(** ** classifier.py *)

Definition classify (f : MessageFacts) : Bucket :=
  if 2 <=? mf_svc_received f then DUPLICATED
  else if mf_app_confirmed f then BUCKET_CONFIRMED
  else if mf_on_secondary f then CONTINUED
  else if mf_svc_received f =? 1 then AMBIGUOUS
  else if mf_on_primary_disk f then STRANDED
  else LOST_UNPROCESSED.

Definition classify_all (facts : list MessageFacts) : list (MessageFacts * Bucket) :=
  (λ f, (f, classify f)) <$> facts.

(** ** reconcile.py *)

Definition reconcile (app svc : Ledger) (secondary_present primary_disk_present : gset Z)
    (cutover_ts : float) : list MessageFacts :=
  let uuid_of := uuid_of app in
  let confirmed_pre := confirmed_seqs (Some cutover_ts) app in
  let svc_counts := svc_receive_counts svc in
  let svc_repl := svc_replied svc in
  (λ seq, mk_facts seq (default [] (uuid_of !! seq))
    (bool_decide (seq ∈ confirmed_pre)) (default 0 (svc_counts !! seq))
    (bool_decide (seq ∈ svc_repl)) (bool_decide (seq ∈ secondary_present))
    (bool_decide (seq ∈ primary_disk_present))) <$> sorted_Z (sent_seqs app).

(** ** report.py *)

(** [b in SAFE_BUCKETS]. *)
Definition is_safe (b : Bucket) : bool :=
  match b with BUCKET_CONFIRMED | CONTINUED => true | _ => false end.

Definition count_bucket (facts : list MessageFacts) (b : Bucket) : nat :=
  length (List.filter (λ f, bool_decide (classify f = b)) facts).

Definition census (facts : list MessageFacts) : list (Bucket * nat) :=
  (λ b, (b, count_bucket facts b)) <$> all_buckets.

Definition at_risk (facts : list MessageFacts) : list Z :=
  mf_seq <$> List.filter (λ f, negb (is_safe (classify f))) facts.

Definition min_list (x : Z) (l : list Z) : Z := foldr Z.min x l.
Definition max_list (x : Z) (l : list Z) : Z := foldr Z.max x l.

Definition loss_window (facts : list MessageFacts) : option (Z * Z * nat) :=
  match at_risk facts with
  | [] => None
  | x :: l => Some (min_list x l, max_list x l, length (x :: l))
  end.

Definition self_correctness_violations (facts : list MessageFacts) : list MessageFacts :=
  List.filter (λ f, negb (bool_decide (classify f = BUCKET_CONFIRMED))) facts.

(** The non-confirmed messages [SelfCorrectnessError] lists, by sequence number. *)
Inductive SelfCorrectnessError := NonConfirmed (seqs : list Z).

Definition assert_self_correct (facts : list MessageFacts) : res SelfCorrectnessError unit :=
  match self_correctness_violations facts with
  | [] => Ok tt
  | bad => Err (NonConfirmed (mf_seq <$> bad))
  end.

Record ScenarioReport := mk_report {
    sr_scenario_id : text;
    sr_arm : text;
    sr_census : list (Bucket * nat);
    sr_window : option (Z * Z * nat);
    sr_peak_exposure : Z;
    sr_exposure_at_fault : option Z;
    sr_rto_seconds : option float;
    sr_intervention_required : bool;
    sr_integrity_anomaly : bool;
    sr_diagnostics_captured : bool
  }.

Definition rpo_zero (r : ScenarioReport) : bool := bool_decide (sr_window r = None).

Definition bucket_value (b : Bucket) : text :=
  match b with
  | BUCKET_CONFIRMED => u "confirmed" | CONTINUED => u "continued"
  | STRANDED => u "stranded" | LOST_UNPROCESSED => u "lost_unprocessed"
  | AMBIGUOUS => u "ambiguous" | DUPLICATED => u "duplicated"
  end.

Definition json_opt {A} (f : A → json) (o : option A) : json :=
  match o with Some a => f a | None => JNull end.

Definition to_dict (r : ScenarioReport) : json :=
  JObj
    [(u "scenario_id", JStr (sr_scenario_id r));
     (u "arm", JStr (sr_arm r));
     (u "census", JObj ((λ bn, (bucket_value bn.1, JInt (Z.of_nat bn.2))) <$> sr_census r));
     (u "window",
       json_opt (λ w, JArr [JInt w.1.1; JInt w.1.2; JInt (Z.of_nat w.2)]) (sr_window r));
     (u "peak_exposure", JInt (sr_peak_exposure r));
     (u "exposure_at_fault", json_opt JInt (sr_exposure_at_fault r));
     (u "rto_seconds", json_opt JFloat (sr_rto_seconds r));
     (u "intervention_required", JBool (sr_intervention_required r));
     (u "integrity_anomaly", JBool (sr_integrity_anomaly r));
     (u "diagnostics_captured", JBool (sr_diagnostics_captured r));
     (u "rpo_zero", JBool (rpo_zero r))].

Definition build_report (scenario_id arm : text) (facts : list MessageFacts)
    (peak_exposure : Z) (exposure_at_fault : option Z) (rto_seconds : option float)
    (intervention_required integrity_anomaly diagnostics_captured : bool) : ScenarioReport :=
  mk_report scenario_id arm (census facts) (loss_window facts) peak_exposure
    exposure_at_fault rto_seconds intervention_required integrity_anomaly
    diagnostics_captured.

(** The keyword defaults of [build_report]. *)
Definition build_report_default (scenario_id arm : text) (facts : list MessageFacts)
    (peak_exposure : Z) : ScenarioReport :=
  build_report scenario_id arm facts peak_exposure None None false false false.

(** [cross_arm]: the ValueError of two different scenarios, or the paired dict. *)
Inductive CrossArmError := DifferentScenarios (c d : text).

Definition cross_arm (c d : ScenarioReport) : res CrossArmError json :=
  if bool_decide (sr_scenario_id c = sr_scenario_id d) then
    Ok (JObj [(u "scenario_id", JStr (sr_scenario_id c)); (u "C", to_dict c);
              (u "D", to_dict d)])
  else Err (DifferentScenarios (sr_scenario_id c) (sr_scenario_id d)).

(** ** catalog.py *)

Inductive Kind := HA | DR_CONTROLLED | DR_FORCED | FAILBACK.

Record Scenario := mk_scenario {
    sc_id : text;
    sc_kind : Kind;
    sc_fault : text;
    sc_expect_rpo_zero : bool;
    sc_expect_buckets : list Bucket
  }.

Definition CATALOG : list Scenario :=
  let _C := [CONTINUED] in
  let _SAFE := [BUCKET_CONFIRMED; CONTINUED] in
  [mk_scenario (u "HA-1") HA (u "kill -9 the QM process under load") true _C;
   mk_scenario (u "HA-2") HA (u "power-off the active node under load") true _C;
   mk_scenario (u "HA-3") HA (u "sever heartbeat/replication net under load") true _C;
   mk_scenario (u "HA-4") HA (u "sever shared storage under load") true _C;
   mk_scenario (u "HA-5") HA (u "rolling patch one node at a time under load") true _C;
   mk_scenario (u "DR-CTRL") DR_CONTROLLED
     (u "quiesce -> drain -> confirm replication caught up -> cutover") true _SAFE;
   mk_scenario (u "DR-FORCE-1") DR_FORCED
     (u "primary unrecoverable, flow continues through cutover") false
     [STRANDED; AMBIGUOUS];
   mk_scenario (u "DR-FORCE-2") DR_FORCED
     (u "primary isolated from both SVC and secondary, app keeps producing") false
     [STRANDED];
   mk_scenario (u "DR-FORCE-3") DR_FORCED
     (u "replication lagged/broken then failover (chained)") false [STRANDED];
   mk_scenario (u "FB-REPLAY") FAILBACK
     (u "recovered primary's QM brought online against stale storage before resync/discard")
     false [DUPLICATED]].

(** ** dr_baseline.py *)

(** [main] after the two ledgers are read: the report, or the raised error. *)
Definition baseline (app svc : Ledger) : res SelfCorrectnessError ScenarioReport :=
  let facts := reconcile app svc (sent_seqs app) ∅ finf in
  _ ← assert_self_correct facts;
  Ok (build_report_default (u "BASELINE") (u "msgpath") facts (Z.of_nat (exposure app None))).

(** ** dr_forced.py *)

(** [_sent_ts]: the time of the last SENT entry of each seq. *)
Definition sent_ts (app : Ledger) : gmap Z float :=
  foldl (λ out e, <[le_seq e := le_ts e]> out) ∅ (entries_of SENT None app).

(** The messages committed at A between the replication break and the kill. *)
Definition lost_window (app : Ledger) (break_ts kill_ts : float) : gset Z :=
  dom (filter (λ p, fleb break_ts p.2 && fleb p.2 kill_ts = true) (sent_ts app)).

Definition forced_facts (app svc : Ledger) (break_ts kill_ts : float) : list MessageFacts :=
  let lost := lost_window app break_ts kill_ts in
  let secondary_present := sent_seqs app ∖ lost in
  reconcile app svc secondary_present ∅ break_ts.

Definition forced (app svc : Ledger) (break_ts kill_ts : float) : ScenarioReport :=
  build_report_default (u "DR-FORCE-1") (u "pcmk-dr")
    (forced_facts app svc break_ts kill_ts) (Z.of_nat (exposure app None)).

(** ** What a bucket means

    The declarative reading of the bucket names, mutually exclusive by
    construction of the conditions. *)
Definition bucket_spec (b : Bucket) (f : MessageFacts) : Prop :=
  match b with
  | DUPLICATED => 2 ≤ mf_svc_received f
  | BUCKET_CONFIRMED => mf_svc_received f < 2 ∧ mf_app_confirmed f = true
  | CONTINUED => mf_svc_received f < 2 ∧ mf_app_confirmed f = false ∧
                 mf_on_secondary f = true
  | AMBIGUOUS => mf_svc_received f = 1 ∧ mf_app_confirmed f = false ∧
                 mf_on_secondary f = false
  | STRANDED => mf_svc_received f = 0 ∧ mf_app_confirmed f = false ∧
                mf_on_secondary f = false ∧ mf_on_primary_disk f = true
  | LOST_UNPROCESSED => mf_svc_received f = 0 ∧ mf_app_confirmed f = false ∧
                        mf_on_secondary f = false ∧ mf_on_primary_disk f = false
  end.

Lemma classify_meets_spec f : bucket_spec (classify f) f.
Proof.
  destruct f as [s uu c n r sec disk]. unfold classify, bucket_spec.
  cbn [mf_svc_received mf_app_confirmed mf_on_secondary mf_on_primary_disk].
  destruct (Nat.leb_spec 2 n); [done|]. destruct c; [done|].
  destruct sec; [done|]. destruct (Nat.eqb_spec n 1); [done|].
  destruct disk; split_and!; done || lia.
Qed.

Lemma bucket_spec_inj b b' f : bucket_spec b f → bucket_spec b' f → b = b'.
Proof. unfold bucket_spec. destruct b, b'; intros; destruct_and?; done || lia || congruence. Qed.

Lemma classify_iff f b : classify f = b ↔ bucket_spec b f.
Proof.
  split; [intros <-; apply classify_meets_spec|].
  intros H. eapply bucket_spec_inj; [apply classify_meets_spec|done].
Qed.

(** ** Lemmas on reconcile *)

Lemma reconcile_seqs app svc sec prim cut :
  mf_seq <$> reconcile app svc sec prim cut = sorted_Z (sent_seqs app).
Proof.
  unfold reconcile. rewrite <-list_fmap_compose. unfold compose. simpl. apply list_fmap_id.
Qed.

Lemma elem_of_reconcile app svc sec prim cut f :
  f ∈ reconcile app svc sec prim cut ↔
    mf_seq f ∈ sent_seqs app ∧
    mf_uuid f = default [] (uuid_of app !! mf_seq f) ∧
    mf_app_confirmed f = bool_decide (mf_seq f ∈ confirmed_seqs (Some cut) app) ∧
    mf_svc_received f = default 0 (svc_receive_counts svc !! mf_seq f) ∧
    mf_svc_replied f = bool_decide (mf_seq f ∈ svc_replied svc) ∧
    mf_on_secondary f = bool_decide (mf_seq f ∈ sec) ∧
    mf_on_primary_disk f = bool_decide (mf_seq f ∈ prim).
Proof.
  unfold reconcile. rewrite list_elem_of_fmap. split.
  - intros (s & -> & Hs). apply elem_of_sorted_Z in Hs. simpl. done.
  - intros (Hs & H). exists (mf_seq f). rewrite elem_of_sorted_Z. split; [|done].
    destruct f; simpl in *. destruct_and! H. by f_equal.
Qed.

(** ** Lemmas on the report *)

Lemma count_bucket_sum facts :
  foldr Nat.add 0 (snd <$> census facts) = length facts.
Proof.
  unfold census, count_bucket, all_buckets. csimpl.
  induction facts as [|f facts IH]; [done|]. simpl. revert IH.
  destruct (classify f); repeat case_bool_decide; simpl; try done; lia.
Qed.

Lemma min_max_list_bounds x l y :
  y ∈ x :: l → (min_list x l ≤ y ≤ max_list x l)%Z.
Proof.
  unfold min_list, max_list. rewrite elem_of_cons.
  induction l as [|z l IH]; simpl; [set_solver by lia|].
  rewrite elem_of_cons. intros [->|[->|]]; [|lia|].
  - specialize (IH (or_introl eq_refl)). lia.
  - specialize (IH (or_intror ltac:(done))). lia.
Qed.

Lemma min_list_elem x l : min_list x l ∈ x :: l.
Proof.
  unfold min_list. induction l as [|z l IH]; simpl; [left|].
  destruct (Z.min_spec z (foldr Z.min x l)) as [[_ ->]|[_ ->]]; set_solver.
Qed.

Lemma max_list_elem x l : max_list x l ∈ x :: l.
Proof.
  unfold max_list. induction l as [|z l IH]; simpl; [left|].
  destruct (Z.max_spec z (foldr Z.max x l)) as [[_ ->]|[_ ->]]; set_solver.
Qed.

Lemma elem_of_at_risk facts s :
  s ∈ at_risk facts ↔ ∃ f, f ∈ facts ∧ mf_seq f = s ∧ is_safe (classify f) = false.
Proof.
  unfold at_risk. rewrite list_elem_of_fmap.
  setoid_rewrite list_elem_of_In. setoid_rewrite filter_In.
  setoid_rewrite negb_true_iff. naive_solver.
Qed.

Lemma self_correct_Ok facts :
  assert_self_correct facts = Ok tt ↔ Forall (λ f, classify f = BUCKET_CONFIRMED) facts.
Proof.
  unfold assert_self_correct, self_correctness_violations.
  induction facts as [|f facts IH]; simpl; [split; constructor|].
  rewrite Forall_cons, <-IH. case_bool_decide; simpl; naive_solver.
Qed.

Lemma all_safe_no_window facts :
  loss_window facts = None ↔ Forall (λ f, is_safe (classify f) = true) facts.
Proof.
  unfold loss_window, at_risk. induction facts as [|f facts IH]; csimpl.
  - split; constructor.
  - rewrite Forall_cons, <-IH. destruct (is_safe (classify f)); csimpl; naive_solver.
Qed.

(** ** Properties *)

(** Reconciliation yields one fact per SENT sequence number, in increasing
    order and no other, and each fact states what the two ledgers and the two
    snapshots record about its message. *)
Theorem reconcile_complete app svc sec prim cut :
  let facts := reconcile app svc sec prim cut in
  StronglySorted Z.lt (mf_seq <$> facts) ∧
  (∀ s, s ∈ mf_seq <$> facts ↔ ∃ e, e ∈ app ∧ le_event e = SENT ∧ le_seq e = s) ∧
  ∀ f, f ∈ facts →
    (mf_app_confirmed f = true ↔ ∃ e, e ∈ app ∧ le_event e = CONFIRMED ∧
       le_seq e = mf_seq f ∧ fleb (le_ts e) cut = true) ∧
    mf_svc_received f = length (List.filter
       (λ e, is_event RECEIVED e && bool_decide (le_seq e = mf_seq f)) svc) ∧
    (mf_svc_replied f = true ↔ ∃ e, e ∈ svc ∧ le_event e = REPLIED ∧ le_seq e = mf_seq f) ∧
    (mf_on_secondary f = true ↔ mf_seq f ∈ sec) ∧
    (mf_on_primary_disk f = true ↔ mf_seq f ∈ prim).
Proof.
  intros facts. subst facts. split_and!.
  - rewrite reconcile_seqs. apply sorted_Z_lt.
  - intros s. rewrite reconcile_seqs, elem_of_sorted_Z. unfold sent_seqs.
    rewrite elem_of_seqs_of. naive_solver.
  - intros f (Hs & _ & -> & -> & -> & -> & ->)%elem_of_reconcile.
    rewrite !bool_decide_eq_true. unfold confirmed_seqs, svc_replied.
    rewrite !elem_of_seqs_of, svc_receive_counts_lookup. simpl.
    split_and!; naive_solver.
Qed.

(** ** What a scenario report says of the two ledgers *)

Section scenario.
Context (app svc : Ledger) (sec prim : gset Z) (cut : float).

Definition was_sent (s : Z) : Prop := ∃ e, e ∈ app ∧ le_event e = SENT ∧ le_seq e = s.

(** A reply reached the application by the cutover. *)
Definition confirmed_by_cutover (s : Z) : Prop :=
  ∃ e, e ∈ app ∧ le_event e = CONFIRMED ∧ le_seq e = s ∧ fleb (le_ts e) cut = true.

(** How often the service got the message. *)
Definition times_received (s : Z) : nat :=
  length (List.filter (λ e, is_event RECEIVED e && bool_decide (le_seq e = s)) svc).

(** Nothing is owed and nothing was done twice: the message was processed at most once, and it
    is answered or can still be processed on the secondary. *)
Definition message_safe (s : Z) : Prop :=
  times_received s ≤ 1 ∧ (confirmed_by_cutover s ∨ s ∈ sec).

(** What each bucket says of a message, by what a resend of it would do. *)
Definition bucket_means (b : Bucket) (s : Z) : Prop :=
  match b with
  | BUCKET_CONFIRMED => message_safe s ∧ confirmed_by_cutover s
  | CONTINUED => message_safe s ∧ ¬ confirmed_by_cutover s
  | DUPLICATED => ¬ message_safe s ∧ 2 ≤ times_received s
  | AMBIGUOUS => ¬ message_safe s ∧ times_received s = 1
  | STRANDED => ¬ message_safe s ∧ times_received s = 0 ∧ s ∈ prim
  | LOST_UNPROCESSED => ¬ message_safe s ∧ times_received s = 0 ∧ s ∉ prim
  end.

(** The messages of [P], each once. *)
Definition lists_exactly (l : list Z) (P : Z → Prop) : Prop :=
  NoDup l ∧ ∀ s, s ∈ l ↔ was_sent s ∧ P s.

Let facts := reconcile app svc sec prim cut.

Lemma fact_of_message f :
  f ∈ facts →
  was_sent (mf_seq f) ∧ mf_svc_received f = times_received (mf_seq f) ∧
  (mf_app_confirmed f = true ↔ confirmed_by_cutover (mf_seq f)) ∧
  (mf_on_secondary f = true ↔ mf_seq f ∈ sec) ∧ (mf_on_primary_disk f = true ↔ mf_seq f ∈ prim).
Proof.
  intros (Hs & _ & -> & -> & _ & -> & ->)%elem_of_reconcile. rewrite !bool_decide_eq_true.
  unfold sent_seqs, confirmed_seqs, was_sent, confirmed_by_cutover in *.
  rewrite !elem_of_seqs_of in *. rewrite svc_receive_counts_lookup. simpl in *.
  split_and!; naive_solver.
Qed.

Lemma message_has_fact s : was_sent s ↔ ∃ f, f ∈ facts ∧ mf_seq f = s.
Proof.
  assert (was_sent s ↔ s ∈ mf_seq <$> facts) as ->.
  { unfold facts, was_sent. rewrite reconcile_seqs, elem_of_sorted_Z. unfold sent_seqs.
    rewrite elem_of_seqs_of. naive_solver. }
  rewrite list_elem_of_fmap. naive_solver.
Qed.

(** Every message is in the one bucket that tells its situation. *)
Lemma bucket_of_message f b : f ∈ facts → classify f = b ↔ bucket_means b (mf_seq f).
Proof.
  intros Hf. destruct (fact_of_message f Hf) as (_ & Hr & Hc & Hs & Hp).
  rewrite classify_iff. unfold bucket_spec, bucket_means, message_safe.
  rewrite Hr. clear Hr.
  assert (Hdec : ∀ (x : bool) (P : Prop), (x = true ↔ P) → (x = true ∧ P) ∨ (x = false ∧ ¬ P))
    by (intros [] P [H1 H2]; [left; auto|right; split; [done|]; intros HP; by specialize (H2 HP)]).
  destruct (Hdec _ _ Hc) as [[-> ?]|[-> ?]], (Hdec _ _ Hs) as [[-> ?]|[-> ?]],
    (Hdec _ _ Hp) as [[-> ?]|[-> ?]], b; naive_solver lia.
Qed.

Lemma safe_of_message f : f ∈ facts → is_safe (classify f) = true ↔ message_safe (mf_seq f).
Proof.
  intros Hf. pose proof (proj1 (bucket_of_message f _ Hf) eq_refl) as H.
  destruct (classify f); simpl in *; naive_solver.
Qed.

Lemma lists_of_filter (p : MessageFacts → bool) (P : Z → Prop) :
  (∀ f, f ∈ facts → p f = true ↔ P (mf_seq f)) →
  lists_exactly (mf_seq <$> List.filter p facts) P.
Proof.
  intros HP. split.
  - assert (NoDup (mf_seq <$> facts)) as Hn
      by (unfold facts; rewrite reconcile_seqs; apply NoDup_isort, NoDup_elements).
    clear HP. induction facts as [|f fs IH]; simpl; [constructor|].
    apply NoDup_cons in Hn as [Hf Hn]. destruct (p f); [|by apply IH].
    apply NoDup_cons. split; [|by apply IH]. intros (g & Hg & Hin)%list_elem_of_fmap.
    apply Hf. apply list_elem_of_fmap. exists g. split; [done|].
    apply list_elem_of_In, filter_In in Hin as [Hin _]. by apply list_elem_of_In.
  - intros s. rewrite list_elem_of_fmap, message_has_fact. setoid_rewrite list_elem_of_In.
    setoid_rewrite filter_In. setoid_rewrite <-list_elem_of_In. split.
    + intros (f & -> & Hf & Hp). split; [by exists f|by apply HP].
    + intros ((f & Hf & <-) & HPs). exists f. split_and!; [done..|by apply HP].
Qed.
End scenario.

(** C11. What a scenario report says of the two ledgers and the two snapshots. A message is safe
    when the service got it at most once and it was answered by the cutover or is on the
    secondary. The report claims RPO zero exactly when every message sent is safe; otherwise its
    window has the least and the greatest sequence number that is not, and their exact count.
    Each count of its census is the number of messages sent whose situation the bucket names:
    safe ones by whether they were confirmed, the others by whether the service got them twice,
    once (a resend duplicates), or never (still on the primary's disk, or gone). *)
Theorem scenario_report_exact app svc sec prim cut id arm peak at_fault rto by_hand anomaly diag :
  let r := build_report id arm (reconcile app svc sec prim cut) peak at_fault rto by_hand anomaly diag in
  let safe := message_safe app svc sec cut in
  (rpo_zero r = true ↔ ∀ s, was_sent app s → safe s) ∧
  match sr_window r with
  | None => ∀ s, was_sent app s → safe s
  | Some (lo, hi, n) => ∃ l, lists_exactly app l (λ s, ¬ safe s) ∧ length l = n ∧
      lo ∈ l ∧ hi ∈ l ∧ ∀ s, s ∈ l → (lo ≤ s ≤ hi)%Z
  end ∧
  (sr_census r).*1 = all_buckets ∧
  ∀ b n, (b, n) ∈ sr_census r →
    ∃ l, lists_exactly app l (bucket_means app svc sec prim cut b) ∧ length l = n.
Proof.
  intros r safe. set (facts := reconcile app svc sec prim cut).
  assert (Hrisk : lists_exactly app (at_risk facts) (λ s, ¬ safe s)).
  { apply lists_of_filter. intros f Hf. rewrite negb_true_iff, <-not_true_iff_false.
    by rewrite (safe_of_message app svc sec prim cut f Hf). }
  assert (Hall : at_risk facts = [] ↔ ∀ s, was_sent app s → safe s).
  { destruct Hrisk as [_ Hr]. split.
    - intros Hn s Hs. rewrite Hn in Hr. apply message_has_fact with (svc := svc) (sec := sec)
        (prim := prim) (cut := cut) in Hs as (f & Hf & <-).
      destruct (is_safe (classify f)) eqn:Hsafe; [by apply (safe_of_message app svc sec prim cut)|].
      exfalso. apply (not_elem_of_nil (mf_seq f)), Hr.
      destruct (fact_of_message app svc sec prim cut f Hf) as [? _]. split; [done|].
      intros Hx. apply (safe_of_message app svc sec prim cut f Hf) in Hx. congruence.
    - intros Hs. destruct (at_risk facts) as [|s l]; [done|]. exfalso.
      destruct (proj1 (Hr s)) as [Hsent Hn]; [by left|]. by apply Hn, Hs. }
  assert (Hw : loss_window facts = None ↔ at_risk facts = [])
    by (unfold loss_window; by destruct (at_risk facts)).
  split_and!.
  - unfold rpo_zero. rewrite bool_decide_eq_true. by rewrite <-Hall, <-Hw.
  - change (sr_window r) with (loss_window facts).
    destruct (loss_window facts) as [[[lo hi] n]|] eqn:He; [|by apply Hall, Hw].
    exists (at_risk facts). split; [done|]. unfold loss_window in He.
    destruct (at_risk facts) as [|x l]; [done|]. injection He as <- <- <-.
    split_and!; [done|apply min_list_elem|apply max_list_elem|]. intros s. apply min_max_list_bounds.
  - done.
  - intros b n Hb. change (sr_census r) with (census facts) in Hb. unfold census in Hb.
    apply list_elem_of_fmap in Hb as (b' & [= -> ->] & _).
    exists (mf_seq <$> List.filter (λ f, bool_decide (classify f = b')) facts).
    split; [|by rewrite length_fmap]. apply lists_of_filter. intros f Hf.
    rewrite bool_decide_eq_true. by apply bucket_of_message.
Qed.

(** The census partitions the messages: each bucket counts the messages
    classified in it and the counts add up to the number of messages. *)
Theorem census_partition facts :
  (census facts).*1 = all_buckets ∧
  (∀ b n, (b, n) ∈ census facts →
     n = length (List.filter (λ f, bool_decide (classify f = b)) facts)) ∧
  foldr Nat.add 0 (snd <$> census facts) = length facts.
Proof.
  split_and!; [done| |apply count_bucket_sum].
  intros b n. unfold census. rewrite list_elem_of_fmap. naive_solver.
Qed.

(** The loss window is exact in sequence space: it is absent precisely when
    every message is confirmed or continued (RPO zero), and otherwise its ends are
    the least and greatest sequence numbers at risk and its count their number. *)
Theorem loss_window_exact facts :
  match loss_window facts with
  | None => ∀ f, f ∈ facts → classify f = BUCKET_CONFIRMED ∨ classify f = CONTINUED
  | Some (lo, hi, n) =>
      n = length (at_risk facts) ∧ 0 < n ∧
      lo ∈ at_risk facts ∧ hi ∈ at_risk facts ∧
      (∀ s, s ∈ at_risk facts → (lo ≤ s ≤ hi)%Z) ∧
      ∀ s, s ∈ at_risk facts ↔ ∃ f, f ∈ facts ∧ mf_seq f = s ∧
        classify f ≠ BUCKET_CONFIRMED ∧ classify f ≠ CONTINUED
  end.
Proof.
  destruct (loss_window facts) as [[[lo hi] n]|] eqn:H.
  - unfold loss_window in H. pose proof (elem_of_at_risk facts) as Hrisk.
    destruct (at_risk facts) as [|x l]; [done|]. injection H as <- <- <-.
    split_and!; [done|simpl; lia|apply min_list_elem|apply max_list_elem| |].
    + intros s Hs. by apply min_max_list_bounds.
    + intros s. rewrite Hrisk. split; intros (f & ? & ? & Hf); exists f;
        destruct (classify f); naive_solver.
  - apply all_safe_no_window in H. rewrite Forall_forall in H.
    intros f Hf. specialize (H f Hf). destruct (classify f); auto; done.
Qed.

(** A message's facts in the no-fault baseline. *)
Lemma baseline_confirmed app svc f :
  Forall (λ e, is_nan (le_ts e) = false) app →
  f ∈ reconcile app svc (sent_seqs app) ∅ finf →
  classify f = BUCKET_CONFIRMED ↔
    mf_seq f ∈ confirmed_seqs None app ∧ default 0 (svc_receive_counts svc !! mf_seq f) ≤ 1.
Proof.
  intros Hnan (Hs & _ & Hc & Hr & _)%elem_of_reconcile.
  rewrite classify_iff. unfold bucket_spec. rewrite Hc, Hr, bool_decide_eq_true.
  assert (confirmed_seqs (Some finf) app = confirmed_seqs None app) as ->; [|split; intros []; split; done || lia].
  unfold confirmed_seqs, seqs_of. do 2 f_equal. unfold entries_of.
  apply filter_ext_in. intros e He%list_elem_of_In. simpl.
  rewrite Forall_forall in Hnan. specialize (Hnan e He).
  f_equal. by destruct (le_ts e) as [[]|[]| |[]].
Qed.

(** The no-fault baseline passes exactly when every SENT message has a
    CONFIRMED entry and the Watcher logged it at most once; then the report has
    RPO zero and counts every message as confirmed, and otherwise the error lists
    exactly the offending sequence numbers. *)
Theorem baseline_passes app svc :
  Forall (λ e, is_nan (le_ts e) = false) app →
  let good s := s ∈ confirmed_seqs None app ∧ default 0 (svc_receive_counts svc !! s) ≤ 1 in
  match baseline app svc with
  | Ok r => rpo_zero r = true ∧
      dget_or (sr_census r) BUCKET_CONFIRMED 0 = size (sent_seqs app) ∧
      ∀ s, s ∈ sent_seqs app → good s
  | Err (NonConfirmed bad) => bad ≠ [] ∧
      ∀ s, s ∈ bad ↔ s ∈ sent_seqs app ∧ ¬ good s
  end.
Proof.
  intros Hnan good. unfold baseline.
  set (facts := reconcile app svc (sent_seqs app) ∅ finf).
  assert (∀ f, f ∈ facts → classify f = BUCKET_CONFIRMED ↔ good (mf_seq f)) as Hgood
    by (intros; by apply baseline_confirmed).
  pose proof (reconcile_seqs app svc (sent_seqs app) ∅ finf) as Hseqs. fold facts in Hseqs.
  destruct (assert_self_correct facts) as [[]|[bad]] eqn:Hsc; simpl.
  - apply self_correct_Ok in Hsc. split_and!.
    + unfold rpo_zero. simpl. apply bool_decide_eq_true, all_safe_no_window.
      eapply Forall_impl; [done|]. simpl. by intros f ->.
    + rewrite <-(length_sorted_Z (sent_seqs app)), <-Hseqs, length_fmap.
      unfold dget_or. simpl. clear Hseqs Hgood. induction Hsc as [|f fs Hf _ IH]; [done|].
      unfold count_bucket in *. simpl. rewrite Hf. simpl. by f_equal.
    + intros s Hs. rewrite <-elem_of_sorted_Z, <-Hseqs, list_elem_of_fmap in Hs.
      destruct Hs as (f & -> & Hf). rewrite Forall_forall in Hsc. by apply Hgood, Hsc.
  - unfold assert_self_correct in Hsc.
    destruct (self_correctness_violations facts) as [|b bs] eqn:Hv; [done|].
    assert (bad = mf_seq <$> b :: bs) as -> by congruence. split; [done|].
    intros s. rewrite <-Hv, list_elem_of_fmap.
    rewrite <-elem_of_sorted_Z, <-Hseqs, list_elem_of_fmap.
    unfold self_correctness_violations. setoid_rewrite list_elem_of_In.
    setoid_rewrite filter_In. setoid_rewrite <-list_elem_of_In.
    setoid_rewrite negb_true_iff. setoid_rewrite bool_decide_eq_false.
    split.
    + intros (f & -> & Hf & Hne). rewrite Hgood in Hne by done. eauto.
    + intros ((f & -> & Hf) & Hne). exists f. rewrite Hgood by done. done.
Qed.

(** The forced-DR analysis attributes loss only to the window between the
    replication break and the kill: the bucket of every message is a function of
    how often the Watcher received it, whether its reply was confirmed before the
    break, and whether it was committed in the window; in particular nothing
    outside the window is lost or ambiguous and nothing is ever stranded. *)
Theorem forced_attribution app svc break_ts kill_ts f :
  f ∈ forced_facts app svc break_ts kill_ts →
  let n := default 0 (svc_receive_counts svc !! mf_seq f) in
  classify f =
    (if 2 <=? n then DUPLICATED
     else if decide (mf_seq f ∈ confirmed_seqs (Some break_ts) app) then BUCKET_CONFIRMED
     else if decide (mf_seq f ∈ lost_window app break_ts kill_ts)
     then (if n =? 1 then AMBIGUOUS else LOST_UNPROCESSED)
     else CONTINUED).
Proof.
  intros (Hs & _ & Hconf & Hrecv & _ & Hsec & Hprim)%elem_of_reconcile n.
  rewrite bool_decide_eq_false_2 in Hprim by set_solver.
  unfold classify. rewrite Hrecv, Hconf, Hsec, Hprim. fold n. clearbody n.
  assert (∀ c, bool_decide (mf_seq f ∈ sent_seqs app ∖ c) =
               negb (bool_decide (mf_seq f ∈ c))) as ->
    by (intros; repeat case_bool_decide; done || set_solver).
  unfold bool_decide. repeat case_decide; simpl; done.
Qed.

(** The scenario catalog is consistent: the ids are distinct, and a scenario
    expects RPO zero exactly when every bucket it expects is a safe one. *)
Theorem catalog_consistent :
  NoDup (sc_id <$> CATALOG) ∧ length CATALOG = 10 ∧
  Forall (λ s, sc_expect_rpo_zero s = forallb is_safe (sc_expect_buckets s) ∧
               sc_expect_buckets s ≠ []) CATALOG.
Proof.
  split_and!; [by apply (bool_decide_unpack _); vm_compute|done|].
  repeat constructor; done.
Qed.

(** ** Witnesses *)

Definition demo_app : Ledger :=
  [mk_entry SENT 1 (u "a") (float_of_Z 1); mk_entry CONFIRMED 1 (u "a") (float_of_Z 2);
   mk_entry SENT 2 (u "b") (float_of_Z 3); mk_entry SENT 3 (u "c") (float_of_Z 5);
   mk_entry SENT 4 (u "d") (float_of_Z 6)].

Definition demo_svc : Ledger :=
  [mk_entry RECEIVED 1 (u "a") (float_of_Z 1); mk_entry REPLIED 1 (u "a") (float_of_Z 1);
   mk_entry RECEIVED 3 (u "c") (float_of_Z 5)].

Lemma baseline_passes_witness :
  baseline demo_app demo_svc = Err (NonConfirmed [2; 3; 4]%Z) ∧
  (2%Z ∈ [2; 3; 4]%Z ↔ 2%Z ∈ sent_seqs demo_app ∧
     ¬ (2%Z ∈ confirmed_seqs None demo_app ∧
        default 0 (svc_receive_counts demo_svc !! 2%Z) ≤ 1)).
Proof.
  assert (baseline demo_app demo_svc = Err (NonConfirmed [2; 3; 4]%Z)) as Heq
    by (by vm_compute).
  split; [done|].
  assert (Forall (λ e, is_nan (le_ts e) = false) demo_app) as Hnan by (repeat constructor).
  pose proof (baseline_passes demo_app demo_svc Hnan) as H. cbv zeta in H.
  rewrite Heq in H. apply H.
Defined.

(** Broken at 4 and killed at 10: message 2 was shipped, 3 was processed and its
    reply lost, 4 is gone. *)
Lemma forced_attribution_witness :
  (classify <$> forced_facts demo_app demo_svc (float_of_Z 4) (float_of_Z 10)) =
    [BUCKET_CONFIRMED; CONTINUED; AMBIGUOUS; LOST_UNPROCESSED] ∧
  classify (mk_facts 4 (u "d") false 0 false false false) =
    (if decide (4%Z ∈ confirmed_seqs (Some (float_of_Z 4)) demo_app) then BUCKET_CONFIRMED
     else if decide (4%Z ∈ lost_window demo_app (float_of_Z 4) (float_of_Z 10))
     then LOST_UNPROCESSED else CONTINUED).
Proof.
  split; [by vm_compute|].
  apply (forced_attribution demo_app demo_svc (float_of_Z 4) (float_of_Z 10)
           (mk_facts 4 (u "d") false 0 false false false)).
  apply (list_elem_of_lookup_2 _ 3). by vm_compute.
Defined.
