(* ===== verification/Mqi.v ===== *)
(** * The MQI contract of the DR clients

    Models [mqrc/dr_mqi.py] (the reason-code families and [connect_retry]) and
    [mqrc/deadletter.py]. The queue manager is not code of this repository: a call
    of the MQI is an event of a trace, and what it answers is an input of the
    model, so a theorem that quantifies over the inputs holds for every behaviour
    of the queue manager and the network. *)

From S2P Require Import Prelude PyText PyCodec PyFloat Ledger Wire.

(** ** The calls *)

(** A reason code, the [reason] of an MQMIError. *)
Abbreviation reason := Z (only parsing).

(** The part of an MQMD the clients read or copy. *)
Record MD := mk_md {
    md_msg_id : bytes; md_correl_id : bytes; md_encoding : Z; md_ccsid : Z;
    md_format : bytes; md_msg_type : Z; md_persistence : Z; md_priority : Z
  }.

(** One call of a client on its connection, with its outcome: [None] for a put,
    commit, ... that returned, [Some r] for one that raised MQMIError [r]. *)
Inductive call :=
  | CConnect (r : option reason)
  | COpen (queue : text) (r : option reason)
  | CInquire (r : res reason bytes)
  | CGet (r : res reason (bytes * MD))
  | CPut (queue : text) (payload correl_id : bytes) (r : option reason)
  | CClose (r : option reason)
  | CCommit (r : option reason)
  | CBackout (r : option reason)
  | CDisconnect (r : option reason)
  | CFlush (l : Ledger).

(** The cause a dead-letter move is logged with: the text of a caught exception, or a
    literal. *)
Inductive cause := NotDRv1 (e : NotDRv1Error) | Because (why : text).

(** Why a client stops on an exception. *)
Inductive exn :=
  | MQMIError (r : reason)
  | NoDeadLetterQueueError (qmgr_name : text) (why : cause)
  | HeaderValueError (e : Header.error)
  | BodyValueError
  | ENotDRv1 (e : NotDRv1Error)
  | LedgerNotWritten.   (* the OSError of a write of the ledger *)

(** How a loop body ends: the loop goes on, it is left, the exception propagates,
    or the inputs ran out inside a call (the run is observed up to there). *)
Inductive ctl := Continue | Break | Raise (e : exn) | Blocked.

(** ** dr_mqi.py *)

Definition RETRY_INPLACE : list reason := [2003; 2161]%Z.
Definition CALL_INTERRUPTED : reason := 2549%Z.
Definition RECONNECT : list reason := [2009; 2202; 2059; 2018]%Z.
Definition CONNECT_RETRY : list reason := RECONNECT ++ [2059]%Z.

Definition is_reconnect (r : reason) : bool := bool_decide (r ∈ RECONNECT).
Definition is_retry_inplace (r : reason) : bool := bool_decide (r ∈ RETRY_INPLACE).
Definition is_interrupted (r : reason) : bool := bool_decide (r = CALL_INTERRUPTED).

(** One turn of the [while keep_going()] loop: [keep_going()] answered False, or
    [connect] raised, or it returned a connection. *)
Inductive attempt := KeepFalse | ConnectFails (r : reason) | Connected.

(** [connect_retry]: [Some true] for a live connection, [Some false] for None. *)
Fixpoint connect_retry (attempts : list attempt) : list call * res exn (option bool) :=
  match attempts with
  | [] => ([], Ok None)
  | KeepFalse :: _ => ([], Ok (Some false))
  | ConnectFails r :: rest =>
      if bool_decide (r ∈ CONNECT_RETRY) then
        let '(tr, a) := connect_retry rest in (CConnect (Some r) :: tr, a)
      else ([CConnect (Some r)], Err (MQMIError r))
  | Connected :: _ => ([CConnect None], Ok (Some true))
  end.

(** ** deadletter.py *)

(** [mqchar] of a bytes field whose bytes are ASCII ([errors="replace"] turns each
    other byte into U+FFFD). *)
Definition mqchar (value : bytes) : text :=
  let ascii c := if (c <? 128)%N then c else 65533%N in
  let pad c := (c =? 32)%N || (c =? 0)%N in
  rstrip_by pad (lstrip_by pad (ascii <$> value)).

(** The fields [dead_letter] sets in the MQDLH; [DLH.pack] belongs to ibmmq. *)
Record Dlh := mk_dlh {
    dlh_reason : Z; dlh_dest_queue : text; dlh_dest_qmgr : text; dlh_encoding : Z;
    dlh_ccsid : Z; dlh_format : bytes; dlh_put_appl_name : text; dlh_put_date : text;
    dlh_put_time : text
  }.

(** The answers of the queue manager to one dead-letter move, with the date and
    time [strftime] gives. *)
Record DlAnswers := mk_dl {
    dl_inquire : res reason bytes; dl_open : option reason; dl_put : option reason;
    dl_close : option reason; dl_date : text; dl_time : text
  }.

Section dead_letter.
Context (dlh_pack : Dlh → bytes).

(** The reason an MQDLH carries here is the caller's [reason]. *)
Definition dead_letter (qmgr_name in_queue : text) (req_md : MD) (body : bytes)
  (reason_ : Z) (who : text) (why : cause) (a : DlAnswers) :
  list call * res exn unit :=
  match dl_inquire a with
  | Err r => ([CInquire (Err r)], Err (MQMIError r))
  | Ok name =>
    let dlq := mqchar name in
    if bool_decide (dlq = []) then
      ([CInquire (Ok name)], Err (NoDeadLetterQueueError qmgr_name why))
    else
      let dlh := mk_dlh reason_ in_queue qmgr_name (md_encoding req_md)
        (md_ccsid req_md) (md_format req_md) (u "mq-" ++ who) (dl_date a) (dl_time a) in
      let t1 := [CInquire (Ok name); COpen dlq (dl_open a)] in
      match dl_open a with
      | Some r => (t1, Err (MQMIError r))
      | None =>
          let t2 := t1 ++ [CPut dlq (dlh_pack dlh ++ body) (md_correl_id req_md) (dl_put a)] in
          match dl_put a with
          | Some r => (t2, Err (MQMIError r))
          | None =>
              (t2 ++ [CClose (dl_close a)],
               match dl_close a with Some r => Err (MQMIError r) | None => Ok tt end)
          end
      end
  end.
End dead_letter.

(** ** Lemmas *)

(** The families the clients branch on do not overlap, so the order of the tests
    does not matter. *)
Lemma reason_families_disjoint r :
  (is_reconnect r = true → is_retry_inplace r = false ∧ is_interrupted r = false) ∧
  (is_retry_inplace r = true → is_interrupted r = false).
Proof.
  unfold is_reconnect, is_retry_inplace, is_interrupted.
  rewrite !bool_decide_eq_true, !bool_decide_eq_false.
  unfold RECONNECT, RETRY_INPLACE, CALL_INTERRUPTED.
  rewrite !elem_of_cons, !elem_of_nil. lia.
Qed.

(** What a connection attempt loop leaves in the trace: failed attempts of the
    retry family, then at most one other attempt, which decides its answer. *)
Lemma connect_retry_trace attempts :
  let '(tr, a) := connect_retry attempts in
  ∃ fails, Forall (λ r, r ∈ CONNECT_RETRY) fails ∧
    match a with
    | Ok (Some true) => tr = (CConnect ∘ Some <$> fails) ++ [CConnect None]
    | Ok _ => tr = (CConnect ∘ Some <$> fails)
    | Err e => ∃ r, e = MQMIError r ∧ (r ∉ CONNECT_RETRY) ∧
        tr = (CConnect ∘ Some <$> fails) ++ [CConnect (Some r)]
    end.
Proof.
  induction attempts as [|[|r|] rest IH]; simpl; try (by exists []).
  case_bool_decide as Hr.
  - destruct (connect_retry rest) as [tr a]. destruct IH as (fails & Hf & Ha).
    exists (r :: fails). split; [by constructor|].
    destruct a as [[[]|]|e]; csimpl; [by rewrite Ha..|].
    destruct Ha as (r' & -> & ? & ->). eauto.
  - exists []. split; [constructor|]. eauto.
Qed.

(** Only connection attempts: none of them is a put, a get or a commit. *)
Definition is_connect (c : call) : bool := match c with CConnect _ => true | _ => false end.

Lemma connect_retry_only_connects attempts :
  Forall (λ c, is_connect c = true) (connect_retry attempts).1.
Proof.
  induction attempts as [|[|r|] rest IH]; simpl; try by repeat constructor.
  case_bool_decide; [|by repeat constructor].
  destruct (connect_retry rest). simpl in *. by constructor.
Qed.
