(* ===== verification/Flow.v ===== *)
(** * The application-side flow generator

    Models [mqrc/dr_flow.py]: the producer and consumer loops as functions of
    their state and of what the queue manager, the clock and [uuid4] answer, and
    [main] as a run of an explicit interleaving of the two threads over the shared
    ledger. A turn of a loop is split where the other thread can come between: its test of
    STOP, its body up to the append to the ledger, and the flush of the ledger. The pacing
    sleeps and the message descriptor's expiry are left out. *)

From S2P Require Import Prelude PyText PyCodec PyFloat Ledger Wire Mqi.

(** The queues and the run's CorrelId: what [main] passes to both sides. *)
Record FlowCfg := mk_flow_cfg { fc_req_queue : text; fc_reply_queue : text; fc_correl : bytes }.

(** ** new_run_correl_id *)

Definition CORREL_ID_LEN : nat := 24.

Definition new_run_correl_id (uuid_bytes : bytes) : bytes :=
  uuid_bytes ++ replicate (CORREL_ID_LEN - length uuid_bytes) 0%N.

(** ** The producer *)

Definition session_date : text := u "20260608".

(** The header and body of one request. *)
Definition frame (seq : Z) (uuid : text) : res exn bytes :=
  sq ← of_option BodyValueError (str_int seq);
  body ← of_option BodyValueError (build_body seq uuid session_date (u "MSG-" ++ sq));
  h ← map_err HeaderValueError
        (Header.pack_header (u "pw") (u "APP01") (u "SVC") session_date);
  header ← of_option BodyValueError (utf8_encode h);
  Ok (header ++ body).

Record PState := mk_pstate {
    ps_conn : bool;                              (* qmgr is not None *)
    ps_seq : Z;
    ps_pending : option (Z * text * bytes);      (* built, not yet confirmed sent *)
    ps_last_flush : float
  }.

(** What the world answers during the body of one turn of the producer's loop. *)
Record PIter := mk_piter {
    pi_attempts : list attempt; pi_open : option reason; pi_uuid : text;
    pi_put : option reason; pi_commit : option reason; pi_disc : option reason;
    pi_backout : option reason; pi_now : float; pi_mono : float
  }.

(** The connection part of a turn. *)
Definition ensure_connected (queue : text) (attempts : list attempt)
    (open : option reason) (conn : bool) : list call * ctl * bool :=
  if conn then ([], Continue, true)
  else
    match connect_retry attempts with
    | (tr, Err e) => (tr, Raise e, false)
    | (tr, Ok None) => (tr, Blocked, false)
    | (tr, Ok (Some false)) => (tr, Break, false)
    | (tr, Ok (Some true)) =>
        (tr ++ [COpen queue open],
         match open with Some r => Raise (MQMIError r) | None => Continue end, true)
    end.

(** The message a turn sends: the pending one, or the next one. *)
Definition ensure_pending (uuid : text) (st : PState) : PState * res exn (Z * text * bytes) :=
  match ps_pending st with
  | Some p => (st, Ok p)
  | None =>
      let seq := (ps_seq st + 1)%Z in
      match frame seq uuid with
      | Err e => (mk_pstate (ps_conn st) seq None (ps_last_flush st), Err e)
      | Ok payload =>
          (mk_pstate (ps_conn st) seq (Some (seq, uuid, payload)) (ps_last_flush st),
           Ok (seq, uuid, payload))
      end
  end.

(** The put and commit of a turn and, on an MQMIError, its handler: the calls, the
    exit and whether the connection is kept; [None] for a clean commit. *)
Definition put_commit (cfg : FlowCfg) (it : PIter) (payload : bytes) :
    list call * option (ctl * bool) :=
  let put := CPut (fc_req_queue cfg) payload (fc_correl cfg) (pi_put it) in
  let '(tr, failed) :=
    match pi_put it with
    | Some r => ([put], Some r)
    | None => ([put; CCommit (pi_commit it)], pi_commit it)
    end in
  match failed with
  | None => (tr, None)
  | Some r =>
      if is_reconnect r then (tr ++ [CDisconnect (pi_disc it)], Some (Continue, false))
      else if is_interrupted r then (tr, Some (Continue, true))
      else if is_retry_inplace r then (tr ++ [CBackout (pi_backout it)], Some (Continue, true))
      else (tr, Some (Raise (MQMIError r), true))
  end.

Definition set_conn (c : bool) (st : PState) : PState :=
  mk_pstate c (ps_seq st) (ps_pending st) (ps_last_flush st).

(** The body of one turn of the producer's loop, up to the flush: the calls it makes, its
    state and the shared ledger after it, how it ends, and whether a flush is due. *)
Definition producer_turn (cfg : FlowCfg) (it : PIter) (st : PState) (l : Ledger) :
    list call * PState * Ledger * ctl * bool :=
  let '(t1, c1, conn) :=
    ensure_connected (fc_req_queue cfg) (pi_attempts it) (pi_open it) (ps_conn st) in
  let st1 := set_conn conn st in
  match c1 with
  | Continue =>
      let '(st2, p) := ensure_pending (pi_uuid it) st1 in
      match p with
      | Err e => (t1, st2, l, Raise e, false)
      | Ok (pseq, puuid, payload) =>
          match put_commit cfg it payload with
          | (t2, Some (c2, conn2)) => (t1 ++ t2, set_conn conn2 st2, l, c2, false)
          | (t2, None) =>
              (t1 ++ t2, mk_pstate true (ps_seq st2) None (ps_last_flush st2),
               ledger_append l (mk_entry SENT pseq puuid (pi_now it)), Continue,
               fltb (float_of_Z 2) (fsub (pi_mono it) (ps_last_flush st2)))
          end
      end
  | c => (t1, st1, l, c, false)
  end.

(** After the loop is left: the disconnect, its MQMIError ignored. *)
Definition close_side (conn : bool) (disc : option reason) : list call :=
  if conn then [CDisconnect disc] else [].

(** ** The consumer *)

Record CIter := mk_citer {
    ci_attempts : list attempt; ci_open : option reason; ci_get : res reason (bytes * MD);
    ci_backout : option reason; ci_commit : option reason; ci_disc : option reason;
    ci_now : float
  }.

Section consumer.
(** [CMQC.MQRC_NO_MSG_AVAILABLE]. *)
Context (NO_MSG_AVAILABLE : reason).

(** The handler both the get and the commit of the consumer have. *)
Definition consumer_handler (r : reason) (disc : option reason) : list call * ctl * bool :=
  if is_reconnect r then ([CDisconnect disc], Continue, false)
  else if is_retry_inplace r || is_interrupted r then ([], Continue, true)
  else ([], Raise (MQMIError r), true).

(** The body of one turn of the consumer's loop; its state is whether it has a connection. *)
Definition consumer_turn (cfg : FlowCfg) (it : CIter) (conn : bool) (l : Ledger) :
  list call * bool * Ledger * ctl :=
  let '(t1, c1, conn1) :=
    ensure_connected (fc_reply_queue cfg) (ci_attempts it) (ci_open it) conn in
  match c1 with
  | Continue =>
      let t2 := t1 ++ [CGet (ci_get it)] in
      match ci_get it with
      | Err r =>
          if bool_decide (r = NO_MSG_AVAILABLE) then (t2, true, l, Continue)
          else let '(t3, c, conn3) := consumer_handler r (ci_disc it) in
               (t2 ++ t3, conn3, l, c)
      | Ok (raw, _) =>
          match split_framed raw with
          | Err e =>
              (t2 ++ [CBackout (ci_backout it)], true, l,
               Raise (match ci_backout it with
                      | Some r => MQMIError r
                      | None => ENotDRv1 e
                      end))
          | Ok (_, msg) =>
              let t3 := t2 ++ [CCommit (ci_commit it)] in
              match ci_commit it with
              | Some r =>
                  let '(t4, c, conn4) := consumer_handler r (ci_disc it) in
                  (t3 ++ t4, conn4, l, c)
              | None =>
                  (t3, true,
                   ledger_append l
                     (mk_entry CONFIRMED (wm_seq msg) (wm_uuid msg) (ci_now it)),
                   Continue)
              end
          end
      end
  | c => (t1, conn1, l, c)
  end.

(** ** main: the two threads

    A run is a sequence of steps of either side. [SRunning] is a thread at its loop's test,
    [SInside] one in the body of a turn, which it entered while STOP was not set,
    [SFlushing] the producer about to write the ledger, [SDone] a thread that returned,
    [SFailed] one [_guarded] reported. *)
Inductive side := SRunning | SInside | SFlushing | SDone | SFailed (e : exn).

Record FlowState := mk_flow {
  fs_p : PState; fs_pside : side; fs_ptrace : list call;
  fs_c : bool; fs_cside : side; fs_ctrace : list call;
  fs_ledger : Ledger; fs_stop : bool; fs_errors : list (text * exn)
  }.

(** What happens next: the test of a side's loop (with the deadline's, for the producer, and
    the answer to the disconnect when the loop is left), the body of its turn, the
    producer's flush ([written]: the file could be written), or [main] setting STOP. *)
Inductive turn :=
  | TTestProducer (keep : bool) (disc : option reason) | TProducer (it : PIter)
  | TFlush (written : bool) (mono : float)
  | TTestConsumer (disc : option reason) | TConsumer (it : CIter)
  | TStop.

Definition flow_init (last_flush : float) : FlowState :=
  mk_flow (mk_pstate false 0 None last_flush) SRunning [] false SRunning [] [] false [].

(** The producer's thread after a step of it; an exception is recorded by [_guarded], which
    sets STOP. *)
Definition set_producer (s : FlowState) (p : PState) (sd : side) (tr : list call) (l : Ledger) : FlowState :=
  mk_flow p sd (fs_ptrace s ++ tr) (fs_c s) (fs_cside s) (fs_ctrace s) l
    (match sd with SFailed _ => true | _ => fs_stop s end)
    (fs_errors s ++ match sd with SFailed e => [(u "producer", e)] | _ => [] end).

Definition set_consumer (s : FlowState) (conn : bool) (sd : side) (tr : list call) (l : Ledger) : FlowState :=
  mk_flow (fs_p s) (fs_pside s) (fs_ptrace s) conn sd (fs_ctrace s ++ tr) l
    (match sd with SFailed _ => true | _ => fs_stop s end)
    (fs_errors s ++ match sd with SFailed e => [(u "consumer", e)] | _ => [] end).

(** Where a body leaves its thread: at the test again, at the flush, out of the loop, or still
    inside a call. *)
Definition after_body (c : ctl) (due : bool) : side :=
  match c with
  | Continue => if due then SFlushing else SRunning
  | Break => SDone
  | Raise e => SFailed e
  | Blocked => SInside
  end.

Definition is_break (c : ctl) : bool := match c with Break => true | _ => false end.

Definition flow_step (cfg : FlowCfg) (s : FlowState) (t : turn) : FlowState :=
  match t with
  | TTestProducer keep disc =>
    match fs_pside s with
    | SRunning =>
        if fs_stop s || negb keep
        then set_producer s (fs_p s) SDone (close_side (ps_conn (fs_p s)) disc) (fs_ledger s)
        else set_producer s (fs_p s) SInside [] (fs_ledger s)
    | _ => s
    end
  | TProducer it =>
    match fs_pside s with
    | SInside =>
        let '(tr, p, l, c, due) := producer_turn cfg it (fs_p s) (fs_ledger s) in
        set_producer s p (after_body c due)
          (tr ++ if is_break c then close_side (ps_conn p) (pi_disc it) else []) l
    | _ => s
    end
  | TFlush written mono =>
    match fs_pside s with
    | SFlushing =>
        if written
        then set_producer s (mk_pstate (ps_conn (fs_p s)) (ps_seq (fs_p s)) (ps_pending (fs_p s)) mono) SRunning
               [CFlush (fs_ledger s)] (fs_ledger s)
        else set_producer s (fs_p s) (SFailed LedgerNotWritten) [] (fs_ledger s)
    | _ => s
    end
  | TTestConsumer disc =>
    match fs_cside s with
    | SRunning =>
        if fs_stop s then set_consumer s (fs_c s) SDone (close_side (fs_c s) disc) (fs_ledger s)
        else set_consumer s (fs_c s) SInside [] (fs_ledger s)
    | _ => s
    end
  | TConsumer it =>
    match fs_cside s with
    | SInside =>
        let '(tr, conn, l, c) := consumer_turn cfg it (fs_c s) (fs_ledger s) in
        set_consumer s conn (after_body c false)
          (tr ++ if is_break c then close_side conn (ci_disc it) else []) l
    | _ => s
    end
  | TStop =>
    mk_flow (fs_p s) (fs_pside s) (fs_ptrace s) (fs_c s) (fs_cside s) (fs_ctrace s)
      (fs_ledger s) true (fs_errors s)
  end.

Definition flow_run (cfg : FlowCfg) (s : FlowState) (ts : list turn) : FlowState :=
  foldl (flow_step cfg) s ts.

(** How [main] ends: the ledger it wrote with the sent and confirmed counts and the code it
    returns, or the OSError of the write, which it lets through. *)
Inductive flow_end := FReturns (l : Ledger) (sent confirmed : nat) (code : Z) | FNotWritten.

(** [main]: steps until the producer is over, STOP, steps while the consumer is joined (for
    five seconds at most), the write of the ledger, the counts and the test of the errors;
    the consumer can still be running between these ([late], [later]). *)
Definition flow_main (cfg : FlowCfg) (last_flush : float) (during drain : list turn) (written : bool)
    (late later : list turn) : flow_end :=
  let s1 := flow_run cfg (flow_init last_flush) (during ++ TStop :: drain) in
  if written then
    let s2 := flow_run cfg s1 late in
    let s3 := flow_run cfg s2 later in
    FReturns (fs_ledger s1) (size (sent_seqs (fs_ledger s2))) (size (confirmed_seqs None (fs_ledger s2)))
      (match fs_errors s3 with [] => 0 | _ => 1 end)%Z
  else FNotWritten.

(** The status of the process: an exception [main] lets through is 1. *)
Definition exit_status (e : flow_end) : Z := match e with FReturns _ _ _ code => code | FNotWritten => 1 end.
End consumer.

(** ** What a trace shows *)

(** The payloads handed to MQPUT, in order, whatever the outcome. *)
Definition puts (tr : list call) : list bytes :=
  omap (λ c, match c with CPut _ p _ _ => Some p | _ => None end) tr.

(** The payloads put and at once committed, both cleanly. *)
Fixpoint landed (tr : list call) : list bytes :=
  match tr with
  | CPut _ p _ None :: ((CCommit None :: _) as rest) => p :: landed rest
  | _ :: rest => landed rest
  | [] => []
  end.

(** The messages got, parsed and at once committed, all cleanly. *)
Fixpoint taken (tr : list call) : list (Z * text) :=
  match tr with
  | CGet (Ok (raw, _)) :: ((CCommit None :: _) as rest) =>
      match split_framed raw with
      | Ok (_, m) => (wm_seq m, wm_uuid m) :: taken rest
      | Err _ => taken rest
      end
  | _ :: rest => taken rest
  | [] => []
  end.

(** The (seq, uuid) pairs of one kind, in ledger order. *)
Definition logged (ev : Event) (l : Ledger) : list (Z * text) :=
  (λ e, (le_seq e, le_uuid e)) <$> entries_of ev None l.

Definition is_commit (c : call) : bool := match c with CCommit _ => true | _ => false end.

(** A trace that does not start in the middle of a commit. *)
Definition fresh (tr : list call) : Prop :=
  match tr with c :: _ => is_commit c = false | [] => True end.

Lemma puts_app a b : puts (a ++ b) = puts a ++ puts b.
Proof. apply omap_app. Qed.

Lemma landed_app a b : fresh b → landed (a ++ b) = landed a ++ landed b.
Proof.
  intros Hb. induction a as [|c a IH]; [done|].
  destruct c as [| | | |q p i [r|]| | | | |]; try exact IH.
  destruct a as [|c' a]; simpl in *.
  - destruct b as [|[]]; done.
  - destruct c' as [| | | | | |[r|]| | |]; rewrite IH; done.
Qed.

Lemma taken_app a b : fresh b → taken (a ++ b) = taken a ++ taken b.
Proof.
  intros Hb. induction a as [|c a IH]; [done|].
  destruct c as [| | |[[raw md]|r]| | | | | |]; try exact IH.
  destruct a as [|c' a]; simpl in *.
  - destruct b as [|[]]; done.
  - destruct c' as [| | | | | |[r|]| | |]; try (rewrite IH; done).
    destruct (split_framed raw) as [[? m]|]; rewrite IH; done.
Qed.

Lemma logged_app ev a b : logged ev (a ++ b) = logged ev a ++ logged ev b.
Proof. unfold logged. by rewrite entries_of_app, fmap_app. Qed.

(** Calls that open a connection put, take and commit nothing. *)
Lemma ensure_connected_quiet q ats op conn :
  let '(tr, c, conn') := ensure_connected q ats op conn in
  (∀ tr', puts (tr ++ tr') = puts tr') ∧ (∀ tr', landed (tr ++ tr') = landed tr') ∧
  (∀ tr', taken (tr ++ tr') = taken tr') ∧ (∀ tr', fresh tr' → fresh (tr ++ tr')) ∧
  (c = Continue → conn' = true).
Proof.
  assert (∀ cs, Forall (λ c, is_connect c = true) cs → ∀ cs',
    puts (cs ++ cs') = puts cs' ∧ landed (cs ++ cs') = landed cs' ∧
    taken (cs ++ cs') = taken cs' ∧ (fresh cs' → fresh (cs ++ cs'))) as Hq.
  { induction 1 as [|c cs Hc Hcs IH]; intros cs'; [done|].
    destruct c; try done. specialize (IH cs'). simpl. tauto. }
  unfold ensure_connected. destruct conn; [by split_and!|].
  pose proof (connect_retry_only_connects ats) as Hc.
  destruct (connect_retry ats) as [tr [[[]|]|e]]; simpl in Hc;
    pose proof (Hq _ Hc) as Hq'; split_and!; intros; try apply Hq'; try done.
  all: rewrite <-app_assoc; destruct (Hq' ([COpen q op] ++ tr')) as (H1 & H2 & H3 & H4).
  - done.
  - done.
  - done.
  - by apply H4.
Qed.

(** ** What one producer turn does *)

(** The message the turn sends: the pending one again, or the next one. *)
Definition next_message (st st' : PState) (q : Z) (uu : text) (p : bytes) : Prop :=
  (ps_pending st = Some (q, uu, p) ∧ ps_seq st' = ps_seq st) ∨
  (ps_pending st = None ∧ q = (ps_seq st + 1)%Z ∧ ps_seq st' = q ∧ frame q uu = Ok p).

Inductive turn_effect (st : PState) (l : Ledger) (tr : list call) (st' : PState)
    (l' : Ledger) (c : ctl) : Prop :=
  | quiet_turn :
      puts tr = [] → landed tr = [] → l' = l → ps_pending st' = ps_pending st →
      ps_seq st' = ps_seq st ∨ (∃ e, c = Raise e) → turn_effect st l tr st' l' c
  | failed_put q uu p :
      next_message st st' q uu p → puts tr = [p] → landed tr = [] → l' = l →
      ps_pending st' = Some (q, uu, p) → turn_effect st l tr st' l' c
  | clean_put q uu p now :
      next_message st st' q uu p → puts tr = [p] → landed tr = [p] →
      l' = ledger_append l (mk_entry SENT q uu now) → ps_pending st' = None → c = Continue →
      turn_effect st l tr st' l' c.

Lemma put_commit_effect cfg it p tr o :
  put_commit cfg it p = (tr, o) →
  fresh tr ∧ puts tr = [p] ∧
  match o with
  | None => tr = [CPut (fc_req_queue cfg) p (fc_correl cfg) None; CCommit None]
  | Some _ => landed tr = []
  end.
Proof.
  unfold put_commit. intros H.
  destruct (pi_put it) as [r|]; [|destruct (pi_commit it) as [r|]];
    simpl in H; repeat case_if; simplify_eq; done.
Qed.

Lemma ensure_pending_effect uuid st st2 pr :
  ensure_pending uuid st = (st2, pr) →
  match pr with
  | Ok (q, uu, p) => ps_pending st2 = Some (q, uu, p) ∧ next_message st st2 q uu p
  | Err _ => ps_pending st2 = ps_pending st
  end.
Proof.
  unfold ensure_pending, next_message. intros H.
  destruct (ps_pending st) as [[[q uu] p]|] eqn:Hp; [naive_solver|].
  destruct (frame _ uuid) eqn:Hf; simplify_eq/=; [|done]. eauto 10.
Qed.

Lemma producer_turn_effect cfg it st l tr st' l' c due :
  producer_turn cfg it st l = (tr, st', l', c, due) →
  fresh tr ∧ turn_effect st l tr st' l' c.
Proof.
  unfold producer_turn. intros H.
  pose proof (ensure_connected_quiet (fc_req_queue cfg) (pi_attempts it) (pi_open it)
    (ps_conn st)) as Hq.
  destruct (ensure_connected _ _ _ _) as [[t1 c1] conn]. destruct Hq as (Hp & Hl & _ & Hf & _).
  assert (c1 ≠ Continue → (t1, set_conn conn st, l, c1, false) = (tr, st', l', c, due) →
    fresh tr ∧ turn_effect st l tr st' l' c) as Hskip.
  { intros _ [= <- <- <- <- _]. rewrite <-(app_nil_r t1). split; [by apply Hf|].
    by apply quiet_turn; rewrite ?Hp, ?Hl; auto. }
  destruct c1; try by apply Hskip. clear Hskip.
  destruct (ensure_pending (pi_uuid it) (set_conn conn st)) as [st2 pr] eqn:Hpend.
  apply ensure_pending_effect in Hpend. destruct pr as [[[q uu] p]|e].
  2:{ injection H as <- <- <- <- _. rewrite <-(app_nil_r t1). split; [by apply Hf|].
    by apply quiet_turn; rewrite ?Hp, ?Hl; eauto. }
  destruct Hpend as [Hpend Hnext].
  destruct (put_commit cfg it p) as [t2 o] eqn:Hpc.
  apply put_commit_effect in Hpc as (Hf2 & Hp2 & Ho).
  destruct o as [[c2 conn2]|]; injection H as <- <- <- <- _.
  - split; [by apply Hf, Hf2|].
    eapply failed_put; [..|exact Hpend]; rewrite ?Hp, ?Hl; done.
  - subst t2. split; [by apply Hf|].
    eapply clean_put; rewrite ?Hp, ?Hl; (exact Hnext || done).
Qed.

(** ** The producer's invariant *)

(** The messages sent so far, as (uuid, payload): message [i] (from 0) has
    sequence number [i + 1] and is the frame of that number and uuid. *)
Definition framed (msgs : list (text * bytes)) : Prop :=
  ∀ i m, msgs !! i = Some m → frame (Z.of_nat (S i)) m.1 = Ok m.2.

Definition numbered (msgs : list (text * bytes)) : list (Z * text) :=
  imap (λ i m, (Z.of_nat (S i), m.1)) msgs.

(** Every message was handed to MQPUT at least once, [S k] times for its [k]. *)
Definition attempts_of (msgs : list (text * bytes)) (ks : list nat) : list bytes :=
  concat (zip_with (λ m k, replicate (S k) m.2) msgs ks).

(** What is in flight: the attempts so far at the next message. *)
Definition in_flight (n : nat) (pending : option (Z * text * bytes)) (tail : list bytes) :
    Prop :=
  match pending with
  | None => tail = []
  | Some (q, uu, p) => q = Z.of_nat (S n) ∧ frame q uu = Ok p ∧ ∃ j, tail = replicate j p
  end.

Definition seq_ok (n : nat) (st : PState) : Prop :=
  ps_seq st = Z.of_nat (n + match ps_pending st with Some _ => 1 | None => 0 end).

Record producer_inv (msgs : list (text * bytes)) (tr : list call) (st : PState)
      (l : Ledger) : Prop := mk_producer_inv {
    pinv_framed : framed msgs;
    pinv_logged : logged SENT l = numbered msgs;
    pinv_landed : landed tr = msgs.*2;
    pinv_puts : ∃ ks tail, length ks = length msgs ∧ puts tr = attempts_of msgs ks ++ tail ∧
      in_flight (length msgs) (ps_pending st) tail
  }.

Lemma framed_snoc msgs uu p :
  framed msgs → frame (Z.of_nat (S (length msgs))) uu = Ok p → framed (msgs ++ [(uu, p)]).
Proof.
  intros Hm Hf i m [Hi|[Hi H]]%lookup_app_Some; [by apply Hm|].
  apply list_lookup_singleton_Some in H as [Hi0 <-].
  by replace i with (length msgs) by lia.
Qed.

Lemma numbered_snoc msgs m :
  numbered (msgs ++ [m]) = numbered msgs ++ [(Z.of_nat (S (length msgs)), m.1)].
Proof. unfold numbered. rewrite imap_app. simpl. by rewrite Nat.add_0_r. Qed.

Lemma attempts_snoc msgs ks m k :
  length ks = length msgs →
  attempts_of (msgs ++ [m]) (ks ++ [k]) = attempts_of msgs ks ++ replicate (S k) m.2.
Proof.
  intros. unfold attempts_of. rewrite zip_with_app by done.
  by rewrite concat_app, <-(app_nil_r (replicate _ _)).
Qed.

(** The message of a turn is the next one, and the in-flight attempts are its own. *)
Lemma next_message_inv n st st' q uu p tail :
  seq_ok n st → in_flight n (ps_pending st) tail → next_message st st' q uu p →
  q = Z.of_nat (S n) ∧ frame q uu = Ok p ∧ (∃ j, tail = replicate j p) ∧
  ps_seq st' = Z.of_nat (S n).
Proof.
  unfold seq_ok. intros Hs Hin [[Hp Hs']|(Hp & -> & Hs' & Hf)]; rewrite Hp in *; simpl in *.
  - destruct Hin as (-> & ? & ?). split_and!; [done..|lia].
  - subst tail. split_and!; [lia|done|by exists 0|lia].
Qed.

Lemma producer_inv_turn msgs tr st l tr' st' l' c :
  producer_inv msgs tr st l → seq_ok (length msgs) st →
  fresh tr' → turn_effect st l tr' st' l' c →
  ∃ msgs', producer_inv msgs' (tr ++ tr') st' l' ∧
    (seq_ok (length msgs') st' ∨ ∃ e, c = Raise e).
Proof.
  intros [Hfr Hlog Hland (ks & tail & Hks & Hputs & Hin)] Hseq Hfresh
    [Hp Hl -> Hpend Hs|q uu p Hnext Hp Hl -> Hpend|q uu p now Hnext Hp Hl -> Hpend ->].
  - exists msgs. split.
    + split; [done|done|rewrite landed_app, Hl, app_nil_r by done; done|].
      exists ks, tail. rewrite puts_app, Hp, app_nil_r, Hpend. done.
    + unfold seq_ok in *. rewrite Hpend. destruct Hs as [->|]; auto.
  - destruct (next_message_inv _ _ _ _ _ _ _ Hseq Hin Hnext)
      as (-> & Hf & (j & ->) & Hs').
    exists msgs. split; [|left; unfold seq_ok; rewrite Hpend; lia].
    split; [done|done|rewrite landed_app, Hl, app_nil_r by done; done|].
    exists ks, (replicate (S j) p). rewrite puts_app, Hp, Hputs, Hpend, replicate_S_end.
    rewrite app_assoc. split; [done|]. split; [done|]. unfold in_flight. split_and!; [done|done|].
    exists (S j). by rewrite replicate_S_end.
  - destruct (next_message_inv _ _ _ _ _ _ _ Hseq Hin Hnext)
      as (-> & Hf & (j & ->) & Hs').
    exists (msgs ++ [(uu, p)]).
    split; [|left; unfold seq_ok; rewrite Hpend, length_app; simpl; lia].
    split.
    + by apply framed_snoc.
    + unfold ledger_append. by rewrite logged_app, Hlog, numbered_snoc.
    + by rewrite landed_app, Hl, Hland, fmap_app by done.
    + exists (ks ++ [j]), []. rewrite !length_app, attempts_snoc, app_nil_r, puts_app by done.
      rewrite Hp, Hputs, Hpend, replicate_S_end, app_assoc. split_and!; [simpl; lia|done|done].
Qed.

(** ** What one consumer turn does *)

Lemma consumer_handler_quiet r disc :
  let '(tr, _, _) := consumer_handler r disc in taken tr = [] ∧ fresh tr.
Proof. unfold consumer_handler. repeat case_if; done. Qed.

Lemma consumer_turn_effect nomsg cfg it conn l tr conn' l' c :
  consumer_turn nomsg cfg it conn l = (tr, conn', l', c) →
  fresh tr ∧
  ((l' = l ∧ taken tr = []) ∨
   ∃ m now, l' = ledger_append l (mk_entry CONFIRMED (wm_seq m) (wm_uuid m) now) ∧
     taken tr = [(wm_seq m, wm_uuid m)] ∧ c = Continue).
Proof.
  unfold consumer_turn. intros H.
  pose proof (ensure_connected_quiet (fc_reply_queue cfg) (ci_attempts it) (ci_open it) conn)
    as Hq.
  destruct (ensure_connected _ _ _ _) as [[t1 c1] conn1]. destruct Hq as (_ & _ & Ht & Hf & _).
  assert (c1 ≠ Continue → (t1, conn1, l, c1) = (tr, conn', l', c) →
    fresh tr ∧ (l' = l ∧ taken tr = [])) as Hskip.
  { intros _ [= <- <- <- <-]. rewrite <-(app_nil_r t1), Ht. split; [by apply Hf|done]. }
  destruct c1; try (by apply Hskip in H as [? ?]; auto). clear Hskip.
  destruct (ci_get it) as [[raw md]|r].
  - destruct (split_framed raw) as [[b m]|e] eqn:Hs.
    + destruct (ci_commit it) as [r|].
      * pose proof (consumer_handler_quiet r (ci_disc it)) as Hh.
        destruct (consumer_handler r (ci_disc it)) as [[t4 c4] conn4]. simplify_eq.
        destruct Hh as [Hh Hh']. rewrite <-!app_assoc, Ht. split; [by apply Hf|].
        left. split; [done|]. simpl. done.
      * simplify_eq. rewrite <-app_assoc, Ht. split; [by apply Hf|].
        right. exists m, (ci_now it). split; [done|]. simpl. by rewrite Hs.
    + simplify_eq. rewrite <-app_assoc, Ht. split; [by apply Hf|]. by left.
  - case_bool_decide; [simplify_eq; rewrite Ht; split; [by apply Hf|by left]|].
    pose proof (consumer_handler_quiet r (ci_disc it)) as Hh.
    destruct (consumer_handler r (ci_disc it)) as [[t4 c4] conn4]. simplify_eq.
    rewrite <-app_assoc, Ht. split; [by apply Hf|]. left. split; [done|]. simpl. apply Hh.
Qed.

(** ** The invariants of a run *)

(** The thread has neither returned nor raised. *)
Definition going (sd : side) : Prop :=
  match sd with SDone | SFailed _ => False | _ => True end.

Definition failed (sd : side) : Prop := ∃ e, sd = SFailed e.

Definition producer_ok (s : FlowState) : Prop :=
  ∃ msgs, producer_inv msgs (fs_ptrace s) (fs_p s) (fs_ledger s) ∧
    (going (fs_pside s) → seq_ok (length msgs) (fs_p s)).

Definition consumer_ok (s : FlowState) : Prop :=
  logged CONFIRMED (fs_ledger s) = taken (fs_ctrace s) ∧
  Forall (λ e, le_event e = SENT ∨ le_event e = CONFIRMED) (fs_ledger s).

(** [_guarded] recorded exactly the sides that failed, and STOP is set if one did. *)
Definition errors_ok (s : FlowState) : Prop :=
  (∀ e, (u "producer", e) ∈ fs_errors s ↔ fs_pside s = SFailed e) ∧
  (∀ e, (u "consumer", e) ∈ fs_errors s ↔ fs_cside s = SFailed e) ∧
  (fs_errors s ≠ [] → fs_stop s = true) ∧
  Forall (λ ne, ne.1 = u "producer" ∨ ne.1 = u "consumer") (fs_errors s).

Lemma producer_inv_consumed msgs tr st l e :
  producer_inv msgs tr st l → le_event e = CONFIRMED →
  producer_inv msgs tr st (ledger_append l e).
Proof.
  intros [] He. split; try done. unfold ledger_append. rewrite logged_app.
  destruct e; simpl in He; subst. unfold logged. simpl. by rewrite app_nil_r.
Qed.

Lemma producer_inv_closed msgs tr st l conn d :
  producer_inv msgs tr st l → producer_inv msgs (tr ++ close_side conn d) st l.
Proof.
  unfold close_side. destruct conn; [|by rewrite app_nil_r].
  intros []. split; try done; [by rewrite landed_app, app_nil_r|].
  by rewrite puts_app, app_nil_r.
Qed.

Lemma producer_inv_flushed msgs tr p l mono l' :
  producer_inv msgs tr p l →
  producer_inv msgs (tr ++ [CFlush l']) (mk_pstate (ps_conn p) (ps_seq p) (ps_pending p) mono) l.
Proof.
  intros []. split; try done; [by rewrite landed_app, app_nil_r|].
  by rewrite puts_app, app_nil_r.
Qed.

Lemma producer_ok_step nomsg cfg s t : producer_ok s → producer_ok (flow_step nomsg cfg s t).
Proof.
  intros (msgs & Hp & Hseq).
  destruct t as [keep disc|it|written mono|disc|it|]; simpl; [| | | | |by exists msgs].
  - destruct (fs_pside s) eqn:Hrun; try (by exists msgs; rewrite Hrun).
    case_match; exists msgs; [|rewrite app_nil_r || simpl; rewrite app_nil_r; by split].
    split; [by apply producer_inv_closed|done].
  - destruct (fs_pside s) eqn:Hrun; try (by exists msgs; rewrite Hrun).
    destruct (producer_turn _ _ _ _) as [[[[tr st'] l'] c] due] eqn:Ht.
    apply producer_turn_effect in Ht as [Hf Heff].
    destruct (producer_inv_turn _ _ _ _ _ _ _ _ Hp (Hseq I) Hf Heff) as (msgs' & Hp' & Hseq').
    exists msgs'. split; simpl.
    + rewrite app_assoc. destruct c; simpl; rewrite ?app_nil_r; try done.
      by apply producer_inv_closed.
    + destruct Hseq' as [|[e ->]]; [done|by intros []].
  - destruct (fs_pside s) eqn:Hrun; try (by exists msgs; rewrite Hrun).
    exists msgs. destruct written; simpl; [|by rewrite app_nil_r; split].
    split; [by apply producer_inv_flushed|]. intros _. by apply Hseq.
  - destruct (fs_cside s); try (by exists msgs). case_match; by exists msgs.
  - destruct (fs_cside s); try (by exists msgs).
    destruct (consumer_turn _ _ _ _ _) as [[[tr conn'] l'] c] eqn:Ht.
    apply consumer_turn_effect in Ht as [_ Heff]. exists msgs. split; [simpl|done].
    destruct Heff as [[-> _]|(m & now & -> & _ & _)]; [done|by apply producer_inv_consumed].
Qed.

Lemma taken_closed tr conn d : taken (tr ++ close_side conn d) = taken tr.
Proof. destruct conn; simpl; [by rewrite taken_app, app_nil_r|by rewrite app_nil_r]. Qed.

Lemma consumer_ok_step nomsg cfg s t : consumer_ok s → consumer_ok (flow_step nomsg cfg s t).
Proof.
  intros [Hc Ho].
  destruct t as [keep disc|it|written mono|disc|it|]; simpl; [| | | | |done].
  - destruct (fs_pside s); try done. by case_match.
  - destruct (fs_pside s); try done.
    destruct (producer_turn _ _ _ _) as [[[[tr st'] l'] c] due] eqn:Ht.
    apply producer_turn_effect in Ht as [_ Heff].
    unfold consumer_ok. simpl. rewrite <-Hc. destruct Heff; subst l'; try done.
    unfold ledger_append. rewrite logged_app, app_nil_r, Forall_app, Forall_singleton. auto.
  - destruct (fs_pside s); try done. by destruct written.
  - destruct (fs_cside s); try done.
    case_match; unfold consumer_ok; simpl; by rewrite ?taken_closed, ?app_nil_r.
  - destruct (fs_cside s); try done.
    destruct (consumer_turn _ _ _ _ _) as [[[tr conn'] l'] c] eqn:Ht.
    apply consumer_turn_effect in Ht as [Hf Heff]. unfold consumer_ok. simpl.
    assert (taken (fs_ctrace s ++ tr ++ (if is_break c then close_side conn' (ci_disc it) else []))
      = taken (fs_ctrace s) ++ taken tr) as ->.
    { rewrite app_assoc. destruct (is_break c); rewrite ?taken_closed, ?app_nil_r;
        by apply taken_app. }
    rewrite <-Hc. destruct Heff as [[-> ->]|(m & now & -> & -> & _)]; [by rewrite app_nil_r|].
    unfold ledger_append. rewrite logged_app, Forall_app, Forall_singleton. auto.
Qed.

(** A step of a thread that is still going leaves the errors exact. *)
Lemma set_producer_errors s p sd tr l :
  errors_ok s → going (fs_pside s) → errors_ok (set_producer s p sd tr l).
Proof.
  intros (Hp & Hc & Hstop & Hn) Hg. unfold errors_ok, set_producer. simpl.
  destruct sd as [| | | |e']; simpl; rewrite ?app_nil_r.
  1-4: split_and!; try done; intros e; rewrite Hp; destruct (fs_pside s); done.
  split_and!; [| |done|].
  - intros e. rewrite elem_of_app, list_elem_of_singleton, Hp. destruct (fs_pside s); naive_solver.
  - intros e. rewrite elem_of_app, list_elem_of_singleton, Hc. naive_solver.
  - apply Forall_app. split; [done|]. constructor; [by left|done].
Qed.

Lemma set_consumer_errors s conn sd tr l :
  errors_ok s → going (fs_cside s) → errors_ok (set_consumer s conn sd tr l).
Proof.
  intros (Hp & Hc & Hstop & Hn) Hg. unfold errors_ok, set_consumer. simpl.
  destruct sd as [| | | |e']; simpl; rewrite ?app_nil_r.
  1-4: split_and!; try done; intros e; rewrite Hc; destruct (fs_cside s); done.
  split_and!; [| |done|].
  - intros e. rewrite elem_of_app, list_elem_of_singleton, Hp. naive_solver.
  - intros e. rewrite elem_of_app, list_elem_of_singleton, Hc. destruct (fs_cside s); naive_solver.
  - apply Forall_app. split; [done|]. constructor; [by right|done].
Qed.

Lemma errors_ok_step nomsg cfg s t : errors_ok s → errors_ok (flow_step nomsg cfg s t).
Proof.
  intros H. destruct t as [keep disc|it|written mono|disc|it|]; simpl;
    [| | | | |by destruct H as (? & ? & _ & ?)].
  1-3: destruct (fs_pside s) eqn:Hp; try done; repeat case_match;
    apply set_producer_errors; first [done|by rewrite Hp].
  all: destruct (fs_cside s) eqn:Hp; try done; repeat case_match;
    apply set_consumer_errors; first [done|by rewrite Hp].
Qed.

Lemma flow_run_inv nomsg cfg (P : FlowState → Prop) s ts :
  (∀ s t, P s → P (flow_step nomsg cfg s t)) → P s → P (flow_run nomsg cfg s ts).
Proof. intros Hstep. unfold flow_run. revert s. induction ts; simpl; auto. Qed.

Lemma producer_ok_init t : producer_ok (flow_init t).
Proof.
  exists []. split; [|done]. split; try done. by exists [], [].
Qed.

(** How many entries a thread may still append once STOP is set: one, when it is in a body. *)
Definition inside (sd : side) : nat := match sd with SInside => 1 | _ => 0 end.

(** The entries appended once STOP is set come from the bodies then under way, one each at
    most; and a failure is final. *)
Definition wound_up (s s' : FlowState) (es : Ledger) : Prop :=
  fs_ledger s' = fs_ledger s ++ es ∧
  length (logged SENT es) + inside (fs_pside s') ≤ inside (fs_pside s) ∧
  length (logged CONFIRMED es) + inside (fs_cside s') ≤ inside (fs_cside s) ∧
  length es = length (logged SENT es) + length (logged CONFIRMED es) ∧
  (∀ e, fs_pside s = SFailed e → fs_pside s' = SFailed e) ∧
  (∀ e, fs_cside s = SFailed e → fs_cside s' = SFailed e).

Lemma stopped_step nomsg cfg s t :
  fs_stop s = true →
  fs_stop (flow_step nomsg cfg s t) = true ∧ ∃ es, wound_up s (flow_step nomsg cfg s t) es.
Proof.
  intros Hs.
  assert (Hq : ∀ s', fs_ledger s' = fs_ledger s →
    inside (fs_pside s') ≤ inside (fs_pside s) → inside (fs_cside s') ≤ inside (fs_cside s) →
    (∀ e, fs_pside s = SFailed e → fs_pside s' = SFailed e) →
    (∀ e, fs_cside s = SFailed e → fs_cside s' = SFailed e) → ∃ es, wound_up s s' es).
  { intros s' Hl ????. exists []. unfold wound_up. rewrite Hl, app_nil_r. by split_and!. }
  assert (∃ es, wound_up s s es) as Hid by (by apply Hq).
  destruct t as [keep disc|it|written mono|disc|it|]; simpl.
  1-3: destruct (fs_pside s) eqn:Hp; try done.
  4-5: destruct (fs_cside s) eqn:Hp; try done.
  - rewrite Hs. split; [done|]. apply Hq; simpl; rewrite ?Hp; simpl; (done || lia).
  - destruct (producer_turn _ _ _ _) as [[[[tr st'] l'] c] due] eqn:Ht.
    apply producer_turn_effect in Ht as [_ Heff]. split; [by destruct (after_body c due)|].
    destruct Heff; subst l'.
    1-2: apply Hq; simpl; rewrite ?Hp; try done; simpl; destruct (after_body c due); simpl; lia.
    subst c. eexists. unfold wound_up, ledger_append. simpl. rewrite Hp.
    split_and!; try done; simpl; destruct due; simpl; lia.
  - destruct written; (split; [done|]); apply Hq; simpl; try done; rewrite ?Hp; simpl; (done || lia).
  - rewrite Hs. split; [done|]. apply Hq; simpl; rewrite ?Hp; simpl; (done || lia).
  - destruct (consumer_turn _ _ _ _ _) as [[[tr conn'] l'] c] eqn:Ht.
    apply consumer_turn_effect in Ht as [_ Heff]. split; [by destruct (after_body c false)|].
    destruct Heff as [[-> _]|(m & now & -> & _ & ->)].
    + apply Hq; simpl; rewrite ?Hp; try done; simpl; destruct (after_body c false); simpl; lia.
    + eexists. unfold wound_up, ledger_append. simpl. rewrite Hp. split_and!; try done; simpl; lia.
  - split; [done|]. by apply Hq.
Qed.

Lemma wound_up_trans s s' s'' es es' :
  wound_up s s' es → wound_up s' s'' es' → wound_up s s'' (es ++ es').
Proof.
  intros (Hl & Hp & Hc & Hn & Hfp & Hfc) (Hl' & Hp' & Hc' & Hn' & Hfp' & Hfc'). unfold wound_up.
  rewrite Hl', Hl, !logged_app, !length_app, app_assoc. split_and!; auto; lia.
Qed.

Lemma stopped_run nomsg cfg s ts :
  fs_stop s = true →
  fs_stop (flow_run nomsg cfg s ts) = true ∧ ∃ es, wound_up s (flow_run nomsg cfg s ts) es.
Proof.
  unfold flow_run. revert s. induction ts as [|t ts IH]; intros s Hs; simpl.
  - split; [done|]. exists []. unfold wound_up. rewrite app_nil_r. by split_and!.
  - destruct (stopped_step nomsg cfg s t Hs) as [Hs' [es Hes]].
    destruct (IH _ Hs') as [Hs'' [es' Hes']]. split; [done|].
    exists (es ++ es'). by eapply wound_up_trans.
Qed.

(** The sequence numbers of the numbered messages are 1, ..., n. *)
Lemma numbered_fst msgs : (numbered msgs).*1 = seqZ 1 (Z.of_nat (length msgs)).
Proof.
  unfold numbered, seqZ. rewrite Nat2Z.id. rewrite fmap_imap.
  apply list_eq. intros i. rewrite list_lookup_imap, list_lookup_fmap.
  destruct (msgs !! i) eqn:Hi; simpl.
  - rewrite lookup_seq_lt by (by eapply lookup_lt_Some). simpl. f_equal. lia.
  - rewrite lookup_seq_ge by (by apply lookup_ge_None). done.
Qed.

Lemma sent_seqs_logged l : sent_seqs l = list_to_set ((logged SENT l).*1).
Proof. unfold sent_seqs, seqs_of, logged. by rewrite <-list_fmap_compose. Qed.

(** ** Properties *)

(** C1. Whatever the queue manager, the clock and the interleaving with the
    consumer do, the producer sends 1, 2, 3, ... with no gap and no re-keying: the
    SENT entries are the messages numbered from 1, one each, in order; each was put
    and committed cleanly exactly once as the frame of its number and uuid; and the
    payloads ever handed to MQPUT are those frames in order, each repeated without
    another one in between, followed by attempts at the single pending message. *)
Theorem producer_no_loss_no_rekey nomsg cfg t0 ts :
  let s := flow_run nomsg cfg (flow_init t0) ts in
  ∃ msgs ks tail,
    framed msgs ∧ logged SENT (fs_ledger s) = numbered msgs ∧
    sent_seqs (fs_ledger s) = list_to_set (seqZ 1 (Z.of_nat (length msgs))) ∧
    landed (fs_ptrace s) = msgs.*2 ∧
    length ks = length msgs ∧ puts (fs_ptrace s) = attempts_of msgs ks ++ tail ∧
    in_flight (length msgs) (ps_pending (fs_p s)) tail.
Proof.
  intros s.
  destruct (flow_run_inv nomsg cfg producer_ok (flow_init t0) ts) as (msgs & [? Hl ? H] & _).
  { apply producer_ok_step. } { apply producer_ok_init. }
  destruct H as (ks & tail & ?). exists msgs, ks, tail.
  rewrite sent_seqs_logged. fold s in Hl. rewrite Hl, numbered_fst. naive_solver.
Qed.

(** C2. A CONFIRMED entry is recorded for exactly the replies that were got, parsed
    as DRv1 bodies and at once committed, all cleanly, in that order; a get or a
    commit that failed, or was in doubt, records nothing. *)
Theorem consumer_confirms_committed nomsg cfg t0 ts :
  let s := flow_run nomsg cfg (flow_init t0) ts in
  logged CONFIRMED (fs_ledger s) = taken (fs_ctrace s) ∧
  ∀ e, e ∈ fs_ledger s → le_event e = SENT ∨ le_event e = CONFIRMED.
Proof.
  intros s. destruct (flow_run_inv nomsg cfg consumer_ok (flow_init t0) ts) as [Hc Ho].
  { apply consumer_ok_step. } { by split. }
  split; [done|]. by apply Forall_forall.
Qed.

Lemma errors_ok_run nomsg cfg t0 ts : errors_ok (flow_run nomsg cfg (flow_init t0) ts).
Proof.
  apply (flow_run_inv nomsg cfg errors_ok); [apply errors_ok_step|].
  split_and!; try done; by intros e; rewrite elem_of_nil.
Qed.

Lemma errors_of_sides s :
  errors_ok s → fs_errors s ≠ [] ↔ failed (fs_pside s) ∨ failed (fs_cside s).
Proof.
  intros (Hp & Hc & _ & Hn). split.
  - destruct (fs_errors s) as [|[n e] es]; [done|]. intros _.
    apply Forall_cons in Hn as [[Hn|Hn] _]; simpl in Hn; subst n;
      [left; exists e; apply Hp|right; exists e; apply Hc]; by left.
  - intros [[e He]|[e He]] Hes; rewrite Hes in *; [apply Hp in He|apply Hc in He];
      by apply elem_of_nil in He.
Qed.

(** C40. The flow fails loud. Its exit status is 1 when the ledger could not be written at the
    end or a side has failed by the time [main] tests for errors (an unexpected MQ reason, a
    message that cannot be framed or parsed, a periodic flush that could not be written), and 0
    otherwise. A failure is recorded under its side's name and is final, STOP is set by it, and
    whatever is scheduled afterwards, the ledger gains at most one entry: the other side's, and
    only when that side was in the body of a turn already. At its next test it is over. *)
Theorem flow_fails_loud nomsg cfg t0 during drain written late later :
  let run := flow_run nomsg cfg (flow_init t0) in
  let s3 := run ((during ++ TStop :: drain) ++ late ++ later) in
  let code := exit_status (flow_main nomsg cfg t0 during drain written late later) in
  (code = 0%Z ∨ code = 1%Z) ∧
  (code = 1%Z ↔ written = false ∨ failed (fs_pside s3) ∨ failed (fs_cside s3)) ∧
  ∀ ts, let s := run ts in
    (∀ e, (u "producer", e) ∈ fs_errors s ↔ fs_pside s = SFailed e) ∧
    (∀ e, (u "consumer", e) ∈ fs_errors s ↔ fs_cside s = SFailed e) ∧
    (failed (fs_pside s) ∨ failed (fs_cside s) → fs_stop s = true ∧ ∀ more,
       let s' := run (ts ++ more) in
       (failed (fs_pside s) → fs_pside s' = fs_pside s ∧
          ∃ es, fs_ledger s' = fs_ledger s ++ es ∧ logged SENT es = [] ∧
            length es + inside (fs_cside s') ≤ inside (fs_cside s)) ∧
       (failed (fs_cside s) → fs_cside s' = fs_cside s ∧
          ∃ es, fs_ledger s' = fs_ledger s ++ es ∧ logged CONFIRMED es = [] ∧
            length es + inside (fs_pside s') ≤ inside (fs_pside s)) ∧
       (∀ keep disc, fs_pside s' = SRunning →
          fs_pside (flow_step nomsg cfg s' (TTestProducer keep disc)) = SDone) ∧
       (∀ disc, fs_cside s' = SRunning →
          fs_cside (flow_step nomsg cfg s' (TTestConsumer disc)) = SDone)).
Proof.
  intros run s3 code. split_and!.
  - unfold code, flow_main. destruct written; simpl; [|by right]. destruct (fs_errors _); auto.
  - rewrite <-(errors_of_sides s3) by apply errors_ok_run.
    unfold code, s3, run, flow_main, flow_run. rewrite !foldl_app.
    destruct written; simpl; [|tauto]. case_match; naive_solver.
  - intros ts s. pose proof (errors_ok_run nomsg cfg t0 ts) as Hok. fold run in Hok. fold s in Hok.
    split_and!; [apply Hok..|]. intros Hf. apply (errors_of_sides s Hok) in Hf.
    assert (fs_stop s = true) as Hs by (by apply Hok). split; [done|]. intros more s'.
    destruct (stopped_run nomsg cfg s more Hs) as [Hs' (es & Hl & Hp & Hc & Hn & Hfp & Hfc)].
    assert (flow_run nomsg cfg s more = s') as Heq
      by (unfold s', s, run, flow_run; by rewrite foldl_app).
    rewrite Heq in Hs', Hl, Hp, Hc, Hfp, Hfc.
    split_and!.
    + intros [e He]. rewrite He in *. rewrite (Hfp _ eq_refl) in *. split; [done|].
      exists es. simpl in *. split_and!; [done|apply nil_length_inv; lia|lia].
    + intros [e He]. rewrite He in *. rewrite (Hfc _ eq_refl) in *. split; [done|].
      exists es. simpl in *. split_and!; [done|apply nil_length_inv; lia|lia].
    + intros keep disc Hr. simpl. by rewrite Hr, Hs'.
    + intros disc Hr. simpl. by rewrite Hr, Hs'.
Qed.

(** A commit in doubt, then a lost connection, then success: the same payload is put
    three times, recorded once, and then the second message follows. *)
Definition demo_flow_cfg : FlowCfg := mk_flow_cfg (u "SVC.REQUEST") (u "APP.REPLY") [1%N].

Definition demo_turn (uuid : text) (commit : option reason) : list turn :=
  [TTestProducer true None;
   TProducer (mk_piter [ConnectFails 2059; Connected] None uuid None commit None None
     (float_of_Z 1) (float_of_Z 1))].

Example in_doubt_resend :
  let s := flow_run 2033 demo_flow_cfg (flow_init (float_of_Z 0))
             (demo_turn (u "aa") (Some 2549%Z) ++ demo_turn (u "bb") (Some 2009%Z) ++
              demo_turn (u "cc") None ++ demo_turn (u "dd") None) in
  logged SENT (fs_ledger s) = [(1%Z, u "aa"); (2%Z, u "dd")] ∧
  frame 1 (u "aa") = Ok (u "pw      APP01   SVC     20260608DRv1|1|aa|20260608|MSG-1") ∧
  (length (puts (fs_ptrace s)) = 4 ∧ length (landed (fs_ptrace s)) = 2).
Proof. by vm_compute. Qed.

(** The consumer is inside a turn when the producer fails: it still confirms its reply, and
    only that one. *)
Example failure_in_flight :
  let raw := u "pw      APP01   SVC     20260608DRv1|7|aa|20260608|MSG-7" in
  let ok := TConsumer (mk_citer [Connected] None (Ok (raw, mk_md [] [] 0 0 [] 0 0 0)) None None None (float_of_Z 1)) in
  let s := flow_run 2033 demo_flow_cfg (flow_init (float_of_Z 0))
             ([TTestConsumer None] ++ demo_turn (u "aa") (Some 2035%Z) ++
              [ok; TTestConsumer None; ok; TTestConsumer None; ok]) in
  fs_errors s = [(u "producer", MQMIError 2035)] ∧
  logged CONFIRMED (fs_ledger s) = [(7%Z, u "aa")] ∧ fs_cside s = SDone.
Proof. by vm_compute. Qed.
