(* ===== verification/Responder.v ===== *)
(** * The service-side Watcher responder

    Models [mqrc/dr_responder.py]: [_serve], the get/reply/commit loop on one
    connection, and [_run], which rebuilds lost connections and backs out on any
    other error, as functions of what the queue manager, the clock and the file system
    answer. *)

From S2P Require Import Prelude PyText PyCodec PyFloat Ledger Wire Mqi.

Record SvcCfg := mk_svc_cfg { sv_qm : text; sv_in_queue : text; sv_out_queue : text }.

(** What the world answers during one turn of [_serve]'s loop. *)
Record RIter := mk_riter {
    ri_keep : bool; ri_get : res reason (bytes * MD); ri_dl : DlAnswers;
    ri_put : option reason; ri_commit : option reason; ri_received_at : float;
    ri_replied_at : float; ri_mono : float;
    ri_written : bool;    (* a flush of the ledger, if one is due, is written *)
    ri_mono_flush : float
  }.

(** How [_serve] ends: it returned at the deadline, it raised, or the inputs ran
    out (the service is observed up to there). *)
Inductive served := Returned | Raised (e : exn) | Serving.

Section responder.
(** [CMQC.MQRC_NO_MSG_AVAILABLE], [CMQC.MQFB_APPL_FIRST], [DLH.pack]. *)
Context (NO_MSG_AVAILABLE MQFB_APPL_FIRST : Z) (dlh_pack : Dlh → bytes).

(** The errors after which the loop goes on: nothing was recorded, the message
    is got again. *)
Definition keeps_serving (r : reason) : bool := is_retry_inplace r || is_interrupted r.

(** The header and echoed body of one reply. *)
Definition reply_of (msg : WireMessage) (body : bytes) : res exn bytes :=
  h ← map_err HeaderValueError
      (Header.pack_header (u "pw") (u "SVC") (u "APP01") (wm_session_date msg));
  header ← of_option BodyValueError (utf8_encode h);
  Ok (header ++ body).

(** [except ibmmq.MQMIError as e: ... raise] around the calls of a turn. *)
Definition on_error (e : exn) : ctl :=
  match e with
  | MQMIError r => if keeps_serving r then Continue else Raise e
  | _ => Raise e
  end.

(** One turn of the loop, its deadline test included: calls, ledger, exit. *)
Definition serve_turn (cfg : SvcCfg) (it : RIter) (l : Ledger) :
  list call * Ledger * ctl :=
  if negb (ri_keep it) then ([], l, Break)
  else
  let t1 := [CGet (ri_get it)] in
  match ri_get it with
  | Err r =>
      if bool_decide (r = NO_MSG_AVAILABLE) then (t1, l, Continue)
      else (t1, l, on_error (MQMIError r))
  | Ok (raw, req_md) =>
      match split_framed raw with
      | Err why =>
          let '(t2, a) := dead_letter dlh_pack (sv_qm cfg) (sv_in_queue cfg) req_md raw
                            MQFB_APPL_FIRST (u "dr-responder") (NotDRv1 why) (ri_dl it) in
          match a with
          | Err e => (t1 ++ t2, l, on_error e)
          | Ok _ =>
              (t1 ++ t2 ++ [CCommit (ri_commit it)], l,
               match ri_commit it with
               | Some r => on_error (MQMIError r)
               | None => Continue
               end)
          end
      | Ok (body, msg) =>
          match reply_of msg body with
          | Err e => (t1, l, Raise e)
          | Ok reply =>
              let put := CPut (sv_out_queue cfg) reply (md_correl_id req_md) (ri_put it) in
              match ri_put it with
              | Some r => (t1 ++ [put], l, on_error (MQMIError r))
              | None =>
                  let t3 := t1 ++ [put; CCommit (ri_commit it)] in
                  match ri_commit it with
                  | Some r => (t3, l, on_error (MQMIError r))
                  | None =>
                      (t3,
                       ledger_append
                         (ledger_append l
                            (mk_entry RECEIVED (wm_seq msg) (wm_uuid msg) (ri_received_at it)))
                         (mk_entry REPLIED (wm_seq msg) (wm_uuid msg) (ri_replied_at it)),
                       Continue)
                  end
              end
          end
      end
  end.

(** The flush after a turn that recorded (the ledger has grown): the new [last_flush], or the
    OSError of the write. *)
Definition flush_after (it : RIter) (l l' : Ledger) (last_flush : float) :
  list call * res exn float :=
  if (length l <? length l') && fltb (float_of_Z 2) (fsub (ri_mono it) last_flush)
  then if ri_written it then ([CFlush l'], Ok (ri_mono_flush it)) else ([], Err LedgerNotWritten)
  else ([], Ok last_flush).

(** [_serve]: the loop over its turns. *)
Fixpoint serve (cfg : SvcCfg) (its : list RIter) (l : Ledger) (last_flush : float) :
  list call * Ledger * served :=
  match its with
  | [] => ([], l, Serving)
  | it :: rest =>
    let '(t1, l1, c) := serve_turn cfg it l in
    match c with
    | Continue | Blocked =>
        match flush_after it l l1 last_flush with
        | (t2, Err e) => (t1 ++ t2, l1, Raised e)
        | (t2, Ok last_flush') =>
            let '(t3, l3, o) := serve cfg rest l1 last_flush' in (t1 ++ t2 ++ t3, l3, o)
        end
    | Break => (t1, l1, Returned)
    | Raise e => (t1, l1, Raised e)
    end
  end.

(** One turn of [_run]'s loop: a connection and the service on it. [se_backout] is
    the answer to the backout of the except clause, [se_disc] to the disconnect. *)
Record Session := mk_session {
  se_keep : bool; se_attempts : list attempt; se_open_in : option reason;
  se_open_out : option reason; se_start : float; se_iters : list RIter;
  se_backout : option reason; se_disc : option reason
  }.

(** The two [Queue] objects, then the loop. *)
Definition serve_session (cfg : SvcCfg) (se : Session) (l : Ledger) :
  list call * Ledger * served :=
  match se_open_in se with
  | Some r => ([COpen (sv_in_queue cfg) (Some r)], l, Raised (MQMIError r))
  | None =>
    match se_open_out se with
    | Some r => ([COpen (sv_in_queue cfg) None; COpen (sv_out_queue cfg) (Some r)], l,
                 Raised (MQMIError r))
    | None =>
        let '(tr, l', o) := serve cfg (se_iters se) l (se_start se) in
        (COpen (sv_in_queue cfg) None :: COpen (sv_out_queue cfg) None :: tr, l', o)
    end
  end.

(** [except MQMIError as e: if e.reason not in RECONNECT: raise]. *)
Definition lost_connection (e : exn) : bool :=
  match e with MQMIError r => is_reconnect r | _ => false end.

(** The loop of [_run], the backout of its except clause and the disconnect of its finally
    clause. *)
Fixpoint run_loop (cfg : SvcCfg) (ses : list Session) (l : Ledger) :
  list call * Ledger * served :=
  match ses with
  | [] => ([], l, Serving)
  | se :: rest =>
    if negb (se_keep se) then ([], l, Returned)
    else
      match connect_retry (se_attempts se) with
      | (t1, Err e) => (t1, l, Raised e)
      | (t1, Ok None) => (t1, l, Serving)
      | (t1, Ok (Some false)) => (t1, l, Returned)
      | (t1, Ok (Some true)) =>
          let '(t2, l2, o) := serve_session cfg se l in
          match o with
          | Serving => (t1 ++ t2, l2, Serving)
          | Returned => (t1 ++ t2 ++ [CDisconnect (se_disc se)], l2, Returned)
          | Raised e =>
              if lost_connection e then
                let '(t3, l3, o3) := run_loop cfg rest l2 in
                (t1 ++ t2 ++ CDisconnect (se_disc se) :: t3, l3, o3)
              else
                (t1 ++ t2 ++ [CBackout (se_backout se); CDisconnect (se_disc se)], l2,
                 Raised e)
          end
      end
  end.

(** [_run]: the loop, then the write of the ledger that ends the finally clause; an OSError of
    it replaces whatever ended the loop. *)
Definition run (cfg : SvcCfg) (ses : list Session) (l : Ledger) (written : bool) :
  list call * Ledger * served :=
  let '(tr, l', o) := run_loop cfg ses l in
  match o with
  | Serving => (tr, l', o)
  | _ => if written then (tr ++ [CFlush l'], l', o) else (tr, l', Raised LedgerNotWritten)
  end.

(** [main]: the exit code, and whether an exception escapes it. *)
Definition responder_main (cfg : SvcCfg) (ses : list Session) (written : bool) :
  Ledger * option (res exn (Z * nat)) :=
  let '(_, l, o) := run cfg ses [] written in
  (l, match o with
    | Serving => None
    | Returned => Some (Ok (0%Z, size (dom (svc_receive_counts l))))
    | Raised (NoDeadLetterQueueError q w) => Some (Ok (1%Z, 0))
    | Raised e => Some (Err e)
    end).
End responder.

(** ** What a trace shows *)

Section answered.
Context (cfg : SvcCfg).

(** The message a get, reply and commit answered, when the reply is the one the
    code builds and carries the request's CorrelId. *)
Definition answer_to (raw : bytes) (md : MD) (q : text) (p c : bytes) :
  list (Z * text) :=
  match split_framed raw with
  | Ok (body, m) =>
    if bool_decide (q = sv_out_queue cfg)
       && match reply_of m body with Ok p' => bool_decide (p = p') | Err _ => false end
       && bool_decide (c = md_correl_id md)
    then [(wm_seq m, wm_uuid m)] else []
  | Err _ => []
  end.

(** The requests got, answered and committed in three consecutive clean calls. *)
Fixpoint answered (tr : list call) : list (Z * text) :=
  match tr with
  | CGet (Ok (raw, md)) :: ((CPut q p c None :: CCommit None :: _) as rest) =>
    answer_to raw md q p c ++ answered rest
  | _ :: rest => answered rest
  | [] => []
  end.
End answered.

(** A trace that does not start inside a unit of work. *)
Definition outside (tr : list call) : Prop :=
  match tr with CPut _ _ _ _ :: _ | CCommit _ :: _ => False | _ => True end.

Lemma answered_app cfg a b :
  outside b → answered cfg (a ++ b) = answered cfg a ++ answered cfg b.
Proof.
  intros Hb. induction a as [|c a IH]; [done|].
  destruct c as [| | |[[raw md]|r]| | | | | |]; try exact IH.
  destruct a as [|c' a]; [destruct b as [|[]]; done|].
  destruct c' as [| | | |q p i [r|]| | | | |]; try exact IH.
  destruct a as [|c'' a].
  - destruct b as [|[]]; done.
  - destruct c'' as [| | | | | |[r|]| | |]; try exact IH.
    change (answer_to cfg raw md q p i ++ answered cfg ((CPut q p i None :: CCommit None :: a) ++ b)
      = (answer_to cfg raw md q p i ++ answered cfg (CPut q p i None :: CCommit None :: a))
        ++ answered cfg b).
    by rewrite <-app_assoc, <-IH.
Qed.

(** The ledger entries of the answered requests. *)
Definition rows (l : Ledger) : list (Event * (Z * text)) :=
  (λ e, (le_event e, (le_seq e, le_uuid e))) <$> l.

Definition pair_rows (ms : list (Z * text)) : list (Event * (Z * text)) :=
  concat ((λ m, [(RECEIVED, m); (REPLIED, m)]) <$> ms).

Lemma pair_rows_app a b : pair_rows (a ++ b) = pair_rows a ++ pair_rows b.
Proof. unfold pair_rows. by rewrite fmap_app, concat_app. Qed.

(** [dead_letter] gets, answers and commits nothing. *)
Lemma dead_letter_quiet cfg pack qm inq md raw rsn who why a :
  let '(t, _) := dead_letter pack qm inq md raw rsn who why a in
  ∀ g tr, answered cfg (CGet g :: t ++ tr) = answered cfg tr.
Proof.
  unfold dead_letter. destruct (dl_inquire a) as [name|r].
  2:{ by intros [[]|] tr. }
  case_bool_decide; [by intros [[]|] tr|].
  destruct (dl_open a), (dl_put a), (dl_close a); by intros [[]|] [|[] ].
Qed.

Section invariant.
Context (nomsg rsn : Z) (pack : Dlh → bytes).

(** A turn records the request it answered and committed, or nothing. *)
Lemma serve_turn_rows cfg it l tr l' c :
  serve_turn nomsg rsn pack cfg it l = (tr, l', c) →
  outside tr ∧ rows l' = rows l ++ pair_rows (answered cfg tr) ∧
  (l' ≠ l → c = Continue) ∧ c ≠ Blocked.
Proof.
  assert (∀ e, on_error e ≠ Blocked) as He.
  { intros []; simpl; try done. by case_if. }
  unfold serve_turn. intros H. case_if; [simplify_eq; by rewrite app_nil_r|].
  destruct (ri_get it) as [[raw md]|r].
  2:{ by case_bool_decide; simplify_eq; rewrite app_nil_r. }
  destruct (split_framed raw) as [[body m]|why] eqn:Hs.
  - destruct (reply_of m body) as [reply|e] eqn:Hr; [|by simplify_eq; rewrite app_nil_r].
    destruct (ri_put it); [by simplify_eq; rewrite app_nil_r|].
    destruct (ri_commit it); simplify_eq; [by rewrite app_nil_r|].
    split; [done|]. simpl. unfold answer_to. rewrite Hs, Hr, !bool_decide_eq_true_2 by done.
    unfold rows, ledger_append. rewrite !fmap_app, <-app_assoc. done.
  - pose proof (dead_letter_quiet cfg pack (sv_qm cfg) (sv_in_queue cfg) md raw rsn
      (u "dr-responder") (NotDRv1 why) (ri_dl it)) as Hd.
    destruct (dead_letter _ _ _ _ _ _ _ _ _) as [t2 [a|e]]; simplify_eq.
    + cbn [app]. rewrite Hd. split; [done|]. rewrite app_nil_r.
      destruct (ri_commit it); split_and!; apply He || done.
    + rewrite <-(app_nil_r t2). cbn [app]. rewrite Hd, !app_nil_r.
      split_and!; apply He || done.
Qed.

Lemma serve_rows cfg its l lf tr l' o :
  serve nomsg rsn pack cfg its l lf = (tr, l', o) →
  outside tr ∧ rows l' = rows l ++ pair_rows (answered cfg tr).
Proof.
  revert l lf tr l' o. induction its as [|it its IH]; intros l lf tr l' o; simpl.
  { intros [= <- <- <-]. by rewrite app_nil_r. }
  destruct (serve_turn _ _ _ _ _ _) as [[t1 l1] c] eqn:Ht.
  apply serve_turn_rows in Ht as (Ho & Hr & _ & Hb). intros H.
  destruct c; [|simplify_eq; done|simplify_eq; done|done].
  destruct (flush_after it l l1 lf) as [t2 f] eqn:Hfl.
  assert (∀ t3, outside t3 → outside (t2 ++ t3) ∧ answered cfg (t2 ++ t3) = answered cfg t3) as Hf.
  { unfold flush_after in Hfl. repeat case_if; by simplify_eq. }
  destruct f as [lf'|e].
  2:{ simplify_eq. destruct (Hf []) as [Ho2 Ha2]; [done|]. rewrite app_nil_r in Ho2, Ha2.
    split; [by destruct t1 as [|[]]|]. by rewrite answered_app, Ha2, app_nil_r by done. }
  destruct (serve _ _ _ _ _ _ _) as [[t3 l3] o3] eqn:Hs. simplify_eq.
  apply IH in Hs as [Ho3 Hr3]. destruct (Hf _ Ho3) as [Ho2 Ha2].
  split; [by destruct t1 as [|[]]|].
  by rewrite answered_app, Ha2, pair_rows_app, app_assoc, <-Hr by done.
Qed.

Lemma serve_session_rows cfg se l tr l' o :
  serve_session nomsg rsn pack cfg se l = (tr, l', o) →
  outside tr ∧ rows l' = rows l ++ pair_rows (answered cfg tr).
Proof.
  unfold serve_session. intros H.
  destruct (se_open_in se), (se_open_out se);
    try (simplify_eq; by rewrite app_nil_r).
  destruct (serve _ _ _ _ _ _ _) as [[t1 l1] o1] eqn:Hs. simplify_eq.
  apply serve_rows in Hs as [? ?]. done.
Qed.

Lemma connect_outside cfg ats tr :
  outside tr →
  outside ((connect_retry ats).1 ++ tr) ∧
  answered cfg ((connect_retry ats).1 ++ tr) = answered cfg tr.
Proof.
  intros Ht. pose proof (connect_retry_only_connects ats) as Hc.
  induction Hc as [|c cs Hc _ IH]; [done|].
  destruct c; try discriminate. split; [done|apply IH].
Qed.

Lemma run_loop_rows cfg ses l tr l' o :
  run_loop nomsg rsn pack cfg ses l = (tr, l', o) →
  outside tr ∧ rows l' = rows l ++ pair_rows (answered cfg tr).
Proof.
  revert l tr l' o. induction ses as [|se ses IH]; intros l tr l' o; simpl.
  { intros [= <- <- <-]. by rewrite app_nil_r. }
  case_if; [intros [= <- <- <-]; by rewrite app_nil_r|].
  pose proof (connect_outside cfg (se_attempts se)) as Hc.
  destruct (connect_retry _) as [t1 a]. simpl in Hc.
  assert (∀ t2, outside t2 → answered cfg t2 = [] → rows l = rows l' →
    outside (t1 ++ t2) ∧ rows l' = rows l ++ pair_rows (answered cfg (t1 ++ t2))) as Hnil.
  { intros t2 Ho Ha ->. destruct (Hc _ Ho) as [? ->]. by rewrite Ha, app_nil_r. }
  destruct a as [[[]|]|e];
    try (intros [= <- <- <-]; rewrite <-(app_nil_r t1); by apply Hnil).
  clear Hnil. destruct (serve_session _ _ _ _ _ _) as [[t2 l2] o2] eqn:Hs.
  apply serve_session_rows in Hs as [Ho2 Hr2].
  assert (∀ t3, outside t3 → outside (t1 ++ t2 ++ t3) ∧
    pair_rows (answered cfg (t1 ++ t2 ++ t3)) =
    pair_rows (answered cfg t2) ++ pair_rows (answered cfg t3)) as Happ.
  { intros t3 Ht3. assert (outside (t2 ++ t3)) as Ho by (by destruct t2 as [|[]]).
    destruct (Hc _ Ho) as [? ->]. by rewrite answered_app, pair_rows_app. }
  destruct o2 as [|e|].
  - intros [= <- <- <-]. edestruct (Happ [CDisconnect (se_disc se)]) as [? ->];
      [done|]. by rewrite app_nil_r.
  - destruct (lost_connection e).
    + destruct (run_loop _ _ _ _ _ _) as [[t3 l3] o3] eqn:Hrun. intros [= <- <- <-].
      apply IH in Hrun as [Ho3 Hr3]. edestruct (Happ (CDisconnect (se_disc se) :: t3))
        as [? ->]; [done|]. split; [done|]. simpl. by rewrite Hr3, Hr2, app_assoc.
    + intros [= <- <- <-].
      edestruct (Happ [CBackout (se_backout se); CDisconnect (se_disc se)])
        as [? ->]; [done|]. by rewrite app_nil_r.
  - intros [= <- <- <-]. edestruct (Happ []) as [H1 H2]; [done|].
    rewrite !app_nil_r in H1, H2. rewrite H2. simpl in *. by rewrite app_nil_r in *.
Qed.

Lemma run_rows cfg ses l written tr l' o :
  run nomsg rsn pack cfg ses l written = (tr, l', o) →
  rows l' = rows l ++ pair_rows (answered cfg tr).
Proof.
  unfold run. destruct (run_loop _ _ _ _ _ _) as [[t l1] o1] eqn:Hl.
  apply run_loop_rows in Hl as [_ Hr]. intros H.
  destruct o1, written; simplify_eq; try done; by rewrite answered_app, app_nil_r by done.
Qed.
End invariant.

(** ** Properties *)

(** C3. The Watcher's ledger is exact: over any run, lost connections and failures
    included, it grows by one RECEIVED and one REPLIED row, in that order, for each
    request that was got, answered on the reply queue with its own body behind a
    header and under its own CorrelId, and committed, in three consecutive clean
    calls; and by nothing else. *)
Theorem responder_logs_committed nomsg rsn pack cfg ses l written tr l' o :
  run nomsg rsn pack cfg ses l written = (tr, l', o) →
  rows l' = rows l ++ pair_rows (answered cfg tr).
Proof. apply run_rows. Qed.

(** The error a call raised, if it raised one. *)
Definition call_error (c : call) : option reason :=
  match c with
  | CConnect r | COpen _ r | CPut _ _ _ r | CClose r | CCommit r | CBackout r
  | CDisconnect r => r
  | CInquire (Err r) | CGet (Err r) => Some r
  | _ => None
  end.

(** The messages got on the connection since its unit of work last ended. *)
Fixpoint open_unit (acc : list bytes) (tr : list call) : list bytes :=
  match tr with
  | CGet (Ok (raw, _)) :: rest => open_unit (acc ++ [raw]) rest
  | CCommit None :: rest | CBackout None :: rest | CConnect None :: rest => open_unit [] rest
  | _ :: rest => open_unit acc rest
  | [] => acc
  end.

(** The calls whose failure the loop answers by trying again, without a backout. *)
Definition retried (c : call) : bool :=
  match c with
  | CGet _ | CConnect _ => false
  | _ => match call_error c with Some r => keeps_serving r | None => false end
  end.

Definition retries (tr : list call) : nat := length (List.filter retried tr).

Lemma retries_app a b : retries (a ++ b) = retries a + retries b.
Proof. unfold retries. by rewrite List.filter_app, length_app. Qed.

Lemma open_unit_app acc a b : open_unit acc (a ++ b) = open_unit (open_unit acc a) b.
Proof.
  revert acc. induction a as [|c a IH]; intros acc; [done|].
  destruct c as [[]| | |[[]|]| | |[]|[]| |]; simpl; apply IH.
Qed.

Definition is_disconnect (c : call) : bool := match c with CDisconnect _ => true | _ => false end.

(** What a stretch of calls leaves: no more messages in the unit of work than retried calls,
    and one for the call that raised; the error of a lost connection is the last call's. *)
Definition unit_kept (tr : list call) (o : served) : Prop :=
  (∀ acc, length (open_unit acc tr) ≤
     length acc + retries tr + match o with Raised _ => 1 | _ => 0 end) ∧
  (∀ r, o = Raised (MQMIError r) → last tr ≫= call_error = Some r) ∧
  Forall (λ c, is_disconnect c = false) tr.

Definition outcome_of (c : ctl) : served :=
  match c with Break => Returned | Raise e => Raised e | _ => Serving end.

Lemma unit_kept_app a b o : unit_kept a Serving → unit_kept b o → unit_kept (a ++ b) o.
Proof.
  intros (Ha & _ & Fa) (Hb & Lb & Fb). split_and!.
  - intros acc. rewrite open_unit_app, retries_app.
    specialize (Ha acc). specialize (Hb (open_unit acc a)). lia.
  - intros r Hr. specialize (Lb r Hr). rewrite last_app. by destruct (last b).
  - by apply Forall_app.
Qed.

Lemma dead_letter_unit pack qm inq md raw rsn who why a t x :
  dead_letter pack qm inq md raw rsn who why a = (t, x) →
  (∀ acc, open_unit acc t = acc) ∧ Forall (λ c, is_disconnect c = false) t ∧
  ∀ r, x = Err (MQMIError r) → last t ≫= call_error = Some r ∧
    (keeps_serving r = true → 1 ≤ retries t).
Proof.
  unfold dead_letter. destruct (dl_inquire a) as [name|r0]; [|intros [= <- <-]].
  2:{ split_and!; [done|by repeat constructor|]. intros r [= ->]. split; [done|].
    intros Hk. unfold retries. simpl. by rewrite Hk. }
  case_bool_decide; [intros [= <- <-]; split_and!; [done|by repeat constructor|done]|].
  destruct (dl_open a) as [r0|]; [|destruct (dl_put a) as [r0|]; [|destruct (dl_close a) as [r0|]]];
    intros [= <- <-]; (split_and!; [done|by repeat constructor|]); try done.
  all: intros r [= ->]; split; [done|]; intros Hk; unfold retries; simpl; by rewrite Hk.
Qed.

Section stops.
Context (nomsg rsn : Z) (pack : Dlh → bytes).

Lemma serve_turn_unit cfg it l tr l' c :
  serve_turn nomsg rsn pack cfg it l = (tr, l', c) → unit_kept tr (outcome_of c).
Proof.
  assert (∀ t r, (∀ acc, length (open_unit acc t) ≤ S (length acc)) →
    (keeps_serving r = true → ∀ acc, length (open_unit acc t) ≤ length acc + retries t) →
    last t ≫= call_error = Some r → Forall (λ c, is_disconnect c = false) t →
    unit_kept t (outcome_of (on_error (MQMIError r)))) as Herr.
  { intros t r H1 H2 H3 H4. unfold unit_kept. simpl. destruct (keeps_serving r) eqn:Hk; simpl.
    - split_and!; [|done|done]. intros acc. specialize (H2 eq_refl acc). lia.
    - split_and!; [|by intros ? [= <-]|done]. intros acc. specialize (H1 acc). lia. }
  unfold serve_turn. intros H.
  case_if; [simplify_eq; split_and!; [simpl; lia|done|constructor]|].
  destruct (ri_get it) as [[raw md]|r].
  2:{ case_bool_decide; simplify_eq; [split_and!; [simpl; lia|done|by repeat constructor]|].
    apply Herr; [simpl; lia|simpl; lia|done|by repeat constructor]. }
  destruct (split_framed raw) as [[body m]|why].
  - destruct (reply_of m body) as [reply|e] eqn:Hr.
    2:{ simplify_eq. split_and!; [intros acc; simpl; rewrite length_app; simpl; lia| |
          by repeat constructor].
        intros r [= ->]. unfold reply_of in Hr.
        destruct (Header.pack_header _ _ _ _); simpl in Hr; [|discriminate].
        by destruct (utf8_encode _). }
    destruct (ri_put it) as [r|]; [|destruct (ri_commit it) as [r|]]; simplify_eq.
    + apply Herr; [| |done|by repeat constructor].
      * intros acc. simpl. rewrite length_app. simpl. lia.
      * intros Hk acc. unfold retries. simpl. rewrite Hk, length_app. simpl. lia.
    + apply Herr; [| |done|by repeat constructor].
      * intros acc. simpl. rewrite length_app. simpl. lia.
      * intros Hk acc. unfold retries. simpl. rewrite Hk, length_app. simpl. lia.
    + split_and!; [simpl; lia|done|by repeat constructor].
  - destruct (dead_letter _ _ _ _ _ _ _ _ _) as [t2 x] eqn:Hd.
    apply dead_letter_unit in Hd as (Hacc & Hf & Hx).
    destruct x as [[]|e]; simplify_eq.
    + destruct (ri_commit it) as [r|].
      * apply Herr.
        -- intros acc. simpl. rewrite open_unit_app, Hacc. simpl. rewrite length_app. simpl. lia.
        -- intros Hk acc. simpl. rewrite open_unit_app, Hacc. simpl. rewrite length_app.
           change (CGet (Ok (raw, md)) :: t2 ++ [CCommit (Some r)]) with
             ([CGet (Ok (raw, md))] ++ t2 ++ [CCommit (Some r)]).
           rewrite !retries_app. unfold retries at 3. simpl. rewrite Hk. simpl. lia.
        -- by rewrite app_assoc, last_snoc.
        -- constructor; [done|]. apply Forall_app. by repeat constructor.
      * split_and!; [|done|constructor; [done|]; apply Forall_app; by repeat constructor].
        intros acc. simpl. rewrite open_unit_app. simpl. lia.
    + assert (Forall (λ c, is_disconnect c = false) (CGet (Ok (raw, md)) :: t2)) by (by constructor).
      assert (∀ acc, length (open_unit acc (CGet (Ok (raw, md)) :: t2)) ≤ S (length acc)) as H1.
      { intros acc. simpl. rewrite Hacc, length_app. simpl. lia. }
      destruct e as [r| | | | |];
        try (split_and!; [intros acc; specialize (H1 acc); simpl in *; lia|done|done]).
      destruct (Hx r eq_refl) as [Hl Hk]. apply Herr; [done| | |done].
      * intros Hr acc. specialize (Hk Hr). specialize (H1 acc).
        change (CGet (Ok (raw, md)) :: t2) with ([CGet (Ok (raw, md))] ++ t2) in *.
        rewrite retries_app. lia.
      * simpl in *. destruct t2; [done|]. done.
Qed.

Lemma serve_unit cfg its l lf tr l' o :
  serve nomsg rsn pack cfg its l lf = (tr, l', o) → unit_kept tr o.
Proof.
  assert (unit_kept [] Serving) as Hnil by (split_and!; [simpl; lia|done|constructor]).
  revert l lf tr l' o. induction its as [|it its IH]; intros l lf tr l' o; simpl.
  { by intros [= <- <- <-]. }
  destruct (serve_turn _ _ _ _ _ _) as [[t1 l1] c] eqn:Ht.
  assert (Hw := serve_turn_rows _ _ _ _ _ _ _ _ _ Ht). apply serve_turn_unit in Ht. intros H.
  destruct c; [|simplify_eq; done|simplify_eq; done|by destruct Hw as (_ & _ & _ & [])].
  destruct (flush_after it l l1 lf) as [t2 f] eqn:Hfl.
  assert (unit_kept t2 (match f with Ok _ => Serving | Err e => Raised e end)) as Hf.
  { unfold flush_after in Hfl. repeat case_if; simplify_eq;
      (split_and!; [simpl; lia|done|by repeat constructor]). }
  destruct f as [lf'|e]; [|simplify_eq; by apply unit_kept_app].
  destruct (serve _ _ _ _ _ _ _) as [[t3 l3] o3] eqn:Hs. simplify_eq.
  apply IH in Hs. by repeat apply unit_kept_app.
Qed.

Lemma serve_session_unit cfg se l tr l' o :
  serve_session nomsg rsn pack cfg se l = (tr, l', o) → unit_kept tr o.
Proof.
  unfold serve_session. intros H.
  destruct (se_open_in se); [simplify_eq; split_and!; [simpl; lia|by intros ? [= <-]|by repeat constructor]|].
  destruct (se_open_out se); [simplify_eq; split_and!; [simpl; lia|by intros ? [= <-]|by repeat constructor]|].
  destruct (serve _ _ _ _ _ _ _) as [[t1 l1] o1] eqn:Hs. simplify_eq. apply serve_unit in Hs.
  apply (unit_kept_app [_; _]); [split_and!; [simpl; lia|done|by repeat constructor]|done].
Qed.

(** Why a connection is given up at one place of the trace, and what its unit of work then
    holds. *)
Inductive gives_up (acc : list bytes) (pre : list call) (o : served) (last_one : Prop) : Prop :=
  | backed_out pre' b e :
      pre = pre' ++ [CBackout b] → o = Raised e → lost_connection e = false → last_one →
      gives_up acc pre o last_one
  | connection_lost r :
      last pre ≫= call_error = Some r → is_reconnect r = true →
      length (open_unit acc pre) ≤ S (retries pre) → gives_up acc pre o last_one
  | deadline :
      o = Returned → length (open_unit acc pre) ≤ retries pre → last_one →
      gives_up acc pre o last_one.

Lemma gives_up_app acc a pre o lst :
  gives_up (open_unit acc a) pre o lst → gives_up acc (a ++ pre) o lst.
Proof.
  intros [p b e -> -> ? ?|r Hr ? Hle|? Hle ?].
  - by eapply (backed_out _ _ _ _ (a ++ p)); [by rewrite app_assoc|..].
  - apply (connection_lost _ _ _ _ r); [|done|].
    + rewrite last_app. by destruct (last pre).
    + rewrite open_unit_app, retries_app. lia.
  - apply deadline; [done| |done]. rewrite open_unit_app, retries_app. lia.
Qed.

Lemma split_at_disconnect a d0 b pre d post :
  Forall (λ c, is_disconnect c = false) a →
  a ++ CDisconnect d0 :: b = pre ++ CDisconnect d :: post →
  (pre = a ∧ post = b) ∨
  ∃ pre', pre = a ++ CDisconnect d0 :: pre' ∧ b = pre' ++ CDisconnect d :: post.
Proof.
  intros Ha H. apply app_eq_inv in H as [(k & -> & Hk)|(k & -> & Hk)].
  - destruct k as [|c k]; simplify_eq/=; [left; by rewrite app_nil_r|].
    apply Forall_app in Ha as [_ Ha]. by apply Forall_cons in Ha as [Ha _].
  - destruct k as [|c k]; simplify_eq/=; [left; by rewrite app_nil_r|]. right. by exists k.
Qed.

(** What the connects of a session and its service leave, whatever came before. *)
Lemma connected_unit ats t1 t2 o :
  connect_retry ats = (t1, Ok (Some true)) → unit_kept t2 o →
  Forall (λ c, is_disconnect c = false) (t1 ++ t2) ∧
  ∀ acc, length (open_unit acc (t1 ++ t2)) ≤
    retries (t1 ++ t2) + match o with Raised _ => 1 | _ => 0 end.
Proof.
  intros Hc (Hu & _ & Hf). pose proof (connect_retry_trace ats) as Ht.
  pose proof (connect_retry_only_connects ats) as Ho.
  rewrite Hc in Ht, Ho. destruct Ht as (fails & _ & ->). simpl in Ho. split.
  - apply Forall_app. split; [|done]. eapply Forall_impl; [exact Ho|]. by intros [].
  - intros acc. rewrite <-app_assoc, open_unit_app. simpl.
    specialize (Hu []). rewrite retries_app. change (retries (CConnect None :: t2)) with (retries t2).
    simpl in *. lia.
Qed.

Lemma run_loop_stops cfg ses l tr l' o :
  run_loop nomsg rsn pack cfg ses l = (tr, l', o) →
  (∀ e, o = Raised e →
     (lost_connection e = false ∧ ∃ pre b d, tr = pre ++ [CBackout b; CDisconnect d]) ∨
     (∃ r, e = MQMIError r ∧ (r ∉ CONNECT_RETRY) ∧ ∃ pre, tr = pre ++ [CConnect (Some r)])) ∧
  (∀ pre d post, tr = pre ++ CDisconnect d :: post → ∀ acc, gives_up acc pre o (post = [])).
Proof.
  revert l tr l' o. induction ses as [|se ses IH]; intros l tr l' o; simpl.
  { intros [= <- <- <-]. split; [done|]. by intros []. }
  case_if; [intros [= <- <- <-]; split; [done|]; by intros []|].
  pose proof (connect_retry_trace (se_attempts se)) as Hc.
  pose proof (connect_retry_only_connects (se_attempts se)) as Ho.
  destruct (connect_retry _) as [t1 a] eqn:Hat. simpl in Ho.
  assert (∀ pre d post, t1 ≠ pre ++ CDisconnect d :: post) as Hno.
  { intros pre d post ->. apply Forall_app in Ho as [_ Ho]. by apply Forall_cons in Ho as [? _]. }
  destruct a as [[[]|]|e].
  - clear Hc Ho Hno. destruct (serve_session _ _ _ _ _ _) as [[t2 l2] o2] eqn:Hs.
    apply serve_session_unit in Hs.
    destruct (connected_unit _ _ _ _ Hat Hs) as [Hf Hu]. destruct Hs as (_ & Hl & _).
    destruct o2 as [|e|].
    + intros [= <- <- <-]. split; [done|]. intros pre d post H acc. rewrite app_assoc in H.
      apply split_at_disconnect in H as [[-> ->]|(pre' & _ & H)]; [|by destruct pre'|done].
      apply deadline; [done| |done]. specialize (Hu acc). lia.
    + destruct (lost_connection e) eqn:Hlost.
      * destruct (run_loop _ _ _ _ _ _) as [[t3 l3] o3] eqn:Hrun. intros [= <- <- <-].
        destruct (IH _ _ _ _ Hrun) as [IH1 IH2]. split.
        -- intros e' He'. rewrite app_assoc.
           change (CDisconnect (se_disc se) :: t3) with ([CDisconnect (se_disc se)] ++ t3).
           destruct (IH1 _ He') as [(? & pre & b & d & ->)|(r & ? & ? & pre & ->)];
             [left; split; [done|]; eexists _, b, d|right; exists r; split_and!; [done..|]; eexists];
             by rewrite !app_assoc.
        -- intros pre d post H acc. rewrite app_assoc in H.
           apply split_at_disconnect in H as [[-> ->]|(pre' & -> & H)]; [| |done].
           ++ destruct e as [r| | | | |]; try done. specialize (Hl r eq_refl).
              apply (connection_lost _ _ _ _ r); [|done|specialize (Hu acc); lia].
              rewrite last_app. by destruct (last t2).
           ++ change (CDisconnect (se_disc se) :: pre') with ([CDisconnect (se_disc se)] ++ pre').
              rewrite app_assoc. apply gives_up_app. by eapply IH2.
      * intros [= <- <- <-]. split.
        -- intros e' [= <-]. left. split; [done|]. exists (t1 ++ t2). eexists _, _.
           by rewrite app_assoc.
        -- intros pre d post H acc.
           assert ((t1 ++ t2) ++ [CBackout (se_backout se); CDisconnect (se_disc se)] =
             ((t1 ++ t2) ++ [CBackout (se_backout se)]) ++ CDisconnect (se_disc se) :: []) as Heq
             by (by rewrite <-!app_assoc).
           rewrite app_assoc, Heq in H.
           apply split_at_disconnect in H as [[-> ->]|(pre' & _ & H)];
             [by eapply backed_out|by destruct pre'|].
           apply Forall_app. by repeat constructor.
    + intros [= <- <- <-]. split; [done|]. intros pre d post H. rewrite H in Hf.
      apply Forall_app in Hf as [_ Hf]. by apply Forall_cons in Hf as [? _].
  - intros [= <- <- <-]. split; [done|]. intros ??? H. by apply Hno in H.
  - intros [= <- <- <-]. split; [done|]. intros ??? H. by apply Hno in H.
  - intros [= <- <- <-]. destruct Hc as (fails & _ & r & -> & Hr & Ht). split.
    + intros e' [= <-]. right. exists r. split_and!; [done..|]. by eexists.
    + intros ??? H. by apply Hno in H.
Qed.
End stops.

(** A disconnect of a run that is over happened before the last write of the ledger. *)
Lemma before_the_flush t tail pre d post :
  t ++ tail = pre ++ CDisconnect d :: post → tail = [] ∨ (∃ l, tail = [CFlush l]) →
  ∃ post', t = pre ++ CDisconnect d :: post' ∧ (post' = [] → post = tail).
Proof.
  intros H Htail. apply app_eq_inv in H as [(k & -> & Hk)|(k & -> & Hk)].
  - destruct k as [|c k]; simplify_eq/=; [by destruct Htail as [?|[??]]|].
    exists k. split; [done|]. by intros ->.
  - destruct Htail as [->|[l ->]]; by destruct k as [|? [|]].
Qed.


(** A message with no DRv1 body is never recorded and never dropped silently:
    the turn either commits its whole content, behind an MQDLH, to the queue
    manager's dead-letter queue in the same unit of work and goes on serving, or
    commits nothing and either stops with an error or, its last call having failed
    with an error it retries, goes on; with no dead-letter queue it always stops. *)
Theorem foreign_message_dead_lettered nomsg rsn pack cfg it l raw md why :
  ri_keep it = true → ri_get it = Ok (raw, md) → split_framed raw = Err why →
  let '(tr, l', c) := serve_turn nomsg rsn pack cfg it l in
  l' = l ∧
  ((∃ name h, mqchar name ≠ [] ∧ c = Continue ∧
      tr = [CGet (Ok (raw, md)); CInquire (Ok name); COpen (mqchar name) None;
            CPut (mqchar name) (pack h ++ raw) (md_correl_id md) None; CClose None;
            CCommit None]) ∨
   (CCommit None ∉ tr) ∧
     match c with
     | Raise _ => True
     | Continue => ∃ r, last tr ≫= call_error = Some r ∧ keeps_serving r = true
     | _ => False
     end) ∧
  (∀ name, dl_inquire (ri_dl it) = Ok name → mqchar name = [] →
     c = Raise (NoDeadLetterQueueError (sv_qm cfg) (NotDRv1 why))).
Proof.
  intros Hk Hg Hs. unfold serve_turn, dead_letter. rewrite Hk, Hg, Hs.
  assert (∀ tr r (Q : Prop), (CCommit None ∉ tr) → last tr ≫= call_error = Some r → Q →
    l = l ∧ ((∃ name h, mqchar name ≠ [] ∧ on_error (MQMIError r) = Continue ∧
      tr = [CGet (Ok (raw, md)); CInquire (Ok name); COpen (mqchar name) None;
            CPut (mqchar name) (pack h ++ raw) (md_correl_id md) None; CClose None;
            CCommit None]) ∨
      (CCommit None ∉ tr) ∧ match on_error (MQMIError r) with
        | Raise _ => True
        | Continue => ∃ r, last tr ≫= call_error = Some r ∧ keeps_serving r = true
        | _ => False
        end) ∧ Q) as Hfail.
  { intros tr r Q Htr Hl HQ. split_and!; [done| |done]. right. split; [done|]. simpl.
    destruct (keeps_serving r) eqn:?; eauto. }
  destruct (dl_inquire (ri_dl it)) as [name|r]; [|apply Hfail; [set_solver|done|done]].
  cbv zeta. case_bool_decide as Hn.
  { split_and!; [done| |naive_solver]. right. split; [set_solver|done]. }
  assert (∀ c name', Ok name = Ok (E := reason) name' → mqchar name' = [] →
    c = Raise (NoDeadLetterQueueError (sv_qm cfg) (NotDRv1 why))) as Hd by naive_solver.
  destruct (dl_open (ri_dl it)); [apply Hfail; [set_solver|done|apply Hd]|].
  destruct (dl_put (ri_dl it)); [apply Hfail; [set_solver|done|apply Hd]|].
  destruct (dl_close (ri_dl it)); [apply Hfail; [set_solver|done|apply Hd]|].
  destruct (ri_commit it); [apply Hfail; [set_solver|done|apply Hd]|].
  split_and!; [done| |apply Hd]. left. eauto.
Qed.

(** ** What the model shows wrong *)

(** A DRv1 message whose session date does not fit the reply header's
    eight-character field stops the responder: building the reply raises the
    ValueError nothing catches, so the message is neither answered, dead-lettered
    nor recorded. *)
Theorem long_session_date_stops nomsg rsn pack cfg it l raw md body msg :
  ri_keep it = true → ri_get it = Ok (raw, md) → split_framed raw = Ok (body, msg) →
  Header.FIELD < length (wm_session_date msg) →
  serve_turn nomsg rsn pack cfg it l =
    ([CGet (Ok (raw, md))], l,
     Raise (HeaderValueError (Header.FieldTooLong (u "session_date")))).
Proof.
  intros Hk Hg Hs Hlen. unfold serve_turn, reply_of. rewrite Hk, Hg, Hs.
  assert (Header.check_field (u "session_date") (wm_session_date msg) =
          Err (Header.FieldTooLong (u "session_date"))) as Hc.
  { unfold Header.check_field. by rewrite (proj2 (Nat.ltb_lt _ _) Hlen). }
  unfold Header.pack_header. rewrite Hc. done.
Qed.

Definition demo_cfg : SvcCfg := mk_svc_cfg (u "PCMKSVC") (u "SVC.REQUEST") (u "APP.REPLY").
Definition demo_md : MD := mk_md [1%N] [2%N] 546 1208 (u "MQSTR") 8 1 0.
Definition demo_dl : DlAnswers :=
  mk_dl (Ok (u "SYSTEM.DEAD.LETTER.QUEUE  ")) None None None (u "20260608") (u "12000000").
Definition demo_raw : bytes := u "pw      APP01   SVC     20260608DRv1|7|ab|20260608|MSG-7".

Definition demo_iter (get : res reason (bytes * MD)) (put commit : option reason) : RIter :=
  mk_riter true get demo_dl put commit (float_of_Z 1) (float_of_Z 1) (float_of_Z 1) true
    (float_of_Z 1).

Definition demo_session (its : list RIter) : Session :=
  mk_session true [ConnectFails 2059; Connected] None None (float_of_Z 0) its None None.

(** The queue manager starts to quiesce between the get of a request and the put of
    its reply, then ends the connection. *)
Definition quiesced : list Session :=
  [demo_session [demo_iter (Ok (demo_raw, demo_md)) (Some 2161%Z) None;
                 demo_iter (Err 2202%Z) None None];
   demo_session [demo_iter (Err 2033%Z) None None]].

(** On the rebuild path the open unit of work is not backed out: a request got
    before a reply put that failed with MQRC_Q_MGR_QUIESCING is still in the unit
    of work when MQRC_CONNECTION_QUIESCING makes the responder disconnect, and no
    reply to it was put, nothing was dead-lettered and nothing was recorded. *)
Theorem rebuild_disconnects_open_unit :
  ∃ pre post l',
    run 2033 65536 (λ _, []) demo_cfg quiesced [] true =
      (pre ++ CDisconnect None :: post, l', Serving) ∧
    open_unit [] pre = [demo_raw] ∧ l' = [] ∧ answered demo_cfg pre = [] ∧
    Forall (λ c, ∀ b, c ≠ CBackout b) pre.
Proof.
  eexists [_; _; _; _; _; _; _], _, _. split; [by vm_compute|].
  split_and!; try (by vm_compute). by repeat constructor.
Qed.

(** ** Witnesses *)

(** One request served, one foreign message dead-lettered, then the deadline. *)
Definition demo_run_sessions : list Session :=
  [demo_session [demo_iter (Ok (demo_raw, demo_md)) None None;
                 demo_iter (Ok (u "hello", demo_md)) None None;
                 mk_riter false (Err 2033%Z) demo_dl None None (float_of_Z 1) (float_of_Z 1)
                   (float_of_Z 1) true (float_of_Z 1)]].

Lemma responder_logs_committed_witness :
  let '(tr, l', o) := run 2033 65536 (λ _, []) demo_cfg demo_run_sessions [] true in
  o = Returned ∧ answered demo_cfg tr = [(7%Z, u "ab")] ∧
  rows l' = rows [] ++ pair_rows (answered demo_cfg tr).
Proof.
  destruct (run 2033 65536 (λ _, []) demo_cfg demo_run_sessions [] true) as [[tr l'] o] eqn:H.
  split_and!.
  - vm_compute in H. by injection H as <- <- <-.
  - vm_compute in H. by injection H as <- <- <-.
  - exact (responder_logs_committed _ _ _ _ _ _ _ _ _ _ H).
Defined.

(** A request in hand when the put of its reply is refused for good. *)
Definition refused : list Session := [demo_session [demo_iter (Ok (demo_raw, demo_md)) (Some 2035%Z) None]].


Lemma foreign_message_dead_lettered_witness :
  let it := demo_iter (Ok (u "hello", demo_md)) None None in
  (serve_turn 2033 65536 (λ _, []) demo_cfg it []).2 = Continue ∧
  (serve_turn 2033 65536 (λ _, []) demo_cfg it []).1.2 = [].
Proof.
  intros it. split; [by vm_compute|].
  pose proof (foreign_message_dead_lettered 2033 65536 (λ _, []) demo_cfg it [] (u "hello")
    demo_md (NoMarker (u "hello")) eq_refl eq_refl ltac:(by vm_compute)) as H.
  destruct (serve_turn _ _ _ _ _ _) as [[tr l'] c]. apply H.
Defined.

Lemma long_session_date_stops_witness :
  let raw := u "pw      APP01   SVC     20260608DRv1|7|ab|2026-06-08|MSG-7" in
  serve_turn 2033 65536 (λ _, []) demo_cfg (demo_iter (Ok (raw, demo_md)) None None) [] =
    ([CGet (Ok (raw, demo_md))], [],
     Raise (HeaderValueError (Header.FieldTooLong (u "session_date")))).
Proof.
  intros raw.
  apply (long_session_date_stops _ _ _ _ _ _ raw demo_md (drop 32 raw)
    (mk_wire 7 (u "ab") (u "2026-06-08") (u "MSG-7"))); [done|done|by vm_compute|].
  vm_compute. lia.
Defined.
