(* ===== verification/Orchestrator.v ===== *)
(** * The run loop of the lab tool

    Models [mqlab/runner.py] (commands), the step side of [mqlab/perf.py] and
    [mqlab/orchestrator.py]: a verb's command steps run in order, each with a
    bounded retry, the run failing loud at the first step that stays failed. What a
    command does is outside the model: each attempt's exit code and clock readings
    are inputs, and what the run shows, sleeps and records are outputs. *)

From S2P Require Import Prelude PyText PyCodec PyFloat PyDict.

(** ** runner.py *)

Record Command := mk_command {
    cmd_argv : list text;
    cmd_cwd : option text;
    cmd_env : option (list (text * text))
  }.

(** [Command.display]. *)
Definition display (c : Command) : text := str_join (u " ") (cmd_argv c).

(** The child's environment: the command's own over the inherited one. *)
Definition child_env (environ : list (text * text)) (c : Command) :
    option (list (text * text)) :=
  match cmd_env c with
  | Some (kv :: env) => Some (foldl (λ d p, dset d p.1 p.2) environ (kv :: env))
  | _ => None
  end.

(** ** RetryPolicy *)

Record RetryPolicy := mk_policy {
    attempts : Z; base_delay : float; backoff : float; max_delay : float
  }.

(** The ValueErrors of [__post_init__]. *)
Inductive PolicyError := BadAttempts (n : Z) | NegativeDelay (base backoff max : float).

Definition check_policy (p : RetryPolicy) : res PolicyError RetryPolicy :=
  _ ← raise_if (attempts p <? 1)%Z (BadAttempts (attempts p));
  _ ← raise_if (fltb (base_delay p) fzero || fltb (backoff p) fzero || fltb (max_delay p) fzero)
        (NegativeDelay (base_delay p) (backoff p) (max_delay p));
  Ok p.

Record CommandStep := mk_step {
    st_label : text; st_command : Command; st_retry : option RetryPolicy; st_phase : text
  }.

(** ** perf.py: what the run loop feeds *)

Record StepTiming := mk_timing {
    tm_phase : text; tm_label : text; tm_seconds : float; tm_retries : nat; tm_ok : bool
  }.

(** ** The run loop *)

(** One execution of a command: its exit code, and the clock before and after. *)
Record Attempt := mk_attempt { at_exit : Z; at_started : float; at_ended : float }.

Definition elapsed (a : Attempt) : float := fsub (at_ended a) (at_started a).

(** What a run does, in order. [ORetry] is the note shown and written before a
    retry, [OPerf] a call of the perf sink. *)
Inductive output :=
  | OCommand (line : text)
  | ORun (c : Command)
  | ORetry (label : text) (attempt : nat) (attempts exit_code : Z) (delay : float)
  | OSleep (delay : float)
  | OFail (label : text) (exit_code : Z)
  | OOk (label : text) (seconds : float)
  | OPerf (t : StepTiming)
  | OPause
  | OSummary (completed total : nat) (seconds : float).

(** [StepFailedError], or the OverflowError of [backoff ** (retry - 1)]. *)
Inductive run_error :=
  | StepFailedError (label : text) (exit_code : Z) (seconds : float) (retries : nat)
  | DelayOverflow.

(** How one step ends: its seconds and retries, an error, or the inputs ran out
    while it was still being attempted. *)
Inductive step_end := SDone (seconds : float) (retries : nat) | SError (e : run_error) | SOpen.

Section run.
(** [backoff ** (retry - 1)] in binary64; [None] is OverflowError. *)
Context (fpow : float → nat → option float).

(** [RetryPolicy.delay_before]. *)
Definition delay_before (p : RetryPolicy) (retry : nat) : option float :=
  f ← fpow (backoff p) (retry - 1); Some (fmin (fmul (base_delay p) f) (max_delay p)).

(** [_run_step_with_retry], with [n] attempts made: what it outputs, how it ends and
    the attempts left over. *)
Fixpoint run_attempts (step : CommandStep) (n : nat) (ats : list Attempt) :
  list output * step_end * list Attempt :=
  match ats with
  | [] => ([], SOpen, [])
  | a :: rest =>
    let attempt := S n in
    let run := ORun (st_command step) in
    if (at_exit a =? 0)%Z then ([run], SDone (elapsed a) (attempt - 1), rest)
    else
      let fail := ([run; OFail (st_label step) (at_exit a)],
                   SError (StepFailedError (st_label step) (at_exit a) (elapsed a) (attempt - 1)),
                   rest) in
      match st_retry step with
      | None => fail
      | Some policy =>
          if (attempts policy <=? Z.of_nat attempt)%Z then fail
          else
            match delay_before policy attempt with
            | None => ([run], SError DelayOverflow, rest)
            | Some delay =>
                let '(out, e, spare) := run_attempts step attempt rest in
                (run :: ORetry (st_label step) attempt (attempts policy) (at_exit a) delay
                 :: OSleep delay :: out, e, spare)
            end
      end
  end.

Definition run_step (step : CommandStep) (ats : list Attempt) :
  list output * step_end * list Attempt := run_attempts step 0 ats.

(** How a run ends. *)
Inductive run_end := RDone | RError (e : run_error) | ROpen.

(** The loop of [run_steps] from its [index]-th step on. *)
Fixpoint run_from (step_mode : bool) (total completed : nat) (elapsed_total : float)
  (steps : list CommandStep) (ats : list Attempt) : list output * run_end :=
  match steps with
  | [] => ([OSummary completed total elapsed_total], RDone)
  | step :: rest =>
    let '(out, e, spare) := run_step step ats in
    let head := OCommand (display (st_command step)) :: out in
    match e with
    | SOpen => (head, ROpen)
    | SError (StepFailedError label code seconds retries as err) =>
        (head ++ [OPerf (mk_timing (st_phase step) (st_label step) seconds retries false)],
         RError err)
    | SError err => (head, RError err)
    | SDone seconds retries =>
        let '(out', e') :=
          run_from step_mode total (S completed) (fadd elapsed_total seconds) rest spare in
        (head ++ OOk (st_label step) seconds
           :: OPerf (mk_timing (st_phase step) (st_label step) seconds retries true)
           :: (if step_mode && (S completed <? total) then [OPause] else []) ++ out', e')
    end
  end.

(** [run_steps]: [index] is [completed + 1] throughout. *)
Definition run_steps (steps : list CommandStep) (step_mode : bool) (ats : list Attempt) :
  list output * run_end :=
  run_from step_mode (length steps) 0 fzero steps ats.

(** ** Observations *)

Definition runs (out : list output) : list Command :=
  omap (λ o, match o with ORun c => Some c | _ => None end) out.

Definition sleeps (out : list output) : list float :=
  omap (λ o, match o with OSleep d => Some d | _ => None end) out.

Definition timings (out : list output) : list StepTiming :=
  omap (λ o, match o with OPerf t => Some t | _ => None end) out.

(** The tries a step is allowed. *)
Definition allowed (step : CommandStep) : nat :=
  match st_retry step with Some p => Z.to_nat (attempts p) | None => 1 end.

Definition policy_ok (step : CommandStep) : Prop :=
  match st_retry step with Some p => (1 ≤ attempts p)%Z | None => True end.

(** The delays before retries [n+1 .. n+k]. *)
Definition delays (step : CommandStep) (n k : nat) : list (option float) :=
  match st_retry step with
  | Some p => delay_before p <$> seq (S n) k
  | None => []
  end.

(** ** One step *)

Lemma runs_cons_run c out : runs (ORun c :: out) = c :: runs out.
Proof. done. Qed.

(** A step's attempts from the [n]-th on: the commands run, the delays slept and the
    attempts used. *)
Lemma run_attempts_spec step n ats out e spare :
  policy_ok step → n < allowed step →
  run_attempts step n ats = (out, e, spare) →
  ∃ used, ats = used ++ spare ∧ runs out = replicate (length used) (st_command step) ∧
  timings out = [] ∧ n + length used ≤ allowed step ∧
  match e with
  | SDone s r => ∃ fails a, used = fails ++ [a] ∧ Forall (λ a, at_exit a ≠ 0%Z) fails ∧
      at_exit a = 0%Z ∧ s = elapsed a ∧ r = n + length fails ∧
      Some <$> sleeps out = delays step n (length fails)
  | SError (StepFailedError label code s r) => ∃ fails a, used = fails ++ [a] ∧
      Forall (λ a, at_exit a ≠ 0%Z) used ∧ n + length used = allowed step ∧
      label = st_label step ∧ code = at_exit a ∧ s = elapsed a ∧ r = n + length fails ∧
      Some <$> sleeps out = delays step n (length fails)
  | SError DelayOverflow => Forall (λ a, at_exit a ≠ 0%Z) used ∧
      None ∈ delays step n (length used)
  | SOpen => spare = [] ∧ Forall (λ a, at_exit a ≠ 0%Z) used ∧
      n + length used < allowed step ∧ Some <$> sleeps out = delays step n (length used)
  end.
Proof.
  intros Hok. revert n out e spare. induction ats as [|a ats IH]; intros n out e spare Hn; simpl.
  - intros [= <- <- <-]. exists []. unfold delays.
    split_and!; try done; try (simpl; lia). by destruct (st_retry step).
  - destruct (Z.eqb_spec (at_exit a) 0) as [H0|H0].
    + intros [= <- <- <-]. exists [a]. split_and!; try done; [simpl; lia|].
      exists [], a. split_and!; try done; [simpl; lia|].
      unfold delays. by destruct (st_retry step).
    + unfold policy_ok, allowed, delays in *. destruct (st_retry step) as [p|] eqn:Hp.
      2:{ intros [= <- <- <-]. exists [a]. split_and!; try done; [simpl; lia|].
        exists [], a. split_and!; try done; try (simpl in *; lia); by constructor. }
      destruct (Z.leb_spec (attempts p) (Z.of_nat (S n))).
      { intros [= <- <- <-]. exists [a]. split_and!; try done; [simpl; lia|].
        exists [], a. split_and!; try done; try (simpl in *; lia); by constructor. }
      destruct (delay_before p (S n)) as [d|] eqn:Hd.
      2:{ intros [= <- <- <-]. exists [a]. split_and!; try done; [simpl; lia|by constructor|].
        simpl. rewrite Hd. by left. }
      destruct (run_attempts step (S n) ats) as [[out' e'] spare'] eqn:Hrec.
      intros [= <- <- <-].
      destruct (IH (S n) out' e' spare') as (used & -> & Hr & Ht & Hle & He);
        [lia|done|]. exists (a :: used).
      split_and!; [done|simpl; by rewrite <-Hr|done|simpl; lia|].
      destruct e' as [s r|[label code s r|]|].
      * destruct He as (fails & b & -> & ? & ? & ? & ? & Hsl). exists (a :: fails), b.
        split_and!; try done; try (simpl in *; lia); [by constructor|]. csimpl. by rewrite Hd, Hsl.
      * destruct He as (fails & b & -> & ? & ? & ? & ? & ? & ? & Hsl). exists (a :: fails), b.
        split_and!; try done; try (simpl in *; lia); [by constructor|].
        csimpl. by rewrite Hd, Hsl.
      * destruct He as [? ?]. split; [by constructor|]. csimpl. by right.
      * destruct He as (? & ? & ? & Hsl). split_and!; [done|by constructor|simpl; lia|].
        csimpl. by rewrite Hd, Hsl.
Qed.

(** The waits of a step are capped by its policy. *)
Lemma fmin_capped x m : is_nan m = false → is_nan (fmin x m) = false → fleb (fmin x m) m = true.
Proof.
  intros Hm Hd. unfold fmin in *. destruct (fltb m x) eqn:H.
  - by destruct (fleb_total m m Hm Hm).
  - rewrite fltb_fleb in H by done. by apply negb_false_iff.
Qed.

Lemma delays_capped step p n k d :
  st_retry step = Some p → is_nan (max_delay p) = false →
  Some d ∈ delays step n k → is_nan d = false → fleb d (max_delay p) = true.
Proof.
  intros Hp Hm. unfold delays. rewrite Hp, list_elem_of_fmap.
  intros (i & Hd & _). unfold delay_before in Hd.
  destruct (fpow _ _); [|done]. injection Hd as ->. by apply fmin_capped.
Qed.

(** ** The whole run *)

(** Step by step, how many times its command ran. *)
Definition runs_of (steps : list CommandStep) (counts : list nat) : list Command :=
  concat (zip_with (λ st c, replicate c (st_command st)) steps counts).

Definition summaries (out : list output) : list (nat * nat) :=
  omap (λ o, match o with OSummary c t _ => Some (c, t) | _ => None end) out.

Lemma run_attempts_no_summary step n ats : summaries (run_attempts step n ats).1.1 = [].
Proof.
  revert n. induction ats as [|a ats IH]; intros n; simpl; [done|].
  case_match; [done|]. case_match; [|done]. case_match; [done|].
  case_match; [|done]. specialize (IH (S n)).
  destruct (run_attempts step (S n) ats) as [[? ?] ?]. done.
Qed.

(** What the timings of a run show when its first [k] steps succeeded and, with
    [failed], the next one failed. *)
Definition timed (steps : list CommandStep) (k : nat) (failed : bool) (ts : list StepTiming) :
  Prop :=
  tm_label <$> ts = st_label <$> take (if failed then S k else k) steps ∧
  tm_phase <$> ts = st_phase <$> take (if failed then S k else k) steps ∧
  tm_ok <$> ts = replicate k true ++ (if failed then [false] else []).

Definition end_spec (steps : list CommandStep) (completed total k : nat)
  (out : list output) (e : run_end) : Prop :=
  match e with
  | RDone => k = length steps ∧ timed steps k false (timings out) ∧
    summaries out = [(completed + length steps, total)]
  | RError (StepFailedError label code _ retries) => ∃ st, steps !! k = Some st ∧
    label = st_label st ∧ code ≠ 0%Z ∧ S retries = allowed st ∧
    timed steps k true (timings out) ∧ summaries out = []
  | RError DelayOverflow | ROpen =>
    k < length steps ∧ timed steps k false (timings out) ∧ summaries out = []
  end.

Lemma timings_app a b : timings (a ++ b) = timings a ++ timings b.
Proof. apply omap_app. Qed.
Lemma runs_app a b : runs (a ++ b) = runs a ++ runs b.
Proof. apply omap_app. Qed.
Lemma summaries_app a b : summaries (a ++ b) = summaries a ++ summaries b.
Proof. apply omap_app. Qed.

(** What a successful step adds to the observations of the rest of the run. *)
Lemma step_done_observed line o lbl s t b out' :
  let out := OCommand line :: o ++ OOk lbl s :: OPerf t
             :: (if b : bool then [OPause] else []) ++ out' in
  runs out = runs o ++ runs out' ∧ timings out = timings o ++ t :: timings out' ∧
  summaries out = summaries o ++ summaries out'.
Proof.
  unfold runs, timings, summaries. simpl. rewrite !omap_app. simpl.
  rewrite !omap_app. by destruct b.
Qed.

(** ... and what a last step shows. *)
Lemma step_over_observed line o ot :
  let out := OCommand line :: o ++ match ot with Some t => [OPerf t] | None => [] end in
  runs out = runs o ∧
  timings out = timings o ++ match ot with Some t => [t] | None => [] end ∧
  summaries out = summaries o.
Proof.
  unfold runs, timings, summaries. simpl. rewrite !omap_app.
  destruct ot; simpl; by rewrite !app_nil_r.
Qed.

Lemma end_spec_cons st steps completed total k out out' e s r :
  end_spec steps (S completed) total k out' e →
  timings out = mk_timing (st_phase st) (st_label st) s r true :: timings out' →
  summaries out = summaries out' →
  end_spec (st :: steps) completed total (S k) out e.
Proof.
  unfold end_spec, timed. intros He Ht Hs. rewrite Hs, Ht.
  assert (∀ n, completed + S n = S completed + n) as Hn by lia.
  destruct e as [|[lbl code s' r'|]|]; csimpl; rewrite ?Hn.
  - destruct He as (-> & (-> & -> & ->) & ->). done.
  - destruct He as (st' & ? & ? & ? & ? & (-> & -> & ->) & ->). eauto 10.
  - destruct He as (? & (-> & -> & ->) & ->). split; [lia|done].
  - destruct He as (? & (-> & -> & ->) & ->). split; [lia|done].
Qed.

Lemma run_from_spec step_mode total completed tot steps ats out e :
  Forall policy_ok steps →
  run_from step_mode total completed tot steps ats = (out, e) →
  ∃ k counts, runs out = runs_of steps counts ∧ length counts ≤ S k ∧
  Forall2 (λ st c, c ≤ allowed st) (take (length counts) steps) counts ∧
  (e = ROpen → length ats < sum_list_with allowed steps) ∧
  end_spec steps completed total k out e.
Proof.
  intros Hok. revert completed tot ats out e.
  induction Hok as [|st steps Hst Hok IH]; intros completed tot ats out e; cbn [run_from].
  { intros [= <- <-]. exists 0, []. unfold end_spec, timed. simpl. rewrite Nat.add_0_r.
    split_and!; (done || lia || constructor). }
  assert (0 < allowed st) as Hpos.
  { unfold policy_ok, allowed in *. destruct (st_retry st); lia. }
  destruct (run_step st ats) as [[o es] spare] eqn:Hrun. unfold run_step in Hrun.
  pose proof (run_attempts_no_summary st 0 ats) as Hsum. rewrite Hrun in Hsum. simpl in Hsum.
  destruct (run_attempts_spec _ _ _ _ _ _ Hst Hpos Hrun)
    as (used & -> & Hr & Ht & Hle & He).
  destruct es as [s r|err|].
  { destruct (run_from _ _ _ _ steps spare) as [out' e'] eqn:Hrest. intros [= <- <-].
    destruct (IH _ _ _ _ _ Hrest) as (k & counts & Hruns & Hk & Hall & Hopen & Hend).
    destruct (step_done_observed (display (st_command st)) o (st_label st) s
      (mk_timing (st_phase st) (st_label st) s r true)
      (step_mode && (S completed <? total)) out') as (Or & Ot & Os).
    exists (S k), (length used :: counts).
    split_and!; [by rewrite Or, Hr, Hruns|simpl; lia|constructor; [simpl in *; lia|done]| |].
    - intros ->. specialize (Hopen eq_refl). rewrite length_app. simpl in *. lia.
    - eapply end_spec_cons; [done|by rewrite Ot, Ht|by rewrite Os, Hsum]. }
  all: assert (runs_of (st :: steps) [length used] = runs o ∧
    Forall2 (λ st c, c ≤ allowed st) (take 1 (st :: steps)) [length used]) as [Hru Hcnt]
    by (split; [unfold runs_of; simpl; rewrite zip_with_nil_r; simpl;
    by rewrite Hr, app_nil_r|
    constructor; [simpl in *; lia|constructor]]).
  - destruct err as [lbl code s r|]; intros [= <- <-]; exists 0, [length used]; rewrite Hru.
    + destruct (step_over_observed (display (st_command st)) o
        (Some (mk_timing (st_phase st) (st_label st) s r false))) as (Or & Ot & Os).
      destruct He as (fails & a & -> & Hf & Hn & -> & -> & -> & -> & _).
      rewrite Forall_app, Forall_singleton in Hf. rewrite length_app in Hn. simpl in Hn.
      split_and!; try done. exists st. unfold timed. rewrite Os, Ot, Ht.
      split_and!; try done; [apply Hf|lia].
    + destruct (step_over_observed (display (st_command st)) o None) as (Or & Ot & Os).
      rewrite !app_nil_r in Or, Ot, Os. split_and!; try done.
      unfold end_spec, timed. rewrite Os, Ot, Ht. split_and!; try done. simpl. lia.
  - intros [= <- <-]. exists 0, [length used]. rewrite Hru.
    destruct (step_over_observed (display (st_command st)) o None) as (Or & Ot & Os).
    rewrite !app_nil_r in Or, Ot, Os. destruct He as (-> & _ & Hlt & _).
    split_and!; try done; [intros _; rewrite app_nil_r; simpl in *; lia|].
    unfold end_spec, timed. rewrite Os, Ot, Ht. split_and!; try done. simpl. lia.
Qed.
End run.

(** ** Properties *)

(** A step is tried at most as often as its policy allows, and stops at the
    first success: it succeeds exactly when some allowed try exits 0, with the
    retries it took; it fails only after all its tries failed, with the last exit
    code; and between tries it waits exactly the policy's delays, in order, none
    above the policy's cap. *)
Theorem step_retry_bounded fpow step ats out e spare :
  policy_ok step → run_step fpow step ats = (out, e, spare) →
  ∃ used, ats = used ++ spare ∧ length used ≤ allowed step ∧
    runs out = replicate (length used) (st_command step) ∧
    match e with
    | SDone s r => ∃ fails a, used = fails ++ [a] ∧ Forall (λ a, at_exit a ≠ 0%Z) fails ∧
        at_exit a = 0%Z ∧ s = elapsed a ∧ r = length fails ∧
        Some <$> sleeps out = delays fpow step 0 (length fails)
    | SError (StepFailedError label code s r) => ∃ fails a, used = fails ++ [a] ∧
        Forall (λ a, at_exit a ≠ 0%Z) used ∧ length used = allowed step ∧
        code = at_exit a ∧ s = elapsed a ∧ r = length fails ∧
        Some <$> sleeps out = delays fpow step 0 (length fails)
    | SError DelayOverflow => Forall (λ a, at_exit a ≠ 0%Z) used
    | SOpen => spare = [] ∧ length ats < allowed step
    end ∧
    (∀ p k d, st_retry step = Some p → is_nan (max_delay p) = false → is_nan d = false →
       Some d ∈ delays fpow step 0 k → fleb d (max_delay p) = true).
Proof.
  intros Hok Hrun. unfold run_step in Hrun.
  assert (0 < allowed step) as Hpos.
  { unfold policy_ok, allowed in *. destruct (st_retry step); lia. }
  destruct (run_attempts_spec _ _ _ _ _ _ _ Hok Hpos Hrun)
    as (used & -> & Hr & _ & Hle & He).
  exists used. split_and!; [done|simpl in *; lia|done| |].
  - destruct e as [|[]|]; [naive_solver..|]. destruct He as (-> & _ & ? & _).
    rewrite app_nil_r. split; [done|simpl in *; lia].
  - intros p k d Hp Hm Hd Hin. by eapply delays_capped.
Qed.

(** A run executes its steps in order and halts at the first that fails: only
    steps up to that one have run a command, each within its allowance; every
    finished step is timed once, under its phase and label, the failing one marked
    as failed; the summary is shown exactly when every step succeeded; and given
    as many attempts as the steps allow, the run ends. *)
Theorem run_steps_halts_at_failure fpow steps step_mode ats out e :
  Forall policy_ok steps → run_steps fpow steps step_mode ats = (out, e) →
  ∃ k counts, runs out = runs_of steps counts ∧ length counts ≤ S k ∧
    Forall2 (λ st c, c ≤ allowed st) (take (length counts) steps) counts ∧
    (e = ROpen → length ats < sum_list_with allowed steps) ∧
    end_spec steps 0 (length steps) k out e.
Proof. intros Hok Hrun. by eapply run_from_spec. Qed.

(** ** Witnesses *)

Definition demo_pow (b : float) (n : nat) : option float :=
  Some (Nat.iter n (fmul b) (float_of_Z 1)).

Definition demo_boot : CommandStep :=
  mk_step (u "vms up") (mk_command [u "vagrant"; u "up"] None None)
    (Some (mk_policy 3 (float_of_Z 15) (float_of_Z 2) (float_of_Z 60))) (u "vms").

Definition demo_plain : CommandStep :=
  mk_step (u "provision") (mk_command [u "ansible-playbook"] None None) None (u "provision").

Definition demo_attempt (code : Z) : Attempt := mk_attempt code (float_of_Z 1) (float_of_Z 3).

(** Two failed tries, waits of 15 s and 30 s, then success. *)
Lemma step_retry_bounded_witness :
  let '(out, e, spare) := run_step demo_pow demo_boot (demo_attempt <$> [1; 1; 0; 7]%Z) in
  e = SDone (float_of_Z 2) 2 ∧ sleeps out = [float_of_Z 15; float_of_Z 30] ∧
  ∃ used, demo_attempt <$> [1; 1; 0; 7]%Z = used ++ spare ∧ length used ≤ allowed demo_boot.
Proof.
  destruct (run_step demo_pow demo_boot (demo_attempt <$> [1; 1; 0; 7]%Z))
    as [[out e] spare] eqn:H.
  split_and!; [by vm_compute in H; injection H as <- <- <-..|].
  destruct (step_retry_bounded demo_pow demo_boot _ _ _ _ ltac:(done) H)
    as (used & ? & ? & _). eauto.
Defined.

(** The second step fails: the third never runs. *)
Lemma run_steps_halts_at_failure_witness :
  let '(out, e) := run_steps demo_pow [demo_boot; demo_plain; demo_boot] false
                     (demo_attempt <$> [0; 2; 0]%Z) in
  e = RError (StepFailedError (u "provision") 2 (float_of_Z 2) 0) ∧
  length (runs out) = 2 ∧ summaries out = [].
Proof.
  destruct (run_steps demo_pow [demo_boot; demo_plain; demo_boot] false
    (demo_attempt <$> [0; 2; 0]%Z)) as [out e] eqn:H.
  assert (e = RError (StepFailedError (u "provision") 2 (float_of_Z 2) 0)) as He
    by (by vm_compute in H; injection H as <- <-).
  split_and!; [done|by vm_compute in H; injection H as <- <-|].
  destruct (run_steps_halts_at_failure demo_pow [demo_boot; demo_plain; demo_boot] false _ _ _
    ltac:(by repeat constructor) H) as (k & counts & _ & _ & _ & _ & Hend).
  rewrite He in Hend. destruct Hend as (st & _ & _ & _ & _ & _ & Hs). exact Hs.
Defined.
