(* ===== verification/Lifecycle.v ===== *)
(** * Guest and network state

    Models [mqlab/lifecycle.py], the parsers of virsh's tables in [mqlab/netsel.py]
    and [mqlab/fleet.py], and [mqlab/netstate.py]: what a table virsh printed says
    about a guest or a network, and the textfile and peer map derived from it. *)

From S2P Require Import Prelude PyText PyCodec PyDict.
From Stdlib Require Import ZifyBool ZifyN.

(** ** lifecycle.py *)

Inductive guest_state := ABSENT | OFF | RUNNING.
Inductive net_state := NET_ABSENT | INACTIVE | ACTIVE.

#[global] Instance guest_state_eq_dec : EqDecision guest_state.
Proof. solve_decision. Defined.
#[global] Instance net_state_eq_dec : EqDecision net_state.
Proof. solve_decision. Defined.

Abbreviation states := (list (text * text)) (only parsing).

Definition domain_of (guest : text) : text := u "lab_" ++ guest.

Definition classify (d : states) (guest : text) : guest_state :=
  match dget d (domain_of guest) with
  | None => ABSENT
  | Some raw => if bool_decide (raw = u "running") then RUNNING else OFF
  end.

Definition is_live (d : states) (guest : text) : bool :=
  match dget d (domain_of guest) with
  | None => false
  | Some raw => negb (bool_decide (raw = u "shut off"))
  end.

Definition classify_net (d : states) (net : text) : net_state :=
  match dget d net with
  | None => NET_ABSENT
  | Some raw => if bool_decide (raw = u "active") then ACTIVE else INACTIVE
  end.

(** ** The virsh table parsers *)

(** [not line or line.startswith(h) or set(line) <= {"-"}], on a stripped line. *)
Definition not_a_row (h line : text) : bool :=
  bool_decide (line = []) || startswith line h || forallb (λ c, (c =? 45)%N) line.

(** [netsel.parse_net_states]: name and state lead each row. *)
Definition parse_net_states (out : text) : states :=
  foldl (λ d raw,
    let line := strip raw in
    if not_a_row (u "Name") line then d
    else match split_ws line with
         | name :: state :: _ => dset d name state
         | _ => d
         end) [] (splitlines out).

(** [fleet.parse_domain_states]: an id, the name, then a state of several words. *)
Definition parse_domain_states (out : text) : states :=
  foldl (λ d raw,
    let line := strip raw in
    if not_a_row (u "Id") line then d
    else match split_ws line with
         | _ :: name :: ((_ :: _) as rest) => dset d name (str_join (u " ") rest)
         | _ => d
         end) [] (splitlines out).

(** [netsel.select_nets] and [guestsel.select_guests], over [re.search]. *)
Definition select_names (re_search : text → text → bool) (pattern : text)
    (names : list text) : list text :=
  if bool_decide (pattern = u "all") then names
  else List.filter (λ n, re_search pattern n) names.

(** ** netstate.py *)

Definition net_code (s : net_state) : Z :=
  match s with NET_ABSENT => 0 | INACTIVE => 1 | ACTIVE => 2 end.

Definition quote : text := [34%N].
Definition newline : text := [10%N].

Definition net_state_line (parsed : states) (net : text) : text :=
  u "lab_network_state{network=" ++ quote ++ net ++ quote ++ u "} "
  ++ Z_text (net_code (classify_net parsed net)).

Definition render_net_state_prom (net_names : list text) (parsed : states) : text :=
  str_join newline
    (u "# HELP lab_network_state libvirt network state (0=absent,1=inactive,2=active)"
     :: u "# TYPE lab_network_state gauge"
     :: (net_state_line parsed <$> net_names)) ++ newline.

Definition EXCLUDED_NETS : list text := [u "net-mgmt"].

(** The node's NICs: [((spec or {}).get("nics") or {}).items()], the addresses as
    text. *)
Abbreviation nics := (list (text * text)) (only parsing).

(** One NIC of one host, as [members.setdefault(net, []).append((host, str(ip)))]. *)
Definition add_member (host : text) (members : list (text * list (text * text)))
    (nic : text * text) : list (text * list (text * text)) :=
  if bool_decide (nic.1 ∈ EXCLUDED_NETS) then members
  else dset members nic.1 (dget_or members nic.1 [] ++ [(host, nic.2)]).

Definition net_members (nodes : list (text * nics)) : list (text * list (text * text)) :=
  foldl (λ members node, foldl (add_member node.1) members node.2) [] nodes.

(** The peers of one host on one network. *)
Definition peers_on (hosts : list (text * text)) (host : text) : list (text * text) :=
  List.filter (λ p, negb (bool_decide (p.1 = host))) hosts.

(** [result.setdefault(host, {})[net] = peers]. *)
Definition add_peers (net : text) (hosts : list (text * text))
    (result : list (text * list (text * list (text * text)))) (h : text * text) :
    list (text * list (text * list (text * text))) :=
  match peers_on hosts h.1 with
  | [] => result
  | peers => dset result h.1 (dset (dget_or result h.1 []) net peers)
  end.

Definition net_peers (nodes : list (text * nics)) :
    list (text * list (text * list (text * text))) :=
  foldl (λ result m, foldl (add_peers m.1 m.2) result m.2) [] (net_members nodes).

(** ** Lemmas on words *)

(** Words separated by blanks: each with the blanks before it. *)
Definition padded (ws : list (nat * text)) : text :=
  concat ((λ w, replicate w.1 32%N ++ w.2) <$> ws).

Definition word (w : text) : Prop := w ≠ [] ∧ Forall (λ c, is_space c = false) w.

Lemma split_ws_aux_blanks n s : split_ws_aux [] (replicate n 32%N ++ s) = split_ws_aux [] s.
Proof. induction n; [done|]. simpl. done. Qed.

Lemma split_ws_padded ws :
  Forall (λ w, word w.2) ws → Forall (λ w, 0 < w.1) (tail ws) →
  split_ws (padded ws) = ws.*2.
Proof.
  unfold split_ws. induction ws as [|[n w] ws IH]; [done|]. intros [Hw Hws]%Forall_cons Hpad.
  destruct Hw as [Hne Hsp]. unfold padded in *. csimpl.
  rewrite <-app_assoc, split_ws_aux_blanks, split_ws_aux_word, app_nil_r by done.
  assert (∀ s, split_ws_aux (rev w) (32%N :: s) = w :: split_ws_aux [] s) as Hcut.
  { intros s. cbn [split_ws_aux]. simpl. destruct (rev w) eqn:Hr.
    - apply (f_equal (@rev N)) in Hr. by rewrite rev_involutive in Hr.
    - by rewrite <-Hr, rev_involutive. }
  destruct ws as [|[m w'] ws]; csimpl.
  - destruct (rev w) eqn:Hr; [by apply (f_equal (@rev N)) in Hr; rewrite rev_involutive in Hr|].
    by rewrite <-Hr, rev_involutive.
  - simpl in Hpad. apply Forall_cons in Hpad as [Hm Hpad]. simpl in Hm.
    destruct m as [|m]; [lia|]. cbn [replicate app fst]. rewrite Hcut. f_equal.
    assert (Forall (λ w, 0 < w.1) (tail ((S m, w') :: ws))) as Hp by done.
    specialize (IH Hws Hp). csimpl in IH.
    exact IH.
Qed.

Lemma padded_last ws :
  ws ≠ [] → Forall (λ w, word w.2) ws → ∃ s c, padded ws = s ++ [c] ∧ is_space c = false.
Proof.
  intros Hne Hw. destruct ws as [|[n w] ws _] using rev_ind; [done|].
  apply Forall_app in Hw as [_ [[Hw Hsp] _]%Forall_cons]. simpl in *.
  destruct w as [|c w _] using rev_ind; [done|].
  apply Forall_app in Hsp as [_ [Hc _]%Forall_cons].
  exists (padded ws ++ replicate n 32%N ++ w), c. split; [|done].
  unfold padded. rewrite fmap_app, concat_app. csimpl. by rewrite app_nil_r, !app_assoc.
Qed.

(** [strip] removes exactly the blanks before the first word. *)
Lemma strip_padded n w ws :
  Forall (λ w, word w.2) ((n, w) :: ws) → strip (padded ((n, w) :: ws)) = padded ((0, w) :: ws).
Proof.
  intros Hw. unfold strip, lstrip.
  assert (padded ((n, w) :: ws) = replicate n 32%N ++ padded ((0, w) :: ws)) as ->.
  { unfold padded. csimpl. by rewrite <-app_assoc. }
  rewrite lstrip_by_all by (by apply Forall_replicate).
  assert (lstrip_by is_space (padded ((0, w) :: ws)) = padded ((0, w) :: ws)) as ->.
  { apply Forall_cons in Hw as [[Hne Hsp] _]. simpl in *. destruct w as [|c w]; [done|].
    apply Forall_cons in Hsp as [Hc _]. unfold padded. csimpl. by rewrite Hc. }
  destruct (padded_last ((0, w) :: ws)) as (s & c & -> & Hc); [done| |].
  { apply Forall_cons in Hw as [? ?]. by constructor. }
  unfold rstrip. change [c] with (c :: [])%N. rewrite rstrip_by_app; [done|done|constructor].
Qed.

(** A row of [virsh list --all]: an id, a name and the words of a state, blanks
    between them. *)
Record virsh_row := mk_row {
    vr_id : nat * text; vr_name : nat * text; vr_state : list (nat * text)
  }.

Definition row_words (r : virsh_row) : list (nat * text) := vr_id r :: vr_name r :: vr_state r.

Definition row_ok (r : virsh_row) : Prop :=
  Forall (λ w, word w.2) (row_words r) ∧ Forall (λ w, 0 < w.1) (tail (row_words r)) ∧
  vr_state r ≠ [] ∧ ∃ c s, (vr_id r).2 = c :: s ∧ c ≠ 73%N.

Definition row_state (r : virsh_row) : text := str_join (u " ") (vr_state r).*2.

(** The table virsh prints: a header line, a line of dashes, the rows. *)
Definition domain_table (header : text) (dashes : nat) (rows : list virsh_row) : text :=
  concat ((λ l, l ++ [10%N]) <$>
    (u " Id" ++ header) :: replicate dashes 45%N :: (padded ∘ row_words <$> rows)).

Lemma word_linebreak w : word w → Forall (λ c, is_linebreak c = false) w.
Proof.
  intros [_ H]. eapply Forall_impl; [exact H|]. cbv beta. intros c Hc.
  unfold is_linebreak, is_space in *. lia.
Qed.

Lemma padded_linebreak ws :
  Forall (λ w, word w.2) ws → Forall (λ c, is_linebreak c = false) (padded ws).
Proof.
  induction 1 as [|[n w] ws Hw Hws IH]; [constructor|].
  unfold padded in *. csimpl. rewrite !Forall_app. split_and!; [|by apply word_linebreak|done].
  by apply Forall_replicate.
Qed.

Lemma row_not_skipped r : row_ok r → not_a_row (u "Id") (strip (padded (row_words r))) = false.
Proof.
  intros (Hw & Hp & Hne & c & s & Hid & Hc). unfold row_words in *.
  destruct r as [[n i] [m nm] st]. simpl in *. subst i. rewrite strip_padded by done.
  unfold padded. csimpl. unfold not_a_row. rewrite orb_false_iff, orb_false_iff.
  split_and!; [done| |].
  - apply bool_decide_eq_false. intros [k Hk]. injection Hk as Hk _. done.
  - apply Forall_cons in Hp as [Hm _]. simpl in Hm. destruct m as [|m]; [lia|].
    simpl. rewrite !forallb_app. simpl. by rewrite andb_false_r, andb_false_r.
Qed.

Lemma lstrip_by_suffix p a c b :
  p c = false → ∃ l, lstrip_by p (a ++ c :: b) = l ++ c :: b.
Proof.
  intros Hc. induction a as [|d a [l IH]]; simpl.
  - exists []. by rewrite Hc.
  - destruct (p d); [by exists l|]. by exists (d :: a).
Qed.

Lemma rstrip_by_prefix p s c t :
  p c = false → (s ++ [c]) `prefix_of` rstrip_by p (s ++ c :: t).
Proof.
  intros Hc. unfold rstrip_by. rewrite rev_app_distr. simpl. rewrite <-app_assoc. simpl.
  destruct (lstrip_by_suffix p (rev t) c (rev s) Hc) as [l ->].
  rewrite rev_app_distr. simpl. rewrite rev_involutive. by eexists.
Qed.

Lemma header_skipped h rest :
  Forall (λ c, is_space c = false) h → h ≠ [] →
  not_a_row h (strip (32%N :: h ++ rest)) = true.
Proof.
  intros Hsp Hne. unfold not_a_row, strip, lstrip. rewrite !orb_true_iff. left. right.
  simpl. destruct h as [|c h _] using rev_ind; [done|].
  apply Forall_app in Hsp as Hsp'. destruct Hsp' as [_ [Hc _]%Forall_cons].
  assert (lstrip_by is_space ((h ++ [c]) ++ rest) = (h ++ [c]) ++ rest) as ->.
  { destruct h as [|d h]; [by apply lstrip_by_id|]. apply lstrip_by_id.
    by apply Forall_app in Hsp as [[Hd _]%Forall_cons _]. }
  unfold startswith. apply bool_decide_eq_true. rewrite <-app_assoc. simpl.
  by apply rstrip_by_prefix.
Qed.

Lemma dashes_skipped h n : not_a_row h (strip (replicate n 45%N)) = true.
Proof.
  destruct n as [|n]; [done|].
  assert (word (replicate (S n) 45%N)) as Hw.
  { split; [done|]. by apply Forall_replicate. }
  pose proof (strip_padded 0 (replicate (S n) 45%N) []) as H.
  unfold padded in H. csimpl in H. rewrite app_nil_r in H. cbn [app] in H.
  change (45%N :: replicate n 45%N) with (replicate (S n) 45%N) in H.
  rewrite H by (by constructor).
  unfold not_a_row. rewrite !orb_true_iff. right. apply forallb_forall.
  intros c Hc%list_elem_of_In. by apply elem_of_replicate in Hc as [-> _].
Qed.

(** One row of the table sets the state of its domain. *)
Lemma parse_domain_table header dashes rows :
  Forall row_ok rows → Forall (λ c, is_linebreak c = false) header →
  parse_domain_states (domain_table header dashes rows) =
    foldl (λ d r, dset d (vr_name r).2 (row_state r)) [] rows.
Proof.
  intros Hok Hh. unfold parse_domain_states, domain_table.
  rewrite splitlines_concat.
  2:{ constructor; [|constructor].
    - apply Forall_app. split; [by repeat constructor|done].
    - by apply Forall_replicate.
    - apply Forall_fmap. eapply Forall_impl; [exact Hok|].
      intros r (Hw & _). by apply padded_linebreak. }
  cbn [foldl]. change (u " Id" ++ header) with (32%N :: u "Id" ++ header).
  rewrite header_skipped by (by repeat constructor). rewrite dashes_skipped.
  generalize (@nil (text * text)). induction Hok as [|r rows Hr Hok IH]; intros d; [done|].
  csimpl. rewrite (row_not_skipped r Hr), IH. f_equal.
  destruct Hr as (Hw & Hp & Hne & _). unfold row_words in *.
  destruct r as [[n i] [m nm] st]. simpl in *.
  rewrite strip_padded, split_ws_padded by (done || (apply Forall_cons in Hw as [? ?]; by constructor)).
  destruct st as [|[k w] st]; [done|]. done.
Qed.

(** ** Properties *)

(** The state the lab tool sees is the state virsh printed: for any table of
    [virsh list --all], however its columns are padded, a guest is absent when no
    row names its domain, running when the last row that does says "running", and
    off otherwise; and it is live exactly when that state is not "shut off". *)
Theorem virsh_table_classified header dashes rows guest :
  Forall row_ok rows → Forall (λ c, is_linebreak c = false) header →
  let d := parse_domain_states (domain_table header dashes rows) in
  match List.find (λ r, bool_decide ((vr_name r).2 = domain_of guest)) (rev rows) with
  | None => classify d guest = ABSENT ∧ is_live d guest = false
  | Some r =>
      classify d guest = (if decide (row_state r = u "running") then RUNNING else OFF) ∧
      (is_live d guest = true ↔ row_state r ≠ u "shut off")
  end.
Proof.
  intros Hok Hh d. subst d. rewrite parse_domain_table by done.
  unfold classify, is_live.
  rewrite (foldl_dset_get (λ r, ((vr_name r).2, row_state r)) rows []). simpl.
  destruct (List.find _ _) as [r|]; [|done].
  rewrite negb_true_iff, bool_decide_eq_false. split; [|done].
  case_bool_decide; by case_decide.
Qed.

(** ** Witness *)

Definition demo_rows : list virsh_row :=
  [mk_row (1, u "3") (5, u "lab_qm-a1") [(4, u "running")];
   mk_row (1, u "-") (5, u "lab_qm-b1") [(4, u "shut"); (1, u "off")]].

Lemma virsh_table_classified_witness :
  let d := parse_domain_states (domain_table (u "   Name   State") 40 demo_rows) in
  classify d (u "qm-a1") = RUNNING ∧ classify d (u "qm-b1") = OFF ∧
  classify d (u "qm-c1") = ABSENT.
Proof.
  intros d.
  assert (Forall row_ok demo_rows) as Hrows.
  { repeat constructor; try discriminate; simpl; eexists _, _; (split; [reflexivity|done]). }
  assert (Forall (λ c, is_linebreak c = false) (u "   Name   State")) as Hh
    by (repeat constructor).
  pose proof (λ g, virsh_table_classified (u "   Name   State") 40 demo_rows g Hrows Hh) as H.
  split_and!; [apply (H (u "qm-a1"))|apply (H (u "qm-b1"))|apply (H (u "qm-c1"))].
Defined.
