(* ===== verification/Topology.v ===== *)
(** * The effective topology

    Models [mqlab/topology.py]: which environment profile applies, and the deep
    merge of that profile onto the topology document, restricted to the declared
    levers. The document is the loaded YAML value; what the host answers (DMI files,
    [systemd-detect-virt]) is an input. *)

From S2P Require Import Prelude PyText PyDict.

Abbreviation ydict := (list (pyval * pyval)) (only parsing).

(** ** Which profile applies *)

Definition KNOWN_ENVS : list text := [u "macos"; u "cloud"].

Inductive Source := EXPLICIT | DETECTED | INCONCLUSIVE.

(** The evidence of [EnvResolution], structured. *)
Inductive Evidence :=
  | FromVariable (value : text)
  | FromDmi (product : text) (vendor : option text)
  | FromVirt (product : option text) (virt : text).

Record EnvResolution := mk_env { er_env : option text; er_source : Source; er_evidence : Evidence }.

(** What the host answers: the DMI files, and what [systemd-detect-virt] printed
    ([None] when it could not run). *)
Record Host := mk_host {
    h_product : option text; h_vendor : option text; h_virt : option text
  }.

Definition DMI_PRODUCT_PREFIXES : list (text * text) :=
  [(u "Apple Virtualization", u "macos"); (u "Google Compute Engine", u "cloud")].

Definition DETECT_VIRT_IDS : list (text * text) :=
  [(u "apple", u "macos"); (u "google", u "cloud")].

(** [run_detect_virt]: the env and the id printed. *)
Definition run_detect_virt (h : Host) : option text * text :=
  match h_virt h with
  | None => (None, [])
  | Some out => (dget DETECT_VIRT_IDS (strip out), strip out)
  end.

Definition detect_platform (h : Host) : option text * Evidence :=
  let virt := run_detect_virt h in
  match strip <$> h_product h with
  | Some ((c :: s) as product) =>
      match List.find (λ pe, startswith product pe.1) DMI_PRODUCT_PREFIXES with
      | Some pe => (Some pe.2, FromDmi product (strip <$> h_vendor h))
      | None => (virt.1, FromVirt (Some product) virt.2)
      end
  | product => (virt.1, FromVirt product virt.2)
  end.

(** The ValueErrors of the module, and the TypeError of a value of another shape. *)
Inductive TopoError :=
  | UnknownEnv (env : text)
  | ProfilesNotMapping (v : pyval)
  | UnknownProfiles (keys : list pyval)
  | NoProfile (env : text)
  | ProfileNotMapping (env : text) (v : pyval)
  | MayNotOverride (env : text) (key : pyval)
  | BadLeverValue (key : text) (v : pyval)
  | NodesNotMapping (env : text) (v : pyval)
  | UnknownNode (env : text) (name : pyval)
  | NodeNotMapping (env : text) (name : text) (v : pyval)
  | MayNotOverrideNode (env : text) (name : text) (key : pyval)
  | TopoTypeError.

Definition check_known (selected : text) : res TopoError unit :=
  raise_if (negb (bool_decide (selected ∈ KNOWN_ENVS))) (UnknownEnv selected).

(** [resolve_env]; [var] is the variable's value, [None] when it is unset. *)
Definition resolve_env (var : option text) (h : Host) : res TopoError EnvResolution :=
  match var with
  | Some ((c :: s) as explicit) =>
      _ ← check_known explicit;
      Ok (mk_env (Some explicit) EXPLICIT (FromVariable explicit))
  | _ =>
      let '(env, evidence) := detect_platform h in
      Ok (mk_env env (match env with None => INCONCLUSIVE | Some _ => DETECTED end) evidence)
  end.

(** ** The merge *)

Definition PROFILES_KEY : text := u "env_profiles".
Definition MEMORY_BACKING : text := u "memory_backing".
Definition TOP_LEVEL_LEVERS : list text := [u "boot_batch"; MEMORY_BACKING].
Definition NODE_LEVERS : list text := [u "cpus"].
Definition LEVER_VALUES : list (text * list text) := [(MEMORY_BACKING, [u "hugepages"])].

(** [_check_value]; a list or mapping is unhashable, a TypeError. *)
Definition check_value (key : text) (v : pyval) : res TopoError unit :=
  match dget LEVER_VALUES key with
  | None => Ok tt
  | Some allowed =>
      match v with
      | PyStr s => raise_if (negb (bool_decide (s ∈ allowed))) (BadLeverValue key v)
      | PyList _ | PyDict _ => Err TopoTypeError
      | _ => Err (BadLeverValue key v)
      end
  end.

(** [nodes[name] = {**(nodes[name] or {}), key: value}]. *)
Definition set_node (nodes : ydict) (name key : text) (v : pyval) : res TopoError ydict :=
  spec ← of_option TopoTypeError (or_dict (yget nodes name));
  Ok (yset nodes name (PyDict (yset spec key v))).

Definition apply_node_key (env name : text) (nodes : ydict) (kv : pyval * pyval) :
    res TopoError ydict :=
  match kv.1 with
  | PyStr key =>
      if bool_decide (key ∈ NODE_LEVERS) then set_node nodes name key kv.2
      else Err (MayNotOverrideNode env name kv.1)
  | _ => Err (MayNotOverrideNode env name kv.1)
  end.

(** Node names are strings: a key of another type declares no node. *)
Definition apply_node (env : text) (nodes : ydict) (item : pyval * pyval) :
    res TopoError ydict :=
  match item.1 with
  | PyStr name =>
      match yget nodes name, item.2 with
      | None, _ => Err (UnknownNode env item.1)
      | Some _, PyDict over => res_foldM (apply_node_key env name) nodes over
      | Some _, v => Err (NodeNotMapping env name v)
      end
  | _ => Err (UnknownNode env item.1)
  end.

Definition apply_nodes (env : text) (nodes : ydict) (overrides : pyval) : res TopoError ydict :=
  match overrides with
  | PyDict items => res_foldM (apply_node env) nodes items
  | v => Err (NodesNotMapping env v)
  end.

(** One item of the profile. [topo.get("nodes") or {}] is mutated in place: the
    result is stored back when the topology has such a mapping. *)
Definition apply_item (env : text) (topo : ydict) (item : pyval * pyval) : res TopoError ydict :=
  match item.1 with
  | PyStr key =>
      if bool_decide (key = u "nodes") then
        nodes ← of_option TopoTypeError (or_dict (yget topo (u "nodes")));
        nodes' ← apply_nodes env nodes item.2;
        Ok (match nodes with [] => topo | _ => yset topo (u "nodes") (PyDict nodes') end)
      else if bool_decide (key ∈ TOP_LEVEL_LEVERS) then
        _ ← check_value key item.2; Ok (yset topo key item.2)
      else Err (MayNotOverride env item.1)
  | _ => Err (MayNotOverride env item.1)
  end.

Definition apply_profile (env : text) (topo : ydict) (profile : pyval) : res TopoError ydict :=
  match profile with
  | PyDict items => res_foldM (apply_item env) topo items
  | v => Err (ProfileNotMapping env v)
  end.

Definition known_key (k : pyval) : bool :=
  match k with PyStr s => bool_decide (s ∈ KNOWN_ENVS) | _ => false end.

(** [v or {}]. *)
Definition or_empty (v : pyval) : pyval := if truthy v then v else PyDict [].

(** [effective], with [env] the selected profile ("" for the base). *)
Definition effective (topo : ydict) (env : text) : res TopoError ydict :=
  let out := ypop topo PROFILES_KEY in
  match or_empty (default PyNone (yget topo PROFILES_KEY)) with
  | PyDict profiles =>
      let unknown := List.filter (λ k, negb (known_key k)) profiles.*1 in
      match unknown with
      | _ :: _ => Err (UnknownProfiles unknown)
      | [] =>
          if bool_decide (env = []) then Ok out
          else
            _ ← check_known env;
            profile ← of_option (NoProfile env) (yget profiles env);
            apply_profile env out (or_empty profile)
      end
  | v => Err (ProfilesNotMapping v)
  end.

(** [load]: the profile of the resolved environment. *)
Definition load (var : option text) (h : Host) (raw : ydict) : res TopoError ydict :=
  r ← resolve_env var h; effective raw (default [] (er_env r)).

(** [memory_backing]: the lever as any consumer reads it. *)
Definition memory_backing (topo : ydict) : res TopoError (option text) :=
  match yget topo MEMORY_BACKING with
  | None | Some PyNone => Ok None
  | Some v =>
      _ ← check_value MEMORY_BACKING v;
      Ok (match v with PyStr s => Some s | _ => None end)
  end.

(** ** What one attribute of one node is *)

Definition node_attr (topo : ydict) (name key : text) : option pyval :=
  match yget topo (u "nodes") with
  | Some (PyDict nodes) =>
      match yget nodes name with Some (PyDict spec) => yget spec key | _ => None end
  | _ => None
  end.

(** ** Lemmas *)

Definition attr_in (nodes : ydict) (name key : text) : option pyval :=
  match yget nodes name with Some (PyDict spec) => yget spec key | _ => None end.

(** The nodes after an override: the same names, and the same attributes except
    levers. *)
Definition nodes_frame (nodes nodes' : ydict) : Prop :=
  (∀ n, is_Some (yget nodes' n) ↔ is_Some (yget nodes n)) ∧
  ∀ n k, k ∉ NODE_LEVERS → attr_in nodes' n k = attr_in nodes n k.

Lemma nodes_frame_trans a b c : nodes_frame a b → nodes_frame b c → nodes_frame a c.
Proof. intros [H1 H2] [H3 H4]. split; intros; [by rewrite H3, H1|by rewrite H4, H2]. Qed.

Lemma set_node_frame nodes name key v nodes' :
  is_Some (yget nodes name) → key ∈ NODE_LEVERS →
  set_node nodes name key v = Ok nodes' → nodes_frame nodes nodes'.
Proof.
  unfold set_node. intros [spec0 Hn] Hk H. res_inv. subst nodes'. rename x into spec.
  split.
  - intros n. rewrite yget_yset. case_decide; [|done]. subst. rewrite Hn.
    split; intros; by eexists.
  - intros n k Hkn. unfold attr_in. rewrite yget_yset. case_decide; [|done]. subst.
    rewrite yget_yset_ne by (by intros ->). rewrite Hn in H |- *.
    destruct spec0 as [| | | | |d|]; simpl in H; repeat case_match; by simplify_eq.
Qed.

Lemma apply_node_frame env nodes item nodes' :
  apply_node env nodes item = Ok nodes' → nodes_frame nodes nodes'.
Proof.
  unfold apply_node. destruct item as [[| | |name| | |] v]; try discriminate. simpl.
  destruct (yget nodes name) as [w|] eqn:Hn; [|discriminate].
  destruct v as [| | | | |over|]; try discriminate. intros H.
  assert (nodes_frame nodes nodes' ∧ is_Some (yget nodes' name)) as [? _]; [|done].
  revert H. apply (res_foldM_ind (λ _ s, nodes_frame nodes s ∧ is_Some (yget s name))).
  - split; [done|by eexists].
  - intros done [k x] s0 s1 [Hf Hs] _ Hk. unfold apply_node_key in Hk. simpl in Hk.
    destruct k as [| | |k| | |]; try discriminate. case_bool_decide as Hlev; [|discriminate].
    apply set_node_frame in Hk as Hf'; [|done|done].
    split; [by eapply nodes_frame_trans|]. by apply Hf'.
Qed.

Lemma apply_nodes_frame env nodes over nodes' :
  apply_nodes env nodes over = Ok nodes' → nodes_frame nodes nodes'.
Proof.
  unfold apply_nodes. destruct over; try discriminate.
  apply (res_foldM_ind (λ _ s, nodes_frame nodes s)); [done|].
  intros _ item s0 s1 Hf _ Hi. eapply nodes_frame_trans; [done|by eapply apply_node_frame].
Qed.

(** A node the topology declares. *)
Definition declared (t : ydict) (n : text) : Prop :=
  ∃ ns, or_dict (yget t (u "nodes")) = Some ns ∧ is_Some (yget ns n).

(** The topology after a profile: only levers differ. *)
Definition topo_frame (t t' : ydict) : Prop :=
  (∀ n, declared t' n ↔ declared t n) ∧
  (∀ k, k ∉ u "nodes" :: TOP_LEVEL_LEVERS → yget t' k = yget t k) ∧
  (∀ n k, k ∉ NODE_LEVERS → node_attr t' n k = node_attr t n k) ∧
  (∀ k, k ∈ TOP_LEVEL_LEVERS → yget t' k = yget t k ∨
     ∃ v, yget t' k = Some v ∧ check_value k v = Ok tt).

Lemma nodes_not_lever : u "nodes" ∉ TOP_LEVEL_LEVERS.
Proof. apply (bool_decide_unpack _). by vm_compute. Qed.

Lemma node_attr_nodes t n k :
  node_attr t n k = match yget t (u "nodes") with
                    | Some (PyDict nodes) => attr_in nodes n k | _ => None end.
Proof. done. Qed.

Lemma apply_item_frame env t item t' :
  apply_item env t item = Ok t' → topo_frame t t'.
Proof.
  unfold apply_item. destruct item as [[| | |key| | |] v]; try discriminate. simpl.
  case_bool_decide as Hk.
  - subst key. intros H. res_inv. rename x into nodes, x0 into nodes'.
    destruct nodes as [|p nodes]; [subst t'; split_and!; auto; done|]. subst t'.
    assert (yget t (u "nodes") = Some (PyDict (p :: nodes))) as Ht.
    { destruct (yget t (u "nodes")) as [[| | | | |d|]|]; simpl in *;
        repeat case_match; by simplify_eq. }
    assert (nodes_frame (p :: nodes) nodes') as [Hn Hf] by (by eapply apply_nodes_frame).
    split_and!.
    + intros n. unfold declared. rewrite yget_yset_eq, Ht. simpl.
      split; intros (ns & [= <-] & Hns); eexists; (split; [done|by apply Hn]).
    + intros k Hk. rewrite yget_yset_ne; [done|]. intros <-. apply Hk. by left.
    + intros n k Hkn. rewrite !node_attr_nodes, yget_yset_eq, Ht. by apply Hf.
    + intros k Hk. left. rewrite yget_yset_ne; [done|]. intros <-.
      by apply nodes_not_lever.
  - case_bool_decide as Hlev; [|discriminate]. intros H. res_inv. subst t'. split_and!.
    + intros n. unfold declared. rewrite yget_yset_ne; [done|by apply not_eq_sym; auto].
    + intros k Hkn. rewrite yget_yset_ne; [done|]. intros <-. apply Hkn. by right.
    + intros n k Hkn. rewrite !node_attr_nodes, yget_yset_ne by done. done.
    + intros k Hkl. rewrite yget_yset. case_decide; [|by left]. subst. right. eauto.
Qed.

(** The keys a profile may set, at the top and inside [nodes]. *)
Definition node_item_ok (known : text → Prop) (item : pyval * pyval) : Prop :=
  ∃ name over, item = (PyStr name, PyDict over) ∧ known name ∧
    ∀ kv, kv ∈ over → ∃ key, kv.1 = PyStr key ∧ key ∈ NODE_LEVERS.

Definition item_ok (known : text → Prop) (item : pyval * pyval) : Prop :=
  (∃ key, item.1 = PyStr key ∧ key ∈ TOP_LEVEL_LEVERS ∧ check_value key item.2 = Ok tt) ∨
  (∃ items, item = (PyStr (u "nodes"), PyDict items) ∧
     ∀ it, it ∈ items → node_item_ok known it).

Lemma res_foldM_all {A S} (f : S → A → res TopoError S) s l s' :
  res_foldM f s l = Ok s' → ∀ x, x ∈ l → ∃ s0 s1, f s0 x = Ok s1.
Proof.
  revert s. induction l as [|y l IH]; intros s; simpl; [by intros _ x ?%elem_of_nil|].
  intros H. res_inv. intros z [->|Hz]%elem_of_cons; eauto.
Qed.

Lemma apply_node_ok env nodes item nodes' :
  apply_node env nodes item = Ok nodes' → node_item_ok (λ n, is_Some (yget nodes n)) item.
Proof.
  unfold apply_node. destruct item as [[| | |name| | |] v]; try discriminate. simpl.
  destruct (yget nodes name) as [w|] eqn:Hn; [|discriminate].
  destruct v as [| | | | |over|]; try discriminate. intros H.
  exists name, over. split_and!; [done|by eexists|]. intros [k x] Hkv.
  destruct (res_foldM_all _ _ _ _ H _ Hkv) as (s0 & s1 & Hk).
  unfold apply_node_key in Hk. simpl in *. destruct k; try discriminate.
  case_bool_decide; [|discriminate]. eauto.
Qed.

Lemma node_item_ok_impl (P Q : text → Prop) item :
  (∀ n, P n → Q n) → node_item_ok P item → node_item_ok Q item.
Proof. intros HPQ (name & over & -> & Hs & Hk). exists name, over. auto. Qed.

Lemma apply_nodes_ok env nodes over nodes' :
  apply_nodes env nodes over = Ok nodes' →
  ∃ items, over = PyDict items ∧ ∀ it, it ∈ items → node_item_ok (λ n, is_Some (yget nodes n)) it.
Proof.
  unfold apply_nodes. destruct over as [| | | | |items|]; try discriminate.
  intros H. exists items. split; [done|].
  assert (nodes_frame nodes nodes' ∧ ∀ it, it ∈ items → node_item_ok (λ n, is_Some (yget nodes n)) it) as [_ ?]; [|done].
  revert H. apply (res_foldM_ind
    (λ done s, nodes_frame nodes s ∧ ∀ it, it ∈ done → node_item_ok (λ n, is_Some (yget nodes n)) it)).
  - split; [done|by intros ? ?%elem_of_nil].
  - intros done item s0 s1 [Hf Hd] _ Hi. split.
    + eapply nodes_frame_trans; [done|by eapply apply_node_frame].
    + intros it [?|Hit%list_elem_of_singleton]%elem_of_app; [auto|]. subst it.
      eapply node_item_ok_impl; [|by eapply apply_node_ok]. intros n. apply Hf.
Qed.

(** The profile that applies, once the document's profiles are known to be valid. *)
Definition selected_profile (topo : ydict) (env : text) : option ydict :=
  match or_empty (default PyNone (yget topo PROFILES_KEY)) with
  | PyDict profiles =>
      match or_empty <$> yget profiles env with Some (PyDict p) => Some p | _ => None end
  | _ => None
  end.

Lemma topo_frame_trans a b c : topo_frame a b → topo_frame b c → topo_frame a c.
Proof.
  intros (H0 & H1 & H2 & H3) (H0' & H4 & H5 & H6). split_and!.
  - intros; by rewrite H0', H0.
  - intros; by rewrite H4, H1.
  - intros; by rewrite H5, H2.
  - intros k Hk. destruct (H6 k Hk) as [->|?]; [by apply H3|by right].
Qed.

Lemma apply_item_ok env t item t' :
  apply_item env t item = Ok t' → item_ok (declared t) item.
Proof.
  unfold apply_item, item_ok. destruct item as [[| | |key| | |] v]; try discriminate. simpl.
  case_bool_decide as Hk.
  - subst key. intros H. res_inv. right.
    match goal with H : apply_nodes _ _ _ = Ok _ |- _ => apply apply_nodes_ok in H end.
    destruct_and?. match goal with H : ∃ _, _ |- _ => destruct H as (items & -> & Hi) end.
    exists items. split; [done|]. intros it Hit. eapply node_item_ok_impl; [|by apply Hi].
    intros n Hn. by eexists.
  - case_bool_decide as Hlev; [|discriminate]. intros H. res_inv. left. eauto.
Qed.

Lemma item_ok_impl (P Q : text → Prop) item :
  (∀ n, P n → Q n) → item_ok P item → item_ok Q item.
Proof.
  intros HPQ [?|(items & -> & Hi)]; [by left|]. right. exists items. split; [done|].
  intros it Hit. eapply node_item_ok_impl; eauto.
Qed.

Lemma apply_profile_spec env t items t' :
  res_foldM (apply_item env) t items = Ok t' →
  topo_frame t t' ∧ ∀ it, it ∈ items → item_ok (declared t) it.
Proof.
  apply (res_foldM_ind
    (λ done s, topo_frame t s ∧ ∀ it, it ∈ done → item_ok (declared t) it)).
  - split; [|by intros ? ?%elem_of_nil]. split_and!; auto.
  - intros done item s0 s1 [Hf Hd] _ Hi. split.
    + eapply topo_frame_trans; [done|by eapply apply_item_frame].
    + intros it [?|Hit%list_elem_of_singleton]%elem_of_app; [auto|]. subst it.
      eapply item_ok_impl; [|by eapply apply_item_ok]. intros n. apply Hf.
Qed.

(** ** Properties *)

(** A profile is deep-merged through a narrow surface: when [effective] succeeds,
    the profile set nothing but the levers on nodes the base declares, with a valid
    value where the lever has a closed set; the result has no profile block, every
    other key and every other attribute of every node is the base's, the nodes are
    the base's, and a lever either kept its base value or has a valid new one. *)
Theorem effective_narrow topo env out :
  effective topo env = Ok out →
  let base := ypop topo PROFILES_KEY in
  (env = [] → out = base) ∧
  (env ≠ [] → env ∈ KNOWN_ENVS ∧ ∃ items, selected_profile topo env = Some items ∧
     ∀ it, it ∈ items → item_ok (declared base) it) ∧
  yget out PROFILES_KEY = None ∧
  (∀ n, declared out n ↔ declared base n) ∧
  (∀ k, k ∉ u "nodes" :: TOP_LEVEL_LEVERS → yget out k = yget base k) ∧
  (∀ n k, k ∉ NODE_LEVERS → node_attr out n k = node_attr base n k) ∧
  (∀ k, k ∈ TOP_LEVEL_LEVERS → yget out k = yget base k ∨
     ∃ v, yget out k = Some v ∧ check_value k v = Ok tt).
Proof.
  intros H base. assert (yget base PROFILES_KEY = None) as Hb.
  { unfold base. by rewrite yget_ypop, decide_True. }
  unfold effective in H. fold base in H. unfold selected_profile.
  destruct (or_empty (default PyNone (yget topo PROFILES_KEY))) as [| | | | |profiles|];
    try discriminate.
  destruct (List.filter _ _); [|discriminate].
  case_bool_decide as He; [simplify_eq; by split_and!; auto|].
  res_inv. unfold check_known in *. res_inv.
  rename x0 into profile.
  assert (yget profiles env = Some profile) as Hp by done. rewrite Hp. simpl.
  unfold apply_profile in *. destruct (or_empty profile) as [| | | | |items|]; try discriminate.
  match goal with H : res_foldM _ _ _ = Ok _ |- _ => apply apply_profile_spec in H as
    [(F0 & F1 & F2 & F3) Hi] end.
  split_and!; try done.
  - intros _. split; [|eauto]. by apply negb_false_iff, bool_decide_eq_true in H.
  - rewrite F1; [done|]. apply (bool_decide_unpack _). by vm_compute.
Qed.

(** Which profile applies is never a guess: an explicit environment wins and
    must be a known one, and without it the environment is known or absent, absent
    exactly when the resolution says it was inconclusive. *)
Theorem resolve_env_known var h r :
  resolve_env var h = Ok r →
  match er_env r with
  | Some e => e ∈ KNOWN_ENVS ∧ er_source r ≠ INCONCLUSIVE
  | None => er_source r = INCONCLUSIVE
  end ∧
  (er_source r = EXPLICIT ↔ ∃ c s, var = Some (c :: s)) ∧
  ∀ c s, var = Some (c :: s) → er_env r = Some (c :: s).
Proof.
  assert (∀ e, (detect_platform h).1 = Some e → e ∈ KNOWN_ENVS) as Hd.
  { assert (∀ e, (run_detect_virt h).1 = Some e → e ∈ KNOWN_ENVS) as Hv.
    { unfold run_detect_virt. destruct (h_virt h) as [o|]; [|done]. intros e He.
      apply dget_elem in He. unfold DETECT_VIRT_IDS, KNOWN_ENVS in *. set_solver. }
    unfold detect_platform. intros e. destruct (strip <$> h_product h) as [[|c s]|]; try apply Hv.
    destruct (List.find _ DMI_PRODUCT_PREFIXES) as [pe|] eqn:Hf; [|apply Hv].
    apply find_some in Hf as [Hin _]. simpl. intros [= <-].
    unfold DMI_PRODUCT_PREFIXES, KNOWN_ENVS in *. simpl in Hin. set_solver. }
  unfold resolve_env. intros H. destruct var as [[|c s]|].
  - destruct (detect_platform h) as [[e|] ev]; simplify_eq/=; split_and!;
      try done; [by apply Hd|split; [done|by intros (? & ? & ?)]..].
  - res_inv. subst r. simpl. unfold check_known in *. res_inv.
    rewrite negb_false_iff, bool_decide_eq_true in H.
    split_and!; try done. split; [by exists c, s|done].
  - destruct (detect_platform h) as [[e|] ev]; simplify_eq/=; split_and!;
      try done; [by apply Hd|split; [done|by intros (? & ? & ?)]..].
Qed.

(** ** Witnesses *)

Definition demo_topo : ydict :=
  [(PyStr (u "boot_batch"), PyInt 4);
   (PyStr (u "nodes"), PyDict
      [(PyStr (u "obs"), PyDict [(PyStr (u "cpus"), PyInt 12); (PyStr (u "memory"), PyInt 10240)])]);
   (PyStr PROFILES_KEY, PyDict
      [(PyStr (u "macos"), PyDict
          [(PyStr (u "boot_batch"), PyInt 1); (PyStr MEMORY_BACKING, PyStr (u "hugepages"));
           (PyStr (u "nodes"), PyDict
              [(PyStr (u "obs"), PyDict [(PyStr (u "cpus"), PyInt 4)])])])])].

Lemma effective_narrow_witness :
  ∃ out, effective demo_topo (u "macos") = Ok out ∧
    node_attr out (u "obs") (u "cpus") = Some (PyInt 4) ∧
    yget out (u "boot_batch") = Some (PyInt 1) ∧
    node_attr out (u "obs") (u "memory") =
      node_attr (ypop demo_topo PROFILES_KEY) (u "obs") (u "memory").
Proof.
  destruct (effective demo_topo (u "macos")) as [out|e] eqn:H; [|by vm_compute in H].
  exists out. split; [done|].
  split; [by vm_compute in H; injection H as <-|].
  split; [by vm_compute in H; injection H as <-|].
  destruct (effective_narrow _ _ _ H) as (_ & _ & _ & _ & _ & Ha & _).
  apply Ha. apply (bool_decide_unpack _). by vm_compute.
Defined.

Lemma resolve_env_known_witness :
  let h := mk_host (Some (u "Google Compute Engine")) (Some (u "Google")) None in
  ∃ r, resolve_env None h = Ok r ∧ er_env r = Some (u "cloud") ∧ u "cloud" ∈ KNOWN_ENVS.
Proof.
  intros h.
  destruct (resolve_env None h) as [r|e] eqn:H; [|by vm_compute in H].
  exists r. split; [done|].
  assert (er_env r = Some (u "cloud")) as Hr by (by vm_compute in H; injection H as <-).
  split; [done|]. destruct (resolve_env_known _ _ _ H) as [He _]. rewrite Hr in He. apply He.
Defined.
