(* ===== verification/Hostfacts.v ===== *)
(** * Host facts

    Models [mqlab/hostfacts.py]: what the lab knows about its host, computed from
    the raw probe texts. [str.lower] is taken on the ASCII letters: no other
    character lowers to a letter of the names compared here. *)

From S2P Require Import Prelude PyText PyDict.

Inductive arch := AARCH64 | X86_64.
#[export] Instance arch_eq_dec : EqDecision arch.
Proof. solve_decision. Defined.

Definition arch_name (a : arch) : text :=
  match a with AARCH64 => u "aarch64" | X86_64 => u "x86_64" end.

Definition ARCH_ALIASES : list (text * arch) :=
  [(u "aarch64", AARCH64); (u "arm64", AARCH64); (u "x86_64", X86_64); (u "amd64", X86_64)].

Definition APT : list text := [u "ubuntu"; u "debian"].
Definition DNF : list text := [u "rhel"; u "fedora"; u "centos"; u "almalinux"; u "rocky"].

Definition X86_64_V3_FLAGS : list text :=
  [u "abm"; u "avx2"; u "bmi1"; u "bmi2"; u "f16c"; u "fma"; u "movbe"; u "xsave"].

Inductive distro := APT_FAMILY | DNF_FAMILY | UNKNOWN_FAMILY.

Record HostFacts := mk_facts {
    hf_arch : arch; hf_kvm : bool; hf_distro : distro; hf_in_vergil : bool;
    hf_v3 : bool; hf_v3_missing : list text
  }.

Inductive HostFactError := UnsupportedArch (machine : text).

Definition normalize_arch (machine : text) : res HostFactError arch :=
  of_option (UnsupportedArch machine) (dget ARCH_ALIASES (lower_ascii (strip machine))).

(** [strip] of the double quotes. *)
Definition strip_quotes (s : text) : text :=
  let q c := (c =? 34)%N in rstrip_by q (lstrip_by q s).

(** The assignments of an os-release text. *)
Definition os_release_ids (t : text) : list (text * text) :=
  foldl (λ ids line,
    match cut 61 line with
    | Some (key, val) => dset ids (strip key) (lower_ascii (strip_quotes (strip val)))
    | None => ids
    end) [] (splitlines t).

Definition distro_family (os_release_text : text) : distro :=
  let ids := os_release_ids os_release_text in
  let tokens := dget_or ids (u "ID") [] :: split_ws (dget_or ids (u "ID_LIKE") []) in
  if existsb (λ t, bool_decide (t ∈ tokens)) APT then APT_FAMILY
  else if existsb (λ t, bool_decide (t ∈ tokens)) DNF then DNF_FAMILY
  else UNKNOWN_FAMILY.

(** The value of the first [flags] line. *)
Definition flags_line (cpuinfo_text : text) : option text :=
  head (omap (λ line, match cut 58 line with
                      | Some (key, value) =>
                          if bool_decide (strip key = u "flags") then Some value else None
                      | None => None
                      end) (splitlines cpuinfo_text)).

Definition cpu_flags (cpuinfo_text : text) : gset text :=
  match flags_line cpuinfo_text with
  | Some value => list_to_set (split_ws value)
  | None => ∅
  end.

Definition x86_64_v3_missing (cpuinfo_text : text) : list text :=
  let flags := cpu_flags cpuinfo_text in
  List.filter (λ f, negb (bool_decide (f ∈ flags))) X86_64_V3_FLAGS.

(** The reason shown by [x86_64_v3_gap]. *)
Inductive gap := LacksFlags (flags : list text) | NotX86 (a : arch) | NoKvm.

Definition x86_64_v3_gap (facts : HostFacts) : gap :=
  match hf_v3_missing facts with
  | (_ :: _) as missing => LacksFlags missing
  | [] => if bool_decide (hf_arch facts = X86_64) then NoKvm else NotX86 (hf_arch facts)
  end.

Definition from_raw (machine : text) (kvm_usable : bool) (os_release_text : text)
    (vergil_marker : bool) (cpuinfo_text : text) : res HostFactError HostFacts :=
  arch ← normalize_arch machine;
  let missing := if bool_decide (arch = X86_64) then x86_64_v3_missing cpuinfo_text else [] in
  Ok (mk_facts arch kvm_usable (distro_family os_release_text) vergil_marker
        (bool_decide (arch = X86_64) && kvm_usable && bool_decide (missing = [])) missing).

(** A host fact is consistent when the v3 verdict follows from its parts. *)
Definition facts_ok (f : HostFacts) : Prop :=
  (hf_v3 f = true ↔ hf_arch f = X86_64 ∧ hf_kvm f = true ∧ hf_v3_missing f = []) ∧
  (hf_v3_missing f ≠ [] → hf_arch f = X86_64).

Lemma from_raw_ok m k o v c f : from_raw m k o v c = Ok f → facts_ok f.
Proof.
  unfold from_raw. intros H. res_inv. subst f. unfold facts_ok. simpl.
  rewrite !andb_true_iff, !bool_decide_eq_true.
  case_bool_decide; naive_solver.
Qed.

Lemma x86_64_v3_missing_nil t :
  x86_64_v3_missing t = [] ↔ ∀ f, f ∈ X86_64_V3_FLAGS → f ∈ cpu_flags t.
Proof.
  unfold x86_64_v3_missing. generalize (cpu_flags t). intros fl.
  induction X86_64_V3_FLAGS as [|f fs IH]; simpl; [set_solver|].
  case_bool_decide; simpl; [rewrite IH; set_solver|]. split; [done|].
  intros Hall. exfalso. apply H, Hall. by left.
Qed.

(** The host counts as x86-64-v3 exactly when it is x86_64, has usable KVM,
    and the first flags line of its cpuinfo lists all eight flags; when it does not,
    the gap reported is a true one. *)
Theorem v3_exact m k o v c f :
  from_raw m k o v c = Ok f →
  (hf_v3 f = true ↔ normalize_arch m = Ok X86_64 ∧ k = true ∧
     ∀ flag, flag ∈ X86_64_V3_FLAGS → flag ∈ cpu_flags c) ∧
  (hf_v3 f = false →
     match x86_64_v3_gap f with
     | LacksFlags fl => fl ≠ [] ∧ ∀ x, x ∈ fl ↔ x ∈ X86_64_V3_FLAGS ∧ x ∉ cpu_flags c
     | NotX86 a => a ≠ X86_64 ∧ normalize_arch m = Ok a
     | NoKvm => k = false
     end).
Proof.
  unfold from_raw. intros H. res_inv. subst f. rename x into a.
  match goal with H : normalize_arch m = _ |- _ => rename H into Ha end.
  unfold x86_64_v3_gap. simpl. rewrite <-x86_64_v3_missing_nil, Ha.
  assert (∀ x, x ∈ x86_64_v3_missing c ↔ x ∈ X86_64_V3_FLAGS ∧ x ∉ cpu_flags c) as Hmiss.
  { intros x. unfold x86_64_v3_missing. rewrite list_elem_of_In, filter_In, <-list_elem_of_In.
    by rewrite negb_true_iff, bool_decide_eq_false. }
  split.
  - rewrite !andb_true_iff, !bool_decide_eq_true. case_bool_decide; naive_solver.
  - case_bool_decide as Hx; [|naive_solver].
    destruct (x86_64_v3_missing c) as [|y ys] eqn:Hm.
    + by destruct k.
    + intros _. split; [done|]. exact Hmiss.
Qed.
