(* ===== verification/Versions.v ===== *)
(** * The OS version layer

    Models the data and the [Catalog] of [mqlab/versions.py]: OS references, the
    boxes and operating systems the catalog resolves, and the support gates. A
    VersionError is a value that holds what its message names. *)

From S2P Require Import Prelude PyText PyCodec PyDict Hostfacts.

(** ** OS references *)

Definition FAMILIES : list (text * text) :=
  [(u "ubuntu", u "Ubuntu"); (u "rhel", u "RHEL")].

Record OsRef := mk_ref { ref_family : text; ref_major : Z }.
#[export] Instance OsRef_eq_dec : EqDecision OsRef.
Proof. solve_decision. Defined.

Definition COLON : N := 58.
Definition is_lower (c : N) : bool := ((97 <=? c) && (c <=? 122))%N.
Definition is_digit (c : N) : bool := ((48 <=? c) && (c <=? 57))%N.
Definition nonempty (t : text) : bool := negb (bool_decide (t = [])).

(** [OsRef.parse]: the VersionError of another shape, or the ValueError of a major
    over the interpreter's digit limit. *)
Inductive RefError := BadRef (text_ : text) | MajorTooLong (text_ : text).

Definition parse_ref (t : text) : res RefError OsRef :=
  match cut COLON t with
  | Some (family, major) =>
      if nonempty family && forallb is_lower family && nonempty major
         && forallb is_digit major && dmem family FAMILIES
      then
        n ← of_option (MajorTooLong t) (int_of_text major);
        Ok (mk_ref family n)
      else Err (BadRef t)
  | None => Err (BadRef t)
  end.

Definition token (r : OsRef) : text := ref_family r ++ Z_text (ref_major r).
Definition ref_str (r : OsRef) : text := ref_family r ++ [COLON] ++ Z_text (ref_major r).
Definition label (r : OsRef) : option text :=
  (λ name, name ++ u " " ++ Z_text (ref_major r)) <$> dget FAMILIES (ref_family r).

(** The order of the dataclass: by family, then by major. *)
Definition ref_leb (a b : OsRef) : bool :=
  if bool_decide (ref_family a = ref_family b) then (ref_major a <=? ref_major b)%Z
  else text_leb (ref_family a) (ref_family b).

(** ** The catalog *)

Definition INFRA_ROLES : list text := [u "infra"; u "obs"; u "san"].
Definition INFRA_MQ_ROLES : list text := [u "mq-client"].
Definition SHARED_ROLES : list text := INFRA_ROLES ++ INFRA_MQ_ROLES.
Definition X86_64_V3 : text := u "x86-64-v3".

Record LabDefaultDecision := mk_decision { ld_decided : text; ld_ref : text }.

Record OsEntry := mk_os {
    oe_ref : OsRef;
    oe_base_box : text;
    oe_base_box_version : option text;
    oe_point : option text;
    oe_iso : option text;
    oe_arch_pin : option text;
    oe_requires : list text;
    oe_ibm_unsupported_source : option text;
    oe_lab_default_decision : option LabDefaultDecision
  }.

Record BoxEntry := mk_box {
    be_name : text; be_role : text; be_os : OsEntry; be_bake_stem : text;
    be_mq_bearing : bool; be_components : list text
  }.

Record RoleSpec := mk_role {
    ro_bake : list (text * text); ro_mq_bearing : bool; ro_components : list text
  }.

Record StackSpec := mk_stack_spec { ss_supported : list OsRef; ss_default : OsRef }.

Record RuntimePin := mk_runtime {
    rp_version : text; rp_pbs_release : text; rp_sha256 : list (text * text)
  }.

Record Catalog := mk_catalog {
    c_oses : list (OsRef * OsEntry);
    c_roles : list (text * RoleSpec);
    c_infra : OsRef;
    c_infra_mq : OsRef;
    c_stacks : list (text * StackSpec);
    c_runtime : RuntimePin
  }.

(** [BuildFile.os]. *)
Record BuildFile := mk_build { bf_os : option OsRef }.

(** The VersionErrors of the catalog's methods. *)
Inductive CatalogError :=
  | OsNotInCatalog (r : OsRef) (known : list OsRef)
  | UnknownRole (role : text) (known : list text)
  | NoBake (role family : text)
  | UnknownStack (stack : text) (known : list text)
  | NotShared (role : text)
  | WrongFamily (stack : text) (default : OsRef) (supported : list OsRef) (got : OsRef)
  | NotSupported (stack : text) (supported : list OsRef) (got : OsRef)
  | NeedsArch (stack : text) (r : OsRef) (pin : option text) (host : arch)
  | NeedsV3 (stack : text) (r : OsRef) (gap : gap) (instead : option OsRef)
  | NoRuntimeBuild (arch : text) (pinned : list text).

Definition entry_of (c : Catalog) (r : OsRef) : res CatalogError OsEntry :=
  of_option (OsNotInCatalog r (isort ref_leb (c_oses c).*1)) (dget (c_oses c) r).

Definition box (c : Catalog) (role : text) (r : OsRef) : res CatalogError BoxEntry :=
  spec ← of_option (UnknownRole role (sorted_text (c_roles c).*1)) (dget (c_roles c) role);
  entry ← entry_of c r;
  stem ← of_option (NoBake role (ref_family r)) (dget (ro_bake spec) (ref_family r));
  Ok (mk_box (role ++ u "-" ++ token r) role entry stem (ro_mq_bearing spec)
        (ro_components spec)).

Definition stack_spec (c : Catalog) (stack : text) : res CatalogError StackSpec :=
  of_option (UnknownStack stack (sorted_text (c_stacks c).*1)) (dget (c_stacks c) stack).

Definition shared_os (c : Catalog) (role : text) : res CatalogError OsRef :=
  if bool_decide (role ∈ INFRA_MQ_ROLES) then Ok (c_infra_mq c)
  else if bool_decide (role ∈ INFRA_ROLES) then Ok (c_infra c)
  else Err (NotShared role).

Definition default_os (c : Catalog) (stack : text) : res CatalogError OsRef :=
  spec ← stack_spec c stack; Ok (ss_default spec).

Definition arch_ok (e : OsEntry) (facts : HostFacts) : bool :=
  match oe_arch_pin e with
  | None => true
  | Some pin => bool_decide (pin = arch_name (hf_arch facts))
  end.

Definition v3_ok (e : OsEntry) (facts : HostFacts) : bool :=
  negb (bool_decide (X86_64_V3 ∈ oe_requires e)) || hf_v3 facts.

Definition host_can_run (e : OsEntry) (facts : HostFacts) : bool :=
  arch_ok e facts && v3_ok e facts.

(** [r != ref and host_can_run(self.oses[r], facts)]: the supported references are
    catalog keys ([stacks_ok]); one that is not cannot run. *)
Definition runnable (c : Catalog) (facts : HostFacts) (r : OsRef) : bool :=
  match dget (c_oses c) r with Some e => host_can_run e facts | None => false end.

Definition stack_os (c : Catalog) (stack : text) (build : option BuildFile)
    (facts : HostFacts) : res CatalogError OsRef :=
  spec ← stack_spec c stack;
  let default := ss_default spec in
  let r := match build with Some (mk_build (Some os)) => os | _ => default end in
  let supported := ss_supported spec in
  _ ← raise_if (negb (bool_decide (ref_family r = ref_family default)))
        (WrongFamily stack default supported r);
  _ ← raise_if (negb (bool_decide (r ∈ supported))) (NotSupported stack supported r);
  entry ← entry_of c r;
  _ ← raise_if (negb (arch_ok entry facts))
        (NeedsArch stack r (oe_arch_pin entry) (hf_arch facts));
  _ ← raise_if (negb (v3_ok entry facts))
        (NeedsV3 stack r (x86_64_v3_gap facts)
           (head (List.filter (λ x, negb (bool_decide (x = r)) && runnable c facts x) supported)));
  Ok r.

(** What the warnings of an IBM-unsupported OS name: the OS, the source, and the
    recorded decision. *)
Definition support_warning (c : Catalog) (r : OsRef) :
    res CatalogError (option (OsRef * text * option LabDefaultDecision)) :=
  entry ← entry_of c r;
  Ok ((λ source, (r, source, oe_lab_default_decision entry)) <$> oe_ibm_unsupported_source entry).

Definition infra_mq_warning (c : Catalog) :
    res CatalogError (option (OsRef * text * option LabDefaultDecision)) :=
  support_warning c (c_infra_mq c).

(** [out.setdefault(entry.name, entry)] for one role. *)
Definition add_box (c : Catalog) (out : list (text * BoxEntry)) (rr : text * OsRef) :
    res CatalogError (list (text * BoxEntry)) :=
  e ← box c rr.1 rr.2; Ok (dsetdefault out (be_name e) e).

(** [sorted(roles)] of a stack's role set. *)
Definition sorted_set (s : gset text) : list text := sorted_text (elements s).

(** The (role, OS) pairs of one stack that the host can run. *)
Definition stack_pairs (c : Catalog) (facts : option HostFacts) (roles : gset text)
    (spec : StackSpec) : list (text * OsRef) :=
  r ← List.filter (λ r, match facts with Some f => runnable c f r | None => true end)
        (ss_supported spec);
  (λ role, (role, r)) <$> sorted_set roles.

Definition add_stack (c : Catalog) (facts : option HostFacts)
    (out : list (text * BoxEntry)) (sr : text * gset text) :
    res CatalogError (list (text * BoxEntry)) :=
  spec ← stack_spec c sr.1;
  res_foldM (add_box c) out (stack_pairs c facts sr.2 spec).

Definition all_boxes (c : Catalog) (facts : option HostFacts)
    (stack_roles : list (text * gset text)) : res CatalogError (list BoxEntry) :=
  out ← res_foldM (λ out role, r ← shared_os c role; add_box c out (role, r)) [] SHARED_ROLES;
  out ← res_foldM (add_stack c facts) out stack_roles;
  Ok out.*2.

(** [RuntimePin]: the asset published for an architecture. *)
Definition rp_token (p : RuntimePin) : text := rp_version p ++ u "+" ++ rp_pbs_release p.

Definition tarball (p : RuntimePin) (arch : text) : res CatalogError text :=
  _ ← of_option (NoRuntimeBuild arch (sorted_text (rp_sha256 p).*1)) (dget (rp_sha256 p) arch);
  Ok (u "cpython-" ++ rp_token p ++ u "-" ++ arch ++ u "-unknown-linux-gnu-install_only.tar.gz").

Definition PBS_DOWNLOADS : text :=
  u "https://github.com/astral-sh/python-build-standalone/releases/download".

Definition url (p : RuntimePin) (arch : text) : res CatalogError text :=
  t ← tarball p arch; Ok (PBS_DOWNLOADS ++ u "/" ++ rp_pbs_release p ++ u "/" ++ t).

(** ** The catalog's invariant: what the loader establishes *)

Definition gate_ok (e : OsEntry) : Prop :=
  oe_ibm_unsupported_source e = None ∨ oe_lab_default_decision e ≠ None.

Definition stack_ok (c : Catalog) (spec : StackSpec) : Prop :=
  ss_default spec ∈ ss_supported spec ∧
  (∀ r, r ∈ ss_supported spec → is_Some (dget (c_oses c) r) ∧
     ref_family r = ref_family (ss_default spec)) ∧
  ∃ e, dget (c_oses c) (ss_default spec) = Some e ∧ gate_ok e.

Record catalog_ok (c : Catalog) : Prop := mk_catalog_ok {
    cok_oses : dict_wf (c_oses c);
    cok_refs : ∀ r e, dget (c_oses c) r = Some e → oe_ref e = r ∧ dmem (ref_family r) FAMILIES = true;
    cok_stacks : ∀ s spec, dget (c_stacks c) s = Some spec → stack_ok c spec;
    cok_infra_mq : ∃ e, dget (c_oses c) (c_infra_mq c) = Some e ∧ gate_ok e;
    cok_shared : ∀ role, role ∈ SHARED_ROLES →
      ∃ r b, shared_os c role = Ok r ∧ box c role r = Ok b
  }.

(** ** Lemmas *)

Lemma entry_of_Ok c r e : entry_of c r = Ok e ↔ dget (c_oses c) r = Some e.
Proof. unfold entry_of. by rewrite of_option_Ok. Qed.

Lemma runnable_spec c facts r :
  runnable c facts r = true ↔ ∃ e, dget (c_oses c) r = Some e ∧ host_can_run e facts = true.
Proof. unfold runnable. destruct (dget _ _); naive_solver. Qed.

Lemma box_Ok c role r b :
  box c role r = Ok b → be_role b = role ∧
    be_name b = role ++ u "-" ++ token r ∧ dget (c_oses c) r = Some (be_os b) ∧
    ∃ spec, dget (c_roles c) role = Some spec ∧
      dget (ro_bake spec) (ref_family r) = Some (be_bake_stem b) ∧
      be_mq_bearing b = ro_mq_bearing spec ∧ be_components b = ro_components spec.
Proof.
  unfold box. intros H. res_inv. subst b. simpl. rewrite entry_of_Ok in *. naive_solver.
Qed.

(** The reference a request selects: the build file's, or the stack's default. *)
Definition requested (spec : StackSpec) (build : option BuildFile) : OsRef :=
  match build with Some (mk_build (Some os)) => os | _ => ss_default spec end.

Lemma stack_os_Ok c stack build facts r :
  catalog_ok c →
  stack_os c stack build facts = Ok r ↔
    ∃ spec, dget (c_stacks c) stack = Some spec ∧ r = requested spec build ∧
      r ∈ ss_supported spec ∧ runnable c facts r = true.
Proof.
  intros Hc. split.
  - unfold stack_os, stack_spec. fold (requested). intros H. res_inv. rename x into spec.
    exists spec. rewrite runnable_spec. unfold host_can_run.
    repeat match goal with
      | H : negb _ = false |- _ => apply negb_false_iff in H
      | H : entry_of _ _ = Ok _ |- _ => rewrite entry_of_Ok in H
      | H : bool_decide _ = true |- _ => apply bool_decide_eq_true in H
      end.
    subst r. change (match build with Some (mk_build (Some os)) => os | _ => ss_default spec end)
      with (requested spec build) in *.
    split_and!; try done. eexists. split; [done|]. by apply andb_true_iff.
  - intros (spec & Hs & -> & Hin & Hrun). apply runnable_spec in Hrun as (e & He & Hrun).
    apply andb_true_iff in Hrun as [Ha Hv].
    destruct (cok_stacks c Hc _ _ Hs) as (_ & Hsup & _). destruct (Hsup _ Hin) as [_ Hfam].
    unfold stack_os, stack_spec. rewrite Hs. simpl.
    change (match build with Some (mk_build (Some os)) => os | _ => ss_default spec end)
      with (requested spec build).
    rewrite Hfam, !bool_decide_eq_true_2 by done. simpl.
    unfold entry_of. rewrite He. simpl. by rewrite Ha, Hv.
Qed.

Lemma is_digit_all s : forallb is_digit s = true → Forall (λ c, 48 ≤ c ≤ 57)%N s.
Proof.
  intros H. apply Forall_forall. intros c Hc%list_elem_of_In.
  rewrite forallb_forall in H. specialize (H c Hc). unfold is_digit in H.
  apply andb_true_iff in H as [?%N.leb_le ?%N.leb_le]. lia.
Qed.

(** An unsigned decimal is not negative. *)
Lemma int_of_digits_nonneg s z :
  forallb is_digit s = true → s ≠ [] → int_of_text s = Some z → (0 ≤ z)%Z.
Proof.
  intros Hd%is_digit_all Hne. unfold int_of_text.
  assert (Forall (λ c, 45 ≤ c ≤ 57)%N s) as Hd'
    by (eapply Forall_impl; [done|simpl; lia]).
  rewrite int_ascii_digits, strip_digits by done.
  destruct s as [|c s]; [done|]. apply Forall_cons in Hd as [Hc _].
  assert (match c :: s with 45%N :: s' => (true, s') | 43%N :: s' => (false, s')
          | _ => (false, c :: s) end = (false, c :: s)) as ->
    by (repeat case_match; simplify_eq; done || lia).
  intros (ds & _ & H)%bind_Some. case_match; simplify_eq. lia.
Qed.

Lemma ref_str_cut r : COLON ∉ ref_family r →
  cut COLON (ref_str r) = Some (ref_family r, Z_text (ref_major r)).
Proof. intros. unfold ref_str. cbn [app]. by rewrite cut_app. Qed.

Lemma known_family_chars f :
  dmem f FAMILIES = true → (COLON ∉ f) ∧ nonempty f = true ∧ forallb is_lower f = true.
Proof.
  intros Hf%dmem_true. unfold FAMILIES in Hf. csimpl in Hf.
  repeat (apply elem_of_cons in Hf as [->|Hf]); [..|by apply elem_of_nil in Hf].
  all: split_and!; try done; apply (bool_decide_unpack _); by vm_compute.
Qed.

Lemma digits_all s : Forall (λ c, 48 ≤ c ≤ 57)%N s → forallb is_digit s = true.
Proof.
  intros H. apply forallb_forall. intros c Hc%list_elem_of_In.
  rewrite Forall_forall in H. specialize (H c Hc). unfold is_digit.
  apply andb_true_iff. by rewrite !N.leb_le.
Qed.

(** ** The boxes of a catalog *)

Definition named (out : list (text * BoxEntry)) : Prop :=
  dict_wf out ∧ ∀ n b, dget out n = Some b → be_name b = n.

Definition boxes_from (c : Catalog) (out : list (text * BoxEntry)) (pairs : list (text * OsRef)) :
    Prop :=
  ∀ role r, (role, r) ∈ pairs → ∃ b, box c role r = Ok b ∧ be_name b ∈ out.*1.

Lemma add_box_spec c out rr out' :
  add_box c out rr = Ok out' → named out →
  named out' ∧ (∀ n, n ∈ out.*1 → n ∈ out'.*1) ∧
  (∃ b, box c rr.1 rr.2 = Ok b ∧ be_name b ∈ out'.*1) ∧
  (∀ n b, dget out' n = Some b → dget out n = Some b ∨ box c rr.1 rr.2 = Ok b).
Proof.
  unfold add_box. intros H [Hwf Hn]. res_inv. subst out'. rename x into b.
  assert (∀ n, dget (dsetdefault out (be_name b) b) n =
    if decide (be_name b = n) then Some (default b (dget out n)) else dget out n) as Hget.
  { intros n. unfold dsetdefault. destruct (dget out (be_name b)) eqn:E.
    - case_decide; [|done]. subst. by rewrite E.
    - rewrite dget_dset. case_decide; [|done]. subst. by rewrite E. }
  split_and!.
  - split; [by apply dsetdefault_wf|]. intros n b'. rewrite Hget.
    case_decide as Hd; [|apply Hn]. intros [= <-]. destruct (dget out n) eqn:E; simpl; auto.
  - intros n Hin. apply dget_is_Some. rewrite Hget. case_decide; [done|].
    by apply dget_is_Some.
  - exists b. split; [done|]. apply dget_is_Some. rewrite Hget. by rewrite decide_True.
  - intros n b'. rewrite Hget. case_decide as Hd; [|by left]. intros [= <-].
    destruct (dget out n) eqn:E; simpl; [by left|by right].
Qed.

(** Adding the boxes of a list of (role, OS) pairs. *)
Lemma add_boxes_spec c out pairs out' :
  res_foldM (add_box c) out pairs = Ok out' → named out →
  named out' ∧ (∀ n, n ∈ out.*1 → n ∈ out'.*1) ∧ boxes_from c out' pairs ∧
  (∀ n b, dget out' n = Some b → dget out n = Some b ∨
     ∃ role r, (role, r) ∈ pairs ∧ box c role r = Ok b).
Proof.
  intros H Hout. revert H.
  apply (res_foldM_ind (λ done out', named out' ∧ (∀ n, n ∈ out.*1 → n ∈ out'.*1) ∧
    boxes_from c out' done ∧ (∀ n b, dget out' n = Some b → dget out n = Some b ∨
      ∃ role r, (role, r) ∈ done ∧ box c role r = Ok b))).
  { split_and!; auto. by intros ? ? ?%elem_of_nil. }
  intros done [role r] s0 s1 (Hn & Hk & Hb & Hd) _ H.
  destruct (add_box_spec _ _ _ _ H Hn) as (Hn' & Hk' & (b & Hbox & Hin) & Hd').
  split_and!; [done|auto| |].
  - intros role' r' [Ho|Hx%list_elem_of_singleton]%elem_of_app.
    + destruct (Hb _ _ Ho) as (b' & ? & ?). eauto.
    + simplify_eq. eauto.
  - intros n b' Hget. destruct (Hd' _ _ Hget) as [Hold|Hnew].
    + destruct (Hd _ _ Hold) as [?|(ro & rf & ? & ?)]; [by left|].
      right. exists ro, rf. rewrite elem_of_app. auto.
    + right. exists role, r. rewrite elem_of_app, list_elem_of_singleton. auto.
Qed.

Lemma shared_pairs_spec c out out' :
  res_foldM (λ out role, r ← shared_os c role; add_box c out (role, r)) out SHARED_ROLES = Ok out' →
  ∃ pairs, res_foldM (add_box c) out pairs = Ok out' ∧
    ∀ role r, (role, r) ∈ pairs ↔ role ∈ SHARED_ROLES ∧ shared_os c role = Ok r.
Proof.
  generalize SHARED_ROLES. intros roles. revert out.
  induction roles as [|role roles IH]; intros out; simpl.
  - intros [= <-]. exists []. set_solver.
  - intros H. res_inv. destruct (IH _ ltac:(eassumption)) as (pairs & Hp & Hin).
    exists ((role, x0) :: pairs). simpl.
    match goal with H : add_box _ _ _ = Ok _ |- _ => rewrite H end. split; [done|].
    intros role' r'. rewrite !elem_of_cons, Hin. split.
    + intros [[= -> ->]|[? ?]]; auto.
    + intros [[->|?] ?]; [left; congruence|auto].
Qed.

(** Every stack's pairs, in one list. *)
Lemma stacks_pairs_spec c facts out srs out' :
  res_foldM (add_stack c facts) out srs = Ok out' →
  ∃ pairs, res_foldM (add_box c) out pairs = Ok out' ∧
    ∀ role r, (role, r) ∈ pairs ↔ ∃ stack roles spec, (stack, roles) ∈ srs ∧
      dget (c_stacks c) stack = Some spec ∧ (role, r) ∈ stack_pairs c facts roles spec.
Proof.
  revert out. induction srs as [|[stack roles] srs IH]; intros out; simpl.
  - intros [= <-]. exists []. set_solver.
  - intros H. res_inv. unfold add_stack, stack_spec in *. res_inv. simpl in *.
    destruct (IH _ ltac:(eassumption)) as (pairs & Hp & Hin).
    exists (stack_pairs c facts roles x0 ++ pairs). rewrite res_foldM_app.
    match goal with H : res_foldM _ out _ = Ok _ |- _ => rewrite H end. split; [done|].
    intros role' r'. rewrite elem_of_app, Hin. split.
    + intros [?|(s & rs & sp & ? & ? & ?)].
      * exists stack, roles, x0. split_and!; [by left|done|done].
      * exists s, rs, sp. split_and!; [by right|done|done].
    + intros (s & rs & sp & Hs & ? & ?). apply elem_of_cons in Hs as [[= -> ->]|Hs].
      * left. by simplify_eq.
      * right. eauto 10.
Qed.

Lemma elem_of_stack_pairs c facts roles spec role r :
  (role, r) ∈ stack_pairs c facts roles spec ↔
    role ∈ roles ∧ r ∈ ss_supported spec ∧
    match facts with Some f => runnable c f r = true | None => True end.
Proof.
  assert (∀ x, x ∈ List.filter (λ r, match facts with Some f => runnable c f r | None => true end)
    (ss_supported spec) ↔ x ∈ ss_supported spec ∧
    match facts with Some f => runnable c f x = true | None => True end) as Hf.
  { intros x. rewrite list_elem_of_In, filter_In, <-list_elem_of_In.
    destruct facts; naive_solver. }
  assert (∀ x, x ∈ sorted_set roles ↔ x ∈ roles) as Hs.
  { intros x. unfold sorted_set, sorted_text. by rewrite elem_of_isort, elem_of_elements. }
  unfold stack_pairs. rewrite list_elem_of_bind. split.
  - intros (x & Hx & Hin). apply list_elem_of_fmap in Hx as (y & [= -> ->] & Hy).
    rewrite Hs in Hy. by rewrite Hf in Hin.
  - intros (Hr & Hin & Hrun). exists r. rewrite Hf. split; [|done].
    apply list_elem_of_fmap. exists role. by rewrite Hs.
Qed.

Lemma all_boxes_Ok c facts stack_roles boxes :
  all_boxes c facts stack_roles = Ok boxes →
  NoDup (be_name <$> boxes) ∧
  (∀ b, b ∈ boxes → ∃ role r, box c role r = Ok b ∧
     ((role ∈ SHARED_ROLES ∧ shared_os c role = Ok r) ∨
      ∃ stack roles spec, (stack, roles) ∈ stack_roles ∧ role ∈ roles ∧
        dget (c_stacks c) stack = Some spec ∧ r ∈ ss_supported spec ∧
        match facts with Some f => runnable c f r = true | None => True end)) ∧
  (∀ role r, role ∈ SHARED_ROLES → shared_os c role = Ok r →
     ∃ b, box c role r = Ok b ∧ be_name b ∈ be_name <$> boxes) ∧
  (∀ stack roles role spec r, (stack, roles) ∈ stack_roles → role ∈ roles →
     dget (c_stacks c) stack = Some spec → r ∈ ss_supported spec →
     match facts with Some f => runnable c f r = true | None => True end →
     ∃ b, box c role r = Ok b ∧ be_name b ∈ be_name <$> boxes).
Proof.
  unfold all_boxes. intros H. res_inv. rename x into out1, x0 into out2. subst boxes.
  match goal with H : res_foldM (λ _ _, _) _ _ = Ok _ |- _ =>
    apply shared_pairs_spec in H as (ps & Hps & Hsh) end.
  match goal with H : res_foldM (add_stack _ _) _ _ = Ok _ |- _ =>
    apply stacks_pairs_spec in H as (qs & Hqs & Hst) end.
  assert (res_foldM (add_box c) [] (ps ++ qs) = Ok out2) as Hall
    by (by rewrite res_foldM_app, Hps).
  destruct (add_boxes_spec _ _ _ _ Hall) as ([Hwf Hname] & _ & Hfrom & Hget).
  { split; [constructor|done]. }
  assert (be_name <$> out2.*2 = out2.*1) as Hkeys.
  { rewrite <-list_fmap_compose. apply list_fmap_ext. intros i [n b] Hi. simpl.
    apply Hname, elem_dget; [done|]. by eapply list_elem_of_lookup_2. }
  rewrite Hkeys. split_and!; [done| | |].
  - intros b Hb. apply list_elem_of_fmap in Hb as ([n b'] & -> & Hb). simpl.
    apply elem_dget in Hb; [|done].
    destruct (Hget _ _ Hb) as [|(role & r & Hin & Hbox)]; [done|]. exists role, r.
    split; [done|]. apply elem_of_app in Hin as [Hin|Hin].
    + left. by apply Hsh.
    + right. apply Hst in Hin as (stack & roles & spec & ? & ? & Hp).
      apply elem_of_stack_pairs in Hp as (? & ? & ?). by exists stack, roles, spec.
  - intros role r Hr Hs. apply Hfrom, elem_of_app. left. by apply Hsh.
  - intros stack roles role spec r Hin Hr Hs Hsup Hrun.
    apply Hfrom, elem_of_app. right. apply Hst. exists stack, roles, spec.
    split_and!; [done..|]. by apply elem_of_stack_pairs.
Qed.

Lemma parse_ref_str r :
  dmem (ref_family r) FAMILIES = true → (0 ≤ ref_major r)%Z → is_Some (str_int (ref_major r)) →
  parse_ref (ref_str r) = Ok r.
Proof.
  intros Hf Hm [s Hs]. destruct (known_family_chars _ Hf) as (Hc & Hne & Hl).
  unfold parse_ref. rewrite ref_str_cut, Hne, Hl, Hf by done.
  assert (Z_text (ref_major r) = N_text (Z.abs_N (ref_major r))) as Ht.
  { unfold Z_text. by destruct (Z.ltb_spec (ref_major r) 0); [lia|]. }
  assert (s = Z_text (ref_major r)) as ->.
  { unfold str_int in Hs. by case_match; simplify_eq. }
  rewrite (digits_all (Z_text _)) by (rewrite Ht; apply N_text_digits).
  destruct (N_text_cons (Z.abs_N (ref_major r))) as (c & s' & Hcons & _).
  assert (nonempty (Z_text (ref_major r)) = true) as -> by (by rewrite Ht, Hcons).
  simpl. rewrite (int_of_str_int _ _ Hs). by destruct r.
Qed.

(** ** Properties *)

(** An OS reference round-trips: every reference of a known family with a
    major the interpreter can print parses back from its text, and every text that
    parses gives a known family and a non-negative major. *)
Theorem parse_ref_round_trip r :
  (dmem (ref_family r) FAMILIES = true → (0 ≤ ref_major r)%Z → is_Some (str_int (ref_major r)) →
     parse_ref (ref_str r) = Ok r) ∧
  (∀ t, parse_ref t = Ok r → dmem (ref_family r) FAMILIES = true ∧ (0 ≤ ref_major r)%Z).
Proof.
  split; [apply parse_ref_str|].
  intros t H. unfold parse_ref in H. destruct (cut COLON t) as [[f m]|]; [|done].
  destruct (nonempty f && forallb is_lower f && nonempty m && forallb is_digit m
    && dmem f FAMILIES) eqn:E; [|done]. rewrite !andb_true_iff in E. destruct_and!.
  res_inv. subst r. simpl. split; [done|].
  eapply int_of_digits_nonneg; [done| |done]. by intros ->.
Qed.

(** The version a stack builds on: [stack_os] gives exactly the requested OS (the
    build file's, else the stack's default) when the stack supports it and the host
    can run it, and refuses every other request; and when it refuses for the CPU
    level naming another OS, asking for that OS succeeds. *)
Theorem stack_os_exact c stack build facts :
  catalog_ok c →
  (∀ r, stack_os c stack build facts = Ok r ↔
     ∃ spec, dget (c_stacks c) stack = Some spec ∧ r = requested spec build ∧
       r ∈ ss_supported spec ∧ runnable c facts r = true) ∧
  (∀ s r g alt, stack_os c stack build facts = Err (NeedsV3 s r g (Some alt)) →
     alt ≠ r ∧ stack_os c stack (Some (mk_build (Some alt))) facts = Ok alt).
Proof.
  intros Hc. split; [intros r; by apply stack_os_Ok|].
  intros s r g alt H. rewrite stack_os_Ok by done.
  unfold stack_os, stack_spec, raise_if in H.
  destruct (dget (c_stacks c) stack) as [spec|]; simpl in H; [|done].
  destruct (negb (bool_decide (ref_family _ = _))); simpl in H; [done|].
  destruct (negb (bool_decide (_ ∈ _))); simpl in H; [done|].
  unfold entry_of in H. destruct (dget (c_oses c) _) as [e|]; simpl in H; [|done].
  destruct (negb (arch_ok e facts)); simpl in H; [done|].
  destruct (negb (v3_ok e facts)); simpl in H; [|done]. injection H as <- <- <- Halt.
  apply head_Some in Halt as [rest Halt].
  assert (alt ∈ List.filter (λ x, negb (bool_decide (x = match build with
      Some (mk_build (Some os)) => os | _ => ss_default spec end)) && runnable c facts x)
    (ss_supported spec)) as Hin by (rewrite Halt; by left).
  apply list_elem_of_In, filter_In in Hin as [Hin Hrun].
  apply andb_true_iff in Hrun as [Hne Hrun].
  rewrite negb_true_iff, bool_decide_eq_false in Hne. split; [done|].
  exists spec. split_and!; [done|done|by apply list_elem_of_In|done].
Qed.

(** The box inventory is exactly what the host can be asked for: [all_boxes] has
    no two boxes of one name, holds every shared role's box and, for every stack,
    the box of each of its roles on every supported OS the host can run, and no
    other; in particular the box of any role of a stack on the OS [stack_os]
    chooses is in it. *)
Theorem all_boxes_exact c facts stack_roles boxes :
  all_boxes c facts stack_roles = Ok boxes →
  NoDup (be_name <$> boxes) ∧
  (∀ b, b ∈ boxes → ∃ role r, box c role r = Ok b ∧
     ((role ∈ SHARED_ROLES ∧ shared_os c role = Ok r) ∨
      ∃ stack roles spec, (stack, roles) ∈ stack_roles ∧ role ∈ roles ∧
        dget (c_stacks c) stack = Some spec ∧ r ∈ ss_supported spec ∧
        match facts with Some f => runnable c f r = true | None => True end)) ∧
  (∀ role r, role ∈ SHARED_ROLES → shared_os c role = Ok r →
     ∃ b, box c role r = Ok b ∧ be_name b ∈ be_name <$> boxes) ∧
  (∀ stack roles role f build r, (stack, roles) ∈ stack_roles → role ∈ roles →
     facts = Some f → catalog_ok c → stack_os c stack build f = Ok r →
     ∃ b, box c role r = Ok b ∧ be_name b ∈ be_name <$> boxes).
Proof.
  intros (Hnd & Hfrom & Hsh & Hst)%all_boxes_Ok. split_and!; [done..|].
  intros stack roles role f build r Hin Hr -> Hc Hs.
  apply stack_os_Ok in Hs as (spec & ? & _ & ? & ?); [|done]. eauto.
Qed.
