(* ===== verification/VersionsLoad.v ===== *)
(** * Loading and validating the OS version catalog

    Models the loader of [mqlab/versions.py]: the YAML document is a value, each
    check of the source is a check here, in the same order, and a refusal is the
    error that names the place. The file system's answer to "is this a component
    project" is a parameter. The last part proves that a catalog that loads
    satisfies the invariant the rest of the version layer relies on. *)

From S2P Require Import Prelude PyText PyCodec PyDict Hostfacts Versions.

Abbreviation ydict := (list (pyval * pyval)) (only parsing).

(** [str(k)] of a mapping key. *)
Definition key_text (k : pyval) : text :=
  match k with
  | PyNone => u "None"
  | PyBool b => if b then u "True" else u "False"
  | PyInt z => Z_text z
  | PyStr s => s
  | PyOther _ repr _ => repr
  | PyList _ | PyDict _ => []
  end.

(** A dotted place in the catalog, as the messages name it. *)
Abbreviation place := (list text) (only parsing).

Inductive LoadError :=
  | NotMapping (where_ : place)
  | UnknownKeys (where_ : place) (keys : list text)
  | NotString (where_ : place) (key : text) (v : pyval)
  | MissingKey (where_ : place) (key : text)
  | MissingTop (keys : list text)
  | BadOsRef (where_ : place) (v : pyval)
  | RefTooLong (where_ : place)
  | BadStatus (where_ : place) (v : pyval)
  | DecisionNotNeeded (where_ : place)
  | BadDecided (where_ : place) (got : text)
  | BadIssueRef (where_ : place) (got : text)
  | BadArch (where_ : place) (got : text)
  | BadRequires (where_ : place)
  | UnknownRequirement (where_ : place) (names : list text)
  | UnknownFamily (family : pyval)
  | BadMajor (family : text) (major : pyval)
  | NoOses
  | BadBake (where_ : place)
  | BadBakeEntry (where_ : place) (family stem : pyval)
  | BadMqBearing (where_ : place)
  | BadComponents (where_ : place)
  | DuplicateComponent (where_ : place)
  | UnknownComponent (where_ : place) (missing : list text)
  | BadPyVersion (got : text)
  | BadPbsRelease (got : text)
  | BadShaArches (got : list text)
  | BadSha (arch : text)
  | NotDeclared (where_ : place) (r : OsRef)
  | BadSupported (where_ : place)
  | MixedFamilies (where_ : place)
  | DefaultNotSupported (where_ : place) (r : OsRef)
  | IbmUnsupported (where_ : place) (r : OsRef) (source : text)
  | SharedRole (e : CatalogError).

(** ** Shape checks *)

Definition mapping (v : pyval) (w : place) : res LoadError ydict :=
  match v with PyDict d => Ok d | _ => Err (NotMapping w) end.

Definition key_in (allowed : list text) (k : pyval) : bool :=
  match k with PyStr s => bool_decide (s ∈ allowed) | _ => false end.

Definition check_keys (raw : ydict) (allowed : list text) (w : place) : res LoadError unit :=
  match List.filter (λ k, negb (key_in allowed k)) raw.*1 with
  | [] => Ok tt
  | unknown => Err (UnknownKeys w (sorted_text (key_text <$> unknown)))
  end.

Definition string_of (raw : ydict) (key : text) (w : place) : res LoadError (option text) :=
  match yget raw key with
  | None | Some PyNone => Ok None
  | Some (PyStr s) => Ok (Some s)
  | Some v => Err (NotString w key v)
  end.

Definition required (raw : ydict) (key : text) (w : place) : res LoadError text :=
  v ← string_of raw key w; of_option (MissingKey w key) v.

(** [_ref]. *)
Definition ref_of (v : pyval) (w : place) : res LoadError OsRef :=
  match v with
  | PyStr s =>
      match parse_ref s with
      | Ok r => Ok r
      | Err (BadRef _) => Err (BadOsRef w v)
      | Err (MajorTooLong _) => Err (RefTooLong w)
      end
  | _ => Err (BadOsRef w v)
  end.

(** ** Regular expressions, as predicates *)

Definition digits (t : text) : bool := nonempty t && forallb is_digit t.
Definition digits_n (n : nat) (t : text) : bool := (length t =? n) && forallb is_digit t.

(** [[0-9]+\.[0-9]+\.[0-9]+]. *)
Definition is_py_version (t : text) : bool :=
  match split_on 46 t with [a; b; c] => digits a && digits b && digits c | _ => false end.

(** [[0-9]{4}-[0-9]{2}-[0-9]{2}]. *)
Definition is_iso_date (t : text) : bool :=
  match split_on 45 t with
  | [a; b; c] => digits_n 4 a && digits_n 2 b && digits_n 2 c
  | _ => false
  end.

Definition is_hex (c : N) : bool := is_digit c || ((97 <=? c) && (c <=? 102))%N.
Definition is_sha256 (t : text) : bool := (length t =? 64) && forallb is_hex t.

Definition is_slug_char (c : N) : bool :=
  is_lower c || ((65 <=? c) && (c <=? 90))%N || is_digit c || bool_decide (c ∈ [95; 46; 45]%N).
Definition slug (t : text) : bool := nonempty t && forallb is_slug_char t.

(** [<owner>/<repo>#<N>]: no slug character is a separator. *)
Definition is_issue_ref (t : text) : bool :=
  match cut 47 t with
  | Some (owner, rest) =>
      match cut 35 rest with
      | Some (repo, n) => slug owner && slug repo && digits n
      | None => false
      end
  | None => false
  end.

(** ** Operating systems *)

Definition HOST_ARCHES : list text := [u "aarch64"; u "x86_64"].
Definition KNOWN_REQUIREMENTS : list text := [X86_64_V3].
Definition OS_KEYS : list text :=
  [u "base_box"; u "base_box_version"; u "point"; u "iso"; u "arch"; u "requires";
   u "ibm_support"; u "lab_default_decision"].
Definition ROLE_KEYS : list text := [u "bake"; u "mq_bearing"; u "components"].
Definition STACK_KEYS : list text := [u "supported"; u "default"].
Definition TOP_KEYS : list text :=
  [u "os"; u "roles"; u "infra"; u "infra_mq"; u "stacks"; u "runtime"].

Definition ibm_unsupported_source (raw : option pyval) (w0 : place) :
    res LoadError (option text) :=
  match raw with
  | None | Some PyNone => Ok None
  | Some raw =>
      let w := w0 ++ [u "ibm_support"] in
      support ← mapping raw w;
      _ ← check_keys support [u "status"; u "source"] w;
      let status := default PyNone (yget support (u "status")) in
      match status with
      | PyStr s =>
          if bool_decide (s = u "supported") then
            _ ← string_of support (u "source") w; Ok None
          else if bool_decide (s = u "unsupported") then
            Some <$> required support (u "source") w
          else Err (BadStatus w status)
      | _ => Err (BadStatus w status)
      end
  end.

Definition lab_default_decision (raw : option pyval) (w0 : place) (source : option text) :
    res LoadError (option LabDefaultDecision) :=
  match raw with
  | None | Some PyNone => Ok None
  | Some raw =>
      let w := w0 ++ [u "lab_default_decision"] in
      spec ← mapping raw w;
      _ ← check_keys spec [u "decided"; u "ref"] w;
      _ ← raise_if (bool_decide (source = None)) (DecisionNotNeeded w);
      decided ← required spec (u "decided") w;
      _ ← raise_if (negb (is_iso_date decided)) (BadDecided w decided);
      ref ← required spec (u "ref") w;
      _ ← raise_if (negb (is_issue_ref ref)) (BadIssueRef w ref);
      Ok (Some (mk_decision decided ref))
  end.

Definition gate_default (e : OsEntry) (w : place) : res LoadError unit :=
  match oe_ibm_unsupported_source e, oe_lab_default_decision e with
  | Some source, None => Err (IbmUnsupported w (oe_ref e) source)
  | _, _ => Ok tt
  end.

(** A list of strings, or [None]. *)
Fixpoint strings (l : list pyval) : option (list text) :=
  match l with
  | [] => Some []
  | PyStr s :: l => cons s <$> strings l
  | _ :: _ => None
  end.

Definition string_list (v : option pyval) : option (list text) :=
  match v with None => Some [] | Some (PyList l) => strings l | Some _ => None end.

Definition optional_or_required (rhel : bool) (raw : ydict) (key : text) (w : place) :
    res LoadError (option text) :=
  if rhel then Some <$> required raw key w else string_of raw key w.

Definition os_entry (r : OsRef) (raw : pyval) : res LoadError OsEntry :=
  let w := [u "os"; ref_family r; Z_text (ref_major r)] in
  spec ← mapping raw w;
  _ ← check_keys spec OS_KEYS w;
  let rhel := bool_decide (ref_family r = u "rhel") in
  arch ← string_of spec (u "arch") w;
  _ ← match arch with
      | Some a => raise_if (negb (bool_decide (a ∈ HOST_ARCHES))) (BadArch w a)
      | None => Ok tt
      end;
  requires ← of_option (BadRequires w) (string_list (yget spec (u "requires")));
  _ ← match List.filter (λ x, negb (bool_decide (x ∈ KNOWN_REQUIREMENTS))) requires with
      | [] => Ok tt
      | unknown => Err (UnknownRequirement w (sorted_text (remove_dups unknown)))
      end;
  source ← ibm_unsupported_source (yget spec (u "ibm_support")) w;
  base_box ← required spec (u "base_box") w;
  base_box_version ← string_of spec (u "base_box_version") w;
  point ← optional_or_required rhel spec (u "point") w;
  iso ← optional_or_required rhel spec (u "iso") w;
  decision ← lab_default_decision (yget spec (u "lab_default_decision")) w source;
  Ok (mk_os r base_box base_box_version point iso arch requires source decision).

(** One major of a family. *)
Definition add_os (family : text) (out : list (OsRef * OsEntry)) (item : pyval * pyval) :
    res LoadError (list (OsRef * OsEntry)) :=
  match item.1 with
  | PyInt major =>
      let r := mk_ref family major in
      e ← os_entry r item.2; Ok (dset out r e)
  | k => Err (BadMajor family k)
  end.

Definition add_family (out : list (OsRef * OsEntry)) (item : pyval * pyval) :
    res LoadError (list (OsRef * OsEntry)) :=
  match item.1 with
  | PyStr family =>
      if dmem family FAMILIES then
        majors ← mapping item.2 [u "os"; family];
        res_foldM (add_os family) out majors
      else Err (UnknownFamily item.1)
  | k => Err (UnknownFamily k)
  end.

Definition oses_of (raw : pyval) : res LoadError (list (OsRef * OsEntry)) :=
  families ← mapping raw [u "os"];
  out ← res_foldM add_family [] families;
  match out with [] => Err NoOses | _ => Ok out end.

(** ** Roles *)

Section loader.
(** [(components_dir() / c / "pyproject.toml").is_file()]. *)
Context (has_component : text → bool).

Definition components_of (raw : option pyval) (w : place) : res LoadError (list text) :=
  names ← of_option (BadComponents w) (string_list raw);
  _ ← raise_if (negb (bool_decide (NoDup names))) (DuplicateComponent w);
  match List.filter (λ c, negb (has_component c)) names with
  | [] => Ok names
  | missing => Err (UnknownComponent w missing)
  end.

Definition bake_entry (w : place) (kv : pyval * pyval) : res LoadError (text * text) :=
  match kv with
  | (PyStr family, PyStr stem) =>
    if dmem family FAMILIES then Ok (family, stem)
    else Err (BadBakeEntry w kv.1 kv.2)
  | _ => Err (BadBakeEntry w kv.1 kv.2)
  end.

Definition role_spec (raw : pyval) (w : place) : res LoadError RoleSpec :=
  spec ← mapping raw w;
  _ ← check_keys spec ROLE_KEYS w;
  bake ← match yget spec (u "bake") with
       | Some (PyDict ((_ :: _) as d)) => Ok d
       | _ => Err (BadBake w)
       end;
  bake ← res_mapM (bake_entry w) bake;
  mq_bearing ← match yget spec (u "mq_bearing") with
             | None => Ok false
             | Some (PyBool b) => Ok b
             | Some _ => Err (BadMqBearing w)
             end;
  components ← components_of (yget spec (u "components")) w;
  Ok (mk_role bake mq_bearing components).

Definition add_role (out : list (text * RoleSpec)) (item : pyval * pyval) :
  res LoadError (list (text * RoleSpec)) :=
  spec ← role_spec item.2 [u "roles"; key_text item.1];
  Ok (dset out (key_text item.1) spec).

Definition roles_of (raw : pyval) : res LoadError (list (text * RoleSpec)) :=
  d ← mapping raw [u "roles"]; res_foldM add_role [] d.

(** ** The Python runtime *)

Definition sha_entry (kv : pyval * pyval) : res LoadError (text * text) :=
  match kv.2 with
  | PyStr digest =>
    if is_sha256 digest then Ok (key_text kv.1, digest) else Err (BadSha (key_text kv.1))
  | _ => Err (BadSha (key_text kv.1))
  end.

Definition runtime_of (raw : pyval) : res LoadError RuntimePin :=
  runtime ← mapping raw [u "runtime"];
  _ ← check_keys runtime [u "python"] [u "runtime"];
  python ← of_option (MissingKey [u "runtime"] (u "python")) (yget runtime (u "python"));
  let w := [u "runtime"; u "python"] in
  spec ← mapping python w;
  _ ← check_keys spec [u "version"; u "pbs_release"; u "sha256"] w;
  version ← required spec (u "version") w;
  _ ← raise_if (negb (is_py_version version)) (BadPyVersion version);
  release ← required spec (u "pbs_release") w;
  _ ← raise_if (negb (digits_n 8 release)) (BadPbsRelease release);
  sha ← mapping (default PyNone (yget spec (u "sha256"))) (w ++ [u "sha256"]);
  _ ← raise_if (negb (forallb (key_in HOST_ARCHES) sha.*1 &&
                    forallb (λ a, bool_decide (is_Some (yget sha a))) HOST_ARCHES))
      (BadShaArches (sorted_text (key_text <$> sha.*1)));
  sha ← res_mapM sha_entry sha;
  Ok (mk_runtime version release sha).

(** ** Stacks *)

Definition known (r : OsRef) (oses : list (OsRef * OsEntry)) (w : place) :
  res LoadError OsRef :=
  raise_if (negb (dmem r oses)) (NotDeclared w r);; Ok r.

(** The family of a list of references, when there is exactly one. *)
Definition one_family (l : list OsRef) : bool :=
  match l with
  | [] => false
  | r :: l => forallb (λ x, bool_decide (ref_family x = ref_family r)) l
  end.

Definition stack_of (oses : list (OsRef * OsEntry)) (raw : pyval) (w : place) :
  res LoadError StackSpec :=
  spec ← mapping raw w;
  _ ← check_keys spec STACK_KEYS w;
  listed ← match yget spec (u "supported") with
         | Some (PyList ((_ :: _) as l)) => Ok l
         | _ => Err (BadSupported w)
         end;
  supported ← res_mapM (λ item, r ← ref_of item w; known r oses w) listed;
  _ ← raise_if (negb (one_family supported)) (MixedFamilies w);
  r ← ref_of (default PyNone (yget spec (u "default"))) (w ++ [u "default"]);
  default ← known r oses w;
  _ ← raise_if (negb (bool_decide (default ∈ supported))) (DefaultNotSupported w default);
  e ← of_option (NotDeclared w default) (dget oses default);
  _ ← gate_default e (w ++ [u "default"]);
  Ok (mk_stack_spec supported default).

Definition add_stack_spec (oses : list (OsRef * OsEntry)) (out : list (text * StackSpec))
  (item : pyval * pyval) : res LoadError (list (text * StackSpec)) :=
  spec ← stack_of oses item.2 [u "stacks"; key_text item.1];
  Ok (dset out (key_text item.1) spec).

Definition stacks_of (oses : list (OsRef * OsEntry)) (raw : pyval) :
  res LoadError (list (text * StackSpec)) :=
  d ← mapping raw [u "stacks"]; res_foldM (add_stack_spec oses) [] d.

(** ** The catalog *)

Definition ref_field (data : ydict) (oses : list (OsRef * OsEntry)) (key : text) :
  res LoadError OsRef :=
  r ← ref_of (default PyNone (yget data key)) [key]; known r oses [key].

(** [load_catalog], after the YAML is read. *)
Definition load_catalog (doc : pyval) : res LoadError Catalog :=
  data ← mapping doc [u "the catalog"];
  _ ← check_keys data TOP_KEYS [];
  _ ← match List.filter (λ k, negb (bool_decide (is_Some (yget data k)))) TOP_KEYS with
    | [] => Ok tt
    | missing => Err (MissingTop missing)
    end;
  let field k := default PyNone (yget data k) in
  oses ← oses_of (field (u "os"));
  roles ← roles_of (field (u "roles"));
  infra ← ref_field data oses (u "infra");
  infra_mq ← ref_field data oses (u "infra_mq");
  e ← of_option (NotDeclared [u "infra_mq"] infra_mq) (dget oses infra_mq);
  _ ← gate_default e [u "infra_mq"];
  stacks ← stacks_of oses (field (u "stacks"));
  runtime ← runtime_of (field (u "runtime"));
  let c := mk_catalog oses roles infra infra_mq stacks runtime in
  _ ← res_mapM (λ role, map_err SharedRole (r ← shared_os c role; box c role r)) SHARED_ROLES;
  Ok c.
End loader.

(** [load_build_file]: the build file's document, [PyNone] when it is empty. *)
Inductive BuildError := BuildNotMapping | BuildUnknownKeys (keys : list text)
  | BuildNotString (v : pyval) | BuildBadRef (e : RefError).

Definition load_build_file (doc : pyval) : res BuildError BuildFile :=
  data ← match doc with
         | PyNone => Ok [] | PyDict d => Ok d | _ => Err BuildNotMapping
         end;
  _ ← match List.filter (λ k, negb (key_in [u "os"] k)) data.*1 with
      | [] => Ok tt
      | unknown => Err (BuildUnknownKeys (sorted_text (key_text <$> unknown)))
      end;
  match yget data (u "os") with
  | None => Ok (mk_build None)
  | Some (PyStr s) => r ← map_err BuildBadRef (parse_ref s); Ok (mk_build (Some r))
  | Some v => Err (BuildNotString v)
  end.

(** ** Lemmas *)

Definition oses_ok (out : list (OsRef * OsEntry)) : Prop :=
  dict_wf out ∧
  ∀ r e, dget out r = Some e → oe_ref e = r ∧ dmem (ref_family r) FAMILIES = true.

Lemma os_entry_ref r raw e : os_entry r raw = Ok e → oe_ref e = r.
Proof. unfold os_entry. intros H. res_inv. by subst e. Qed.

Lemma add_os_ok family out item out' :
  dmem family FAMILIES = true → add_os family out item = Ok out' → oses_ok out → oses_ok out'.
Proof.
  unfold add_os. intros Hf H [Hwf Ho]. destruct item as [[] raw]; try discriminate. simpl in H.
  res_inv. subst out'. split; [by apply dset_wf|]. intros r e. rewrite dget_dset.
  case_decide; [|by apply Ho]. intros [= <-]. subst r.
  split; [by eapply os_entry_ref|done].
Qed.

Lemma oses_of_ok raw oses : oses_of raw = Ok oses → oses_ok oses.
Proof.
  unfold oses_of. intros H. res_inv.
  assert (x0 = oses) as -> by (destruct x0; by simplify_eq).
  assert (oses_ok ([] : list (OsRef * OsEntry))) as Hnil by (split; [constructor|done]).
  match goal with H : res_foldM add_family _ _ = Ok _ |- _ => revert H end.
  apply (res_foldM_ind (λ _ out, oses_ok out)); [done|].
  intros _ [k v] s0 s1 Hs _ Hk. unfold add_family in Hk. destruct k; try discriminate.
  simpl in Hk. destruct (dmem s FAMILIES) eqn:Hf; [|discriminate]. res_inv.
  match goal with H : res_foldM (add_os _) _ _ = Ok _ |- _ => revert H end.
  apply (res_foldM_ind (λ _ out, oses_ok out)); [done|].
  intros _ item s2 s3 Hs2 _ Hadd. by eapply add_os_ok.
Qed.

Lemma gate_default_ok e w x : gate_default e w = Ok x → gate_ok e.
Proof.
  unfold gate_default, gate_ok.
  destruct (oe_ibm_unsupported_source e), (oe_lab_default_decision e); auto; done.
Qed.

Lemma known_ok r oses w r' : known r oses w = Ok r' → r' = r ∧ is_Some (dget oses r).
Proof.
  unfold known. intros H. res_inv. subst. split; [done|].
  match goal with H : negb _ = false |- _ => apply negb_false_iff in H end.
  by apply bool_decide_eq_true in H.
Qed.

Lemma one_family_ok l r r' : one_family l = true → r ∈ l → r' ∈ l → ref_family r = ref_family r'.
Proof.
  destruct l as [|x l]; [done|]. simpl. rewrite forallb_forall. intros H.
  assert (∀ y, y ∈ x :: l → ref_family y = ref_family x) as Hall.
  { intros y [->|Hy]%elem_of_cons; [done|].
    apply list_elem_of_In in Hy. by apply H, bool_decide_eq_true in Hy. }
  intros Hr Hr'. by rewrite (Hall _ Hr), (Hall _ Hr').
Qed.

Lemma stack_of_ok c raw w spec :
  stack_of (c_oses c) raw w = Ok spec → stack_ok c spec.
Proof.
  unfold stack_of. intros H. res_inv. subst spec.
  repeat match goal with
    | H : negb _ = false |- _ => apply negb_false_iff in H
    | H : bool_decide _ = true |- _ => apply bool_decide_eq_true in H
    | H : known _ _ _ = Ok _ |- _ => apply known_ok in H as [-> ?]
    | H : gate_default _ _ = Ok _ |- _ => apply gate_default_ok in H
    end.
  unfold stack_ok. simpl. split_and!; [done| |eauto].
  intros r Hr. split; [|by eapply one_family_ok].
  match goal with H : res_mapM _ _ = Ok _ |- _ => apply res_mapM_Ok in H; rename H into HF end.
  apply list_elem_of_lookup in Hr as [i Hi].
  destruct (Forall2_lookup_r _ _ _ _ _ HF Hi) as (v & _ & Hv). res_inv.
  match goal with H : known _ _ _ = Ok _ |- _ => by apply known_ok in H as [-> ?] end.
Qed.

Lemma stacks_of_ok c raw :
  stacks_of (c_oses c) raw = Ok (c_stacks c) →
  ∀ s spec, dget (c_stacks c) s = Some spec → stack_ok c spec.
Proof.
  unfold stacks_of. intros H. res_inv.
  match goal with H : res_foldM _ _ _ = Ok _ |- _ => revert H end.
  apply (res_foldM_ind (λ _ out, ∀ s spec, dget out s = Some spec → stack_ok c spec)); [done|].
  intros _ item s0 s1 Hs _ Hadd. unfold add_stack_spec in Hadd. res_inv. subst s1.
  intros s spec. rewrite dget_dset. case_decide; [|by apply Hs]. intros [= <-].
  by eapply stack_of_ok.
Qed.

(** What a successful load has checked. *)
Lemma load_catalog_ok has_component doc c :
  load_catalog has_component doc = Ok c → catalog_ok c.
Proof.
  unfold load_catalog. intros H. res_inv. subst c.
  match goal with |- catalog_ok ?c => set (cat := c) in * end.
  match goal with H : oses_of _ = Ok _ |- _ => apply oses_of_ok in H as [Hwf Hrefs] end.
  split.
  - done.
  - done.
  - intros s spec Hs. eapply (stacks_of_ok cat); [eassumption|done].
  - eexists. split; [eassumption|].
    match goal with H : gate_default _ _ = Ok _ |- _ => by apply gate_default_ok in H end.
  - intros role Hrole.
    match goal with H : res_mapM _ SHARED_ROLES = Ok _ |- _ => apply res_mapM_Ok in H;
      rename H into HF end.
    apply list_elem_of_lookup in Hrole as [i Hi].
    destruct (Forall2_lookup_l _ _ _ _ _ HF Hi) as (b & _ & Hb). res_inv. eauto.
Qed.

(** ** Properties *)

(** C34. A catalog that loads is valid: its operating systems are keyed by their own
    references, of known families; every stack's supported list is of one family,
    declared, and holds its default; a default and the shared MQ nodes' OS are
    IBM-supported or recorded as a lab decision; and every shared role has its box.
    These are the facts the version layer's other theorems assume. *)
Theorem load_catalog_valid has_component doc c :
  load_catalog has_component doc = Ok c → catalog_ok c.
Proof. apply load_catalog_ok. Qed.

(** ** Witness: a catalog in the shape of lab/versions.yaml *)

Definition ys (s : string) : pyval := PyStr (u s).
Definition ymap (l : list (string * pyval)) : pyval := PyDict ((λ kv, (ys kv.1, kv.2)) <$> l).

Definition demo_doc : pyval :=
  ymap
    [("os", ymap
       [("ubuntu", PyDict [(PyInt 24, ymap [("base_box", ys "noble")]);
                           (PyInt 26, ymap
                              [("base_box", ys "next"); ("requires", PyList [ys "x86-64-v3"]);
                               ("ibm_support", ymap
                                  [("status", ys "unsupported"); ("source", ys "SPCR")])])]);
        ("rhel", PyDict [(PyInt 9, ymap
                            [("base_box", ys "rhel9"); ("point", ys "9.6"); ("iso", ys "rhel.iso");
                             ("arch", ys "x86_64")])])]);
     ("roles", ymap
        ((λ r, (r, ymap [("bake", ymap [("ubuntu", ys "bake"); ("rhel", ys "bake-rhel")])]))
           <$> ["infra"; "obs"; "san"; "mq-client"; "mq-rdqm"]%string));
     ("infra", ys "ubuntu:24"); ("infra_mq", ys "ubuntu:24");
     ("stacks", ymap
        [("rdqm-rhel", ymap [("supported", PyList [ys "rhel:9"]); ("default", ys "rhel:9")]);
         ("pcmk-ubuntu", ymap
            [("supported", PyList [ys "ubuntu:24"; ys "ubuntu:26"]);
             ("default", ys "ubuntu:24")])]);
     ("runtime", ymap
        [("python", ymap
            [("version", ys "3.14.8"); ("pbs_release", ys "20261003");
             ("sha256", ymap
                [("aarch64", PyStr (replicate 64 97%N)); ("x86_64", PyStr (replicate 64 98%N))])])])].

Lemma load_catalog_valid_witness :
  ∃ c, load_catalog (λ _, true) demo_doc = Ok c ∧
    (c_stacks c).*1 = [u "rdqm-rhel"; u "pcmk-ubuntu"] ∧ catalog_ok c.
Proof.
  destruct (load_catalog (λ _, true) demo_doc) as [c|e] eqn:H; [|by vm_compute in H].
  exists c. split; [done|].
  split; [by vm_compute in H; injection H as <-|]. by eapply load_catalog_valid.
Defined.

(** The demo catalog, and hosts of the two architectures. *)
Definition demo_catalog : Catalog :=
  match load_catalog (λ _, true) demo_doc with
  | Ok c => c
  | Err _ => mk_catalog [] [] (mk_ref [] 0) (mk_ref [] 0) [] (mk_runtime [] [] [])
  end.

Definition demo_x86 : HostFacts := mk_facts X86_64 true APT_FAMILY false true [].
Definition demo_arm : HostFacts := mk_facts AARCH64 true APT_FAMILY true false [].

Lemma demo_catalog_ok : catalog_ok demo_catalog.
Proof. apply (load_catalog_ok (λ _, true) demo_doc). by vm_compute. Qed.

(** On a host without the CPU level the refusal names the older major, and asking for
    that one works. *)
Lemma stack_os_exact_witness :
  stack_os demo_catalog (u "pcmk-ubuntu") None demo_x86 = Ok (mk_ref (u "ubuntu") 24) ∧
  stack_os demo_catalog (u "pcmk-ubuntu") (Some (mk_build (Some (mk_ref (u "ubuntu") 26))))
    demo_arm = Err (NeedsV3 (u "pcmk-ubuntu") (mk_ref (u "ubuntu") 26) (NotX86 AARCH64)
                      (Some (mk_ref (u "ubuntu") 24))) ∧
  stack_os demo_catalog (u "pcmk-ubuntu") (Some (mk_build (Some (mk_ref (u "ubuntu") 24))))
    demo_arm = Ok (mk_ref (u "ubuntu") 24).
Proof.
  split; [by vm_compute|].
  assert (stack_os demo_catalog (u "pcmk-ubuntu") (Some (mk_build (Some (mk_ref (u "ubuntu") 26))))
    demo_arm = Err (NeedsV3 (u "pcmk-ubuntu") (mk_ref (u "ubuntu") 26) (NotX86 AARCH64)
                      (Some (mk_ref (u "ubuntu") 24)))) as Hv3 by (by vm_compute).
  split; [done|].
  by apply (proj2 (stack_os_exact demo_catalog _ _ _ demo_catalog_ok) _ _ _ _ Hv3).
Defined.

Lemma all_boxes_exact_witness :
  ∃ boxes, all_boxes demo_catalog (Some demo_arm)
      [(u "pcmk-ubuntu", {[ u "mq-rdqm" ]}); (u "rdqm-rhel", {[ u "mq-rdqm" ]})] = Ok boxes ∧
    be_name <$> boxes =
      [u "infra-ubuntu24"; u "obs-ubuntu24"; u "san-ubuntu24"; u "mq-client-ubuntu24";
       u "mq-rdqm-ubuntu24"] ∧ NoDup (be_name <$> boxes).
Proof.
  destruct (all_boxes demo_catalog (Some demo_arm)
      [(u "pcmk-ubuntu", {[ u "mq-rdqm" ]}); (u "rdqm-rhel", {[ u "mq-rdqm" ]})])
    as [boxes|e] eqn:H; [|by vm_compute in H].
  exists boxes. split; [done|].
  split; [by vm_compute in H; injection H as <-|]. by apply (all_boxes_exact _ _ _ _ H).
Defined.
