(* ===== verification/Stacks.v ===== *)
(** * Stacks, nodes and the boxes they boot

    Models [mqlab/stacks.py] and the topology part of [mqlab/versions.py]
    ([node_stacks], [stack_roles], [node_boxes]). The effective topology is taken
    with its names and lists typed, as the code annotates them; a value whose shape
    the code checks keeps its dynamic type. *)

From S2P Require Import Prelude PyText PyCodec PyDict Hostfacts Versions VersionsLoad.

(** ** The topology as these modules read it *)

Record StackCfg := mk_cfg {
    sc_mechanism : option text;
    sc_os_family : option text;
    sc_short : option text;
    sc_verbs : list (text * pyval);
    sc_cluster_group : option text;
    sc_groups : list text;
    sc_dr_groups : list text;
    sc_qm : list (text * text);
    sc_provision : option text;
    sc_secrets : list text;
    sc_alloc : list (text * pyval)
  }.

Record NodeSpec := mk_node {
    ns_box : pyval;
    ns_cpus : option pyval;
    ns_memory : option pyval;
    ns_extra_disk : option Z;
    ns_nics : list (text * text);
  ns_org : option text
  }.

Record Topo := mk_topo {
    t_nodes : list (text * NodeSpec);
    t_groups : list (text * list text);
    t_stacks : list (text * StackCfg);
    t_commons_groups : list text;
    t_svc : option text * option text;          (* svc.short, svc.conn *)
    t_boot_batch : option pyval;
    t_defaults : option pyval * option pyval;   (* defaults.cpus, defaults.memory *)
    t_memory_backing : option pyval
  }.

(** [all_groups.get(g, [])]. *)
Definition hosts_of (t : Topo) (g : text) : list text := dget_or (t_groups t) g [].

(** The hosts of a list of groups, flattened in order, first occurrences kept. *)
Definition flatten_groups (t : Topo) (groups : list text) : list text :=
  uniq (g ← groups; hosts_of t g).

(** ** stacks.py *)

Definition MECH_LABEL : list (text * text) :=
  [(u "pacemaker-san", u "PCMK"); (u "pacemaker-drbd", u "PCMK-DRBD"); (u "rdqm", u "RDQM");
   (u "native-ha", u "Native HA")].

Inductive StackError :=
  | NoFolderLabel (what : text)
  | MissingField (stack field : text)
  | BadSvcBlock.

Definition dashboard_folder_for (mechanism os_family : text) : res StackError text :=
  mech ← of_option (NoFolderLabel mechanism) (dget MECH_LABEL mechanism);
  os ← of_option (NoFolderLabel os_family) (dget FAMILIES os_family);
  Ok (mech ++ u " (" ++ os ++ u ")").

Record QmConfig := mk_qm {
    qm_name : text; qm_short : text; qm_vip : text; qm_vip_ext : text;
    qm_svc_conn : option text; qm_svc : text
  }.

Definition qm_app (q : QmConfig) : text := qm_name q.
Definition chl_to_svc (q : QmConfig) : text := qm_name q ++ u "." ++ qm_svc q.
Definition chl_to_app (q : QmConfig) : text := qm_svc q ++ u "." ++ qm_name q.
Definition req_queue (q : QmConfig) : text :=
  if bool_decide (qm_short q = []) then [] else qm_short q ++ u ".SVC.REQUEST".

Record Stack := mk_stack {
    s_name : text; s_mechanism : text; s_os_family : text; s_short : text;
    s_verbs : list (text * pyval); s_cluster_group : option text; s_groups : list text;
    s_dr_groups : list text; s_qm : QmConfig; s_provision : option text;
    s_secrets : list text; s_alloc : list (text * pyval)
  }.

Inductive unsupported := NeedsX86 (stack : text).

Definition rhel_stack_unsupported_reason (s : Stack) (facts : HostFacts) : option unsupported :=
  if bool_decide (s_os_family s = u "rhel") && bool_decide (hf_arch facts = AARCH64)
  then Some (NeedsX86 (s_name s)) else None.

(** [not short or not conn]: [None] and the empty text. *)
Definition svc_identity (t : Topo) : res StackError (text * text) :=
  match t_svc t with
  | (Some ((_ :: _) as short), Some ((_ :: _) as conn)) => Ok (short ++ u "QM", conn)
  | _ => Err BadSvcBlock
  end.

Definition qm_from_stack (short : text) (qm_cfg : list (text * text)) (svc_name svc_conn : text) :
    QmConfig :=
  mk_qm (short ++ u "APP") short (dget_or qm_cfg (u "vip") []) (dget_or qm_cfg (u "vip_ext") [])
    (Some svc_conn) svc_name.

(** [x or None] of a text. *)
Definition or_none (o : option text) : option text :=
  match o with Some (_ :: _) => o | _ => None end.

Definition lab_stack (svc : text * text) (name : text) (cfg : StackCfg) :
    res StackError (text * Stack) :=
  short ← of_option (MissingField name (u "short")) (sc_short cfg);
  mechanism ← of_option (MissingField name (u "mechanism")) (sc_mechanism cfg);
  os_family ← of_option (MissingField name (u "os_family")) (sc_os_family cfg);
  Ok (name, mk_stack name mechanism os_family short (sc_verbs cfg)
              (or_none (sc_cluster_group cfg)) (sc_groups cfg) (sc_dr_groups cfg)
              (qm_from_stack short (sc_qm cfg) svc.1 svc.2) (sc_provision cfg)
              (sc_secrets cfg) (sc_alloc cfg)).

Definition lab_stacks (t : Topo) : res StackError (list (text * Stack)) :=
  svc ← match t_stacks t with [] => Ok ([], []) | _ => svc_identity t end;
  res_mapM (λ nc, lab_stack svc nc.1 nc.2) (t_stacks t).

Definition stack_members (t : Topo) (name : text) : option (list text) :=
  (λ cfg, flatten_groups t (sc_groups cfg)) <$> dget (t_stacks t) name.

Definition stack_dr_hosts (t : Topo) (name : text) : list text :=
  match dget (t_stacks t) name with
  | Some cfg => flatten_groups t (sc_dr_groups cfg)
  | None => []
  end.

Definition stack_members_effective (t : Topo) (name : text) (no_dr : bool) :
    option (list text) :=
  match stack_members t name with
  | Some members =>
      if no_dr then
        let dr := stack_dr_hosts t name in
        Some (List.filter (λ m, negb (bool_decide (m ∈ dr))) members)
      else Some members
  | None => None
  end.

(** ** versions.py: the nodes *)

Inductive NodeError :=
  | NoBoxRole (node : text)
  | RoleNotInCatalog (node role : text) (known : list text)
  | OsFamilyDisagrees (stack : text) (declared : option text) (r : OsRef)
  | NotOneStack (node role : text) (owners : list text)
  | NodeKeyError (stack : text)
  | BadRecord (stack : text)
  | InCatalog (e : CatalogError).

Definition node_role (node : text) (spec : NodeSpec) : res NodeError text :=
  match ns_box spec with
  | PyStr ((_ :: _) as role) => Ok role
  | _ => Err (NoBoxRole node)
  end.

(** [owners = out.setdefault(host, []); if stack not in owners: owners.append(stack)]. *)
Definition own (stack : text) (out : list (text * list text)) (host : text) :
    list (text * list text) :=
  dset out host (add_new (dget_or out host []) stack).

Definition node_stacks (t : Topo) : list (text * list text) :=
  foldl (λ out sc, foldl (own sc.1) out (g ← sc_groups sc.2; hosts_of t g))
    ((λ n, (n.1, [])) <$> t_nodes t) (t_stacks t).

Definition known_role (node role : text) (c : Catalog) : res NodeError text :=
  if dmem role (c_roles c) then Ok role
  else Err (RoleNotInCatalog node role (sorted_text (c_roles c).*1)).

(** [out[stack].add(role)]; a KeyError for a stack that is not one of the topology's. *)
Definition add_role_to (role : text) (out : list (text * gset text)) (stack : text) :
    res NodeError (list (text * gset text)) :=
  roles ← of_option (NodeKeyError stack) (dget out stack);
  Ok (dset out stack (roles ∪ {[ role ]})).

Definition stack_roles (t : Topo) (c : Catalog) : res NodeError (list (text * gset text)) :=
  let owners := node_stacks t in
  res_foldM (λ out n,
    role ← node_role n.1 n.2;
    role ← known_role n.1 role c;
    if bool_decide (role ∈ SHARED_ROLES) then Ok out
    else res_foldM (add_role_to role) out (dget_or owners n.1 []))
    ((λ sc, (sc.1, ∅)) <$> t_stacks t) (t_nodes t).

Section node_boxes.
(** The OS of each stack's instance record, if it has one; a record that cannot be
  read back is the VersionError [BadRecord]. *)
Context (record_os : text → res NodeError (option OsRef)).

Definition stack_ref (stack : text) (c : Catalog) : res NodeError OsRef :=
  rec ← record_os stack;
  match rec with
  | Some r => Ok r
  | None => map_err InCatalog (default_os c stack)
  end.

Definition resolve_stack (c : Catalog) (refs : list (text * OsRef)) (sc : text * StackCfg) :
  res NodeError (list (text * OsRef)) :=
  r ← stack_ref sc.1 c;
  _ ← raise_if (negb (bool_decide (sc_os_family sc.2 = Some (ref_family r))))
      (OsFamilyDisagrees sc.1 (sc_os_family sc.2) r);
  Ok (dset refs sc.1 r).

Definition node_box (c : Catalog) (owners : list (text * list text))
  (refs : list (text * OsRef)) (n : text * NodeSpec) : res NodeError (text * BoxEntry) :=
  role ← node_role n.1 n.2;
  role ← known_role n.1 role c;
  if bool_decide (role ∈ SHARED_ROLES) then
  b ← map_err InCatalog (r ← shared_os c role; box c role r); Ok (n.1, b)
  else
  match dget_or owners n.1 [] with
  | [stack] =>
      r ← of_option (NodeKeyError stack) (dget refs stack);
      b ← map_err InCatalog (box c role r); Ok (n.1, b)
  | listed => Err (NotOneStack n.1 role listed)
  end.

Definition node_boxes (t : Topo) (c : Catalog) : res NodeError (list (text * BoxEntry)) :=
  let owners := node_stacks t in
  refs ← res_foldM (resolve_stack c) [] (t_stacks t);
  res_mapM (node_box c owners refs) (t_nodes t).
End node_boxes.

(** ** Lemmas *)

Lemma elem_of_flatten t groups h :
  h ∈ flatten_groups t groups ↔ ∃ g, g ∈ groups ∧ h ∈ hosts_of t g.
Proof.
  unfold flatten_groups. rewrite elem_of_uniq, list_elem_of_bind. naive_solver.
Qed.

Lemma NoDup_flatten t groups : NoDup (flatten_groups t groups).
Proof. apply NoDup_uniq. Qed.

(** Folding [own] over the hosts of one stack. *)
Lemma foldl_own stack hosts out h s :
  s ∈ dget_or (foldl (own stack) out hosts) h [] ↔
    s ∈ dget_or out h [] ∨ (s = stack ∧ h ∈ hosts).
Proof.
  revert out. induction hosts as [|x hosts IH]; intros out; simpl; [set_solver|].
  rewrite IH. unfold own at 1, dget_or. rewrite dget_dset. case_decide.
  - subst. simpl. rewrite elem_of_add_new. unfold dget_or. set_solver.
  - set_solver.
Qed.

Lemma foldl_own_stacks (f : text * StackCfg → list text) scs out h s :
  s ∈ dget_or (foldl (λ out sc, foldl (own sc.1) out (f sc)) out scs) h [] ↔
    s ∈ dget_or out h [] ∨ ∃ cfg, (s, cfg) ∈ scs ∧ h ∈ f (s, cfg).
Proof.
  revert out. induction scs as [|[s' cfg'] scs IH]; intros out; simpl; [set_solver|].
  rewrite IH, foldl_own. simpl. setoid_rewrite elem_of_cons. naive_solver.
Qed.

Lemma NoDup_own stack hosts out h :
  (∀ h, NoDup (dget_or out h [])) → NoDup (dget_or (foldl (own stack) out hosts) h []).
Proof.
  revert out. induction hosts as [|x hosts IH]; intros out Hout; simpl; [done|].
  apply IH. intros h'. unfold own, dget_or. rewrite dget_dset. case_decide; [|apply Hout].
  simpl. apply (NoDup_uniq_onto _ [stack]). apply Hout.
Qed.

Lemma node_stacks_nil t h : dget_or ((λ n : text * NodeSpec, (n.1, @nil text)) <$> t_nodes t) h [] = [].
Proof.
  unfold dget_or. destruct (dget _ h) eqn:Hg; [|done].
  apply dget_elem, list_elem_of_fmap in Hg as (? & [= -> ->] & _). done.
Qed.

Lemma node_stacks_spec t h s :
  s ∈ dget_or (node_stacks t) h [] ↔
    ∃ cfg g, (s, cfg) ∈ t_stacks t ∧ g ∈ sc_groups cfg ∧ h ∈ hosts_of t g.
Proof.
  unfold node_stacks.
  rewrite (foldl_own_stacks (λ sc, g ← sc_groups sc.2; hosts_of t g)), node_stacks_nil.
  simpl. setoid_rewrite list_elem_of_bind. set_solver.
Qed.

Lemma node_role_Ok node spec role :
  node_role node spec = Ok role ↔ ns_box spec = PyStr role ∧ role ≠ [].
Proof. unfold node_role. destruct (ns_box spec); try case_match; naive_solver. Qed.

Lemma known_role_Ok node role c r :
  known_role node role c = Ok r ↔ r = role ∧ role ∈ (c_roles c).*1.
Proof. unfold known_role. rewrite <-dmem_true. case_match; naive_solver. Qed.

(** The stacks that own a node. *)
Definition owned_by (t : Topo) (h stack : text) : Prop :=
  ∃ cfg g, (stack, cfg) ∈ t_stacks t ∧ g ∈ sc_groups cfg ∧ h ∈ hosts_of t g.

Lemma owner_list t h owners :
  dget_or (node_stacks t) h [] = owners → ∀ s, s ∈ owners ↔ owned_by t h s.
Proof. intros <- s. apply node_stacks_spec. Qed.

(** What the first loop of [node_boxes] has resolved. *)
Lemma resolve_stacks_spec record_os c t refs :
  res_foldM (resolve_stack record_os c) [] (t_stacks t) = Ok refs →
  ∀ s r, dget refs s = Some r → ∃ cfg, (s, cfg) ∈ t_stacks t ∧
    stack_ref record_os s c = Ok r ∧ sc_os_family cfg = Some (ref_family r).
Proof.
  apply (res_foldM_ind (λ _ refs, ∀ s r, dget refs s = Some r →
    ∃ cfg, (s, cfg) ∈ t_stacks t ∧
      stack_ref record_os s c = Ok r ∧ sc_os_family cfg = Some (ref_family r))); [done|].
  intros _ [s' cfg'] s0 s1 IH Hin H. unfold resolve_stack in H. res_inv.
  match goal with H : negb _ = false |- _ => apply negb_false_iff, bool_decide_eq_true in H end.
  simpl in *. subst s1. intros s r. rewrite dget_dset. case_decide; [|by apply IH].
  intros [= ->]. subst. eauto.
Qed.

(** The box of one node. *)
Definition box_for (record_os : text → res NodeError (option OsRef)) (t : Topo) (c : Catalog) (name role : text)
    (b : BoxEntry) : Prop :=
  (role ∈ SHARED_ROLES ∧ ∃ r, shared_os c role = Ok r ∧ box c role r = Ok b) ∨
  ((role ∉ SHARED_ROLES) ∧ ∃ stack cfg r, (∀ s, owned_by t name s ↔ s = stack) ∧
     (stack, cfg) ∈ t_stacks t ∧ stack_ref record_os stack c = Ok r ∧
     sc_os_family cfg = Some (ref_family r) ∧ box c role r = Ok b).

Lemma node_box_Ok record_os t c refs n nb :
  res_foldM (resolve_stack record_os c) [] (t_stacks t) = Ok refs →
  node_box c (node_stacks t) refs n = Ok nb →
  nb.1 = n.1 ∧ ∃ role, ns_box n.2 = PyStr role ∧ role ∈ (c_roles c).*1 ∧
    box_for record_os t c n.1 role nb.2.
Proof.
  intros Hrefs H. unfold node_box in H.
  apply bind_Ok in H as (role & Hrole & H). apply node_role_Ok in Hrole as [Hrole _].
  apply bind_Ok in H as (role' & Hk & H). apply known_role_Ok in Hk as [-> Hk].
  destruct (bool_decide (role ∈ SHARED_ROLES)) eqn:Hs.
  - apply bool_decide_eq_true in Hs. res_inv. subst nb. simpl. split; [done|].
    exists role. split_and!; [done..|]. left. eauto.
  - apply bool_decide_eq_false in Hs.
    destruct (dget_or (node_stacks t) n.1 []) as [|stack [|]] eqn:Ho; [done| |done].
    res_inv. subst nb. simpl. split; [done|]. exists role. split_and!; [done..|]. right.
    destruct (resolve_stacks_spec _ _ _ _ Hrefs stack x) as (cfg & ? & ? & ?); [done|].
    split; [done|]. exists stack, cfg, x. split_and!; [|done..].
    intros s. rewrite <-(owner_list _ _ _ Ho). set_solver.
Qed.

Lemma node_boxes_Ok record_os t c boxes :
  node_boxes record_os t c = Ok boxes →
  boxes.*1 = (t_nodes t).*1 ∧
  (∀ name b, (name, b) ∈ boxes → ∃ spec role, (name, spec) ∈ t_nodes t ∧
     ns_box spec = PyStr role ∧ role ∈ (c_roles c).*1 ∧ box_for record_os t c name role b).
Proof.
  unfold node_boxes. intros H. apply bind_Ok in H as (refs & Hrefs & H).
  apply res_mapM_Ok in H. split.
  - induction H as [|n nb ns nbs Hn _ IH]; csimpl; [done|]. rewrite IH. f_equal.
    by destruct (node_box_Ok _ _ _ _ _ _ Hrefs Hn).
  - intros name b (i & Hi)%list_elem_of_lookup.
    destruct (Forall2_lookup_r _ _ _ _ _ H Hi) as ([name' spec] & Hl & Hn).
    destruct (node_box_Ok _ _ _ _ _ _ Hrefs Hn) as (Heq & role & ? & ? & ?).
    simpl in *. subst name'. apply list_elem_of_lookup_2 in Hl. eauto 10.
Qed.

(** [out[stack].add(role)] over the owners of a node. *)
Lemma add_roles_spec role owners out out' :
  res_foldM (add_role_to role) out owners = Ok out' →
  (∀ s rs, dget out s = Some rs → ∃ rs', dget out' s = Some rs' ∧ rs ⊆ rs') ∧
  (∀ s, s ∈ owners → ∃ rs', dget out' s = Some rs' ∧ role ∈ rs').
Proof.
  apply (res_foldM_ind (λ done o,
    (∀ s rs, dget out s = Some rs → ∃ rs', dget o s = Some rs' ∧ rs ⊆ rs') ∧
    (∀ s, s ∈ done → ∃ rs', dget o s = Some rs' ∧ role ∈ rs'))); [set_solver|].
  intros dn x o o' [H1 H2] _ H. unfold add_role_to in H. res_inv. subst o'.
  assert (∀ s rs, dget o s = Some rs → ∃ rs', dget (dset o x (x0 ∪ {[role]})) s = Some rs' ∧
    rs ⊆ rs') as Hmono.
  { intros s rs Hs. rewrite dget_dset. case_decide; [|by eauto]. subst.
    eexists; split; [done|]. simplify_eq. set_solver. }
  split.
  - intros s rs (rs1 & Hs1 & ?)%H1. apply Hmono in Hs1 as (rs2 & ? & ?). exists rs2.
    split; [done|set_solver].
  - intros s Hs. apply elem_of_app in Hs as [(rs1 & Hs1 & ?)%H2| ->%list_elem_of_singleton].
    + apply Hmono in Hs1 as (rs2 & ? & ?). exists rs2. split; [done|set_solver].
    + rewrite dget_dset_eq. eexists; split; [done|set_solver].
Qed.

Lemma stack_roles_spec t c rs :
  stack_roles t c = Ok rs →
  ∀ name spec role s, (name, spec) ∈ t_nodes t → ns_box spec = PyStr role →
    role ∉ SHARED_ROLES → owned_by t name s →
    ∃ roles, dget rs s = Some roles ∧ role ∈ roles.
Proof.
  unfold stack_roles.
  apply (res_foldM_ind (λ dn out, ∀ name spec role s, (name, spec) ∈ dn →
    ns_box spec = PyStr role → role ∉ SHARED_ROLES → owned_by t name s →
    ∃ roles, dget out s = Some roles ∧ role ∈ roles)); [set_solver|].
  intros dn [name' spec'] o o' IH _ H name spec role s Hin Hb Hns Hown.
  apply bind_Ok in H as (r1 & Hr1 & H). apply node_role_Ok in Hr1 as [Hr1 _].
  apply bind_Ok in H as (r2 & Hk & H). apply known_role_Ok in Hk as [-> _].
  cbn [fst snd] in *. apply elem_of_app in Hin as [Hin|Hin].
  - destruct (IH _ _ _ _ Hin Hb Hns Hown) as (roles & Hr & Hmem).
    case_bool_decide; [injection H as <-; eauto|].
    apply add_roles_spec in H as [H _]. destruct (H _ _ Hr) as (rs' & ? & ?).
    exists rs'. split; [done|set_solver].
  - apply list_elem_of_singleton in Hin. simplify_eq.
    rewrite Hb in Hr1. injection Hr1 as <-. rewrite bool_decide_eq_false_2 in H by done.
    apply add_roles_spec in H as [_ H]. apply H. by rewrite owner_list.
Qed.

(** ** Properties *)

(** The box every node boots: [node_boxes], when it succeeds, gives each node of
    the topology, in the topology's order, the box of its declared role: a shared
    role on the lab's shared OS, any other on the OS of the one stack that owns the
    node, the stack's recorded OS or else its catalog default, which is of the
    family the stack declares. *)
Theorem node_boxes_sound record_os t c boxes :
  node_boxes record_os t c = Ok boxes →
  boxes.*1 = (t_nodes t).*1 ∧
  (∀ name b, (name, b) ∈ boxes → ∃ spec role, (name, spec) ∈ t_nodes t ∧
     ns_box spec = PyStr role ∧ role ∈ (c_roles c).*1 ∧ box_for record_os t c name role b).
Proof. apply node_boxes_Ok. Qed.

(** Every box a node boots is one the lab bakes: with a valid catalog, whenever
    [node_boxes], [stack_roles] and [all_boxes] (without a host filter) succeed on one
    topology, and each recorded OS is one its stack supports, the box of every node
    has the name of a box in the inventory. *)
Theorem node_boxes_baked record_os t c boxes roles inventory :
  catalog_ok c →
  (∀ s r, record_os s = Ok (Some r) → ∃ spec, dget (c_stacks c) s = Some spec ∧
     r ∈ ss_supported spec) →
  node_boxes record_os t c = Ok boxes → stack_roles t c = Ok roles →
  all_boxes c None roles = Ok inventory →
  ∀ name b, (name, b) ∈ boxes → be_name b ∈ be_name <$> inventory.
Proof.
  intros Hc Hrec Hb Hr (_ & _ & Hsh & Hst)%all_boxes_Ok name b Hin.
  apply node_boxes_Ok in Hb as [_ Hb].
  destruct (Hb _ _ Hin) as (spec & role & Hn & Hbox & _ & [Hs|Hs]).
  - destruct Hs as (Hrole & r & Hos & Hbx). destruct (Hsh _ _ Hrole Hos) as (b' & ? & ?).
    by assert (b = b') as -> by congruence.
  - destruct Hs as (Hrole & stack & cfg & r & Hown & Hcfg & Href & _ & Hbx).
    destruct (stack_roles_spec _ _ _ Hr _ _ _ stack Hn Hbox Hrole) as (rs & Hrs & Hmem);
      [by apply Hown|].
    assert (∃ sp, dget (c_stacks c) stack = Some sp ∧ r ∈ ss_supported sp) as (sp & ? & ?).
    { unfold stack_ref in Href. destruct (record_os stack) as [[r'|]|] eqn:Hrs'; simpl in Href; [| |done].
      - injection Href as ->. by apply Hrec.
      - unfold default_os, stack_spec in Href. res_inv. subst r. eexists; split; [done|].
        by apply (cok_stacks _ Hc stack). }
    apply dget_elem in Hrs.
    destruct (Hst stack rs role sp r Hrs Hmem) as (b' & ? & ?); [done..|].
    by assert (b = b') as -> by congruence.
Qed.

(** The members a verb acts on: the effective members of a stack are its group
    hosts, each once and in the order of the full member list, and without
    disaster recovery exactly those of them that no DR group names. *)
Theorem members_effective_exact t name no_dr ms :
  stack_members_effective t name no_dr = Some ms →
  ∃ cfg, dget (t_stacks t) name = Some cfg ∧ NoDup ms ∧
    ms `sublist_of` flatten_groups t (sc_groups cfg) ∧
    ∀ h, h ∈ ms ↔ (∃ g, g ∈ sc_groups cfg ∧ h ∈ hosts_of t g) ∧
      (no_dr = true → ¬ ∃ g, g ∈ sc_dr_groups cfg ∧ h ∈ hosts_of t g).
Proof.
  unfold stack_members_effective, stack_members, stack_dr_hosts.
  destruct (dget (t_stacks t) name) as [cfg|]; [|done]. simpl. intros H. exists cfg.
  split; [done|].
  assert (ms = List.filter (λ m, negb (no_dr && bool_decide (m ∈ flatten_groups t (sc_dr_groups cfg))))
    (flatten_groups t (sc_groups cfg))) as ->.
  { destruct no_dr; simplify_eq; simpl; [done|]. symmetry. by apply forallb_filter_id, forallb_forall. }
  split_and!.
  - apply NoDup_ListNoDup, List.NoDup_filter, NoDup_ListNoDup, NoDup_flatten.
  - clear H. induction (flatten_groups t (sc_groups cfg)) as [|x l IH]; simpl; [constructor|].
    case_if; by constructor.
  - intros h. rewrite list_elem_of_In, filter_In, <-list_elem_of_In, elem_of_flatten.
    rewrite negb_true_iff, andb_false_iff, bool_decide_eq_false, elem_of_flatten.
    destruct no_dr; naive_solver.
Qed.

(** ** Witnesses: a topology in the shape of lab/topology.yaml *)

Definition demo_node (role : string) (extra : option Z) : NodeSpec :=
  mk_node (ys role) None None extra [(u "net-mgmt", u "10.0.0.9"); (u "net-hb-a", u "10.1.0.9")] None.

Definition demo_cfg (family short : string) (groups dr : list text) : StackCfg :=
  mk_cfg (Some (u "rdqm")) (Some (u family)) (Some (u short)) [] None groups dr
    [(u "vip", u "10.2.0.1")] (Some (u "ansible/site-rdqm.yml")) [] [].

Definition demo_topo : Topo :=
  mk_topo
    [(u "rdqm-a1", demo_node "mq-rdqm" (Some 10%Z)); (u "rdqm-a2", demo_node "mq-rdqm" None);
     (u "rdqm-b1", demo_node "mq-rdqm" None); (u "probe", demo_node "mq-client" None);
     (u "infra-client", demo_node "infra" None); (u "pcmk-1", demo_node "mq-rdqm" None)]
    [(u "rdqm_a", [u "rdqm-a1"; u "rdqm-a2"]); (u "rdqm_b", [u "rdqm-b1"]);
     (u "probe", [u "probe"]); (u "infra", [u "infra-client"]); (u "pcmk", [u "pcmk-1"])]
    [(u "rdqm-rhel", demo_cfg "rhel" "RR" [u "rdqm_a"; u "rdqm_b"] [u "rdqm_b"]);
     (u "pcmk-ubuntu", demo_cfg "ubuntu" "PU" [u "pcmk"] [])]
    [u "probe"; u "infra"] (Some (u "SVC"), Some (u "svc(1414)")) None (None, None) None.

Definition demo_record (s : text) : res NodeError (option OsRef) := Ok (
  if bool_decide (s = u "pcmk-ubuntu") then Some (mk_ref (u "ubuntu") 26) else None).

Lemma node_boxes_sound_witness :
  ∃ boxes, node_boxes demo_record demo_topo demo_catalog = Ok boxes ∧
    (be_name <$> boxes.*2) =
      [u "mq-rdqm-rhel9"; u "mq-rdqm-rhel9"; u "mq-rdqm-rhel9"; u "mq-client-ubuntu24";
       u "infra-ubuntu24"; u "mq-rdqm-ubuntu26"] ∧
    boxes.*1 = (t_nodes demo_topo).*1.
Proof.
  destruct (node_boxes demo_record demo_topo demo_catalog) as [boxes|e] eqn:H;
    [|by vm_compute in H].
  exists boxes. split; [done|]. split; [by vm_compute in H; injection H as <-|].
  by apply (node_boxes_sound _ _ _ _ H).
Defined.

Lemma node_boxes_baked_witness :
  ∃ boxes roles inventory, node_boxes demo_record demo_topo demo_catalog = Ok boxes ∧
    stack_roles demo_topo demo_catalog = Ok roles ∧
    all_boxes demo_catalog None roles = Ok inventory ∧
    ∀ name b, (name, b) ∈ boxes → be_name b ∈ be_name <$> inventory.
Proof.
  destruct (node_boxes demo_record demo_topo demo_catalog) as [boxes|e] eqn:H;
    [|by vm_compute in H].
  destruct (stack_roles demo_topo demo_catalog) as [roles|e] eqn:Hr; [|by vm_compute in Hr].
  destruct (all_boxes demo_catalog None roles) as [inv|e] eqn:Ha;
    [|exfalso; vm_compute in Hr; injection Hr as <-; by vm_compute in Ha].
  exists boxes, roles, inv. split_and!; [done..|].
  apply (node_boxes_baked demo_record demo_topo demo_catalog boxes roles inv demo_catalog_ok);
    [|done..].
  intros s r. unfold demo_record. case_bool_decide as Hs; intros [= <-]. subst s.
  eexists. split; [by vm_compute|]. by right; left.
Defined.

Lemma members_effective_exact_witness :
  stack_members_effective demo_topo (u "rdqm-rhel") true = Some [u "rdqm-a1"; u "rdqm-a2"] ∧
  NoDup [u "rdqm-a1"; u "rdqm-a2"].
Proof.
  assert (stack_members_effective demo_topo (u "rdqm-rhel") true =
    Some [u "rdqm-a1"; u "rdqm-a2"]) as H by (by vm_compute).
  split; [done|]. by destruct (members_effective_exact _ _ _ _ H) as (? & _ & ? & _).
Defined.
