(* ===== verification/Phases.v ===== *)
(** * The bring-up phases

    Models [mqlab/phases.py], the path helpers of [mqlab/paths.py] it uses and the
    phase selection of [mqlab/cli.py]: which commands each phase of a bootstrap runs
    for a stack, when a phase is satisfied, and where a re-run resumes. The effective
    topology, the catalog, the recorded OS of each stack, the repository root and the
    names of the lab's networks are inputs, as the module reads them. *)

From S2P Require Import Prelude PyText PyCodec PyFloat PyDict Hostfacts Versions VersionsLoad.
From S2P Require Import Stacks Lifecycle Orchestrator.

(** ** paths.py: joining path segments *)

Definition SLASH : N := 47.

(** [p / s] for a normalised path [p] and a plain segment [s]. *)
Definition path_join (p s : text) : text :=
  if bool_decide (p = u ".") then s
  else if bool_decide (p = [SLASH]) then p ++ s else p ++ [SLASH] ++ s.

Definition path_of (root : text) (parts : list string) : text :=
  foldl (λ p s, path_join p (u s)) root parts.

(** [PurePosixPath(s).name]: empty and [.] components are dropped. *)
Definition path_name (s : text) : text :=
  default [] (last (List.filter (λ p, negb (bool_decide (p = []) || bool_decide (p = u ".")))
                      (split_on SLASH s))).

Definition lab_script (root : text) (name : text) : text :=
  path_join (path_of root ["lab"; "scripts"]%string) name.

Definition mq_exporters_path (root : text) : text :=
  path_of root ["build"; "work"; "obs"; "mq-exporters.json"]%string.

Definition logsearch_state (root : text) : text :=
  path_of root ["build"; "state"; "logsearch"]%string.

(** ** Phases *)

Definition NET : text := u "net".
Definition VMS : text := u "vms".
Definition PROVISION : text := u "provision".
Definition OBSERVE : text := u "observe".

(** What the probes read: [build_states]. *)
Record States := build_states {
    w_nets : list (text * text);
    w_domains : list (text * text);
    w_qm_up : bool;
    w_observe : bool
  }.

(** The exceptions of a step builder. *)
Inductive PhaseError :=
  | InNodes (e : NodeError)
  | BadBootBatch (value : pyval)
  | NotANode (guest : text)
  | NoProvision (stack : text).

Definition stamped (phase : text) (steps : list CommandStep) : list CommandStep :=
  (λ s, mk_step (st_label s) (st_command s) (st_retry s) phase) <$> steps.

(** [CommandStep(label, Command(argv, cwd=cwd))], unphased and unretried. *)
Definition plain_step (label : text) (argv : list text) (cwd : option text) : CommandStep :=
  mk_step label (mk_command argv cwd None) None [].

Definition NON_MQ_COMMONS_GROUPS : list text := [u "infra"].
Definition OBS_GROUP : text := u "obs_box".
Definition DEFAULT_BOOT_BATCH : Z := 4.

(** [RetryPolicy(attempts=3, base_delay=15.0, backoff=2.0, max_delay=60.0)]. *)
Definition BOOT_RETRY : RetryPolicy :=
  mk_policy 3 (float_of_Z 15) (float_of_Z 2) (float_of_Z 60).

(** Two equal elements in a list: [len(set(keys)) != len(keys)]. *)
Definition has_repeat (keys : list text) : bool :=
  negb (size (list_to_set keys : gset text) =? length keys)%nat.

(** [[guests[i : i + size] for i in range(0, len(guests), size)]]. *)
Definition batch_guests (guests : list text) (size : nat) : list (list text) :=
  (λ k, take size (drop (k * size) guests)) <$> seq 0 ((length guests + size - 1) / size).

Definition guest_box (guest : text) (boxes : list (text * BoxEntry)) : res PhaseError text :=
  b ← of_option (NotANode guest) (dget boxes guest); Ok (be_name b).

Definition batch_shares_box (batch : list text) (boxes : list (text * BoxEntry)) :
    res PhaseError bool :=
  keys ← res_mapM (λ g, guest_box g boxes) batch; Ok (has_repeat keys).

Definition qm_extra_vars (stack : Stack) : list text :=
  let qm := s_qm stack in
  [u "-e"; u "qm_app=" ++ qm_app qm; u "-e"; u "qm_svc=" ++ qm_svc qm;
   u "-e"; u "chl_to_svc=" ++ chl_to_svc qm; u "-e"; u "chl_to_app=" ++ chl_to_app qm;
   u "-e"; u "svc_req_queue=" ++ req_queue qm].

(** [f"{name} vms up"], numbered when there are several batches. *)
Definition vms_label (name : text) (index total : nat) : text :=
  if (total =? 1)%nat then name ++ u " vms up"
  else name ++ u " vms up [" ++ N_text (N.of_nat index) ++ [SLASH] ++ N_text (N.of_nat total)
       ++ u "]".

Section phases.
Context (root : text) (lab_net_names : list text) (t : Topo) (c : Catalog)
  (record_os : text → res NodeError (option OsRef)).

(** ** Topology helpers *)

Definition commons_members : list text := flatten_groups t (t_commons_groups t).

Definition group_hosts (group : text) : list text := hosts_of t group.

Definition non_mq_commons_hosts : list text := g ← NON_MQ_COMMONS_GROUPS; hosts_of t g.

Definition all_vms (stack : Stack) (no_dr : bool) : list text :=
  let members := default [] (stack_members_effective t (s_name stack) no_dr) in
  uniq_onto members commons_members.

Definition is_infra (vm : text) : bool := bool_decide (vm ∈ non_mq_commons_hosts).

Definition boot_order (stack : Stack) (no_dr : bool) : list text :=
  let vms := all_vms stack no_dr in
  List.filter is_infra vms ++ List.filter (λ vm, negb (is_infra vm)) vms.

(** ** net *)

Definition net_build_steps (stack : Stack) (no_dr : bool) : res PhaseError (list CommandStep) :=
  Ok (stamped NET
  [plain_step (u "networks up")
     (u "bash" :: lab_script root (u "net-up.sh") :: lab_net_names) None]).

Definition net_satisfied (stack : Stack) (states : States) : bool :=
  forallb (λ net, bool_decide (classify_net (w_nets states) net = ACTIVE)) lab_net_names.

(** ** vms *)

(** [isinstance(value, int)], [bool] refused, at least 1. *)
Definition boot_batch : res PhaseError nat :=
  match default (PyInt DEFAULT_BOOT_BATCH) (t_boot_batch t) with
  | PyInt z => if (z <? 1)%Z then Err (BadBootBatch (PyInt z)) else Ok (Z.to_nat z)
  | value => Err (BadBootBatch value)
  end.

Definition vms_step (stack : Stack) (boxes : list (text * BoxEntry)) (total : nat)
  (ib : nat * list text) : res PhaseError CommandStep :=
  shares ← batch_shares_box ib.2 boxes;
  Ok (mk_step (vms_label (s_name stack) ib.1 total)
      (mk_command (u "vagrant" :: u "up" :: (if shares : bool then [u "--no-parallel"] else [])
                     ++ ib.2)
         (Some (path_of root ["lab"]%string)) None)
      (Some BOOT_RETRY) []).

Definition vms_build_steps (stack : Stack) (no_dr : bool) : res PhaseError (list CommandStep) :=
  boxes ← map_err InNodes (node_boxes record_os t c);
  size ← boot_batch;
  let batches := batch_guests (boot_order stack no_dr) size in
  steps ← res_mapM (vms_step stack boxes (length batches))
          (zip (seq 1 (length batches)) batches);
  Ok (stamped VMS steps).

Definition vms_satisfied (stack : Stack) (states : States) : bool :=
  forallb (λ vm, bool_decide (classify (w_domains states) vm = RUNNING)) (all_vms stack false).

(** ** provision *)

(** The declared NIC addresses of one node, as text, the empty ones dropped. *)
Definition nic_ips (name : text) : list text :=
  match dget (t_nodes t) name with
  | Some spec => List.filter nonempty (ns_nics spec).*2
  | None => []
  end.

Definition is_rhel (boxes : list (text * BoxEntry)) (name : text) : bool :=
  match dget boxes name with
  | Some b => bool_decide (ref_family (oe_ref (be_os b)) = u "rhel")
  | None => false
  end.

(** The (upload, sudo-run) pair of one node. *)
Definition nic_pair (boxes : list (text * BoxEntry)) (script label name : text) :
  list CommandStep :=
  if is_rhel boxes name then
  match nic_ips name with
  | [] => []
  | ips =>
      let dest := u "/home/vagrant/" ++ script in
      let lab := Some (path_of root ["lab"]%string) in
      [plain_step (label ++ u " upload " ++ name)
         [u "vagrant"; u "upload"; u "scripts/" ++ script; dest; name] lab;
       plain_step (label ++ u " " ++ name)
         [u "vagrant"; u "ssh"; name; u "-c";
          u "sudo bash " ++ dest ++ u " " ++ str_join (u " ") ips] lab]
  end
  else [].

Definition rhel_nat_nic_steps (stack : Stack) (script label : text) (no_dr : bool) :
  res PhaseError (list CommandStep) :=
  boxes ← map_err InNodes (node_boxes record_os t c);
  Ok (name ← all_vms stack no_dr; nic_pair boxes script label name).

Definition nic_config_steps (stack : Stack) (no_dr : bool) : res PhaseError (list CommandStep) :=
  rhel_nat_nic_steps stack (u "nic-config.sh") (u "nic-config") no_dr.

Definition nic_assure_steps (stack : Stack) (no_dr : bool) : res PhaseError (list CommandStep) :=
  rhel_nat_nic_steps stack (u "nic-assure.sh") (u "nic-assure") no_dr.

Definition provision_build_steps (stack : Stack) (no_dr : bool) :
  res PhaseError (list CommandStep) :=
  provision ← of_option (NoProvision (s_name stack)) (s_provision stack);
  let ansible := Some (path_of root ["ansible"]%string) in
  let nodes := str_join (u ",") (all_vms stack no_dr) in
  let dr_vars := if no_dr then [u "-e"; u "dr_enabled=false"] else [] in
  config ← nic_config_steps stack no_dr;
  assure ← nic_assure_steps stack no_dr;
  Ok (stamped PROVISION
  (config ++ assure ++
   [plain_step (u "render dns zones") [u "mqlab"; u "dns"; u "render"] None;
    plain_step (s_name stack ++ u " provision dns")
      [u "ansible-playbook"; u "site-dns.yml"; u "--limit"; nodes] ansible;
    plain_step (s_name stack ++ u " provision")
      (u "ansible-playbook" :: path_name provision :: qm_extra_vars stack ++ dr_vars) ansible])).

Definition provision_satisfied (stack : Stack) (states : States) : bool := w_qm_up states.

(** ** observe *)

Definition observe_build_steps (stack : Stack) (no_dr : bool) :
  res PhaseError (list CommandStep) :=
  let ansible := Some (path_of root ["ansible"]%string) in
  let nodes := str_join (u ",") (all_vms stack no_dr) in
  Ok (stamped OBSERVE
  [plain_step (u "render targets")
     [u "mqlab"; u "obs"; u "targets"; u "--stack"; s_name stack] None;
   plain_step (u "render dashboard") [u "mqlab"; u "obs"; u "dashboard"] None;
   plain_step (u "render reach-peers") [u "mqlab"; u "obs"; u "reach-peers"] None;
   plain_step (s_name stack ++ u " provision observability")
     ([u "ansible-playbook"; u "site-obs.yml"; u "-e"; u "@" ++ mq_exporters_path root;
       u "-e"; u "opensearch_snapshot_state_dir=" ++ logsearch_state root]
      ++ qm_extra_vars stack) ansible;
   plain_step (s_name stack ++ u " instrument nodes")
     ([u "ansible-playbook"; u "observability.yml"; u "--limit"; nodes] ++ qm_extra_vars stack)
     ansible;
   plain_step (s_name stack ++ u " instrument host")
     [u "ansible-playbook"; u "host-obs.yml"; u "-c"; u "local"; u "-i"; u "localhost,"]
     ansible;
   plain_step (u "publish net state")
     [u "bash"; lab_script root (u "net-state-publish.sh")] None;
   plain_step (u "heal grafana port-forward relay") [u "mqlab"; u "obs"; u "relay-heal"] None]).

Definition observe_satisfied (stack : Stack) (states : States) : bool := w_observe states.

(** ** The registry *)

Record Phase := mk_phase {
  p_name : text;
  p_build_steps : Stack → bool → res PhaseError (list CommandStep);
  p_satisfied : Stack → States → bool;
  p_ensure : list text
  }.

Definition PHASES : list Phase :=
  [mk_phase NET net_build_steps net_satisfied [];
   mk_phase VMS vms_build_steps vms_satisfied [u "boxes"; u "mq"];
   mk_phase PROVISION provision_build_steps provision_satisfied [u "galaxy"; u "mq"; u "pki"];
   mk_phase OBSERVE observe_build_steps observe_satisfied [u "pki"]].

(** The guests whose boxes are ensured before a phase's steps ([_ensure_prereqs_for_stack]): the
    whole stack's, whatever [--no-dr] says. *)
Definition ensured_guests (p : Phase) (stack : Stack) : list text :=
  if bool_decide (u "boxes" ∈ p_ensure p) then all_vms stack false else [].

(** The loop of [first_unsatisfied], from index [i] on. *)
Fixpoint first_unsatisfied_from (i : nat) (phases : list Phase) (stack : Stack)
  (states : States) : option nat :=
  match phases with
  | [] => None
  | p :: rest =>
    if p_satisfied p stack states then first_unsatisfied_from (S i) rest stack states
    else Some i
  end.

Definition first_unsatisfied (stack : Stack) (states : States) : option nat :=
  first_unsatisfied_from 0 PHASES stack states.

(** [cli._select_phases]; [from_phase] is one of the names, as the caller checks
    ([_validate_phase_name]), and [index] of another name is ValueError ([None]). *)
Definition select_phases (stack : Stack) (states : States) (only from_phase : option text) :
  option (list Phase) :=
  match or_none only with
  | Some o => Some (List.filter (λ p, bool_decide (p_name p = o)) PHASES)
  | None =>
    match or_none from_phase with
    | Some f =>
        (λ ip, drop ip.1 PHASES) <$> list_find (λ p, p_name p = f) PHASES
    | None =>
        Some (match first_unsatisfied stack states with
              | None => []
              | Some start => drop start PHASES
              end)
    end
  end.
End phases.

(** ** Lemmas on batches *)

Lemma size_list_to_set_le (l : list text) : size (list_to_set l : gset text) ≤ length l.
Proof.
  induction l as [|x l IH]; [done|]. rewrite list_to_set_cons. simpl.
  pose proof (size_union_alt {[x]} (list_to_set l : gset text)) as H.
  rewrite size_singleton in H.
  assert (size (list_to_set l ∖ {[x]} : gset text) ≤ size (list_to_set l : gset text))
    by (apply subseteq_size; set_solver). lia.
Qed.

Lemma has_repeat_NoDup keys : has_repeat keys = false ↔ NoDup keys.
Proof.
  unfold has_repeat. rewrite negb_false_iff, Nat.eqb_eq. split.
  - induction keys as [|x keys IH]; simpl; [constructor|]. intros H.
    pose proof (size_list_to_set_le keys) as Hle.
    destruct (decide (x ∈ keys)) as [Hx|Hx].
    + replace ({[x]} ∪ list_to_set keys : gset text) with (list_to_set keys : gset text) in H
        by set_solver. lia.
    + rewrite size_union, size_singleton in H by set_solver. constructor; [done|]. apply IH. lia.
  - intros H. by apply size_list_to_set.
Qed.

Lemma concat_batches (l : list text) n m :
  concat ((λ k, take n (drop (k * n) l)) <$> seq 0 m) = take (m * n) l.
Proof.
  induction m as [|m IH]; [done|].
  rewrite seq_S, fmap_app, concat_app, IH. simpl. rewrite app_nil_r.
  rewrite take_take_drop. f_equal. lia.
Qed.

Lemma concat_batch_guests l n : 1 ≤ n → concat (batch_guests l n) = l.
Proof.
  intros Hn. unfold batch_guests. rewrite concat_batches. apply take_ge.
  pose proof (Nat.div_mod_eq (length l + n - 1) n) as Hd.
  pose proof (Nat.mod_upper_bound (length l + n - 1) n). lia.
Qed.

(** Every batch is non-empty and full, but for the last one, which holds what is left. *)
Lemma batch_guests_lookup l n i b :
  1 ≤ n → batch_guests l n !! i = Some b →
  b ≠ [] ∧ length b ≤ n ∧ (S i < length (batch_guests l n) → length b = n).
Proof.
  intros Hn. unfold batch_guests. rewrite length_fmap, length_seq.
  intros (k & -> & (-> & Hi)%lookup_seq)%list_lookup_fmap_Some.
  pose proof (Nat.div_mod_eq (length l + n - 1) n) as Hd.
  pose proof (Nat.mod_upper_bound (length l + n - 1) n) as Hm.
  remember ((length l + n - 1) / n) as m.
  assert (i * n < length l) by nia. simpl.
  assert (length (take n (drop (i * n) l)) = Nat.min n (length l - i * n)) as Hlen
    by (by rewrite length_take, length_drop).
  split_and!.
  - intros H'. rewrite H' in Hlen. simpl in Hlen. lia.
  - lia.
  - intros. assert (S i * n < length l) by nia. lia.
Qed.

(** A loop that numbers its items. *)
Lemma mapM_zip_seq_lookup {E A B} (f : nat * A → res E B) l n k i y :
  res_mapM f (zip (seq n (length l)) l) = Ok k → k !! i = Some y →
  ∃ x, l !! i = Some x ∧ f (n + i, x) = Ok y.
Proof.
  intros H Hi. apply res_mapM_Ok in H.
  destruct (Forall2_lookup_r _ _ _ _ _ H Hi) as ([j x] & Hl & Hf).
  apply lookup_zip_Some in Hl as [(-> & _)%lookup_seq Hx]. eauto.
Qed.

(** Where a re-run resumes. *)
Lemma first_unsatisfied_spec i ps stack states :
  match first_unsatisfied_from i ps stack states with
  | Some k => ∃ p, i ≤ k ∧ ps !! (k - i) = Some p ∧ p_satisfied p stack states = false ∧
      Forall (λ q, p_satisfied q stack states = true) (take (k - i) ps)
  | None => Forall (λ q, p_satisfied q stack states = true) ps
  end.
Proof.
  revert i. induction ps as [|p ps IH]; intros i; simpl; [constructor|].
  destruct (p_satisfied p stack states) eqn:Hp.
  - specialize (IH (S i)). destruct (first_unsatisfied_from _ _ _ _) as [k|]; [|by constructor].
    destruct IH as (q & Hle & Hq & Hs & Hall). exists q.
    replace (k - i) with (S (k - S i)) by lia. simpl. split_and!; try done; [lia|by constructor].
  - exists p. rewrite Nat.sub_diag. split_and!; try done; constructor.
Qed.

Section phase_lemmas.
Context (root : text) (nets : list text) (t : Topo) (c : Catalog)
  (record_os : text → res NodeError (option OsRef)).

Lemma members_NoDup name no_dr : NoDup (default [] (stack_members_effective t name no_dr)).
Proof.
  unfold stack_members_effective, stack_members. destruct (dget (t_stacks t) name); simpl;
    [|constructor].
  case_if; simpl; [|apply NoDup_flatten].
  apply NoDup_ListNoDup, List.NoDup_filter, NoDup_ListNoDup, NoDup_flatten.
Qed.

Lemma NoDup_all_vms stack no_dr : NoDup (all_vms t stack no_dr).
Proof. apply NoDup_uniq_onto, members_NoDup. Qed.

Lemma elem_of_all_vms stack no_dr h :
  h ∈ all_vms t stack no_dr ↔
  h ∈ default [] (stack_members_effective t (s_name stack) no_dr) ∨ h ∈ commons_members t.
Proof. apply elem_of_uniq_onto. Qed.

(** Leaving the disaster-recovery site out only removes hosts. *)
Lemma members_no_dr name h :
  h ∈ default [] (stack_members_effective t name true) →
  h ∈ default [] (stack_members_effective t name false) ∧ h ∉ stack_dr_hosts t name.
Proof.
  unfold stack_members_effective. destruct (stack_members t name); simpl; [|set_solver].
  rewrite list_elem_of_In, filter_In, <-list_elem_of_In, negb_true_iff, bool_decide_eq_false.
  done.
Qed.

Lemma no_dr_not_vm stack h :
  h ∈ stack_dr_hosts t (s_name stack) → h ∉ commons_members t → h ∉ all_vms t stack true.
Proof. rewrite elem_of_all_vms. intros Hd Hc [H%members_no_dr|H]; naive_solver. Qed.

Lemma filter_split_Permutation {A} (p : A → bool) l :
  List.filter p l ++ List.filter (λ x, negb (p x)) l ≡ₚ l.
Proof.
  induction l as [|x l IH]; simpl; [done|]. destruct (p x); simpl; [by rewrite IH|].
  by rewrite <-Permutation_middle, IH.
Qed.

Lemma filter_sublist {A} (p : A → bool) l : List.filter p l `sublist_of` l.
Proof. induction l; simpl; [constructor|]. case_if; by constructor. Qed.

Lemma boot_order_Permutation stack no_dr : boot_order t stack no_dr ≡ₚ all_vms t stack no_dr.
Proof. apply filter_split_Permutation. Qed.

Lemma boot_batch_Ok n : boot_batch t = Ok n → 1 ≤ n.
Proof.
  unfold boot_batch. destruct (default _ _); try done. case_if; [done|]. intros [= <-].
  apply Z.ltb_ge in Heqb. lia.
Qed.

(** One [vagrant up] step of a batch. *)
Definition boots (boxes : list (text * BoxEntry)) (batch : list text) (s : CommandStep) : Prop :=
  st_phase s = VMS ∧ st_retry s = Some BOOT_RETRY ∧
  ∃ keys serial, Forall2 (λ g k, ∃ e, dget boxes g = Some e ∧ k = be_name e) batch keys ∧
  cmd_argv (st_command s) = u "vagrant" :: u "up" :: serial ++ batch ∧
  ((serial = [] ∧ NoDup keys) ∨ (serial = [u "--no-parallel"] ∧ ¬ NoDup keys)).

Lemma vms_step_Ok stack boxes total i batch s :
  vms_step root stack boxes total (i, batch) = Ok s →
  boots boxes batch (mk_step (st_label s) (st_command s) (st_retry s) VMS).
Proof.
  unfold vms_step, batch_shares_box. intros H. res_inv. simpl in *.
  match goal with H : res_mapM _ _ = Ok ?k |- _ => apply res_mapM_Ok in H; rename H into HF;
    rename k into keys end.
  subst. unfold boots. simpl. split_and!; [done..|]. exists keys. eexists. split_and!; [|done|].
  - eapply Forall2_impl; [done|]. unfold guest_box. intros g k Hg. res_inv. eauto.
  - destruct (has_repeat keys) eqn:Hr; [right|left]; (split; [done|]).
    + rewrite <-has_repeat_NoDup. by rewrite Hr.
    + by apply has_repeat_NoDup.
Qed.

Lemma vms_steps_Ok stack no_dr steps :
  vms_build_steps root t c record_os stack no_dr = Ok steps →
  ∃ size boxes batches, boot_batch t = Ok size ∧ node_boxes record_os t c = Ok boxes ∧
  batches = batch_guests (boot_order t stack no_dr) size ∧
  concat batches = boot_order t stack no_dr ∧ length steps = length batches ∧
  ∀ i s, steps !! i = Some s → ∃ b, batches !! i = Some b ∧ b ≠ [] ∧ length b ≤ size ∧
    (S i < length batches → length b = size) ∧ boots boxes b s.
Proof.
  unfold vms_build_steps. intros H. apply bind_Ok in H as (boxes & Hb & H). res_inv. subst steps.
  rename x into size. match goal with H : boot_batch _ = _ |- _ => rename H into Hs end.
  exists size, boxes. eexists. pose proof (boot_batch_Ok _ Hs).
  split_and!; [done|done|done|by apply concat_batch_guests|..].
  - match goal with H : res_mapM _ _ = Ok _ |- _ => apply res_mapM_Ok, Forall2_length in H end.
    unfold stamped. rewrite length_fmap. rewrite length_zip_with, length_seq in *. lia.
  - intros i s (s' & -> & Hi)%list_lookup_fmap_Some.
    match goal with H : res_mapM _ _ = Ok _ |- _ =>
      destruct (mapM_zip_seq_lookup _ _ _ _ _ _ H Hi) as (b & Hbi & Hv) end.
    exists b. destruct (batch_guests_lookup (boot_order t stack no_dr) size i b) as (? & ? & ?);
      [done..|]. split_and!; [done..|]. by eapply vms_step_Ok.
Qed.

Lemma elem_of_nic_steps stack script label no_dr steps s :
  rhel_nat_nic_steps root t c record_os stack script label no_dr = Ok steps → s ∈ steps →
  ∃ name boxes, name ∈ all_vms t stack no_dr ∧ node_boxes record_os t c = Ok boxes ∧
  is_rhel boxes name = true ∧ nic_ips t name ≠ [] ∧
  (cmd_argv (st_command s) =
     [u "vagrant"; u "upload"; u "scripts/" ++ script; u "/home/vagrant/" ++ script; name] ∨
   cmd_argv (st_command s) =
     [u "vagrant"; u "ssh"; name; u "-c";
      u "sudo bash /home/vagrant/" ++ script ++ u " " ++ str_join (u " ") (nic_ips t name)]).
Proof.
  unfold rhel_nat_nic_steps. intros H Hs. apply bind_Ok in H as (boxes & Hb & H).
  injection H as <-. apply list_elem_of_bind in Hs as (name & Hs & Hn).
  exists name, boxes. split; [done|]. split.
  { by destruct (node_boxes record_os t c); simplify_eq/=. }
  unfold nic_pair in Hs. destruct (is_rhel boxes name); [|set_solver].
  destruct (nic_ips t name) as [|ip ips] eqn:Hips; [set_solver|]. split_and!; [done..|].
  apply elem_of_cons in Hs as [->|Hs]; [by left|]. apply list_elem_of_singleton in Hs as ->.
  right. done.
Qed.
End phase_lemmas.

(** ** Properties *)

(** The boot order: the hosts a bootstrap boots are the stack's effective members
    and the commons, each exactly once; the DNS nodes come first and, within the DNS
    nodes and within the others, the order is the one of [all_vms]. *)
Theorem boot_order_infra_first t stack no_dr :
  let vms := boot_order t stack no_dr in
  NoDup vms ∧
  (∀ h, h ∈ vms ↔ h ∈ default [] (stack_members_effective t (s_name stack) no_dr)
     ∨ h ∈ commons_members t) ∧
  ∃ lead rest, vms = lead ++ rest ∧
    Forall (λ h, h ∈ hosts_of t (u "infra")) lead ∧
    Forall (λ h, h ∉ hosts_of t (u "infra")) rest ∧
    lead `sublist_of` all_vms t stack no_dr ∧ rest `sublist_of` all_vms t stack no_dr.
Proof.
  simpl. split_and!.
  - rewrite boot_order_Permutation. apply NoDup_all_vms.
  - intros h. rewrite boot_order_Permutation. apply elem_of_all_vms.
  - assert (∀ h, is_infra t h = true ↔ h ∈ hosts_of t (u "infra")) as Hi.
    { intros h. unfold is_infra, non_mq_commons_hosts. rewrite bool_decide_eq_true. simpl.
      by rewrite app_nil_r. }
    eexists _, _. split; [done|].
    split_and!; try apply filter_sublist; apply Forall_forall; intros h;
      rewrite list_elem_of_In, filter_In; intros [_ H].
    + by apply Hi.
    + rewrite <-Hi. by destruct (is_infra t h).
Qed.

(** C18. The boot steps: the [vagrant up] steps of the vms phase, taken together, name
    every host of the boot order exactly once and in that order, in batches of at
    most the configured size, all but the last of exactly that size; each has the
    bounded boot retry, and boots in parallel exactly when no two of its guests
    clone one box. *)
Theorem vms_steps_batches root t c record_os stack no_dr steps :
  vms_build_steps root t c record_os stack no_dr = Ok steps →
  ∃ size boxes batches, boot_batch t = Ok size ∧ node_boxes record_os t c = Ok boxes ∧
    concat batches = boot_order t stack no_dr ∧ length steps = length batches ∧
    ∀ i s, steps !! i = Some s → ∃ b, batches !! i = Some b ∧ b ≠ [] ∧ length b ≤ size ∧
      (S i < length batches → length b = size) ∧ boots boxes b s.
Proof.
  intros (size & boxes & batches & ? & ? & _ & ? & ? & ?)%vms_steps_Ok.
  by exists size, boxes, batches.
Qed.

(** What a command acts on: the guests a vagrant command names, and the values a playbook is
    given for an option. *)
Definition vagrant_guests (argv : list text) : list text :=
  match argv with
  | tool :: verb :: rest =>
      if negb (bool_decide (tool = u "vagrant")) then []
      else if bool_decide (verb = u "up")
      then List.filter (λ a, negb (bool_decide (a = u "--no-parallel"))) rest
      else if bool_decide (verb = u "upload") then drop 2 rest
      else if bool_decide (verb = u "ssh") then take 1 rest else []
  | _ => []
  end.

Fixpoint values_of (flag : text) (args : list text) : list text :=
  match args with
  | f :: ((x :: rest') as rest) =>
      if bool_decide (f = flag) then x :: values_of flag rest' else values_of flag rest
  | _ => []
  end.

Definition play_option (flag : text) (argv : list text) : list text :=
  match argv with
  | tool :: _ :: rest => if bool_decide (tool = u "ansible-playbook") then values_of flag rest else []
  | _ => []
  end.

(** A command that keeps to the given hosts. *)
Definition keeps_to (hosts argv : list text) : Prop :=
  (∀ g, g ∈ vagrant_guests argv → g ∈ hosts) ∧
  (∀ l, l ∈ play_option (u "--limit") argv → l = str_join (u ",") hosts).

Lemma keeps_to_other hosts tool rest :
  tool ≠ u "vagrant" → tool ≠ u "ansible-playbook" → keeps_to hosts (tool :: rest).
Proof.
  intros H1 H2. unfold keeps_to, vagrant_guests, play_option. destruct rest as [|verb rest];
    [by split; intros ? ?%elem_of_nil|].
  rewrite (bool_decide_eq_false_2 _ H1), (bool_decide_eq_false_2 _ H2).
  by split; intros ? ?%elem_of_nil.
Qed.

Lemma values_of_qm flag stack rest :
  flag = u "--limit" ∨ flag = u "-e" →
  ∃ vars, values_of flag (qm_extra_vars stack ++ rest) = vars ++ values_of flag rest ∧
    (flag = u "--limit" → vars = []) ∧ u "dr_enabled=false" ∉ vars.
Proof.
  intros [-> | ->].
  - exists []. split_and!; [|done|apply not_elem_of_nil]. unfold qm_extra_vars.
    destruct rest as [|x rest]; done.
  - eexists [_; _; _; _; _]. split; [reflexivity|]. split; [done|].
    rewrite !not_elem_of_cons. split_and!; try (by intros [=]). apply not_elem_of_nil.
Qed.

Lemma vms_keeps_to root t c record_os stack no_dr steps s :
  vms_build_steps root t c record_os stack no_dr = Ok steps → s ∈ steps →
  keeps_to (all_vms t stack no_dr) (cmd_argv (st_command s)).
Proof.
  intros (size & boxes & batches & _ & _ & -> & Hcat & _ & Hi)%vms_steps_Ok
    (i & Hs)%list_elem_of_lookup.
  destruct (Hi _ _ Hs) as (b & Hb & _ & _ & _ & _ & _ & keys & serial & _ & -> & Hserial).
  assert (∀ g, g ∈ b → g ∈ all_vms t stack no_dr) as Hin.
  { intros g Hg. rewrite <-(boot_order_Permutation t stack no_dr), <-Hcat.
    apply list_elem_of_lookup_2 in Hb. apply list_elem_of_In, in_concat.
    exists b. by rewrite <-!list_elem_of_In. }
  split; [|by intros ? ?%elem_of_nil]. intros g.
  change (vagrant_guests _) with (List.filter (λ a, negb (bool_decide (a = u "--no-parallel"))) (serial ++ b)).
  rewrite list_elem_of_In, filter_In, <-list_elem_of_In, elem_of_app, negb_true_iff, bool_decide_eq_false.
  intros [[Hg|Hg] Hn]; [|by apply Hin]. destruct Hserial as [[-> _]|[-> _]]; [by apply elem_of_nil in Hg|].
  by apply list_elem_of_singleton in Hg.
Qed.

Lemma nic_keeps_to root t c record_os stack script label no_dr steps s :
  rhel_nat_nic_steps root t c record_os stack script label no_dr = Ok steps → s ∈ steps →
  keeps_to (all_vms t stack no_dr) (cmd_argv (st_command s)) ∧
  play_option (u "-e") (cmd_argv (st_command s)) = [].
Proof.
  intros H Hs. eapply elem_of_nic_steps in Hs as (name & boxes & Hn & _ & _ & _ & [-> | ->]); [..|done];
    (split; [split; [|by intros ? ?%elem_of_nil]|done]); intros g Hg;
    by apply list_elem_of_singleton in Hg as ->.
Qed.


(** C20. Where a re-run resumes: without [--only] or [--from] the phases run are a
    suffix of the registry, every phase before it is satisfied, the first phase of it
    is not, and it is empty exactly when every lab network is active, every host of
    the full stack is running, and the queue manager and the exporter answer. *)
Theorem select_phases_resumes root nets t c record_os stack states ps :
  select_phases root nets t c record_os stack states None None = Some ps →
  (∃ n, ps = drop n (PHASES root nets t c record_os) ∧
     Forall (λ p, p_satisfied p stack states = true) (take n (PHASES root nets t c record_os))) ∧
  (∀ p, head ps = Some p → p_satisfied p stack states = false) ∧
  (ps = [] ↔ (∀ n, n ∈ nets → classify_net (w_nets states) n = ACTIVE) ∧
     (∀ h, h ∈ all_vms t stack false → classify (w_domains states) h = RUNNING) ∧
     w_qm_up states = true ∧ w_observe states = true).
Proof.
  set (P := PHASES root nets t c record_os). unfold select_phases. simpl. intros [= <-].
  pose proof (first_unsatisfied_spec 0 P stack states) as Hf. unfold first_unsatisfied.
  fold P. destruct (first_unsatisfied_from 0 P stack states) as [k|].
  - destruct Hf as (p & _ & Hp & Hs & Hall). rewrite Nat.sub_0_r in *. split_and!.
    + by exists k.
    + intros q Hq. rewrite head_lookup, lookup_drop, Nat.add_0_r in Hq. by simplify_eq.
    + split; [intros Hnil|].
      { pose proof (lookup_drop P k 0) as Hd. rewrite Hnil, Nat.add_0_r, Hp in Hd. done. }
      intros (Hn & Hv & Hq & Ho). exfalso. apply list_elem_of_lookup_2 in Hp.
      unfold P, PHASES in Hp. rewrite !elem_of_cons, elem_of_nil in Hp.
      destruct Hp as [-> |[-> |[-> |[-> |[]]]]]; simpl in Hs.
      * revert Hs. apply not_false_iff_true, forallb_forall. intros x Hx.
        apply bool_decide_eq_true, Hn. by apply list_elem_of_In.
      * revert Hs. apply not_false_iff_true, forallb_forall. intros x Hx.
        apply bool_decide_eq_true, Hv. by apply list_elem_of_In.
      * unfold provision_satisfied in Hs. congruence.
      * unfold observe_satisfied in Hs. congruence.
  - split_and!; [by exists 4|done|]. split; [intros _|done].
    unfold P, PHASES in Hf. apply Forall_cons in Hf as [Hn Hf].
    apply Forall_cons in Hf as [Hv Hf]. apply Forall_cons in Hf as [Hq Hf].
    apply Forall_cons in Hf as [Ho _]. simpl in *. split_and!; [..|done|done].
    + intros n Hin. unfold net_satisfied in Hn. rewrite forallb_forall in Hn.
      specialize (Hn n). rewrite bool_decide_eq_true in Hn. by apply Hn, list_elem_of_In.
    + intros n Hin. unfold vms_satisfied in Hv. rewrite forallb_forall in Hv.
      specialize (Hv n). rewrite bool_decide_eq_true in Hv. by apply Hv, list_elem_of_In.
Qed.

(** A finding: a re-run of a bootstrap without disaster recovery never finds its
    work done. The vms probe counts the DR hosts, which such a bootstrap does not
    boot: while one of them is not running, the phases selected are not empty and
    they include the vms phase, whatever else holds. *)
Theorem no_dr_rerun_reboots root nets t c record_os stack states h ps :
  h ∈ default [] (stack_members t (s_name stack)) →
  classify (w_domains states) h ≠ RUNNING →
  select_phases root nets t c record_os stack states None None = Some ps →
  VMS ∈ p_name <$> ps.
Proof.
  intros Hh Hst. unfold select_phases. simpl. intros [= <-].
  pose proof (first_unsatisfied_spec 0 (PHASES root nets t c record_os) stack states) as Hf.
  unfold first_unsatisfied.
  assert (vms_satisfied t stack states = false) as Hv.
  { apply not_true_iff_false. unfold vms_satisfied. rewrite forallb_forall. intros H.
    specialize (H h). rewrite <-list_elem_of_In, elem_of_all_vms, bool_decide_eq_true in H.
    apply Hst, H. left. unfold stack_members_effective. by destruct (stack_members _ _). }
  destruct (first_unsatisfied_from _ _ _ _) as [k|].
  - destruct Hf as (p & _ & _ & _ & Hall). rewrite Nat.sub_0_r in Hall.
    destruct k as [|[|k]]; simpl; [set_solver..|].
    apply Forall_cons in Hall as [_ Hall]. apply Forall_cons in Hall as [Hbad _].
    simpl in Hbad. congruence.
  - apply Forall_cons in Hf as [_ Hf]. apply Forall_cons in Hf as [Hbad _].
    simpl in Hbad. congruence.
Qed.

(** ** Witnesses *)

Definition no_stack : Stack :=
  mk_stack [] [] [] [] [] None [] [] (mk_qm [] [] [] [] None []) None [] [].

Definition demo_stack : Stack :=
  match lab_stacks demo_topo with Ok ((_, s) :: _) => s | _ => no_stack end.

Lemma vms_steps_batches_witness :
  ∃ steps, vms_build_steps (u "/lab") demo_topo demo_catalog demo_record demo_stack false = Ok steps ∧
    (cmd_argv ∘ st_command <$> steps) =
      [[u "vagrant"; u "up"; u "--no-parallel"; u "infra-client"; u "rdqm-a1"; u "rdqm-a2";
        u "rdqm-b1"]; [u "vagrant"; u "up"; u "probe"]] ∧
    ∃ batches, concat batches = boot_order demo_topo demo_stack false.
Proof.
  destruct (vms_build_steps (u "/lab") demo_topo demo_catalog demo_record demo_stack false)
    as [steps|e] eqn:H; [|by vm_compute in H].
  exists steps. split; [done|]. split; [by vm_compute in H; injection H as <-|].
  destruct (vms_steps_batches _ _ _ _ _ _ _ H) as (_ & _ & batches & _ & _ & Hc & _).
  by exists batches.
Defined.


(** Every host of the site a run without disaster recovery boots is up. *)
Definition demo_states : States :=
  build_states [(u "net-mgmt", u "active")]
    ((λ h, (u "lab_" ++ h, u "running")) <$>
       [u "infra-client"; u "rdqm-a1"; u "rdqm-a2"; u "probe"]) true true.

Lemma select_phases_resumes_witness :
  ∃ ps, select_phases (u "/lab") [u "net-mgmt"] demo_topo demo_catalog demo_record demo_stack
      demo_states None None = Some ps ∧
    p_name <$> ps = [VMS; PROVISION; OBSERVE] ∧
    ∀ p, head ps = Some p → p_satisfied p demo_stack demo_states = false.
Proof.
  eexists. split; [done|]. split; [by vm_compute|].
  eapply (select_phases_resumes (u "/lab") [u "net-mgmt"] demo_topo demo_catalog demo_record).
  done.
Defined.

Lemma no_dr_rerun_reboots_witness :
  (∀ h, h ∈ all_vms demo_topo demo_stack true →
     classify (w_domains demo_states) h = RUNNING) ∧
  ∃ ps, select_phases (u "/lab") [u "net-mgmt"] demo_topo demo_catalog demo_record demo_stack
      demo_states None None = Some ps ∧ VMS ∈ p_name <$> ps.
Proof.
  split.
  - intros h Hh. assert (forallb (λ h, bool_decide (classify (w_domains demo_states) h = RUNNING))
      (all_vms demo_topo demo_stack true) = true) as Hall by (by vm_compute).
    rewrite forallb_forall in Hall. specialize (Hall h). rewrite bool_decide_eq_true in Hall.
    by apply Hall, list_elem_of_In.
  - eexists. split; [done|].
    eapply (no_dr_rerun_reboots (u "/lab") [u "net-mgmt"] demo_topo demo_catalog demo_record
      demo_stack demo_states (u "rdqm-b1")); [|by vm_compute|done].
    vm_compute. do 2 right. left.
Defined.
