(* ===== verification/Instances.v ===== *)
(** * The instance records

    Models [mqlab/instances.py] and the commands of [mqlab/cli.py] that use it
    ([_stack_live], [_reconcile_instance]): the OS a stack was built on is pinned in a
    JSON record, written before anything boots and deleted by a teardown only. The
    records directory is a map from stack to file content; a write is atomic, so it
    either replaces the content or leaves it. *)

From S2P Require Import Prelude PyText PyCodec PyDict PyFloat PyJson JsonRoundTrip.
From S2P Require Import Hostfacts Versions.
From S2P Require Import VersionsLoad Stacks Lifecycle.

Record InstanceRecord := mk_record {
    ir_stack : text; ir_os : OsRef; ir_build_file : option text; ir_created : text
  }.

Definition KEYS : list text := [u "stack"; u "os"; u "build_file"; u "created"].

Inductive corrupt :=
  | NotJson | WrongKeys | NamesStack (v : json) | OsOrCreated | BuildFileType | OsUnparsable (e : RefError).

(** The VersionErrors of the module, the OSError of a write that failed, and the
    ValueError of [json.loads] on an integer over the digit limit, which nobody catches. *)
Inductive InstanceError :=
  | Corrupt (stack : text) (why : corrupt)
  | LiveWithoutRecord (stack : text)
  | RunningOther (stack : text) (running requested : OsRef)
  | WriteFailed (stack : text)
  | IntegerTooLong (stack : text).

(** The records directory: the content of [<stack>.json]. *)
Abbreviation store := (list (text * text)) (only parsing).

Definition is_str (v : json) : bool := match v with JStr _ => true | _ => false end.

(** [data[key]] of a mapping that has the key. *)
Definition jget (d : list (text * json)) (k : text) : json := dget_or d k JNull.

Section store.
Context `{FloatText}.

(** ** instances.py *)

Definition parse_record (stack content : text) : res InstanceError InstanceRecord :=
  let bad := Corrupt stack in
  data ← map_err (λ e, match e with JTooLong => IntegerTooLong stack | _ => bad NotJson end)
           (loads content);
  d ← match data with
    | JObj d => _ ← raise_if (negb (bool_decide (sorted_text d.*1 = sorted_text KEYS)))
                      (bad WrongKeys); Ok d
    | _ => Err (bad WrongKeys)
    end;
  _ ← match jget d (u "stack") with
    | JStr s => raise_if (negb (bool_decide (s = stack))) (bad (NamesStack (JStr s)))
    | v => Err (bad (NamesStack v))
    end;
  oc ← match jget d (u "os"), jget d (u "created") with
     | JStr os, JStr created => Ok (os, created)
     | _, _ => Err (bad OsOrCreated)
     end;
  build_file ← match jget d (u "build_file") with
             | JNull => Ok None
             | JStr s => Ok (Some s)
             | _ => Err (bad BuildFileType)
             end;
  ref ← map_err (λ e, bad (OsUnparsable e)) (parse_ref oc.1);
  Ok (mk_record stack ref build_file oc.2).

Definition read_record (st : store) (stack : text) :
  res InstanceError (option InstanceRecord) :=
  match dget st stack with
  | None => Ok None
  | Some content => r ← parse_record stack content; Ok (Some r)
  end.

Definition payload (r : InstanceRecord) : json :=
  JObj [(u "stack", JStr (ir_stack r)); (u "os", JStr (ref_str (ir_os r)));
      (u "build_file", match ir_build_file r with Some s => JStr s | None => JNull end);
      (u "created", JStr (ir_created r))].

(** [write_record]: [io_ok] is whether the temporary file was written and moved; when
    not, it is removed and the record is as it was. *)
Definition write_record (st : store) (io_ok : bool) (r : InstanceRecord) :
  res InstanceError unit * store :=
  match dumps (Some 2) (payload r) with
  | Ok content =>
      if io_ok then (Ok tt, dset st (ir_stack r) (content ++ newline))
      else (Err (WriteFailed (ir_stack r)), st)
  | Err _ => (Err (IntegerTooLong (ir_stack r)), st)
  end.

Definition delete_record (st : store) (stack : text) : store := dpop st stack.

Definition reconcile (st : store) (io_ok : bool) (now stack : text) (requested : OsRef)
  (live : bool) (build_file : option text) : res InstanceError InstanceRecord * store :=
  match read_record st stack with
  | Err e => (Err e, st)
  | Ok None =>
    if live then (Err (LiveWithoutRecord stack), st)
    else
      let rec := mk_record stack requested build_file now in
      let '(w, st') := write_record st io_ok rec in
      (_ ← w; Ok rec, st')
  | Ok (Some existing) =>
    if bool_decide (ir_os existing = requested) then (Ok existing, st)
    else (Err (RunningOther stack (ir_os existing) requested), st)
  end.

Definition require_record_if_live (st : store) (stack : text) (live : bool) :
  res InstanceError (option InstanceRecord) :=
  rec ← read_record st stack;
  _ ← raise_if (match rec with None => live | Some _ => false end) (LiveWithoutRecord stack);
  Ok rec.

(** What [versions.stack_ref] reads of a record. *)
Definition recorded_os (st : store) (stack : text) : res NodeError (option OsRef) :=
  match read_record st stack with
  | Err _ => Err (BadRecord stack)
  | Ok rec => Ok (ir_os <$> rec)
  end.

(** ** cli.py *)

(** How [_reconcile_instance] fails: VersionErrors it turns into exit code 2, the exit
    code 1 of a [virsh] that failed, and what it lets through. *)
Inductive BootstrapError :=
  | VirshFailed
  | ErrRecord (e : InstanceError)
  | ErrBuildFile (e : BuildError)
  | ErrCatalog (e : CatalogError).

(** [_stack_live], with the output of one [virsh list --all] ([None] when it failed),
    which a stack without members does not run. *)
Definition stack_live (t : Topo) (virsh : option text) (stack : text) : res BootstrapError bool :=
  match default [] (stack_members t stack), virsh with
  | [], _ => Ok false
  | _, None => Err VirshFailed
  | members, Some out => Ok (existsb (is_live (parse_domain_states out)) members)
  end.

(** [_reconcile_instance] up to the request: the record there is and the OS asked for;
    [config] is the build file's path and document. *)
Definition requested_os (c : Catalog) (facts : HostFacts) (st : store) (stack : text)
  (config : option (text * pyval)) : res BootstrapError (option InstanceRecord * OsRef) :=
  existing ← map_err ErrRecord (read_record st stack);
  build ← (match config with
         | Some (_, doc) => b ← map_err ErrBuildFile (load_build_file doc); Ok (Some b)
         | None => Ok ((λ r, mk_build (Some (ir_os r))) <$> existing)
         end : res BootstrapError (option BuildFile));
  requested ← map_err ErrCatalog (stack_os c stack build facts);
  _ ← map_err ErrCatalog (support_warning c requested);
  _ ← map_err ErrCatalog (infra_mq_warning c);
  Ok (existing, requested).

(** [_reconcile_instance], past a loaded catalog: [virsh] is the domain table, read only
    when there is no record. *)
Definition reconcile_instance (c : Catalog) (t : Topo) (facts : HostFacts)
    (virsh : option text) (now : text) (st : store) (io_ok : bool) (stack : text)
    (config : option (text * pyval)) : res BootstrapError InstanceRecord * store :=
  match requested_os c facts st stack config with
  | Err e => (Err e, st)
  | Ok (existing, requested) =>
      match (match existing with None => stack_live t virsh stack | Some _ => Ok false end) with
      | Err e => (Err e, st)
      | Ok live =>
          let '(r, st') := reconcile st io_ok now stack requested live (fst <$> config) in
          (map_err ErrRecord r, st')
      end
  end.

(** ** A history of commands *)

Inductive command :=
  | CBootstrap (c : Catalog) (t : Topo) (facts : HostFacts) (virsh : option text) (now : text)
      (io_ok : bool) (stack : text) (config : option (text * pyval))
  | CTeardown (stack : text).

(** One command: the record a bootstrap runs with, and the store after it. *)
Definition command_step (st : store) (cmd : command) :
  option (text * res BootstrapError InstanceRecord) * store :=
  match cmd with
  | CBootstrap c t facts virsh now io_ok stack config =>
    let '(r, st') := reconcile_instance c t facts virsh now st io_ok stack config in
    (Some (stack, r), st')
  | CTeardown stack => (None, delete_record st stack)
  end.

Fixpoint history (st : store) (cmds : list command) :
  list (text * res BootstrapError InstanceRecord) * store :=
  match cmds with
  | [] => ([], st)
  | cmd :: rest =>
    let '(o, st1) := command_step st cmd in
    let '(out, st2) := history st1 rest in
    (option_list o ++ out, st2)
  end.

End store.

(** ** Lemmas *)

Lemma str_ok_ascii s : Forall (λ c, c < 128)%N s → str_ok s = true.
Proof.
  induction 1 as [|c s Hc Hs IH]; [done|]. cbn [str_ok]. rewrite IH.
  assert (is_high c = false) as -> by (apply not_true_iff_false; rewrite is_high_range; lia).
  simpl. destruct (N.ltb_spec c 1114112); [done|lia].
Qed.

(** An OS reference [OsRef.parse] accepts back. *)
Definition ref_ok (r : OsRef) : Prop :=
  dmem (ref_family r) FAMILIES = true ∧ (0 ≤ ref_major r)%Z ∧ is_Some (str_int (ref_major r)).

(** The records the code writes: such a reference, and proper strings. *)
Definition record_ok (r : InstanceRecord) : Prop :=
  ref_ok (ir_os r) ∧ str_ok (ir_stack r) = true ∧ str_ok (ir_created r) = true ∧
  str_ok (default [] (ir_build_file r)) = true.

Lemma ref_str_ok r : ref_ok r → str_ok (ref_str r) = true.
Proof.
  intros (Hf & _). apply str_ok_ascii. unfold ref_str. rewrite !Forall_app. split_and!.
  - apply dmem_true in Hf. unfold FAMILIES in Hf. simpl in Hf.
    rewrite !elem_of_cons, elem_of_nil in Hf.
    destruct_or! Hf; try done; rewrite Hf; by apply (bool_decide_unpack _); vm_compute.
  - by repeat constructor.
  - eapply Forall_impl; [apply Z_text_digits|]. simpl. lia.
Qed.

Lemma payload_ok r : record_ok r → json_ok (payload r) = true.
Proof.
  intros (Hr & Hs & Hc & Hb). pose proof (ref_str_ok _ Hr) as Href.
  unfold payload. cbn [json_ok]. rewrite andb_true_iff, bool_decide_eq_true.
  split; [by apply (bool_decide_unpack _); vm_compute|].
  cbn [forallb fst snd json_ok]. rewrite Hs, Href, Hc. by destruct (ir_build_file r); simpl in *; rewrite ?Hb.
Qed.

(** The payload holds no number. *)
Lemma dumps_payload `{FloatText} r : dumps (Some 2) (payload r) = Ok (enc (Some 2) 0 (payload r)).
Proof. unfold dumps. by destruct r as [? ? [?|] ?]. Qed.

Section lemmas.
Context `{FloatTextLaws}.

Lemma parse_written r : record_ok r →
  parse_record (ir_stack r) (enc (Some 2) 0 (payload r) ++ newline) = Ok r.
Proof.
  intros Hr. unfold parse_record.
  rewrite (loads_dumps _ _ _ newline (payload_ok _ Hr) ltac:(by repeat constructor) (dumps_payload r)).
  destruct Hr as ((Hf & Hm & Hi) & _). simpl.
  rewrite bool_decide_eq_true_2 by done. destruct r as [stack os bf created]. simpl in *.
  destruct bf; unfold jget, dget_or; simpl; rewrite parse_ref_str by done; done.
Qed.

Lemma read_write st r : record_ok r →
  read_record (write_record st true r).2 (ir_stack r) = Ok (Some r).
Proof.
  intros Hr. unfold read_record, write_record. rewrite dumps_payload. cbn [snd].
  by rewrite dget_dset_eq, parse_written.
Qed.

Lemma read_write_ne st io r stack : stack ≠ ir_stack r →
  read_record (write_record st io r).2 stack = read_record st stack.
Proof.
  intros Hne. unfold read_record, write_record. rewrite dumps_payload. destruct io; [|done]. simpl.
  by rewrite dget_dset_ne by done.
Qed.

(** A bootstrap of another stack, or one that fails, leaves a record as it was, and so
    does one of a stack that has a record. *)
Lemma reconcile_frame st io now stack r live bf s :
  s ≠ stack ∨ read_record st s ≠ Ok None →
  read_record (reconcile st io now stack r live bf).2 s = read_record st s.
Proof.
  intros Hs. unfold reconcile. destruct (read_record st stack) as [[e|]|] eqn:He; simpl.
  - by case_if.
  - destruct live; [done|]. destruct (write_record _ _ _) as [w st'] eqn:Hw. simpl.
    replace st' with (write_record st io (mk_record stack r bf now)).2 by (by rewrite Hw).
    apply read_write_ne. simpl. destruct Hs as [?|Hs]; [done|]. by intros ->.
  - done.
Qed.

Lemma reconcile_instance_frame c t facts virsh now st io stack config s :
  s ≠ stack ∨ read_record st s ≠ Ok None →
  read_record (reconcile_instance c t facts virsh now st io stack config).2 s
  = read_record st s.
Proof.
  intros Hs. unfold reconcile_instance. destruct (requested_os _ _ _ _ _) as [[existing requested]|];
    [|done].
  destruct (match existing with None => stack_live t virsh stack | Some _ => Ok false end) as [live|];
    [|done].
  destruct (reconcile _ _ _ _ _ _ _) as [r st'] eqn:Hr. simpl.
  pose proof (reconcile_frame st io now stack requested live (fst <$> config) s Hs) as Hf.
  by rewrite Hr in Hf.
Qed.

(** With a record, a bootstrap that succeeds runs with it. *)
Lemma reconcile_instance_pinned c t facts virsh now st io stack config r r' :
  read_record st stack = Ok (Some r) →
  (reconcile_instance c t facts virsh now st io stack config).1 = Ok r' → r' = r.
Proof.
  intros Hr. unfold reconcile_instance. destruct (requested_os _ _ _ _ _) as [[existing requested]|];
    [|done].
  destruct (match existing with None => stack_live t virsh stack | Some _ => Ok false end); [|done].
  unfold reconcile. rewrite Hr. case_if; simpl; [|done]. by intros [= ->].
Qed.

Lemma write_record_Ok st io r x st' :
  write_record st io r = (Ok x, st') → st' = (write_record st true r).2.
Proof.
  unfold write_record. destruct (dumps _ _); [|done]. destruct io; [|done]. by intros [= _ <-].
Qed.

(** A bootstrap that is let through: with a record, it runs with it and the request is its
    OS; without one, nothing of the stack is live and the record is new and on disk. *)
Lemma reconcile_instance_Ok c t facts virsh now st io stack config r st' :
  reconcile_instance c t facts virsh now st io stack config = (Ok r, st') →
  match read_record st stack with
  | Ok (Some old) => r = old ∧ st' = st ∧
      ∀ path doc b, config = Some (path, doc) → load_build_file doc = Ok b →
        stack_os c stack (Some b) facts = Ok (ir_os r)
  | Ok None => stack_live t virsh stack = Ok false ∧
      r = mk_record stack (ir_os r) (fst <$> config) now ∧ st' = (write_record st true r).2 ∧
      (∃ b, stack_os c stack b facts = Ok (ir_os r)) ∧
      (config = None → stack_os c stack None facts = Ok (ir_os r))
  | Err _ => False
  end.
Proof.
  unfold reconcile_instance.
  destruct (requested_os c facts st stack config) as [[existing req]|e] eqn:Hreq; [|done].
  unfold requested_os in Hreq. res_inv. simplify_eq.
  match goal with H : stack_os _ _ _ _ = Ok _ |- _ => rename H into Hos end.
  match goal with H : read_record _ _ = Ok _ |- _ => rename H into Hrd end.
  rewrite Hrd. destruct existing as [old|].
  - unfold reconcile. rewrite Hrd. case_if; simpl; [|done]. intros [= <- <-]. split_and!; try done.
    intros path doc b -> Hb. simpl in *. rewrite Hb in *. res_inv. simplify_eq.
    match goal with H : bool_decide _ = true |- _ => by apply bool_decide_eq_true in H as -> end.
  - destruct (stack_live t virsh stack) as [[]|]; unfold reconcile; rewrite ?Hrd; try done.
    destruct (write_record _ _ _) as [[[]|] st2] eqn:Hw; cbn [mbind res_bind map_err]; [|done].
    apply write_record_Ok in Hw as ->. intros [= <- <-].
    split_and!; try done; [by eexists|]. intros ->. simpl in *. by simplify_eq.
Qed.

(** What a bootstrap may pin: the supported OSes of the stack are references that parse
    back, and the names it stores are proper strings. *)
Definition request_ok (c : Catalog) (stack now : text) (config : option (text * pyval)) : Prop :=
  (∀ spec r, dget (c_stacks c) stack = Some spec → r ∈ ss_supported spec → ref_ok r) ∧
  str_ok stack = true ∧ str_ok now = true ∧ str_ok (default [] (fst <$> config)) = true.

(** ... so its record is on disk. *)
Lemma reconcile_instance_stored c t facts virsh now st io stack config r st' :
  catalog_ok c → request_ok c stack now config →
  reconcile_instance c t facts virsh now st io stack config = (Ok r, st') →
  read_record st' stack = Ok (Some r).
Proof.
  intros Hc (Hsup & Hs & Hn & Hcfg) Hr%reconcile_instance_Ok.
  destruct (read_record st stack) as [[old|]|] eqn:Hrd; [by destruct Hr as (-> & -> & _)| |done].
  destruct Hr as (_ & Heq & -> & (b & Hos) & _).
  apply stack_os_Ok in Hos as (spec & Hspec & _ & Hin & _); [|done].
  assert (record_ok r) as Hok by (rewrite Heq; split_and!; [by eapply Hsup|done..]).
  pose proof (read_write st r Hok) as Hrw. by rewrite Heq in Hrw at 2.
Qed.

(** ** Properties *)

(** A record reads back: what [write_record] stores is read as the same record, the
    other records are as before, and a failed write changes nothing. *)
Theorem record_round_trip st r :
  record_ok r →
  read_record (write_record st true r).2 (ir_stack r) = Ok (Some r) ∧
  (∀ io stack, stack ≠ ir_stack r →
     read_record (write_record st io r).2 stack = read_record st stack) ∧
  (write_record st false r).2 = st.
Proof.
  intros Hr. split_and!; [by apply read_write|intros; by apply read_write_ne|].
  unfold write_record. by rewrite dumps_payload.
Qed.

(** What a bootstrap runs with is on disk first: when [_reconcile_instance] succeeds,
    the record it returns is the one the store then holds for the stack; a record that
    was there is returned unchanged, and only if the request is its OS; without one
    the stack is not live and the new record holds the OS [stack_os] gives, the path of
    the build file and the time. A live stack without a record is refused and the
    store left alone. *)
Theorem bootstrap_pins_record c t facts virsh now st io stack config :
  catalog_ok c → request_ok c stack now config →
  let '(res, st') := reconcile_instance c t facts virsh now st io stack config in
  (∀ r, res = Ok r → read_record st' stack = Ok (Some r) ∧
     match read_record st stack with
     | Ok (Some old) => r = old ∧ st' = st ∧
         (∀ path doc b, config = Some (path, doc) → load_build_file doc = Ok b →
            stack_os c stack (Some b) facts = Ok (ir_os r))
     | Ok None => stack_live t virsh stack = Ok false ∧ ir_build_file r = fst <$> config ∧
         ir_created r = now ∧
         (config = None → stack_os c stack None facts = Ok (ir_os r))
     | Err _ => False
     end) ∧
  (read_record st stack = Ok None → stack_live t virsh stack = Ok true →
   st' = st ∧ ∃ e, res = Err e).
Proof.
  intros Hc Hok. destruct (reconcile_instance _ _ _ _ _ _ _ _ _) as [res st'] eqn:Hres. split.
  - intros r ->. split; [by eapply reconcile_instance_stored|].
    apply reconcile_instance_Ok in Hres. destruct (read_record st stack) as [[old|]|]; [done| |done].
    destruct Hres as (? & Heq & _ & _ & ?). rewrite Heq. by split_and!.
  - intros Hn Hlive. unfold reconcile_instance, reconcile in Hres. rewrite Hlive, Hn in Hres.
    destruct (requested_os _ _ _ _ _) as [[existing req]|] eqn:Hreq; [|by simplify_eq; eauto].
    unfold requested_os in Hreq. rewrite Hn in Hreq. res_inv. simplify_eq. simpl in *.
    simplify_eq. eauto.
Qed.

(** C12. The OS of a running stack is pinned: once a stack has a record, every later
    bootstrap of it that succeeds, in any history of bootstraps (of any stack, under
    any catalog, build file and world) and teardowns of other stacks, runs with that
    very record, and the record is still there at the end. *)
Theorem os_pinned_until_teardown st cmds stack r :
  read_record st stack = Ok (Some r) →
  Forall (λ cmd, cmd ≠ CTeardown stack) cmds →
  (∀ r', (stack, Ok r') ∈ (history st cmds).1 → r' = r) ∧
  read_record (history st cmds).2 stack = Ok (Some r).
Proof.
  intros Hr Hall. revert st Hr. induction Hall as [|cmd cmds Hcmd Hall IH]; intros st Hr; simpl.
  { split; [set_solver|done]. }
  destruct (command_step st cmd) as [o st1] eqn:Ho.
  assert (read_record st1 stack = Ok (Some r) ∧
    ∀ r', o = Some (stack, Ok r') → r' = r) as [Hr1 Hout].
  { destruct cmd as [c t facts virsh now io s config|s]; simpl in Ho.
    - destruct (reconcile_instance _ _ _ _ _ _ _ _ _) as [res st'] eqn:He. simplify_eq.
      pose proof (reconcile_instance_frame c t facts virsh now st io s config stack) as Hf.
      rewrite He in Hf. simpl in Hf. rewrite Hf by (right; congruence). split; [done|].
      intros r' [= -> ->]. eapply reconcile_instance_pinned; [done|by rewrite He].
    - simplify_eq. split; [|done]. unfold read_record, delete_record.
      rewrite dget_dpop. case_decide; [congruence|]. done. }
  specialize (IH st1 Hr1). destruct (history st1 cmds) as [out st2]. simpl in *.
  split; [|apply IH]. intros r' [Hin|Hin]%elem_of_app; [|by apply IH].
  apply Hout. destruct o; simpl in Hin; [|set_solver].
  by apply list_elem_of_singleton in Hin as <-.
Qed.
End lemmas.

(** ** Witnesses *)

Lemma demo_request_ok now config :
  str_ok now = true → str_ok (default [] (fst <$> config)) = true →
  request_ok demo_catalog (u "pcmk-ubuntu") now config.
Proof.
  intros Hn Hcfg. split_and!; [|done..]. intros spec r Hs Hr.
  assert (ss_supported spec = [mk_ref (u "ubuntu") 24; mk_ref (u "ubuntu") 26]) as Hl.
  { vm_compute in Hs. injection Hs as <-. done. }
  rewrite Hl, !elem_of_cons in Hr. clear Hs Hl.
  destruct Hr as [-> |[-> |[]%elem_of_nil]]; (split_and!; [done|simpl; lia|by eexists]).
Qed.

Definition demo_record_24 : InstanceRecord :=
  mk_record (u "pcmk-ubuntu") (mk_ref (u "ubuntu") 24) None (u "2026-10-14T00:00:00Z").

Definition demo_bootstrap (config : option (text * pyval)) : command :=
  CBootstrap demo_catalog demo_topo demo_x86 (Some []) (u "2026-10-14T00:00:00Z") true (u "pcmk-ubuntu")
    config.

Definition demo_config : text * pyval := (u "26.yaml", ymap [("os", ys "ubuntu:26")]%string).

Lemma record_round_trip_witness :
  read_record (write_record [] true demo_record_24).2 (u "pcmk-ubuntu")
    = Ok (Some demo_record_24).
Proof.
  apply (record_round_trip [] demo_record_24).
  split_and!; [done|simpl; lia|by eexists|done..].
Defined.

Lemma bootstrap_pins_record_witness :
  let '(res, st') := reconcile_instance demo_catalog demo_topo demo_x86 (Some [])
    (u "2026-10-14T00:00:00Z") [] true (u "pcmk-ubuntu") None in
  res = Ok demo_record_24 ∧ read_record st' (u "pcmk-ubuntu") = Ok (Some demo_record_24).
Proof.
  pose proof (bootstrap_pins_record demo_catalog demo_topo
    demo_x86 (Some []) (u "2026-10-14T00:00:00Z") [] true (u "pcmk-ubuntu") None demo_catalog_ok
    (demo_request_ok (u "2026-10-14T00:00:00Z") None eq_refl eq_refl)) as H.
  destruct (reconcile_instance demo_catalog demo_topo demo_x86 (Some [])
    (u "2026-10-14T00:00:00Z") [] true (u "pcmk-ubuntu") None) as [res st'] eqn:He.
  assert (res = Ok demo_record_24) as -> by (by vm_compute in He; injection He as <- <-).
  split; [done|]. destruct H as [H _]. by destruct (H _ eq_refl).
Defined.

(** A first bootstrap, then a build file asking for another OS (refused), then a
    teardown of another stack and a plain re-run. *)
Lemma os_pinned_until_teardown_witness :
  let st := (write_record [] true demo_record_24).2 in
  let cmds := [demo_bootstrap (Some demo_config); CTeardown (u "rdqm-rhel"); demo_bootstrap None] in
  (history st cmds).1 =
    [(u "pcmk-ubuntu", Err (ErrRecord (RunningOther (u "pcmk-ubuntu") (mk_ref (u "ubuntu") 24)
                                         (mk_ref (u "ubuntu") 26))));
     (u "pcmk-ubuntu", Ok demo_record_24)] ∧
  read_record (history st cmds).2 (u "pcmk-ubuntu")
    = Ok (Some demo_record_24).
Proof.
  split; [by vm_compute|].
  apply os_pinned_until_teardown.
  - by vm_compute.
  - repeat (apply Forall_cons; split; [done|]). by apply Forall_nil.
Defined.
