(* ===== verification/Platforms.v ===== *)
(** * From nodes to virtual machines

    Models [mqlab/platforms.py] (which provider configuration each node gets on this
    host, and the size its box is baked at) and the sizing of [mqlab/hugepages.py].
    The box of each node comes from the version layer. *)

From S2P Require Import Prelude PyText PyCodec PyDict Hostfacts Topology Versions VersionsLoad.
From S2P Require Import Stacks.

(** ** platforms.py *)

Definition AAVMF_LOADER : text := u "/usr/share/AAVMF/AAVMF_CODE.fd".
Definition MACHINE_TYPE_X86 : text := u "q35".
Definition CPU_KVM : text := u "host-passthrough".
Definition CPU_TCG : text := u "maximum".
Definition TCG_BOOT_TIMEOUT : Z := 1800.
Definition LIBVIRT_POOL : text := u "/var/lib/libvirt/images".

Inductive PlatformError :=
  | NativeKvmRequired
  | NoBoxSelected (node : text)
  | ArmOnX86 (node : text)
  | BadSize (node key : text) (value : pyval)
  | NoNodeBoots (role : text)
  | OverCap (role : text) (cpus memory : Z)
  | InTopology (e : TopoError)
  | InVersions (e : NodeError).

Record ResolvedNode := mk_resolved {
    rn_os : text; rn_box : text; rn_arch : text; rn_driver : text;
    rn_machine_arch : option text; rn_machine_type : option text;
    rn_loader : option text; rn_nvram : option text; rn_input_bus : option text;
    rn_cpu_mode : text; rn_boot_timeout : option Z;
    rn_cpus : Z; rn_memory : Z; rn_extra_disk : option Z; rn_dvd : option text;
    rn_nics : list (text * text); rn_memory_backing : option text
  }.

Definition require_native_kvm (facts : HostFacts) : res PlatformError unit :=
  raise_if (negb (hf_kvm facts)) NativeKvmRequired.

(** [entry.get("arch") or facts.arch], of the catalog's pin. *)
Definition box_build_arch (pin : option text) (facts : HostFacts) : text :=
  default (arch_name (hf_arch facts)) (or_none pin).

Definition is_foreign_box_build (pin : option text) (facts : HostFacts) : bool :=
  match or_none pin with
  | Some a => negb (bool_decide (a = arch_name (hf_arch facts)))
  | None => false
  end.

Definition box_build_domain_virt (box_arch : text) (facts : HostFacts) : text * text :=
  if bool_decide (box_arch = arch_name (hf_arch facts)) && hf_kvm facts
  then (u "kvm", CPU_KVM) else (u "qemu", CPU_TCG).

Definition build_domain_virt (facts : HostFacts) : text * text :=
  box_build_domain_virt (arch_name X86_64) facts.

(** One of the two sizes: a positive integer, [bool] refused. *)
Definition positive_size (node key : text) (value : pyval) : res PlatformError Z :=
  match value with
  | PyInt z => if (z <? 1)%Z then Err (BadSize node key value) else Ok z
  | _ => Err (BadSize node key value)
  end.

(** [spec.get(k, defaults.get(k, d))]. *)
Definition sized (own dflt : option pyval) (d : Z) : pyval := default (default (PyInt d) dflt) own.

Definition node_sizing (name : text) (spec : NodeSpec) (defaults : option pyval * option pyval) :
    res PlatformError (Z * Z) :=
  cpus ← positive_size name (u "cpus") (sized (ns_cpus spec) defaults.1 1);
  memory ← positive_size name (u "memory") (sized (ns_memory spec) defaults.2 1024);
  Ok (cpus, memory).

Definition provider (name : text) (spec : NodeSpec) (defaults : option pyval * option pyval)
    (entry : BoxEntry) (facts : HostFacts) : res PlatformError ResolvedNode :=
  let guest := box_build_arch (oe_arch_pin (be_os entry)) facts in
  let is_arm := bool_decide (guest = arch_name AARCH64) in
  _ ← raise_if (is_arm && bool_decide (hf_arch facts = X86_64)) (ArmOnX86 name);
  let kvm := bool_decide (guest = arch_name (hf_arch facts)) && hf_kvm facts in
  cm ← node_sizing name spec defaults;
  Ok (mk_resolved (ref_str (oe_ref (be_os entry))) (be_name entry) guest
        (if kvm then u "kvm" else u "qemu")
        (if is_arm then None else Some (arch_name X86_64))
        (if is_arm then None else Some MACHINE_TYPE_X86)
        (if is_arm then Some AAVMF_LOADER else None)
        (if is_arm then Some (u "/var/lib/libvirt/qemu/nvram/lab-" ++ name ++ u "_VARS.fd")
         else None)
        (if is_arm then Some (u "virtio") else None)
        (if kvm then CPU_KVM else CPU_TCG)
        (if kvm then None else Some TCG_BOOT_TIMEOUT)
        cm.1 cm.2 (ns_extra_disk spec)
        ((λ iso, LIBVIRT_POOL ++ u "/" ++ iso) <$> or_none (oe_iso (be_os entry)))
        (ns_nics spec) None).

(** The lever as [topology.memory_backing] reads it. *)
Definition topo_backing (t : Topo) : res PlatformError (option text) :=
  map_err InTopology
    (memory_backing (match t_memory_backing t with
                     | Some v => [(PyStr MEMORY_BACKING, v)] | None => [] end)).

Definition with_backing (b : option text) (n : ResolvedNode) : ResolvedNode :=
  mk_resolved (rn_os n) (rn_box n) (rn_arch n) (rn_driver n) (rn_machine_arch n)
    (rn_machine_type n) (rn_loader n) (rn_nvram n) (rn_input_bus n) (rn_cpu_mode n)
    (rn_boot_timeout n) (rn_cpus n) (rn_memory n) (rn_extra_disk n) (rn_dvd n) (rn_nics n) b.

Definition resolve_node (t : Topo) (facts : HostFacts) (boxes : list (text * BoxEntry))
    (backing : option text) (ns : text * NodeSpec) : res PlatformError (text * ResolvedNode) :=
  entry ← of_option (NoBoxSelected ns.1) (dget boxes ns.1);
  n ← provider ns.1 ns.2 (t_defaults t) entry facts;
  Ok (ns.1, with_backing backing n).

Definition resolve (t : Topo) (facts : HostFacts) (boxes : list (text * BoxEntry)) :
    res PlatformError (list (text * ResolvedNode)) :=
  backing ← topo_backing t;
  res_mapM (resolve_node t facts boxes backing) (t_nodes t).

Definition BAKE_FLOOR_CPUS : Z := 2.
Definition BAKE_FLOOR_MEMORY_MIB : Z := 2048.
Definition BAKE_CAP_CPUS : Z := 12.
Definition BAKE_CAP_MEMORY_MIB : Z := 12288.

Record BakeSize := mk_bake { bk_cpus : Z; bk_memory : Z; bk_nodes : list text }.

(** The size of one node, if it boots the role. *)
Definition role_size (t : Topo) (role : text) (ns : text * NodeSpec) :
    res PlatformError (option (text * (Z * Z))) :=
  r ← map_err InVersions (node_role ns.1 ns.2);
  if bool_decide (r = role) then
    s ← node_sizing ns.1 ns.2 (t_defaults t); Ok (Some (ns.1, s))
  else Ok None.

Definition role_sizes (t : Topo) (role : text) : res PlatformError (list (text * (Z * Z))) :=
  sizes ← res_mapM (role_size t role) (t_nodes t);
  Ok (omap (M := list) id sizes).

Definition bake_size (t : Topo) (role : text) : res PlatformError BakeSize :=
  sizes ← role_sizes t role;
  _ ← raise_if (bool_decide (sizes = [])) (NoNodeBoots role);
  let cpus := foldr Z.max BAKE_FLOOR_CPUS (sizes.*2).*1 in
  let memory := foldr Z.max BAKE_FLOOR_MEMORY_MIB (sizes.*2).*2 in
  _ ← raise_if ((BAKE_CAP_CPUS <? cpus)%Z || (BAKE_CAP_MEMORY_MIB <? memory)%Z)
        (OverCap role cpus memory);
  Ok (mk_bake cpus memory (sorted_text sizes.*1)).

(** [ensure_resolved], up to the rendering of the resolved nodes as YAML. *)
Definition ensure_resolved (facts : HostFacts) (t : Topo) (c : Catalog)
    (record_os : text → res NodeError (option OsRef)) : res PlatformError (list (text * ResolvedNode)) :=
  _ ← require_native_kvm facts;
  boxes ← map_err InVersions (node_boxes record_os t c);
  resolve t facts boxes.

(** ** hugepages.py *)

Definition PAGE_KIB : Z := 2048.
Definition PAGE_MIB : Z := PAGE_KIB / 1024.
Definition MARGIN_PAGES : Z := 128.
Definition DEFAULT_MEMORY_MIB : Z := 1024.

Inductive HugeError := NotATopologyNode (guest : text) | IntFailed (value : pyval)
  | NotPositive (needed : Z) | BadLever (e : PlatformError).

Definition enabled (t : Topo) : res HugeError bool :=
  b ← map_err BadLever (topo_backing t); Ok (bool_decide (b = Some (u "hugepages"))).

Section hugepages.
(** [int(value)] of a value of a type the model does not look into (a float), by its
    type and text; [None]: TypeError, ValueError or OverflowError. *)
Context (int_other : text → text → option Z).

(** [int(value)]. *)
Definition py_int_of (v : pyval) : option Z :=
  match v with
  | PyInt z => Some z
  | PyBool b => Some (if b then 1 else 0)%Z
  | PyStr s => int_of_text s
  | PyOther ty repr _ => int_other ty repr
  | PyNone | PyList _ | PyDict _ => None
  end.

Definition guest_memory_mib (t : Topo) (guest : text) : res HugeError Z :=
  spec ← of_option (NotATopologyNode guest) (dget (t_nodes t) guest);
  let v := sized (ns_memory spec) (t_defaults t).2 DEFAULT_MEMORY_MIB in
  of_option (IntFailed v) (py_int_of v).

(** [-(-memory_mib // PAGE_MIB)]. *)
Definition pages_for (memory_mib : Z) : Z := - ((- memory_mib) / PAGE_MIB).

Definition needed_pages (t : Topo) (guests : list text) : res HugeError Z :=
  match guests with
  | [] => Ok 0%Z
  | _ =>
    mems ← res_mapM (guest_memory_mib t) guests;
    Ok (sumZ (pages_for <$> mems) + MARGIN_PAGES)%Z
  end.

(** [reserve_command]: the argument of the play. *)
Definition reserve_argument (needed : Z) : res HugeError text :=
  _ ← raise_if (needed <? 1)%Z (NotPositive needed);
  Ok (u "hugepages_needed=" ++ Z_text needed).
End hugepages.

(** ** Lemmas *)

Lemma positive_size_Ok node key v z :
  positive_size node key v = Ok z ↔ v = PyInt z ∧ (1 ≤ z)%Z.
Proof.
  unfold positive_size. destruct v; try naive_solver.
  destruct (Z.ltb_spec z0 1); naive_solver lia.
Qed.

Lemma node_sizing_Ok name spec d cpus memory :
  node_sizing name spec d = Ok (cpus, memory) ↔
    sized (ns_cpus spec) d.1 1 = PyInt cpus ∧ (1 ≤ cpus)%Z ∧
    sized (ns_memory spec) d.2 1024 = PyInt memory ∧ (1 ≤ memory)%Z.
Proof.
  unfold node_sizing. rewrite bind_Ok. setoid_rewrite bind_Ok.
  setoid_rewrite positive_size_Ok. naive_solver.
Qed.

(** What [provider] and [with_backing] give one node. *)
Definition node_ok (t : Topo) (facts : HostFacts) (backing : option text) (name : text)
    (spec : NodeSpec) (entry : BoxEntry) (n : ResolvedNode) : Prop :=
  let native := rn_arch n = arch_name (hf_arch facts) in
  rn_arch n = box_build_arch (oe_arch_pin (be_os entry)) facts ∧
  rn_box n = be_name entry ∧ rn_memory_backing n = backing ∧
  ¬ (rn_arch n = arch_name AARCH64 ∧ hf_arch facts = X86_64) ∧
  ((native ∧ hf_kvm facts = true ∧ rn_driver n = u "kvm" ∧ rn_cpu_mode n = CPU_KVM ∧
      rn_boot_timeout n = None) ∨
   (¬ (native ∧ hf_kvm facts = true) ∧ rn_driver n = u "qemu" ∧ rn_cpu_mode n = CPU_TCG ∧
      rn_boot_timeout n = Some TCG_BOOT_TIMEOUT)) ∧
  (is_Some (rn_loader n) ↔ rn_arch n = arch_name AARCH64) ∧
  (is_Some (rn_loader n) ↔ is_Some (rn_nvram n)) ∧
  (is_Some (rn_loader n) ↔ rn_machine_type n = None) ∧
  node_sizing name spec (t_defaults t) = Ok (rn_cpus n, rn_memory n).

Lemma resolve_node_Ok t facts boxes backing name spec out :
  resolve_node t facts boxes backing (name, spec) = Ok out →
  out.1 = name ∧ ∃ entry, dget boxes name = Some entry ∧
    node_ok t facts backing name spec entry out.2.
Proof.
  unfold resolve_node. intros H. res_inv. subst out. simpl in *. split; [done|].
  exists x. split; [done|]. unfold provider in *. res_inv. subst.
  match goal with H : node_sizing _ _ _ = Ok ?p |- _ => destruct p as [cpus memory] end.
  match goal with H : _ && _ = false |- _ =>
    rewrite andb_false_iff, !bool_decide_eq_false in H; rename H into Harm end.
  unfold node_ok. simpl. split_and!; try done.
  - intros [? ?]. naive_solver.
  - destruct (bool_decide_reflect (box_build_arch (oe_arch_pin (be_os x)) facts
      = arch_name (hf_arch facts))) as [Heq|Hne]; simpl; [destruct (hf_kvm facts); simpl|];
      [left; by rewrite Heq|right; naive_solver..].
  - case_bool_decide; naive_solver.
  - case_bool_decide; naive_solver.
  - case_bool_decide; naive_solver.
Qed.

Lemma resolve_Ok t facts boxes out :
  resolve t facts boxes = Ok out →
  out.*1 = (t_nodes t).*1 ∧ ∃ backing, topo_backing t = Ok backing ∧
  ∀ i name n, out !! i = Some (name, n) → ∃ spec entry, t_nodes t !! i = Some (name, spec) ∧
    dget boxes name = Some entry ∧ node_ok t facts backing name spec entry n.
Proof.
  unfold resolve. intros H. apply bind_Ok in H as (backing & Hb & H). apply res_mapM_Ok in H.
  split.
  - clear Hb. induction H as [|[name spec] o l k Ho _ IH]; csimpl; [done|]. rewrite IH. f_equal.
    by destruct (resolve_node_Ok _ _ _ _ _ _ _ Ho).
  - exists backing. split; [done|]. intros i name n Hi.
    destruct (Forall2_lookup_r _ _ _ _ _ H Hi) as ([name' spec] & Hl & Hn).
    destruct (resolve_node_Ok _ _ _ _ _ _ _ Hn) as (Heq & entry & ? & ?). simpl in *. subst.
    eauto.
Qed.

Lemma foldr_max_ge d (l : list Z) : (d ≤ foldr Z.max d l)%Z.
Proof. induction l; simpl; lia. Qed.

Lemma foldr_max_elem d (l : list Z) z : z ∈ l → (z ≤ foldr Z.max d l)%Z.
Proof. induction 1; simpl; lia. Qed.

Lemma foldr_max_attained d (l : list Z) : foldr Z.max d l = d ∨ foldr Z.max d l ∈ l.
Proof.
  induction l as [|z l IH]; simpl; [by left|].
  destruct (Z.max_spec z (foldr Z.max d l)) as [[_ ->]|[_ ->]]; [|right; left].
  destruct IH as [->|]; [by left|]. right. by right.
Qed.

Lemma role_sizes_Ok t role sizes :
  role_sizes t role = Ok sizes →
  ∀ name s, (name, s) ∈ sizes ↔ ∃ spec, (name, spec) ∈ t_nodes t ∧
    node_role name spec = Ok role ∧ node_sizing name spec (t_defaults t) = Ok s.
Proof.
  unfold role_sizes. intros H. res_inv. subst sizes.
  match goal with H : res_mapM _ _ = Ok ?l |- _ =>
    apply res_mapM_Ok in H; rename H into HF; rename l into sizes end.
  intros name s. rewrite list_elem_of_omap. split.
  - intros (o & (i & Hi)%list_elem_of_lookup & Ho).
    destruct (Forall2_lookup_r _ _ _ _ _ HF Hi) as ([name' spec] & Hl & Hr).
    unfold role_size in Hr. res_inv. case_bool_decide; res_inv; simplify_eq/=.
    exists spec. apply list_elem_of_lookup_2 in Hl. done.
  - intros (spec & (i & Hi)%list_elem_of_lookup & Hr & Hs).
    destruct (Forall2_lookup_l _ _ _ _ _ HF Hi) as (o & Hl & Ho).
    unfold role_size in Ho. simpl in Ho. rewrite Hr in Ho. simpl in Ho.
    rewrite bool_decide_eq_true_2 in Ho by done. rewrite Hs in Ho. simplify_eq/=.
    eexists. split; [by eapply list_elem_of_lookup_2|done].
Qed.

(** Whole pages cover the memory, and no page is spare. *)
Lemma pages_for_bounds m : (m ≤ pages_for m * PAGE_MIB < m + PAGE_MIB)%Z.
Proof.
  unfold pages_for. change PAGE_MIB with 2%Z.
  pose proof (Z.mul_div_le (- m) 2). pose proof (Z.mul_succ_div_gt (- m) 2). lia.
Qed.

Lemma sum_pages_bounds ms :
  (sumZ ms ≤ sumZ (pages_for <$> ms) * PAGE_MIB ≤ sumZ ms + Z.of_nat (length ms) * (PAGE_MIB - 1))%Z.
Proof.
  change PAGE_MIB with 2%Z. induction ms as [|m ms IH]; csimpl; [lia|].
  pose proof (pages_for_bounds m) as Hm. change PAGE_MIB with 2%Z in Hm. lia.
Qed.

(** The two modules read one node's memory alike. *)
Lemma guest_memory_resolved int_other t facts boxes out name n :
  dict_wf (t_nodes t) → resolve t facts boxes = Ok out → (name, n) ∈ out →
  guest_memory_mib int_other t name = Ok (rn_memory n).
Proof.
  intros Hwf (_ & backing & _ & Hout)%resolve_Ok (i & Hi)%list_elem_of_lookup.
  destruct (Hout _ _ _ Hi) as (spec & entry & Hl & _ & Hok).
  destruct Hok as (_ & _ & _ & _ & _ & _ & _ & _ & Hs).
  apply node_sizing_Ok in Hs as (_ & _ & Hm & _).
  unfold guest_memory_mib. rewrite (elem_dget _ _ spec Hwf) by (by eapply list_elem_of_lookup_2).
  unfold DEFAULT_MEMORY_MIB. simpl. by rewrite Hm.
Qed.

(** The pins of a catalog name host architectures, as its loader checks. *)
Definition pins_ok (c : Catalog) : Prop :=
  ∀ r e a, dget (c_oses c) r = Some e → or_none (oe_arch_pin e) = Some a →
    a = arch_name AARCH64 ∨ a = arch_name X86_64.

Lemma box_for_entry record_os t c name role b :
  box_for record_os t c name role b → ∃ r, dget (c_oses c) r = Some (be_os b).
Proof.
  intros [(_ & r & _ & Hb)|(_ & _ & _ & r & _ & _ & _ & _ & Hb)]; apply box_Ok in Hb;
    exists r; naive_solver.
Qed.

(** ** Properties *)

(** The virtualization matrix: when the resolved topology is produced, each node of
    the topology is in it, in order, with positive sizes; a node of the host's own
    architecture runs under KVM with the host's CPU and no boot timeout, and the only
    nodes emulated are x86 guests on an ARM host, with the emulation's timeout; ARM
    guests, and only they, get UEFI firmware. *)
Theorem resolved_matrix facts t c record_os out :
  pins_ok c → ensure_resolved facts t c record_os = Ok out →
  out.*1 = (t_nodes t).*1 ∧
  ∀ name n, (name, n) ∈ out →
    (1 ≤ rn_cpus n)%Z ∧ (1 ≤ rn_memory n)%Z ∧
    ((rn_arch n = arch_name (hf_arch facts) ∧ rn_driver n = u "kvm" ∧ rn_cpu_mode n = CPU_KVM ∧
        rn_boot_timeout n = None) ∨
     (rn_arch n = arch_name X86_64 ∧ hf_arch facts = AARCH64 ∧ rn_driver n = u "qemu" ∧
        rn_cpu_mode n = CPU_TCG ∧ rn_boot_timeout n = Some TCG_BOOT_TIMEOUT)) ∧
    (is_Some (rn_loader n) ↔ rn_arch n = arch_name AARCH64).
Proof.
  intros Hpins H. unfold ensure_resolved, require_native_kvm in H. res_inv.
  match goal with H : negb _ = false |- _ => apply negb_false_iff in H; rename H into Hkvm end.
  match goal with H : node_boxes _ _ _ = Ok _ |- _ => apply node_boxes_Ok in H as [_ Hb] end.
  match goal with H : resolve _ _ _ = Ok _ |- _ =>
    apply resolve_Ok in H as (Hkeys & backing & _ & Hout) end.
  split; [done|]. intros name n (i & Hi)%list_elem_of_lookup.
  destruct (Hout _ _ _ Hi) as (spec & entry & _ & He & Harch & _ & _ & Hno & Hdrv & Hload & _ & _ & Hs).
  apply node_sizing_Ok in Hs as (_ & ? & _ & ?). split_and!; [done..| |done].
  destruct Hdrv as [(? & _ & ? & ? & ?)|(Hnot & ? & ? & ?)]; [by left|].
  destruct (Hb name entry) as (_ & role & _ & _ & _ & Hbox); [by apply dget_elem|].
  apply box_for_entry in Hbox as [r Hr]. unfold box_build_arch in Harch.
  destruct (or_none (oe_arch_pin (be_os entry))) as [a|] eqn:Hp; simpl in Harch; [|naive_solver].
  right. destruct (Hpins _ _ _ Hr Hp) as [->| ->], (hf_arch facts); naive_solver.
Qed.

(** The size a box is baked at: [bake_size] gives at least the floor and at most the
    cap, is at least the size of every node that boots the role, is no larger than
    the floor or one of those nodes asks for, and names exactly those nodes; it is
    refused when no node boots the role. *)
Theorem bake_size_covers_nodes t role b :
  bake_size t role = Ok b →
  (BAKE_FLOOR_CPUS ≤ bk_cpus b ≤ BAKE_CAP_CPUS)%Z ∧
  (BAKE_FLOOR_MEMORY_MIB ≤ bk_memory b ≤ BAKE_CAP_MEMORY_MIB)%Z ∧
  (∀ name, name ∈ bk_nodes b ↔ ∃ spec, (name, spec) ∈ t_nodes t ∧ node_role name spec = Ok role) ∧
  bk_nodes b ≠ [] ∧
  (∀ name spec cpus memory, (name, spec) ∈ t_nodes t → node_role name spec = Ok role →
     node_sizing name spec (t_defaults t) = Ok (cpus, memory) →
     (cpus ≤ bk_cpus b)%Z ∧ (memory ≤ bk_memory b)%Z) ∧
  (bk_cpus b = BAKE_FLOOR_CPUS ∨ ∃ name spec memory, (name, spec) ∈ t_nodes t ∧
     node_role name spec = Ok role ∧
     node_sizing name spec (t_defaults t) = Ok (bk_cpus b, memory)) ∧
  (bk_memory b = BAKE_FLOOR_MEMORY_MIB ∨ ∃ name spec cpus, (name, spec) ∈ t_nodes t ∧
     node_role name spec = Ok role ∧
     node_sizing name spec (t_defaults t) = Ok (cpus, bk_memory b)).
Proof.
  unfold bake_size. intros H. apply bind_Ok in H as (sizes & Hsz & H). res_inv. subst b. simpl.
  pose proof (role_sizes_Ok _ _ _ Hsz) as Hspec.
  match goal with H : _ || _ = false |- _ =>
    apply orb_false_iff in H as [Hc%Z.ltb_ge Hm%Z.ltb_ge] end.
  match goal with H : bool_decide _ = false |- _ => apply bool_decide_eq_false in H end.
  split; [split; [apply foldr_max_ge|done]|].
  split; [split; [apply foldr_max_ge|done]|].
  split_and!.
  - intros name. unfold sorted_text. rewrite elem_of_isort, list_elem_of_fmap. split.
    + intros ([n s] & -> & (spec & ? & ? & ?)%Hspec). eauto.
    + intros (spec & Hin & Hr). unfold role_sizes in Hsz. res_inv.
      match goal with H : res_mapM _ _ = Ok _ |- _ => apply res_mapM_Ok in H; rename H into HF end.
      apply list_elem_of_lookup in Hin as Hin'. destruct Hin' as [i Hi].
      destruct (Forall2_lookup_l _ _ _ _ _ HF Hi) as (o & _ & Ho). unfold role_size in Ho.
      simpl in Ho. rewrite Hr in Ho. simpl in Ho. rewrite bool_decide_eq_true_2 in Ho by done.
      apply bind_Ok in Ho as (s & Hs & _). exists (name, s). split; [done|].
      apply Hspec. eauto.
  - unfold sorted_text. intros Hnil. apply (f_equal length) in Hnil.
    rewrite length_isort, length_fmap in Hnil. by destruct sizes.
  - intros name spec cpus memory Hin Hr Hs.
    assert ((name, (cpus, memory)) ∈ sizes) as Hin' by (apply Hspec; eauto).
    split; apply foldr_max_elem, list_elem_of_fmap; exists (cpus, memory);
      (split; [done|]); apply list_elem_of_fmap; by exists (name, (cpus, memory)).
  - destruct (foldr_max_attained BAKE_FLOOR_CPUS (sizes.*2).*1) as [->|Hin]; [by left|right].
    apply list_elem_of_fmap in Hin as (s & Heq & ([n s'] & Hss & Hin)%list_elem_of_fmap).
    destruct s as [c m]. simpl in Heq, Hss. subst s'. apply Hspec in Hin as (spec & ? & ? & ?).
    rewrite Heq. by exists n, spec, m.
  - destruct (foldr_max_attained BAKE_FLOOR_MEMORY_MIB (sizes.*2).*2) as [->|Hin];
      [by left|right].
    apply list_elem_of_fmap in Hin as (s & Heq & ([n s'] & Hss & Hin)%list_elem_of_fmap).
    destruct s as [c m]. simpl in Heq, Hss. subst s'. apply Hspec in Hin as (spec & ? & ? & ?).
    rewrite Heq. by exists n, spec, c.
Qed.

(** C36. The huge pages reserved before a boot are the ones its guests will map: for the
    guests about to boot, with the memory the resolved topology gives each of them,
    the reservation succeeds and covers their memory and the margin, over-committing
    less than one page for each guest. *)
Theorem reservation_covers_guests int_other t facts boxes out guests mems :
  dict_wf (t_nodes t) → resolve t facts boxes = Ok out → guests ≠ [] →
  Forall2 (λ g m, ∃ n, (g, n) ∈ out ∧ m = rn_memory n) guests mems →
  ∃ pages, needed_pages int_other t guests = Ok pages ∧
    (sumZ mems + MARGIN_PAGES * PAGE_MIB ≤ pages * PAGE_MIB)%Z ∧
    (pages * PAGE_MIB ≤ sumZ mems + MARGIN_PAGES * PAGE_MIB + Z.of_nat (length guests))%Z.
Proof.
  intros Hwf Hout Hne HF.
  assert (res_mapM (guest_memory_mib int_other t) guests = Ok mems) as Hm.
  { apply res_mapM_Ok. eapply Forall2_impl; [done|]. intros g m (n & Hin & ->).
    by eapply guest_memory_resolved. }
  eexists. unfold needed_pages. destruct guests as [|g guests]; [done|]. rewrite Hm.
  split; [done|]. pose proof (sum_pages_bounds mems) as Hs. apply Forall2_length in HF.
  change PAGE_MIB with 2%Z in *. rewrite <-HF in Hs. lia.
Qed.

(** ** Witnesses *)

Definition demo_sized (role : string) (cpus memory : Z) : NodeSpec :=
  mk_node (ys role) (Some (PyInt cpus)) (Some (PyInt memory)) None [] None.

Definition sized_topo : Topo :=
  mk_topo
    [(u "rdqm-a1", demo_sized "mq-rdqm" 4 4097); (u "rdqm-a2", demo_node "mq-rdqm" None);
     (u "probe", demo_sized "mq-client" 1 1024)]
    [(u "rdqm_a", [u "rdqm-a1"; u "rdqm-a2"]); (u "probe", [u "probe"])]
    [(u "rdqm-rhel", demo_cfg "rhel" "RR" [u "rdqm_a"] [])]
    [u "probe"] (None, None) None (None, Some (PyInt 2048)) (Some (ys "hugepages")).

Lemma demo_pins_ok : pins_ok demo_catalog.
Proof.
  intros r e a He%dget_elem Ha.
  assert (Forall (λ p : OsRef * OsEntry, match or_none (oe_arch_pin p.2) with
    | Some a => a = arch_name X86_64 | None => True end) (c_oses demo_catalog)) as Hall.
  { vm_compute. by repeat constructor. }
  rewrite Forall_forall in Hall. specialize (Hall _ He). simpl in Hall. rewrite Ha in Hall. by right.
Qed.

(** On an ARM host the x86-pinned cluster nodes are emulated, the others native. *)
Definition arm_kvm : HostFacts := mk_facts AARCH64 true APT_FAMILY true false [].

Lemma resolved_matrix_witness :
  ∃ out, ensure_resolved arm_kvm sized_topo demo_catalog (λ _, Ok None) = Ok out ∧
    (rn_driver <$> out.*2) = [u "qemu"; u "qemu"; u "kvm"] ∧
    out.*1 = (t_nodes sized_topo).*1.
Proof.
  destruct (ensure_resolved arm_kvm sized_topo demo_catalog (λ _, Ok None)) as [out|e] eqn:H;
    [|by vm_compute in H].
  exists out. split; [done|]. split; [by vm_compute in H; injection H as <-|].
  by apply (resolved_matrix _ _ _ _ _ demo_pins_ok H).
Defined.

Lemma bake_size_covers_nodes_witness :
  bake_size sized_topo (u "mq-rdqm") = Ok (mk_bake 4 4097 [u "rdqm-a1"; u "rdqm-a2"]) ∧
  (BAKE_FLOOR_CPUS ≤ 4 ≤ BAKE_CAP_CPUS)%Z.
Proof.
  assert (bake_size sized_topo (u "mq-rdqm") = Ok (mk_bake 4 4097 [u "rdqm-a1"; u "rdqm-a2"]))
    as H by (by vm_compute).
  split; [done|]. by destruct (bake_size_covers_nodes _ _ _ H) as [? _].
Defined.

Lemma reservation_covers_guests_witness :
  ∃ pages, needed_pages (λ _ _, None) sized_topo [u "rdqm-a1"; u "probe"] = Ok pages ∧
    pages = 2689%Z ∧ (4097 + 1024 + MARGIN_PAGES * PAGE_MIB ≤ pages * PAGE_MIB)%Z.
Proof.
  destruct (node_boxes (λ _, Ok None) sized_topo demo_catalog) as [boxes|e] eqn:Hb;
    [|by vm_compute in Hb].
  destruct (resolve sized_topo arm_kvm boxes) as [out|e] eqn:H;
    [|vm_compute in Hb; injection Hb as <-; by vm_compute in H].
  assert (Forall2 (λ g m, ∃ n, (g, n) ∈ out ∧ m = rn_memory n) [u "rdqm-a1"; u "probe"] [4097; 1024]%Z)
    as HF.
  { vm_compute in Hb. injection Hb as <-. vm_compute in H. injection H as <-.
    constructor; [eexists; split; [left|done]|].
    constructor; [eexists; split; [do 2 right; left|done]|constructor]. }
  destruct (reservation_covers_guests (λ _ _, None) sized_topo arm_kvm boxes out
    [u "rdqm-a1"; u "probe"] [4097; 1024]%Z) as (pages & Hp & Hge & _); [|done..|].
  - apply (bool_decide_unpack _). by vm_compute.
  - exists pages. split; [done|]. vm_compute in Hp. injection Hp as <-. split; [done|].
    by vm_compute.
Defined.
