(* ===== verification/Dns.v ===== *)
(** * DNS records and the BIND configuration

    Models [mqlab/dns.py] and [mqlab/bind.py]: the forward and reverse zones of the
    topology, which infra node masters which zone, and the resolver of each host.
    [str.lower] is a parameter. *)

From S2P Require Import Prelude PyText PyCodec PyDict Versions VersionsLoad Stacks.

(** ** dns.py *)

Definition CLIENT_ZONE : text := u "client.com".
Definition SERVICE_ZONE : text := u "service.com".
Definition ZONES : list (text * text) :=
  [(u "client", CLIENT_ZONE); (u "service", SERVICE_ZONE)].
Definition PRIMARY_ORDER : list text :=
  [u "net-data-a"; u "net-data-b"; u "net-ext"; u "net-mgmt"].

Inductive DnsError :=
  | BadOrg (org : text)
  | NoPrimary (host : text) (planes : list text)
  | NotIPv4 (ip : text)
  | NoNics (host : text)
  | UndefinedInfra (host : text)
  | TwoInfra (org : text)
  | NoInfra (org : text)
  | NoSharedPlane (host infra : text)
  | DnsKeyError (key : text).

Record Rec := mk_rec { r_name : text; r_type : text; r_value : text }.
#[export] Instance Rec_eq_dec : EqDecision Rec.
Proof. solve_decision. Defined.

(** The order of the dataclass: by name, then type, then value. *)
Definition rec_leb (a b : Rec) : bool :=
  if bool_decide (r_name a = r_name b) then
    if bool_decide (r_type a = r_type b) then text_leb (r_value a) (r_value b)
    else text_leb (r_type a) (r_type b)
  else text_leb (r_name a) (r_name b).

(** [sorted(set(recs))]. *)
Definition sorted_recs (l : list Rec) : list Rec := isort rec_leb (uniq l).

Definition DOT : N := 46.
Definition A_TYPE : text := u "A".
Definition CNAME : text := u "CNAME".
Definition PTR : text := u "PTR".

Definition suffix (plane : text) : text :=
  if startswith plane (u "net-") then drop 4 plane else plane.

Definition zone_of (spec : NodeSpec) : res DnsError text :=
  let org := default (u "client") (ns_org spec) in of_option (BadOrg org) (dget ZONES org).

Definition primary_plane (host : text) (nics : list (text * text)) : res DnsError text :=
  of_option (NoPrimary host (sorted_text nics.*1))
    (head (List.filter (λ p, dmem p nics) PRIMARY_ORDER)).

Definition rev_suffix : text := u ".in-addr.arpa".

(** [_rev]: the reverse zone and the PTR owner of an address. *)
Definition rev_ip (ip : text) : res DnsError (text * text) :=
  match split_on DOT ip with
  | [a; b; c; d] =>
      Ok (c ++ [DOT] ++ b ++ [DOT] ++ a ++ rev_suffix,
          d ++ [DOT] ++ c ++ [DOT] ++ b ++ [DOT] ++ a ++ rev_suffix)
  | _ => Err (NotIPv4 ip)
  end.

(** The name of an interface. *)
Definition iface (host plane zone : text) : text := host ++ u "-" ++ suffix plane ++ [DOT] ++ zone.

Definition node_forward (host : text) (spec : NodeSpec) (zone : text) : res DnsError (list Rec) :=
  match ns_nics spec with
  | [] => Err (NoNics host)
  | nics =>
      primary ← primary_plane host nics;
      Ok (((λ n, mk_rec (iface host n.1 zone) A_TYPE n.2) <$> nics)
          ++ [mk_rec (host ++ [DOT] ++ zone) CNAME (iface host primary zone)])
  end.

Definition VIP_KEYS : list (text * text) :=
  [(u "vip", u "vip-a"); (u "vip_b", u "vip-b"); (u "vip_ext", u "vip-ext-a");
   (u "vip_ext_b", u "vip-ext-b")].

Section dns.
Context (lower : text → text).

(** The VIPs of one stack. *)
Definition stack_vips (cfg : StackCfg) : list (text * text) :=
  let short := lower (default [] (sc_short cfg)) in
  if bool_decide (short = []) then []
  else omap (λ kl : text * text,
         match dget (sc_qm cfg) kl.1 with
         | Some ((_ :: _) as ip) => Some (short ++ u "-" ++ kl.2 ++ [DOT] ++ CLIENT_ZONE, ip)
         | _ => None
         end) VIP_KEYS.

Definition vips (t : Topo) : list (text * text) := sc ← t_stacks t; stack_vips sc.2.

(** [zones[zone].extend(recs)] for one node. *)
Definition add_forward (zones : list (text * list Rec)) (n : text * NodeSpec) :
    res DnsError (list (text * list Rec)) :=
  zone ← zone_of n.2;
  recs ← node_forward n.1 n.2 zone;
  Ok (dset zones zone (dget_or zones zone [] ++ recs)).

Definition add_vip (zones : list (text * list Rec)) (v : text * text) : list (text * list Rec) :=
  dset zones CLIENT_ZONE (dget_or zones CLIENT_ZONE [] ++ [mk_rec v.1 A_TYPE v.2]).

Definition sort_zones (zones : list (text * list Rec)) : list (text * list Rec) :=
  (λ z, (z.1, sorted_recs z.2)) <$> zones.

Definition forward_zones (t : Topo) : res DnsError (list (text * list Rec)) :=
  zones ← res_foldM add_forward ((λ z, (z, [])) <$> ZONES.*2) (t_nodes t);
  Ok (sort_zones (foldl add_vip zones (vips t))).

(** [zones.setdefault(rz, []).append(Record(owner, "PTR", name))]. *)
Definition add_ptr (zones : list (text * list Rec)) (ni : text * text) :
    res DnsError (list (text * list Rec)) :=
  ro ← rev_ip ni.2;
  Ok (dset zones ro.1 (dget_or zones ro.1 [] ++ [mk_rec ro.2 PTR ni.1])).

(** The (name, address) pairs of one node's interfaces. *)
Definition add_reverse (zones : list (text * list Rec)) (n : text * NodeSpec) :
    res DnsError (list (text * list Rec)) :=
  zone ← zone_of n.2;
  res_foldM add_ptr zones ((λ p, (iface n.1 p.1 zone, p.2)) <$> ns_nics n.2).

Definition reverse_zones (t : Topo) : res DnsError (list (text * list Rec)) :=
  zones ← res_foldM add_reverse [] (t_nodes t);
  zones ← res_foldM add_ptr zones (vips t);
  Ok (sort_zones zones).

(** ** bind.py *)

Definition org_of (spec : NodeSpec) : text :=
  if bool_decide (ns_org spec = Some (u "service")) then u "service" else u "client".

Definition add_infra (t : Topo) (out : list (text * (text * NodeSpec))) (name : text) :
    res DnsError (list (text * (text * NodeSpec))) :=
  spec ← of_option (UndefinedInfra name) (dget (t_nodes t) name);
  _ ← raise_if (dmem (org_of spec) out) (TwoInfra (org_of spec));
  Ok (dset out (org_of spec) (name, spec)).

Definition infra_by_org (t : Topo) : res DnsError (list (text * (text * NodeSpec))) :=
  out ← res_foldM (add_infra t) [] (hosts_of t (u "infra"));
  _ ← res_mapM (λ org, raise_if (negb (dmem org out)) (NoInfra org)) ZONES.*1;
  Ok out.

Definition ns_fqdn (host : text) (spec : NodeSpec) : res DnsError text :=
  primary ← primary_plane host (ns_nics spec);
  zone ← zone_of spec;
  Ok (iface host primary zone).

Definition dquote : text := [34%N].
Definition LF : text := [10%N].

Definition rr (r : Rec) : text :=
  r_name r ++ u ". IN " ++ r_type r ++ u " "
  ++ (if bool_decide (r_type r = A_TYPE) then r_value r else r_value r ++ [DOT]).

(** The em dash of the header line is U+2014. *)
Definition zone_file (apex ns : text) (records : list Rec) : text :=
  str_join LF
    ((u "; " ++ apex ++ u " " ++ [8212%N] ++ u " generated by `mqlab dns render`; do not edit")
     :: u "$TTL 300"
     :: (u "@ IN SOA " ++ ns ++ u ". hostmaster." ++ apex ++ u ". ( 1 3600 600 86400 300 )")
     :: (u "@ IN NS " ++ ns ++ u ".")
     :: (rr <$> records)) ++ LF.

Definition zone_decl (name : text) : text :=
  u "zone " ++ dquote ++ name ++ dquote ++ u " { type master; file " ++ dquote
  ++ u "/etc/bind/zones/" ++ name ++ u ".zone" ++ dquote ++ u "; };".

Definition zone_forward (name peer_ip : text) : text :=
  u "zone " ++ dquote ++ name ++ dquote ++ u " { type forward; forwarders { " ++ peer_ip
  ++ u "; }; };".

Definition named_options : text :=
  concat ((λ l, l ++ LF) <$>
    [u "options {";
     u "    directory " ++ dquote ++ u "/var/cache/bind" ++ dquote ++ u ";";
     u "    recursion yes;"; u "    allow-query { any; };";
     u "    forwarders { 192.168.121.1; };"; u "    forward only;";
     u "    dnssec-validation no;"; u "    listen-on { any; };";
     u "    listen-on-v6 { none; };"; u "};"]).

(** [spec["nics"]["net-ext"]]. *)
Definition ext_ip (spec : NodeSpec) : res DnsError text :=
  of_option (DnsKeyError (u "net-ext")) (dget (ns_nics spec) (u "net-ext")).

Definition zone_name (z : text) : text := z ++ u ".zone".

Definition render (t : Topo) : res DnsError (list (text * text)) :=
  infra ← infra_by_org t;
  client ← of_option (DnsKeyError (u "client")) (dget infra (u "client"));
  svc ← of_option (DnsKeyError (u "service")) (dget infra (u "service"));
  client_ns ← ns_fqdn client.1 client.2;
  svc_ns ← ns_fqdn svc.1 svc.2;
  fwd ← forward_zones t;
  rev ← reverse_zones t;
  let out := dset [] (zone_name CLIENT_ZONE)
               (zone_file CLIENT_ZONE client_ns (dget_or fwd CLIENT_ZONE [])) in
  let out := dset out (zone_name SERVICE_ZONE)
               (zone_file SERVICE_ZONE svc_ns (dget_or fwd SERVICE_ZONE [])) in
  let out := foldl (λ out z, dset out (zone_name z.1) (zone_file z.1 client_ns z.2)) out rev in
  let client_zones := CLIENT_ZONE :: rev.*1 in
  svc_ext ← ext_ip svc.2;
  client_ext ← ext_ip client.2;
  let client_local := (zone_decl <$> client_zones) ++ [zone_forward SERVICE_ZONE svc_ext] in
  let svc_local := zone_decl SERVICE_ZONE :: ((λ z, zone_forward z client_ext) <$> client_zones) in
  let local h := u "named.conf.local." ++ h in
  let options h := u "named.conf.options." ++ h in
  let out := dset out (local client.1) (str_join LF client_local ++ LF) in
  let out := dset out (local svc.1) (str_join LF svc_local ++ LF) in
  let out := dset out (options client.1) named_options in
  Ok (dset out (options svc.1) named_options).

Definition RESOLVER_ORDER : list text := PRIMARY_ORDER.
Definition LOOPBACK : text := u "127.0.0.1".

Definition resolver_ip (host : text) (spec : NodeSpec)
    (infra : list (text * (text * NodeSpec))) : res DnsError text :=
  if existsb (λ i, bool_decide (host = i.2.1)) infra then Ok LOOPBACK
  else
    node ← of_option (DnsKeyError (org_of spec)) (dget infra (org_of spec));
    of_option (NoSharedPlane host node.1)
      (plane ← head (List.filter (λ p, dmem p (ns_nics spec) && dmem p (ns_nics node.2))
                       RESOLVER_ORDER);
       dget (ns_nics node.2) plane).

Record HostDns := mk_host_dns { hd_resolver : text; hd_self_ip : text; hd_fqdn : text }.

Definition host_fact (infra : list (text * (text * NodeSpec))) (n : text * NodeSpec) :
    res DnsError (option (text * HostDns)) :=
  match ns_nics n.2 with
  | [] => Ok None
  | nics =>
      primary ← primary_plane n.1 nics;
      resolver ← resolver_ip n.1 n.2 infra;
      self ← of_option (DnsKeyError primary) (dget nics primary);
      zone ← zone_of n.2;
      Ok (Some (n.1, mk_host_dns resolver self (n.1 ++ [DOT] ++ zone)))
  end.

Definition host_dns_facts (t : Topo) : res DnsError (list (text * HostDns)) :=
  infra ← infra_by_org t;
  facts ← res_mapM (host_fact infra) (t_nodes t);
  Ok (omap (M := list) id facts).
End dns.

(** ** Lemmas on records and zones *)

Lemma rec_leb_total a b : rec_leb a b = true ∨ rec_leb b a = true.
Proof. unfold rec_leb. repeat case_bool_decide; try congruence; apply text_leb_total. Qed.

(** One level of a lexicographic order on texts. *)
Lemma lex_trans (x y z : text) (p q r : bool) :
  (p = true → q = true → r = true) →
  (if bool_decide (x = y) then p else text_leb x y) = true →
  (if bool_decide (y = z) then q else text_leb y z) = true →
  (if bool_decide (x = z) then r else text_leb x z) = true.
Proof.
  intros Hr H1 H2. destruct (decide (x = y)) as [<-|Hxy].
  - rewrite bool_decide_eq_true_2 in H1 by done. case_bool_decide; auto.
  - rewrite bool_decide_eq_false_2 in H1 by done. destruct (decide (y = z)) as [<-|Hyz].
    + by rewrite bool_decide_eq_false_2 by done.
    + rewrite bool_decide_eq_false_2 in H2 by done. case_bool_decide as Hxz.
      * subst. destruct Hxy. by apply text_leb_antisym.
      * by eapply text_leb_trans.
Qed.

Lemma rec_leb_trans a b c : rec_leb a b = true → rec_leb b c = true → rec_leb a c = true.
Proof. apply lex_trans, lex_trans, text_leb_trans. Qed.

Lemma elem_of_sorted_recs r l : r ∈ sorted_recs l ↔ r ∈ l.
Proof. unfold sorted_recs. by rewrite elem_of_isort, elem_of_uniq. Qed.

Lemma sorted_recs_sorted l :
  NoDup (sorted_recs l) ∧ StronglySorted rec_leb (sorted_recs l).
Proof.
  split; [apply NoDup_isort, NoDup_uniq|].
  apply (isort_StronglySorted _ (λ _, True)); [| |by apply Forall_true].
  - intros. apply rec_leb_total.
  - intros. by eapply rec_leb_trans.
Qed.

Lemma dget_sort_zones zones z : dget_or (sort_zones zones) z [] = sorted_recs (dget_or zones z []).
Proof.
  unfold dget_or, sort_zones. induction zones as [|[z' l] zones IH]; [done|]. simpl.
  by case_decide.
Qed.

Lemma dget_or_dset {V} (d : list (text * V)) k k' v x :
  dget_or (dset d k v) k' x = if decide (k = k') then v else dget_or d k' x.
Proof. unfold dget_or. rewrite dget_dset. by case_decide. Qed.

Lemma rev_ip_Ok ip rz owner :
  rev_ip ip = Ok (rz, owner) ↔ ∃ a b c d, split_on DOT ip = [a; b; c; d] ∧
    rz = c ++ [DOT] ++ b ++ [DOT] ++ a ++ rev_suffix ∧
    owner = d ++ [DOT] ++ c ++ [DOT] ++ b ++ [DOT] ++ a ++ rev_suffix.
Proof.
  unfold rev_ip. split.
  - destruct (split_on DOT ip) as [|a [|b [|c [|d [|]]]]]; try done. intros [= <- <-]. eauto 10.
  - by intros (a & b & c & d & -> & -> & ->).
Qed.

(** No piece of a full split holds the separator. *)
Lemma split_max_no_sep sep n s : length s ≤ n → Forall (λ p, sep ∉ p) (split_max sep n s).
Proof.
  revert s. induction n as [|n IH]; intros s Hs; simpl.
  - destruct s; simpl in Hs; [|lia]. constructor; [set_solver|constructor].
  - destruct (cut sep s) as [[a b]|] eqn:Hc.
    + apply cut_Some in Hc as [-> Ha]. constructor; [done|]. apply IH.
      rewrite length_app in Hs. simpl in Hs. lia.
    + apply cut_None in Hc. by repeat constructor.
Qed.

(** The octets of an address hold no dot. *)
Lemma split_4 ip a b c d :
  split_on DOT ip = [a; b; c; d] →
  ip = a ++ DOT :: b ++ DOT :: c ++ DOT :: d ∧ Forall (λ p, DOT ∉ p) [a; b; c; d].
Proof.
  unfold split_on. intros H. split.
  - pose proof (str_join_split_max DOT (length ip) ip) as Hj. by rewrite H in Hj.
  - rewrite <-H. by apply split_max_no_sep.
Qed.

Lemma dot_cancel a b x y :
  a ++ DOT :: x = b ++ DOT :: y → (DOT ∉ a) → (DOT ∉ b) → a = b ∧ x = y.
Proof.
  intros H Ha Hb. apply (f_equal (cut DOT)) in H. rewrite !cut_app in H by done. by simplify_eq.
Qed.

(** An address is determined by the owner of its PTR record. *)
Lemma rev_ip_inj ip ip' rz rz' owner :
  rev_ip ip = Ok (rz, owner) → rev_ip ip' = Ok (rz', owner) → ip = ip'.
Proof.
  rewrite !rev_ip_Ok.
  intros (a & b & c & d & [-> H]%split_4 & _ & ->) (a' & b' & c' & d' & [-> H']%split_4 & _ & Ho).
  repeat match goal with
  | H : Forall _ (_ :: _) |- _ => apply Forall_cons in H as [? H]
  end.
  simpl in Ho.
  do 3 (apply dot_cancel in Ho as [-> Ho]; [|done..]). by apply app_inv_tail in Ho as ->.
Qed.

Section zone_lemmas.
Context (lower : text → text).

(** The records each node puts in the forward zones. *)
Lemma forward_nodes_spec zones0 nodes zones :
  (∀ z, dget_or zones0 z [] = []) →
  res_foldM add_forward zones0 nodes = Ok zones →
  ∀ z r, r ∈ dget_or zones z [] ↔ ∃ host spec recs, (host, spec) ∈ nodes ∧
    zone_of spec = Ok z ∧ node_forward host spec z = Ok recs ∧ r ∈ recs.
Proof.
  intros H0. apply (res_foldM_ind (λ dn zs, ∀ z r, r ∈ dget_or zs z [] ↔
    ∃ host spec recs, (host, spec) ∈ dn ∧ zone_of spec = Ok z ∧
    node_forward host spec z = Ok recs ∧ r ∈ recs)).
  - intros z r. rewrite H0. set_solver.
  - intros dn [host spec] s0 s1 IH _ H z r. unfold add_forward in H. res_inv. subst s1. simpl in *.
    rename x into zone, x0 into recs. rewrite dget_or_dset. split.
    + intros Hr. assert (r ∈ dget_or s0 z [] ∨ (zone = z ∧ r ∈ recs)) as [Hr'|[<- Hr']].
      { case_decide; [subst; apply elem_of_app in Hr as [?|?]|]; auto. }
      * apply IH in Hr' as (h & sp & rs & ? & ? & ? & ?). exists h, sp, rs.
        split_and!; [|done..]. apply elem_of_app. by left.
      * exists host, spec, recs. split_and!; [|done..]. apply elem_of_app. right. left.
    + intros (h & sp & rs & Hin & Hz & Hf & Hr).
      apply elem_of_app in Hin as [Hin|Hin].
      * assert (r ∈ dget_or s0 z []) as Hr' by (apply IH; eauto 10).
        case_decide; [subst; apply elem_of_app; by left|done].
      * apply list_elem_of_singleton in Hin. simplify_eq. rewrite Hz in *. simplify_eq.
        rewrite decide_True by done. rewrite Hf in *. simplify_eq. apply elem_of_app. by right.
Qed.

Lemma add_vips_spec vs zones z r :
  r ∈ dget_or (foldl add_vip zones vs) z [] ↔
    r ∈ dget_or zones z [] ∨ (z = CLIENT_ZONE ∧ ∃ v, v ∈ vs ∧ r = mk_rec v.1 A_TYPE v.2).
Proof.
  revert zones. induction vs as [|v vs IH]; intros zones; simpl; [set_solver|].
  rewrite IH. unfold add_vip. rewrite dget_or_dset. setoid_rewrite elem_of_cons.
  case_decide as Hz.
  - subst z. rewrite elem_of_app, list_elem_of_singleton. naive_solver.
  - naive_solver.
Qed.

Lemma add_ptrs_spec zones0 l zones :
  res_foldM add_ptr zones0 l = Ok zones →
  ∀ z r, r ∈ dget_or zones z [] ↔ r ∈ dget_or zones0 z [] ∨
    ∃ name ip owner, (name, ip) ∈ l ∧ rev_ip ip = Ok (z, owner) ∧ r = mk_rec owner PTR name.
Proof.
  apply (res_foldM_ind (λ dn zs, ∀ z r, r ∈ dget_or zs z [] ↔ r ∈ dget_or zones0 z [] ∨
    ∃ name ip owner, (name, ip) ∈ dn ∧ rev_ip ip = Ok (z, owner) ∧ r = mk_rec owner PTR name)).
  - intros z r. set_solver.
  - intros dn [name ip] s0 s1 IH _ H z r. unfold add_ptr in H. res_inv. subst s1.
    destruct x as [rz owner]. simpl in *. rewrite dget_or_dset. split.
    + intros Hr. assert (r ∈ dget_or s0 z [] ∨ (rz = z ∧ r = mk_rec owner PTR name))
        as [Hr'|[<- ->]].
      { case_decide; [|auto]. subst.
        apply elem_of_app in Hr as [?|?%list_elem_of_singleton]; auto. }
      * apply IH in Hr' as [?|(n & i & o & ? & ? & ?)]; [by left|right]. exists n, i, o.
        split_and!; [|done..]. apply elem_of_app. by left.
      * right. exists name, ip, owner. split_and!; [|done..]. apply elem_of_app. right. left.
    + intros Hr. assert (r ∈ dget_or s0 z [] ∨ (rz = z ∧ r = mk_rec owner PTR name))
        as [Hr'|[-> ->]].
      { destruct Hr as [Hr|(n & i & o & Hin & Ho & ->)]; [left; apply IH; by left|].
        apply elem_of_app in Hin as [Hin|Hin%list_elem_of_singleton]; [left; apply IH; eauto 10|].
        simplify_eq. right. assert (Ok (rz, owner) = Ok (z, o) :> res DnsError _) as Heq by congruence.
        by injection Heq as -> ->. }
      * case_decide; [subst; apply elem_of_app; by left|done].
      * rewrite decide_True by done. apply elem_of_app. right. left.
Qed.

Lemma no_records z : dget_or ((λ z, (z, @nil Rec)) <$> ZONES.*2) z [] = [].
Proof. unfold dget_or. simpl. by repeat case_decide. Qed.

(** The addresses the topology names: each interface in the zone of its node, and the
  VIPs in the client zone. *)
Definition named (t : Topo) (z name ip : text) : Prop :=
  (∃ host spec plane, (host, spec) ∈ t_nodes t ∧ (plane, ip) ∈ ns_nics spec ∧
     zone_of spec = Ok z ∧ name = iface host plane z) ∨
  (z = CLIENT_ZONE ∧ (name, ip) ∈ vips lower t).

Lemma add_reverse_spec nodes zones :
  res_foldM add_reverse [] nodes = Ok zones →
  ∀ z r, r ∈ dget_or zones z [] ↔ ∃ host spec plane ip zone owner, (host, spec) ∈ nodes ∧
    (plane, ip) ∈ ns_nics spec ∧ zone_of spec = Ok zone ∧ rev_ip ip = Ok (z, owner) ∧
    r = mk_rec owner PTR (iface host plane zone).
Proof.
  apply (res_foldM_ind (λ dn zs, ∀ z r, r ∈ dget_or zs z [] ↔
    ∃ host spec plane ip zone owner, (host, spec) ∈ dn ∧
    (plane, ip) ∈ ns_nics spec ∧ zone_of spec = Ok zone ∧ rev_ip ip = Ok (z, owner) ∧
    r = mk_rec owner PTR (iface host plane zone))).
  - intros z r. unfold dget_or. simpl. set_solver.
  - intros dn [host spec] s0 s1 IH _ H z r. unfold add_reverse in H.
    apply bind_Ok in H as (zone & Hz & H). simpl in *.
    rewrite (add_ptrs_spec _ _ _ H), IH. setoid_rewrite elem_of_app.
    setoid_rewrite list_elem_of_singleton. setoid_rewrite list_elem_of_fmap. split.
    + intros [(h & sp & p & ip & zn & o & ?)|(n & ip & o & ((p, ip') & ? & ?) & ? & ?)].
      * exists h, sp, p, ip, zn, o. naive_solver.
      * simplify_eq/=. exists host, spec, p, ip', zone, o. naive_solver.
    + intros (h & sp & p & ip & zn & o & [Hin|Hin] & ? & Hzn & ? & ->).
      * left. exists h, sp, p, ip, zn, o. done.
      * simplify_eq. right. rewrite Hz in Hzn. injection Hzn as <-.
        exists (iface host p zone), ip, o. split; [|done]. by exists (p, ip).
Qed.

Lemma forward_A t fwd z name ip :
  forward_zones lower t = Ok fwd →
  mk_rec name A_TYPE ip ∈ dget_or fwd z [] ↔ named t z name ip.
Proof.
  unfold forward_zones. intros H. res_inv. subst fwd.
  rename x into zones. match goal with H : res_foldM _ _ _ = Ok _ |- _ => rename H into Hfold end.
  pose proof (forward_nodes_spec _ _ _ no_records Hfold) as Hn.
  rewrite dget_sort_zones, elem_of_sorted_recs, add_vips_spec, Hn. unfold named. split.
  - intros [(host & spec & recs & ? & ? & Hf & Hr)|(? & [nm i] & ? & [= -> ->])];
      [left|right; done].
    unfold node_forward in Hf. destruct (ns_nics spec) eqn:Hnics; [done|]. rewrite <-Hnics in Hf.
    res_inv. subst recs. apply elem_of_app in Hr as [Hr|[=]%list_elem_of_singleton].
    apply list_elem_of_fmap in Hr as ([pl i] & [= -> ->] & Hnic). exists host, spec, pl. done.
  - intros [(host & spec & plane & Hin & Hnic & Hz & ->)|[-> Hv]]; [left|right; split; [done|]].
    + destruct (res_foldM_step _ _ _ _ _ Hfold Hin) as (s0 & s1 & Hs).
      unfold add_forward in Hs. res_inv. simpl in *. simplify_eq.
      match goal with H : zone_of _ = Ok _ |- _ => rewrite Hz in H; injection H as <- end.
      exists host, spec, x0. split_and!; try done. unfold node_forward in *.
      destruct (ns_nics spec) eqn:Hnics; [done|]. rewrite <-Hnics in *. res_inv. subst x0.
      apply elem_of_app. left. apply list_elem_of_fmap. by exists (plane, ip).
    + by exists (name, ip).
Qed.

Lemma reverse_PTR t rev rz r :
  reverse_zones lower t = Ok rev →
  r ∈ dget_or rev rz [] ↔ ∃ z name ip owner, named t z name ip ∧
    rev_ip ip = Ok (rz, owner) ∧ r = mk_rec owner PTR name.
Proof.
  unfold reverse_zones. intros H. apply bind_Ok in H as (z1 & H1 & H).
  apply bind_Ok in H as (z2 & H2 & H). injection H as <-.
  rewrite dget_sort_zones, elem_of_sorted_recs, (add_ptrs_spec _ _ _ H2), (add_reverse_spec _ _ H1).
  unfold named. split.
  - intros [(host & spec & plane & ip & zone & owner & ? & ? & ? & ? & ->)
      |(name & ip & owner & ? & ? & ->)].
    + exists zone, (iface host plane zone), ip, owner. split; [left|done]. eauto 10.
    + exists CLIENT_ZONE, name, ip, owner. split; [by right|done].
  - intros (z & name & ip & owner &
      [(host & spec & plane & ? & ? & ? & ->)|[-> ?]] & ? & ->); [left|right; by exists name, ip, owner].
    exists host, spec, plane, ip, z, owner. done.
Qed.

(** A topology whose reverse zones render has only four-part addresses. *)
Lemma reverse_addresses t rev z name ip :
  reverse_zones lower t = Ok rev → named t z name ip → ∃ rz owner, rev_ip ip = Ok (rz, owner).
Proof.
  unfold reverse_zones. intros H. apply bind_Ok in H as (z1 & H1 & H).
  apply bind_Ok in H as (z2 & H2 & H). clear H.
  assert (∀ s0 s1, add_ptr s0 (name, ip) = Ok s1 → ∃ rz owner, rev_ip ip = Ok (rz, owner)) as Hptr.
  { intros s0 s1 H. unfold add_ptr in H. res_inv. destruct x as [rz owner]. eauto. }
  intros [(host & spec & plane & Hin & Hnic & Hz & ->)|[-> Hv]].
  - destruct (res_foldM_step _ _ _ _ _ H1 Hin) as (s0 & s1 & Hs). unfold add_reverse in Hs.
    apply bind_Ok in Hs as (zone & Hz' & Hs). simpl in *.
    assert (zone = z) as -> by congruence.
    assert ((iface host plane z, ip) ∈ ((λ p, (iface host p.1 z, p.2)) <$> ns_nics spec)) as Hi
      by (apply list_elem_of_fmap; by exists (plane, ip)).
    destruct (res_foldM_step _ _ _ _ _ Hs Hi) as (s0' & s1' & Hp). by eapply Hptr.
  - destruct (res_foldM_step _ _ _ _ _ H2 Hv) as (s0 & s1 & Hs). by eapply Hptr.
Qed.

(** The plane a host's bare name points at. *)
Definition is_primary (nics : list (text * text)) (plane : text) : Prop :=
  plane ∈ nics.*1 ∧ ∃ before after, PRIMARY_ORDER = before ++ plane :: after ∧
    Forall (λ p, p ∉ nics.*1) before.

Lemma head_filter_first {A} (f : A → bool) l x :
  head (List.filter f l) = Some x →
  f x = true ∧ ∃ before after, l = before ++ x :: after ∧ Forall (λ y, f y = false) before.
Proof.
  induction l as [|y l IH]; simpl; [done|]. destruct (f y) eqn:Hy; simpl.
  - intros [= ->]. split; [done|]. by exists [], l.
  - intros (Hx & before & after & -> & Hb)%IH. split; [done|].
    exists (y :: before), after. split; [done|]. by constructor.
Qed.

Lemma primary_plane_Ok host nics plane :
  primary_plane host nics = Ok plane → is_primary nics plane.
Proof.
  unfold primary_plane. rewrite of_option_Ok.
  intros (Hin%dmem_true & before & after & ? & Hb)%head_filter_first.
  split; [done|]. exists before, after. split; [done|].
  eapply Forall_impl; [exact Hb|]. intros x. apply dmem_false.
Qed.

Lemma is_primary_unique nics p q : is_primary nics p → is_primary nics q → p = q.
Proof.
  intros (Hp & b1 & a1 & H1 & Hb1) (Hq & b2 & a2 & H2 & Hb2). rewrite H1 in H2. clear H1.
  revert b2 H2 Hb2. induction Hb1 as [|x b1 Hx Hb1 IH]; intros [|y b2] H2 Hb2; simpl in H2;
    injection H2 as Hh Ht; subst.
  - done.
  - by apply Forall_cons in Hb2 as [? _].
  - done.
  - apply Forall_cons in Hb2 as [_ Hb2]. by eapply IH.
Qed.

Lemma forward_CNAME t fwd z r :
  forward_zones lower t = Ok fwd → r ∈ dget_or fwd z [] → r_type r = CNAME →
  ∃ host spec plane, (host, spec) ∈ t_nodes t ∧ zone_of spec = Ok z ∧
    is_primary (ns_nics spec) plane ∧ r = mk_rec (host ++ [DOT] ++ z) CNAME (iface host plane z).
Proof.
  unfold forward_zones. intros H. res_inv. subst fwd. rename x into zones.
  match goal with H : res_foldM _ _ _ = Ok _ |- _ => rename H into Hfold end.
  rewrite dget_sort_zones, elem_of_sorted_recs, add_vips_spec,
    (forward_nodes_spec _ _ _ no_records Hfold).
  intros [(host & spec & recs & Hin & Hz & Hf & Hr)|(_ & v & _ & ->)] Ht; [|done].
  unfold node_forward in Hf. destruct (ns_nics spec) eqn:Hnics; [done|]. rewrite <-Hnics in Hf.
  res_inv. subst recs. apply elem_of_app in Hr as [Hr|Hr].
  - apply list_elem_of_fmap in Hr as (n & -> & _). done.
  - apply list_elem_of_singleton in Hr as ->. exists host, spec, x.
    split_and!; [done..|by eapply primary_plane_Ok|done].
Qed.

(** ... and every host with interfaces has one. *)
Lemma forward_host t fwd host spec :
  forward_zones lower t = Ok fwd → (host, spec) ∈ t_nodes t →
  ∃ z plane, zone_of spec = Ok z ∧ is_primary (ns_nics spec) plane ∧
    mk_rec (host ++ [DOT] ++ z) CNAME (iface host plane z) ∈ dget_or fwd z [].
Proof.
  unfold forward_zones. intros H Hin. res_inv. subst fwd. rename x into zones.
  match goal with H : res_foldM _ _ _ = Ok _ |- _ => rename H into Hfold end.
  destruct (res_foldM_step _ _ _ _ _ Hfold Hin) as (s0 & s1 & Hs). unfold add_forward in Hs.
  apply bind_Ok in Hs as (z & Hz & Hs). apply bind_Ok in Hs as (recs & Hrecs & _). simpl in *.
  assert (Hf := Hrecs). unfold node_forward in Hf. destruct (ns_nics spec) eqn:Hnics; [done|].
  rewrite <-Hnics in Hf. res_inv. subst recs. exists z, x.
  split_and!; [done|rewrite <-Hnics; by eapply primary_plane_Ok|].
  rewrite dget_sort_zones, elem_of_sorted_recs, add_vips_spec.
  left. apply (forward_nodes_spec _ _ _ no_records Hfold). eexists _, _, _.
  split_and!; [done..|]. apply elem_of_app. right. left.
Qed.

Lemma forward_sorted t fwd z :
  forward_zones lower t = Ok fwd →
  NoDup (dget_or fwd z []) ∧ StronglySorted rec_leb (dget_or fwd z []).
Proof.
  unfold forward_zones. intros H. res_inv. subst fwd. rewrite dget_sort_zones.
  apply sorted_recs_sorted.
Qed.
End zone_lemmas.

(** ** Lemmas on the infra nodes *)

Lemma infra_by_org_Ok t infra :
  infra_by_org t = Ok infra →
  (∀ org name spec, (org, (name, spec)) ∈ infra → name ∈ hosts_of t (u "infra") ∧
     dget (t_nodes t) name = Some spec ∧ org_of spec = org) ∧
  (∀ name, name ∈ hosts_of t (u "infra") → name ∈ infra.*2.*1).
Proof.
  unfold infra_by_org. intros H. apply bind_Ok in H as (out & H & Hall). res_inv. subst out.
  revert H. apply (res_foldM_ind (λ dn out,
    (∀ org name spec, (org, (name, spec)) ∈ out → name ∈ hosts_of t (u "infra") ∧
       dget (t_nodes t) name = Some spec ∧ org_of spec = org) ∧
    (∀ name, name ∈ dn → name ∈ out.*2.*1))); [set_solver|].
  intros dn name s0 s1 [IH1 IH2] Hin H. unfold add_infra in H. res_inv. subst s1.
  match goal with H : dmem _ _ = false |- _ => apply dmem_false in H; rename H into Hnew end.
  match goal with H : dget _ _ = Some ?sp |- _ => rename H into Hg; rename sp into spec end.
  rewrite dset_keys_new by done. split.
  - intros org n sp [Hi|Hi]%elem_of_app; [by apply IH1|].
    apply list_elem_of_singleton in Hi. by simplify_eq.
  - intros n Hn. rewrite !fmap_app. apply elem_of_app in Hn as [Hn|Hn%list_elem_of_singleton].
    + apply elem_of_app. left. by apply IH2.
    + subst. apply elem_of_app. right. left.
Qed.

Lemma resolver_ip_Ok t infra host spec ip :
  infra_by_org t = Ok infra → resolver_ip host spec infra = Ok ip →
  (ip = LOOPBACK ∧ host ∈ hosts_of t (u "infra")) ∨
  ((host ∉ hosts_of t (u "infra")) ∧ ∃ name ispec plane, name ∈ hosts_of t (u "infra") ∧
     dget (t_nodes t) name = Some ispec ∧ org_of ispec = org_of spec ∧
     plane ∈ (ns_nics spec).*1 ∧ dget (ns_nics ispec) plane = Some ip).
Proof.
  intros [H1 H2]%infra_by_org_Ok. unfold resolver_ip.
  destruct (existsb (λ i : text * (text * NodeSpec), bool_decide (host = i.2.1)) infra) eqn:He.
  - intros [= <-]. left. split; [done|].
    apply existsb_exists in He as ([org [name isp]] & Hin%list_elem_of_In & Heq).
    apply bool_decide_eq_true in Heq. simpl in Heq. subst. by eapply H1.
  - intros H. res_inv. destruct x as [name isp]. cbn [fst snd] in *.
    match goal with H : dget infra _ = Some _ |- _ =>
      apply dget_elem, H1 in H as (Hn & Hg & Horg) end.
    right. split.
    + intros Hin%H2. apply not_true_iff_false in He. apply He, existsb_exists.
      apply list_elem_of_fmap in Hin as (p & -> & (q & -> & Hq)%list_elem_of_fmap).
      exists q. split; [by apply list_elem_of_In|by apply bool_decide_eq_true].
    + match goal with H : head _ ≫= _ = Some _ |- _ =>
        apply bind_Some in H as (plane & (Hp & _)%head_filter_first & Hip) end.
      apply andb_true_iff in Hp as [Hp%dmem_true _]. by exists name, isp, plane.
Qed.

(** ** Properties *)

(** C37. Forward and reverse lookups agree: when both render, the A record of a name
    and address is in a forward zone exactly when the topology gives that name that
    address; each such record has its PTR record, each PTR record belongs to such an
    A record, and the owner of a PTR record determines the address. *)
Theorem dns_forward_reverse lower t fwd rev :
  forward_zones lower t = Ok fwd → reverse_zones lower t = Ok rev →
  (∀ z name ip, mk_rec name A_TYPE ip ∈ dget_or fwd z [] ↔ named lower t z name ip) ∧
  (∀ z name ip, mk_rec name A_TYPE ip ∈ dget_or fwd z [] →
     ∃ rz owner, rev_ip ip = Ok (rz, owner) ∧ mk_rec owner PTR name ∈ dget_or rev rz []) ∧
  (∀ rz r, r ∈ dget_or rev rz [] → ∃ z ip, r_type r = PTR ∧ rev_ip ip = Ok (rz, r_name r) ∧
     mk_rec (r_value r) A_TYPE ip ∈ dget_or fwd z []) ∧
  (∀ ip ip' rz rz' owner, rev_ip ip = Ok (rz, owner) → rev_ip ip' = Ok (rz', owner) → ip = ip').
Proof.
  intros Hf Hr. split_and!.
  - intros z name ip. by apply forward_A.
  - intros z name ip Hin. rewrite forward_A in Hin by done.
    destruct (reverse_addresses _ _ _ _ _ _ Hr Hin) as (rz & owner & Ho). exists rz, owner.
    split; [done|]. rewrite reverse_PTR by done. by exists z, name, ip, owner.
  - intros rz r Hin. rewrite reverse_PTR in Hin by done.
    destruct Hin as (z & name & ip & owner & Hn & Ho & ->). exists z, ip. simpl.
    split_and!; [done..|]. by rewrite forward_A.
  - apply rev_ip_inj.
Qed.

(** Every bare host name resolves in one step: each node has in its zone the CNAME
    of its bare name, every CNAME of a zone is such a one, and its target has an A
    record in the same zone: the address of the node's interface on the first of the
    service-facing planes it has. Each zone is sorted and has no record twice. *)
Theorem dns_bare_names lower t fwd :
  forward_zones lower t = Ok fwd →
  (∀ host spec, (host, spec) ∈ t_nodes t → ∃ z plane, zone_of spec = Ok z ∧
     mk_rec (host ++ [DOT] ++ z) CNAME (iface host plane z) ∈ dget_or fwd z []) ∧
  (∀ z r, r ∈ dget_or fwd z [] → r_type r = CNAME → ∃ host spec plane ip,
     (host, spec) ∈ t_nodes t ∧ r_name r = host ++ [DOT] ++ z ∧
     is_primary (ns_nics spec) plane ∧ (plane, ip) ∈ ns_nics spec ∧
     mk_rec (r_value r) A_TYPE ip ∈ dget_or fwd z []) ∧
  (∀ z, NoDup (dget_or fwd z []) ∧ StronglySorted rec_leb (dget_or fwd z [])).
Proof.
  intros Hf. split_and!.
  - intros host spec Hin. destruct (forward_host _ _ _ _ _ Hf Hin) as (z & plane & ? & _ & ?). eauto.
  - intros z r Hr Ht. destruct (forward_CNAME _ _ _ _ _ Hf Hr Ht)
      as (host & spec & plane & ? & ? & Hp & ->). simpl.
    assert (Hk := Hp). destruct Hk as [Hk _].
    apply list_elem_of_fmap in Hk as ([pl ip] & -> & Hnic). simpl in *.
    exists host, spec, pl, ip. split_and!; [done..|]. rewrite forward_A by done.
    left. eauto 10.
  - intros z. by eapply forward_sorted.
Qed.

(** The name service each host is given: its resolver is its own BIND exactly when
    it is an infra node, and otherwise the address of the infra node of its own
    organisation on a plane both are on; its full name is one the forward zones
    resolve, to the very address it is told is its own. *)
Theorem host_dns_facts_sound lower t facts fwd :
  host_dns_facts t = Ok facts → forward_zones lower t = Ok fwd →
  ∀ host f, (host, f) ∈ facts → ∃ spec, (host, spec) ∈ t_nodes t ∧
    ((hd_resolver f = LOOPBACK ∧ host ∈ hosts_of t (u "infra")) ∨
     ((host ∉ hosts_of t (u "infra")) ∧ ∃ name ispec plane, name ∈ hosts_of t (u "infra") ∧
        dget (t_nodes t) name = Some ispec ∧ org_of ispec = org_of spec ∧
        plane ∈ (ns_nics spec).*1 ∧ dget (ns_nics ispec) plane = Some (hd_resolver f))) ∧
    ∃ z target, zone_of spec = Ok z ∧ hd_fqdn f = host ++ [DOT] ++ z ∧
      mk_rec (hd_fqdn f) CNAME target ∈ dget_or fwd z [] ∧
      mk_rec target A_TYPE (hd_self_ip f) ∈ dget_or fwd z [].
Proof.
  intros H Hf host f Hin. unfold host_dns_facts in H.
  apply bind_Ok in H as (infra & Hinfra & H). res_inv. subst facts.
  match goal with H : res_mapM _ _ = Ok _ |- _ => apply res_mapM_Ok in H; rename H into HF end.
  apply list_elem_of_omap in Hin as (o & (i & Hi)%list_elem_of_lookup & Ho). simpl in Ho. subst o.
  destruct (Forall2_lookup_r _ _ _ _ _ HF Hi) as ([host' spec] & Hl & Hfact).
  apply list_elem_of_lookup_2 in Hl. unfold host_fact in Hfact. cbn [fst snd] in Hfact.
  destruct (ns_nics spec) eqn:Hnics; [done|]. rewrite <-Hnics in Hfact. res_inv. simplify_eq.
  match goal with H : resolver_ip _ _ _ = Ok _ |- _ =>
    apply (resolver_ip_Ok t) in H; [|done]; rename H into Hres end.
  match goal with H : zone_of _ = Ok ?z |- _ => rename H into Hz; rename z into zone end.
  match goal with H : primary_plane _ _ = Ok ?p |- _ => rename H into Hp; rename p into plane end.
  exists spec. split; [done|]. simpl. split; [done|].
  exists zone, (iface host plane zone). split_and!; [done..| |].
  - destruct (forward_host _ _ _ _ _ Hf Hl) as (z & pl & Hz' & Hpl & Hrec).
    assert (z = zone) as -> by congruence.
    replace plane with pl; [done|]. by eapply is_primary_unique, primary_plane_Ok.
  - rewrite forward_A by done. left. exists host, spec, plane. split_and!; try done.
    by apply dget_elem.
Qed.

(** ** Witnesses *)

Definition dns_node (nics : list (string * string)) (org : option string) : NodeSpec :=
  mk_node (ys "infra") None None None ((λ p, (u p.1, u p.2)) <$> nics) (u <$> org).

Definition dns_topo : Topo :=
  mk_topo
    [(u "pcmk-a1", dns_node [("net-mgmt", "10.50.0.11"); ("net-data-a", "10.20.0.11")] None);
     (u "svc", dns_node [("net-ext", "10.40.0.30")] (Some "service"));
     (u "infra-client", dns_node [("net-data-a", "10.20.0.5"); ("net-ext", "10.40.0.5")] None);
     (u "infra-svc", dns_node [("net-ext", "10.40.0.6")] (Some "service"))]%string
    [(u "infra", [u "infra-client"; u "infra-svc"])]
    [(u "pcmk-ubuntu", demo_cfg "ubuntu" "PU" [] [])]
    [] (None, None) None (None, None) None.

Lemma dns_forward_reverse_witness :
  ∃ fwd rev, forward_zones lower_ascii dns_topo = Ok fwd ∧
    reverse_zones lower_ascii dns_topo = Ok rev ∧
    rev.*1 = [u "0.50.10.in-addr.arpa"; u "0.20.10.in-addr.arpa"; u "0.40.10.in-addr.arpa";
              u "0.2.10.in-addr.arpa"] ∧
    ∀ z name ip, mk_rec name A_TYPE ip ∈ dget_or fwd z [] ↔ named lower_ascii dns_topo z name ip.
Proof.
  destruct (forward_zones lower_ascii dns_topo) as [fwd|] eqn:Hf; [|by vm_compute in Hf].
  destruct (reverse_zones lower_ascii dns_topo) as [rev|] eqn:Hr; [|by vm_compute in Hr].
  exists fwd, rev. split_and!; [done..|by vm_compute in Hr; injection Hr as <-|].
  by apply (dns_forward_reverse _ _ _ _ Hf Hr).
Defined.

Lemma dns_bare_names_witness :
  ∃ fwd, forward_zones lower_ascii dns_topo = Ok fwd ∧
    mk_rec (u "pcmk-a1.client.com") CNAME (u "pcmk-a1-data-a.client.com")
      ∈ dget_or fwd CLIENT_ZONE [] ∧
    ∀ z, NoDup (dget_or fwd z []) ∧ StronglySorted rec_leb (dget_or fwd z []).
Proof.
  destruct (forward_zones lower_ascii dns_topo) as [fwd|] eqn:Hf; [|by vm_compute in Hf].
  exists fwd. split; [done|]. split; [|by apply (dns_bare_names _ _ _ Hf)].
  vm_compute in Hf. injection Hf as <-. apply (bool_decide_unpack _). by vm_compute.
Defined.

Lemma host_dns_facts_sound_witness :
  ∃ facts, host_dns_facts dns_topo = Ok facts ∧
    (hd_resolver <$> facts.*2) = [u "10.20.0.5"; u "10.40.0.6"; LOOPBACK; LOOPBACK] ∧
    ∀ host f, (host, f) ∈ facts → ∃ spec, (host, spec) ∈ t_nodes dns_topo.
Proof.
  destruct (host_dns_facts dns_topo) as [facts|] eqn:H; [|by vm_compute in H].
  destruct (forward_zones lower_ascii dns_topo) as [fwd|] eqn:Hf; [|by vm_compute in Hf].
  exists facts. split; [done|]. split; [by vm_compute in H; injection H as <-|].
  intros host f Hin.
  destruct (host_dns_facts_sound lower_ascii dns_topo facts fwd) with (host := host) (f := f)
    as (spec & ? & _); [done..|by exists spec].
Defined.
