(* ===== verification/Sequencer.v ===== *)
(** * Bootstrap and teardown

    Models the two sequencers of [mqlab/cli.py]: [_bootstrap_run], which gates a
    request, pins the stack's OS, selects the phases and runs their steps one phase at
    a time, and [_teardown_run], which destroys a stack's guests, reclaims the shared
    ones with the last stack, and then forgets the stack's OS. The parts they compose
    are the models of the other files. What the world answers is input: the domain
    states, the exit codes of the plays that prepare a phase, and the attempts of each
    command. Terminal output, the perf report, the transcript and the garbage collection
    of box images are left out, and so is [--step] without a terminal. *)

From S2P Require Import Prelude PyText PyCodec PyDict PyFloat PyJson JsonRoundTrip.
From S2P Require Import Hostfacts Versions VersionsLoad.
From S2P Require Import Stacks Lifecycle Orchestrator Phases Instances Platforms.

Abbreviation store := (list (text * text)) (only parsing).

(** ** Destroying guests *)

Definition VIRSH : list text := [u "virsh"; u "-c"; u "qemu:///system"].

Definition forceoff_step (g : text) : CommandStep :=
  plain_step (g ++ u " force-off") (VIRSH ++ [u "destroy"; domain_of g]) None.

Definition undefine_step (g : text) : CommandStep :=
  plain_step (g ++ u " undefine")
    (VIRSH ++ [u "undefine"; domain_of g; u "--remove-all-storage"; u "--nvram"]) None.

Section sequencer.
Context (fpow : float → nat → option float) (root : text) (nets : list text) (t : Topo)
  (c : Catalog) (facts : HostFacts) `{FT : FloatText}.

Definition vagrant_machine_dir (g : text) : text :=
  path_join (path_of root ["build"; "state"; "vagrant"; "machines"]%string) g.

Definition forget_machine_step (g : text) : CommandStep :=
  plain_step (g ++ u " forget vagrant machine") [u "rm"; u "-rf"; vagrant_machine_dir g] None.

(** The steps of one guest; [exists_dir] is whether Vagrant's data of it survives. *)
Definition destroy_steps (exists_dir : text → bool) (d : list (text * text)) (g : text) :
    list CommandStep :=
  (match Lifecycle.classify d g with
   | ABSENT => []
   | _ => if is_live d g then [forceoff_step g; undefine_step g] else [undefine_step g]
   end) ++ (if exists_dir g then [forget_machine_step g] else []).

(** [_plan_destroy]: the steps, and the guests noted as already gone. *)
Definition plan_destroy (exists_dir : text → bool) (guests : list text)
    (d : list (text * text)) : list CommandStep * list text :=
  (g ← guests; destroy_steps exists_dir d g,
   List.filter (λ g, bool_decide (Lifecycle.classify d g = ABSENT)) guests).

(** ** Teardown *)

(** A stack that is not reserved, is not [exclude], and has a live member. *)
Definition stack_up (d : list (text * text)) (exclude : text) (sc : text * StackCfg) : bool :=
  negb (bool_decide (sc.1 = exclude))
  && match or_none (sc_cluster_group sc.2) with
     | None => false
     | Some _ => existsb (is_live d) (default [] (stack_members t sc.1))
     end.

Definition other_stacks_up (d : list (text * text)) (exclude : text) : bool :=
  existsb (stack_up d exclude) (t_stacks t).

Definition release_step : CommandStep :=
  plain_step (u "release huge pages")
    [u "ansible-playbook"; u "host-hugepages.yml"; u "-c"; u "local"; u "-i"; u "localhost,";
     u "-e"; u "hugepages_release=true"] (Some (path_of root ["ansible"]%string)).

Inductive teardown_end :=
  | TDone
  | TExit (code : Z)
  | TUncaught (e : HugeError)
  | TOverflow
  | TOpen.

Definition end_of_run (e : run_end) : teardown_end :=
  match e with
  | RDone => TDone
  | RError (StepFailedError _ code _ _) => TExit code
  | RError DelayOverflow => TOverflow
  | ROpen => TOpen
  end.

(** The label of a commons step. *)
Definition commons_step (s : CommandStep) : CommandStep :=
  mk_step (u "commons destroy: " ++ st_label s) (st_command s) None [].

(** [_teardown_run]: [d1] is the domain table read for the plan, [d2] the one read for
  the other stacks; [ats] and [ats_release] what the commands answer. *)
Definition teardown (exists_dir : text → bool) (stack : Stack) (commons step : bool)
    (d1 d2 : list (text * text)) (ats ats_release : list Attempt) (st : store) :
    list output * teardown_end * store :=
  let members := default [] (stack_members t (s_name stack)) in
  let commons_vms :=
    List.filter (λ vm, negb (bool_decide (vm ∈ members))) (all_vms t stack false) in
  let member_steps := (plan_destroy exists_dir members d1).1 in
  match enabled t with
  | Err e => ([], TUncaught e, st)
  | Ok lever =>
      let last_stack_down :=
        if lever || negb commons then negb (other_stacks_up d2 (s_name stack)) else false in
      let commons_steps :=
        if commons || last_stack_down
        then commons_step <$> (plan_destroy exists_dir commons_vms d1).1 else [] in
      let '(out, e) := run_steps fpow (member_steps ++ commons_steps) step ats in
      match e with
      | RDone =>
          let st' := delete_record st (s_name stack) in
          if lever && last_stack_down then
            let '(out', e') := run_steps fpow [release_step] false ats_release in
            (out ++ out', end_of_run e', st')
          else (out, TDone, st')
      | _ => (out, end_of_run e, st)
      end
  end.

(** ** Bootstrap *)

Inductive boot_end :=
  | BDone
  | BNothing
  | BExit (code : Z) (hint : option text)
  | BUncaught (e : PhaseError)
  | BRaised (e : InstanceError)
  | BUnknownPhase
  | BOverflow
  | BOpen.

(** What the command is asked. *)
Record Request := mk_request {
  rq_only : option text; rq_from : option text; rq_no_dr : bool; rq_step : bool;
  rq_config : option (text * pyval)
  }.

(** What the world answers: the domain table and time of the record, whether it can be
  written, the exit code of a preparation that refuses, of the huge-page reservation,
  of the secrets' script, of the box ensure for the guests it is given and of each phase's
  other prerequisites, the states probed, and the attempts of each phase's commands. *)
Record World := mk_world {
  wo_virsh : option text; wo_now : text; wo_io_ok : bool; wo_prepare : option Z;
  wo_states : States; wo_reserve : option Z; wo_secrets : option Z;
  wo_boxes : list text → option Z; wo_prereq : text → option Z; wo_attempts : text → list Attempt
  }.

(** [_validate_phase_name]: no name, or one of the registry's. *)
Definition valid_phase_name (value : option text) : bool :=
  match value with
  | None => true
  | Some v => bool_decide (v ∈ [NET; VMS; PROVISION; OBSERVE])
  end.

Definition resume_hint (stack phase : text) (no_dr : bool) : text :=
  u "resume with: mqlab bootstrap " ++ stack ++ u " --from " ++ phase
  ++ (if no_dr then u " --no-dr" else []).

(** [_ensure_prereqs_for_stack] as a run of the phases sees it: the code it refuses with. The
    boxes come first, for the guests [ensured_guests] gives, which [--no-dr] does not narrow. *)
Definition ensure_prereqs (w : World) (stack : Stack) (p : Phase) : option Z :=
  match (if bool_decide (u "boxes" ∈ p_ensure p) then wo_boxes w (ensured_guests t p stack) else None) with
  | Some code => Some code
  | None => wo_prereq w (p_name p)
  end.

(** The loop over the selected phases: the output of each phase that ran a step. *)
Fixpoint run_phases (w : World) (stack : Stack) (rq : Request) (phases : list Phase) :
    list (text * list output) * boot_end :=
  match phases with
  | [] => ([], BDone)
  | p :: rest =>
      match ensure_prereqs w stack p with
      | Some code => ([], BExit code None)
      | None =>
          match p_build_steps p stack (rq_no_dr rq) with
          | Err e => ([], BUncaught e)
          | Ok steps =>
              let '(out, e) := run_steps fpow steps (rq_step rq) (wo_attempts w (p_name p)) in
              match e with
              | RDone =>
                  let '(outs, e') := run_phases w stack rq rest in ((p_name p, out) :: outs, e')
              | RError (StepFailedError _ code _ _) =>
                  ([(p_name p, out)],
                   BExit code (Some (resume_hint (s_name stack) (p_name p) (rq_no_dr rq))))
              | RError DelayOverflow => ([(p_name p, out)], BOverflow)
              | ROpen => ([(p_name p, out)], BOpen)
              end
          end
      end
  end.

(** The phases of one run: [phases.PHASES] over the records there are. *)
Definition phases_of (st : store) : list Phase :=
  PHASES root nets t c (recorded_os st).

Definition phases_run (st : store) (w : World) (stack : Stack) (rq : Request) :
    option (list Phase) :=
  select_phases root nets t c (recorded_os st) stack (wo_states w)
    (rq_only rq) (rq_from rq).

(** How a failed [_reconcile_instance] ends the command. *)
Definition refused (e : BootstrapError) : boot_end :=
  match e with
  | VirshFailed => BExit 1 None
  | ErrRecord (WriteFailed _ as e) | ErrRecord (IntegerTooLong _ as e) => BRaised e
  | _ => BExit 2 None
  end.

(** [bootstrap], its name checks, and [_bootstrap_run] for a stack of the registry. *)
Definition bootstrap (w : World) (stack : Stack) (rq : Request) (st : store) :
    list (text * list output) * boot_end * store :=
  if negb (valid_phase_name (rq_from rq) && valid_phase_name (rq_only rq))
  then ([], BExit 2 None, st)
  else if rq_no_dr rq && bool_decide (s_dr_groups stack = []) then ([], BExit 2 None, st)
  else
    match rhel_stack_unsupported_reason stack facts with
    | Some _ => ([], BExit 2 None, st)
    | None =>
        let '(r, st1) := reconcile_instance c t facts (wo_virsh w)
                           (wo_now w) st (wo_io_ok w) (s_name stack) (rq_config rq) in
        match r with
        | Err e => ([], refused e, st1)
        | Ok _ =>
            match wo_prepare w with
            | Some code => ([], BExit code None, st1)
            | None =>
                match phases_run st1 w stack rq with
                | None => ([], BUnknownPhase, st1)
                | Some [] => ([], BNothing, st1)
                | Some selected =>
                    let runs_phase n := existsb (λ p, bool_decide (p_name p = n)) selected in
                    match (if runs_phase VMS then wo_reserve w else None) with
                    | Some code => ([], BExit code None, st1)
                    | None =>
                        match (if runs_phase PROVISION then wo_secrets w else None) with
                        | Some code => ([], BExit code None, st1)
                        | None => let '(outs, e) := run_phases w stack rq selected in (outs, e, st1)
                        end
                    end
                end
            end
        end
    end.
End sequencer.

(** ** Lemmas on runs *)

Lemma elem_of_runs_of steps counts cmd :
  cmd ∈ runs_of steps counts → ∃ s, s ∈ steps ∧ cmd = st_command s.
Proof.
  unfold runs_of. revert counts. induction steps as [|s steps IH]; intros [|n counts]; simpl;
    try set_solver.
  rewrite elem_of_app. intros [[-> _]%elem_of_replicate|(s' & ? & ->)%IH].
  - exists s. split; [left|done].
  - exists s'. split; [by right|done].
Qed.

Lemma elem_of_runs fpow steps step ats out e cmd :
  Forall policy_ok steps → run_steps fpow steps step ats = (out, e) → cmd ∈ runs out →
  ∃ s, s ∈ steps ∧ cmd = st_command s.
Proof.
  intros Hok H Hin. destruct (run_from_spec _ _ _ _ _ _ _ _ _ Hok H) as (k & counts & Hr & _).
  rewrite Hr in Hin. by eapply elem_of_runs_of.
Qed.

(** The tries of a step that succeeded: failed ones, and a last one that exited 0. *)
Definition succeeds (s : CommandStep) (used : list Attempt) : Prop :=
  ∃ fails a, used = fails ++ [a] ∧ Forall (λ a, at_exit a ≠ 0%Z) fails ∧ at_exit a = 0%Z ∧
    length used ≤ allowed s.

(** Every step ran, one after the other, each until a try of its own exited 0: what was run and
    which tries it took. *)
Definition succeeded_run (steps : list CommandStep) (ats : list Attempt) (out : list output) : Prop :=
  ∃ useds spare, ats = concat useds ++ spare ∧ Forall2 succeeds steps useds ∧
    runs out = runs_of steps (length <$> useds).

(** A run that ends well is such a run. *)
Lemma run_from_done fpow step total completed tot steps ats out :
  Forall policy_ok steps → run_from fpow step total completed tot steps ats = (out, RDone) →
  succeeded_run steps ats out.
Proof.
  intros Hok. revert completed tot ats out.
  induction Hok as [|s steps Hs Hok IH]; intros completed tot ats out; cbn [run_from].
  { intros [= <-]. exists [], ats. split_and!; done || constructor. }
  destruct (run_step fpow s ats) as [[o es] spare] eqn:Hrun.
  assert (0 < allowed s) as Hpos.
  { unfold policy_ok, allowed in *. destruct (st_retry s); lia. }
  destruct es as [sec r|[]|]; [|done..].
  destruct (run_from _ _ _ _ _ steps spare) as [out' e'] eqn:Hrest. intros [= <- ->].
  destruct (IH _ _ _ _ Hrest) as (useds & spare' & -> & Hall & Hr).
  destruct (run_attempts_spec _ _ _ _ _ _ _ Hs Hpos Hrun)
    as (used & -> & Hru & _ & Hle & fails & a & -> & Hf & Ha & _).
  destruct (step_done_observed (display (st_command s)) o (st_label s) sec
    (mk_timing (st_phase s) (st_label s) sec r true) (step && (S completed <? total)) out')
    as (Or & _). exists ((fails ++ [a]) :: useds), spare'. split_and!.
  - simpl. by rewrite <-!app_assoc.
  - constructor; [|done]. by exists fails, a.
  - rewrite Or, Hru, Hr. done.
Qed.

Definition unretried (s : CommandStep) : Prop := st_retry s = None.

Lemma unretried_ok steps : Forall unretried steps → Forall policy_ok steps.
Proof.
  intros H. eapply Forall_impl; [exact H|]. unfold unretried, policy_ok. by intros s ->.
Qed.

(** ... so unretried steps have run exactly once each, in order, and each has exited 0. *)
Lemma run_steps_done_once fpow steps step ats out :
  Forall unretried steps → run_steps fpow steps step ats = (out, RDone) →
  runs out = st_command <$> steps ∧ ∃ used spare, ats = used ++ spare ∧
    length used = length steps ∧ Forall (λ a, at_exit a = 0%Z) used.
Proof.
  intros Hu H. destruct (run_from_done _ _ _ _ _ _ _ _ (unretried_ok _ Hu) H)
    as (useds & spare & -> & HF & ->). clear H.
  assert (runs_of steps (length <$> useds) = st_command <$> steps ∧
    length (concat useds) = length steps ∧ Forall (λ a, at_exit a = 0%Z) (concat useds)) as (? & ? & ?).
  { unfold runs_of. induction HF as [|s used steps useds Hs HF IH]; csimpl; [by split_and!|].
    apply Forall_cons in Hu as [Hus Hu]. destruct (IH Hu) as (Hr & Hl & Hz).
    destruct Hs as (fails & a & -> & _ & Ha & Hle). unfold unretried, allowed in *. rewrite Hus in Hle.
    rewrite length_app in Hle. simpl in Hle. destruct fails; [|simpl in Hle; lia].
    simpl. rewrite Hr, Hl. split_and!; [done|done|by constructor]. }
  split; [done|]. by exists (concat useds), spare.
Qed.

Section teardown_lemmas.
Context (fpow : float → nat → option float) (root : text) (t : Topo).

(** The commands that destroy one guest. *)
Definition destroys (g : text) : list Command :=
  st_command <$> [forceoff_step g; undefine_step g; forget_machine_step root g].

Lemma elem_of_destroy_shape {A} (f1 f2 f3 s : A) (cl : guest_state) (live ex : bool) :
  s ∈ (match cl with ABSENT => [] | _ => if live then [f1; f2] else [f2] end)
      ++ (if ex then [f3] else []) → s = f1 ∨ s = f2 ∨ s = f3.
Proof.
  rewrite elem_of_app. destruct cl, live, ex; rewrite ?elem_of_cons, ?elem_of_nil; tauto.
Qed.

Lemma destroy_shape_undefine {A} (f1 f2 f3 : A) (cl : guest_state) (live ex : bool) pre post :
  cl ≠ ABSENT →
  ∃ before after,
    pre ++ ((match cl with ABSENT => [] | _ => if live then [f1; f2] else [f2] end)
            ++ (if ex then [f3] else [])) ++ post = before ++ f2 :: after ∧
    (live = true → last before = Some f1).
Proof.
  intros Hc. exists (pre ++ (if live then [f1] else [])), ((if ex then [f3] else []) ++ post).
  split; [by destruct cl, live; simpl; rewrite <-?app_assoc|]. intros ->. apply last_snoc.
Qed.

Lemma elem_of_destroy_steps ex d g s :
  s ∈ destroy_steps root ex d g → unretried s ∧ st_command s ∈ destroys g.
Proof.
  intros [->|[->| ->]]%elem_of_destroy_shape; (split; [done|]);
    apply list_elem_of_fmap_2; [left|right; left|right; right; left].
Qed.

Lemma elem_of_plan ex guests d s :
  s ∈ (plan_destroy root ex guests d).1 →
  unretried s ∧ ∃ g, g ∈ guests ∧ st_command s ∈ destroys g.
Proof.
  simpl. rewrite list_elem_of_bind. intros (g & [? ?]%elem_of_destroy_steps & ?). eauto.
Qed.

(** A guest that is there is undefined, and first forced off if it is live. *)
Lemma plan_undefines ex guests d g :
  g ∈ guests → Lifecycle.classify d g ≠ ABSENT →
  ∃ before after, (plan_destroy root ex guests d).1 = before ++ undefine_step g :: after ∧
    (is_live d g = true → last before = Some (forceoff_step g)).
Proof.
  simpl. intros Hg Hc. apply list_elem_of_split in Hg as (l1 & l2 & ->).
  rewrite bind_app, bind_cons. by apply destroy_shape_undefine.
Qed.

(** The steps of one teardown, and when the shared guests are among them. *)
Definition reclaims (stack : Stack) (commons : bool) (d2 : list (text * text)) : Prop :=
  commons = true ∨ other_stacks_up t d2 (s_name stack) = false.

Definition own_members (stack : Stack) : list text :=
  default [] (stack_members t (s_name stack)).

Lemma commons_vms_spec stack g :
  g ∈ List.filter (λ vm, negb (bool_decide (vm ∈ own_members stack))) (all_vms t stack false) →
  g ∈ commons_members t ∧ g ∉ own_members stack.
Proof.
  rewrite list_elem_of_In, filter_In, <-list_elem_of_In, negb_true_iff, bool_decide_eq_false.
  intros [Hin Hno]. split; [|done]. apply elem_of_all_vms in Hin as [Hin|]; [|done].
  destruct Hno. unfold stack_members_effective in Hin. unfold own_members.
  by destruct (stack_members t (s_name stack)).
Qed.

(** Everything a teardown is: its plan, run; then the record, and the pages. *)
Lemma teardown_inv ex stack commons step d1 d2 ats ats' st out e st' :
  teardown fpow root t ex stack commons step d1 d2 ats ats' st = (out, e, st') →
  (out = [] ∧ st' = st ∧ ∃ err, e = TUncaught err) ∨
  ∃ lever plan o1 e1, enabled t = Ok lever ∧ Forall unretried plan ∧
    plan = (plan_destroy root ex (own_members stack) d1).1 ++ drop (length
             (plan_destroy root ex (own_members stack) d1).1) plan ∧
    (∀ s, s ∈ plan → (∃ g, g ∈ own_members stack ∧ st_command s ∈ destroys g) ∨
       (reclaims stack commons d2 ∧ ∃ g, g ∈ commons_members t ∧ (g ∉ own_members stack) ∧
          st_command s ∈ destroys g)) ∧
    run_steps fpow plan step ats = (o1, e1) ∧
    ((e1 ≠ RDone ∧ out = o1 ∧ st' = st ∧ e = end_of_run e1) ∨
     (e1 = RDone ∧ st' = delete_record st (s_name stack) ∧
      ((out = o1 ∧ e = TDone) ∨
       (lever = true ∧ other_stacks_up t d2 (s_name stack) = false ∧ ∃ o2 e2,
          run_steps fpow [release_step root] false ats' = (o2, e2) ∧
          out = o1 ++ o2 ∧ e = end_of_run e2)))).
Proof.
  unfold teardown. destruct (enabled t) as [lever|err] eqn:Hl;
    [|intros [= <- <- <-]; left; eauto].
  intros H. right. fold (own_members stack) in H.
  match type of H with (let '(_, _) := run_steps _ (?a ++ ?b) _ _ in _) = _ =>
    set (plan := a ++ b) in *; set (commons_steps := b) in * end.
  destruct (run_steps fpow plan step ats) as [o1 e1] eqn:Hrun.
  exists lever, plan, o1, e1. split; [done|].
  assert (∀ s, s ∈ plan → unretried s ∧
    ((∃ g, g ∈ own_members stack ∧ st_command s ∈ destroys g) ∨
    (reclaims stack commons d2 ∧ ∃ g, g ∈ commons_members t ∧ (g ∉ own_members stack) ∧
    st_command s ∈ destroys g))) as Hplan.
  { intros s [Hs|Hs]%elem_of_app; [apply elem_of_plan in Hs as [? ?]; split; [done|by left]|].
    unfold commons_steps in Hs. case_if; [|set_solver].
    apply list_elem_of_fmap in Hs as (s' & -> & (_ & g & Hg & Hd)%elem_of_plan).
    split; [done|right]. apply commons_vms_spec in Hg as [? ?]. split; [|by exists g].
    apply orb_true_iff in Heqb as [->|Heqb]; [by left|right].
    destruct (lever || negb commons); [by apply negb_true_iff|done]. }
  split_and!.
  - apply Forall_forall. intros s Hs. by apply Hplan.
  - unfold plan. by rewrite drop_app_length.
  - intros s Hs. by apply Hplan.
  - done.
  - destruct e1 as [|err|]; [right|left; by simplify_eq..].
    split; [done|]. destruct (lever && _) eqn:Hb.
    + apply andb_true_iff in Hb as [-> Hb]. simpl in Hb. apply negb_true_iff in Hb.
      destruct (run_steps _ [_] _ _) as [o2 e2] eqn:Hrel. simplify_eq.
      split; [done|right]. eauto 10.
    + simplify_eq. split; [done|left; done].
Qed.
End teardown_lemmas.

(** ** Lemmas on bootstraps *)

Lemma Forall_bind {A B} (P : B → Prop) (f : A → list B) l :
  (∀ x, Forall P (f x)) → Forall P (l ≫= f).
Proof. intros H. induction l as [|x l IH]; simpl; [constructor|]. by apply Forall_app. Qed.

Section bootstrap_lemmas.
Context (fpow : float → nat → option float) (root : text) (nets : list text) (t : Topo)
  (c : Catalog) (facts : HostFacts) `{FT : FloatText}.

Lemma stamped_ok phase steps : Forall policy_ok steps → Forall policy_ok (stamped phase steps).
Proof. intros H. unfold stamped. apply Forall_fmap. eapply Forall_impl; [exact H|]. done. Qed.

Lemma nic_steps_ok rec stack script label no_dr steps :
  rhel_nat_nic_steps root t c rec stack script label no_dr = Ok steps → Forall policy_ok steps.
Proof.
  unfold rhel_nat_nic_steps. intros H. res_inv. subst steps. apply Forall_bind. intros name.
  unfold nic_pair. case_if; [|constructor]. case_match; [constructor|]. by repeat constructor.
Qed.

(** The retry policies of the registry's steps are the ones RetryPolicy accepts. *)
Lemma phase_steps_ok rec p stack no_dr steps :
  p ∈ PHASES root nets t c rec → p_build_steps p stack no_dr = Ok steps → Forall policy_ok steps.
Proof.
  intros Hp. unfold PHASES in Hp. rewrite !elem_of_cons, elem_of_nil in Hp.
  destruct Hp as [->|[->|[->|[->|[]]]]]; cbn [p_build_steps].
  - intros [= <-]. by repeat constructor.
  - unfold vms_build_steps. intros H. res_inv. subst steps. apply stamped_ok.
    match goal with H : res_mapM _ _ = Ok ?l |- _ => apply res_mapM_Ok in H;
      rename H into HF; rename l into ss end.
    apply Forall_forall. intros s (i & Hi)%list_elem_of_lookup.
    destruct (Forall2_lookup_r _ _ _ _ _ HF Hi) as (x' & _ & Hs). unfold vms_step in Hs.
    res_inv. by subst s.
  - unfold provision_build_steps. intros H. res_inv. subst steps. apply stamped_ok.
    rewrite !Forall_app. split_and!; [by eapply nic_steps_ok..|by repeat constructor].
  - intros [= <-]. by repeat constructor.
Qed.

(** The output of a phase whose every step has run and succeeded. *)
Definition phase_complete (rec : text → res NodeError (option OsRef)) (w : World) (stack : Stack)
    (no_dr : bool) (name : text) (out : list output) : Prop :=
  ∃ p steps, p ∈ PHASES root nets t c rec ∧ p_name p = name ∧
    p_build_steps p stack no_dr = Ok steps ∧ succeeded_run steps (wo_attempts w name) out.

(** What the loop over the phases leaves. *)
Lemma run_phases_spec rec w stack rq phases outs e :
  Forall (λ p, p ∈ PHASES root nets t c rec) phases →
  run_phases fpow t w stack rq phases = (outs, e) →
  outs.*1 `prefix_of` p_name <$> phases ∧
  match e with
  | BDone => outs.*1 = p_name <$> phases ∧
      Forall (λ o, phase_complete rec w stack (rq_no_dr rq) o.1 o.2) outs
  | BExit code (Some hint) => ∃ before p out, outs = before ++ [(p_name p, out)] ∧
      p ∈ phases ∧ Forall (λ o, phase_complete rec w stack (rq_no_dr rq) o.1 o.2) before ∧
      code ≠ 0%Z ∧ hint = resume_hint (s_name stack) (p_name p) (rq_no_dr rq)
  | BExit _ None | BUncaught _ =>
      Forall (λ o, phase_complete rec w stack (rq_no_dr rq) o.1 o.2) outs
  | BOverflow | BOpen => ∃ before o, outs = before ++ [o] ∧
      Forall (λ o, phase_complete rec w stack (rq_no_dr rq) o.1 o.2) before
  | BNothing | BUnknownPhase | BRaised _ => False
  end.
Proof.
  intros HP. revert outs e. induction HP as [|p phases Hp HP IH]; intros outs e; simpl.
  { intros [= <- <-]. split_and!; done || constructor. }
  destruct (ensure_prereqs t w stack p) as [code|].
  { intros [= <- <-]. split; [apply prefix_nil|constructor]. }
  destruct (p_build_steps p stack (rq_no_dr rq)) as [steps|err] eqn:Hsteps.
  2:{ intros [= <- <-]. split; [apply prefix_nil|constructor]. }
  pose proof (phase_steps_ok _ _ _ _ _ Hp Hsteps) as Hok.
  destruct (run_steps fpow steps (rq_step rq) _) as [out re] eqn:Hrun.
  destruct re as [|[label code sec rt|]|].
  - destruct (run_phases fpow t w stack rq phases) as [outs' e'] eqn:Hrest. intros [= <- <-].
    destruct (IH _ _ eq_refl) as [Hpre He]. split; [csimpl; by apply prefix_cons|].
    pose proof (run_from_done _ _ _ _ _ _ _ _ Hok Hrun) as Hall.
    assert (phase_complete rec w stack (rq_no_dr rq) (p_name p) out) as Hdone
      by (by exists p, steps).
    destruct e' as [| |code [hint|]|err|err| | |]; try done.
    + destruct He as [He Hc]. split; [csimpl; by rewrite He|by constructor].
    + destruct He as (before & q & o & -> & Hq & Hb & ? & ?).
      exists ((p_name p, out) :: before), q, o.
      split_and!; try done; [by right|by constructor].
    + by constructor.
    + by constructor.
    + destruct He as (before & o & -> & Hb). exists ((p_name p, out) :: before), o.
      split; [done|by constructor].
    + destruct He as (before & o & -> & Hb). exists ((p_name p, out) :: before), o.
      split; [done|by constructor].
  - intros [= <- <-]. split; [csimpl; apply prefix_cons, prefix_nil|].
    exists [], p, out. split; [done|]. split; [left|]. split; [constructor|].
    split; [|done].
    destruct (run_from_spec _ _ _ _ _ _ _ _ _ Hok Hrun) as (k & counts & _ & _ & _ & _ & Hend).
    by destruct Hend as (st & _ & _ & ? & _).
  - intros [= <- <-]. split; [csimpl; apply prefix_cons, prefix_nil|].
    eexists [], _. split; [done|constructor].
  - intros [= <- <-]. split; [csimpl; apply prefix_cons, prefix_nil|].
    eexists [], _. split; [done|constructor].
Qed.

(** A phase that nothing stops: its prerequisites are there, its steps can be built, and its
    commands exit 0. *)
Definition unhindered (w : World) (stack : Stack) (no_dr : bool) (p : Phase) : Prop :=
  ensure_prereqs t w stack p = None ∧ ∃ steps, p_build_steps p stack no_dr = Ok steps ∧
    length steps ≤ length (wo_attempts w (p_name p)) ∧
    Forall (λ a, at_exit a = 0%Z) (wo_attempts w (p_name p)).

Lemma run_from_zeros step total completed tot steps ats :
  length steps ≤ length ats → Forall (λ a, at_exit a = 0%Z) ats →
  (run_from fpow step total completed tot steps ats).2 = RDone.
Proof.
  revert completed tot ats. induction steps as [|s steps IH]; intros completed tot ats Hlen Hz; [done|].
  destruct ats as [|a ats]; simpl in Hlen; [lia|]. apply Forall_cons in Hz as [Ha Hz].
  cbn [run_from]. unfold run_step. cbn [run_attempts]. rewrite Ha. simpl.
  specialize (IH (S completed) (fadd tot (elapsed a)) ats ltac:(lia) Hz).
  by destruct (run_from _ _ _ _ _ _ _).
Qed.

Lemma run_phases_unhindered w stack rq phases :
  Forall (unhindered w stack (rq_no_dr rq)) phases →
  (run_phases fpow t w stack rq phases).2 = BDone.
Proof.
  induction 1 as [|p phases (Hpre & steps & Hs & Hlen & Hz) _ IH]; [done|]. cbn [run_phases].
  rewrite Hpre, Hs. pose proof (run_from_zeros (rq_step rq) (length steps) 0 fzero steps _ Hlen Hz) as Hrun.
  unfold run_steps. destruct (run_from _ _ _ _ _ _ _) as [out re]. simpl in Hrun. subst re.
  by destruct (run_phases _ _ _ _ _ _).
Qed.

(** The loop over the phases ends when each phase is answered as often as it may ask. *)
Lemma run_phases_ends rec w stack rq phases outs e :
  Forall (λ p, p ∈ PHASES root nets t c rec) phases →
  (∀ p steps, p ∈ PHASES root nets t c rec → p_build_steps p stack (rq_no_dr rq) = Ok steps →
     sum_list_with allowed steps ≤ length (wo_attempts w (p_name p))) →
  run_phases fpow t w stack rq phases = (outs, e) → e ≠ BOpen.
Proof.
  intros HP Hats. revert outs e. induction HP as [|p phases Hp HP IH]; intros outs e; simpl.
  { by intros [= <- <-]. }
  destruct (ensure_prereqs t w stack p); [by intros [= <- <-]|].
  destruct (p_build_steps p stack (rq_no_dr rq)) as [steps|err] eqn:Hsteps; [|by intros [= <- <-]].
  destruct (run_steps fpow steps (rq_step rq) _) as [out re] eqn:Hrun.
  destruct re as [|[label code sec rt|]|]; [|by intros [= <- <-]..|].
  - destruct (run_phases fpow t w stack rq phases) as [outs' e'] eqn:Hrest. intros [= <- <-].
    by eapply IH.
  - destruct (run_from_spec _ _ _ _ _ _ _ _ _ (phase_steps_ok _ _ _ _ _ Hp Hsteps) Hrun)
      as (_ & _ & _ & _ & _ & Hopen & _).
    specialize (Hopen eq_refl). specialize (Hats _ _ Hp Hsteps). lia.
Qed.

Lemma select_phases_In rec stack states only from ps :
  select_phases root nets t c rec stack states only from = Some ps →
  Forall (λ p, p ∈ PHASES root nets t c rec) ps.
Proof.
  unfold select_phases. set (P := PHASES root nets t c rec). intros H.
  assert (∀ n, Forall (λ p, p ∈ P) (drop n P)) as Hdrop.
  { intros n. apply Forall_forall. intros p Hp. by eapply subseteq_drop. }
  destruct (or_none only).
  - simplify_eq. apply Forall_forall. intros p.
    rewrite list_elem_of_In, filter_In, <-list_elem_of_In. by intros [? _].
  - destruct (or_none from).
    + apply fmap_Some in H as ([i p] & _ & ->). apply Hdrop.
    + simplify_eq. case_match; [apply Hdrop|constructor].
Qed.

(** A bootstrap that ran a phase got past every gate. *)
Lemma bootstrap_inv w stack rq st outs e st' :
  bootstrap fpow root nets t c facts w stack rq st = (outs, e, st') →
  (outs = [] ∧ (e = BNothing ∨ e = BUnknownPhase ∨ (∃ err, e = BRaised err) ∨
                ∃ code, e = BExit code None)) ∨
  ∃ r selected, reconcile_instance c t facts (wo_virsh w) (wo_now w) st
      (wo_io_ok w) (s_name stack) (rq_config rq) = (Ok r, st') ∧
    phases_run root nets t c st' w stack rq = Some selected ∧
    run_phases fpow t w stack rq selected = (outs, e).
Proof.
  unfold bootstrap. case_if; [intros [= <- <- <-]; eauto 10|].
  case_if; [intros [= <- <- <-]; eauto 10|].
  destruct (rhel_stack_unsupported_reason stack facts); [intros [= <- <- <-]; eauto 10|].
  destruct (reconcile_instance _ _ _ _ _ _ _ _ _) as [[r|err] st1] eqn:Hr.
  2:{ intros [= <- <- <-]. left. split; [done|]. destruct err as [|[]| |]; simpl; eauto 10. }
  destruct (wo_prepare w); [intros [= <- <- <-]; eauto 10|].
  destruct (phases_run _ _ _ _ _ _ _ _) as [[|p ps]|] eqn:Hp; [intros [= <- <- <-]; eauto 10| |
    intros [= <- <- <-]; eauto 10].
  destruct (if existsb _ _ then wo_reserve w else None); [intros [= <- <- <-]; eauto 10|].
  destruct (if existsb _ _ then wo_secrets w else None); [intros [= <- <- <-]; eauto 10|].
  destruct (run_phases _ _ _ _ _) as [outs1 e1] eqn:Hrun. intros [= <- <- <-].
  right. exists r, (p :: ps). done.
Qed.
End bootstrap_lemmas.

(** ** Properties *)

(** C16. What a teardown touches: every command it runs destroys a member of the stack, or
    a shared guest that is not a member, and that only when it was told to or no other
    stack has a live guest, or it releases the huge pages, and that only when no other
    stack has a live guest. *)
Theorem teardown_scope fpow root t ex stack commons step d1 d2 ats ats' st out e st' :
  teardown fpow root t ex stack commons step d1 d2 ats ats' st = (out, e, st') →
  ∀ cmd, cmd ∈ runs out →
    (∃ g, g ∈ own_members t stack ∧ cmd ∈ destroys root g) ∨
    (reclaims t stack commons d2 ∧ ∃ g, g ∈ commons_members t ∧ (g ∉ own_members t stack) ∧
       cmd ∈ destroys root g) ∨
    (cmd = st_command (release_step root) ∧ enabled t = Ok true ∧
       other_stacks_up t d2 (s_name stack) = false).
Proof.
  intros [(-> & _)|(lever & plan & o1 & e1 & Hl & Hu & _ & Hplan & Hrun & H)]%teardown_inv;
    [set_solver|].
  assert (∀ cmd, cmd ∈ runs o1 → (∃ g, g ∈ own_members t stack ∧ cmd ∈ destroys root g) ∨
    (reclaims t stack commons d2 ∧ ∃ g, g ∈ commons_members t ∧ (g ∉ own_members t stack) ∧
       cmd ∈ destroys root g)) as Ho1.
  { intros cmd Hin. destruct (elem_of_runs _ _ _ _ _ _ _ (unretried_ok _ Hu) Hrun Hin)
      as (s & Hs & ->). by apply Hplan. }
  intros cmd Hin.
  destruct H as [(_ & -> & _)|(_ & _ & [(-> & _)|(-> & Hno & o2 & e2 & Hrel & -> & _)])];
    [destruct (Ho1 _ Hin); auto..|].
  rewrite runs_app in Hin. apply elem_of_app in Hin as [Hin|Hin]; [destruct (Ho1 _ Hin); auto|].
  right. right. destruct (elem_of_runs fpow [release_step root] false ats' o2 e2 cmd)
    as (s & ->%list_elem_of_singleton & ->); [by repeat constructor|done..].
Qed.



(** The OS is pinned before anything boots: when a bootstrap has run a phase, the
    stack's record is on disk, the boxes its guests boot were selected with it, and it
    is still there when the bootstrap ends, however it ends. *)
Theorem bootstrap_pins_first fpow root nets t c facts `{FTL : FloatTextLaws} w stack rq st
    outs e st' :
  catalog_ok c → request_ok c (s_name stack) (wo_now w) (rq_config rq) →
  bootstrap fpow root nets t c facts w stack rq st = (outs, e, st') →
  outs ≠ [] →
  ∃ r, read_record st' (s_name stack) = Ok (Some r) ∧
    stack_ref (recorded_os st') (s_name stack) c = Ok (ir_os r) ∧
    (∀ old, read_record st (s_name stack) = Ok (Some old) → r = old).
Proof.
  intros Hc Hok [(-> & _)|(r & selected & Hrec & _ & _)]%bootstrap_inv Hne; [done|].
  assert (read_record st' (s_name stack) = Ok (Some r)) as Hr
    by (by eapply reconcile_instance_stored).
  exists r. split_and!; [done| |].
  - unfold stack_ref, recorded_os. by rewrite Hr.
  - intros old Hold. eapply reconcile_instance_pinned; [done|by rewrite Hrec].
Qed.

(** C15. The hint of a failed bootstrap re-enters where it failed: when a phase fails, the
    hint names the stack and that phase, with [--no-dr] exactly when it was given, and
    a bootstrap from that phase selects it and the ones after it, whatever the state
    of the lab. *)
Theorem resume_hint_reenters fpow root nets t c facts `{FT : FloatText} w stack rq st
    outs code hint st' :
  bootstrap fpow root nets t c facts w stack rq st
    = (outs, BExit code (Some hint), st') →
  ∃ before p out, outs = before ++ [(p_name p, out)] ∧
    hint = resume_hint (s_name stack) (p_name p) (rq_no_dr rq) ∧
    ∃ pre post, PHASES root nets t c (recorded_os st') = pre ++ p :: post ∧
      ∀ w' no_dr step config, phases_run root nets t c st' w' stack
        (mk_request None (Some (p_name p)) no_dr step config) = Some (p :: post).
Proof.
  intros [(_ & [?|[?|[(? & ?)|(? & ?)]]])|(r & selected & _ & Hsel & Hrun)]%bootstrap_inv; try done.
  pose proof (select_phases_In _ _ _ _ _ _ _ _ _ _ Hsel) as HP.
  destruct (run_phases_spec _ _ _ _ _ _ _ _ _ _ _ _ HP Hrun)
    as [_ (before & p & out & -> & Hp & _ & _ & ->)].
  exists before, p, out. split_and!; [done..|]. rewrite Forall_forall in HP. apply HP in Hp.
  unfold PHASES in Hp |- *. rewrite !elem_of_cons, elem_of_nil in Hp.
  destruct Hp as [->|[->|[->|[->|[]]]]].
  - by eexists [], _.
  - by eexists [_], _.
  - by eexists [_; _], _.
  - by eexists [_; _; _], _.
Qed.

(** C23. A bootstrap terminates: whatever its commands do, no phase asks for more of them
    than the allowances of its steps add up to, and a world that answers that often sees
    the command end (well, with an exit code, or with an exception). *)
Theorem bootstrap_terminates fpow root nets t c facts `{FT : FloatText} w stack rq st
    outs e st' :
  (∀ p steps, p ∈ PHASES root nets t c (recorded_os st') →
     p_build_steps p stack (rq_no_dr rq) = Ok steps →
     sum_list_with allowed steps ≤ length (wo_attempts w (p_name p))) →
  bootstrap fpow root nets t c facts w stack rq st = (outs, e, st') →
  e ≠ BOpen.
Proof.
  intros Hats [(_ & [->|[->|[(? & ->)|(? & ->)]]])|(r & selected & _ & Hsel & Hrun)]%bootstrap_inv;
    try done.
  eapply run_phases_ends; [by eapply select_phases_In|exact Hats|exact Hrun].
Qed.

(** ** Witnesses *)

(** A member that runs, one that is shut off, a shared guest that runs; the second
    stack's member is gone. *)
Definition demo_domains : list (text * text) :=
  [(u "lab_rdqm-a1", u "running"); (u "lab_rdqm-b1", u "shut off"); (u "lab_probe", u "running")].

Definition demo_teardown (codes : list Z) : list output * teardown_end * list (text * text) :=
  teardown demo_pow (u "/lab") demo_topo (λ _, false) demo_stack false false demo_domains
    demo_domains (demo_attempt <$> codes) [] [(u "rdqm-rhel", u "{}")].

Lemma teardown_scope_witness :
  ∃ out st', demo_teardown [0; 0; 0; 0; 0]%Z = (out, TDone, st') ∧
    (cmd_argv <$> runs out) =
      [VIRSH ++ [u "destroy"; u "lab_rdqm-a1"];
       VIRSH ++ [u "undefine"; u "lab_rdqm-a1"; u "--remove-all-storage"; u "--nvram"];
       VIRSH ++ [u "undefine"; u "lab_rdqm-b1"; u "--remove-all-storage"; u "--nvram"];
       VIRSH ++ [u "destroy"; u "lab_probe"];
       VIRSH ++ [u "undefine"; u "lab_probe"; u "--remove-all-storage"; u "--nvram"]] ∧
    ∀ cmd, cmd ∈ runs out → ∃ g, cmd ∈ destroys (u "/lab") g.
Proof.
  destruct (demo_teardown [0; 0; 0; 0; 0]%Z) as [[out e] st'] eqn:H. exists out, st'.
  assert (e = TDone) as -> by (by vm_compute in H; injection H as <- <- <-).
  split; [done|]. split; [by vm_compute in H; injection H as <- <-|].
  intros cmd Hin. unfold demo_teardown in H.
  destruct (teardown_scope _ _ _ _ _ _ _ _ _ _ _ _ _ _ _ H cmd Hin)
    as [(g & _ & Hg)|[(_ & g & _ & _ & Hg)|(_ & He & _)]]; [by exists g..|by vm_compute in He].
Defined.


Definition demo_pstack : Stack :=
  match lab_stacks demo_topo with Ok (_ :: (_, s) :: _) => s | _ => no_stack end.

(** Nothing runs yet, and every command succeeds, or the second of the given phase fails. *)
Definition demo_world (failing : text) : World :=
  mk_world (Some []) (u "2026-10-14T00:00:00Z") true None (build_states [] [] false false) None None
    (λ _, None) (λ _, None)
    (λ phase, demo_attempt <$>
       (if bool_decide (phase = failing) then [0; 2]%Z else replicate 40 0%Z)).

Definition demo_request : Request := mk_request None None false false None.

Definition demo_boot_run (failing : text) (st : list (text * text)) :
    list (text * list output) * boot_end * list (text * text) :=
  bootstrap demo_pow (u "/lab") [u "net-mgmt"] demo_topo demo_catalog demo_x86  (demo_world failing) demo_pstack demo_request st.


Lemma bootstrap_pins_first_witness :
  ∃ outs st', demo_boot_run PROVISION [] = (outs, BExit 2 (Some (resume_hint (u "pcmk-ubuntu") PROVISION false)), st') ∧
    read_record st' (u "pcmk-ubuntu") = Ok (Some demo_record_24).
Proof.
  destruct (demo_boot_run PROVISION []) as [[outs e] st'] eqn:H. exists outs, st'.
  assert (e = BExit 2 (Some (resume_hint (u "pcmk-ubuntu") PROVISION false)) ∧
          0 < length outs ∧ read_record st' (u "pcmk-ubuntu") = Ok (Some demo_record_24))
    as (-> & Hl & Hr).
  { vm_compute in H. injection H as <- <- <-. split_and!; [done|simpl; lia|by vm_compute]. }
  split; [done|]. unfold demo_boot_run in H.
  destruct (bootstrap_pins_first demo_pow (u "/lab") [u "net-mgmt"] demo_topo demo_catalog demo_x86
    (demo_world PROVISION) demo_pstack demo_request [] outs _ st' demo_catalog_ok
    (demo_request_ok (u "2026-10-14T00:00:00Z") None eq_refl eq_refl) H) as (r & Hrec & _).
  - by intros ->; simpl in Hl; lia.
  - congruence.
Defined.

Lemma resume_hint_reenters_witness :
  ∃ outs st', demo_boot_run PROVISION [] =
    (outs, BExit 2 (Some (u "resume with: mqlab bootstrap pcmk-ubuntu --from provision")), st') ∧
  ∃ p post, p_name p = PROVISION ∧ ∀ w' no_dr step config,
    phases_run (u "/lab") [u "net-mgmt"] demo_topo demo_catalog st' w' demo_pstack
      (mk_request None (Some PROVISION) no_dr step config) = Some (p :: post).
Proof.
  destruct (demo_boot_run PROVISION []) as [[outs e] st'] eqn:H. exists outs, st'.
  assert (e = BExit 2 (Some (u "resume with: mqlab bootstrap pcmk-ubuntu --from provision")) ∧
          outs.*1 = [NET; VMS; PROVISION]) as (-> & Hl)
    by (by vm_compute in H; injection H as <- <- <-).
  split; [done|]. unfold demo_boot_run in H.
  destruct (resume_hint_reenters _ _ _ _ _ _ _ _ _ _ _ _ _ _ H)
    as (before & p & out & -> & _ & pre & post & _ & Hre).
  assert (p_name p = PROVISION) as Hp.
  { rewrite fmap_app in Hl. csimpl in Hl. by apply (app_inj_tail _ [NET; VMS]) in Hl as [_ ?]. }
  exists p, post. split; [done|]. intros. rewrite <-Hp. apply Hre.
Defined.

Lemma bootstrap_terminates_witness :
  ∃ outs st', demo_boot_run [] [] = (outs, BDone, st') ∧ BDone ≠ BOpen.
Proof.
  destruct (demo_boot_run [] []) as [[outs e] st'] eqn:H. exists outs, st'.
  assert (e = BDone ∧ st' = (demo_boot_run [] []).2) as [-> Hst]
    by (by split; [vm_compute in H; injection H as <- <- <-|rewrite H]).
  split; [done|]. unfold demo_boot_run in H.
  refine (bootstrap_terminates _ _ _ _ _ _ _ _ _ _ _ _ _ _ H).
  clear H. subst st'. intros p steps Hp Hs.
  assert (forallb (λ p, match p_build_steps p demo_pstack false with
    | Ok steps => sum_list_with allowed steps <=? length (wo_attempts (demo_world []) (p_name p))
    | Err _ => true end)
    (PHASES (u "/lab") [u "net-mgmt"] demo_topo demo_catalog
       (recorded_os (demo_boot_run [] []).2)) = true) as Hall by (by vm_compute).
  rewrite forallb_forall in Hall. specialize (Hall p (proj1 (list_elem_of_In _ _) Hp)).
  simpl in Hs. rewrite Hs in Hall. by apply Nat.leb_le.
Defined.
