(* ===== verification/Registry.v ===== *)
(** * The instance registry as an abstract machine

    What [mqlab/instances.py] and its callers promise, without files, JSON or requests:
    a finite map from stacks to records, in which a stack that has no record may be
    pinned, a stack that has one runs with it, and only a teardown forgets it. The code
    of [Instances.v] refines this machine, command by command. *)

From stdpp Require Import gmap.
From S2P Require Import Prelude PyText PyDict PyJson JsonRoundTrip Versions VersionsLoad Instances.

(** ** The specification *)

Abbreviation registry := (gmap text InstanceRecord) (only parsing).

(** What an observer sees of one command. *)
Inductive event :=
  | Ran (stack : text) (r : InstanceRecord)
  | Refused (stack : text)
  | Forgot (stack : text).

Inductive reg_step : registry → event → registry → Prop :=
  | reg_pin m s r : m !! s = None → ir_stack r = s → reg_step m (Ran s r) (<[s := r]> m)
  | reg_keep m s r : m !! s = Some r → reg_step m (Ran s r) m
  | reg_refuse m s : reg_step m (Refused s) m
  | reg_forget m s : reg_step m (Forgot s) (delete s m).

Inductive reg_steps : registry → list event → registry → Prop :=
  | reg_done m : reg_steps m [] m
  | reg_more m e m1 es m2 : reg_step m e m1 → reg_steps m1 es m2 → reg_steps m (e :: es) m2.

(** In the machine, a record lasts until its stack is torn down. *)
Lemma reg_steps_pinned m es m' s r :
  reg_steps m es m' → m !! s = Some r → Forgot s ∉ es →
  m' !! s = Some r ∧ ∀ r', Ran s r' ∈ es → r' = r.
Proof.
  induction 1 as [m|m e m1 es m2 Hstep Hsteps IH]; intros Hr Hno.
  { split; [done|]. by intros r' ?%elem_of_nil. }
  apply not_elem_of_cons in Hno as [Hne Hno].
  assert (m1 !! s = Some r ∧ ∀ r', e = Ran s r' → r' = r) as [Hr1 He].
  { destruct Hstep as [m s1 r1 Hn|m s1 r1 Hs1|m s1|m s1].
    - rewrite lookup_insert_ne by congruence. split; [done|]. intros r' [= -> ->]. congruence.
    - split; [done|]. intros r' [= -> ->]. congruence.
    - done.
    - rewrite lookup_delete_ne by congruence. done. }
  destruct (IH Hr1 Hno) as [Hm Hran]. split; [done|].
  intros r' [Heq|Hin]%elem_of_cons; [by apply He|by apply Hran].
Qed.

(** ** The refinement *)

Section refinement.
Context `{FTL : FloatTextLaws}.

(** The registry a directory of records stands for. *)
Definition stands_for (st : list (text * text)) (m : registry) : Prop :=
  ∀ s, read_record st s = Ok (m !! s).

Definition command_ok (cmd : command) : Prop :=
  match cmd with
  | CBootstrap c _ _ _ now _ stack config => catalog_ok c ∧ request_ok c stack now config
  | CTeardown _ => True
  end.

(** The event of one command that gave [o]. *)
Definition command_event (cmd : command) (o : option (text * res BootstrapError InstanceRecord)) :
    event :=
  match cmd, o with
  | CTeardown s, _ => Forgot s
  | CBootstrap _ _ _ _ _ _ s _, Some (_, Ok r) => Ran s r
  | CBootstrap _ _ _ _ _ _ s _, _ => Refused s
  end.

(** The history of a list of commands, with an event for each. *)
Fixpoint events (st : list (text * text)) (cmds : list command) : list event :=
  match cmds with
  | [] => []
  | cmd :: rest =>
      let '(o, st1) := command_step st cmd in command_event cmd o :: events st1 rest
  end.

(** A refused bootstrap leaves the directory as it was. *)
Lemma reconcile_instance_Err c t facts virsh now st io stack config e st' :
  reconcile_instance c t facts virsh now st io stack config = (Err e, st') → st' = st.
Proof.
  unfold reconcile_instance. destruct (requested_os _ _ _ _ _) as [[existing req]|];
    [|by intros [= _ <-]].
  destruct (match existing with None => stack_live t virsh stack | Some _ => Ok false end)
    as [live|]; [|by intros [= _ <-]].
  unfold reconcile. destruct (read_record st stack) as [[old|]|].
  - case_if; by intros [= _ <-].
  - destruct live; [by intros [= _ <-]|]. unfold write_record. rewrite dumps_payload.
    destruct io; [done|]. by intros [= _ <-].
  - by intros [= _ <-].
Qed.

(** One command is one step of the machine. *)
Lemma command_step_simulated st m cmd o st' :
  stands_for st m → command_ok cmd → command_step st cmd = (o, st') →
  ∃ m', reg_step m (command_event cmd o) m' ∧ stands_for st' m'.
Proof.
  intros Hm Hok. destruct cmd as [c t facts virsh now io s config|s]; simpl.
  - destruct Hok as [Hc Hreq].
    destruct (reconcile_instance _ _ _ _ _ _ _ _ _) as [[r|e] st1] eqn:Hrec; intros [= <- <-].
    + pose proof (reconcile_instance_Ok _ _ _ _ _ _ _ _ _ _ _ Hrec) as Hspec.
      pose proof (reconcile_instance_stored _ _ _ _ _ _ _ _ _ _ _ Hc Hreq Hrec) as Hst.
      rewrite (Hm s) in Hspec. destruct (m !! s) as [old|] eqn:Hold.
      * destruct Hspec as (-> & -> & _). exists m. split; [by constructor|done].
      * destruct Hspec as (_ & Heq & _). exists (<[s := r]> m).
        split; [constructor; [done|by rewrite Heq]|]. intros s'.
        destruct (decide (s' = s)) as [->|Hne]; [by rewrite lookup_insert_eq|].
        rewrite lookup_insert_ne, <-(Hm s') by done.
        pose proof (reconcile_instance_frame c t facts virsh now st io s config s' (or_introl Hne))
          as Hf. by rewrite Hrec in Hf.
    + apply reconcile_instance_Err in Hrec as ->. exists m. split; [constructor|done].
  - intros [= <- <-]. exists (delete s m). split; [constructor|]. intros s'.
    unfold read_record, delete_record. rewrite dget_dpop.
    destruct (decide (s' = s)) as [->|Hne]; [by rewrite decide_True, lookup_delete_eq|].
    rewrite decide_False, lookup_delete_ne by done. apply Hm.
Qed.

(** C35. The record files refine the registry: from a directory that stands for a map, any
    history of bootstraps and teardowns (requests with proper names, against valid
    catalogs) is, event by event, a run of the abstract machine, and the directory then
    stands for the map the machine ends in. So what the machine promises holds of the
    code: between two teardowns of a stack, every bootstrap that goes through runs with
    one and the same record. *)
Theorem records_refine_registry st m cmds :
  stands_for st m → Forall command_ok cmds →
  ∃ m', reg_steps m (events st cmds) m' ∧ stands_for (history st cmds).2 m'.
Proof.
  intros Hm Hok. revert st m Hm. induction Hok as [|cmd cmds Hc Hok IH]; intros st m Hm; simpl.
  { exists m. split; [constructor|done]. }
  destruct (command_step st cmd) as [o st1] eqn:Ho.
  destruct (command_step_simulated _ _ _ _ _ Hm Hc Ho) as (m1 & Hstep & Hm1).
  destruct (IH st1 m1 Hm1) as (m' & Hsteps & Hm').
  destruct (history st1 cmds) as [out st2]. exists m'. split; [by econstructor|done].
Qed.
End refinement.

(** ** Witness: the history of [Instances.v], from an empty directory *)

Lemma records_refine_registry_witness :
  let cmds := [demo_bootstrap None; demo_bootstrap (Some demo_config); CTeardown (u "pcmk-ubuntu");
               demo_bootstrap (Some demo_config)] in
  let r26 := mk_record (u "pcmk-ubuntu") (mk_ref (u "ubuntu") 26) (Some (u "26.yaml"))
               (u "2026-10-14T00:00:00Z") in
  events [] cmds = [Ran (u "pcmk-ubuntu") demo_record_24; Refused (u "pcmk-ubuntu");
                    Forgot (u "pcmk-ubuntu"); Ran (u "pcmk-ubuntu") r26] ∧
  ∃ m', reg_steps ∅ (events [] cmds) m' ∧ stands_for (history [] cmds).2 m'.
Proof.
  split; [by vm_compute|]. apply records_refine_registry; [done|].
  apply Forall_cons; split; [split; [exact demo_catalog_ok|by apply demo_request_ok]|].
  apply Forall_cons; split; [split; [exact demo_catalog_ok|by apply demo_request_ok]|].
  apply Forall_cons; split; [done|].
  apply Forall_cons; split; [split; [exact demo_catalog_ok|by apply demo_request_ok]|].
  by apply Forall_nil.
Defined.
