(* ===== verification/Prom.v ===== *)
(** * Samples of the node_exporter textfile format

    The formatter [_m] that the state collectors of
    components/mq-resiliency-observability/src/mqro share, the body they write, and a
    reader of that format, against which the theorems say what a body means. *)

From S2P Require Import Prelude PyText PyCodec PyDict PyFloat PyJson JsonRoundTrip.

(** ** Writing *)

Inductive value := VInt (z : Z) | VFloat (f : float).

(** One sample: [name{k="v",...} value]. *)
Record sample := mk_sample { sm_name : text; sm_labels : list (text * text); sm_value : value }.

(** A sample whose value is a flag. *)
Definition flag (name : text) (labels : list (text * text)) (b : bool) : sample :=
  mk_sample name labels (VInt (if b then 1 else 0)).

Section text.
Context `{FT : FloatText}.

(** [str] of the value; [None] is the ValueError of an integer over the digit limit. *)
Definition value_text (v : value) : option text :=
  match v with
  | VInt z => str_int z
  | VFloat S754_nan => Some (u "nan")
  | VFloat (S754_infinity s) => Some (if s then u "-inf" else u "inf")
  | VFloat f => Some (float_repr f)
  end.

Definition label_text (kv : text * text) : text := kv.1 ++ [61; 34]%N ++ kv.2 ++ [34%N].

(** [_m(name, labels, value)]. *)
Definition sample_line (s : sample) : option text :=
  v ← value_text (sm_value s);
  Some (sm_name s ++ [123%N] ++ str_join [44%N] (label_text <$> sm_labels s) ++ [125; 32]%N ++ v).

(** ["\n".join(lines) + "\n"]. *)
Definition body (l : list sample) : option text :=
  lines ← mapM sample_line l; Some (str_join [10%N] lines ++ [10%N]).

(** A body is written exactly when every value can be. *)
Lemma body_total l : is_Some (body l) ↔ Forall (λ s, is_Some (value_text (sm_value s))) l.
Proof.
  unfold body. assert (is_Some (mapM sample_line l) ↔
    Forall (λ s, is_Some (value_text (sm_value s))) l) as <-.
  { rewrite mapM_is_Some. assert (∀ s, (is_Some ∘ sample_line) s ↔ is_Some (value_text (sm_value s)))
      as Heq; [|by split; intros H; (eapply Forall_impl; [exact H|]); intros s; apply Heq].
    intros s. unfold compose, sample_line.
    destruct (value_text (sm_value s)); simpl; split; intros [? ?]; (done || eauto). }
  destruct (mapM sample_line l); split; intros [? ?]; (done || eauto).
Qed.
End text.

(** ** Reading *)

(** The labels between the braces, from a name on. *)
Fixpoint read_labels (n : nat) (s : text) : option (list (text * text) * text) :=
  match n with
  | 0 => None
  | S n =>
      '(k, s1) ← cut 61 s;
      match s1 with
      | 34%N :: s2 =>
          '(v, s3) ← cut 34 s2;
          match s3 with
          | 44%N :: s4 => '(l, rest) ← read_labels n s4; Some ((k, v) :: l, rest)
          | 125%N :: 32%N :: rest => Some ([(k, v)], rest)
          | _ => None
          end
      | _ => None
      end
  end.

(** A line: name, labels, and the text of the value. *)
Definition read_sample (s : text) : option (text * list (text * text) * text) :=
  '(name, s1) ← cut 123 s;
  match s1 with
  | 125%N :: 32%N :: v => Some (name, [], v)
  | _ => '(l, v) ← read_labels (length s1) s1; Some (name, l, v)
  end.

(** The samples of a body: its non-empty lines. *)
Definition read_body (s : text) : option (list (text * list (text * text) * text)) :=
  mapM read_sample (filter (λ l, l ≠ []) (split_on 10 s)).

(** ** What is written is read *)

(** A label the reader can tell apart: no separator in the name, no quote in the value,
    and no line break. *)
Definition label_ok (kv : text * text) : Prop :=
  (61%N ∉ kv.1) ∧ (125%N ∉ kv.1) ∧ (34%N ∉ kv.2) ∧ (10%N ∉ kv.1) ∧ (10%N ∉ kv.2).

Definition value_ok (v : value) : Prop :=
  match v with VInt _ => True | VFloat f => valid_binary prec emax f = true end.

Definition sample_ok (s : sample) : Prop :=
  (123%N ∉ sm_name s) ∧ (10%N ∉ sm_name s) ∧ Forall label_ok (sm_labels s) ∧ value_ok (sm_value s).

Lemma read_labels_join n kv l rest :
  Forall label_ok (kv :: l) → length (kv :: l) ≤ n →
  read_labels n (str_join [44%N] (label_text <$> kv :: l) ++ [125; 32]%N ++ rest)
    = Some (kv :: l, rest).
Proof.
  revert kv n. induction l as [|kv2 l IH]; intros [k v] n Hok Hn; (destruct n as [|n]; [simpl in Hn; lia|]).
  - inversion_clear Hok as [|? ? (Hk & _ & Hv & _) _]. cbn [fmap list_fmap str_join fst snd] in *.
    cbn [read_labels]. unfold label_text. cbn [fst snd].
    rewrite <-!app_assoc. cbn [app]. rewrite cut_app by done. cbn [mbind option_bind].
    by rewrite cut_app.
  - apply Forall_cons in Hok as [(Hk & _ & Hv & _) Hok].
    rewrite fmap_cons, str_join_cons by done. cbn [read_labels fst snd] in *.
    unfold label_text at 1. cbn [fst snd]. rewrite <-!app_assoc. cbn [app].
    rewrite cut_app by done. cbn [mbind option_bind]. rewrite cut_app by done.
    cbn [mbind option_bind]. rewrite IH; [done|done|simpl in *; lia].
Qed.

Lemma length_join_labels l : length l ≤ length (str_join [44%N] (label_text <$> l)).
Proof.
  induction l as [|[k v] l IH]; [done|]. destruct l as [|kv2 l]; [unfold label_text; simpl; rewrite !length_app; simpl; lia|].
  rewrite fmap_cons, str_join_cons by done. rewrite !length_app. unfold label_text at 1.
  rewrite !length_app. simpl in *. lia.
Qed.

Section round_trip.
Context `{FTL : FloatTextLaws}.

Lemma read_sample_line s line v :
  sample_ok s → sample_line s = Some line → value_text (sm_value s) = Some v →
  read_sample line = Some (sm_name s, sm_labels s, v).
Proof.
  intros (Hn & _ & Hl & _) Hs Hv. unfold sample_line in Hs. rewrite Hv in Hs. simplify_eq/=.
  unfold read_sample. rewrite cut_app by done. cbn [mbind option_bind].
  destruct (sm_labels s) as [|kv l] eqn:Hlab; [done|].
  pose proof (read_labels_join
    (length (str_join [44%N] (label_text <$> kv :: l) ++ [125; 32]%N ++ v)) kv l v Hl) as Hread.
  cbn [app] in Hread.
  assert (length (kv :: l) ≤ length (str_join [44%N] (label_text <$> kv :: l) ++ 125%N :: 32%N :: v))
    as Hlen by (rewrite length_app; pose proof (length_join_labels (kv :: l)); lia).
  specialize (Hread Hlen).
  assert (∃ c t, str_join [44%N] (label_text <$> kv :: l) ++ 125%N :: 32%N :: v = c :: t ∧ c ≠ 125%N)
    as (c & t & Heq & Hc).
  { destruct kv as [k x]. inversion_clear Hl as [|? ? (Hk & Hb & _) _]. cbn [fst] in *.
    destruct (str_join_head [44%N] (label_text (k, x)) (label_text <$> l)) as [q Hq].
    rewrite fmap_cons, Hq. unfold label_text. cbn [fst snd].
    destruct k as [|c k]; cbn [app]; eexists _, _; (split; [done|]); [done|]. set_solver. }
  rewrite Heq in *. destruct c as [|p]; [by rewrite Hread|].
  do 7 (destruct p as [p|p|]; try (by rewrite Hread)); done.
Qed.

Lemma value_text_line v t : value_ok v → value_text v = Some t → 10%N ∉ t.
Proof.
  assert (∀ s, forallb (λ c, negb (c =? 10)%N) s = true → 10%N ∉ s) as Hlit.
  { intros s Hs Hin%list_elem_of_In. rewrite forallb_forall in Hs. by specialize (Hs _ Hin). }
  destruct v as [z|f]; intros Hok; simpl.
  - unfold str_int. case_match; [|done]. intros [= <-]. apply Z_text_no. lia.
  - assert (float_finite f = true → 10%N ∉ float_repr f) as Hf.
    { intros Hfin Hin. pose proof (lex_number_chars _ _ _ _ (repr_number _ Hfin Hok)) as Hch.
      rewrite Forall_forall in Hch. specialize (Hch _ Hin). unfold num_char in Hch. lia. }
    destruct f as [s|[]| |s m e]; intros [= <-]; try (by apply Hlit); by apply Hf.
Qed.

Lemma sample_line_no_break s line : sample_ok s → sample_line s = Some line → 10%N ∉ line.
Proof.
  intros (_ & Hn & Hl & Hv) Hs. unfold sample_line in Hs.
  destruct (value_text (sm_value s)) as [t|] eqn:Ht; [|done]. simplify_eq/=.
  apply (value_text_line _ _ Hv) in Ht.
  assert (10%N ∉ str_join [44%N] (label_text <$> sm_labels s)) as Hj.
  { clear -Hl. induction Hl as [|[k v] l (_ & _ & _ & Hk & Hv) Hl IH]; [set_solver|].
    assert (10%N ∉ label_text (k, v)) as Hone.
    { unfold label_text. cbn [fst snd] in *. rewrite !elem_of_app, !elem_of_cons, elem_of_nil.
      intros Hin. destruct_or! Hin; done. }
    destruct l as [|kv2 l]; [done|]. rewrite fmap_cons, str_join_cons by done.
    rewrite !elem_of_app, elem_of_cons, elem_of_nil.
    intros Hin. destruct_or! Hin; done. }
  intros Hin. repeat (rewrite elem_of_app in Hin || rewrite elem_of_cons in Hin).
  destruct_or! Hin; done.
Qed.

(** What a reader of the body gets is the samples, in order. *)
Lemma read_body_samples l s :
  Forall sample_ok l → body l = Some s →
  ∃ vs, Forall2 (λ x v, value_text (sm_value x) = Some v) l vs ∧
    read_body s = Some (zip_with (λ x v, (sm_name x, sm_labels x, v)) l vs).
Proof.
  intros Hok Hb. unfold body in Hb. destruct (mapM sample_line l) as [lines|] eqn:Hm; [|done].
  injection Hb as <-. apply mapM_Some in Hm.
  assert (∃ vs, Forall2 (λ x v, value_text (sm_value x) = Some v) l vs ∧
    Forall (λ y, (10%N ∉ y) ∧ y ≠ []) lines ∧
    mapM read_sample lines = Some (zip_with (λ x v, (sm_name x, sm_labels x, v)) l vs))
    as (vs & Hvs & Hlines & Hread).
  { induction Hm as [|x line l lines Hx Hm IH].
    { exists []. by split_and!. }
    apply Forall_cons in Hok as [Hxok Hok]. destruct (IH Hok) as (vs & Hvs & Hl & Hr).
    destruct (value_text (sm_value x)) as [v|] eqn:Hv; [|by unfold sample_line in Hx; rewrite Hv in Hx].
    exists (v :: vs). split_and!; [by constructor| |].
    - constructor; [|done]. split; [by eapply sample_line_no_break|].
      unfold sample_line in Hx. rewrite Hv in Hx. injection Hx as <-. by destruct (sm_name x).
    - simpl. by rewrite (read_sample_line _ _ _ Hxok Hx Hv), Hr. }
  exists vs. split; [done|]. unfold read_body.
  assert (Forall (λ y, 10%N ∉ y) lines) as Hbr by (eapply Forall_impl; [exact Hlines|naive_solver]).
  destruct lines as [|line lines].
  - injection Hread as <-. done.
  - rewrite str_join_lines, split_on_lines by done. rewrite filter_app.
    assert (filter (λ l, l ≠ []) (line :: lines) = line :: lines) as ->.
    { clear -Hlines. induction Hlines as [|y ls [_ Hy] _ IH]; [done|].
      by rewrite filter_cons_True, IH. }
    rewrite filter_cons_False, filter_nil, app_nil_r by naive_solver. done.
Qed.
End round_trip.
