(* ===== verification/NativeHa.v ===== *)
(** * The Native HA state collector

    Models mqro/nativehastate.py: the parsers of [dspmq -o nativeha -x] and [-g], the
    metrics they become, and one collection. What the two probes print is input ([None]
    for a probe that timed out or failed); the textfile write of [main] is left out.
    Which characters above ASCII are word characters for [re] is a parameter. *)

From S2P Require Import Prelude PyText PyCodec PyDict PyFloat PyJson JsonRoundTrip Prom.

Section nativeha.
Context `{FT : FloatText} (uword : N → bool).

(** ** Tokens: [_FIELD], word characters followed by a value in parentheses *)

Definition is_word (c : N) : bool := word_char uword c.

(** Where [findall] stands: in a run of word characters (reversed), or between the
    parentheses of a key, with the value read so far (reversed). *)
Inductive scan_mode := Word (cur : text) | Value (key val : text).

Fixpoint find_fields (m : scan_mode) (s : text) : list (text * text) :=
  match s with
  | [] => []
  | c :: s' =>
      match m with
      | Word cur =>
          if is_word c then find_fields (Word (c :: cur)) s'
          else if (c =? 40)%N && negb (bool_decide (cur = []))
          then find_fields (Value (rev cur) []) s'
          else find_fields (Word []) s'
      | Value k v =>
          if (c =? 41)%N then (k, rev v) :: find_fields (Word []) s'
          else find_fields (Value k (c :: v)) s'
      end
  end.

(** [_fields]. *)
Definition fields (line : text) : list (text * text) := dict_of id (find_fields (Word []) line).

(** [_int_or_none]. *)
Definition int_or_none (v : option text) : option Z := s ← v; int_of_text s.

(** ** dspmq -o nativeha -x *)

Record HaInstance := mk_inst { hi_role : text; hi_insync : bool; hi_hastatus : text }.

Record Hax := mk_hax {
  hx_current : option Z; hx_total : option Z; hx_group_role : option text;
  hx_instances : list (text * HaInstance)
}.

Definition UNKNOWN : text := u "Unknown".

(** One line of [parse_nativeha_x]. *)
Definition x_line (h : Hax) (line : text) : Hax :=
  let f := fields line in
  match f with
  | [] => h
  | _ =>
      match dget f (u "QUORUM") with
      | Some q =>
          let '(cur, total) := match cut 47 q with Some (a, b) => (a, b) | None => (q, []) end in
          mk_hax (int_of_text cur) (int_of_text total) (dget f (u "GRPROLE")) (hx_instances h)
      | None =>
          match dget f (u "INSTANCE"), dget f (u "ROLE") with
          | Some i, Some role =>
              mk_hax (hx_current h) (hx_total h) (hx_group_role h)
                (dset (hx_instances h) i
                   (mk_inst role (bool_decide (dget f (u "INSYNC") = Some (u "yes")))
                      (dget_or f (u "HASTATUS") UNKNOWN)))
          | _, _ => h
          end
      end
  end.

Definition parse_nativeha_x (out : text) : Hax :=
  foldl x_line (mk_hax None None None []) (splitlines out).

(** ** dspmq -o nativeha -g *)

Record HaGroup := mk_group {
  hg_role : text; hg_status : text; hg_connected : option bool; hg_insync : option bool;
  hg_backlog : option Z
}.

(** [_yn]. *)
Definition yn (f : list (text * text)) (key : text) : option bool :=
  (λ v, bool_decide (v = u "yes")) <$> dget f key.

Definition g_line (groups : list (text * HaGroup)) (line : text) : list (text * HaGroup) :=
  let f := fields line in
  match dget f (u "GRPNAME") with
  | Some name =>
      if dmem (u "QUORUM") f then groups
      else dset groups name
             (mk_group (dget_or f (u "GRPROLE") UNKNOWN) (dget_or f (u "GRSTATUS") UNKNOWN)
                (yn f (u "CONNGRP")) (yn f (u "INSYNC")) (int_or_none (dget f (u "BACKLOG"))))
  | None => groups
  end.

Definition parse_nativeha_g (out : text) : list (text * HaGroup) := foldl g_line [] (splitlines out).

(** ** Metrics *)

Definition ROLE_CODE : list (text * Z) := [(u "Active", 2%Z); (u "Leader", 3%Z); (u "Replica", 1%Z)].

Definition option_sample (o : option sample) : list sample :=
  match o with Some s => [s] | None => [] end.

Section render.
Context (node qm : text).

Definition n_labels : list (text * text) := [(u "node", node)].

Definition quorum_samples (h : Hax) : list sample :=
  match hx_current h, hx_total h with
  | Some cur, Some total =>
      let majority := (total / 2 + 1)%Z in
      [flag (u "cluster_quorate") n_labels (majority <=? cur)%Z;
       mk_sample (u "cluster_nha_quorum") n_labels (VInt cur)]
  | _, _ => []
  end.

Definition instance_samples (mi : text * HaInstance) : list sample :=
  let '(member, st) := mi in
  let base := n_labels ++ [(u "member", member)] in
  [flag (u "cluster_node_online") base (negb (bool_decide (hi_role st = UNKNOWN)));
   flag (u "cluster_nha_role") (base ++ [(u "role", hi_role st)]) true;
   mk_sample (u "cluster_nha_role_code") base (VInt (dget_or ROLE_CODE (hi_role st) 0%Z));
   flag (u "cluster_nha_insync") base (hi_insync st);
   flag (u "cluster_nha_hastatus") (base ++ [(u "status", hi_hastatus st)]) true;
   flag (u "cluster_nha_hastatus_ok") base (bool_decide (hi_hastatus st = u "Normal"))]
  ++ (if bool_decide (hi_role st = u "Active")
      then [flag (u "cluster_resource_owner")
              (n_labels ++ [(u "resource", qm); (u "holder", member)]) true]
      else []).

Definition group_samples (ng : text * HaGroup) : list sample :=
  let '(name, g) := ng in
  let base := n_labels ++ [(u "group", name)] in
  [flag (u "cluster_nha_group_role") (base ++ [(u "role", hg_role g)]) true;
   flag (u "cluster_nha_group_status") (base ++ [(u "status", hg_status g)]) true]
  ++ option_sample (flag (u "cluster_nha_connected") base <$> hg_connected g)
  ++ option_sample (flag (u "cluster_nha_group_insync") base <$> hg_insync g)
  ++ option_sample ((λ b, mk_sample (u "cluster_nha_group_backlog") base (VInt b)) <$> hg_backlog g).

Definition fresh_sample (now : Z) (source : text) : sample :=
  mk_sample (u "cluster_state_last_write_timestamp") (n_labels ++ [(u "source", source)]) (VInt now).

(** The samples of [render_nativeha_state_prom]. *)
Definition nativeha_samples (hax : option Hax) (grp : option (list (text * HaGroup))) (now : Z)
    (fresh : list text) : list sample :=
  (match hax with
   | Some h => quorum_samples h ++ (hx_instances h ≫= instance_samples)
   | None => []
   end)
  ++ (match grp with Some g => g ≫= group_samples | None => [] end)
  ++ (fresh_sample now <$> fresh).
End render.

(** ** One collection *)

Definition dspmq_commands (qm : text) : list (text * (list text * Z)) :=
  let dspmq := u "/opt/mqm/bin/dspmq -m " ++ qm ++ u " -o nativeha" in
  [(u "nativeha_x", ([u "su"; u "-"; u "mqm"; u "-c"; dspmq ++ u " -x"], 3%Z));
   (u "nativeha_g", ([u "su"; u "-"; u "mqm"; u "-c"; dspmq ++ u " -g"], 3%Z))].

(** [probe]: the standard output of a run that ended in time with code 0. *)
Inductive probe_run := TimedOut | OSFailed | Exited (code : Z) (out : text).

Definition probe (r : probe_run) : option text :=
  match r with Exited 0 out => Some out | _ => None end.

(** The samples of one [collect]: [x] and [g] are the runs of the two commands. *)
Definition collect_samples (node qm : text) (now : Z) (x g : probe_run) : list sample :=
  nativeha_samples node qm (parse_nativeha_x <$> probe x) (parse_nativeha_g <$> probe g) now
    ((if probe x is Some _ then [u "nativeha_x"] else []) ++ (if probe g is Some _ then [u "nativeha_g"] else [])).

(** [collect]: [None] would be an exception. *)
Definition collect (node qm : text) (now : Z) (x g : probe_run) : option text :=
  body (collect_samples node qm now x g).

(** ** Lemmas on tokens *)

(** Tokens with what stands before each. *)
Definition print_tokens (toks : list (text * (text * text))) : text :=
  toks ≫= λ t, t.1 ++ t.2.1 ++ 40%N :: t.2.2 ++ [41%N].

(** Keys of word characters, values without a closing parenthesis, other characters in
    between, and no line break anywhere. *)
Definition token_ok (t : text * (text * text)) : Prop :=
  Forall (λ c, is_word c = false) t.1 ∧ Forall (λ c, is_word c = true) t.2.1 ∧ t.2.1 ≠ [] ∧
  (41%N ∉ t.2.2) ∧ Forall (λ c, is_linebreak c = false) (t.1 ++ t.2.1 ++ t.2.2).

Lemma find_fields_sep sep rest :
  Forall (λ c, is_word c = false) sep →
  find_fields (Word []) (sep ++ rest) = find_fields (Word []) rest.
Proof.
  induction 1 as [|c sep Hc _ IH]; [done|]. cbn [app find_fields]. rewrite Hc.
  rewrite bool_decide_eq_true_2 by done. by rewrite andb_false_r.
Qed.

Lemma find_fields_key k cur rest :
  Forall (λ c, is_word c = true) k →
  find_fields (Word cur) (k ++ rest) = find_fields (Word (rev k ++ cur)) rest.
Proof.
  intros Hk. revert cur. induction Hk as [|c k Hc _ IH]; intros cur; [done|].
  cbn [app find_fields]. rewrite Hc, IH. simpl. by rewrite <-app_assoc.
Qed.

Lemma find_fields_value v k acc rest :
  41%N ∉ v →
  find_fields (Value k acc) (v ++ 41%N :: rest) = (k, rev acc ++ v) :: find_fields (Word []) rest.
Proof.
  revert acc. induction v as [|c v IH]; intros acc Hv; cbn [app find_fields].
  { by rewrite app_nil_r. }
  apply not_elem_of_cons in Hv as [Hc Hv]. destruct (N.eqb_spec c 41); [congruence|].
  rewrite IH by done. simpl. by rewrite <-app_assoc.
Qed.

Lemma find_fields_print toks :
  Forall token_ok toks → find_fields (Word []) (print_tokens toks) = toks.*2.
Proof.
  induction 1 as [|[sep [k v]] toks (Hs & Hk & Hne & Hv & _) _ IH]; [done|].
  unfold print_tokens in *. cbn [fst snd] in *. csimpl. rewrite <-!app_assoc.
  rewrite find_fields_sep, find_fields_key, app_nil_r by done.
  cbn [app find_fields]. replace (is_word 40) with false by done.
  rewrite bool_decide_eq_false_2 by (rewrite <-(rev_involutive k) in Hne; intros Hk0; by rewrite Hk0 in Hne).
  cbn [N.eqb Pos.eqb negb andb]. rewrite rev_involutive, <-app_assoc. cbn [app].
  rewrite find_fields_value by done. by rewrite IH.
Qed.

Lemma fields_print toks : Forall token_ok toks → fields (print_tokens toks) = dict_of id (toks.*2).
Proof. intros Ht. unfold fields. by rewrite find_fields_print. Qed.

Lemma print_tokens_line toks :
  Forall token_ok toks → Forall (λ c, is_linebreak c = false) (print_tokens toks).
Proof.
  induction 1 as [|[sep [k v]] toks (_ & _ & _ & _ & Hl) _ IH]; [done|]. unfold print_tokens in *.
  cbn [fst snd] in *. csimpl. rewrite !Forall_app in Hl. destruct Hl as (Hs & Hk & Hv).
  rewrite !Forall_app, Forall_cons, Forall_app. by repeat constructor.
Qed.

Lemma lines_of_rows rows :
  Forall (Forall token_ok) rows →
  splitlines (concat ((λ r, print_tokens r ++ [10%N]) <$> rows)) = print_tokens <$> rows.
Proof.
  intros Hr. rewrite <-(splitlines_concat (print_tokens <$> rows)).
  - by rewrite <-list_fmap_compose.
  - apply Forall_fmap. eapply Forall_impl; [exact Hr|]. apply print_tokens_line.
Qed.

(** An instance row and what it says. *)
Definition instance_row (row : list (text * (text * text))) (mi : text * HaInstance) : Prop :=
  let f := dict_of id row.*2 in
  dget f (u "QUORUM") = None ∧ dget f (u "INSTANCE") = Some mi.1 ∧
  dget f (u "ROLE") = Some (hi_role mi.2) ∧
  (hi_insync mi.2 = true ↔ dget f (u "INSYNC") = Some (u "yes")) ∧
  hi_hastatus mi.2 = dget_or f (u "HASTATUS") UNKNOWN.

Lemma x_line_instance h row mi :
  Forall token_ok row → instance_row row mi →
  x_line h (print_tokens row) =
    mk_hax (hx_current h) (hx_total h) (hx_group_role h) (dset (hx_instances h) mi.1 mi.2).
Proof.
  intros Hr (Hq & Hi & Hro & Hin & Hst). unfold x_line. rewrite fields_print by done.
  set (f := dict_of id row.*2) in *. destruct f as [|kv f']; [done|].
  rewrite Hq, Hi, Hro. destruct mi as [m [role insync hastatus]]. simpl in *. subst hastatus.
  do 2 f_equal. f_equal. destruct insync; [apply bool_decide_eq_true; tauto|].
  apply bool_decide_eq_false. intros Hy. by apply Hin in Hy.
Qed.

Lemma x_lines_instances h rows insts :
  Forall (Forall token_ok) rows → Forall2 instance_row rows insts →
  NoDup ((hx_instances h).*1 ++ insts.*1) →
  foldl x_line h (print_tokens <$> rows) =
    mk_hax (hx_current h) (hx_total h) (hx_group_role h) (hx_instances h ++ insts).
Proof.
  intros Hok Hrows. revert h Hok. induction Hrows as [|row mi rows insts Hrow Hrows IH]; intros h Hok Hnd.
  { simpl. rewrite app_nil_r. by destruct h. }
  apply Forall_cons in Hok as [Hr Hok]. rewrite fmap_cons. cbn [foldl].
  rewrite (x_line_instance _ _ _ Hr Hrow). rewrite dset_keys_new.
  - rewrite IH; cbn [hx_instances hx_current hx_total hx_group_role]; [|done|].
    + destruct mi. by rewrite <-app_assoc.
    + rewrite fmap_app, <-app_assoc. exact Hnd.
  - apply NoDup_app in Hnd as (_ & Hnd & _). intros Hin. eapply Hnd; [done|by left].
Qed.
End nativeha.

(** ** Properties *)

Section properties.
Context `{FT : FloatText} (uword : N → bool).

(** Every number of the metrics can be written. *)
Lemma parsed_numbers_x out :
  let h := parse_nativeha_x uword out in
  ∀ z, hx_current h = Some z ∨ hx_total h = Some z → is_Some (str_int z).
Proof.
  simpl. unfold parse_nativeha_x. generalize (splitlines out).
  assert (∀ ls h, (∀ z, hx_current h = Some z ∨ hx_total h = Some z → is_Some (str_int z)) →
    let h' := foldl (x_line uword) h ls in
    ∀ z, hx_current h' = Some z ∨ hx_total h' = Some z → is_Some (str_int z)) as Hall.
  { induction ls as [|line ls IH]; intros h Hh; [done|]. apply IH. unfold x_line.
    destruct (fields uword line); [done|].
    destruct (dget _ (u "QUORUM")) as [q|].
    - destruct (cut 47 q) as [[a b]|]; simpl; intros z [Hz|Hz]; by eapply str_int_of_text.
    - by repeat case_match. }
  intros ls. apply Hall. by intros z [?|?].
Qed.

Lemma parsed_numbers_g out name g z :
  (name, g) ∈ parse_nativeha_g uword out → hg_backlog g = Some z → is_Some (str_int z).
Proof.
  unfold parse_nativeha_g. generalize (splitlines out).
  assert (∀ ls groups, (∀ name g z, (name, g) ∈ groups → hg_backlog g = Some z → is_Some (str_int z)) →
    ∀ name g z, (name, g) ∈ foldl (g_line uword) groups ls → hg_backlog g = Some z →
      is_Some (str_int z)) as Hall.
  { induction ls as [|line ls IH]; intros groups Hg; [done|]. apply IH. unfold g_line.
    destruct (dget _ (u "GRPNAME")) as [n|]; [|done]. destruct (dmem _ _); [done|].
    intros name' g' z' [Heq|Hin]%elem_of_dset Hz; [|by eapply Hg]. injection Heq as -> ->.
    simpl in Hz. unfold int_or_none in Hz. destruct (dget _ (u "BACKLOG")); [|done].
    by eapply str_int_of_text. }
  intros ls. by apply Hall; intros ???[]%elem_of_nil.
Qed.

(** The collector never raises on what dspmq prints: whatever text the two probes
    give, and whether or not they run, there is a body to write. *)
Theorem nativeha_never_raises node qm now x g :
  is_Some (str_int now) → is_Some (collect uword node qm now x g).
Proof.
  intros Hnow. apply body_total. unfold collect_samples, nativeha_samples. rewrite !Forall_app.
  assert (∀ name l b, is_Some (value_text (sm_value (flag name l b)))) as Hflag
    by (intros name l []; by eexists).
  split_and!.
  - destruct (probe x) as [out|]; simpl; [|constructor].
    apply Forall_app. split.
    + pose proof (parsed_numbers_x out) as Hn. unfold quorum_samples.
      destruct (hx_current _) as [cur|] eqn:Hc; [|constructor].
      destruct (hx_total _); [|constructor].
      rewrite !Forall_cons. split_and!; [apply Hflag| |constructor]. simpl. apply Hn. by left.
    + apply Forall_bind, Forall_forall. intros [m st] _. unfold compose, instance_samples.
      apply Forall_app. rewrite !Forall_cons. split_and!; try apply Forall_nil; try apply Hflag; try done.
      * simpl. unfold dget_or, ROLE_CODE. simpl. repeat case_match; by eexists.
      * case_match; [|constructor]. apply Forall_singleton, Hflag.
  - destruct (probe g) as [out|]; simpl; [|constructor].
    apply Forall_bind, Forall_forall. intros [n gr] Hin. unfold compose, group_samples.
    rewrite !Forall_app, !Forall_cons. split_and!; try apply Forall_nil; try apply Hflag; try done.
    + destruct (hg_connected gr); [apply Forall_singleton, Hflag|constructor].
    + destruct (hg_insync gr); [apply Forall_singleton, Hflag|constructor].
    + destruct (hg_backlog gr) eqn:Hb; [apply Forall_singleton|constructor]. by eapply parsed_numbers_g.
  - apply Forall_fmap, Forall_true. by intros s.
Qed.

(** The names of the samples a part of the metrics may hold. *)
Definition X_NAMES : list text :=
  [u "cluster_quorate"; u "cluster_nha_quorum"; u "cluster_node_online"; u "cluster_nha_role";
   u "cluster_nha_role_code"; u "cluster_nha_insync"; u "cluster_nha_hastatus";
   u "cluster_nha_hastatus_ok"; u "cluster_resource_owner"].

Definition OTHER_NAMES : list text :=
  [u "cluster_nha_group_role"; u "cluster_nha_group_status"; u "cluster_nha_connected";
   u "cluster_nha_group_insync"; u "cluster_nha_group_backlog";
   u "cluster_state_last_write_timestamp"].

Lemma group_names node ng s : s ∈ group_samples node ng → sm_name s ∈ take 5 OTHER_NAMES.
Proof.
  destruct ng as [name g]. unfold group_samples. rewrite !elem_of_app.
  intros [H|[H|[H|H]]].
  - rewrite !elem_of_cons, elem_of_nil in H. destruct_or! H; subst; [left|right; left].
  - destruct (hg_connected g); simpl in H; [|by apply elem_of_nil in H].
    apply list_elem_of_singleton in H as ->. by do 2 right; left.
  - destruct (hg_insync g); simpl in H; [|by apply elem_of_nil in H].
    apply list_elem_of_singleton in H as ->. by do 3 right; left.
  - destruct (hg_backlog g); simpl in H; [|by apply elem_of_nil in H].
    apply list_elem_of_singleton in H as ->. by do 4 right; left.
Qed.

Lemma names_apart n : n ∈ X_NAMES → n ∉ OTHER_NAMES.
Proof.
  intros Hn Ho. assert (forallb (λ n, negb (bool_decide (n ∈ OTHER_NAMES))) X_NAMES = true) as Hall
    by (by vm_compute).
  rewrite forallb_forall in Hall. specialize (Hall n (proj1 (list_elem_of_In _ _) Hn)).
  by rewrite bool_decide_eq_true_2 in Hall.
Qed.

(** A sample of the [-x] part is in a collection exactly when it is in that part. *)
Lemma elem_of_x_part node qm hax grp now fresh s :
  sm_name s ∈ X_NAMES →
  s ∈ nativeha_samples node qm hax grp now fresh ↔
  ∃ h, hax = Some h ∧ (s ∈ quorum_samples node h ∨
    ∃ mi, mi ∈ hx_instances h ∧ s ∈ instance_samples node qm mi).
Proof.
  intros Hs%names_apart. unfold nativeha_samples. rewrite !elem_of_app. split.
  - intros [H|[H|H]].
    + destruct hax as [h|]; [|by apply elem_of_nil in H]. exists h. split; [done|].
      apply elem_of_app in H as [?|(mi & ? & ?)%list_elem_of_bind]; [by left|right; eauto].
    + destruct grp as [g|]; [|by apply elem_of_nil in H].
      apply list_elem_of_bind in H as (ng & H & _). apply group_names in H.
      exfalso. apply Hs. by eapply subseteq_take.
    + apply list_elem_of_fmap in H as (src & -> & _). exfalso. apply Hs. by do 5 right; left.
  - intros (h & -> & H). left. apply elem_of_app. destruct H as [?|(mi & ? & ?)]; [by left|].
    right. apply list_elem_of_bind. eauto.
Qed.

Lemma x_names node qm h s :
  s ∈ quorum_samples node h ++ (hx_instances h ≫= instance_samples node qm) → sm_name s ∈ X_NAMES.
Proof.
  intros [H|([m st] & H & _)%list_elem_of_bind]%elem_of_app.
  - unfold quorum_samples in H. repeat case_match; try by apply elem_of_nil in H.
    rewrite !elem_of_cons, elem_of_nil in H. destruct_or! H; subst; [left|right; left].
  - unfold instance_samples in H. apply elem_of_app in H as [H|H].
    + rewrite !elem_of_cons, elem_of_nil in H.
      destruct_or! H; subst; by apply (bool_decide_unpack _); vm_compute.
    + case_match; [|by apply elem_of_nil in H]. apply list_elem_of_singleton in H as ->.
      by apply (bool_decide_unpack _); vm_compute.
Qed.

Lemma elem_of_timestamp node qm hax grp now fresh source :
  fresh_sample node now source ∈ nativeha_samples node qm hax grp now fresh ↔ source ∈ fresh.
Proof.
  assert (sm_name (fresh_sample node now source) ∉ X_NAMES ++ take 5 OTHER_NAMES) as Hno
    by (apply (bool_decide_unpack _); by vm_compute).
  unfold nativeha_samples. rewrite !elem_of_app. split.
  - rewrite elem_of_app in Hno. intros [H|[H|H]].
    + destruct hax as [h|]; [|by apply elem_of_nil in H]. apply x_names in H. tauto.
    + destruct grp as [g|]; [|by apply elem_of_nil in H].
      apply list_elem_of_bind in H as (ng & H & _). apply group_names in H. tauto.
    + apply list_elem_of_fmap in H as (src & Heq & Hin). by injection Heq as ->.
  - intros H. right. right. by apply list_elem_of_fmap_2.
Qed.

Lemma flag_inj name l b c : flag name l b = flag name l c → b = c.
Proof. by destruct b, c. Qed.

Lemma majority_flag cur total :
  (total / 2 + 1 <=? cur)%Z = bool_decide (total < 2 * cur)%Z.
Proof.
  apply eq_true_iff_eq. rewrite Z.leb_le, bool_decide_eq_true.
  pose proof (Z.div_mod total 2 ltac:(lia)). pose proof (Z.mod_pos_bound total 2 ltac:(lia)). lia.
Qed.

(** What the Native HA metrics say: the samples of a collection whose [-x] probe ran
    hold an ownership sample for exactly the instances in role Active, a quorum flag
    exactly when both numbers were read, set exactly when more than half of the total is
    present, and a timestamp for exactly the sources that ran; without that probe they
    hold no quorum, instance or ownership sample at all. *)
Theorem nativeha_metrics_sound node qm now x g :
  let l := collect_samples uword node qm now x g in
  (∀ h, parse_nativeha_x uword <$> probe x = Some h →
     (∀ holder, flag (u "cluster_resource_owner")
         [(u "node", node); (u "resource", qm); (u "holder", holder)] true ∈ l ↔
       ∃ st, (holder, st) ∈ hx_instances h ∧ hi_role st = u "Active") ∧
     (∀ b, flag (u "cluster_quorate") [(u "node", node)] b ∈ l ↔
       ∃ cur total, hx_current h = Some cur ∧ hx_total h = Some total ∧
         b = bool_decide (total < 2 * cur)%Z)) ∧
  (∀ source, fresh_sample node now source ∈ l ↔
     (source = u "nativeha_x" ∧ is_Some (probe x)) ∨ (source = u "nativeha_g" ∧ is_Some (probe g))) ∧
  (probe x = None → ∀ s, s ∈ l → sm_name s ∉ X_NAMES).
Proof.
  intros l. split_and!.
  - intros h Hh. unfold l, collect_samples. rewrite Hh. split.
    + intros holder. rewrite elem_of_x_part by (by apply (bool_decide_unpack _); vm_compute). split.
      * intros (h' & [= <-] & [H|([m st] & Hin & H)]).
        { unfold quorum_samples in H. repeat case_match; try by apply elem_of_nil in H.
          rewrite !elem_of_cons, elem_of_nil in H. by destruct_or! H. }
        unfold instance_samples in H. apply elem_of_app in H as [H|H].
        { rewrite !elem_of_cons, elem_of_nil in H. by destruct_or! H. }
        case_bool_decide as Hr; [|by apply elem_of_nil in H].
        apply list_elem_of_singleton in H. injection H as ->. eauto.
      * intros (st & Hin & Hr). exists h. split; [done|]. right. exists (holder, st). split; [done|].
        unfold instance_samples. apply elem_of_app. right. rewrite bool_decide_eq_true_2 by done. by left.
    + intros b. rewrite elem_of_x_part by (by apply (bool_decide_unpack _); vm_compute). split.
      * intros (h' & [= <-] & [H|([m st] & Hin & H)]).
        { unfold quorum_samples in H. destruct (hx_current h) as [cur|]; [|by apply elem_of_nil in H].
          destruct (hx_total h) as [total|]; [|by apply elem_of_nil in H].
          rewrite !elem_of_cons, elem_of_nil in H. destruct H as [H|[H|[]]]; [|done].
          exists cur, total. split_and!; [done..|].
          rewrite <-majority_flag. by eapply flag_inj. }
        exfalso. unfold instance_samples in H. apply elem_of_app in H as [H|H].
        { rewrite !elem_of_cons, elem_of_nil in H. by destruct_or! H. }
        case_bool_decide; [|by apply elem_of_nil in H]. by apply list_elem_of_singleton in H.
      * intros (cur & total & Hc & Ht & ->). exists h. split; [done|]. left.
        unfold quorum_samples. rewrite Hc, Ht, <-majority_flag. left.
  - intros source. unfold l, collect_samples. rewrite elem_of_timestamp, elem_of_app.
    destruct (probe x), (probe g); rewrite ?list_elem_of_singleton, ?elem_of_nil; naive_solver.
  - intros Hx s Hs Hn. unfold l, collect_samples in Hs. rewrite Hx in Hs.
    apply elem_of_x_part in Hs as (h & [=] & _). done.
Qed.

(** The [-x] parser reads a dspmq report exactly: a summary line with QUORUM(a/b) and
    one line per instance, each a row of KEY(value) tokens in any order with any other
    tokens among them, give the two numbers, the group role and, in order, every
    instance with its role, its INSYNC flag and its HASTATUS. *)
Theorem nativeha_x_exact qrow a b rows insts :
  Forall (Forall (token_ok uword)) (qrow :: rows) →
  dget (dict_of id qrow.*2) (u "QUORUM") = Some (a ++ 47%N :: b) → (47%N ∉ a) →
  Forall2 instance_row rows insts → NoDup insts.*1 →
  parse_nativeha_x uword (concat ((λ r, print_tokens r ++ [10%N]) <$> qrow :: rows)) =
    mk_hax (int_of_text a) (int_of_text b) (dget (dict_of id qrow.*2) (u "GRPROLE")) insts.
Proof.
  intros Hok Hq Ha Hrows Hnd. unfold parse_nativeha_x. rewrite (lines_of_rows uword) by done.
  apply Forall_cons in Hok as [Hqok Hok]. rewrite fmap_cons. cbn [foldl].
  unfold x_line at 2. rewrite (fields_print uword) by done.
  destruct (dict_of id qrow.*2) as [|kv f] eqn:Hf; [done|]. rewrite Hq, cut_app by done.
  by rewrite (x_lines_instances uword _ rows insts).
Qed.
End properties.

(** ** Witnesses: one live group of three *)

Definition demo_token (kv : string * string) : text * (text * text) :=
  (u " ", (u kv.1, u kv.2)).

Definition demo_row (l : list (string * string)) : list (text * (text * text)) := demo_token <$> l.

Definition demo_quorum_row := demo_row
  [("QMNAME", "NHARCAPP"); ("ROLE", "Active"); ("INSTANCE", "nha-a1"); ("QUORUM", "2/3");
   ("GRPNAME", "alpha"); ("GRPROLE", "Live")]%string.

Definition demo_rows := demo_row <$>
  [[("INSTANCE", "nha-a1"); ("ROLE", "Active"); ("INSYNC", "yes"); ("HASTATUS", "Normal")];
   [("INSTANCE", "nha-a2"); ("ROLE", "Replica"); ("INSYNC", "no"); ("HASTATUS", "Synchronizing")];
   [("INSTANCE", "nha-a3"); ("ROLE", "Unknown"); ("HASTATUS", "Unknown")]]%string.

Definition demo_instances : list (text * HaInstance) :=
  [(u "nha-a1", mk_inst (u "Active") true (u "Normal"));
   (u "nha-a2", mk_inst (u "Replica") false (u "Synchronizing"));
   (u "nha-a3", mk_inst (u "Unknown") false (u "Unknown"))].

Definition demo_x_out : text :=
  concat ((λ r, print_tokens r ++ [10%N]) <$> demo_quorum_row :: demo_rows).

Lemma nativeha_x_exact_witness :
  parse_nativeha_x (λ _, false) demo_x_out =
    mk_hax (Some 2%Z) (Some 3%Z) (Some (u "Live")) demo_instances.
Proof.
  apply (nativeha_x_exact (λ _, false) demo_quorum_row (u "2") (u "3") demo_rows demo_instances).
  - apply (bool_decide_unpack _). by vm_compute.
  - by vm_compute.
  - apply (bool_decide_unpack _). by vm_compute.
  - repeat (constructor; [split_and!; by vm_compute|]). constructor.
  - apply (bool_decide_unpack _). by vm_compute.
Defined.

Lemma nativeha_never_raises_witness :
  is_Some (collect (λ _, false) (u "nha-a1") (u "NHARCAPP") 1700000000
             (Exited 0 (u "QUORUM(Unknown) INSTANCE(x")) (Exited 0 (u "GRPNAME(b) BACKLOG(Unknown)"))).
Proof. apply (nativeha_never_raises (λ _, false)). by eexists. Defined.

Lemma nativeha_metrics_sound_witness :
  let l := collect_samples (λ _, false) (u "nha-a1") (u "NHARCAPP") 1700000000
             (Exited 0 demo_x_out) TimedOut in
  flag (u "cluster_quorate") [(u "node", u "nha-a1")] true ∈ l ∧
  fresh_sample (u "nha-a1") 1700000000 (u "nativeha_g") ∉ l.
Proof.
  intros l. destruct (nativeha_metrics_sound (λ _, false) (u "nha-a1") (u "NHARCAPP") 1700000000
    (Exited 0 demo_x_out) TimedOut) as (Hx & Hf & _). split.
  - apply (Hx _ eq_refl). exists 2%Z, 3%Z. by vm_compute.
  - unfold l. rewrite Hf. intros [[Hs _]|[_ [? Hg]]]; [by vm_compute in Hs|done].
Defined.
