(* ===== verification/LogLifecycle.v ===== *)
(** * The log lifecycle collector

    Models mqro/loglifecycle.py: the readers of [df -P] and of the extent directory, the
    role label taken from the Native HA parser, the metrics and one collection. The three
    probes' outputs are input, [str.lower] outside ASCII and the word characters of [re]
    above ASCII are parameters; the textfile write of [main] is left out. *)

From S2P Require Import Prelude PyText PyCodec PyDict PyFloat PyJson JsonRoundTrip Prom NativeHa.

(** ** parse_disk *)

Record Disk := mk_disk { used_bytes : option Z; total_bytes : option Z }.

Definition NO_DISK : Disk := mk_disk None None.

(** [int(fields[-i])] on the reversed fields; [None] is the IndexError or ValueError. *)
Definition int_field (rev_fields : list text) (i : nat) : option Z :=
  f ← rev_fields !! (i - 1); int_of_text f.

Definition parse_disk (df_out : text) : Disk :=
  match rev (filter (λ ln, strip ln ≠ []) (splitlines df_out)) with
  | row :: _ :: _ =>
      let fields := rev (split_ws row) in
      match int_field fields 5, int_field fields 4 with
      | Some total, Some used => mk_disk (Some (used * 1024)%Z) (Some (total * 1024)%Z)
      | _, _ => NO_DISK
      end
  | _ => NO_DISK
  end.

(** ** count_extents *)

Definition is_decimal (c : N) : bool := bool_decide (is_Some (decimal_digit c)).

(** The group [S] or [R] that [_EXTENT] matches in a stripped name. *)
Definition extent_group (name : text) : option N :=
  match name with
  | c :: d :: s =>
      if ((c =? 83) || (c =? 82))%N && is_decimal d
         && bool_decide (lstrip_by is_decimal s = u ".LOG")
      then Some c else None
  | _ => None
  end.

Definition count_extent (n : Z * Z) (name : text) : Z * Z :=
  match extent_group (strip name) with
  | None => n
  | Some c => if (c =? 83)%N then (n.1 + 1, n.2)%Z else (n.1, n.2 + 1)%Z
  end.

(** The counts of active and inactive extents. *)
Definition count_extents (listing : list text) : Z * Z := foldl count_extent (0, 0)%Z listing.

Section loglifecycle.
Context `{FT : FloatText} (uword : N → bool) (lower : text → text).

Definition instance_role (dspmq_x_out inst : text) : text :=
  match dget (hx_instances (parse_nativeha_x uword dspmq_x_out)) inst with
  | Some st => lower (hi_role st)
  | None => u "unknown"
  end.

(** ** render_prom *)

Record LogRow := mk_logrow {
  lr_qm : text; lr_instance : text; lr_role : text;
  lr_used : option Z; lr_total : option Z; lr_active : option Z; lr_inactive : option Z;
  lr_stale : bool
}.

Definition log_labels (r : LogRow) : list (text * text) :=
  [(u "qm", lr_qm r); (u "instance", lr_instance r); (u "role", lr_role r)].

(** A value metric, written only when there is a value. *)
Definition value_sample (name : text) (labels : list (text * text)) (v : option Z) : list sample :=
  option_sample ((λ z, mk_sample name labels (VInt z)) <$> v).

Definition log_samples (r : LogRow) : list sample :=
  value_sample (u "mqlab_log_disk_used_bytes") (log_labels r) (lr_used r)
  ++ value_sample (u "mqlab_log_disk_total_bytes") (log_labels r) (lr_total r)
  ++ value_sample (u "mqlab_log_extents_active") (log_labels r) (lr_active r)
  ++ value_sample (u "mqlab_log_extents_inactive") (log_labels r) (lr_inactive r)
  ++ [flag (u "mqlab_log_sample_stale") (log_labels r) (lr_stale r)].

(** ** collect *)

Definition LOG_ROOT : text := u "/var/mqm/log".

(** [_commands], for the queue manager's directory under [log_root]. *)
Definition log_commands (qm log_root : text) : list (text * (list text * Z)) :=
  let log_dir := log_root ++ u "/" ++ qm in
  let active_dir := log_dir ++ u "/active" in
  [(u "role", dget_or (dspmq_commands qm) (u "nativeha_x") ([], 0%Z));
   (u "disk", ([u "df"; u "-P"; log_dir], 3%Z));
   (u "extents", ([u "ls"; u "-1"; active_dir], 3%Z))].

Definition is_none {A} (o : option A) : bool := match o with None => true | Some _ => false end.

(** The row of one [collect], from the runs of the three commands. *)
Definition collect_row (inst qm : text) (role disk extents : probe_run) : LogRow :=
  let d := from_option parse_disk NO_DISK (probe disk) in
  let counts := (λ out, count_extents (splitlines out)) <$> probe extents in
  mk_logrow qm inst
    (from_option (λ out, instance_role out inst) (u "unknown") (probe role))
    (used_bytes d) (total_bytes d) (fst <$> counts) (snd <$> counts)
    (is_none (probe disk) || is_none (probe extents)).

(** [None] is the exception of a number too long to write. *)
Definition collect (inst qm : text) (role disk extents : probe_run) : option text :=
  body (log_samples (collect_row inst qm role disk extents)).
End loglifecycle.

(** ** Lemmas *)

(** The data row of [df -P]: any words before the five columns that are read from the
    right, the blocks as decimal numbers. *)
Definition df_row (pre : list text) (total used : Z) (avail capacity mount : text) : list text :=
  pre ++ [Z_text total; Z_text used; avail; capacity; mount].

Lemma log_value_elem name name' labels labels' v z :
  mk_sample name labels (VInt z) ∈ value_sample name' labels' v ↔
    name = name' ∧ labels = labels' ∧ v = Some z.
Proof.
  unfold value_sample. destruct v as [z'|]; simpl; rewrite ?list_elem_of_singleton, ?elem_of_nil;
    split; [|naive_solver|done|naive_solver].
  intros Heq. by injection Heq as -> -> ->.
Qed.

Definition LOG_VALUES : list text :=
  [u "mqlab_log_disk_used_bytes"; u "mqlab_log_disk_total_bytes";
   u "mqlab_log_extents_active"; u "mqlab_log_extents_inactive"].

(** The value a row holds for the [i]-th metric. *)
Definition row_value (r : LogRow) (i : nat) : option Z :=
  ([lr_used r; lr_total r; lr_active r; lr_inactive r] !! i) ≫= id.

Lemma log_samples_values r i name z :
  LOG_VALUES !! i = Some name →
  mk_sample name (log_labels r) (VInt z) ∈ log_samples r ↔ row_value r i = Some z.
Proof.
  intros Hn. unfold log_samples. rewrite !elem_of_app, !log_value_elem, list_elem_of_singleton.
  unfold LOG_VALUES in Hn. assert (∀ b, mk_sample name (log_labels r) (VInt z) ≠
    flag (u "mqlab_log_sample_stale") (log_labels r) b) as Hflag.
  { intros b Heq. injection Heq as -> _. by do 4 (destruct i as [|i]; [by vm_compute in Hn|]). }
  pose proof (Hflag (lr_stale r)). unfold row_value.
  do 4 (destruct i as [|i]; [simpl in Hn; injection Hn as <-; split;
    [intros H'; destruct_or! H'; try done; by destruct H' as (? & ? & ?)|by auto 10]|]).
  done.
Qed.

Lemma log_samples_stale r labels b :
  flag (u "mqlab_log_sample_stale") labels b ∈ log_samples r ↔
    labels = log_labels r ∧ b = lr_stale r.
Proof.
  unfold log_samples. rewrite !elem_of_app. unfold flag at 1 2 3 4. rewrite !log_value_elem.
  rewrite list_elem_of_singleton. split.
  - intros [[? _]|[[? _]|[[? _]|[[? _]|H]]]]; try done.
    injection H as -> Hb. split; [done|]. by destruct b, (lr_stale r).
  - intros [-> ->]. tauto.
Qed.

(** ** Properties *)

(** [df -P] is read exactly: for a header line and one data row with any words before
    its five last columns, the parser gives the used and total blocks in bytes. *)
Theorem df_exact header pre total used avail capacity mount :
  strip header ≠ [] → Forall (λ c, is_linebreak c = false) header →
  Forall word_ok (pre ++ [avail; capacity; mount]) →
  is_Some (str_int total) → is_Some (str_int used) →
  parse_disk (concat ((λ l, l ++ [10%N]) <$>
      [header; str_join [32%N] (df_row pre total used avail capacity mount)])) =
    mk_disk (Some (used * 1024)%Z) (Some (total * 1024)%Z).
Proof.
  intros Hne Hh [Hpre Hpost]%Forall_app Ht Hu.
  assert (Forall word_ok (df_row pre total used avail capacity mount)) as Hrow.
  { unfold df_row. rewrite !Forall_cons in Hpost. destruct Hpost as (? & ? & ? & _). rewrite Forall_app, !Forall_cons.
    split_and!; auto using Z_text_word. }
  assert (strip (str_join [32%N] (df_row pre total used avail capacity mount)) ≠ []) as Hr.
  { unfold df_row. destruct pre as [|w pre]; cbn [app].
    - rewrite str_join_cons by done. apply strip_ne_word, Z_text_word.
    - rewrite str_join_cons by (by destruct pre). apply strip_ne_word. by inversion Hpre. }
  unfold parse_disk. rewrite splitlines_concat by (repeat constructor; by try apply join_words_line).
  rewrite !filter_cons, !decide_True, filter_nil by done. cbn [rev app].
  rewrite split_ws_join by done. unfold df_row, int_field. rewrite rev_app_distr.
  cbn [rev app lookup list_lookup Nat.sub mbind option_bind]. by rewrite !int_of_Z_text.
Qed.

Section properties.
Context `{FT : FloatText} (uword : N → bool) (lower : text → text).

(** The names [ls] printed that are extents of a group. *)
Definition extents_in (g : N) (listing : list text) : list text :=
  filter (λ n, extent_group (strip n) = Some g) listing.

Lemma extent_group_cases n g : extent_group n = Some g → g = 83%N ∨ g = 82%N.
Proof.
  unfold extent_group. destruct n as [|c [|d n]]; [done..|]. case_if; [|done].
  intros [= <-]. rewrite !andb_true_iff, orb_true_iff, !N.eqb_eq in Heqb. tauto.
Qed.

Lemma count_extents_spec listing :
  count_extents listing =
    (Z.of_nat (length (extents_in 83 listing)), Z.of_nat (length (extents_in 82 listing))).
Proof.
  unfold count_extents, extents_in. assert (∀ a b, foldl count_extent (a, b) listing =
    (a + Z.of_nat (length (filter (λ n, extent_group (strip n) = Some 83%N) listing)),
     b + Z.of_nat (length (filter (λ n, extent_group (strip n) = Some 82%N) listing)))%Z) as ->; [|done].
  induction listing as [|n l IH]; intros a b; [simpl; f_equal; lia|].
  cbn [foldl]. rewrite !filter_cons. unfold count_extent at 2. cbn [fst snd].
  destruct (extent_group (strip n)) as [g|] eqn:Hg.
  - destruct (extent_group_cases _ _ Hg) as [->| ->]; cbn [N.eqb Pos.eqb]; rewrite IH.
    + rewrite decide_True, decide_False by done. cbn [length]. f_equal; lia.
    + rewrite decide_False, decide_True by done. cbn [length]. f_equal; lia.
  - rewrite IH, !decide_False by done. done.
Qed.

(** What the log band shows: the stale flag is set exactly when one of the two file
    system probes did not run; the extent metrics are there exactly when the directory
    was listed, and count the S and the R extents of the listing; the disk metrics are
    there exactly when [df] ran and its row could be read, and never stand for anything
    else; and every sample carries the role dspmq gives this instance, or "unknown". *)
Theorem loglifecycle_sound inst qm role disk extents :
  let r := collect_row uword lower inst qm role disk extents in
  let l := log_samples r in
  (∀ labels b, flag (u "mqlab_log_sample_stale") labels b ∈ l ↔
     labels = log_labels r ∧ b = bool_decide (probe disk = None ∨ probe extents = None)) ∧
  (∀ i g name z, [83%N; 82%N] !! i = Some g → LOG_VALUES !! (2 + i) = Some name →
     (mk_sample name (log_labels r) (VInt z) ∈ l ↔
      ∃ out, probe extents = Some out ∧ z = Z.of_nat (length (extents_in g (splitlines out))))) ∧
  (∀ i name z, i < 2 → LOG_VALUES !! i = Some name →
     (mk_sample name (log_labels r) (VInt z) ∈ l ↔
      ∃ out, probe disk = Some out ∧
        [used_bytes (parse_disk out); total_bytes (parse_disk out)] !! i = Some (Some z))) ∧
  (lr_role r = u "unknown" ∨ ∃ out st, probe role = Some out ∧
     (inst, st) ∈ hx_instances (parse_nativeha_x uword out) ∧ lr_role r = lower (hi_role st)).
Proof.
  intros r l. split_and!.
  - intros labels b. unfold l. rewrite log_samples_stale. unfold r, collect_row. cbn [lr_stale].
    assert (is_none (probe disk) || is_none (probe extents) =
      bool_decide (probe disk = None ∨ probe extents = None)) as ->; [|done].
    apply eq_true_iff_eq. rewrite orb_true_iff, bool_decide_eq_true.
    unfold is_none. destruct (probe disk), (probe extents); naive_solver.
  - intros i g name z Hg Hn. unfold l. rewrite (log_samples_values r (2 + i)) by done.
    unfold row_value, r, collect_row. cbn [lr_active lr_inactive lr_used lr_total].
    destruct (probe extents) as [out|]; cbn [fmap option_fmap option_map].
    + rewrite count_extents_spec. destruct i as [|[|i]]; [..|done]; simpl in *; injection Hg as <-;
        (split; [intros Hz; injection Hz as <-; by eexists|by intros (? & [= <-] & ->)]).
    + destruct i as [|[|i]]; [..|done]; (split; [done|by intros (? & ? & _)]).
  - intros i name z Hi Hn. unfold l. rewrite (log_samples_values r i) by done.
    unfold row_value, r, collect_row. cbn [lr_active lr_inactive lr_used lr_total].
    destruct (probe disk) as [out|]; cbn [from_option].
    + destruct i as [|[|i]]; [..|lia]; simpl;
        (split; [intros Hz; eexists; by rewrite Hz|by intros (? & [= <-] & [= ->])]).
    + destruct i as [|[|i]]; [..|lia]; (split; [done|by intros (? & ? & _)]).
  - unfold r, collect_row. cbn [lr_role]. destruct (probe role) as [out|]; [|by left].
    cbn [from_option]. unfold instance_role.
    destruct (dget _ inst) as [st|] eqn:Hst; [|by left]. right. exists out, st.
    split_and!; [done|by apply dget_elem|done].
Qed.

(** A finding: [parse_disk] promises that a reading it cannot make sense of degrades the
    cell to STALE; such a sample loses its disk metrics and is still published as fresh. *)
Theorem garbled_disk_reads_fresh inst qm role out listing :
  parse_disk out = NO_DISK →
  let l := log_samples (collect_row uword lower inst qm role (Exited 0 out) (Exited 0 listing)) in
  ∃ labels, flag (u "mqlab_log_sample_stale") labels false ∈ l ∧
    ∀ z, mk_sample (u "mqlab_log_disk_used_bytes") labels (VInt z) ∉ l.
Proof.
  intros Hd. cbn zeta. set (r := collect_row _ _ _ _ _ _ _). exists (log_labels r). split.
  - by apply log_samples_stale.
  - intros z. rewrite (log_samples_values r 0) by done. unfold row_value, r, collect_row. simpl.
    by rewrite Hd.
Qed.
End properties.

(** ** Witnesses *)

Definition demo_df : text :=
  concat ((λ l, l ++ [10%N]) <$>
    [u "Filesystem     1024-blocks    Used Available Capacity Mounted on";
     str_join [32%N] (df_row [u "/dev/vda1"] 20961280 5242880 (u "15718400") (u "26%") (u "/"))]).

Lemma df_exact_witness :
  parse_disk demo_df = mk_disk (Some 5368709120%Z) (Some 21464350720%Z).
Proof.
  apply (df_exact (u "Filesystem     1024-blocks    Used Available Capacity Mounted on")
           [u "/dev/vda1"] 20961280 5242880 (u "15718400") (u "26%") (u "/")).
  - apply (bool_decide_unpack _). by vm_compute.
  - apply (bool_decide_unpack _). by vm_compute.
  - apply (bool_decide_unpack _). by vm_compute.
  - by eexists.
  - by eexists.
Defined.

Lemma garbled_disk_reads_fresh_witness :
  ∃ labels, flag (u "mqlab_log_sample_stale") labels false
    ∈ log_samples (collect_row (λ _, false) lower_ascii (u "nha-a1") (u "NHARCAPP") TimedOut
        (Exited 0 (u "df: header only")) (Exited 0 (u "S0000001.LOG"))).
Proof.
  destruct (garbled_disk_reads_fresh (λ _, false) lower_ascii (u "nha-a1") (u "NHARCAPP") TimedOut
    (u "df: header only") (u "S0000001.LOG") ltac:(by vm_compute)) as (labels & H & _).
  by exists labels.
Defined.
