(* ===== verification/Xml.v ===== *)
(** * Element trees

    What the collectors use of xml.etree: the element, its attributes, and the path
    queries [find], [findall] and [iter]. The parser of the text is a parameter of the
    models that call it. *)

From S2P Require Import Prelude PyText PyDict.

Inductive elem := Elem (tag : text) (attrs : list (text * text)) (children : list elem).

Definition e_tag (e : elem) : text := let 'Elem t _ _ := e in t.
Definition e_attrs (e : elem) : list (text * text) := let 'Elem _ a _ := e in a.
Definition e_children (e : elem) : list elem := let 'Elem _ _ l := e in l.

(** [e.get(k)] and [e.get(k, default)]. *)
Definition e_get (e : elem) (k : text) : option text := dget (e_attrs e) k.
Definition e_get_or (e : elem) (k v : text) : text := default v (e_get e k).

(** [e.get(k) == "true"]. *)
Definition e_true (e : elem) (k : text) : bool := bool_decide (e_get e k = Some (u "true")).

(** All elements of the tree in document order, the root first. *)
Fixpoint e_iter (e : elem) : list elem :=
  let 'Elem _ _ l := e in
  e :: (fix go (l : list elem) := match l with [] => [] | c :: l => e_iter c ++ go l end) l.

(** [e.iter(tag)], and the step [.//tag] of a path, which leaves [e] itself out. *)
Definition iter_tag (t : text) (e : elem) : list elem := filter (λ c, e_tag c = t) (e_iter e).
Definition below (t : text) (e : elem) : list elem := filter (λ c, e_tag c = t) (tail (e_iter e)).

Definition child_tag (t : text) (e : elem) : list elem := filter (λ c, e_tag c = t) (e_children e).

(** [e.findall("./t1/t2/...")] and [e.find(...)]. *)
Fixpoint findall (path : list text) (e : elem) : list elem :=
  match path with [] => [e] | t :: path => child_tag t e ≫= findall path end.
Definition find (path : list text) (e : elem) : option elem := head (findall path e).

(** [descends a e]: [e] is strictly inside [a]. *)
Inductive descends : elem → elem → Prop :=
  | descends_child a e : e ∈ e_children a → descends a e
  | descends_below a c e : c ∈ e_children a → descends c e → descends a e.

Lemma e_iter_unfold e : e_iter e = e :: (e_children e ≫= e_iter).
Proof. by destruct e. Qed.

Lemma elem_ind' (P : elem → Prop) :
  (∀ t a l, Forall P l → P (Elem t a l)) → ∀ e, P e.
Proof.
  intros Hstep. fix IH 1. intros [t a l]. apply Hstep. induction l as [|c l IHl]; [constructor|constructor; [apply IH|exact IHl]].
Qed.

Lemma elem_of_iter a e : e ∈ e_iter a ↔ e = a ∨ descends a e.
Proof.
  revert e. induction a as [t attrs l IH] using elem_ind'. intros e.
  rewrite e_iter_unfold, elem_of_cons, list_elem_of_bind. rewrite Forall_forall in IH.
  apply or_iff_compat_l. cbn [e_children]. split.
  - intros (c & He & Hc). apply (IH c Hc) in He as [->|He]; [by constructor|by eapply descends_below].
  - inversion 1 as [? ? Hc|? c ? Hc He]; subst; [exists e; split; [|done]|exists c; split; [|done]];
      apply (IH _ Hc); tauto.
Qed.

(** [.//tag] finds exactly the elements of that tag strictly inside. *)
Lemma elem_of_below t a e : e ∈ below t a ↔ e_tag e = t ∧ descends a e.
Proof.
  unfold below. rewrite list_elem_of_filter, e_iter_unfold. cbn [tail].
  apply and_iff_compat_l. rewrite list_elem_of_bind. split.
  - intros (c & He & Hc). apply elem_of_iter in He as [->|He];
      [by constructor|by eapply descends_below].
  - inversion 1 as [? ? Hc|? c ? Hc He]; subst; [exists e|exists c];
      (split; [apply elem_of_iter|done]); tauto.
Qed.

Lemma elem_of_findall t1 t2 a e :
  e ∈ findall [t1; t2] a ↔
    e_tag e = t2 ∧ ∃ p, e_tag p = t1 ∧ p ∈ e_children a ∧ e ∈ e_children p.
Proof.
  cbn [findall]. rewrite list_elem_of_bind. split.
  - intros (p & H & Hp). apply list_elem_of_bind in H as (e' & He & H).
    apply list_elem_of_singleton in He as ->. unfold child_tag in *.
    apply list_elem_of_filter in H as [? ?], Hp as [? ?]. eauto.
  - intros (? & p & ? & ? & ?). exists p. split; [|by apply list_elem_of_filter].
    apply list_elem_of_bind. exists e. split; [by apply list_elem_of_singleton|].
    by apply list_elem_of_filter.
Qed.
