(* ===== verification/ClusterState.v ===== *)
(** * The Pacemaker cluster state collector

    Models mqro/clusterstate.py: the parsers of crm_mon, drbdsetup, stonith_admin,
    iscsiadm and systemctl output, the metrics, and one collection of a role's probes.
    What the probes print is input and the XML parser behind [ET.fromstring] a parameter;
    the textfile write of [main] is left out. *)

From S2P Require Import Prelude PyText PyCodec PyDict PyFloat PyJson JsonRoundTrip Prom NativeHa Xml.

(** The exceptions nothing between the parsers and [main] catches. *)
Inductive ProbeError := BadXml | BadNumber | UnknownRole | NumberTooLong.

(** ** parse_crm *)

Record CrmNode := mk_crmnode { cn_online : bool; cn_standby : bool; cn_unclean : bool }.
Record CrmResource := mk_crmres { cr_state : text; cr_node : option text }.
Record Crm := mk_crm {
  crm_quorate : bool; crm_nodes : list (text * CrmNode); crm_resources : list (text * CrmResource)
}.

Definition crm_node (n : elem) : text * CrmNode :=
  (e_get_or n (u "name") [],
   mk_crmnode (e_true n (u "online")) (e_true n (u "standby")) (e_true n (u "unclean"))).

Definition crm_resource (r : elem) : text * CrmResource :=
  (e_get_or r (u "id") [],
   mk_crmres (e_get_or r (u "role") (u "Unknown")) (find [u "node"] r ≫= λ h, e_get h (u "name"))).

(** The elements of [.//group[@id='mq_group']//resource]. *)
Definition mq_group_resources (root : elem) : list elem :=
  filter (λ g, e_get g (u "id") = Some (u "mq_group")) (below (u "group") root) ≫= below (u "resource").

Definition crm_of_tree (root : elem) : Crm :=
  mk_crm
    (match find [u "summary"; u "current_dc"] root with
     | Some dc => e_true dc (u "with_quorum")
     | None => false
     end)
    (dict_of crm_node (findall [u "nodes"; u "node"] root))
    (dict_of crm_resource (mq_group_resources root)).

(** ** parse_drbd *)

Section drbd.
Context `{FT : FloatText}.

Record Drbd := mk_drbd { d_role : text; d_disk : text; d_conn : text; d_pct : float; d_oos : Z }.

(** The [key:value] tokens of a line. *)
Definition drbd_tokens (raw : text) : list (text * text) := dict_of id (omap (cut 58) (split_ws raw)).

(** [raw[:1] not in ("", " ", "\t")]. *)
Definition at_column_0 (raw : text) : bool :=
  match raw with [] => false | c :: _ => negb ((c =? 32) || (c =? 9))%N end.

(** What the parser holds: the blocks, and the name of the one the loop fills ([None]
    before the first, when it fills a dictionary nobody reads). *)
Record DrbdState := mk_ds { ds_out : list (text * Drbd); ds_cur : option text }.

(** Assigns through [cur], the dictionary that is also [out[name]]. *)
Definition set_cur (f : Drbd → Drbd) (st : DrbdState) : DrbdState :=
  match ds_cur st with
  | Some name =>
      match dget (ds_out st) name with
      | Some d => mk_ds (dset (ds_out st) name (f d)) (ds_cur st)
      | None => st
      end
  | None => st
  end.

Definition put_disk (v : text) (d : Drbd) : Drbd := mk_drbd (d_role d) v (d_conn d) (d_pct d) (d_oos d).
Definition put_conn (v : text) (d : Drbd) : Drbd := mk_drbd (d_role d) (d_disk d) v (d_pct d) (d_oos d).
Definition put_pct (v : float) (d : Drbd) : Drbd := mk_drbd (d_role d) (d_disk d) (d_conn d) v (d_oos d).
Definition put_oos (v : Z) (d : Drbd) : Drbd := mk_drbd (d_role d) (d_disk d) (d_conn d) (d_pct d) v.

(** A key's value stored into the current block: nothing when the key is absent; the
    conversion may raise. *)
Definition store_token {A} (tokens : list (text * text)) (key : text) (conv : text → option A)
    (put : A → Drbd → Drbd) (st : DrbdState) : res ProbeError DrbdState :=
  match dget tokens key with
  | None => Ok st
  | Some v => a ← of_option BadNumber (conv v); Ok (set_cur (put a) st)
  end.

(** A new block: [cur = {...}; out[raw.split()[0]] = cur]. *)
Definition open_block (raw : text) (tokens : list (text * text)) (st : DrbdState) : DrbdState :=
  match dget tokens (u "role"), split_ws raw with
  | Some role, name :: _ =>
      if at_column_0 raw then
        mk_ds (dset (ds_out st) name
                 (mk_drbd role (u "Unknown") (u "Unknown") (float_of_Z 100) 0)) (Some name)
      else st
  | _, _ => st
  end.

(** One turn of the loop. *)
Definition drbd_line (st : DrbdState) (raw : text) : res ProbeError DrbdState :=
  let tokens := drbd_tokens raw in
  st1 ← store_token tokens (u "disk") Some put_disk (open_block raw tokens st);
  st2 ← store_token tokens (u "connection") Some put_conn st1;
  st3 ← store_token tokens (u "done") float_of_text put_pct st2;
  store_token tokens (u "out-of-sync") int_of_text put_oos st3.

Definition parse_drbd (out : text) : res ProbeError (list (text * Drbd)) :=
  ds_out <$> res_foldM drbd_line (mk_ds [] None) (splitlines out).
End drbd.

(** ** parse_stonith, parse_iscsi, parse_daemons *)

Definition contains (p s : text) : bool := bool_decide (is_Some (find_sub p s)).

(** [line.split(" ", 1)[0]]. *)
Definition before_space (s : text) : text := match cut 32 s with Some (a, _) => a | None => s end.

Definition is_fence_line (line : text) : bool :=
  contains (u " was reset ") line || contains (u " was fenced ") line.

Definition stonith_line (counts : list (text * Z)) (raw : text) : list (text * Z) :=
  let line := strip raw in
  if is_fence_line line
  then dset counts (before_space line) (dget_or counts (before_space line) 0 + 1)%Z
  else counts.

Definition parse_stonith (out : text) : list (text * Z) := foldl stonith_line [] (splitlines out).

Definition is_session (raw : text) : bool :=
  startswith (strip raw) (u "tcp:") || startswith (strip raw) (u "iser:").

Definition parse_iscsi (out : text) : Z :=
  Z.of_nat (length (filter (λ raw, is_session raw = true) (splitlines out))).

Definition parse_daemons (out : text) (units : list text) : list (text * bool) :=
  let lines := splitlines out in
  dict_of id (imap (λ i unit,
    (unit, match lines !! i with Some l => bool_decide (strip l = u "active") | None => false end))
    units).

(** ** Metrics *)

Section collect.
Context `{FT : FloatText} (fromstring : text → option elem).

Section render.
Context (node : text).

Definition member_labels (m : text) : list (text * text) := [(u "node", node); (u "member", m)].
Definition resource_labels (r : text) : list (text * text) := [(u "node", node); (u "resource", r)].

Definition crm_node_samples (nm : text * CrmNode) : list sample :=
  [flag (u "cluster_node_online") (member_labels nm.1) (cn_online nm.2);
   flag (u "cluster_node_unclean") (member_labels nm.1) (cn_unclean nm.2)].

Definition crm_resource_samples (rr : text * CrmResource) : list sample :=
  flag (u "cluster_resource_started") (resource_labels rr.1) (bool_decide (cr_state rr.2 = u "Started"))
  :: match cr_node rr.2 with
     | None | Some [] => []
     | Some h => [flag (u "cluster_resource_owner") (resource_labels rr.1 ++ [(u "holder", h)]) true]
     end.

Definition fence_sample (fences : list (text * Z)) (member : text) : sample :=
  mk_sample (u "cluster_fence_count") (member_labels member) (VInt (dget_or fences member 0%Z)).

Definition crm_samples (c : Crm) (stonith : option (list (text * Z))) : list sample :=
  flag (u "cluster_quorate") (n_labels node) (crm_quorate c)
  :: (crm_nodes c ≫= crm_node_samples) ++ (crm_resources c ≫= crm_resource_samples)
  ++ (fence_sample (default [] stonith) <$> (crm_nodes c).*1).

Definition daemon_sample (ud : text * bool) : sample :=
  flag (u "cluster_daemon_up") [(u "node", node); (u "unit", ud.1)] ud.2.

Definition drbd_samples (rd : text * Drbd) : list sample :=
  let '(r, d) := rd in
  [flag (u "cluster_drbd_role") (resource_labels r ++ [(u "role", d_role d)]) true;
   flag (u "cluster_drbd_disk") (resource_labels r ++ [(u "disk", d_disk d)]) true;
   flag (u "cluster_drbd_conn") (resource_labels r ++ [(u "conn", d_conn d)]) true;
   mk_sample (u "cluster_drbd_resync_pct") (resource_labels r) (VFloat (d_pct d));
   mk_sample (u "cluster_drbd_out_of_sync_bytes") (resource_labels r) (VInt (d_oos d))].

(** What a collection has parsed when it renders. *)
Record Parsed := mk_parsed {
  pd_crm : option Crm; pd_stonith : option (list (text * Z)); pd_iscsi : option Z;
  pd_daemons : list (text * bool); pd_drbd : option (list (text * Drbd)); pd_fresh : list text
}.

(** The samples of [render_cluster_state_prom]. *)
Definition cluster_samples (p : Parsed) (now : Z) : list sample :=
  match pd_crm p with Some c => crm_samples c (pd_stonith p) | None => [] end
  ++ option_sample ((λ n, mk_sample (u "cluster_iscsi_sessions") (n_labels node) (VInt n)) <$> pd_iscsi p)
  ++ (daemon_sample <$> pd_daemons p)
  ++ match pd_drbd p with Some d => d ≫= drbd_samples | None => [] end
  ++ (fresh_sample node now <$> pd_fresh p).
End render.

(** ** collect *)

Definition PROBE_SETS : list (text * list text) :=
  [(u "cluster", [u "crm"; u "stonith"; u "iscsi"; u "daemons"]);
   (u "storage", [u "drbd"; u "daemons"])].

Definition DAEMON_UNITS : list (text * list text) :=
  [(u "cluster", [u "corosync"; u "pacemaker"]); (u "storage", [u "drbd"])].

Definition COMMANDS : list (text * (list text * Z)) :=
  [(u "crm", ([u "crm_mon"; u "--one-shot"; u "--output-as=xml"], 3%Z));
   (u "drbd", ([u "drbdsetup"; u "status"; u "--verbose"; u "--statistics"], 2%Z));
   (u "stonith", ([u "stonith_admin"; u "--history"; u "*"], 2%Z));
   (u "iscsi", ([u "iscsiadm"; u "-m"; u "session"], 2%Z))].

(** [probe(..., ignore_rc=True)]: the output of any run that ended in time. *)
Definition probe_ignore_rc (r : probe_run) : option text :=
  match r with Exited _ out => Some out | _ => None end.

(** One source of the loop of [collect]. *)
Definition probe_source (role : text) (runs : text → probe_run) (p : Parsed) (source : text) :
    res ProbeError Parsed :=
  let fresh := pd_fresh p ++ [source] in
  if bool_decide (source = u "daemons") then
    match probe_ignore_rc (runs source) with
    | None => Ok p
    | Some raw => Ok (mk_parsed (pd_crm p) (pd_stonith p) (pd_iscsi p)
                        (parse_daemons raw (dget_or DAEMON_UNITS role [])) (pd_drbd p) fresh)
    end
  else
    match probe (runs source) with
    | None => Ok p
    | Some raw =>
        if bool_decide (source = u "crm") then
          root ← of_option BadXml (fromstring raw);
          Ok (mk_parsed (Some (crm_of_tree root)) (pd_stonith p) (pd_iscsi p) (pd_daemons p) (pd_drbd p) fresh)
        else if bool_decide (source = u "drbd") then
          d ← parse_drbd raw;
          Ok (mk_parsed (pd_crm p) (pd_stonith p) (pd_iscsi p) (pd_daemons p) (Some d) fresh)
        else if bool_decide (source = u "stonith") then
          Ok (mk_parsed (pd_crm p) (Some (parse_stonith raw)) (pd_iscsi p) (pd_daemons p) (pd_drbd p) fresh)
        else
          Ok (mk_parsed (pd_crm p) (pd_stonith p) (Some (parse_iscsi raw)) (pd_daemons p) (pd_drbd p) fresh)
    end.

Definition NOTHING_PARSED : Parsed := mk_parsed None None None [] None [].

(** The samples of one [collect]: [runs source] is the run of the source's command. *)
Definition collect_samples (role node : text) (now : Z) (runs : text → probe_run) :
    res ProbeError (list sample) :=
  sources ← of_option UnknownRole (dget PROBE_SETS role);
  p ← res_foldM (probe_source role runs) NOTHING_PARSED sources;
  Ok (cluster_samples node p now).

Definition collect (role node : text) (now : Z) (runs : text → probe_run) : res ProbeError text :=
  l ← collect_samples role node now runs; of_option NumberTooLong (body l).
End collect.

(** ** Lemmas on tokens *)

(** The last word with a key gives its value. *)
Lemma tokens_last ws1 w ws2 k v :
  cut 58 w = Some (k, v) → Forall (λ w, fst <$> cut 58 w ≠ Some k) ws2 →
  dget (dict_of id (omap (cut 58) (ws1 ++ w :: ws2))) k = Some v.
Proof.
  intros Hw Hws. unfold dict_of. rewrite foldl_dset_get. rewrite omap_app. csimpl. rewrite Hw.
  rewrite rev_app_distr. cbn [rev]. rewrite <-!app_assoc.
  assert (∀ l rest, Forall (λ w, fst <$> cut 58 w ≠ Some k) l →
    List.find (λ x : text * text, bool_decide ((id x).1 = k)) (rev (omap (cut 58) l) ++ rest) =
      List.find (λ x, bool_decide ((id x).1 = k)) rest) as Hskip.
  { induction l as [|x l IH]; intros rest Hl; [done|]. apply Forall_cons in Hl as [Hx Hl]. csimpl.
    destruct (cut 58 x) as [[k' v']|]; [|by apply IH]. cbn [rev]. rewrite <-app_assoc, IH by done.
    cbn [app List.find id fst]. rewrite bool_decide_eq_false_2; [done|]. intros ->. by apply Hx. }
  rewrite Hskip by done. cbn [app List.find id fst snd]. by rewrite bool_decide_eq_true_2.
Qed.

Lemma tokens_none ws k :
  Forall (λ w, fst <$> cut 58 w ≠ Some k) ws → dget (dict_of id (omap (cut 58) ws)) k = None.
Proof.
  intros Hws. apply dget_None. intros (x & Hx & Heq)%dict_of_keys.
  apply list_elem_of_omap in Hx as (w & Hw & Hcut). rewrite Forall_forall in Hws.
  apply (Hws w Hw). rewrite Hcut. by subst.
Qed.

(** ** What drbdsetup prints *)

Definition VALUE_KEYS : list text := [u "disk"; u "connection"; u "done"; u "out-of-sync"].
Definition HEADER_KEYS : list text := u "role" :: VALUE_KEYS.

(** A word that is no token of the keys [ks], and the value of a token. *)
Definition extra_ok (ks : list text) (w : text) : Prop :=
  word_ok w ∧ Forall (λ k, fst <$> cut 58 w ≠ Some k) ks.
Definition value_word (v : text) : Prop := Forall (λ c, is_space c = false) v.

#[export] Instance extra_ok_dec ks w : Decision (extra_ok ks w).
Proof. unfold extra_ok. apply _. Defined.

#[export] Instance value_word_dec v : Decision (value_word v).
Proof. unfold value_word. apply _. Defined.

Definition kv_word (k v : text) : text := k ++ 58%N :: v.

Section drbd_text.
Context `{FT : FloatText}.

(** What an indented line may say: the state of a local disk, a connection, the percentage
    of a resync under way (as printed, and as the number it is), an out-of-sync count. *)
Inductive Fact :=
  | IsDisk (v : text)
  | IsConn (v : text)
  | IsDone (t : text) (f : float)
  | IsOos (z : Z).

(** A line: its indentation, and at most one fact among other words. *)
Record Line := mk_line {
  ln_indent : nat; ln_before : list text; ln_fact : option Fact; ln_after : list text
}.

(** The lines of a volume of this node, of a volume of a peer, and of a peer: the first line
    of each, then the lines drbdsetup wraps or adds for [--statistics]. *)
Record Volume := mk_volume {
  vo_before : list text; vo_disk : text; vo_after : list text; vo_more : list (nat * list text)
}.

Record PeerVolume := mk_pvolume {
  pv_before : list text; pv_done : option (text * float); pv_after : list text;
  pv_more : list (nat * list text);
  pv_oos : option (list text * Z * list text * list (nat * list text))
}.

Record Peer := mk_peer {
  pe_before : list text; pe_conn : text; pe_after : list text; pe_more : list (nat * list text);
  pe_volumes : list PeerVolume
}.

(** A resource: [name ... role:R ...] at column 0, its other lines, its volumes, its peers. *)
Record Block := mk_block {
  bl_name : text; bl_before : list text; bl_role : text; bl_after : list text;
  bl_more : list (nat * list text); bl_volumes : list Volume; bl_peers : list Peer
}.

Definition more_lines (ls : list (nat * list text)) : list Line :=
  (λ l, mk_line l.1 l.2 None []) <$> ls.

Definition volume_lines (v : Volume) : list Line :=
  mk_line 2 (vo_before v) (Some (IsDisk (vo_disk v))) (vo_after v) :: more_lines (vo_more v).

Definition pvolume_lines (v : PeerVolume) : list Line :=
  mk_line 4 (pv_before v) ((λ d, IsDone d.1 d.2) <$> pv_done v) (pv_after v) :: more_lines (pv_more v)
  ++ match pv_oos v with
     | None => []
     | Some (before, z, after, more) => mk_line 8 before (Some (IsOos z)) after :: more_lines more
     end.

Definition peer_lines (p : Peer) : list Line :=
  mk_line 2 (pe_before p) (Some (IsConn (pe_conn p))) (pe_after p) :: more_lines (pe_more p)
  ++ (pe_volumes p ≫= pvolume_lines).

Definition body_lines (b : Block) : list Line :=
  more_lines (bl_more b) ++ (bl_volumes b ≫= volume_lines) ++ (bl_peers b ≫= peer_lines).

Definition fact_word (f : Fact) : text :=
  match f with
  | IsDisk v => kv_word (u "disk") v
  | IsConn v => kv_word (u "connection") v
  | IsDone t _ => kv_word (u "done") t
  | IsOos z => kv_word (u "out-of-sync") (Z_text z)
  end.

Definition line_words (l : Line) : list text :=
  ln_before l ++ option_list (fact_word <$> ln_fact l) ++ ln_after l.

(** The lines of a block, as their indentation and their words. *)
Definition block_lines (b : Block) : list (nat * list text) :=
  (0, bl_name b :: bl_before b ++ kv_word (u "role") (bl_role b) :: bl_after b)
  :: ((λ l, (ln_indent l, line_words l)) <$> body_lines b).

Definition print_line (l : nat * list text) : text := replicate l.1 32%N ++ str_join [32%N] l.2.

Definition print_drbd (bs : list Block) : text :=
  concat ((λ l, print_line l ++ [10%N]) <$> (bs ≫= block_lines)).

Definition fact_ok (f : Fact) : Prop :=
  match f with
  | IsDisk v | IsConn v => value_word v
  | IsDone t f => value_word t ∧ float_of_text t = Some f
  | IsOos z => is_Some (str_int z)
  end.

(** Every line but the first of a block is indented or empty, and holds no other token of a key
    the parser reads there. A [role:] token may be on any of them. *)
Definition line_ok (l : Line) : Prop :=
  (ln_indent l = 0 → line_words l = []) ∧ Forall (extra_ok VALUE_KEYS) (ln_before l) ∧
  Forall (extra_ok VALUE_KEYS) (ln_after l) ∧ (∀ f, ln_fact l = Some f → fact_ok f).

Definition block_ok (b : Block) : Prop :=
  extra_ok HEADER_KEYS (bl_name b) ∧ Forall (extra_ok HEADER_KEYS) (bl_before b) ∧
  Forall (extra_ok HEADER_KEYS) (bl_after b) ∧ value_word (bl_role b) ∧ Forall line_ok (body_lines b).

(** What the parser makes of a block: the disk of its last volume, the connection of its last
    peer, the percentage of the last peer volume under resync, the last out-of-sync count. *)
Definition block_value (b : Block) : Drbd :=
  let volumes := bl_peers b ≫= pe_volumes in
  mk_drbd (bl_role b)
    (default (u "Unknown") (last (vo_disk <$> bl_volumes b)))
    (default (u "Unknown") (last (pe_conn <$> bl_peers b)))
    (default (float_of_Z 100) (last (omap (λ v, snd <$> pv_done v) volumes)))
    (default 0%Z (last (omap (λ v, (λ o, o.1.1.2) <$> pv_oos v) volumes))).

(** *** One line *)

Lemma value_word_app k v : k ≠ [] → value_word k → value_word v → word_ok (kv_word k v).
Proof.
  intros Hk Hkw Hv. unfold kv_word. split; [by destruct k|].
  apply Forall_app. split; [done|]. by constructor.
Qed.

Lemma token_word k v : word_ok k → value_word v → word_ok (kv_word k v).
Proof. intros [Hne Hk] Hv. by apply value_word_app. Qed.

Lemma split_ws_indent n s : split_ws (replicate n 32%N ++ s) = split_ws s.
Proof. induction n as [|n IH]; [done|]. cbn [replicate app]. by rewrite split_ws_blank. Qed.

Lemma split_ws_line l : Forall word_ok l.2 → split_ws (print_line l) = l.2.
Proof. intros Hl. unfold print_line. by rewrite split_ws_indent, split_ws_join. Qed.

Lemma tokens_line l : Forall word_ok l.2 → drbd_tokens (print_line l) = dict_of id (omap (cut 58) l.2).
Proof. intros Hl. unfold drbd_tokens. by rewrite split_ws_line. Qed.

Lemma words_line ks ws : Forall (extra_ok ks) ws → Forall word_ok ws.
Proof. intros Hws. eapply Forall_impl; [done|]. by intros ? []. Qed.

Lemma extras_key ks ws k :
  Forall (extra_ok ks) ws → k ∈ ks → Forall (λ w, fst <$> cut 58 w ≠ Some k) ws.
Proof.
  intros Hws Hk. eapply Forall_impl; [exact Hws|]. intros w [_ Hw]. rewrite Forall_forall in Hw. by apply Hw.
Qed.

(** The lookups in a line that has one token of a key among extra words. *)
Lemma dget_tokens ks ws1 k v ws2 k' :
  Forall (extra_ok ks) ws1 → Forall (extra_ok ks) ws2 → (58%N ∉ k) → k' ∈ ks →
  dget (dict_of id (omap (cut 58) (ws1 ++ kv_word k v :: ws2))) k' =
    if decide (k' = k) then Some v else None.
Proof.
  intros H1 H2 Hk Hk'. assert (cut 58 (kv_word k v) = Some (k, v)) as Hcut by (by apply cut_app).
  case_decide as Heq.
  - subst. apply tokens_last; [done|by eapply extras_key].
  - apply tokens_none. rewrite Forall_app, Forall_cons. split_and!; [by eapply extras_key| |by eapply extras_key].
    rewrite Hcut. simpl. congruence.
Qed.

Lemma dget_no_tokens ks ws k :
  Forall (extra_ok ks) ws → k ∈ ks → dget (dict_of id (omap (cut 58) ws)) k = None.
Proof. intros Hws Hk. by eapply tokens_none, extras_key. Qed.

(** A line that does not start at column 0 opens no block, whatever role it names. *)
Lemma open_block_indented n ws tokens st :
  (n = 0 → ws = []) → open_block (print_line (n, ws)) tokens st = st.
Proof.
  intros Hn. unfold open_block. destruct (dget tokens _); [|done].
  destruct n; [|by destruct (split_ws _)]. by rewrite Hn.
Qed.

Lemma set_cur_current f out n d :
  set_cur f (mk_ds (dset out n d) (Some n)) = mk_ds (dset out n (f d)) (Some n).
Proof. unfold set_cur. cbn [ds_cur ds_out]. by rewrite dget_dset_eq, dset_twice. Qed.

Definition apply_fact (d : Drbd) (f : Fact) : Drbd :=
  match f with
  | IsDisk v => put_disk v d
  | IsConn v => put_conn v d
  | IsDone _ x => put_pct x d
  | IsOos z => put_oos z d
  end.

Definition apply_line (d : Drbd) (l : Line) : Drbd := from_option (apply_fact d) d (ln_fact l).

Lemma line_words_ok l : line_ok l → Forall word_ok (line_words l).
Proof.
  intros (_ & H1 & H2 & Hf). unfold line_words. rewrite !Forall_app.
  split_and!; [by eapply words_line| |by eapply words_line].
  destruct (ln_fact l) as [f|]; [|constructor]. apply Forall_singleton. specialize (Hf f eq_refl).
  destruct f; cbn [fact_word fact_ok] in *; (apply token_word; [closed_text|]); [done|done|tauto|].
  by destruct (Z_text_word z).
Qed.

(** A line of the body stores its fact in the current block. *)
Lemma body_line out n d l :
  line_ok l →
  drbd_line (mk_ds (dset out n d) (Some n)) (print_line (ln_indent l, line_words l)) =
    Ok (mk_ds (dset out n (apply_line d l)) (Some n)).
Proof.
  intros Hl. pose proof (line_words_ok l Hl) as Hw. destruct Hl as (Hi & H1 & H2 & Hf).
  unfold drbd_line. rewrite open_block_indented, tokens_line by done. cbn [snd]. clear Hi Hw.
  unfold line_words, apply_line, store_token. destruct (ln_fact l) as [f|]; 
    cbn [fmap option_fmap option_map option_list option_rect app].
  - specialize (Hf f eq_refl). destruct f; cbn [fact_word fact_ok from_option apply_fact] in *;
      rewrite !(dget_tokens VALUE_KEYS) by (first [done | closed_text]); decide_closed.
    1-2: cbn [of_option mbind res_bind]; by rewrite set_cur_current.
    + destruct Hf as [_ ->]. cbn [of_option mbind res_bind]. by rewrite set_cur_current.
    + rewrite int_of_Z_text by done. cbn [of_option mbind res_bind]. by rewrite set_cur_current.
  - by rewrite !(dget_no_tokens VALUE_KEYS) by (first [by apply Forall_app | closed_text]).
Qed.

(** The header line opens the block. *)
Lemma header_line st b :
  block_ok b →
  drbd_line st (print_line (0, bl_name b :: bl_before b ++ kv_word (u "role") (bl_role b) :: bl_after b)) =
    Ok (mk_ds (dset (ds_out st) (bl_name b)
                (mk_drbd (bl_role b) (u "Unknown") (u "Unknown") (float_of_Z 100) 0)) (Some (bl_name b))).
Proof.
  intros (Hn & H1 & H2 & Hr & _). unfold drbd_line. rewrite app_comm_cons.
  assert (Forall (extra_ok HEADER_KEYS) (bl_name b :: bl_before b)) as Hb by (by constructor).
  rewrite tokens_line.
  2: { cbn [snd]. apply Forall_app. split; [by eapply words_line|].
       constructor; [apply token_word; [closed_text|done]|by eapply words_line]. }
  unfold open_block. rewrite split_ws_line.
  2: { cbn [snd]. apply Forall_app. split; [by eapply words_line|].
       constructor; [apply token_word; [closed_text|done]|by eapply words_line]. }
  cbn [snd]. unfold store_token.
  rewrite !(dget_tokens HEADER_KEYS) by (first [done | closed_text]). decide_closed. cbn [app].
  replace (at_column_0 _) with true; [done|]. unfold print_line, at_column_0. cbn [fst snd replicate app].
  destruct Hn as [[Hne Hw] _]. rewrite str_join_cons by (by destruct (bl_before b)).
  destruct (bl_name b) as [|c w]; [done|]. apply Forall_cons in Hw as [Hc _]. cbn [app].
  symmetry. apply negb_true_iff, orb_false_iff. rewrite !N.eqb_neq. split; intros ->; by vm_compute in Hc.
Qed.

(** *** The loop over the lines *)

Lemma body_fold out n d ls :
  Forall line_ok ls →
  res_foldM drbd_line (mk_ds (dset out n d) (Some n))
      (print_line <$> ((λ l, (ln_indent l, line_words l)) <$> ls)) =
    Ok (mk_ds (dset out n (foldl apply_line d ls)) (Some n)).
Proof.
  intros Hls. revert d. induction Hls as [|l ls Hl _ IH]; intros d; [done|].
  rewrite !fmap_cons. cbn [res_foldM foldl]. rewrite body_line by done. apply IH.
Qed.

Definition fact_disk (l : Line) : option text := match ln_fact l with Some (IsDisk v) => Some v | _ => None end.
Definition fact_conn (l : Line) : option text := match ln_fact l with Some (IsConn v) => Some v | _ => None end.
Definition fact_done (l : Line) : option float := match ln_fact l with Some (IsDone _ f) => Some f | _ => None end.
Definition fact_oos (l : Line) : option Z := match ln_fact l with Some (IsOos z) => Some z | _ => None end.

(** Each line overwrites what the lines before it said of the same fact. *)
Lemma apply_lines d ls :
  foldl apply_line d ls =
    mk_drbd (d_role d) (default (d_disk d) (last (omap fact_disk ls)))
      (default (d_conn d) (last (omap fact_conn ls))) (default (d_pct d) (last (omap fact_done ls)))
      (default (d_oos d) (last (omap fact_oos ls))).
Proof.
  induction ls as [|l ls IH] using rev_ind; [by destruct d|].
  rewrite foldl_app, IH, !omap_app. cbn [foldl]. unfold apply_line, fact_disk, fact_conn, fact_done, fact_oos.
  destruct l as [n w1 [[]|] w2]; csimpl; by rewrite ?app_nil_r, ?last_snoc.
Qed.

Lemma omap_bind {A B C} (f : B → option C) (g : A → list B) l :
  omap f (l ≫= g) = l ≫= (λ x, omap f (g x)).
Proof. induction l as [|x l IH]; [done|]. csimpl. by rewrite omap_app, IH. Qed.

Lemma bind_singletons {A B} (g : A → list B) (f : A → B) l : (∀ x, g x = [f x]) → l ≫= g = f <$> l.
Proof. intros Hg. induction l as [|x l IH]; [done|]. csimpl. by rewrite Hg, IH. Qed.

Lemma bind_options {A B} (g : A → list B) (f : A → option B) l :
  (∀ x, g x = option_list (f x)) → l ≫= g = omap f l.
Proof. intros Hg. induction l as [|x l IH]; [done|]. csimpl. rewrite Hg, IH. by destruct (f x). Qed.

Lemma bind_nothing {A B} (g : A → list B) l : (∀ x, g x = []) → l ≫= g = [].
Proof. intros Hg. induction l as [|x l IH]; [done|]. csimpl. by rewrite Hg, IH. Qed.

(** The other lines say nothing. *)
Lemma more_facts ls :
  omap fact_disk (more_lines ls) = [] ∧ omap fact_conn (more_lines ls) = [] ∧
  omap fact_done (more_lines ls) = [] ∧ omap fact_oos (more_lines ls) = [].
Proof. by induction ls as [|l ls (? & ? & ? & ?)]; csimpl. Qed.

Lemma volume_facts v :
  omap fact_disk (volume_lines v) = [vo_disk v] ∧ omap fact_conn (volume_lines v) = [] ∧
  omap fact_done (volume_lines v) = [] ∧ omap fact_oos (volume_lines v) = [].
Proof. unfold volume_lines. destruct (more_facts (vo_more v)) as (? & ? & ? & ?). csimpl. by split_and!; f_equal. Qed.

Lemma pvolume_facts v :
  omap fact_disk (pvolume_lines v) = [] ∧ omap fact_conn (pvolume_lines v) = [] ∧
  omap fact_done (pvolume_lines v) = option_list (snd <$> pv_done v) ∧
  omap fact_oos (pvolume_lines v) = option_list ((λ o, o.1.1.2) <$> pv_oos v).
Proof.
  unfold pvolume_lines. destruct (more_facts (pv_more v)) as (H1 & H2 & H3 & H4).
  destruct (pv_oos v) as [[[[w1 z] w2] more]|].
  - destruct (more_facts more) as (M1 & M2 & M3 & M4).
    destruct (pv_done v) as [[t f]|]; csimpl; rewrite !omap_app, H1, H2, H3, H4; csimpl;
      by rewrite M1, M2, M3, M4.
  - destruct (pv_done v) as [[t f]|]; csimpl; by rewrite !omap_app, H1, H2, H3, H4.
Qed.

Lemma peer_facts p :
  omap fact_disk (peer_lines p) = [] ∧ omap fact_conn (peer_lines p) = [pe_conn p] ∧
  omap fact_done (peer_lines p) = omap (λ v, snd <$> pv_done v) (pe_volumes p) ∧
  omap fact_oos (peer_lines p) = omap (λ v, (λ o, o.1.1.2) <$> pv_oos v) (pe_volumes p).
Proof.
  unfold peer_lines. destruct (more_facts (pe_more p)) as (H1 & H2 & H3 & H4). csimpl.
  rewrite !omap_app, H1, H2, H3, H4, !omap_bind. split_and!.
  - apply bind_nothing. apply pvolume_facts.
  - simpl. f_equal. apply bind_nothing. apply pvolume_facts.
  - apply bind_options. apply pvolume_facts.
  - apply bind_options. apply pvolume_facts.
Qed.

(** What the lines of a block say, by the part of it that says it. *)
Lemma body_facts b :
  omap fact_disk (body_lines b) = vo_disk <$> bl_volumes b ∧
  omap fact_conn (body_lines b) = pe_conn <$> bl_peers b ∧
  omap fact_done (body_lines b) = omap (λ v, snd <$> pv_done v) (bl_peers b ≫= pe_volumes) ∧
  omap fact_oos (body_lines b) = omap (λ v, (λ o, o.1.1.2) <$> pv_oos v) (bl_peers b ≫= pe_volumes).
Proof.
  unfold body_lines. destruct (more_facts (bl_more b)) as (H1 & H2 & H3 & H4).
  rewrite !omap_app, H1, H2, H3, H4, !omap_bind. cbn [app].
  rewrite (bind_singletons (λ x, omap fact_disk (volume_lines x)) vo_disk) by apply volume_facts.
  rewrite (bind_singletons (λ x, omap fact_conn (peer_lines x)) pe_conn) by apply peer_facts.
  rewrite (bind_nothing (λ x, omap fact_disk (peer_lines x))) by apply peer_facts.
  rewrite !(bind_nothing _ (bl_volumes b)) by apply volume_facts. rewrite app_nil_r. cbn [app].
  split_and!; [done..| |]; (apply list_bind_ext; [|done]); apply peer_facts.
Qed.

Lemma block_fold st b :
  block_ok b →
  res_foldM drbd_line st (print_line <$> block_lines b) =
    Ok (mk_ds (dset (ds_out st) (bl_name b) (block_value b)) (Some (bl_name b))).
Proof.
  intros Hb. unfold block_lines. rewrite fmap_cons. cbn [res_foldM]. rewrite header_line by done.
  destruct Hb as (_ & _ & _ & _ & Hls). cbn [mbind res_bind]. rewrite body_fold, apply_lines by done.
  by destruct (body_facts b) as (-> & -> & -> & ->).
Qed.

Lemma block_lines_words b l : block_ok b → l ∈ block_lines b → Forall word_ok l.2.
Proof.
  intros (Hn & H1 & H2 & Hr & Hls). unfold block_lines. rewrite elem_of_cons, list_elem_of_fmap.
  intros [->|(l' & -> & Hl)]; cbn [snd].
  - rewrite app_comm_cons. apply Forall_app. split; [by eapply words_line, Forall_cons_2|].
    constructor; [apply token_word; [closed_text|done]|by eapply words_line].
  - apply line_words_ok. rewrite Forall_forall in Hls. by apply Hls.
Qed.

Lemma print_line_clean l : Forall word_ok l.2 → Forall (λ c, is_linebreak c = false) (print_line l).
Proof.
  intros Hl. unfold print_line. apply Forall_app. split; [by apply Forall_replicate|by apply join_words_line].
Qed.

Lemma blocks_fold bs st :
  Forall block_ok bs →
  ∃ cur, res_foldM drbd_line st (print_line <$> (bs ≫= block_lines)) =
    Ok (mk_ds (foldl (λ d b, dset d (bl_name b) (block_value b)) (ds_out st) bs) cur).
Proof.
  intros Hbs. revert st. induction Hbs as [|b bs Hb _ IH]; intros st.
  { exists (ds_cur st). by destruct st. }
  rewrite bind_cons, fmap_app, res_foldM_app, block_fold by done. cbn [mbind res_bind foldl].
  apply (IH (mk_ds (dset (ds_out st) (bl_name b) (block_value b)) (Some (bl_name b)))).
Qed.

(** C38. The replication state is read exactly: the output of drbdsetup for any resources,
    each with its role at column 0, its volumes, and its peers on one line or many (their own
    [role:] among the words, wrapped and statistics lines anywhere), is parsed into one entry
    per resource, in order, with the resource's own role and its disk; of several peers the last
    one's connection is kept, and the last resync percentage and out-of-sync count. *)
Theorem drbd_exact bs :
  Forall block_ok bs →
  parse_drbd (print_drbd bs) = Ok (dict_of (λ b, (bl_name b, block_value b)) bs).
Proof.
  intros Hbs. unfold parse_drbd, print_drbd.
  rewrite (list_fmap_compose print_line (λ l, l ++ [10%N])).
  rewrite splitlines_concat.
  - destruct (blocks_fold bs (mk_ds [] None) Hbs) as [cur ->]. done.
  - apply Forall_fmap, Forall_forall. intros l (b & Hl & Hb)%list_elem_of_bind.
    apply print_line_clean. rewrite Forall_forall in Hbs. by eapply block_lines_words; [apply Hbs|].
Qed.
End drbd_text.

(** ** What raises *)

Section properties.
Context `{FT : FloatText} (fromstring : text → option elem).

(** A number on a line of drbdsetup that does not convert. *)
Definition bad_number (raw : text) : Prop :=
  (∃ v, dget (drbd_tokens raw) (u "done") = Some v ∧ float_of_text v = None) ∨
  (∃ v, dget (drbd_tokens raw) (u "out-of-sync") = Some v ∧ int_of_text v = None).

Lemma store_token_Err {A} tokens key (conv : text → option A) put st e :
  store_token tokens key conv put st = Err e ↔
    e = BadNumber ∧ ∃ v, dget tokens key = Some v ∧ conv v = None.
Proof.
  unfold store_token. destruct (dget tokens key) as [v|]; [|naive_solver].
  destruct (conv v) eqn:Hc; simpl; naive_solver.
Qed.

Lemma drbd_line_Err st raw e : drbd_line st raw = Err e ↔ e = BadNumber ∧ bad_number raw.
Proof.
  unfold drbd_line, bad_number.
  assert (∀ k put st, ∃ st', store_token (drbd_tokens raw) k Some put st = Ok st') as Hsome.
  { intros k put st0. unfold store_token. destruct (dget _ k); by eexists. }
  destruct (Hsome (u "disk") put_disk (open_block raw (drbd_tokens raw) st)) as [st1 ->]. cbn [mbind res_bind].
  destruct (Hsome (u "connection") put_conn st1) as [st2 ->]. cbn [mbind res_bind].
  rewrite bind_Err, store_token_Err. setoid_rewrite store_token_Err. split.
  - intros [[-> Hd]|(st3 & _ & -> & Ho)]; tauto.
  - intros [-> [Hd|Ho]]; [by left|].
    destruct (store_token _ (u "done") float_of_text put_pct st2) as [st3|e3] eqn:H3; [right; eauto|].
    apply store_token_Err in H3 as [-> H3]. by left.
Qed.

Lemma parse_drbd_Err out e :
  parse_drbd out = Err e ↔ e = BadNumber ∧ ∃ raw, raw ∈ splitlines out ∧ bad_number raw.
Proof.
  unfold parse_drbd. assert (∀ ls st, res_foldM drbd_line st ls = Err e ↔
    e = BadNumber ∧ ∃ raw, raw ∈ ls ∧ bad_number raw) as Hall.
  { induction ls as [|raw ls IH]; intros st; cbn [res_foldM].
    - split; [done|]. by intros (_ & raw & Hr%elem_of_nil & _).
    - rewrite bind_Err. setoid_rewrite IH. setoid_rewrite drbd_line_Err. setoid_rewrite elem_of_cons. split.
      + intros [[-> Hb]|(st1 & _ & -> & r & Hr & Hb)]; eauto 6.
      + intros (-> & r & [->|Hr] & Hb); [by left|].
        destruct (drbd_line st raw) as [st1|e1] eqn:H1; [right; eauto 6|].
        apply drbd_line_Err in H1 as [-> H1]. by left. }
  rewrite <-(Hall (splitlines out) (mk_ds [] None)).
  destruct (res_foldM drbd_line _ _); simpl; split; congruence.
Qed.

Definition answered (p : option text) (source : text) : list text := if p is Some _ then [source] else [].

(** The collection of a cluster node, and of a storage node. *)
Lemma collect_cluster node now runs :
  collect_samples fromstring (u "cluster") node now runs =
    (crm ← match probe (runs (u "crm")) with
           | None => Ok None
           | Some raw => (λ root, Some (crm_of_tree root)) <$> of_option BadXml (fromstring raw)
           end;
     let stonith := probe (runs (u "stonith")) in
     let iscsi := probe (runs (u "iscsi")) in
     let daemons := probe_ignore_rc (runs (u "daemons")) in
     Ok (cluster_samples node
           (mk_parsed crm (parse_stonith <$> stonith) (parse_iscsi <$> iscsi)
              (from_option (λ raw, parse_daemons raw [u "corosync"; u "pacemaker"]) [] daemons) None
              (answered (probe (runs (u "crm"))) (u "crm") ++ answered stonith (u "stonith")
               ++ answered iscsi (u "iscsi") ++ answered daemons (u "daemons"))) now)).
Proof.
  unfold collect_samples. replace (dget PROBE_SETS (u "cluster"))
    with (Some [u "crm"; u "stonith"; u "iscsi"; u "daemons"]) by (by vm_compute).
  cbn [of_option mbind res_bind res_foldM]. unfold probe_source. test_closed.
  replace (dget_or DAEMON_UNITS (u "cluster") []) with [u "corosync"; u "pacemaker"] by (by vm_compute).
  destruct (probe (runs (u "crm"))) as [raw|]; [destruct (fromstring raw); [|done]|];
    destruct (probe (runs (u "stonith"))), (probe (runs (u "iscsi"))), (probe_ignore_rc (runs (u "daemons")));
    done.
Qed.

Lemma collect_storage node now runs :
  collect_samples fromstring (u "storage") node now runs =
    (drbd ← match probe (runs (u "drbd")) with
            | None => Ok None
            | Some raw => Some <$> parse_drbd raw
            end;
     let daemons := probe_ignore_rc (runs (u "daemons")) in
     Ok (cluster_samples node
           (mk_parsed None None None
              (from_option (λ raw, parse_daemons raw [u "drbd"]) [] daemons) drbd
              (answered (probe (runs (u "drbd"))) (u "drbd") ++ answered daemons (u "daemons"))) now)).
Proof.
  unfold collect_samples. replace (dget PROBE_SETS (u "storage")) with (Some [u "drbd"; u "daemons"])
    by (by vm_compute).
  cbn [of_option mbind res_bind res_foldM]. unfold probe_source. test_closed.
  replace (dget_or DAEMON_UNITS (u "storage") []) with [u "drbd"] by (by vm_compute).
  destruct (probe (runs (u "drbd"))) as [raw|]; [destruct (parse_drbd raw); [|done]|];
    destruct (probe_ignore_rc (runs (u "daemons"))); done.
Qed.

(** When a collection raises: the cluster role only when crm_mon answered with text
    that is no XML, the storage role only when drbdsetup answered with a line whose
    percentage or out-of-sync count does not convert, any other role always; a probe that
    fails, times out or prints anything else never makes it raise. *)
Theorem cluster_collect_errors role node now runs e :
  collect_samples fromstring role node now runs = Err e ↔
    (role = u "cluster" ∧ e = BadXml ∧
       ∃ raw, probe (runs (u "crm")) = Some raw ∧ fromstring raw = None) ∨
    (role = u "storage" ∧ e = BadNumber ∧
       ∃ raw line, probe (runs (u "drbd")) = Some raw ∧ line ∈ splitlines raw ∧ bad_number line) ∨
    ((role ∉ [u "cluster"; u "storage"]) ∧ e = UnknownRole).
Proof.
  destruct (decide (role = u "cluster")) as [->|Hc]; [|destruct (decide (role = u "storage")) as [->|Hs]].
  - rewrite collect_cluster. split.
    + intros H. left. destruct (probe (runs (u "crm"))) as [raw|]; [|done]. simpl in H.
      destruct (fromstring raw) eqn:Hx; [done|]. split; [done|]. injection H as <-. eauto.
    + intros [(_ & -> & raw & -> & Hx)|[(Hr & _)|(Hr & _)]]; [by rewrite Hx|by vm_compute in Hr|].
      by destruct Hr; left.
  - rewrite collect_storage. split.
    + intros H. right; left. destruct (probe (runs (u "drbd"))) as [raw|]; [|done].
      destruct (parse_drbd raw) as [d|e'] eqn:Hx; [done|]. injection H as <-.
      apply parse_drbd_Err in Hx as (-> & line & ? & ?). eauto 8.
    + intros [(Hr & _)|[(_ & -> & raw & line & -> & Hl & Hb)|(Hr & _)]]; [by vm_compute in Hr| |].
      * assert (parse_drbd raw = Err BadNumber) as -> by (apply parse_drbd_Err; eauto). done.
      * by destruct Hr; right; left.
  - unfold collect_samples, PROBE_SETS. cbn [dget]. rewrite !decide_False by congruence. simpl. split.
    + intros [= <-]. right; right. rewrite !elem_of_cons, elem_of_nil. naive_solver.
    + intros [(? & _)|[(? & _)|(_ & ->)]]; done.
Qed.
(** ** What the metrics say *)

(** The lines of stonith_admin's history that tell of a fencing of [m]. *)
Definition fences_of (m : text) (lines : list text) : list text :=
  filter (λ raw, is_fence_line (strip raw) = true ∧ before_space (strip raw) = m) lines.

Lemma parse_stonith_spec out m :
  dget_or (parse_stonith out) m 0%Z = Z.of_nat (length (fences_of m (splitlines out))).
Proof.
  unfold parse_stonith, fences_of. assert (∀ lines counts, dget_or (foldl stonith_line counts lines) m 0%Z =
    (dget_or counts m 0 + Z.of_nat (length (filter (λ raw, is_fence_line (strip raw) = true ∧
      before_space (strip raw) = m) lines)))%Z) as ->; [|done].
  induction lines as [|raw lines IH]; intros counts; [simpl; lia|].
  cbn [foldl]. rewrite IH, filter_cons. unfold stonith_line at 1.
  destruct (is_fence_line (strip raw)) eqn:Hf.
  - unfold dget_or. rewrite dget_dset. destruct (decide (before_space (strip raw) = m)) as [->|Hne].
    + rewrite decide_True by done. cbn [length]. unfold default, from_option, id. destruct (dget counts m); lia.
    + by rewrite decide_False by naive_solver.
  - rewrite decide_False by (by intros [? _]). done.
Qed.

(** A resource of the mq_group and the node the tree places it on. *)
Definition placed (root : elem) (r h : text) : Prop :=
  ∃ g e, descends root g ∧ e_tag g = u "group" ∧ e_get g (u "id") = Some (u "mq_group") ∧
    descends g e ∧ e_tag e = u "resource" ∧ e_get_or e (u "id") [] = r ∧
    find [u "node"] e ≫= (λ n, e_get n (u "name")) = Some h.

Lemma placed_resource root r h :
  NoDup ((λ e, e_get_or e (u "id") []) <$> mq_group_resources root) →
  placed root r h ↔ ∃ st, dget (crm_resources (crm_of_tree root)) r = Some (mk_crmres st (Some h)).
Proof.
  intros Hnd. unfold crm_of_tree. cbn [crm_resources].
  assert (NoDup (crm_resource <$> mq_group_resources root).*1) as Hnd2
    by (rewrite <-list_fmap_compose; exact Hnd).
  assert (∀ e, e ∈ mq_group_resources root ↔ ∃ g, descends root g ∧ e_tag g = u "group" ∧
    e_get g (u "id") = Some (u "mq_group") ∧ descends g e ∧ e_tag e = u "resource") as Hin.
  { intros e. unfold mq_group_resources. rewrite list_elem_of_bind. setoid_rewrite elem_of_below.
    setoid_rewrite list_elem_of_filter. setoid_rewrite elem_of_below.
    split; [intros (g & [? ?] & ? & ? & ?)|intros (g & ? & ? & ? & ? & ?)]; exists g; tauto. }
  split.
  - intros (g & e & Hg & Hgt & Hgi & He & Het & <- & Hh). exists (e_get_or e (u "role") (u "Unknown")).
    apply elem_dget; [apply dict_of_wf|]. rewrite dict_of_uniq by done.
    apply list_elem_of_fmap. exists e. unfold crm_resource. rewrite Hh. split; [done|]. apply Hin. eauto 8.
  - intros (st & Hst). apply dget_elem in Hst. rewrite dict_of_uniq in Hst by done.
    apply list_elem_of_fmap in Hst as (e & Heq & (g & ? & ? & ? & ? & ?)%Hin).
    exists g, e. injection Heq as -> _ Hh. by split_and!.
Qed.
Lemma elem_of_crm_samples node c fences s :
  s ∈ crm_samples node c fences ↔
    s = flag (u "cluster_quorate") (n_labels node) (crm_quorate c) ∨
    (∃ nm, nm ∈ crm_nodes c ∧ s ∈ crm_node_samples node nm) ∨
    (∃ rr, rr ∈ crm_resources c ∧
      (s = flag (u "cluster_resource_started") (resource_labels node rr.1)
             (bool_decide (cr_state rr.2 = u "Started")) ∨
       ∃ h, cr_node rr.2 = Some h ∧ h ≠ [] ∧
         s = flag (u "cluster_resource_owner") (resource_labels node rr.1 ++ [(u "holder", h)]) true)) ∨
    (∃ m, m ∈ (crm_nodes c).*1 ∧ s = fence_sample node (default [] fences) m).
Proof.
  unfold crm_samples. rewrite elem_of_cons, !elem_of_app, !list_elem_of_bind, list_elem_of_fmap.
  assert (∀ rr, s ∈ crm_resource_samples node rr ↔
    s = flag (u "cluster_resource_started") (resource_labels node rr.1)
             (bool_decide (cr_state rr.2 = u "Started")) ∨
    ∃ h, cr_node rr.2 = Some h ∧ h ≠ [] ∧
      s = flag (u "cluster_resource_owner") (resource_labels node rr.1 ++ [(u "holder", h)]) true) as Hrr.
  { intros rr. unfold crm_resource_samples. rewrite elem_of_cons. apply or_iff_compat_l.
    destruct (cr_node rr.2) as [[|c0 h]|]; rewrite ?elem_of_nil, ?list_elem_of_singleton;
      (split; [intros H|intros (h' & Hh & Hne & H)]); try done;
      first [by injection Hh as <- | by eauto]. }
  setoid_rewrite Hrr. clear Hrr. repeat apply or_iff_compat_l. firstorder.
Qed.

Lemma elem_of_cluster_samples node p now s :
  s ∈ cluster_samples node p now ↔
    (∃ c, pd_crm p = Some c ∧ s ∈ crm_samples node c (pd_stonith p)) ∨
    (∃ n, pd_iscsi p = Some n ∧ s = mk_sample (u "cluster_iscsi_sessions") (n_labels node) (VInt n)) ∨
    (∃ ud, ud ∈ pd_daemons p ∧ s = daemon_sample node ud) ∨
    (∃ d rd, pd_drbd p = Some d ∧ rd ∈ d ∧ s ∈ drbd_samples node rd) ∨
    (∃ src, src ∈ pd_fresh p ∧ s = fresh_sample node now src).
Proof.
  unfold cluster_samples. rewrite !elem_of_app, !list_elem_of_fmap.
  destruct (pd_crm p) as [c|], (pd_iscsi p) as [n|], (pd_drbd p) as [d|]; cbn [option_sample fmap option_fmap option_map];
    rewrite ?elem_of_nil, ?list_elem_of_singleton, ?list_elem_of_bind; firstorder; simplify_eq; eauto 10.
Qed.
(** The samples outside the Pacemaker part have other names. *)
Definition OTHER_NAMES : list text :=
  [u "cluster_iscsi_sessions"; u "cluster_daemon_up"; u "cluster_drbd_role"; u "cluster_drbd_disk";
   u "cluster_drbd_conn"; u "cluster_drbd_resync_pct"; u "cluster_drbd_out_of_sync_bytes";
   u "cluster_state_last_write_timestamp"].

Lemma drbd_names node rd s : s ∈ drbd_samples node rd → sm_name s ∈ OTHER_NAMES.
Proof.
  destruct rd as [r d]. unfold drbd_samples. rewrite !elem_of_cons, elem_of_nil.
  intros H. destruct_or! H; subst; cbn [sm_name flag]; by closed_text.
Qed.

Lemma crm_part node p now s :
  (sm_name s ∉ OTHER_NAMES) →
  s ∈ cluster_samples node p now ↔ ∃ c, pd_crm p = Some c ∧ s ∈ crm_samples node c (pd_stonith p).
Proof.
  intros Hn. rewrite elem_of_cluster_samples. split; [|tauto].
  intros [?|[(n & _ & ->)|[(ud & _ & ->)|[(d & rd & _ & _ & Hs)|(src & _ & ->)]]]]; [done|exfalso; apply Hn..].
  - by closed_text.
  - by closed_text.
  - by eapply drbd_names.
  - cbn [sm_name fresh_sample]. by closed_text.
Qed.

Lemma quorate_elem node c fences b :
  flag (u "cluster_quorate") (n_labels node) b ∈ crm_samples node c fences ↔ b = crm_quorate c.
Proof.
  rewrite elem_of_crm_samples. split; [|by left; subst].
  intros [H|[(nm & _ & H)|[(rr & _ & [H|(h & _ & _ & H)])|(m & _ & H)]]]; try done.
  - by apply flag_inj in H.
  - unfold crm_node_samples in H. rewrite !elem_of_cons, elem_of_nil in H. by destruct_or! H.
Qed.

Lemma owner_elem node c fences r h :
  flag (u "cluster_resource_owner") (resource_labels node r ++ [(u "holder", h)]) true
      ∈ crm_samples node c fences ↔
    h ≠ [] ∧ ∃ st, (r, mk_crmres st (Some h)) ∈ crm_resources c.
Proof.
  rewrite elem_of_crm_samples. split.
  - intros [H|[(nm & _ & H)|[([r' [st nd]] & Hin & [H|(h' & Hh & Hne & H)])|(m & _ & H)]]]; try done.
    + unfold crm_node_samples in H. rewrite !elem_of_cons, elem_of_nil in H. by destruct_or! H.
    + cbn [fst snd cr_node] in *. injection H as -> ->. subst nd. eauto.
  - intros (Hne & st & Hin). right; right; left. exists (r, mk_crmres st (Some h)). eauto 8.
Qed.

Lemma fence_elem node c fences m z :
  mk_sample (u "cluster_fence_count") (member_labels node m) (VInt z) ∈ crm_samples node c fences ↔
    m ∈ (crm_nodes c).*1 ∧ z = dget_or (default [] fences) m 0%Z.
Proof.
  rewrite elem_of_crm_samples. split.
  - intros [H|[(nm & _ & H)|[(rr & _ & [H|(h & _ & _ & H)])|(m' & Hm & H)]]]; try done.
    + unfold crm_node_samples in H. rewrite !elem_of_cons, elem_of_nil in H. by destruct_or! H.
    + injection H as -> ->. done.
  - intros [Hm ->]. do 3 right. eauto.
Qed.

Lemma fresh_elem node p now source :
  fresh_sample node now source ∈ cluster_samples node p now ↔ source ∈ pd_fresh p.
Proof.
  rewrite elem_of_cluster_samples. split.
  - intros [(c & _ & H)|[(n & _ & H)|[(ud & _ & H)|[(d & rd & _ & _ & H)|(src & Hin & H)]]]]; try done.
    + apply elem_of_crm_samples in H as [H|[(nm & _ & H)|[(rr & _ & [H|(h & _ & _ & H)])|(m' & Hm & H)]]];
        try done. unfold crm_node_samples in H. rewrite !elem_of_cons, elem_of_nil in H. by destruct_or! H.
    + destruct rd as [r d']. unfold drbd_samples in H. rewrite !elem_of_cons, elem_of_nil in H. by destruct_or! H.
    + by injection H as ->.
  - intros Hin. do 4 right. eauto.
Qed.

Lemma elem_of_answered p src source : src ∈ answered p source ↔ is_Some p ∧ src = source.
Proof.
  unfold answered. destruct p; rewrite ?list_elem_of_singleton, ?elem_of_nil.
  - split; [intros ->; split; [by eexists|done]|by intros [_ ->]].
  - split; [done|]. by intros [[? ?] _].
Qed.

(** What the Pacemaker cockpit shows of a collection whose crm_mon answered with a
    tree: quorum exactly when the current DC says so; an owner for a resource of the
    mq_group exactly where the tree places it (ids being distinct); for each cluster
    member the number of history lines that tell of its fencing, 0 when the history could
    not be read; and a timestamp for exactly the sources that answered. *)
Theorem cluster_metrics_sound node now runs raw root l :
  probe (runs (u "crm")) = Some raw → fromstring raw = Some root →
  NoDup ((λ e, e_get_or e (u "id") []) <$> mq_group_resources root) →
  collect_samples fromstring (u "cluster") node now runs = Ok l →
  (∀ b, flag (u "cluster_quorate") (n_labels node) b ∈ l ↔
     (b = true ↔ ∃ dc, find [u "summary"; u "current_dc"] root = Some dc ∧
        e_get dc (u "with_quorum") = Some (u "true"))) ∧
  (∀ r h, flag (u "cluster_resource_owner") (resource_labels node r ++ [(u "holder", h)]) true ∈ l ↔
     h ≠ [] ∧ placed root r h) ∧
  (∀ m z, mk_sample (u "cluster_fence_count") (member_labels node m) (VInt z) ∈ l ↔
     (∃ n, n ∈ findall [u "nodes"; u "node"] root ∧ m = e_get_or n (u "name") []) ∧
     z = from_option (λ out, Z.of_nat (length (fences_of m (splitlines out)))) 0%Z
           (probe (runs (u "stonith")))) ∧
  (∀ source, fresh_sample node now source ∈ l ↔
     (source ∈ [u "crm"; u "stonith"; u "iscsi"] ∧ is_Some (probe (runs source))) ∨
     (source = u "daemons" ∧ is_Some (probe_ignore_rc (runs source)))).
Proof.
  intros Hraw Hroot Hnd. rewrite collect_cluster, Hraw, Hroot. cbn [of_option fmap res_fmap mbind res_bind].
  cbn zeta. intros Hl. injection Hl as <-. split_and!.
  - intros b. rewrite crm_part by closed_text. cbn [pd_crm pd_stonith].
    setoid_rewrite quorate_elem. assert (crm_quorate (crm_of_tree root) = true ↔
      ∃ dc, find [u "summary"; u "current_dc"] root = Some dc ∧
        e_get dc (u "with_quorum") = Some (u "true")) as Hq.
    { unfold crm_of_tree. cbn [crm_quorate]. destruct (find _ root) as [dc|];
        [unfold e_true; rewrite bool_decide_eq_true|]; naive_solver. }
    rewrite <-Hq. split; [intros (c & [= <-] & ->); done|]. intros Hb. eexists. split; [done|].
    apply eq_true_iff_eq. exact Hb.
  - intros r h. rewrite crm_part by closed_text. cbn [pd_crm pd_stonith]. setoid_rewrite owner_elem.
    rewrite placed_resource by done. split.
    + intros (c & [= <-] & Hne & st & Hin). split; [done|]. exists st.
      apply elem_dget; [apply dict_of_wf|done].
    + intros (Hne & st & Hst). eexists. split_and!; [done..|]. exists st. by apply dget_elem.
  - intros m z. rewrite crm_part by closed_text. cbn [pd_crm pd_stonith]. setoid_rewrite fence_elem.
    assert (dget_or (default [] (parse_stonith <$> probe (runs (u "stonith")))) m 0%Z =
      from_option (λ out, Z.of_nat (length (fences_of m (splitlines out)))) 0%Z
           (probe (runs (u "stonith")))) as Hz.
    { destruct (probe (runs (u "stonith"))); [apply parse_stonith_spec|done]. }
    pose proof (dict_of_keys crm_node (findall [u "nodes"; u "node"] root) m) as Hm.
    rewrite <-Hz. split.
    + intros (c & [= <-] & Hin & ->). split; [by apply Hm|done].
    + intros [Hin ->]. eexists. split_and!; [done|by apply Hm|done].
  - intros source. rewrite fresh_elem. cbn [pd_fresh].
    rewrite elem_of_cons, !elem_of_app, !elem_of_answered, !elem_of_cons, elem_of_nil.
    assert (is_Some (probe (runs (u "crm")))) by (by rewrite Hraw). split.
    + intros [->|[[? ->]|[[? ->]|[? ->]]]]; tauto.
    + intros [[[->|[->|[->|[]]]] ?]|[-> ?]]; tauto.
Qed.
End properties.

(** ** Witnesses *)

(** A resource under [--verbose --statistics]: a peer that drbdsetup gives one line, cut off,
    then one that is connected and resyncing; both lines name the peer's role. *)
Definition demo_block : Block :=
  mk_block (u "mqlun") [] (u "Primary") [u "suspended:no"] [(4, [u "write-ordering:flush"])]
    [mk_volume [u "volume:0"; u "minor:0"] (u "UpToDate") []
       [(6, [u "size:8388316"; u "read:13341"; u "blocked:no"])]]
    [mk_peer [u "san-a2"] (u "StandAlone") [u "role:Unknown"; u "congested:no"] [] [];
     mk_peer [u "san-b1"] (u "Connected") [u "role:Secondary"; u "congested:no"] []
       [mk_pvolume [u "volume:0"; u "replication:SyncSource"; u "peer-disk:Inconsistent"]
          (Some (u "73e0", S754_finite false 73 0)) [] []
          (Some ([u "received:0"; u "sent:65712"], 2202010%Z, [u "pending:0"; u "unacked:0"], [(0, [])]))]].

Lemma drbd_exact_witness :
  parse_drbd (print_drbd [demo_block]) =
    Ok [(u "mqlun", mk_drbd (u "Primary") (u "UpToDate") (u "Connected") (S754_finite false 73 0) 2202010)].
Proof.
  rewrite drbd_exact; [by vm_compute|].
  apply Forall_singleton. unfold block_ok. repeat (apply conj; [closed_text|]).
  unfold body_lines, demo_block, volume_lines, peer_lines, pvolume_lines, more_lines. csimpl.
  repeat (apply Forall_cons_2; [|]); try apply Forall_nil_2;
    (unfold line_ok; cbn [ln_indent ln_before ln_after ln_fact];
     repeat (apply conj; [first [done|closed_text]|]); intros f H; try done; injection H as <-; cbn [fact_ok];
     first [by split; [closed_text|vm_compute]|closed_text|by vm_compute]).
Defined.

Definition demo_tree : elem :=
  Elem (u "pacemaker-result") []
    [Elem (u "summary") [] [Elem (u "current_dc") [(u "with_quorum", u "true")] []];
     Elem (u "nodes") []
       [Elem (u "node") [(u "name", u "pcmk-a1"); (u "online", u "true")] [];
        Elem (u "node") [(u "name", u "pcmk-a2"); (u "online", u "false"); (u "unclean", u "true")] []];
     Elem (u "resources") []
       [Elem (u "group") [(u "id", u "mq_group")]
          [Elem (u "resource") [(u "id", u "mq_qm"); (u "role", u "Started")]
             [Elem (u "node") [(u "name", u "pcmk-a1")] []]]]].

Definition demo_runs (source : text) : probe_run :=
  if bool_decide (source = u "crm") then Exited 0 (u "<xml/>")
  else if bool_decide (source = u "stonith") then Exited 0 (u "pcmk-a2 was fenced by pcmk-a1")
  else if bool_decide (source = u "daemons") then Exited 3 (u "active") else TimedOut.

Lemma cluster_metrics_sound_witness :
  ∃ l, collect_samples (λ _, Some demo_tree) (u "cluster") (u "pcmk-a1") 1700000000 demo_runs = Ok l ∧
    flag (u "cluster_resource_owner")
      (resource_labels (u "pcmk-a1") (u "mq_qm") ++ [(u "holder", u "pcmk-a1")]) true ∈ l ∧
    fresh_sample (u "pcmk-a1") 1700000000 (u "iscsi") ∉ l.
Proof.
  destruct (collect_samples (λ _, Some demo_tree) (u "cluster") (u "pcmk-a1") 1700000000 demo_runs)
    as [l|] eqn:Hl; [|by vm_compute in Hl].
  exists l. split; [done|].
  destruct (cluster_metrics_sound (λ _, Some demo_tree) (u "pcmk-a1") 1700000000 demo_runs (u "<xml/>")
    demo_tree l ltac:(by vm_compute) eq_refl ltac:(closed_text) Hl) as (_ & Ho & _ & Hf).
  split.
  - apply Ho. split; [done|].
    exists (Elem (u "group") [(u "id", u "mq_group")]
          [Elem (u "resource") [(u "id", u "mq_qm"); (u "role", u "Started")]
             [Elem (u "node") [(u "name", u "pcmk-a1")] []]]),
           (Elem (u "resource") [(u "id", u "mq_qm"); (u "role", u "Started")]
             [Elem (u "node") [(u "name", u "pcmk-a1")] []]).
    split_and!; try done.
    + eapply descends_below; [do 2 right; left|]. constructor. left.
    + constructor. left.
  - rewrite Hf. intros [[_ [? H]]|[H _]]; by vm_compute in H.
Defined.
