(* ===== verification/Rdqm.v ===== *)
(** * The RDQM cluster state collector

    Models mqro/rdqmstate.py: the resource names RDQM derives from a queue manager, the
    parsers of rdqmstatus and crm_mon, the metrics, and one collection. What the probes
    print is input; the XML parser and [str.lower] are parameters; the textfile write of
    [main] is left out. *)

From S2P Require Import Prelude PyText PyCodec PyDict PyFloat PyJson JsonRoundTrip Prom NativeHa Xml ClusterState.

(** The exceptions of [collect]. *)
Inductive RdqmError := BadQmName | BadFailcount | OfProbe (e : ProbeError) | TooLongToWrite.

Definition INFINITY : Z := 1000000.

Definition PM_CODE : list (text * Z) :=
  [(u "Started", 2%Z); (u "Promoted", 2%Z); (u "Master", 2%Z); (u "Unpromoted", 1%Z); (u "Slave", 1%Z)].

Definition ROLE_CODE : list (text * Z) := [(u "Primary", 2%Z); (u "Secondary", 1%Z)].

Definition DR_ROLE_CODE : list (text * Z) := [(u "Primary", 2%Z); (u "Secondary", 3%Z)].

(** [d.get(key, 0)] for a key that may be [None]. *)
Definition code_of (d : list (text * Z)) (key : option text) : Z :=
  match key with Some k => dget_or d k 0%Z | None => 0%Z end.

(** ** parse_rdqmstatus *)

(** [blocks]; the block being filled, [cur], is the last of them. *)
Definition set_last (key v : text) (blocks : list (list (text * text))) : list (list (text * text)) :=
  match rev blocks with
  | [] => []
  | cur :: before => rev before ++ [dset cur key v]
  end.

Definition status_line (blocks : list (list (text * text))) (raw : text) : list (list (text * text)) :=
  if bool_decide (strip raw = []) then blocks
  else match cut 58 raw with
       | None => blocks
       | Some (key, v) =>
           if bool_decide (strip key = u "Node") then blocks ++ [[(u "node", strip v)]]
           else set_last (strip key) (strip v) blocks
       end.

Definition status_blocks (out : text) : list (list (text * text)) := foldl status_line [] (splitlines out).

Record RdqmStatus := mk_status {
  rs_node : option text; rs_ha_status : text;
  rs_qm_status : option text; rs_ha_role : option text;
  rs_current : option text; rs_preferred : option text;
  rs_floating_ip : option text; rs_floating_if : option text;
  rs_dr_role : option text; rs_dr_status : option text;
  rs_members : list (text * text)
}.

(** The fields of the local block, and every block's HA status under its node name (each
    block has one: it was opened with it). *)
Definition status_of (blocks : list (list (text * text))) : RdqmStatus :=
  let local := default [] (head blocks) in
  let ha b := dget_or b (u "HA status") (u "Unknown") in
  mk_status (dget local (u "node")) (ha local)
    (dget local (u "Queue manager status")) (dget local (u "HA role"))
    (dget local (u "HA current location")) (dget local (u "HA preferred location"))
    (dget local (u "HA floating IP address")) (dget local (u "HA floating IP interface"))
    (dget local (u "DR role")) (dget local (u "DR status"))
    (dict_of (λ b, (dget_or b (u "node") [], ha b)) blocks).

Definition parse_rdqmstatus (out : text) : RdqmStatus := status_of (status_blocks out).

(** ** _parse_failcount *)

(** The characters with a digit value that are no decimal digits. *)
Definition other_digits : list (N * N) :=
  [(178, 179); (185, 185); (4969, 4977); (6618, 6618); (8304, 8304); (8308, 8313); (8320, 8329);
   (9312, 9320); (9332, 9340); (9352, 9360); (9450, 9450); (9461, 9469); (9471, 9471);
   (10102, 10110); (10112, 10120); (10122, 10130); (68160, 68163); (69216, 69224);
   (69714, 69722); (127232, 127242)]%N.

Definition is_digit_char (c : N) : bool :=
  bool_decide (is_Some (decimal_digit c)) || existsb (λ r, (r.1 <=? c) && (c <=? r.2))%N other_digits.

(** [s.isdigit()]. *)
Definition isdigit (s : text) : bool := negb (bool_decide (s = [])) && forallb is_digit_char s.

Definition parse_failcount (fc : option text) : res RdqmError Z :=
  match fc with
  | None => Ok 0%Z
  | Some s =>
      if bool_decide (s = u "INFINITY") then Ok INFINITY
      else if isdigit (lstrip_by (N.eqb 45) s) then of_option BadFailcount (int_of_text s)
      else Ok 0%Z
  end.

Section rdqm.
Context `{FT : FloatText} (fromstring : text → option elem) (lower : text → text).

(** ** Resource names *)

Definition rdqm_resource_base (qm : text) : res RdqmError text :=
  if bool_decide (qm = []) || existsb (λ c, (c =? 46) || (c =? 47))%N qm then Err BadQmName
  else Ok (lower qm).

Definition rdqm_pm_resources (qm : text) : res RdqmError (list text) :=
  base ← rdqm_resource_base qm;
  Ok [base; u "p_drbd_" ++ base; u "p_drbd_dr_" ++ base; u "p_ip_" ++ base].

(** ** parse_crm *)

Record PmView := mk_pm {
  pm_nodes : list (text * bool); pm_roles : list (text * list (text * text));
  pm_failcount : list (text * Z)
}.

(** One placed instance of a resource: [roles.setdefault(id, {})[node] = role]. *)
Definition add_pm_role (roles : list (text * list (text * text))) (r : elem) :
    list (text * list (text * text)) :=
  match find [u "node"] r with
  | None => roles
  | Some held =>
      let id := e_get_or r (u "id") [] in
      dset roles id (dset (dget_or roles id []) (e_get_or held (u "name") []) (e_get_or r (u "role") []))
  end.

(** One node of a node history: the fail counts of the queue manager's primitive. *)
Definition add_failcounts (qm_resource : text) (fc : list (text * Z)) (n : elem) :
    res RdqmError (list (text * Z)) :=
  res_foldM (λ fc rh,
    if bool_decide (e_get rh (u "id") = Some qm_resource) then
      z ← parse_failcount (e_get rh (u "fail-count"));
      Ok (dset fc (e_get_or n (u "name") []) z)
    else Ok fc) fc (child_tag (u "resource_history") n).

Definition parse_crm (out qm : text) : res RdqmError PmView :=
  root ← of_option (OfProbe BadXml) (fromstring out);
  let nodes := dict_of (λ n, (e_get_or n (u "name") [], e_true n (u "online")))
                 (findall [u "nodes"; u "node"] root) in
  let roles := match find [u "resources"] root with
               | Some p => foldl add_pm_role [] (iter_tag (u "resource") p)
               | None => []
               end in
  qm_resource ← rdqm_resource_base qm;
  fc ← res_foldM (add_failcounts qm_resource) [] (below (u "node_history") root ≫= child_tag (u "node"));
  Ok (mk_pm nodes roles fc).

(** ** Metrics *)

Section render.
Context (node qm : text).

(** [_resolve]. *)
Definition resolve_location (location : text) : text :=
  if bool_decide (location = u "This node") then node else location.

Definition is_running (s : RdqmStatus) : bool := bool_decide (rs_qm_status s = Some (u "Running")).

Definition opt_samples {A} (f : A → list sample) (o : option A) : list sample :=
  match o with Some a => f a | None => [] end.

Definition member_samples (m : text * text) : list sample :=
  [flag (u "cluster_node_online") (member_labels node m.1) (bool_decide (m.2 = u "Normal"));
   flag (u "cluster_rdqm_member_status") (member_labels node m.1 ++ [(u "status", m.2)]) true].

(** The floating IP, of a node that runs the queue manager. *)
Definition floating_samples (s : RdqmStatus) : list sample :=
  opt_samples (λ ip,
    if is_running s then
      [flag (u "cluster_rdqm_floating_ip")
         [(u "node", node); (u "ip", ip); (u "interface", default (u "None") (rs_floating_if s))] true]
    else []) (rs_floating_ip s).

Definition location_sample (kind location : text) : sample :=
  flag (u "cluster_rdqm_location") [(u "node", node); (u "kind", kind); (u "holder", resolve_location location)] true.

Definition owner_sample (holder : text) : sample :=
  flag (u "cluster_resource_owner") [(u "node", node); (u "resource", qm); (u "holder", holder)] true.

Definition location_samples (s : RdqmStatus) : list sample :=
  opt_samples (λ loc, location_sample (u "current") loc
    :: if is_running s then [owner_sample (resolve_location loc)] else []) (rs_current s)
  ++ opt_samples (λ loc, [location_sample (u "preferred") loc]) (rs_preferred s).

Definition dr_samples (s : RdqmStatus) : list sample :=
  opt_samples (λ r,
    [flag (u "cluster_rdqm_dr_role") [(u "node", node); (u "role", r)] true;
     mk_sample (u "cluster_rdqm_dr_role_code") (n_labels node) (VInt (dget_or DR_ROLE_CODE r 0%Z))])
    (rs_dr_role s)
  ++ opt_samples (λ st,
    if startswith st (u "See ") then [] else
    [flag (u "cluster_rdqm_dr_status") [(u "node", node); (u "status", st)] true;
     flag (u "cluster_rdqm_dr_status_ok") (n_labels node) (bool_decide (st = u "Normal"))])
    (rs_dr_status s).

Definition status_samples (s : RdqmStatus) : list sample :=
  let ha_ok := bool_decide (rs_ha_status s = u "Normal") in
  [flag (u "cluster_quorate") (n_labels node) ha_ok;
   flag (u "cluster_rdqm_ha_status_ok") (n_labels node) ha_ok;
   flag (u "cluster_rdqm_ha_status") [(u "node", node); (u "status", rs_ha_status s)] true]
  ++ opt_samples (λ r, [flag (u "cluster_rdqm_role") (member_labels node node ++ [(u "role", r)]) true])
       (rs_ha_role s)
  ++ [mk_sample (u "cluster_rdqm_role_code") (member_labels node node) (VInt (code_of ROLE_CODE (rs_ha_role s)));
      flag (u "cluster_rdqm_qm_running") (member_labels node node) (is_running s)]
  ++ (rs_members s ≫= member_samples) ++ floating_samples s ++ location_samples s ++ dr_samples s.

(** The Pacemaker layer of one member. *)
Definition pm_role (v : PmView) (r member : text) : option text := dget (dget_or (pm_roles v) r []) member.
Definition failcount_of (v : PmView) (member : text) : Z := dget_or (pm_failcount v) member 0%Z.
Definition startable (v : PmView) (member : text) : bool := (failcount_of v member <? INFINITY)%Z.

Definition pm_samples (v : PmView) (resources : list text) (m : text * bool) : list sample :=
  let '(member, online) := m in
  let base := member_labels node member in
  flag (u "cluster_rdqm_pm_online") base online
  :: ((λ r, mk_sample (u "cluster_rdqm_pm_state") (base ++ [(u "resource", r)])
              (VInt (code_of PM_CODE (pm_role v r member)))) <$> resources)
  ++ [mk_sample (u "cluster_rdqm_failcount") base (VInt (failcount_of v member));
      flag (u "cluster_rdqm_qm_startable") base (startable v member);
      flag (u "cluster_rdqm_node_ready") base (online && startable v member)].

(** The samples of [render_rdqm_state_prom]. *)
Definition rdqm_samples (status : option RdqmStatus) (drbd : option (list (text * Drbd)))
    (crm : option PmView) (now : Z) (fresh : list text) : res RdqmError (list sample) :=
  pm ← match crm with
       | None => Ok []
       | Some v =>
           (* the resource names are derived again for every member *)
           match pm_nodes v with
           | [] => Ok []
           | nodes => resources ← rdqm_pm_resources qm; Ok (nodes ≫= pm_samples v resources)
           end
       end;
  Ok (opt_samples status_samples status
      ++ opt_samples (λ d, d ≫= drbd_samples node) drbd ++ pm ++ (fresh_sample node now <$> fresh)).
End render.

(** ** collect *)

Definition rdqm_commands (qm : text) : list (text * (list text * Z)) :=
  [(u "rdqmstatus", ([u "/opt/mqm/bin/rdqmstatus"; u "-m"; qm], 3%Z));
   (u "drbd", ([u "drbdsetup"; u "status"; u "--verbose"; u "--statistics"], 2%Z));
   (u "crm", ([u "crm_mon"; u "--one-shot"; u "--output-as=xml"], 3%Z))].

(** The samples of one [collect], from the runs of the three commands (that of rdqmstatus
    with its standard error in the output). *)
Definition collect_samples (node qm : text) (now : Z) (rdqmstatus drbd crm : probe_run) :
    res RdqmError (list sample) :=
  _ ← rdqm_resource_base qm;
  d ← match probe drbd with
      | None => Ok None
      | Some raw => Some <$> map_err OfProbe (parse_drbd raw)
      end;
  c ← match probe crm with None => Ok None | Some raw => Some <$> parse_crm raw qm end;
  rdqm_samples node qm (parse_rdqmstatus <$> probe rdqmstatus) d c now
    (answered (probe rdqmstatus) (u "rdqmstatus") ++ answered (probe drbd) (u "drbd")
     ++ answered (probe crm) (u "crm")).

Definition collect (node qm : text) (now : Z) (rdqmstatus drbd crm : probe_run) : res RdqmError text :=
  l ← collect_samples node qm now rdqmstatus drbd crm; of_option TooLongToWrite (body l).
End rdqm.

(** ** What the metrics say *)

(** Finds the part of a rendering a sample stands in; parts that only have samples of
    other names disappear. *)
Ltac sample_cases :=
  repeat match goal with
  | H : _ ∈ _ ++ _ |- _ => apply elem_of_app in H as [H|H]
  | H : _ ∈ _ :: _ |- _ => apply elem_of_cons in H as [H|H]
  | H : _ ∈ [] |- _ => by apply elem_of_nil in H
  | H : _ ∈ opt_samples _ ?o |- _ => destruct o eqn:?; cbn [opt_samples] in H
  | H : _ ∈ (if ?b then _ else _) |- _ => destruct b eqn:?
  | H : _ ∈ _ <$> _ |- _ => apply list_elem_of_fmap in H as (? & H & ?)
  | H : _ ∈ _ ≫= _ |- _ => apply list_elem_of_bind in H as (? & H & ?)
  | H : _ ∈ drbd_samples _ ?rd |- _ => destruct rd; cbn [drbd_samples] in H
  | H : _ ∈ member_samples _ _ |- _ => unfold member_samples in H
  | H : _ ∈ floating_samples _ _ |- _ => unfold floating_samples in H
  | H : _ ∈ location_samples _ _ _ |- _ => unfold location_samples in H
  | H : _ ∈ dr_samples _ _ |- _ => unfold dr_samples in H
  | H : _ ∈ status_samples _ _ _ |- _ => unfold status_samples in H
  | H : _ ∈ pm_samples _ _ _ ?m |- _ => destruct m; cbn [pm_samples] in H
  end; try done.

Section properties.
Context `{FT : FloatText} (fromstring : text → option elem) (lower : text → text).

Lemma rdqm_samples_inv node qm status drbd crm now fresh l :
  rdqm_samples lower node qm status drbd crm now fresh = Ok l →
  ∃ resources, l = opt_samples (status_samples node qm) status
    ++ opt_samples (λ d, d ≫= drbd_samples node) drbd
    ++ opt_samples (λ v, pm_nodes v ≫= pm_samples node v resources) crm
    ++ (fresh_sample node now <$> fresh).
Proof.
  unfold rdqm_samples. intros (pm & Hpm & Hl)%bind_Ok. injection Hl as <-.
  destruct crm as [v|]; [|exists []; by injection Hpm as <-]. cbn [opt_samples].
  destruct (pm_nodes v) as [|m nodes] eqn:Hn; [exists []; by injection Hpm as <-|].
  apply bind_Ok in Hpm as (resources & Hr & Hpm). injection Hpm as <-. by exists resources.
Qed.

Lemma elem_of_opt {A} (f : A → list sample) o s : s ∈ opt_samples f o ↔ ∃ a, o = Some a ∧ s ∈ f a.
Proof. destruct o; cbn [opt_samples]; rewrite ?elem_of_nil; naive_solver. Qed.

Lemma owner_in_status node qm s h :
  owner_sample node qm h ∈ status_samples node qm s ↔
    rs_qm_status s = Some (u "Running") ∧ ∃ loc, rs_current s = Some loc ∧ h = resolve_location node loc.
Proof.
  split.
  - intros H. sample_cases. split; [by apply bool_decide_eq_true in Heqb|].
    injection H as ->. eauto.
  - intros (Hr & loc & Hl & ->). unfold status_samples. do 4 (apply elem_of_app; right).
    apply elem_of_app; right. apply elem_of_app; left. unfold location_samples, is_running.
    rewrite Hl, Hr. apply elem_of_app; left. cbn [opt_samples]. right. by left.
Qed.

Lemma floating_in_status node qm s ip ifc :
  flag (u "cluster_rdqm_floating_ip") [(u "node", node); (u "ip", ip); (u "interface", ifc)] true
      ∈ status_samples node qm s ↔
    rs_qm_status s = Some (u "Running") ∧ rs_floating_ip s = Some ip ∧
    ifc = default (u "None") (rs_floating_if s).
Proof.
  split.
  - intros H. sample_cases. injection H as -> ->. by apply bool_decide_eq_true in Heqb.
  - intros (Hr & Hi & ->). unfold status_samples. do 4 (apply elem_of_app; right).
    apply elem_of_app; left. unfold floating_samples, is_running. rewrite Hi, Hr.
    cbn [opt_samples]. by left.
Qed.

Lemma dr_ok_in_status node qm s b :
  flag (u "cluster_rdqm_dr_status_ok") (n_labels node) b ∈ status_samples node qm s ↔
    ∃ st, rs_dr_status s = Some st ∧ ¬ u "See " `prefix_of` st ∧ b = bool_decide (st = u "Normal").
Proof.
  split.
  - intros H. sample_cases. apply flag_inj in H. unfold startswith in Heqb0.
    apply bool_decide_eq_false in Heqb0. eauto.
  - intros (st & Hs & Hn & ->). unfold status_samples. do 6 (apply elem_of_app; right).
    unfold dr_samples. apply elem_of_app; right. rewrite Hs. cbn [opt_samples]. unfold startswith.
    rewrite (bool_decide_eq_false_2 (u "See " `prefix_of` st)) by done. right; left.
Qed.

Lemma ready_in_pm node v resources m member b :
  flag (u "cluster_rdqm_node_ready") (member_labels node member) b ∈ pm_samples node v resources m ↔
    member = m.1 ∧ b = (m.2 && startable v member).
Proof.
  destruct m as [m online]. cbn [fst snd]. split.
  - intros H. cbn [pm_samples] in H. sample_cases.
    unfold flag, member_labels in H. injection H as Hm H. subst member. split; [done|].
    by destruct (online && startable v m), b.
  - intros [-> ->]. cbn [pm_samples]. right. apply elem_of_app; right. by do 2 right; left.
Qed.
(** A sample of a collection stands in the status part, or in the Pacemaker part of a
    member, or is a replication sample or a timestamp. *)
Lemma collect_inv node qm now st drbd crm l :
  collect_samples fromstring lower node qm now st drbd crm = Ok l →
  ∃ d c resources,
    l = opt_samples (status_samples node qm) (parse_rdqmstatus <$> probe st)
      ++ opt_samples (λ d, d ≫= drbd_samples node) d
      ++ opt_samples (λ v, pm_nodes v ≫= pm_samples node v resources) c
      ++ (fresh_sample node now <$> (answered (probe st) (u "rdqmstatus")
            ++ answered (probe drbd) (u "drbd") ++ answered (probe crm) (u "crm"))) ∧
    match probe crm with
    | None => c = None
    | Some raw => ∃ v, c = Some v ∧ parse_crm fromstring lower raw qm = Ok v
    end.
Proof.
  unfold collect_samples. intros (base & _ & (d & _ & (c & Hc & Hl)%bind_Ok)%bind_Ok)%bind_Ok.
  apply rdqm_samples_inv in Hl as [resources ->]. exists d, c, resources. split; [done|].
  destruct (probe crm) as [raw|]; [|by injection Hc as <-].
  apply fmap_Ok in Hc as (v & Hv & ->). eauto.
Qed.

(** What the RDQM cockpit shows of a collection: an owner of the queue manager, and a
    floating IP, only on a node whose queue manager runs, and then where rdqmstatus says
    (this node under its own name); the DR health exactly for a status that is no pointer
    to another node; a member ready exactly when Pacemaker has it online and its fail
    count is below the ban; and a timestamp for exactly the sources that answered. *)
Theorem rdqm_metrics_sound node qm now st drbd crm l :
  collect_samples fromstring lower node qm now st drbd crm = Ok l →
  (∀ h, owner_sample node qm h ∈ l ↔
     ∃ out, probe st = Some out ∧ rs_qm_status (parse_rdqmstatus out) = Some (u "Running") ∧
       ∃ loc, rs_current (parse_rdqmstatus out) = Some loc ∧ h = resolve_location node loc) ∧
  (∀ ip ifc,
     flag (u "cluster_rdqm_floating_ip") [(u "node", node); (u "ip", ip); (u "interface", ifc)] true ∈ l ↔
     ∃ out, probe st = Some out ∧ rs_qm_status (parse_rdqmstatus out) = Some (u "Running") ∧
       rs_floating_ip (parse_rdqmstatus out) = Some ip ∧
       ifc = default (u "None") (rs_floating_if (parse_rdqmstatus out))) ∧
  (∀ b, flag (u "cluster_rdqm_dr_status_ok") (n_labels node) b ∈ l ↔
     ∃ out dr, probe st = Some out ∧ rs_dr_status (parse_rdqmstatus out) = Some dr ∧
       ¬ u "See " `prefix_of` dr ∧ b = bool_decide (dr = u "Normal")) ∧
  (∀ member b, flag (u "cluster_rdqm_node_ready") (member_labels node member) b ∈ l ↔
     ∃ out v online, probe crm = Some out ∧ parse_crm fromstring lower out qm = Ok v ∧
       (member, online) ∈ pm_nodes v ∧ b = (online && (failcount_of v member <? INFINITY)%Z)) ∧
  (∀ source, fresh_sample node now source ∈ l ↔
     source = u "rdqmstatus" ∧ is_Some (probe st) ∨ source = u "drbd" ∧ is_Some (probe drbd) ∨
     source = u "crm" ∧ is_Some (probe crm)).
Proof.
  intros (d & c & resources & -> & Hc)%collect_inv. split_and!.
  - intros h. split.
    + intros H. apply elem_of_app in H as [H|H]; [|sample_cases].
      apply elem_of_opt in H as (s & Hs & H). apply owner_in_status in H.
      apply fmap_Some in Hs as (out & -> & ->). by exists out.
    + intros (out & -> & H). apply elem_of_app; left. by apply owner_in_status.
  - intros ip ifc. split.
    + intros H. apply elem_of_app in H as [H|H]; [|sample_cases].
      apply elem_of_opt in H as (s & Hs & H). apply floating_in_status in H.
      apply fmap_Some in Hs as (out & -> & ->). by exists out.
    + intros (out & -> & H). apply elem_of_app; left. by apply floating_in_status.
  - intros b. split.
    + intros H. apply elem_of_app in H as [H|H]; [|sample_cases].
      apply elem_of_opt in H as (s & Hs & H). apply dr_ok_in_status in H as (dr & H).
      apply fmap_Some in Hs as (out & -> & ->). by exists out, dr.
    + intros (out & dr & -> & H). apply elem_of_app; left. apply dr_ok_in_status. by exists dr.
  - intros member b. split.
    + intros H. rewrite !elem_of_app in H. destruct H as [H|[H|[H|H]]]; [sample_cases..| |sample_cases].
      apply elem_of_opt in H as (v & -> & (m & Hm & Hin)%list_elem_of_bind).
      apply ready_in_pm in Hm as [-> ->]. destruct (probe crm) as [raw|]; [|done].
      destruct Hc as (v' & [= <-] & Hv). exists raw, v, m.2. by destruct m.
    + intros (out & v & online & Hcrm & Hv & Hin & ->). rewrite Hcrm in Hc.
      destruct Hc as (v' & -> & Hv'). rewrite Hv in Hv'. injection Hv' as <-.
      do 2 (apply elem_of_app; right). apply elem_of_app; left. cbn [opt_samples].
      apply list_elem_of_bind. exists (member, online). split; [|done]. by apply ready_in_pm.
  - intros source. rewrite !elem_of_app. split.
    + intros [H|[H|[H|H]]]; [sample_cases..|]. apply list_elem_of_fmap in H as (src & Heq & H).
      injection Heq as <-. rewrite !elem_of_app, !elem_of_answered in H. tauto.
    + intros H. do 3 right. apply list_elem_of_fmap. exists source. split; [done|].
      rewrite !elem_of_app, !elem_of_answered. tauto.
Qed.
(** ** What raises *)

Lemma foldM_succeeds {E A S} (f : S → A → res E S) (P : A → Prop) s l :
  (∀ s x, (∃ s', f s x = Ok s') ↔ P x) → (∃ s', res_foldM f s l = Ok s') ↔ Forall P l.
Proof.
  intros Hf. revert s. induction l as [|x l IH]; intros s; cbn [res_foldM].
  { split; [by constructor|by eexists]. }
  rewrite Forall_cons, <-(Hf s x), <-(IH s). split.
  - intros (s' & (s1 & H1 & H2)%bind_Ok). split; [by eexists|]. apply IH, (IH s1). eauto.
  - intros [[s1 H1] H2]. rewrite H1. cbn [mbind res_bind]. by apply IH, (IH s).
Qed.

(** The fail counts that raise: the digit test lets them through, [int] does not. *)
Definition bad_failcount (fc : option text) : Prop :=
  ∃ s, fc = Some s ∧ s ≠ u "INFINITY" ∧ isdigit (lstrip_by (N.eqb 45) s) = true ∧ int_of_text s = None.

Lemma parse_failcount_Ok fc : (∃ z, parse_failcount fc = Ok z) ↔ ¬ bad_failcount fc.
Proof.
  unfold parse_failcount, bad_failcount. destruct fc as [s|].
  2:{ split; [by intros _ (? & ? & _)|by eexists]. }
  case_bool_decide as Hi; [subst; split; [by intros _ (? & [= <-] & ? & _)|by eexists]|].
  destruct (isdigit _) eqn:Hd; [|split; [intros _ (? & [= <-] & _ & ? & _); congruence|by eexists]].
  destruct (int_of_text s) as [z|] eqn:Hz; simpl; split; try by eexists.
  - intros _ (? & [= <-] & _ & _ & ?). congruence.
  - by intros [? ?].
  - intros Hb. exfalso. apply Hb. by exists s.
Qed.

(** The histories of the queue manager's primitive in a tree. *)
Definition qm_history (root : elem) (base : text) (rh : elem) : Prop :=
  ∃ n, n ∈ below (u "node_history") root ≫= child_tag (u "node") ∧
    rh ∈ child_tag (u "resource_history") n ∧ e_get rh (u "id") = Some base.

Lemma failcounts_Ok root base fc :
  (∃ fc', res_foldM (add_failcounts base) fc
            (below (u "node_history") root ≫= child_tag (u "node")) = Ok fc') ↔
    ∀ rh, qm_history root base rh → ¬ bad_failcount (e_get rh (u "fail-count")).
Proof.
  rewrite (foldM_succeeds _ (λ n, ∀ rh, rh ∈ child_tag (u "resource_history") n →
    e_get rh (u "id") = Some base → ¬ bad_failcount (e_get rh (u "fail-count")))).
  - rewrite Forall_forall. split.
    + intros H rh (n & Hn & Hrh & Hid). by apply (H n).
    + intros H n Hn rh Hrh Hid. apply H. by exists n.
  - intros fc0 n. unfold add_failcounts. rewrite (foldM_succeeds _ (λ rh,
      e_get rh (u "id") = Some base → ¬ bad_failcount (e_get rh (u "fail-count")))).
    + by rewrite Forall_forall.
    + intros fc1 rh. case_bool_decide as Hid; [|split; [done|by eexists]].
      rewrite <-parse_failcount_Ok. destruct (parse_failcount _) as [z|e]; simpl.
      * split; by eexists.
      * split; [by intros [? ?]|]. intros H. by destruct (H Hid).
Qed.

(** The names [rdqm_resource_base] takes. *)
Definition qm_name_ok (qm : text) : Prop := qm ≠ [] ∧ (46%N ∉ qm) ∧ (47%N ∉ qm).

Lemma resource_base_Ok qm base :
  rdqm_resource_base lower qm = Ok base ↔ qm_name_ok qm ∧ base = lower qm.
Proof.
  unfold rdqm_resource_base, qm_name_ok. assert (existsb (λ c, (c =? 46) || (c =? 47))%N qm = true ↔
    46%N ∈ qm ∨ 47%N ∈ qm) as Hex.
  { rewrite existsb_exists. setoid_rewrite orb_true_iff. setoid_rewrite N.eqb_eq.
    setoid_rewrite <-list_elem_of_In. naive_solver. }
  destruct (existsb _ qm) eqn:Hx.
  - rewrite orb_true_r. split; [done|]. intros [(_ & H1 & H2) _]. exfalso. by destruct (proj1 Hex eq_refl).
  - rewrite orb_false_r. case_bool_decide as He; [split; [done|by intros [(? & _) _]]|].
    split; [|by intros [_ ->]]. intros [= <-]. split; [|done].
    split_and!; [done|intros H; by assert (false = true) by (apply Hex; tauto)..].
Qed.

(** When a collection succeeds: exactly when the queue manager's name is not empty and
    free of '.' and '/', no line of drbdsetup carries a number that does not convert,
    crm_mon printed XML, and no history of the queue manager has a fail count that looks
    like digits and is none; failed, late and otherwise garbled probes never matter. *)
Theorem rdqm_collect_succeeds node qm now st drbd crm :
  (∃ l, collect_samples fromstring lower node qm now st drbd crm = Ok l) ↔
    qm_name_ok qm ∧
    (∀ raw line, probe drbd = Some raw → line ∈ splitlines raw → ¬ bad_number line) ∧
    (∀ raw, probe crm = Some raw → ∃ root, fromstring raw = Some root ∧
       ∀ rh, qm_history root (lower qm) rh → ¬ bad_failcount (e_get rh (u "fail-count"))).
Proof.
  unfold collect_samples, rdqm_samples, rdqm_pm_resources. split.
  - intros [l Hl]. apply bind_Ok in Hl as (base & [Hqm ->]%resource_base_Ok & Hl).
    apply bind_Ok in Hl as (d & Hd & Hl). apply bind_Ok in Hl as (c & Hc & _). split_and!; [done|..].
    + intros raw line Hraw Hline Hbad. rewrite Hraw in Hd. apply fmap_Ok in Hd as (d' & Hd & _).
      apply map_err_Ok in Hd. assert (parse_drbd raw = Err BadNumber) by (apply (parse_drbd_Err fromstring); eauto). congruence.
    + intros raw Hraw. rewrite Hraw in Hc. apply fmap_Ok in Hc as (v & Hc & _). unfold parse_crm in Hc.
      apply bind_Ok in Hc as (root & Hroot%of_option_Ok & Hc). exists root. split; [done|].
      apply bind_Ok in Hc as (b & [_ ->]%resource_base_Ok & Hc). apply bind_Ok in Hc as (fc & Hfc & _).
      apply failcounts_Ok with (fc := []). eauto.
  - intros (Hqm & Hd & Hc). assert (rdqm_resource_base lower qm = Ok (lower qm)) as Hbase
      by (by apply resource_base_Ok).
    rewrite Hbase. cbn [mbind res_bind].
    assert (∃ d, match probe drbd with
                 | Some raw => Some <$> map_err OfProbe (parse_drbd raw)
                 | None => Ok None
                 end = Ok d) as [d ->].
    { destruct (probe drbd) as [raw|]; [|by eexists]. destruct (parse_drbd raw) as [d|e] eqn:He; [by eexists|].
      apply (parse_drbd_Err fromstring) in He as (_ & line & Hl & Hb). exfalso. by eapply Hd. }
    assert (∃ c, match probe crm with
                 | Some raw => Some <$> parse_crm fromstring lower raw qm
                 | None => Ok None
                 end = Ok c) as [c ->].
    { destruct (probe crm) as [raw|]; [|by eexists]. destruct (Hc raw eq_refl) as (root & Hroot & Hfc).
      unfold parse_crm. rewrite Hroot, Hbase. cbn [of_option mbind res_bind].
      apply (failcounts_Ok root (lower qm) []) in Hfc as [fc ->]. by eexists. }
    cbn [mbind res_bind]. destruct c as [v|]; [|by eexists].
    destruct (pm_nodes v); by eexists.
Qed.
End properties.

(** ** What rdqmstatus prints *)

(** A field as printed: indentation, key, padding and value. *)
Record Field := mk_field { fd_indent : nat; fd_key : text; fd_pad : nat; fd_value : text }.

(** Stripped texts without a line break; a key has no colon and opens no block. *)
Definition clean (s : text) : Prop := strip s = s ∧ Forall (λ c, is_linebreak c = false) s.
Definition key_ok (k : text) : Prop := clean k ∧ k ≠ [] ∧ (58%N ∉ k) ∧ k ≠ u "Node".
Definition field_ok (f : Field) : Prop := key_ok (fd_key f) ∧ clean (fd_value f).

#[export] Instance clean_dec s : Decision (clean s).
Proof. unfold clean. apply _. Defined.
#[export] Instance field_ok_dec f : Decision (field_ok f).
Proof. unfold field_ok, key_ok. apply _. Defined.

Definition print_field (f : Field) : text :=
  replicate (fd_indent f) 32%N ++ fd_key f ++ 58%N :: replicate (fd_pad f) 32%N ++ fd_value f.

(** A block: the node's line, its fields, an empty line. *)
Record StatusBlock := mk_sblock { sb_pad : nat; sb_node : text; sb_fields : list Field }.

Definition block_text (b : StatusBlock) : list text :=
  print_field (mk_field 0 (u "Node") (sb_pad b) (sb_node b)) :: (print_field <$> sb_fields b) ++ [[]].

Definition print_status (bs : list StatusBlock) : text :=
  concat ((λ l, l ++ [10%N]) <$> (bs ≫= block_text)).

Definition sblock_ok (b : StatusBlock) : Prop := clean (sb_node b) ∧ Forall field_ok (sb_fields b).

(** The dictionary of a block. *)
Definition block_dict (b : StatusBlock) : list (text * text) :=
  dict_of id ((u "node", sb_node b) :: ((λ f, (fd_key f, fd_value f)) <$> sb_fields b)).

Lemma strip_indent n s : strip (replicate n 32%N ++ s) = strip s.
Proof.
  unfold strip, lstrip. rewrite lstrip_by_all; [done|]. by apply Forall_replicate.
Qed.

Lemma print_field_parts f :
  (58%N ∉ fd_key f) → strip (fd_key f) = fd_key f → strip (fd_value f) = fd_value f →
  strip (print_field f) ≠ [] ∧
  ∃ k v, cut 58 (print_field f) = Some (k, v) ∧ strip k = fd_key f ∧ strip v = fd_value f.
Proof.
  intros Hk Hks Hvs. split.
  - intros [_ [_ Hc]%Forall_app]%strip_nil%Forall_app. apply Forall_cons in Hc as [Hc _]. by vm_compute in Hc.
  - exists (replicate (fd_indent f) 32%N ++ fd_key f), (replicate (fd_pad f) 32%N ++ fd_value f).
    rewrite !strip_indent. split_and!; [|done..]. unfold print_field. rewrite app_assoc. apply cut_app.
    rewrite elem_of_app. intros [H|H]; [|done]. apply elem_of_replicate in H as [H _]. done.
Qed.

Lemma set_last_snoc k v blocks cur : set_last k v (blocks ++ [cur]) = blocks ++ [dset cur k v].
Proof. unfold set_last. rewrite rev_app_distr. cbn [rev app]. by rewrite rev_involutive. Qed.

Lemma field_line f blocks cur :
  field_ok f → status_line (blocks ++ [cur]) (print_field f) = blocks ++ [dset cur (fd_key f) (fd_value f)].
Proof.
  intros (([Hk _] & _ & Hc & Hn) & [Hv _]).
  destruct (print_field_parts f Hc Hk Hv) as (Hne & k & v & Hcut & Hks & Hvs).
  unfold status_line. rewrite bool_decide_eq_false_2, Hcut by done.
  rewrite Hks, Hvs, bool_decide_eq_false_2 by done. apply set_last_snoc.
Qed.

Lemma node_line b blocks :
  sblock_ok b →
  status_line blocks (print_field (mk_field 0 (u "Node") (sb_pad b) (sb_node b))) =
    blocks ++ [[(u "node", sb_node b)]].
Proof.
  intros [[Hn _] _]. set (f := mk_field _ _ _ _).
  destruct (print_field_parts f) as (Hne & k & v & Hcut & Hks & Hvs);
    [by closed_text|by vm_compute|done|].
  unfold status_line. rewrite bool_decide_eq_false_2, Hcut, Hks, Hvs by done.
  by rewrite bool_decide_eq_true_2.
Qed.

Lemma fields_fold fs blocks cur :
  Forall field_ok fs →
  foldl status_line (blocks ++ [cur]) (print_field <$> fs) =
    blocks ++ [foldl (λ d f, dset d (fd_key f) (fd_value f)) cur fs].
Proof.
  intros Hfs. revert cur. induction Hfs as [|f fs Hf _ IH]; intros cur; [done|].
  rewrite fmap_cons. cbn [foldl]. by rewrite field_line, IH.
Qed.

Lemma sblock_fold b blocks :
  sblock_ok b → foldl status_line blocks (block_text b) = blocks ++ [block_dict b].
Proof.
  intros Hb. unfold block_text. cbn [foldl]. rewrite node_line, foldl_app by done.
  rewrite fields_fold by apply Hb. cbn [foldl]. unfold status_line. rewrite bool_decide_eq_true_2 by done.
  unfold block_dict, dict_of. cbn [foldl]. by rewrite foldl_fmap.
Qed.

(** A block names its node under "node", whatever its fields. *)
Lemma block_text_lines b : sblock_ok b → Forall (Forall (λ c, is_linebreak c = false)) (block_text b).
Proof.
  intros [[_ Hn] Hf]. assert (∀ f, Forall (λ c, is_linebreak c = false) (fd_key f) →
    Forall (λ c, is_linebreak c = false) (fd_value f) →
    Forall (λ c, is_linebreak c = false) (print_field f)) as Hp.
  { intros f Hk Hv. unfold print_field. rewrite !Forall_app, Forall_cons, Forall_app.
    split_and!; try done; by apply Forall_replicate. }
  unfold block_text. apply Forall_cons_2; [apply Hp; [by closed_text|done]|].
  apply Forall_app. split; [|by repeat constructor]. apply Forall_fmap. eapply Forall_impl; [exact Hf|].
  intros f [([_ ?] & _) [_ ?]]. by apply Hp.
Qed.

(** The HA status report is read exactly: for any sequence of blocks, each a node's
    line and its fields in any order with any indentation and padding, the parser gives
    one dictionary per block, and from them the local view and every member's HA status. *)
Theorem rdqm_status_exact bs :
  Forall sblock_ok bs →
  parse_rdqmstatus (print_status bs) = status_of (block_dict <$> bs).
Proof.
  intros Hbs. unfold parse_rdqmstatus, status_blocks, print_status. f_equal.
  rewrite splitlines_concat.
  - assert (∀ blocks, foldl status_line blocks (bs ≫= block_text) = blocks ++ (block_dict <$> bs)) as ->;
      [|done].
    induction Hbs as [|b bs Hb _ IH]; intros blocks; [by rewrite app_nil_r|].
    rewrite bind_cons, fmap_cons, foldl_app, sblock_fold, IH by done. by rewrite <-app_assoc.
  - apply Forall_bind. eapply Forall_impl; [exact Hbs|]. intros b Hb. by apply block_text_lines.
Qed.

(** ** Findings and witnesses *)

(** A finding: the fail-count reader promises 0 for garbage; a count of two dashes and a
    digit passes its test and raises, and with it the whole collection. *)
Theorem garbage_failcount_raises :
  parse_failcount (Some (u "--5")) = Err BadFailcount ∧
  parse_failcount (Some (u "garbage")) = Ok 0%Z.
Proof. split; by vm_compute. Qed.

Definition demo_status : list StatusBlock :=
  [mk_sblock 1 (u "rdqm-a1")
     [mk_field 0 (u "Queue manager status") 1 (u "Running"); mk_field 0 (u "HA role") 14 (u "Primary");
      mk_field 0 (u "HA status") 12 (u "Normal"); mk_field 0 (u "HA current location") 2 (u "This node");
      mk_field 0 (u "HA floating IP address") 1 (u "10.10.0.50"); mk_field 0 (u "DR status") 5 (u "See rdqm-b1")];
   mk_sblock 1 (u "rdqm-a2") [mk_field 0 (u "HA status") 12 (u "Remote unavailable")]].

Lemma rdqm_status_exact_witness :
  rs_members (parse_rdqmstatus (print_status demo_status)) =
    [(u "rdqm-a1", u "Normal"); (u "rdqm-a2", u "Remote unavailable")].
Proof.
  rewrite rdqm_status_exact; [by vm_compute|].
  apply Forall_cons_2; [|apply Forall_singleton]; (split; by closed_text).
Defined.

Definition demo_pm : elem :=
  Elem (u "crm_mon") []
    [Elem (u "nodes") [] [Elem (u "node") [(u "name", u "rdqm-a1"); (u "online", u "true")] []];
     Elem (u "node_history") []
       [Elem (u "node") [(u "name", u "rdqm-a1")]
          [Elem (u "resource_history") [(u "id", u "rdqmapp"); (u "fail-count", u "1000000")] []]]].

Lemma rdqm_metrics_sound_witness :
  ∃ l, collect_samples (λ _, Some demo_pm) lower_ascii (u "rdqm-a1") (u "RDQMAPP") 1700000000
         (Exited 0 (print_status demo_status)) TimedOut (Exited 0 (u "<xml/>")) = Ok l ∧
    owner_sample (u "rdqm-a1") (u "RDQMAPP") (u "rdqm-a1") ∈ l ∧
    flag (u "cluster_rdqm_node_ready") (member_labels (u "rdqm-a1") (u "rdqm-a1")) false ∈ l.
Proof.
  destruct (collect_samples (λ _, Some demo_pm) lower_ascii (u "rdqm-a1") (u "RDQMAPP") 1700000000
         (Exited 0 (print_status demo_status)) TimedOut (Exited 0 (u "<xml/>"))) as [l|] eqn:Hl;
    [|by vm_compute in Hl].
  exists l. split; [done|].
  destruct (rdqm_metrics_sound (λ _, Some demo_pm) lower_ascii _ _ _ _ _ _ _ Hl) as (Ho & _ & _ & Hr & _).
  split.
  - apply Ho. eexists. split; [done|]. split; [by vm_compute|]. eexists. split; [by vm_compute|done].
  - apply Hr. eexists _, _, true. split; [done|]. split; [by vm_compute|].
    split; [by left|by vm_compute].
Defined.
