(* ===== verification/Perf.v ===== *)
(** * The performance record of a run

    Models mqlab/perf.py: the record a bootstrap appends its step timings, milestones,
    notes and host samples to, the grouping by phase, and the JSON report. The plain-text
    summary (human_summary) is left out. The steps are those the run loop hands to its
    sink (Orchestrator.v). *)

From S2P Require Import Prelude PyText PyCodec PyDict PyFloat PyJson JsonRoundTrip Orchestrator.

(** A measurement: seconds, or a count of retries. *)
Inductive number := NInt (z : Z) | NFloat (f : float).

Definition number_json (n : number) : json := match n with NInt z => JInt z | NFloat f => JFloat f end.

(** ** Samples *)

Record GuestSample := mk_guest {
  gs_steal : option float; gs_busy : option float; gs_iowait : option float;
  gs_load1 : option float; gs_load5 : option float; gs_load15 : option float
}.

Record LocalSample := mk_local { ls_steal : option float; ls_busy : option float; ls_iowait : option float }.

Record HostContentionSample := mk_hsample {
  hs_t : float; hs_cpu : option float; hs_iowait : option float; hs_cpus : option Z;
  hs_guests : list (text * GuestSample); hs_local : option LocalSample
}.

Definition opt_float (o : option float) : json := match o with Some f => JFloat f | None => JNull end.
Definition opt_int (o : option Z) : json := match o with Some z => JInt z | None => JNull end.
Definition opt_text (o : option text) : json := match o with Some s => JStr s | None => JNull end.

Definition guest_dict (g : GuestSample) : json :=
  JObj [(u "steal", opt_float (gs_steal g)); (u "busy", opt_float (gs_busy g));
        (u "iowait", opt_float (gs_iowait g)); (u "load1", opt_float (gs_load1 g));
        (u "load5", opt_float (gs_load5 g)); (u "load15", opt_float (gs_load15 g))].

(** [HostContentionSample.as_dict]. *)
Definition sample_dict (s : HostContentionSample) : json :=
  JObj [(u "t", JFloat (hs_t s));
        (u "host", JObj
           [(u "cpu", opt_float (hs_cpu s)); (u "iowait", opt_float (hs_iowait s));
            (u "cpus", opt_int (hs_cpus s));
            (u "self_steal", opt_float (hs_local s ≫= ls_steal));
            (u "self_busy", opt_float (hs_local s ≫= ls_busy));
            (u "self_iowait", opt_float (hs_local s ≫= ls_iowait))]);
        (u "guests", JObj ((λ ng, (ng.1, guest_dict ng.2)) <$> hs_guests s))].

(** ** The record *)

Record PerfRecord := mk_perf {
  pr_stack : text; pr_started : float; pr_steps : list StepTiming;
  pr_milestones : list (text * number); pr_notes : list text;
  pr_samples : list HostContentionSample; pr_env : option text; pr_env_source : option text
}.

Definition new_record (stack : text) (started : float) : PerfRecord :=
  mk_perf stack started [] [] [] [] None None.

Definition set_env (env : option text) (source : text) (r : PerfRecord) : PerfRecord :=
  mk_perf (pr_stack r) (pr_started r) (pr_steps r) (pr_milestones r) (pr_notes r) (pr_samples r)
    env (Some source).
Definition note (msg : text) (r : PerfRecord) : PerfRecord :=
  mk_perf (pr_stack r) (pr_started r) (pr_steps r) (pr_milestones r) (pr_notes r ++ [msg]) (pr_samples r)
    (pr_env r) (pr_env_source r).
Definition add_sample (s : HostContentionSample) (r : PerfRecord) : PerfRecord :=
  mk_perf (pr_stack r) (pr_started r) (pr_steps r) (pr_milestones r) (pr_notes r) (pr_samples r ++ [s])
    (pr_env r) (pr_env_source r).
Definition add_step (t : StepTiming) (r : PerfRecord) : PerfRecord :=
  mk_perf (pr_stack r) (pr_started r) (pr_steps r ++ [t]) (pr_milestones r) (pr_notes r) (pr_samples r)
    (pr_env r) (pr_env_source r).
Definition add_milestone (name : text) (v : number) (r : PerfRecord) : PerfRecord :=
  mk_perf (pr_stack r) (pr_started r) (pr_steps r) (dset (pr_milestones r) name v) (pr_notes r)
    (pr_samples r) (pr_env r) (pr_env_source r).

(** ** Phases *)

Record PhaseTotal := mk_total {
  pt_seconds : float; pt_retries : nat; pt_failed : nat; pt_steps : list StepTiming
}.

Definition new_total : PhaseTotal := mk_total fzero 0 0 [].

(** [_PhaseTotal.add]. *)
Definition total_add (p : PhaseTotal) (s : StepTiming) : PhaseTotal :=
  mk_total (fadd (pt_seconds p) (tm_seconds s)) (pt_retries p + tm_retries s)
    (pt_failed p + if tm_ok s then 0 else 1) (pt_steps p ++ [s]).

Definition step_dict (s : StepTiming) : json :=
  JObj [(u "label", JStr (tm_label s)); (u "seconds", JFloat (tm_seconds s));
        (u "retries", JInt (Z.of_nat (tm_retries s))); (u "ok", JBool (tm_ok s))].

(** [_PhaseTotal.as_dict]. *)
Definition total_dict (p : PhaseTotal) : json :=
  JObj [(u "seconds", JFloat (pt_seconds p)); (u "retries", JInt (Z.of_nat (pt_retries p)));
        (u "steps", JArr (step_dict <$> pt_steps p)); (u "failed", JInt (Z.of_nat (pt_failed p)))].

(** One turn of the loop of [_phases]: [setdefault] then [add] on the stored total. *)
Definition phase_add (phases : list (text * PhaseTotal)) (s : StepTiming) : list (text * PhaseTotal) :=
  dset phases (tm_phase s) (total_add (dget_or phases (tm_phase s) new_total) s).

Definition phases_of_steps (steps : list StepTiming) : list (text * PhaseTotal) := foldl phase_add [] steps.
Definition phases (r : PerfRecord) : list (text * PhaseTotal) := phases_of_steps (pr_steps r).

(** ** The report *)

Definition record_json (r : PerfRecord) : json :=
  JObj [(u "stack", JStr (pr_stack r)); (u "started_at", JFloat (pr_started r));
        (u "phases", JObj ((λ np, (np.1, total_dict np.2)) <$> phases r));
        (u "milestones", JObj ((λ nm, (nm.1, number_json nm.2)) <$> pr_milestones r));
        (u "notes", JArr (JStr <$> pr_notes r));
        (u "samples", JArr (sample_dict <$> pr_samples r));
        (u "env", opt_text (pr_env r)); (u "env_source", opt_text (pr_env_source r))].

Definition to_json `{FT : FloatText} (r : PerfRecord) : res JsonError text := dumps (Some 2) (record_json r).

(** ** Lemmas *)

(** The total of a list of steps. *)
Definition total_of (steps : list StepTiming) : PhaseTotal := foldl total_add new_total steps.

Definition steps_in (p : text) (steps : list StepTiming) : list StepTiming :=
  filter (λ s, tm_phase s = p) steps.

Lemma total_of_snoc steps s : total_of (steps ++ [s]) = total_add (total_of steps) s.
Proof. unfold total_of. by rewrite foldl_app. Qed.

Lemma total_of_spec steps :
  pt_steps (total_of steps) = steps ∧
  pt_retries (total_of steps) = sum_list_with tm_retries steps ∧
  pt_failed (total_of steps) = length (filter (λ s, tm_ok s = false) steps) ∧
  pt_seconds (total_of steps) = foldl fadd fzero (tm_seconds <$> steps).
Proof.
  induction steps as [|s steps (H1 & H2 & H3 & H4)] using rev_ind; [done|].
  rewrite total_of_snoc, fmap_app, filter_app, foldl_app, sum_list_with_app. unfold total_add.
  cbn [pt_steps pt_retries pt_failed pt_seconds]. rewrite H1, H2, H3, H4. split_and!; [done| | |done].
  - simpl. lia.
  - rewrite length_app, filter_cons, filter_nil. by destruct (tm_ok s).
Qed.

Lemma steps_in_snoc p steps s :
  steps_in p (steps ++ [s]) = steps_in p steps ++ (if decide (tm_phase s = p) then [s] else []).
Proof. unfold steps_in. by rewrite filter_app, filter_cons, filter_nil. Qed.

Lemma steps_in_nil p steps : p ∉ tm_phase <$> steps → steps_in p steps = [].
Proof.
  intros Hp. unfold steps_in. destruct (filter _ steps) as [|s l] eqn:Hf; [done|]. exfalso.
  assert (s ∈ filter (λ s, tm_phase s = p) steps) as Hs by (rewrite Hf; by left).
  apply list_elem_of_filter in Hs as [<- Hs]. by apply Hp, list_elem_of_fmap_2.
Qed.

Lemma phases_snoc steps s :
  phases_of_steps (steps ++ [s]) =
    dset (phases_of_steps steps) (tm_phase s)
      (total_add (dget_or (phases_of_steps steps) (tm_phase s) new_total) s).
Proof. unfold phases_of_steps. by rewrite foldl_app. Qed.

(** What is stored under a phase: the total of its steps. *)
Lemma phases_get p steps :
  dget (phases_of_steps steps) p =
    if decide (p ∈ tm_phase <$> steps) then Some (total_of (steps_in p steps)) else None.
Proof.
  induction steps as [|s steps IH] using rev_ind; [done|].
  rewrite phases_snoc, steps_in_snoc, dget_dset.
  assert (p ∈ tm_phase <$> steps ++ [s] ↔ p ∈ tm_phase <$> steps ∨ tm_phase s = p) as Hin.
  { rewrite fmap_app, elem_of_app. csimpl. rewrite list_elem_of_singleton. naive_solver. }
  destruct (decide (tm_phase s = p)) as [Hs|Hs].
  - rewrite decide_True by tauto. rewrite total_of_snoc. do 2 f_equal. unfold dget_or.
    rewrite Hs, IH. case_decide as Hp; [done|]. by rewrite steps_in_nil.
  - rewrite app_nil_r, IH. repeat case_decide; tauto.
Qed.

Lemma phases_keys steps : (phases_of_steps steps).*1 = uniq (tm_phase <$> steps).
Proof.
  induction steps as [|s steps IH] using rev_ind; [done|].
  rewrite phases_snoc, fmap_app. unfold uniq, uniq_onto in *. rewrite foldl_app. cbn [foldl fmap list_fmap].
  rewrite <-IH. unfold add_new.
  case_decide as Hin; [by rewrite dset_keys_old|]. by rewrite dset_keys_new, fmap_app by done.
Qed.

(** The phase table is the grouping of the steps: one entry per phase named by a step,
    in the order they are first named, holding that phase's steps in run order, the
    binary64 sum of their seconds in that order, the sum of their retries and the number
    of failed ones. *)
Theorem phases_exact steps :
  phases_of_steps steps = (λ p, (p, total_of (steps_in p steps))) <$> uniq (tm_phase <$> steps) ∧
  ∀ p, let t := total_of (steps_in p steps) in
    pt_steps t = steps_in p steps ∧
    pt_seconds t = foldl fadd fzero (tm_seconds <$> steps_in p steps) ∧
    pt_retries t = sum_list_with tm_retries (steps_in p steps) ∧
    pt_failed t = length (filter (λ s, tm_ok s = false) (steps_in p steps)).
Proof.
  split; [|intros p; destruct (total_of_spec (steps_in p steps)) as (? & ? & ? & ?); by split_and!].
  rewrite <-phases_keys, <-list_fmap_compose. symmetry.
  rewrite <-(list_fmap_id (phases_of_steps steps)) at 2. apply list_fmap_ext.
  intros i [p t] Hi. unfold compose. cbn [fst id]. f_equal.
  assert (dict_wf (phases_of_steps steps)) as Hwf by (unfold dict_wf; rewrite phases_keys; apply NoDup_uniq).
  apply list_elem_of_lookup_2, (elem_dget _ _ _ Hwf) in Hi. rewrite phases_get in Hi.
  case_decide; congruence.
Qed.
