(* ===== verification/PerfDiff.v ===== *)
(** * Diffing two performance reports

    Models mqlab/perfdiff.py: the validation of a report document, the per-phase and
    per-milestone comparison, the dominant divergence, and the averages over the host
    samples. The rendering as text is left out. *)

From S2P Require Import Prelude PyText PyCodec PyDict PyFloat PyJson JsonRoundTrip Orchestrator Perf.

Inductive Side := SideA | SideB.

(** What [PerfDiffError] says. *)
Inductive malformed :=
  | Unreadable | InvalidJson
  | NotAnObject (s : Side) | BadPhases (s : Side) | BadPhase (s : Side) (name : text)
  | BadMilestones (s : Side) | BadMilestone (s : Side) (name : text)
  | BadStack (s : Side) | BadNotes (s : Side).

(** Past it: the OverflowError of [float(int)], the ValueError of an integer over the
    digit limit, and the fuel of the JSON scanner ([loads_fuel]: never). *)
Inductive DiffError := PerfDiffError (m : malformed) | FloatOverflow | IntTooLong | NoFuel.

(** ** Validation *)

Definition is_num (v : json) : bool := match v with JInt _ | JFloat _ => true | _ => false end.
Definition is_int (v : json) : bool := match v with JInt _ => true | _ => false end.

Definition is_inf (f : float) : bool := match f with S754_infinity _ => true | _ => false end.

(** [float(v)] of a number. *)
Definition to_float (v : json) : res DiffError float :=
  match v with
  | JInt z => if is_inf (float_of_Z z) then Err FloatOverflow else Ok (float_of_Z z)
  | JFloat f => Ok f
  | _ => Err (PerfDiffError InvalidJson)
  end.

Definition int_of (v : json) : Z := match v with JInt z => z | _ => 0%Z end.

(** Seconds, retries and failed steps of a phase. *)
Record PhaseBody := mk_body { pb_seconds : float; pb_retries : Z; pb_failed : Z }.

Definition phase_body (s : Side) (name : text) (body : json) : res DiffError PhaseBody :=
  let bad := Err (PerfDiffError (BadPhase s name)) in
  match body with
  | JObj d =>
      match dget d (u "seconds"), dget d (u "retries"), dget_or d (u "failed") (JInt 0) with
      | Some sec, Some (JInt r), JInt f =>
          if is_num sec then x ← to_float sec; Ok (mk_body x r f) else bad
      | _, _, _ => bad
      end
  | _ => bad
  end.

Definition phases_of (rec : list (text * json)) (s : Side) : res DiffError (list (text * PhaseBody)) :=
  match dget rec (u "phases") with
  | Some (JObj raw) => res_foldM (λ out nb, b ← phase_body s nb.1 nb.2; Ok (dset out nb.1 b)) [] raw
  | _ => Err (PerfDiffError (BadPhases s))
  end.

Definition milestones_of (rec : list (text * json)) (s : Side) : res DiffError (list (text * float)) :=
  match dget rec (u "milestones") with
  | Some (JObj raw) =>
      res_foldM (λ out nv,
        if is_num nv.2 then x ← to_float nv.2; Ok (dset out nv.1 x)
        else Err (PerfDiffError (BadMilestone s nv.1))) [] raw
  | _ => Err (PerfDiffError (BadMilestones s))
  end.

Definition stack_of (rec : list (text * json)) (s : Side) : res DiffError (option text) :=
  match dget rec (u "stack") with
  | None | Some JNull => Ok None
  | Some (JStr t) => Ok (Some t)
  | Some _ => Err (PerfDiffError (BadStack s))
  end.

Definition as_str (v : json) : option text := match v with JStr t => Some t | _ => None end.

Definition notes_of (rec : list (text * json)) (s : Side) : res DiffError (list text) :=
  match dget_or rec (u "notes") (JArr []) with
  | JArr l =>
      let out := omap as_str l in
      if bool_decide (length out = length l) then Ok out else Err (PerfDiffError (BadNotes s))
  | _ => Err (PerfDiffError (BadNotes s))
  end.

(** ** Sums of floats

    [sum] of a list of floats, with the compensation CPython keeps beside the total. *)

Definition cs_add (t : float * float) (x : float) : float * float :=
  let '(hi, lo) := t in
  let total := fadd hi x in
  (total, fadd lo (if fleb (SFabs x) (SFabs hi)
                   then fadd (fsub hi total) x else fadd (fsub x total) hi)).

Definition is_finite (f : float) : bool := match f with S754_zero _ | S754_finite _ _ _ => true | _ => false end.

Definition py_sum (l : list float) : float :=
  match l with
  | [] => fzero
  | x :: l =>
      let '(hi, lo) := foldl cs_add (fadd fzero x, fzero) l in
      if negb (feqb lo fzero) && is_finite lo then fadd hi lo else hi
  end.

(** [sum(v) / len(v)]. *)
Definition mean (l : list float) : float := fdiv (py_sum l) (float_of_Z (Z.of_nat (length l))).

(** ** Host samples *)

Record StealContributor := mk_steal { sc_guest : text; sc_mean : float; sc_samples : nat }.

(** The notes of a diff. *)
Inductive Note :=
  | StacksDiffer (a b : option text)
  | NoSamples (s : Side) | SamplesNotList (s : Side) | SamplesEmpty (s : Side)
  | NoSteal (s : Side) (n : nat) | NoHost (s : Side) (n : nat).

Definition STEAL_KEYS : list text := [u "steal"; u "steal_pct"].
Definition TOP_STEAL : nat := 5.

Definition first_num (d : list (text * json)) : option json :=
  head (filter (λ v, is_num v = true) (omap (dget d) STEAL_KEYS)).

(** [_guest_steal]: [None] when there is no reading. *)
Definition guest_steal (v : json) : res DiffError (option float) :=
  let v := match v with JObj d => default JNull (first_num d) | _ => v end in
  if is_num v then x ← to_float v; Ok (Some x) else Ok None.

Definition is_baseline (v : json) : bool :=
  match v with
  | JObj d => existsb (λ k, match dget d k with Some JNull => true | _ => false end) STEAL_KEYS
  | _ => false
  end.

(** The readings per guest and the count of unreadable entries. *)
Definition add_reading (acc : list (text * list float) * nat) (gv : text * json) :
    res DiffError (list (text * list float) * nat) :=
  s ← guest_steal gv.2;
  match s with
  | None => Ok (acc.1, acc.2 + if is_baseline gv.2 then 0 else 1)
  | Some x => Ok (dset acc.1 gv.1 (dget_or acc.1 gv.1 [] ++ [x]), acc.2)
  end.

Definition sub_object (sample : json) (key : text) : option (list (text * json)) :=
  match sample with
  | JObj d => match dget d key with Some (JObj g) => Some g | _ => None end
  | _ => None
  end.

Definition add_sample_steal (acc : list (text * list float) * nat) (sample : json) :
    res DiffError (list (text * list float) * nat) :=
  match sub_object sample (u "guests") with
  | None => Ok (acc.1, S acc.2)
  | Some guests => res_foldM add_reading acc guests
  end.

(** The order of the sort key [(-mean, guest)], as "not after". *)
Definition steal_leb (c d : StealContributor) : bool :=
  let mc := SFopp (sc_mean c) in
  let md := SFopp (sc_mean d) in
  if feqb mc md then text_leb (sc_guest c) (sc_guest d) else negb (fltb md mc).

Definition contributor (gv : text * list float) : StealContributor :=
  mk_steal gv.1 (mean gv.2) (length gv.2).

Definition steal_of (rec : list (text * json)) (s : Side) :
    res DiffError (option (list StealContributor) * list Note) :=
  match dget rec (u "samples") with
  | None => Ok (None, [NoSamples s])
  | Some (JArr []) => Ok (Some [], [SamplesEmpty s])
  | Some (JArr samples) =>
      '(per_guest, unreadable) ← res_foldM add_sample_steal ([], 0) samples;
      Ok (Some (take TOP_STEAL (isort steal_leb (contributor <$> per_guest))),
          if unreadable =? 0 then [] else [NoSteal s unreadable])
  | Some _ => Ok (None, [SamplesNotList s])
  end.

Definition HOST_KEYS : list text :=
  [u "cpu"; u "iowait"; u "self_steal"; u "self_busy"; u "self_iowait"].

(** The numeric readings of a key over the host mappings. *)
Definition readings_of (hosts : list (list (text * json))) (k : text) : res DiffError (list float) :=
  res_mapM to_float (filter (λ v, is_num v = true) (omap (λ h, dget h k) hosts)).

Definition host_means (rec : list (text * json)) (s : Side) :
    res DiffError (option (list (text * option float)) * list Note) :=
  match dget rec (u "samples") with
  | Some (JArr (x :: l)) =>
      let hosts := omap (λ sample, sub_object sample (u "host")) (x :: l) in
      let unreadable := length (x :: l) - length hosts in
      means ← res_mapM (λ k,
        v ← readings_of hosts k; Ok (k, match v with [] => None | _ => Some (mean v) end)) HOST_KEYS;
      Ok (Some means, if unreadable =? 0 then [] else [NoHost s unreadable])
  | _ => Ok (None, [])
  end.

(** ** The comparison *)

Record Compared := mk_compared { c_name : text; c_a : option float; c_b : option float }.

(** [Compared.delta] and [Compared.ratio]. *)
Definition delta (c : Compared) : option float := a ← c_a c; b ← c_b c; Some (fsub a b).
Definition ratio (c : Compared) : option float :=
  a ← c_a c; b ← c_b c; if feqb b fzero then None else Some (fdiv a b).

Record PhaseDelta := mk_delta {
  pd_cmp : Compared; pd_a_retries : option Z; pd_b_retries : option Z;
  pd_a_failed : option Z; pd_b_failed : option Z
}.

(** [_union]: A's keys in order, then B's others in B's order. *)
Definition union_names {A B} (a : list (text * A)) (b : list (text * B)) : list text :=
  a.*1 ++ filter (λ k, k ∉ a.*1) b.*1.

Definition phase_delta (pa pb : list (text * PhaseBody)) (name : text) : PhaseDelta :=
  let a := dget pa name in
  let b := dget pb name in
  mk_delta (mk_compared name (pb_seconds <$> a) (pb_seconds <$> b))
    (pb_retries <$> a) (pb_retries <$> b) (pb_failed <$> a) (pb_failed <$> b).

Definition milestone_delta (ma mb : list (text * float)) (name : text) : Compared :=
  mk_compared name (dget ma name) (dget mb name).

(** [p.delta] as a truth value: both sides present and not zero. *)
Definition diverges (p : PhaseDelta) : bool :=
  match delta (pd_cmp p) with Some d => negb (feqb d fzero) | None => false end.

Definition divergence (p : PhaseDelta) : float := SFabs (default fzero (delta (pd_cmp p))).

(** [max(l, key=key)]: the first of the largest. *)
Definition max_by {A} (key : A → float) (l : list A) : option A :=
  match l with
  | [] => None
  | x :: l => Some (foldl (λ best y, if fltb (key best) (key y) then y else best) x l)
  end.

Record DiffReport := mk_report {
  df_a_stack : option text; df_b_stack : option text;
  df_phases : list PhaseDelta; df_milestones : list Compared; df_dominant : option PhaseDelta;
  df_steal_a : option (list StealContributor); df_steal_b : option (list StealContributor);
  df_host_a : option (list (text * option float)); df_host_b : option (list (text * option float));
  df_a_notes : list text; df_b_notes : list text; df_notes : list Note
}.

(** [_record]. *)
Definition record_of (v : json) (s : Side) : res DiffError (list (text * json)) :=
  match v with JObj d => Ok d | _ => Err (PerfDiffError (NotAnObject s)) end.

Definition diff (a b : json) : res DiffError DiffReport :=
  ra ← record_of a SideA; rb ← record_of b SideB;
  pa ← phases_of ra SideA; pb ← phases_of rb SideB;
  ma ← milestones_of ra SideA; mb ← milestones_of rb SideB;
  sa ← stack_of ra SideA; sb ← stack_of rb SideB;
  let phases := phase_delta pa pb <$> union_names pa pb in
  let milestones := milestone_delta ma mb <$> union_names ma mb in
  let dominant := max_by divergence (filter (λ p, diverges p = true) phases) in
  '(steal_a, na) ← steal_of ra SideA; '(steal_b, nb) ← steal_of rb SideB;
  '(host_a, ha) ← host_means ra SideA; '(host_b, hb) ← host_means rb SideB;
  notes_a ← notes_of ra SideA; notes_b ← notes_of rb SideB;
  Ok (mk_report sa sb phases milestones dominant steal_a steal_b host_a host_b notes_a notes_b
        ((if bool_decide (sa = sb) then [] else [StacksDiffer sa sb]) ++ na ++ nb ++ ha ++ hb)).

(** [load]: the file's text, [None] when it cannot be read. *)
Definition load `{FT : FloatText} (content : option text) : res DiffError json :=
  match content with
  | None => Err (PerfDiffError Unreadable)
  | Some t =>
      match loads t with
      | Ok (JObj d) => Ok (JObj d)
      | Ok _ | Err JDecode => Err (PerfDiffError InvalidJson)
      | Err JTooLong => Err IntTooLong
      | Err JFuel => Err NoFuel
      end
  end.

(** [diff(load(path_a), load(path_b))]. *)
Definition diff_files `{FT : FloatText} (a b : option text) : res DiffError DiffReport :=
  ja ← load a; jb ← load b; diff ja jb.

(** ** The dominant divergence *)

Lemma max_by_spec {A} (key : A → float) l p :
  Forall (λ x, is_nan (key x) = false) l → max_by key l = Some p →
  p ∈ l ∧ ∀ q, q ∈ l → fleb (key q) (key p) = true.
Proof.
  destruct l as [|x l]; [done|]. intros [Hx Hl]%Forall_cons Hp. injection Hp as <-.
  assert (∀ best seen, best ∈ seen → is_nan (key best) = false →
    (∀ q, q ∈ seen → is_nan (key q) = false ∧ fleb (key q) (key best) = true) →
    let p := foldl (λ best y, if fltb (key best) (key y) then y else best) best l in
    p ∈ seen ++ l ∧ ∀ q, q ∈ seen ++ l → fleb (key q) (key p) = true) as Hgen.
  { induction Hl as [|y l Hy Hl IH]; intros best seen Hb Hnan Hseen; cbn [foldl].
    { rewrite app_nil_r. split; [done|]. intros q Hq. by apply Hseen. }
    rewrite cons_middle, app_assoc. apply IH.
    - case_if; apply elem_of_app; [right; by left|by left].
    - by case_if.
    - intros q [Hq|Hq%list_elem_of_singleton]%elem_of_app.
      + destruct (Hseen q Hq) as [Hqn Hle]. split; [done|]. case_if; [|done].
        eapply fleb_trans; [done|exact Hnan|done|done|].
        rewrite fltb_fleb in Heqb by done. apply negb_true_iff in Heqb.
        by destruct (fleb_total (key best) (key y) Hnan Hy); [|congruence].
      + subst q. split; [done|]. case_if; [by destruct (fleb_total (key y) (key y) Hy Hy)|].
        rewrite fltb_fleb in Heqb by done. by apply negb_false_iff in Heqb. }
  apply (Hgen x [x]); [by left|done|]. intros q ->%list_elem_of_singleton.
  split; [done|]. by destruct (fleb_total (key x) (key x) Hx Hx).
Qed.

(** The parts of a diff that succeeded. *)
Lemma diff_inv a b rep :
  diff a b = Ok rep →
  ∃ ra rb pa pb ma mb,
    a = JObj ra ∧ b = JObj rb ∧ phases_of ra SideA = Ok pa ∧ phases_of rb SideB = Ok pb ∧
    milestones_of ra SideA = Ok ma ∧ milestones_of rb SideB = Ok mb ∧
    df_phases rep = phase_delta pa pb <$> union_names pa pb ∧
    df_milestones rep = milestone_delta ma mb <$> union_names ma mb ∧
    df_dominant rep = max_by divergence (filter (λ p, diverges p = true) (df_phases rep)).
Proof.
  unfold diff. intros H.
  apply bind_Ok in H as (ra & Ha & H). apply bind_Ok in H as (rb & Hb & H).
  apply bind_Ok in H as (pa & Hpa & H). apply bind_Ok in H as (pb & Hpb & H).
  apply bind_Ok in H as (ma & Hma & H). apply bind_Ok in H as (mb & Hmb & H).
  apply bind_Ok in H as (sa & _ & H). apply bind_Ok in H as (sb & _ & H).
  apply bind_Ok in H as ([ta na] & _ & H). apply bind_Ok in H as ([tb nb] & _ & H).
  apply bind_Ok in H as ([ha hna] & _ & H). apply bind_Ok in H as ([hb hnb] & _ & H).
  apply bind_Ok in H as (xa & _ & H). apply bind_Ok in H as (xb & _ & H). injection H as <-.
  destruct a as [| | | | | |da]; try done. destruct b as [| | | | | |db]; try done.
  injection Ha as <-. injection Hb as <-. by exists da, db, pa, pb, ma, mb.
Qed.

Lemma max_by_None {A} (key : A → float) l : max_by key l = None ↔ l = [].
Proof. by destruct l. Qed.

Lemma max_by_In {A} (key : A → float) l p : max_by key l = Some p → p ∈ l.
Proof.
  destruct l as [|x l]; [done|]. intros Hp. injection Hp as <-. revert x.
  induction l as [|y l IH]; intros x; [by left|]. cbn [foldl].
  specialize (IH (if fltb (key x) (key y) then y else x)). rewrite !elem_of_cons in *. case_if; tauto.
Qed.

(** The dominant divergence: it is a phase present on both sides with a non-zero
    difference, no other differs by more (in absolute seconds), and it is missing exactly
    when no phase differs; differences that are no number are set aside. *)
Theorem dominant_is_largest a b rep :
  diff a b = Ok rep →
  (∀ p, df_dominant rep = Some p → p ∈ df_phases rep ∧ diverges p = true) ∧
  (df_dominant rep = None ↔ ∀ q, q ∈ df_phases rep → diverges q = false) ∧
  (Forall (λ q, is_nan (divergence q) = false) (df_phases rep) →
   ∀ p q, df_dominant rep = Some p → q ∈ df_phases rep → diverges q = true →
     fleb (divergence q) (divergence p) = true).
Proof.
  intros (ra & rb & pa & pb & ma & mb & _ & _ & _ & _ & _ & _ & _ & _ & Hdom)%diff_inv.
  rewrite Hdom. generalize (df_phases rep). intros ps. split_and!.
  - intros p Hp%max_by_In. apply list_elem_of_filter in Hp. tauto.
  - rewrite max_by_None. split.
    + intros Hf q Hq. apply not_true_iff_false. intros Hd.
      assert (q ∈ filter (λ p, diverges p = true) ps) as Hin by (by apply list_elem_of_filter).
      rewrite Hf in Hin. by apply elem_of_nil in Hin.
    + intros Hall. destruct (filter _ ps) as [|q l] eqn:Hf; [done|].
      assert (q ∈ filter (λ p, diverges p = true) ps) as [Hd Hin]%list_elem_of_filter by (rewrite Hf; by left).
      by rewrite (Hall q Hin) in Hd.
  - intros Hnan p q Hp Hq Hd. eapply (max_by_spec divergence); [|exact Hp|by apply list_elem_of_filter].
    rewrite Forall_forall in Hnan |- *. intros x [_ Hx]%list_elem_of_filter. by apply Hnan.
Qed.

(** ** Nothing is dropped *)

Lemma phase_body_name s name body b :
  phase_body s name body = Ok b →
  ∃ d sec, body = JObj d ∧ dget d (u "seconds") = Some sec ∧ to_float sec = Ok (pb_seconds b) ∧
    dget d (u "retries") = Some (JInt (pb_retries b)) ∧
    dget_or d (u "failed") (JInt 0) = JInt (pb_failed b).
Proof.
  unfold phase_body. destruct body as [| | | | | |d]; try done.
  destruct (dget d (u "seconds")) as [sec|] eqn:Hs; [|done].
  destruct (dget d (u "retries")) as [[| |r| | | |]|] eqn:Hr; try done.
  destruct (dget_or d (u "failed") (JInt 0)) as [| |f| | | |] eqn:Hf; try done.
  destruct (is_num sec); [|done]. intros (x & Hx & Hb)%bind_Ok. injection Hb as <-.
  exists d, sec. by split_and!.
Qed.

Lemma foldM_dset_get {V W} (f : text → V → res DiffError W) raw out out' :
  NoDup (out.*1 ++ raw.*1) →
  res_foldM (λ out nb, b ← f nb.1 nb.2; Ok (dset out nb.1 b)) out raw = Ok out' →
  ∃ ws, out' = out ++ ws ∧ Forall2 (λ nb nw, nw.1 = nb.1 ∧ f nb.1 nb.2 = Ok nw.2) raw ws.
Proof.
  revert out. induction raw as [|[n v] raw IH]; intros out Hnd; cbn [res_foldM].
  { intros [= <-]. exists []. by rewrite app_nil_r. }
  intros (out1 & (w & Hw & Heq)%bind_Ok & Hrest)%bind_Ok. injection Heq as <-. cbn [fst snd] in *.
  rewrite fmap_cons, cons_middle in Hnd. cbn [fst] in Hnd.
  rewrite dset_keys_new in Hrest.
  - apply IH in Hrest as (ws & -> & Hws); [|rewrite fmap_app, <-app_assoc; exact Hnd].
    exists ((n, w) :: ws). rewrite <-app_assoc. split; [done|]. by constructor.
  - apply NoDup_app in Hnd as (_ & Hnd & _). intros Hin. apply (Hnd n Hin). by left.
Qed.

(** The diff drops nothing: when it succeeds on two documents, every phase of either
    is a row, in A's order and then B's, and shows for each side exactly that side's
    seconds, retries and failed count, or nothing when the side lacks the phase. *)
Theorem diff_drops_nothing ra rb rawa rawb rep :
  dget ra (u "phases") = Some (JObj rawa) → dget rb (u "phases") = Some (JObj rawb) →
  NoDup rawa.*1 → NoDup rawb.*1 →
  diff (JObj ra) (JObj rb) = Ok rep →
  (c_name ∘ pd_cmp) <$> df_phases rep = rawa.*1 ++ filter (λ n, n ∉ rawa.*1) rawb.*1 ∧
  ∀ row, row ∈ df_phases rep →
    let n := c_name (pd_cmp row) in
    (match dget rawa n with
     | None => c_a (pd_cmp row) = None ∧ pd_a_retries row = None ∧ pd_a_failed row = None
     | Some body => ∃ b, phase_body SideA n body = Ok b ∧ c_a (pd_cmp row) = Some (pb_seconds b) ∧
         pd_a_retries row = Some (pb_retries b) ∧ pd_a_failed row = Some (pb_failed b)
     end) ∧
    (match dget rawb n with
     | None => c_b (pd_cmp row) = None ∧ pd_b_retries row = None ∧ pd_b_failed row = None
     | Some body => ∃ b, phase_body SideB n body = Ok b ∧ c_b (pd_cmp row) = Some (pb_seconds b) ∧
         pd_b_retries row = Some (pb_retries b) ∧ pd_b_failed row = Some (pb_failed b)
     end).
Proof.
  intros Ha Hb Hna Hnb (ra' & rb' & pa & pb & ma & mb & Heqa & Heqb & Hpa & Hpb & _ & _ & Hph & _ & _)%diff_inv.
  injection Heqa as <-. injection Heqb as <-. unfold phases_of in Hpa, Hpb. rewrite Ha in Hpa. rewrite Hb in Hpb.
  assert (∀ s raw ps, NoDup raw.*1 →
    res_foldM (λ out nb, b ← phase_body s nb.1 nb.2; Ok (dset out nb.1 b)) [] raw = Ok ps →
    ps.*1 = raw.*1 ∧ ∀ n, match dget raw n with
      | None => dget ps n = None
      | Some body => ∃ b, phase_body s n body = Ok b ∧ dget ps n = Some b
      end) as Hps.
  { intros s raw ps Hnd Hf. apply (foldM_dset_get (phase_body s)) in Hf as (ws & -> & Hws); [|done].
    cbn [app]. clear Ha Hb Hna Hnb Hpa Hpb. induction Hws as [|[n v] [n' w] raw ws [Hn Hw] Hws IH]; [done|].
    cbn [fst snd] in *. subst n'. rewrite fmap_cons in Hnd. apply NoDup_cons in Hnd as [Hn Hnd].
    destruct (IH Hnd) as [Hk Hg]. split; [csimpl; by f_equal|]. intros m. cbn [dget].
    case_decide; [subst; by exists w|]. apply Hg. }
  destruct (Hps _ _ _ Hna Hpa) as [Hka Hga]. destruct (Hps _ _ _ Hnb Hpb) as [Hkb Hgb]. rewrite Hph. split.
  - rewrite <-list_fmap_compose. unfold union_names. rewrite Hka, Hkb.
    rewrite <-(list_fmap_id (rawa.*1 ++ _)) at 2. by apply list_fmap_ext.
  - intros row (n & -> & _)%list_elem_of_fmap. cbn zeta. unfold phase_delta. cbn [pd_cmp c_name c_a c_b
      pd_a_retries pd_b_retries pd_a_failed pd_b_failed]. specialize (Hga n). specialize (Hgb n). split.
    + destruct (dget rawa n) as [body|]; [destruct Hga as (b & ? & ->); by exists b|by rewrite Hga].
    + destruct (dget rawb n) as [body|]; [destruct Hgb as (b & ? & ->); by exists b|by rewrite Hgb].
Qed.

(** ** The reports of runs *)

(** What the diff reads of a record. *)
Definition bodies (r : PerfRecord) : list (text * PhaseBody) :=
  (λ np, (np.1, mk_body (pt_seconds np.2) (Z.of_nat (pt_retries np.2)) (Z.of_nat (pt_failed np.2))))
    <$> phases r.

Definition number_float (n : number) : float := match n with NInt z => float_of_Z z | NFloat f => f end.
Definition milestone_floats (r : PerfRecord) : list (text * float) :=
  (λ nm, (nm.1, number_float nm.2)) <$> pr_milestones r.

Definition steal_reading (acc : list (text * list float)) (ng : text * GuestSample) : list (text * list float) :=
  match gs_steal ng.2 with
  | Some x => dset acc ng.1 (dget_or acc ng.1 [] ++ [x])
  | None => acc
  end.
Definition steal_readings (samples : list HostContentionSample) : list (text * list float) :=
  foldl (λ acc s, foldl steal_reading acc (hs_guests s)) [] samples.

(** A record whose report survives the trip: proper texts and floats, distinct milestone
    and guest names (dictionaries), and no count beyond the range of floats. *)
Definition record_ok (r : PerfRecord) : Prop :=
  json_ok (record_json r) = true ∧ dict_wf (pr_milestones r) ∧
  Forall (λ nm, is_inf (number_float nm.2) = false ∨ ∃ f, nm.2 = NFloat f) (pr_milestones r).

Definition fields (r : PerfRecord) : list (text * json) :=
  match record_json r with JObj d => d | _ => [] end.

Lemma foldM_dset_Ok {V W} (f : text → V → res DiffError W) (g : V → W) raw out :
  Forall (λ nb, f nb.1 nb.2 = Ok (g nb.2)) raw → NoDup (out.*1 ++ raw.*1) →
  res_foldM (λ out nb, b ← f nb.1 nb.2; Ok (dset out nb.1 b)) out raw =
    Ok (out ++ ((λ nb, (nb.1, g nb.2)) <$> raw)).
Proof.
  intros Hf. revert out. induction Hf as [|[n v] raw Hnv _ IH]; intros out Hnd.
  { by rewrite app_nil_r. }
  cbn [res_foldM fst snd] in *. rewrite Hnv. cbn [mbind res_bind]. rewrite fmap_cons, cons_middle in Hnd.
  rewrite dset_keys_new.
  - rewrite IH; [by rewrite <-app_assoc|]. rewrite fmap_app, <-app_assoc. exact Hnd.
  - apply NoDup_app in Hnd as (_ & Hnd & _). intros Hin. apply (Hnd n Hin). by left.
Qed.

Lemma phases_wf r : NoDup (phases r).*1.
Proof. unfold phases. rewrite phases_keys. apply NoDup_uniq. Qed.

Lemma phases_of_record r s : phases_of (fields r) s = Ok (bodies r).
Proof.
  unfold phases_of. change (dget (fields r) (u "phases")) with
    (Some (JObj ((λ np, (np.1, total_dict np.2)) <$> phases r))).
  cbv beta iota.
  rewrite (foldM_dset_Ok (phase_body s) (λ v, match v with
    | JObj [(_, JFloat x); (_, JInt n); _; (_, JInt f)] => mk_body x n f | _ => mk_body fzero 0 0 end)).
  - cbn [app]. rewrite <-list_fmap_compose. done.
  - apply Forall_fmap, Forall_forall. intros [n t] _. done.
  - cbn [app fmap list_fmap]. rewrite <-list_fmap_compose. apply phases_wf.
Qed.

Lemma milestones_of_record r s : record_ok r → milestones_of (fields r) s = Ok (milestone_floats r).
Proof.
  intros (_ & Hwf & Hinf). unfold milestones_of. change (dget (fields r) (u "milestones")) with
    (Some (JObj ((λ nm, (nm.1, number_json nm.2)) <$> pr_milestones r))).
  cbv beta iota.
  set (f := λ (n : text) (v : json), if is_num v then to_float v else Err (PerfDiffError (BadMilestone s n))).
  transitivity (res_foldM (λ out nb, b ← f nb.1 nb.2; Ok (dset out nb.1 b)) []
    ((λ nm : text * number, (nm.1, number_json nm.2)) <$> pr_milestones r)).
  { generalize ((λ nm : text * number, (nm.1, number_json nm.2)) <$> pr_milestones r). intros raw.
    generalize (@nil (text * float)). induction raw as [|[n v] raw IH]; intros out; [done|].
    cbn [res_foldM fst snd].
    change (f n v) with (if is_num v then to_float v else Err (PerfDiffError (BadMilestone s n))).
    destruct (is_num v); [|done].
    destruct (to_float v); cbn [mbind res_bind]; [apply IH|done]. }
  rewrite (foldM_dset_Ok f (λ v, match v with JInt z => float_of_Z z | JFloat x => x | _ => fzero end)).
  - cbn [app]. rewrite <-list_fmap_compose. f_equal. apply list_fmap_ext. by intros _ [n [z|x]] _.
  - apply Forall_fmap. eapply Forall_impl; [exact Hinf|]. intros [n [z|x]] Hz; [|done].
    unfold compose, f. cbn. destruct Hz as [Hz|[? ?]]; [|done]. simpl in Hz. by rewrite Hz.
  - cbn [app fmap list_fmap]. rewrite <-list_fmap_compose. exact Hwf.
Qed.

Lemma steal_guests acc n guests :
  res_foldM add_reading (acc, n) ((λ ng, (ng.1, guest_dict ng.2)) <$> guests) =
    Ok (foldl steal_reading acc guests, n).
Proof.
  revert acc. induction guests as [|[name g] guests IH]; intros acc; [done|].
  rewrite fmap_cons. cbn [res_foldM foldl]. unfold steal_reading at 2. cbn [snd].
  destruct (gs_steal g) as [x|] eqn:Hg.
  - assert (add_reading (acc, n) (name, guest_dict g) =
      Ok (dset acc name (dget_or acc name [] ++ [x]), n)) as Hr.
    { unfold add_reading, guest_dict. cbn [snd]. by rewrite Hg. }
    cbn [fst]. rewrite Hr. cbn [mbind res_bind]. apply IH.
  - assert (add_reading (acc, n) (name, guest_dict g) = Ok (acc, n)) as Hr.
    { unfold add_reading, guest_dict. cbn [snd]. rewrite Hg.
      change (is_baseline _) with true. simpl. by rewrite Nat.add_0_r. }
    cbn [fst]. rewrite Hr. cbn [mbind res_bind]. apply IH.
Qed.

Lemma steal_samples acc n samples :
  res_foldM add_sample_steal (acc, n) (sample_dict <$> samples) =
    Ok (foldl (λ acc s, foldl steal_reading acc (hs_guests s)) acc samples, n).
Proof.
  revert acc. induction samples as [|s samples IH]; intros acc; [done|].
  rewrite fmap_cons. cbn [res_foldM foldl].
  assert (add_sample_steal (acc, n) (sample_dict s) = Ok (foldl steal_reading acc (hs_guests s), n)) as ->.
  { unfold add_sample_steal. change (sub_object (sample_dict s) (u "guests")) with
      (Some ((λ ng, (ng.1, guest_dict ng.2)) <$> hs_guests s)). apply steal_guests. }
  cbn [mbind res_bind]. apply IH.
Qed.

(** The contributors a record's samples give. *)
Definition contributors (r : PerfRecord) : list StealContributor :=
  take TOP_STEAL (isort steal_leb (contributor <$> steal_readings (pr_samples r))).

Lemma steal_of_record r s :
  steal_of (fields r) s = Ok (Some (contributors r), if pr_samples r is [] then [SamplesEmpty s] else []).
Proof.
  unfold steal_of, contributors. change (dget (fields r) (u "samples")) with
    (Some (JArr (sample_dict <$> pr_samples r))). cbv beta iota.
  destruct (pr_samples r) as [|x l] eqn:Hs; [done|].
  change (sample_dict <$> x :: l) with (sample_dict x :: (sample_dict <$> l)). cbv beta iota.
  change (sample_dict x :: (sample_dict <$> l)) with (sample_dict <$> x :: l).
  by rewrite steal_samples.
Qed.

(** Every value of a sample's host mapping is a float, an integer within range, or null. *)
Lemma host_readings r k :
  k ∈ HOST_KEYS →
  ∃ fs, readings_of (omap (λ sample, sub_object sample (u "host")) (sample_dict <$> pr_samples r)) k = Ok fs.
Proof.
  intros Hk. unfold readings_of.
  set (l := filter _ _). assert (Forall (λ v, ∃ f, v = JFloat f) l) as Hl.
  { apply Forall_forall. intros v [Hn Hv]%list_elem_of_filter.
    apply list_elem_of_omap in Hv as (h & Hh & Hv). apply list_elem_of_omap in Hh as (d & Hd & Hh).
    apply list_elem_of_fmap in Hd as (x & -> & _). injection Hh as <-.
    assert (∀ o, v = opt_float o → ∃ f, v = JFloat f) as Hof by (intros [f|] ->; [by exists f|done]).
    unfold HOST_KEYS in Hk. rewrite !elem_of_cons, elem_of_nil in Hk.
    destruct Hk as [->|[->|[->|[->|[->|[]]]]]]; injection Hv as <-; by eapply Hof. }
  induction Hl as [|v l [f ->] _ [fs IH]]; [by exists []|]. exists (f :: fs). cbn [res_mapM]. by rewrite IH.
Qed.

Lemma host_means_of_record r s : ∃ means, host_means (fields r) s = Ok (means, []).
Proof.
  unfold host_means. change (dget (fields r) (u "samples")) with (Some (JArr (sample_dict <$> pr_samples r))).
  cbv beta iota. pose proof (host_readings r) as Hread.
  destruct (pr_samples r) as [|x l]; [by eexists|].
  change (sample_dict <$> x :: l) with (sample_dict x :: (sample_dict <$> l)) in *. cbv beta iota.
  set (samples := sample_dict x :: (sample_dict <$> l)) in *.
  assert (length (omap (λ sample, sub_object sample (u "host")) samples) = length samples) as Hlen.
  { unfold samples. change (sample_dict x :: (sample_dict <$> l)) with (sample_dict <$> x :: l).
    induction (x :: l) as [|y l' IH]; [done|]. csimpl. by rewrite IH. }
  assert (∃ means, res_mapM (λ k, v ← readings_of (omap (λ sample, sub_object sample (u "host")) samples) k;
    Ok (k, match v with [] => None | _ => Some (mean v) end)) HOST_KEYS = Ok means) as [means ->].
  { clear Hlen. revert Hread. induction HOST_KEYS as [|k ks IH]; intros Hread; [by eexists|].
    cbn [res_mapM]. destruct (Hread k) as [fs ->]; [by left|]. destruct IH as [ms IH].
    { intros k' Hk'. apply Hread. by right. }
    cbn [mbind res_bind] in *. rewrite IH. by eexists. }
  cbn [mbind res_bind]. eexists. by rewrite Hlen, Nat.sub_diag.
Qed.

Lemma notes_of_record r s : notes_of (fields r) s = Ok (pr_notes r).
Proof.
  unfold notes_of. change (dget_or (fields r) (u "notes") (JArr [])) with (JArr (JStr <$> pr_notes r)).
  cbv beta iota. assert (omap as_str (JStr <$> pr_notes r) = pr_notes r) as ->.
  { induction (pr_notes r) as [|t l IH]; [done|]. csimpl. by rewrite IH. }
  by rewrite length_fmap, bool_decide_eq_true_2.
Qed.

Section reports.
Context `{FTL : FloatTextLaws}.

Lemma load_record r t :
  record_ok r → to_json r = Ok t → load (Some (t ++ [10%N])) = Ok (JObj (fields r)).
Proof.
  intros [Hok _] Ht. unfold load. rewrite (loads_dumps (Some 2) (record_json r) t [10%N]);
    [done|done|by repeat constructor|done].
Qed.

(** The diff reads what the run wrote: for the report files of any two recorded runs,
    the diff succeeds, and its rows, milestones, stacks, notes and top steal contributors
    are those of the two records, phase totals and all. *)
Theorem reports_diff ra rb ta tb :
  record_ok ra → record_ok rb → to_json ra = Ok ta → to_json rb = Ok tb →
  ∃ rep, diff_files (Some (ta ++ [10%N])) (Some (tb ++ [10%N])) = Ok rep ∧
    df_phases rep = phase_delta (bodies ra) (bodies rb) <$> union_names (bodies ra) (bodies rb) ∧
    df_milestones rep = milestone_delta (milestone_floats ra) (milestone_floats rb)
                          <$> union_names (milestone_floats ra) (milestone_floats rb) ∧
    df_a_stack rep = Some (pr_stack ra) ∧ df_b_stack rep = Some (pr_stack rb) ∧
    df_a_notes rep = pr_notes ra ∧ df_b_notes rep = pr_notes rb ∧
    df_steal_a rep = Some (contributors ra) ∧ df_steal_b rep = Some (contributors rb).
Proof.
  intros Ha Hb Hta Htb. unfold diff_files. rewrite (load_record ra ta), (load_record rb tb) by done.
  cbn [mbind res_bind]. unfold diff. cbn [record_of mbind res_bind].
  rewrite !phases_of_record. cbn [mbind res_bind]. rewrite !milestones_of_record by done. cbn [mbind res_bind].
  change (stack_of (fields ra) SideA) with (@Ok DiffError _ (Some (pr_stack ra))).
  change (stack_of (fields rb) SideB) with (@Ok DiffError _ (Some (pr_stack rb))).
  cbn [mbind res_bind]. rewrite !steal_of_record. cbn [mbind res_bind].
  destruct (host_means_of_record ra SideA) as [ma ->], (host_means_of_record rb SideB) as [mb ->].
  cbn [mbind res_bind]. rewrite !notes_of_record. cbn [mbind res_bind]. eexists. split; [done|].
  by split_and!.
Qed.
End reports.

(** ** Witnesses: two runs of one stack *)

Definition demo_step (phase : string) (secs retries : nat) (ok : bool) : StepTiming :=
  mk_timing (u phase) (u "step") (float_of_Z (Z.of_nat secs)) retries ok.

Definition demo_sample (steal : option float) : HostContentionSample :=
  mk_hsample fzero (Some (float_of_Z 40)) None (Some 8%Z)
    [(u "pcmk-a1", mk_guest steal None None (Some fzero) None None)] None.

Definition demo_run (vms provision : nat) : PerfRecord :=
  add_sample (demo_sample (Some (float_of_Z 3))) (add_sample (demo_sample None)
    (note (u "bootstrap completed") (add_milestone (u "boot_retries:pcmk-a1") (NInt 1)
      (add_step (demo_step "provision" provision 0 false) (add_step (demo_step "vms" vms 1 true)
        (add_step (demo_step "vms" 10 0 true) (new_record (u "pcmk") fzero))))))).

Lemma demo_run_ok : record_ok (demo_run 300 60) ∧ record_ok (demo_run 200 90).
Proof.
  split; (split; [by vm_compute|split; [apply (bool_decide_unpack _); by vm_compute|]]);
    apply Forall_singleton; left; by vm_compute.
Qed.

Lemma reports_diff_witness :
  ∃ ta tb rep, to_json (demo_run 300 60) = Ok ta ∧ to_json (demo_run 200 90) = Ok tb ∧
    diff_files (Some (ta ++ [10%N])) (Some (tb ++ [10%N])) = Ok rep ∧
    df_steal_a rep = Some [mk_steal (u "pcmk-a1") (float_of_Z 3) 1].
Proof.
  destruct (to_json (demo_run 300 60)) as [ta|] eqn:Ha; [|by vm_compute in Ha].
  destruct (to_json (demo_run 200 90)) as [tb|] eqn:Hb; [|by vm_compute in Hb].
  destruct (reports_diff (demo_run 300 60) (demo_run 200 90) ta tb (proj1 demo_run_ok) (proj2 demo_run_ok) Ha Hb)
    as (rep & Hrep & _ & _ & _ & _ & _ & _ & Hs & _).
  exists ta, tb, rep. split_and!; [done..|]. rewrite Hs. by vm_compute.
Defined.

Definition demo_doc (vms provision : nat) : list (text * json) := fields (demo_run vms provision).

Lemma dominant_is_largest_witness :
  ∃ rep p, diff (JObj (demo_doc 300 60)) (JObj (demo_doc 200 90)) = Ok rep ∧
    df_dominant rep = Some p ∧ p ∈ df_phases rep ∧ c_name (pd_cmp p) = u "vms".
Proof.
  destruct (diff (JObj (demo_doc 300 60)) (JObj (demo_doc 200 90))) as [rep|] eqn:Hd; [|by vm_compute in Hd].
  destruct (dominant_is_largest _ _ _ Hd) as (H1 & _).
  destruct (df_dominant rep) as [p|] eqn:Hp; [|by vm_compute in Hd; injection Hd as <-].
  exists rep, p. split_and!; [done..|by apply H1|].
  vm_compute in Hd. injection Hd as <-. injection Hp as <-. by vm_compute.
Defined.

Lemma diff_drops_nothing_witness :
  ∃ rep, diff (JObj (demo_doc 300 60)) (JObj (demo_doc 200 90)) = Ok rep ∧
    (c_name ∘ pd_cmp) <$> df_phases rep = [u "vms"; u "provision"].
Proof.
  destruct (diff (JObj (demo_doc 300 60)) (JObj (demo_doc 200 90))) as [rep|] eqn:Hd; [|by vm_compute in Hd].
  exists rep. split; [done|].
  destruct (dget (demo_doc 300 60) (u "phases")) as [[| | | | | |rawa]|] eqn:Ha; try by vm_compute in Ha.
  destruct (dget (demo_doc 200 90) (u "phases")) as [[| | | | | |rawb]|] eqn:Hb; try by vm_compute in Hb.
  assert (rawa.*1 = [u "vms"; u "provision"]) as Hra by (vm_compute in Ha; by injection Ha as <-).
  assert (rawb.*1 = [u "vms"; u "provision"]) as Hrb by (vm_compute in Hb; by injection Hb as <-).
  destruct (diff_drops_nothing _ _ rawa rawb rep Ha Hb) as [Hn _];
    [rewrite Hra; closed_text|rewrite Hrb; closed_text|exact Hd|].
  rewrite Hn, Hra, Hrb. by vm_compute.
Defined.
