(* ===== verification/Sampler.v ===== *)
(** * The host-contention sampler

    Models the Sampler of mqlab/perfsampler.py: the bookkeeping of failing probes, one
    tick, and the stop. What the probes of a tick return (or the text of the exception
    they raise) is input; the thread that calls tick and its clock are left out. *)

From S2P Require Import Prelude PyText PyCodec PyDict PyFloat PyJson JsonRoundTrip Orchestrator Perf.

Record HostSample := mk_host { ho_cpu : float; ho_iowait : float; ho_cpus : option Z }.

(** The notes a sampler leaves, and their text. *)
Inductive SNote :=
  | Unavailable (key msg : text) | Recovered (key : text) (n : nat) | StillDown (key : text) (n : nat)
  | FromSource (msg : text) | NotesUnavailable (msg : text) | NotStopped | CleanupFailed (msg : text).

Definition nat_text (n : nat) : text := Z_text (Z.of_nat n).

Definition note_text (join_timeout : text) (n : SNote) : text :=
  match n with
  | Unavailable key msg => key ++ u ": sample unavailable (" ++ msg ++ u ")"
  | Recovered key n => key ++ u ": sample recovered after " ++ nat_text n ++ u " failed probe(s)"
  | StillDown key n =>
      key ++ u ": still unavailable at stop (" ++ nat_text n ++ u " consecutive failed probe(s))"
  | FromSource msg => u "sampler: " ++ msg
  | NotesUnavailable msg => u "sampler: source notes unavailable (" ++ msg ++ u ")"
  | NotStopped =>
      u "sampler: thread did not stop within " ++ join_timeout ++ u "s; abandoning it (daemon)"
  | CleanupFailed msg => u "sampler: source cleanup failed (" ++ msg ++ u ")"
  end.

(** [_fail_count] and [_last_error]. *)
Record SState := mk_sst { ss_fail : list (text * nat); ss_error : list (text * text) }.

(** [_failed]. *)
Definition failed (st : SState) (key msg : text) : SState * list SNote :=
  let fail := dset (ss_fail st) key (S (dget_or (ss_fail st) key 0)) in
  if bool_decide (dget (ss_error st) key = Some msg) then (mk_sst fail (ss_error st), [])
  else (mk_sst fail (dset (ss_error st) key msg), [Unavailable key msg]).

(** [_succeeded]; [None] is the KeyError of the [pop]. *)
Definition succeeded (st : SState) (key : text) : option (SState * list SNote) :=
  match dget (ss_error st) key with
  | None => Some (st, [])
  | Some _ =>
      n ← dget (ss_fail st) key;
      Some (mk_sst (dpop (ss_fail st) key) (dpop (ss_error st) key), [Recovered key n])
  end.

(** The outcome of one probe: the message of its exception, if it raised. *)
Definition outcome (st : SState) (key : text) (o : option text) : option (SState * list SNote) :=
  match o with Some msg => Some (failed st key msg) | None => succeeded st key end.

Fixpoint outcomes (st : SState) (l : list (text * option text)) : option (SState * list SNote) :=
  match l with
  | [] => Some (st, [])
  | (key, o) :: l =>
      '(st1, n1) ← outcome st key o; '(st2, n2) ← outcomes st1 l; Some (st2, n1 ++ n2)
  end.

(** ** One tick *)

Record Tick := mk_tick {
  tk_t : float; tk_host : res text HostSample; tk_local : res text LocalSample;
  tk_guests : list (text * res text GuestSample); tk_notes : res text (list text)
}.

Definition err_of {A} (r : res text A) : option text := match r with Ok _ => None | Err msg => Some msg end.
Definition ok_of {A} (r : res text A) : option A := match r with Ok a => Some a | Err _ => None end.

Definition guest_key (name : text) : text := u "guest " ++ name.

(** The probes of a tick, in the order their outcomes are recorded. *)
Definition probes (tk : Tick) : list (text * option text) :=
  (u "host", err_of (tk_host tk)) :: (u "vergil-vm", err_of (tk_local tk))
  :: ((λ ng, (guest_key ng.1, err_of ng.2)) <$> tk_guests tk).

(** [_drain_source_notes]. *)
Definition drained (tk : Tick) : list SNote :=
  match tk_notes tk with Ok msgs => FromSource <$> msgs | Err msg => [NotesUnavailable msg] end.

Definition tick_sample (tk : Tick) : HostContentionSample :=
  let host := ok_of (tk_host tk) in
  mk_hsample (tk_t tk) (ho_cpu <$> host) (ho_iowait <$> host) (host ≫= ho_cpus)
    (dict_of id (omap (λ ng, g ← ok_of ng.2; Some (ng.1, g)) (tk_guests tk)))
    (ok_of (tk_local tk)).

(** [tick]: [None] would be an exception. *)
Definition tick (st : SState) (tk : Tick) : option (SState * list SNote * HostContentionSample) :=
  '(st1, notes) ← outcomes st (probes tk);
  Some (st1, notes ++ drained tk, tick_sample tk).

(** ** A run: ticks, then the stop *)

Fixpoint ticks (st : SState) (l : list Tick) : option (SState * list SNote * list HostContentionSample) :=
  match l with
  | [] => Some (st, [], [])
  | tk :: l =>
      '(st1, n1, s1) ← tick st tk; '(st2, n2, s2) ← ticks st1 l; Some (st2, n1 ++ n2, s1 :: s2)
  end.

(** [stop]: whether the thread is still alive after the join ([None] when it never
    started), and what the source's [close] returned. *)
Definition stop (st : SState) (alive : option bool) (close : res text (list text)) : SState * list SNote :=
  (mk_sst [] [],
   (if alive is Some true then [NotStopped] else [])
   ++ ((λ kn, StillDown kn.1 kn.2) <$> ss_fail st)
   ++ match close with Ok problems => FromSource <$> problems | Err msg => [CleanupFailed msg] end).

Definition INIT : SState := mk_sst [] [].

Definition run (l : list Tick) (alive : option bool) (close : res text (list text)) :
    option (list SNote * list HostContentionSample) :=
  '(st, notes, samples) ← ticks INIT l; Some (notes ++ (stop st alive close).2, samples).

(** The record after a run. *)
Definition recorded (join_timeout : text) (r : PerfRecord) (out : list SNote * list HostContentionSample) :
    PerfRecord :=
  foldl (λ r s, add_sample s r) (foldl (λ r n, note (note_text join_timeout n) r) r out.1) out.2.

(** ** What is noted of a probe *)

(** The notes about a key. *)
Definition note_key (n : SNote) : option text :=
  match n with Unavailable k _ | Recovered k _ | StillDown k _ => Some k | _ => None end.

Definition about (k : text) (l : list SNote) : list SNote := filter (λ n, note_key n = Some k) l.

(** How many failures end a history. *)
Fixpoint streak_aux (l : list (option text)) : nat :=
  match l with Some _ :: l => S (streak_aux l) | _ => 0 end.
Definition streak (rs : list (option text)) : nat := streak_aux (rev rs).

(** The note a result deserves after a history: a failure that is no repetition of the
    last result, and the first success after failures. *)
Definition note_for (k : text) (rs : list (option text)) (o : option text) : list SNote :=
  match o with
  | Some msg => if bool_decide (last rs = Some (Some msg)) then [] else [Unavailable k msg]
  | None => match streak rs with 0 => [] | n => [Recovered k n] end
  end.

Definition expected (k : text) (rs : list (option text)) : list SNote :=
  mjoin (imap (λ i o, note_for k (take i rs) o) rs).

(** The state of a key after a history. *)
Definition tracks (st : SState) (k : text) (rs : list (option text)) : Prop :=
  dget (ss_fail st) k = (match streak rs with 0 => None | n => Some n end) ∧
  dget (ss_error st) k = last rs ≫= id.

Lemma streak_snoc rs o : streak (rs ++ [o]) = match o with Some _ => S (streak rs) | None => 0 end.
Proof. unfold streak. rewrite rev_app_distr. by destruct o. Qed.

Lemma last_streak rs : streak rs = 0 ↔ last rs ≫= id = None.
Proof. destruct rs as [|o rs _] using rev_ind; [done|]. rewrite streak_snoc, last_snoc. by destruct o. Qed.

Lemma expected_snoc k rs o : expected k (rs ++ [o]) = expected k rs ++ note_for k rs o.
Proof.
  unfold expected. rewrite imap_app, join_app. f_equal.
  - f_equal. apply imap_ext. intros i x Hi. by rewrite take_app_le by (apply lookup_lt_Some in Hi; lia).
  - cbn [imap mjoin list_join]. rewrite app_nil_r, Nat.add_0_r, take_app_length. done.
Qed.

Lemma outcome_self st k rs o :
  tracks st k rs →
  ∃ st', outcome st k o = Some (st', note_for k rs o) ∧ tracks st' k (rs ++ [o]).
Proof.
  intros [Hf He]. unfold tracks. destruct o as [msg|]; simpl.
  - unfold failed. rewrite He, streak_snoc, last_snoc.
    assert (last rs ≫= id = Some msg ↔ last rs = Some (Some msg)) as Hl.
    { destruct (last rs) as [[m|]|]; simpl; split; congruence. }
    rewrite (bool_decide_ext _ _ Hl). unfold dget_or. rewrite Hf.
    assert (default 0 (match streak rs with 0 => None | n => Some n end) = streak rs) as ->
      by (by destruct (streak rs)).
    case_bool_decide as Hm; eexists; (split; [done|]); cbn [ss_fail ss_error]; rewrite dget_dset_eq;
      (split; [done|]); [by rewrite He, Hm|by rewrite dget_dset_eq].
  - unfold succeeded. rewrite He, streak_snoc, last_snoc. destruct (last rs ≫= id) as [m|] eqn:Hl.
    + destruct (streak rs) as [|n] eqn:Hs; [apply last_streak in Hs; congruence|]. rewrite Hf.
      eexists. split; [done|]. cbn [ss_fail ss_error]. by rewrite !dget_dpop, !decide_True.
    + apply last_streak in Hl as Hs. rewrite Hs in *. by exists st.
Qed.

Lemma outcome_other st k k' o st' ns rs :
  k ≠ k' → outcome st k' o = Some (st', ns) → tracks st k rs → tracks st' k rs ∧ about k ns = [].
Proof.
  intros Hne Ho [Hf He]. unfold tracks. destruct o as [msg|]; simpl in Ho.
  - unfold failed in Ho. case_bool_decide; injection Ho as <- <-; cbn [ss_fail ss_error];
      rewrite ?dget_dset_ne by done; (split; [done|]); [done|].
    unfold about. by rewrite filter_cons, decide_False by (cbn; congruence).
  - unfold succeeded in Ho. destruct (dget (ss_error st) k'); [|by injection Ho as <- <-].
    apply bind_Some in Ho as (n & _ & Ho). injection Ho as <- <-. cbn [ss_fail ss_error].
    rewrite !dget_dpop, !decide_False by done. split; [done|].
    unfold about. by rewrite filter_cons, decide_False by (cbn; congruence).
Qed.

Lemma outcome_wf st k o st' ns :
  outcome st k o = Some (st', ns) → dict_wf (ss_fail st) → dict_wf (ss_fail st').
Proof.
  intros Ho Hwf. destruct o as [msg|]; simpl in Ho.
  - unfold failed in Ho. case_bool_decide; injection Ho as <- _; by apply dset_wf.
  - unfold succeeded in Ho. destruct (dget (ss_error st) k); [|by injection Ho as <- _].
    apply bind_Some in Ho as (n & _ & Ho). injection Ho as <- _. by apply dpop_wf.
Qed.

Lemma about_app k l1 l2 : about k (l1 ++ l2) = about k l1 ++ about k l2.
Proof. apply filter_app. Qed.

Lemma about_note_for k rs o : about k (note_for k rs o) = note_for k rs o.
Proof.
  unfold about, note_for. destruct o as [msg|]; [case_bool_decide|destruct (streak rs)];
    rewrite ?filter_cons, ?decide_True, ?filter_nil by done; done.
Qed.

Definition opt_list {A} (o : option A) : list A := match o with Some a => [a] | None => [] end.

Lemma outcomes_spec l st h :
  (∀ k, tracks st k (h k)) → NoDup l.*1 → dict_wf (ss_fail st) →
  ∃ st' ns, outcomes st l = Some (st', ns) ∧ dict_wf (ss_fail st') ∧
    (∀ k, tracks st' k (h k ++ opt_list (dget l k))) ∧
    ∀ k, about k ns = match dget l k with Some o => note_for k (h k) o | None => [] end.
Proof.
  revert st h. induction l as [|[k0 o] l IH]; intros st h Ht Hnd Hwf.
  { exists st, []. split_and!; [done..| |done]. intros k. by rewrite app_nil_r. }
  rewrite fmap_cons in Hnd. apply NoDup_cons in Hnd as [Hk0 Hnd]. cbn [fst] in Hk0.
  destruct (outcome_self st k0 (h k0) o (Ht k0)) as (st1 & Ho & Ht1). cbn [outcomes]. rewrite Ho.
  cbn [mbind option_bind].
  set (h1 := λ k, if decide (k = k0) then h k0 ++ [o] else h k).
  destruct (IH st1 h1) as (st2 & n2 & -> & Hwf2 & Ht2 & Hn2); [|done|by eapply outcome_wf|].
  { intros k. unfold h1. case_decide; [by subst|]. by eapply outcome_other. }
  cbn [mbind option_bind]. eexists _, _. split; [done|]. split; [done|].
  apply dget_None in Hk0. split; intros k.
  - specialize (Ht2 k). unfold h1 in Ht2. cbn [dget]. case_decide as Hk.
    + subst k. rewrite decide_True by done. cbn [opt_list]. rewrite Hk0 in Ht2. by rewrite app_nil_r in Ht2.
    + by rewrite decide_False by congruence.
  - rewrite about_app, (Hn2 k). unfold h1. cbn [dget]. destruct (decide (k = k0)) as [->|Hk].
    + rewrite (decide_True (P := k0 = k0)) by done. by rewrite Hk0, app_nil_r, about_note_for.
    + rewrite (decide_False (P := k0 = k)) by congruence.
      destruct (outcome_other st k k0 o st1 _ (h k) Hk Ho (Ht k)) as [_ ->]. done.
Qed.

(** The results of a probe over a list of ticks. *)
Definition results (k : text) (l : list Tick) : list (option text) := omap (λ tk, dget (probes tk) k) l.

Lemma guest_key_apart name : guest_key name ≠ u "host" ∧ guest_key name ≠ u "vergil-vm".
Proof. by split. Qed.

Lemma probes_keys tk : NoDup (tk_guests tk).*1 → NoDup (probes tk).*1.
Proof.
  intros Hnd. unfold probes. rewrite !fmap_cons, <-list_fmap_compose. cbn [fst].
  change (_ <$> tk_guests tk) with ((λ ng, guest_key ng.1) <$> tk_guests tk).
  rewrite !NoDup_cons, elem_of_cons. split_and!.
  - intros [H|(ng & H & _)%list_elem_of_fmap]; [by vm_compute in H|].
    symmetry in H. by apply guest_key_apart in H.
  - intros (ng & H & _)%list_elem_of_fmap. symmetry in H. by apply guest_key_apart in H.
  - change (NoDup (guest_key ∘ fst <$> tk_guests tk)). rewrite list_fmap_compose. apply NoDup_fmap_2; [|done].
    intros a b H. unfold guest_key in H. by apply app_inv_head in H.
Qed.

Lemma about_drained k tk : about k (drained tk) = [].
Proof.
  unfold about, drained. destruct (tk_notes tk) as [msgs|msg]; [|done].
  induction msgs as [|m msgs IH]; [done|]. by rewrite fmap_cons, filter_cons, decide_False.
Qed.

Lemma ticks_spec l st h :
  (∀ k, tracks st k (h k)) → dict_wf (ss_fail st) → Forall (λ tk, NoDup (tk_guests tk).*1) l →
  ∃ st' ns, ticks st l = Some (st', ns, tick_sample <$> l) ∧ dict_wf (ss_fail st') ∧
    (∀ k, tracks st' k (h k ++ results k l)) ∧
    ∀ k, expected k (h k) ++ about k ns = expected k (h k ++ results k l).
Proof.
  intros Ht Hwf Hl. revert st h Ht Hwf. induction Hl as [|tk l Hnd _ IH]; intros st h Ht Hwf.
  { exists st, []. split_and!; [done..| |]; intros k;
      change (results k []) with (@nil (option text)); by rewrite !app_nil_r. }
  cbn [ticks]. unfold tick.
  destruct (outcomes_spec (probes tk) st h Ht (probes_keys _ Hnd) Hwf) as (st1 & n1 & -> & Hwf1 & Ht1 & Hn1).
  cbn [mbind option_bind].
  destruct (IH st1 _ Ht1 Hwf1) as (st2 & n2 & -> & Hwf2 & Ht2 & Hn2). cbn [mbind option_bind].
  eexists _, _. split; [done|]. split; [done|].
  assert (∀ k, results k (tk :: l) = opt_list (dget (probes tk) k) ++ results k l) as Hres.
  { intros k. unfold results. cbn [omap list_omap]. by destruct (dget (probes tk) k). }
  split; intros k; rewrite Hres, app_assoc; [apply Ht2|].
  rewrite <-Hn2, !about_app, about_drained, app_nil_r, Hn1, app_assoc. f_equal.
  destruct (dget (probes tk) k) as [o|]; cbn [opt_list]; [by rewrite expected_snoc|by rewrite !app_nil_r].
Qed.

Lemma about_down k (fails : list (text * nat)) :
  dict_wf fails →
  about k ((λ kn, StillDown kn.1 kn.2) <$> fails) =
    match dget fails k with Some n => [StillDown k n] | None => [] end.
Proof.
  unfold dict_wf, about. induction fails as [|[k0 n] fails IH]; [done|].
  rewrite !fmap_cons, NoDup_cons. intros [Hk Hnd]. cbn [fst snd dget] in *. rewrite filter_cons.
  cbn [note_key]. destruct (decide (k0 = k)) as [->|Hne].
  - rewrite decide_True by done. rewrite IH by done. apply dget_None in Hk. by rewrite Hk.
  - rewrite decide_False by congruence. by apply IH.
Qed.

Lemma about_texts k msgs : about k (FromSource <$> msgs) = [].
Proof.
  unfold about. induction msgs as [|m msgs IH]; [done|]. by rewrite fmap_cons, filter_cons, decide_False.
Qed.

(** The sampler never raises and hides nothing: over any ticks and the stop, with
    probes failing in any pattern, every tick gives its sample, and the notes about a
    probe are exactly these: one at a failure that does not repeat the result just before
    it, one at the first success after failures with their number, and one at the stop
    when the last result was a failure, with the number of failures that end the run. *)
Theorem sampler_notes_exact l alive close :
  Forall (λ tk, NoDup (tk_guests tk).*1) l →
  ∃ notes, run l alive close = Some (notes, tick_sample <$> l) ∧
    ∀ k, about k notes = expected k (results k l) ++
      match streak (results k l) with 0 => [] | n => [StillDown k n] end.
Proof.
  intros Hl. destruct (ticks_spec l INIT (λ _, [])) as (st & ns & Hrun & Hwf & Ht & Hns);
    [by split|constructor|done|].
  unfold run. rewrite Hrun. cbn [mbind option_bind]. eexists. split; [done|]. intros k.
  unfold stop. cbn [snd]. rewrite !about_app, about_down by done. specialize (Hns k). specialize (Ht k).
  cbn [app] in Hns, Ht. rewrite <-Hns. change (expected k []) with (@nil SNote). cbn [app]. f_equal.
  destruct Ht as [-> _]. assert (about k (match close with
    Ok problems => FromSource <$> problems | Err msg => [CleanupFailed msg] end) = []) as ->
    by (destruct close; [apply about_texts|done]).
  assert (about k (if alive is Some true then [NotStopped] else []) = []) as -> by (by destruct alive as [[]|]).
  rewrite app_nil_r. by destruct (streak (results k l)).
Qed.

(** ** Witness: a guest that is down for two ticks, then fails otherwise, then recovers *)

Definition demo_tick (r : res text GuestSample) : Tick :=
  mk_tick fzero (Ok (mk_host fzero fzero None)) (Err (u "ValueError: x")) [(u "pcmk-a1", r)] (Ok []).

Definition demo_ticks : list Tick :=
  demo_tick <$> [Err (u "down"); Err (u "down"); Err (u "late"); Ok (mk_guest None None None None None None)].

Lemma sampler_notes_exact_witness :
  ∃ notes, run demo_ticks (Some false) (Ok []) = Some (notes, tick_sample <$> demo_ticks) ∧
    about (u "guest pcmk-a1") notes =
      [Unavailable (u "guest pcmk-a1") (u "down"); Unavailable (u "guest pcmk-a1") (u "late");
       Recovered (u "guest pcmk-a1") 3] ∧
    about (u "vergil-vm") notes = [Unavailable (u "vergil-vm") (u "ValueError: x"); StillDown (u "vergil-vm") 4].
Proof.
  destruct (sampler_notes_exact demo_ticks (Some false) (Ok [])) as (notes & Hrun & Hk).
  { repeat (apply Forall_cons_2; [apply NoDup_singleton|]). constructor. }
  exists notes. split; [done|]. rewrite !Hk. split; by vm_compute.
Defined.
