(* ===== verification/PerfSource.v ===== *)
(** * The lab's sample source

    Models the RealSource of mqlab/perfsampler.py: the readers of virsh, /proc/stat and
    /proc/loadavg output, the CPU percentages between two readings, the ssh command lines,
    and the fallback from multiplexed to plain ssh, also under the interleavings of the
    sampler's concurrent guest probes. What the commands print and how they fail is
    input; the private control directory is the outcome of ensuring it. *)

From S2P Require Import Prelude PyText PyCodec PyDict PyFloat PyJson JsonRoundTrip Orchestrator Perf Sampler.

(** ** CPU counters *)

Record CpuCounters := mk_cpu { cc_steal : Z; cc_total : Z; cc_busy : Z; cc_iowait : Z }.
Record CpuPcts := mk_pcts { pc_steal : float; pc_busy : float; pc_iowait : float }.
Record LoadAvg := mk_load { la_1 : float; la_5 : float; la_15 : float }.

Definition STEAL_COL : nat := 7.
Definition IOWAIT_COL : nat := 4.
Definition BUSY_COLS : list nat := [0; 1; 2; 5; 6].
Definition TOTAL_COLS : nat := 8.

(** The exceptions of a reading. *)
Inductive SourceError :=
  | NoAddress (name : text) | BadProcStat | BadLoadAvg | BadProbe | BadNodeStats | BadNodeInfo
  | TooLarge | RunFailed (msg : text).

(** [parse_proc_stat_cpu]. *)
Definition parse_proc_stat_cpu (t : text) : res SourceError CpuCounters :=
  match split_ws t with
  | name :: cols =>
      if bool_decide (length (name :: cols) < TOTAL_COLS + 1) || negb (bool_decide (name = u "cpu"))
      then Err BadProcStat
      else
        values ← of_option BadProcStat (mapM int_of_text (take TOTAL_COLS cols));
        let col i := nth i values 0%Z in
        Ok (mk_cpu (col STEAL_COL) (sumZ values) (sumZ (col <$> BUSY_COLS)) (col IOWAIT_COL))
  | [] => Err BadProcStat
  end.

Section floats.
Context `{FT : FloatText}.

(** [parse_loadavg]: the first three fields, as floats. *)
Definition parse_loadavg (t : text) : res SourceError LoadAvg :=
  match take 3 (split_ws t) with
  | [a; b; c] =>
      match float_of_text a, float_of_text b, float_of_text c with
      | Some x, Some y, Some z => Ok (mk_load x y z)
      | _, _, _ => Err BadLoadAvg
      end
  | _ => Err BadLoadAvg
  end.

(** [parse_guest_probe]. *)
Definition parse_guest_probe (t : text) : res SourceError (CpuCounters * LoadAvg) :=
  match splitlines t with
  | l1 :: l2 :: _ => c ← parse_proc_stat_cpu l1; l ← parse_loadavg l2; Ok (c, l)
  | _ => Err BadProbe
  end.

(** [line.partition(":")] with a separator. *)
Definition field_of (line : text) : option (text * text) := cut 58 line.

Definition endswith_percent (s : text) : bool := match last s with Some c => (c =? 37)%N | None => false end.

(** [parse_nodecpustats]. *)
Definition nodestat_line (fields : list (text * float)) (line : text) :
    res SourceError (list (text * float)) :=
  match field_of line with
  | Some (name, v) =>
      if endswith_percent (strip v) then
        f ← of_option BadNodeStats (float_of_text (rstrip_by (N.eqb 37) (strip v)));
        Ok (dset fields (strip name) f)
      else Ok fields
  | None => Ok fields
  end.

Definition parse_nodecpustats (t : text) : res SourceError (float * float) :=
  fields ← res_foldM nodestat_line [] (splitlines t);
  match dget fields (u "usage"), dget fields (u "iowait") with
  | Some a, Some b => Ok (a, b)
  | _, _ => Err BadNodeStats
  end.
End floats.

(** [parse_nodeinfo_cpus]: the first line of that name. *)
Fixpoint nodeinfo_lines (lines : list text) : res SourceError Z :=
  match lines with
  | [] => Err BadNodeInfo
  | line :: lines =>
      match field_of line with
      | Some (name, v) =>
          if bool_decide (strip name = u "CPU(s)") then of_option BadNodeInfo (int_of_text (strip v))
          else nodeinfo_lines lines
      | None => nodeinfo_lines lines
      end
  end.
Definition parse_nodeinfo_cpus (t : text) : res SourceError Z := nodeinfo_lines (splitlines t).

(** [a / b] on integers with [a >= 0] and [b > 0]: the quotient rounded once to binary64;
    [None] is the OverflowError of one out of range. *)
Definition int_div (a b : Z) : option float :=
  match a, b with
  | Zpos m, Zpos n =>
      let q := SFdiv prec emax (S754_finite false m 0) (S754_finite false n 0) in
      match q with S754_infinity _ => None | _ => Some q end
  | _, _ => Some fzero
  end.

(** [cpu_pcts]: [Ok None] when there is no valid delta. *)
Definition cpu_pcts (prev cur : CpuCounters) : res SourceError (option CpuPcts) :=
  let d_total := (cc_total cur - cc_total prev)%Z in
  let d_steal := (cc_steal cur - cc_steal prev)%Z in
  let d_busy := (cc_busy cur - cc_busy prev)%Z in
  let d_iowait := (cc_iowait cur - cc_iowait prev)%Z in
  if ((d_total <=? 0) || (Z.min d_steal (Z.min d_busy d_iowait) <? 0))%Z then Ok None
  else
    let pct d := f ← of_option TooLarge (int_div d d_total); Ok (fmul f (float_of_Z 100)) in
    s ← pct d_steal; b ← pct d_busy; w ← pct d_iowait; Ok (Some (mk_pcts s b w)).

(** ** Readings *)

(** What a source keeps between readings. *)
Record Counters := mk_counters { co_prev : list (text * CpuCounters); co_local : option CpuCounters }.

(** [host]: the core count is read once and kept; a command that raised is [Err]. *)
Definition host_reading `{FT : FloatText} (cpus : option Z) (nodeinfo nodecpustats : res SourceError text) :
    res SourceError HostSample * option Z :=
  match match cpus with Some n => Ok n | None => nodeinfo ≫= parse_nodeinfo_cpus end with
  | Err e => (Err e, cpus)
  | Ok n =>
      (t ← nodecpustats; '(usage, iowait) ← parse_nodecpustats t; Ok (mk_host usage iowait (Some n)), Some n)
  end.

(** [local], on the line read from /proc/stat. *)
Definition local_reading (st : Counters) (line : text) : res SourceError LocalSample * Counters :=
  match parse_proc_stat_cpu line with
  | Err e => (Err e, st)
  | Ok cur =>
      let st' := mk_counters (co_prev st) (Some cur) in
      (pcts ← match co_local st with None => Ok None | Some prev => cpu_pcts prev cur end;
       Ok (match pcts with
           | None => mk_local None None None
           | Some p => mk_local (Some (pc_steal p)) (Some (pc_busy p)) (Some (pc_iowait p))
           end), st')
  end.

(** The end of [guest]: the reading a probe's output gives. *)
Definition guest_reading `{FT : FloatText} (st : Counters) (name out : text) :
    res SourceError GuestSample * Counters :=
  match parse_guest_probe out with
  | Err e => (Err e, st)
  | Ok (cur, load) =>
      let st' := mk_counters (dset (co_prev st) name cur) (co_local st) in
      (pcts ← match dget (co_prev st) name with None => Ok None | Some prev => cpu_pcts prev cur end;
       Ok (mk_guest (pc_steal <$> pcts) (pc_busy <$> pcts) (pc_iowait <$> pcts)
             (Some (la_1 load)) (Some (la_5 load)) (Some (la_15 load))), st')
  end.

(** ** The ssh command lines *)

Definition SSH_USER : text := u "vagrant".
Definition SSH_COMMON_ARGS : list text := [u "-o"; u "StrictHostKeyChecking=no"].
Definition GUEST_PROBE_CMD : text := u "head -n1 /proc/stat && cat /proc/loadavg".
Definition SSH_PROBE_ARGS : list text :=
  [u "-n"; u "-o"; u "BatchMode=yes"; u "-o"; u "ConnectTimeout=5"; u "-o"; u "LogLevel=ERROR"].
Definition CONTROL_PERSIST_S : nat := 60.
Definition SSH_MUX_ARGS : list text :=
  [u "-o"; u "ControlMaster=auto"; u "-o"; u "ControlPath=%C"; u "-o"; u "ControlPersist=60";
   u "-o"; u "ServerAliveInterval=5"; u "-o"; u "ServerAliveCountMax=2"].
Definition SSH_NO_MUX_ARGS : list text := [u "-o"; u "ControlMaster=no"; u "-o"; u "ControlPath=none"].

Definition MUX_FAILURE_MARKERS : list text :=
  [u "muxserver_listen"; u "mux_client"; u "ControlSocket"; u "ontrol socket"; u "unix_listener"].

(** How a command ends: its output, a [ProbeError], or another exception. *)
Inductive RunResult := ROk (out : text) | RProbeError (rc : Z) (stderr msg : text) | RRaised (msg : text).

(** [is_mux_failure]. *)
Definition is_mux_failure (r : RunResult) : bool :=
  match r with
  | RProbeError rc stderr _ =>
      (rc =? 255)%Z && existsb (λ m, bool_decide (is_Some (find_sub m stderr))) MUX_FAILURE_MARKERS
  | _ => false
  end.

(** [_ssh]; [key] is the expanded path of the key. *)
Definition ssh (key : text) (mux : bool) (tail : list text) : list text :=
  u "ssh" :: SSH_COMMON_ARGS ++ SSH_PROBE_ARGS ++ (if mux then SSH_MUX_ARGS else SSH_NO_MUX_ARGS)
  ++ [u "-i"; key] ++ tail.

(** ** Multiplexing and its fallback *)

(** [_mux_ok], [_masters] and the queued notes. *)
Record MuxState := mk_mux { mx_ok : bool; mx_masters : list text; mx_notes : list text }.

Definition fallback_note (reason : text) : text :=
  u "ssh multiplexing unavailable (" ++ reason ++
  u "); guest probes fall back to plain non-multiplexed ssh (one login per probe) for the rest of the run".

(** [_disable_mux], under its lock. *)
Definition disable_mux (reason : text) (st : MuxState) : MuxState :=
  if mx_ok st then mk_mux false (mx_masters st) (mx_notes st ++ [fallback_note reason]) else st.

Definition add_master (name : text) (st : MuxState) : MuxState :=
  mk_mux (mx_ok st) (add_new (mx_masters st) name) (mx_notes st).

(** [notes]: drains the queue. *)
Definition drain (st : MuxState) : list text * MuxState :=
  (mx_notes st, mk_mux (mx_ok st) (mx_masters st) []).

(** The commands of a probe: multiplexed or not, to which guest. *)
Record SshRun := mk_run { sr_mux : bool; sr_name : text }.

Definition exn_text (r : RunResult) : text :=
  match r with ROk _ => [] | RProbeError _ _ msg | RRaised msg => msg end.

(** [_probe] run alone: [dir] is the outcome of ensuring the control directory, [r1] the
    multiplexed run's and [r2] the plain run's. *)
Definition probe (mux_dir name : text) (dir : option text) (r1 r2 : RunResult) (st : MuxState) :
    RunResult * list SshRun * MuxState :=
  let plain := mk_run false name in
  if mx_ok st then
    match dir with
    | Some e => (r2, [plain], disable_mux (u "control dir " ++ mux_dir ++ u ": " ++ e) st)
    | None =>
        match r1 with
        | ROk out => (ROk out, [mk_run true name], add_master name st)
        | _ =>
            if is_mux_failure r1 then
              (r2, [mk_run true name; plain],
               disable_mux (u "control socket in " ++ mux_dir ++ u ": " ++ exn_text r1) st)
            else (r1, [mk_run true name], st)
        end
    end
  else (r2, [plain], st).

(** [close]: the masters asked to exit, in order, each with the note of one that did not. *)
Definition close_note (name exn : text) : text :=
  u "guest " ++ name ++ u ": ssh master not closed (" ++ exn ++ u "); it exits on its own after " ++
  nat_text CONTROL_PERSIST_S ++ u "s idle (ControlPersist)".

Definition close (result : text → RunResult) (st : MuxState) : list text * list text * MuxState :=
  let names := sorted_text (mx_masters st) in
  (names,
   omap (λ n, match result n with ROk _ => None | r => Some (close_note n (exn_text r)) end) names,
   mk_mux (mx_ok st) [] (mx_notes st)).

(** ** Concurrent probes

    A tick probes its guests on several threads. Between the shared accesses the threads
    interleave: the test of [_mux_ok], the end of a run with its entry in [_masters], the
    locked [_disable_mux], and the sampler's draining of the notes. *)

Inductive Thread :=
  | TStart | TMux | TFallback (reason : text) | TPlain | TDone (r : RunResult).

Record Config := mk_config {
  cf_threads : list (text * Thread); cf_mux : MuxState;
  cf_drained : list text;   (* what [notes] has returned so far *)
  cf_runs : list SshRun     (* the commands that ended, in order *)
}.

Section steps.
Context (mux_dir : text).

(** One step of the thread of a guest, on the shared state. *)
Inductive thread_step (name : text) : Thread → MuxState → Thread → MuxState → list SshRun → Prop :=
  | step_mux st : mx_ok st = true → thread_step name TStart st TMux st []
  | step_no_dir st e : mx_ok st = true →
      thread_step name TStart st (TFallback (u "control dir " ++ mux_dir ++ u ": " ++ e)) st []
  | step_plain st : mx_ok st = false → thread_step name TStart st TPlain st []
  | step_mux_ok st out :
      thread_step name TMux st (TDone (ROk out)) (add_master name st) [mk_run true name]
  | step_mux_failed st r : is_mux_failure r = true →
      thread_step name TMux st (TFallback (u "control socket in " ++ mux_dir ++ u ": " ++ exn_text r)) st
        [mk_run true name]
  | step_mux_raised st r : is_mux_failure r = false → (∀ out, r ≠ ROk out) →
      thread_step name TMux st (TDone r) st [mk_run true name]
  | step_disable st reason :
      thread_step name (TFallback reason) st TPlain (disable_mux reason st) []
  | step_plain_run st r : thread_step name TPlain st (TDone r) st [mk_run false name].

Inductive config_step : Config → Config → Prop :=
  | config_thread c i name t t' st' runs :
      cf_threads c !! i = Some (name, t) →
      thread_step name t (cf_mux c) t' st' runs →
      config_step c (mk_config (<[i := (name, t')]> (cf_threads c)) st' (cf_drained c) (cf_runs c ++ runs))
  | config_drain c :
      config_step c (mk_config (cf_threads c) (drain (cf_mux c)).2
                       (cf_drained c ++ (drain (cf_mux c)).1) (cf_runs c)).

(** A tick starts its threads. *)
Definition start_threads (names : list text) (st : MuxState) (drained : list text) (runs : list SshRun) : Config :=
  mk_config ((λ n, (n, TStart)) <$> names) st drained runs.

Inductive reachable : Config → Prop :=
  | reach_init names : reachable (start_threads names (mk_mux true [] []) [] [])
  | reach_step c c' : reachable c → config_step c c' → reachable c'
  | reach_tick c names : reachable c → Forall (λ nt, ∃ r, nt.2 = TDone r) (cf_threads c) →
      reachable (start_threads names (cf_mux c) (cf_drained c) (cf_runs c)).
End steps.

(** ** The fallback happens once *)

Section fallback.
Context (mux_dir : text).

(** What every reachable configuration satisfies. *)
Definition fallback_inv (c : Config) : Prop :=
  length (cf_drained c ++ mx_notes (cf_mux c)) = (if mx_ok (cf_mux c) then 0 else 1) ∧
  (∀ n, (n, TPlain) ∈ cf_threads c → mx_ok (cf_mux c) = false) ∧
  (∀ r, r ∈ cf_runs c → sr_mux r = false → mx_ok (cf_mux c) = false) ∧
  (∀ n, n ∈ mx_masters (cf_mux c) → mk_run true n ∈ cf_runs c).

(** What a thread's step does to the shared state. *)
Lemma thread_step_effect name t st t' st' runs :
  thread_step mux_dir name t st t' st' runs →
  (mx_ok st' = mx_ok st ∧ mx_notes st' = mx_notes st ∨
   mx_ok st = true ∧ mx_ok st' = false ∧ length (mx_notes st') = S (length (mx_notes st))) ∧
  (t' = TPlain → mx_ok st' = false) ∧
  (∀ r, r ∈ runs → sr_mux r = false → t = TPlain) ∧
  (∀ n, n ∈ mx_masters st' → n ∈ mx_masters st ∨ mk_run true n ∈ runs).
Proof.
  destruct 1 as [st Hok|st e Hok|st Hok|st out|st r Hf|st r Hf Hr|st reason|st r]; split_and!; try done; try auto;
    try (by intros r' [= ->]%list_elem_of_singleton);
    try (by intros r' Hin; apply elem_of_nil in Hin).
  - intros n. unfold add_master. cbn [mx_masters]. unfold add_new.
    case_decide; [by left|]. rewrite elem_of_app, list_elem_of_singleton.
    intros [?| ->]; [by left|right; by left].
  - unfold disable_mux. destruct (mx_ok st) eqn:Hok; [right|left]; cbn; [|by rewrite Hok].
    split_and!; [done..|]. rewrite length_app. simpl. lia.
  - intros _. unfold disable_mux. by destruct (mx_ok st) eqn:Hok.
  - intros n. unfold disable_mux. destruct (mx_ok st); by left.
Qed.

Lemma mux_stays_off name t st t' st' runs :
  thread_step mux_dir name t st t' st' runs → mx_ok st = false → mx_ok st' = false.
Proof. intros [[[? _]|(? & _)] _]%thread_step_effect; congruence. Qed.

Lemma thread_step_inv c i name t t' st' runs :
  fallback_inv c → cf_threads c !! i = Some (name, t) →
  thread_step mux_dir name t (cf_mux c) t' st' runs →
  fallback_inv (mk_config (<[i := (name, t')]> (cf_threads c)) st' (cf_drained c) (cf_runs c ++ runs)).
Proof.
  intros (Hlen & Hplain & Hruns & Hmast) Hi Hstep.
  pose proof (mux_stays_off _ _ _ _ _ _ Hstep) as Hoff.
  destruct (thread_step_effect _ _ _ _ _ _ Hstep) as (Hnotes & Hp & Hr & Hm).
  unfold fallback_inv. cbn [cf_drained cf_mux cf_threads cf_runs]. split_and!.
  - rewrite length_app in *. destruct Hnotes as [[-> ->]|(Hok & -> & ->)]; [done|]. rewrite Hok in Hlen. lia.
  - intros n Hn. apply list_elem_of_lookup in Hn as [j Hj].
    destruct (decide (i = j)) as [->|Hne].
    + rewrite list_lookup_insert_eq in Hj by (by eapply lookup_lt_Some). injection Hj as _ Ht. by apply Hp.
    + rewrite list_lookup_insert_ne in Hj by done. apply Hoff, (Hplain n). by eapply list_elem_of_lookup_2.
  - intros r [Hin|Hin]%elem_of_app Hmux; [by eapply Hoff, Hruns|].
    apply Hoff, (Hplain name). rewrite (Hr r Hin Hmux) in Hi. by eapply list_elem_of_lookup_2.
  - intros n Hn. apply elem_of_app. destruct (Hm n Hn) as [?|?]; [left; by apply Hmast|by right].
Qed.

(** Whatever the interleaving of the concurrent guest probes and of the draining, over
    all ticks: the fallback is noted once and only when multiplexing has gone off; no
    plain command runs before it has; and every master the source will close was opened
    by a multiplexed command that ran. *)
Theorem mux_falls_back_once c :
  reachable mux_dir c →
  length (cf_drained c ++ mx_notes (cf_mux c)) = (if mx_ok (cf_mux c) then 0 else 1) ∧
  (∀ r, r ∈ cf_runs c → sr_mux r = false → mx_ok (cf_mux c) = false) ∧
  (∀ n, n ∈ mx_masters (cf_mux c) → mk_run true n ∈ cf_runs c).
Proof.
  intros Hc. assert (fallback_inv c) as (? & _ & ? & ?); [|done]. induction Hc as [names|c c' Hc IH Hs|c names Hc IH Hd].
  - unfold fallback_inv. split_and!; [done| | |].
    + intros n (m & ? & _)%list_elem_of_fmap. done.
    + by intros r ?%elem_of_nil.
    + by intros n ?%elem_of_nil.
  - destruct Hs as [c i name t t' st' runs Hi Hstep|c]; [by eapply thread_step_inv|].
    destruct IH as (Hlen & Hplain & Hruns & Hmast). unfold fallback_inv, drain. cbn. rewrite app_nil_r. by split_and!.
  - destruct IH as (Hlen & _ & Hruns & Hmast). unfold fallback_inv. cbn. split_and!; [done| |done..].
    intros n (m & ? & _)%list_elem_of_fmap. done.
Qed.

(** ** Every probe ends *)

Definition weight (t : Thread) : nat :=
  match t with TStart => 4 | TMux => 3 | TFallback _ => 2 | TPlain => 1 | TDone _ => 0 end.

Definition measure (c : Config) : nat := sum_list_with (λ nt, weight nt.2) (cf_threads c).

Lemma sum_insert {A} (f : A → nat) l i x y :
  l !! i = Some x → sum_list_with f (<[i := y]> l) + f x = sum_list_with f l + f y.
Proof.
  revert i. induction l as [|z l IH]; intros [|i] Hi; simplify_eq/=; [lia|]. specialize (IH _ Hi). lia.
Qed.

(** The probes of a tick end: a thread that is not done can always take its next step
    (whatever the command it waits for gives), and each step of a thread brings the tick
    closer to its end, so no interleaving runs for ever; a probe runs at most two
    commands. *)
Theorem probes_end c :
  (∀ i name t, cf_threads c !! i = Some (name, t) → (∀ r, t ≠ TDone r) →
     ∃ t' st' runs, thread_step mux_dir name t (cf_mux c) t' st' runs) ∧
  (∀ i name t t' st' runs, cf_threads c !! i = Some (name, t) →
     thread_step mux_dir name t (cf_mux c) t' st' runs →
     measure (mk_config (<[i := (name, t')]> (cf_threads c)) st' (cf_drained c) (cf_runs c ++ runs))
       < measure c) ∧
  (∀ name dir r1 r2 st, length (probe mux_dir name dir r1 r2 st).1.2 ≤ 2).
Proof.
  split_and!.
  - intros i name t _ Ht. destruct t as [| |reason| |r].
    + destruct (mx_ok (cf_mux c)) eqn:Hok; do 3 eexists; by constructor.
    + do 3 eexists. apply (step_mux_ok _ _ _ []).
    + do 3 eexists. constructor.
    + do 3 eexists. apply (step_plain_run _ _ _ (ROk [])).
    + by destruct (Ht r).
  - intros i name t t' st' runs Hi Hstep. unfold measure. cbn [cf_threads].
    pose proof (sum_insert (λ nt, weight nt.2) _ _ _ (name, t') Hi) as Hsum. cbn [snd] in Hsum.
    assert (weight t' < weight t) by (by destruct Hstep; simpl; lia). lia.
  - intros name dir r1 r2 st. unfold probe. repeat case_match; simpl; lia.
Qed.

(** The steps of one thread running alone. *)
Inductive thread_steps (name : text) : Thread → MuxState → Thread → MuxState → list SshRun → Prop :=
  | steps_done t st : thread_steps name t st t st []
  | steps_more t st t1 st1 runs1 t2 st2 runs2 :
      thread_step mux_dir name t st t1 st1 runs1 → thread_steps name t1 st1 t2 st2 runs2 →
      thread_steps name t st t2 st2 (runs1 ++ runs2).

Lemma steps_one name t st t' st' runs :
  thread_step mux_dir name t st t' st' runs → thread_steps name t st t' st' runs.
Proof. intros Hs. rewrite <-(app_nil_r runs). eapply steps_more; [exact Hs|constructor]. Qed.

(** The probe of a guest, as the source writes it, is a run of its thread: from the
    start it reaches its result through the thread's own steps, with the same commands and
    the same shared state. *)
Theorem probe_refines_thread name dir r1 r2 st :
  let '(r, runs, st') := probe mux_dir name dir r1 r2 st in
  thread_steps name TStart st (TDone r) st' runs.
Proof.
  assert (∀ reason st, thread_steps name (TFallback reason) st (TDone r2) (disable_mux reason st)
    ([mk_run false name])) as Hfall.
  { intros reason st0. eapply (steps_more _ _ _ _ _ [] _ _ [_]); [by constructor|].
    apply steps_one. by constructor. }
  unfold probe. destruct (mx_ok st) eqn:Hok.
  - destruct dir as [e|].
    + eapply (steps_more _ _ _ _ _ [] _ _ [_]); [by apply step_no_dir|]. by apply Hfall.
    + assert (∀ r runs st', thread_steps name TMux st (TDone r) st' runs →
        thread_steps name TStart st (TDone r) st' runs) as Hmux.
      { intros r runs st' Hs. eapply (steps_more _ _ _ _ _ [] _ _ runs); [by apply step_mux|done]. }
      destruct r1 as [out|rc stderr msg|msg].
      * apply Hmux. apply steps_one; constructor.
      * destruct (is_mux_failure (RProbeError rc stderr msg)) eqn:Hf; apply Hmux.
        -- eapply (steps_more _ _ _ _ _ [_] _ _ [_]); [by apply (step_mux_failed _ _ _ (RProbeError rc stderr msg))|].
           by apply Hfall.
        -- apply steps_one. by apply step_mux_raised.
      * cbn [is_mux_failure]. apply Hmux.
        apply steps_one. by apply step_mux_raised.
  - eapply (steps_more _ _ _ _ _ [] _ _ [_]); [by apply step_plain|].
    apply steps_one; constructor.
Qed.
End fallback.

(** ** Readings *)

(** The aggregate line of /proc/stat: the label, padded, and at least eight counters. *)
Definition proc_stat_line (pad : nat) (values : list Z) (more : list text) : text :=
  u "cpu" ++ 32%N :: replicate pad 32%N ++ str_join [32%N] ((Z_text <$> values) ++ more).

Lemma split_ws_spaces n s : split_ws (replicate n 32%N ++ s) = split_ws s.
Proof. induction n as [|n IH]; [done|]. cbn [replicate app]. by rewrite split_ws_blank. Qed.

(** /proc/stat is read exactly: the eight counters that make the total, whatever follows
    them on the line. *)
Theorem proc_stat_exact pad user nice system idle iowait irq softirq steal more :
  let values := [user; nice; system; idle; iowait; irq; softirq; steal]%Z in
  Forall (λ z, is_Some (str_int z)) values → Forall word_ok more →
  parse_proc_stat_cpu (proc_stat_line pad values more) =
    Ok (mk_cpu steal (user + nice + system + idle + iowait + irq + softirq + steal)
          (user + nice + system + irq + softirq) iowait)%Z.
Proof.
  intros values Hv Hm. unfold parse_proc_stat_cpu, proc_stat_line.
  rewrite split_ws_word by closed_text. rewrite split_ws_spaces, split_ws_join.
  2:{ apply Forall_app. split; [|done]. apply Forall_fmap, Forall_true. apply Z_text_word. }
  rewrite bool_decide_eq_false_2; [|unfold values, TOTAL_COLS; simpl; lia].
  rewrite bool_decide_eq_true_2 by done. cbn [orb negb].
  assert (take TOTAL_COLS ((Z_text <$> values) ++ more) = Z_text <$> values) as ->.
  { rewrite take_app_le by (rewrite length_fmap; unfold values, TOTAL_COLS; simpl; lia). done. }
  assert (mapM int_of_text (Z_text <$> values) = Some values) as ->.
  { apply mapM_Some, Forall2_fmap_l, Forall_Forall2_diag. eapply Forall_impl; [exact Hv|].
    intros z Hz. by apply int_of_Z_text. }
  cbn [of_option mbind res_bind]. do 2 f_equal; unfold values, sumZ, BUSY_COLS; simpl; lia.
Qed.

(** A percentage is published exactly when time has passed and no counter went back. *)
Theorem cpu_pcts_valid prev cur :
  cpu_pcts prev cur = Ok None ↔
    (cc_total cur ≤ cc_total prev ∨ cc_steal cur < cc_steal prev ∨ cc_busy cur < cc_busy prev ∨
     cc_iowait cur < cc_iowait prev)%Z.
Proof.
  unfold cpu_pcts. destruct (((cc_total cur - cc_total prev <=? 0) || _)%Z) eqn:Hb.
  - split; [intros _|done]. apply orb_true_iff in Hb. rewrite Z.leb_le, Z.ltb_lt in Hb. lia.
  - apply orb_false_iff in Hb. rewrite Z.leb_gt, Z.ltb_ge in Hb. split; [|lia].
    intros H. exfalso. apply bind_Ok in H as (s & _ & H). apply bind_Ok in H as (b & _ & H).
    apply bind_Ok in H as (w & _ & H). done.
Qed.

(** ** Witnesses *)

Definition demo_threads (t0 : Thread) : list (text * Thread) := [(u "pcmk-a1", t0); (u "pcmk-a2", TMux)].

Lemma mux_falls_back_once_witness :
  ∃ c, reachable (u "/run") c ∧ length (cf_drained c ++ mx_notes (cf_mux c)) = 1 ∧
    cf_runs c = [mk_run true (u "pcmk-a1"); mk_run false (u "pcmk-a1"); mk_run true (u "pcmk-a2")] ∧
    mx_masters (cf_mux c) = [u "pcmk-a2"].
Proof.
  set (bad := RProbeError 255 (u "muxserver_listen: link mux listener") (u "ssh exited 255")).
  eassert (reachable (u "/run") _) as Hc.
  { eapply (reach_step _ _ _); [eapply (reach_step _ _ _); [eapply (reach_step _ _ _);
      [eapply (reach_step _ _ _); [eapply (reach_step _ _ _); [eapply (reach_step _ _ _);
        [apply (reach_init _ [u "pcmk-a1"; u "pcmk-a2"])|]|]|]|]|]|].
    - by eapply (config_thread _ _ 0); [|apply step_mux].
    - by eapply (config_thread _ _ 1); [|apply step_mux].
    - by eapply (config_thread _ _ 0); [|apply (step_mux_failed _ _ _ bad)].
    - by eapply (config_thread _ _ 0); [|apply step_disable].
    - by eapply (config_thread _ _ 0); [|apply (step_plain_run _ _ _ (ROk []))].
    - by eapply (config_thread _ _ 1); [|apply (step_mux_ok _ _ _ [])]. }
  eexists. split; [exact Hc|]. destruct (mux_falls_back_once _ _ Hc) as (Hn & _ & _).
  split; [rewrite Hn; by vm_compute|]. split; by vm_compute.
Defined.

Lemma probes_end_witness :
  ∃ t' st' runs, thread_step (u "/run") (u "pcmk-a1") TStart (mk_mux true [] []) t' st' runs.
Proof.
  destruct (probes_end (u "/run") (start_threads [u "pcmk-a1"] (mk_mux true [] []) [] [])) as (H & _).
  by apply (H 0 (u "pcmk-a1") TStart).
Defined.

Lemma proc_stat_exact_witness :
  parse_proc_stat_cpu (u "cpu  10 0 5 80 3 0 2 7 0 0") = Ok (mk_cpu 7 107 17 3).
Proof.
  apply (proc_stat_exact 1 10 0 5 80 3 0 2 7 [u "0"; u "0"]); [|by closed_text].
  repeat (apply Forall_cons_2; [by eexists|]). constructor.
Defined.
