(* ===== verification/PerfRun.v ===== *)
(** * Performance capture of a bootstrap

    Models mqlab/perfrun.py: the batches read from the boot steps, the outcomes of the
    readiness tasks read from the transcript, the milestones and notes derived from them,
    and the capture object a bootstrap drives. The sampler it owns is in Sampler.v; the
    writing of the report and the renderer are left out. The notes are kept as data: their
    texts are literals around the values. *)

From S2P Require Import Prelude PyText PyCodec PyDict PyFloat PyJson JsonRoundTrip Orchestrator Perf.

(** ** Lines of the transcript *)

(** [_TASK_BANNER]: the task's name. *)
Definition banner_of (line : text) : option text :=
  if startswith line (u "TASK [") then
    let r := lstrip_by is_space (rev (drop 6 line)) in
    match r with
    | 42%N :: _ =>
        match lstrip_by (N.eqb 42) r with
        | 32%N :: 93%N :: c :: name => Some (rev (c :: name))
        | _ => None
        end
    | _ => None
    end
  else None.

(** Exactly [n] digits. *)
Definition digits_n (n : nat) (s : text) : option (text * text) :=
  if bool_decide (length (take n s) = n) && forallb re_digit (take n s) then Some (take n s, drop n s) else None.

Definition expect (c : N) (s : text) : option text :=
  match s with c' :: s' => if (c =? c')%N then Some s' else None | [] => None end.

Definition some_of (p : N → bool) (s : text) : option (text * text) :=
  match span p s with ([], _) => None | r => Some r end.

(** [h:mm:ss.fff]. *)
Definition clock_at (s : text) : option (text * text * text * text * text) :=
  '(h, s) ← some_of re_digit s; s ← expect 58 s; '(m, s) ← digits_n 2 s; s ← expect 58 s;
  '(sec, s) ← digits_n 2 s; s ← expect 46 s; '(ms, s) ← digits_n 3 s; Some (h, m, sec, ms, s).

(** [_TASK_TIMING] from a given place on. *)
Definition timing_at (s : text) : option (text * text * text * text) :=
  s ← expect 40 s; '(h, m, sec, ms, s) ← clock_at s; s ← expect 41 s;
  '(_, s) ← some_of is_space s; '(_, _, _, _, s) ← clock_at s; s ← expect 32 s;
  '(_, s) ← some_of (N.eqb 42) s;
  if bool_decide (lstrip_by is_space s = []) then Some (h, m, sec, ms) else None.

(** The leftmost place where it matches. *)
Fixpoint timing_of (line : text) : option (text * text * text * text) :=
  match timing_at line with
  | Some r => Some r
  | None => match line with [] => None | _ :: line => timing_of line end
  end.

(** [_timing_seconds]; [None] is the exception of a number too long or too large. *)
Definition timing_seconds (t : text * text * text * text) : option float :=
  let '(h, m, s, ms) := t in
  h ← int_of_text h; m ← int_of_text m; s ← int_of_text s; ms ← int_of_text ms;
  match float_of_Z (h * 3600 + m * 60 + s) with
  | S754_infinity _ => None
  | f => Some (fadd f (fdiv (float_of_Z ms) (float_of_Z 1000)))
  end.

(** ** ansible_task_outcomes *)

Record TaskOutcome := mk_outcome { to_seconds : option float; to_ok : bool; to_failed : bool }.

Record TaskScan := mk_scan {
  sc_out : list (text * TaskOutcome); sc_banner : option text; sc_active : option text
}.

Definition update_task (out : list (text * TaskOutcome)) (name : text) (f : TaskOutcome → TaskOutcome) :
    list (text * TaskOutcome) :=
  match dget out name with Some o => dset out name (f o) | None => out end.

Definition set_seconds (x : float) (o : TaskOutcome) : TaskOutcome := mk_outcome (Some x) (to_ok o) (to_failed o).
Definition set_ok (o : TaskOutcome) : TaskOutcome := mk_outcome (to_seconds o) true (to_failed o).
Definition set_failed (o : TaskOutcome) : TaskOutcome := mk_outcome (to_seconds o) (to_ok o) true.

(** One line of the loop; [None] is the exception of a duration. *)
Definition task_line (names : list text) (st : TaskScan) (line : text) : option TaskScan :=
  match banner_of line with
  | Some name => Some (mk_scan (sc_out st) (Some name) (sc_active st))
  | None =>
      match timing_of line with
      | Some t =>
          out1 ← match sc_active st with
                 | Some a => x ← timing_seconds t; Some (update_task (sc_out st) a (set_seconds x))
                 | None => Some (sc_out st)
                 end;
          match sc_banner st with
          | Some b =>
              if bool_decide (b ∈ names) && negb (dmem b out1)
              then Some (mk_scan (dset out1 b (mk_outcome None false false)) None (Some b))
              else Some (mk_scan out1 None None)
          | None => Some (mk_scan out1 None None)
          end
      | None =>
          match sc_active st with
          | Some a =>
              if startswith line (u "ok: [") || startswith line (u "changed: [")
              then Some (mk_scan (update_task (sc_out st) a set_ok) (sc_banner st) (sc_active st))
              else if startswith line (u "fatal: [")
              then Some (mk_scan (update_task (sc_out st) a set_failed) (sc_banner st) (sc_active st))
              else Some st
          | None => Some st
          end
      end
  end.

Fixpoint task_lines (names : list text) (st : TaskScan) (lines : list text) : option TaskScan :=
  match lines with
  | [] => Some st
  | line :: lines => st1 ← task_line names st line; task_lines names st1 lines
  end.

Definition ansible_task_outcomes (lines names : list text) : option (list (text * TaskOutcome)) :=
  sc_out <$> task_lines names (mk_scan [] None None) lines.

(** ** vagrant_up_batches *)

Definition batch_step (batches : list (text * list text)) (s : CommandStep) : list (text * list text) :=
  match cmd_argv (st_command s) with
  | a :: b :: args =>
      if bool_decide (a = u "vagrant") && bool_decide (b = u "up")
      then dset batches (st_label s) (filter (λ x, startswith x (u "-") = false) args)
      else batches
  | _ => batches
  end.

Definition vagrant_up_batches (steps : list CommandStep) : list (text * list text) := foldl batch_step [] steps.

(** ** The capture *)

Definition VMS : text := u "vms".
Definition OBSERVE : text := u "observe".
Definition PREFLIGHT : text := u "preflight".
Definition prereq_phase (phase : text) : text := u "prereq:" ++ phase.

Definition READINESS_TASKS : list (text * text) :=
  [(u "opensearch_green", u "opensearch : wait for the OpenSearch cluster to accept requests");
   (u "data_prepper_ready",
    u "data-prepper : wait for the Data Prepper otel_logs_source to accept connections");
   (u "dashboards_ready",
    u "opensearch-dashboards : wait for OpenSearch Dashboards /api/status to report green")].

(** The notes of a capture. *)
Inductive PerfNote :=
  | Attribution | Untimed (vms : list text) | BoundGap
  | NeverStarted (milestone task : text) | NeverFinished (milestone task : text)
  | NotReached (milestone task : text) (seconds : float)
  | Outcome (msg : option text) | Degraded (what exc : text).

Record Capture := mk_capture {
  ca_batches : list (text * list text); ca_observe : bool; ca_outcome : option text
}.

Definition NEW_CAPTURE : Capture := mk_capture [] false None.

(** [register_phase]. *)
Definition register_phase (phase : text) (steps : list CommandStep) (c : Capture) : Capture :=
  if bool_decide (phase = VMS)
  then mk_capture (foldl (λ d lv, dset d lv.1 lv.2) (ca_batches c) (vagrant_up_batches steps))
         (ca_observe c) (ca_outcome c)
  else if bool_decide (phase = OBSERVE) then mk_capture (ca_batches c) true (ca_outcome c)
  else c.

Definition nothing_to_do (c : Capture) : Capture :=
  mk_capture (ca_batches c) (ca_observe c) 
    (Some (u "bootstrap: already satisfied " ++ 8212%N :: u " nothing to do")).
Definition failed_in (phase : text) (exit_code : Z) (c : Capture) : Capture :=
  mk_capture (ca_batches c) (ca_observe c)
    (Some (u "bootstrap FAILED in phase " ++ phase ++ u " (exit " ++ Z_text exit_code ++ u ")")).
Definition completed (c : Capture) : Capture :=
  mk_capture (ca_batches c) (ca_observe c) (Some (u "bootstrap completed")).

Definition boot_key (vm : text) : text := u "boot:" ++ vm.
Definition retries_key (vm : text) : text := u "boot_retries:" ++ vm.

(** The milestones of one step of the record, if it is a batch that booted. *)
Definition boot_step (batches : list (text * list text)) (r : PerfRecord) (s : StepTiming) : PerfRecord :=
  match dget batches (tm_label s) with
  | Some vms =>
      if bool_decide (tm_phase s = VMS) && tm_ok s then
        foldl (λ r vm, add_milestone (retries_key vm) (NInt (Z.of_nat (tm_retries s)))
                         (add_milestone (boot_key vm) (NFloat (tm_seconds s)) r)) r vms
      else r
  | None => r
  end.

(** The labels of the batches that booted. *)
Definition timed (batches : list (text * list text)) (steps : list StepTiming) : list text :=
  tm_label <$> filter (λ s, tm_phase s = VMS ∧ is_Some (dget batches (tm_label s)) ∧ tm_ok s = true) steps.

(** [_boot_milestones]. *)
Definition boot_milestones (batches : list (text * list text)) (r : PerfRecord) :
    PerfRecord * list PerfNote :=
  match batches with
  | [] => (r, [])
  | _ =>
      let done := timed batches (pr_steps r) in
      let untimed := filter (λ b, b.1 ∉ done) batches ≫= snd in
      (foldl (boot_step batches) r (pr_steps r),
       (match done with [] => [] | _ => [Attribution] end)
       ++ match untimed with [] => [] | _ => [Untimed untimed] end)
  end.

(** One milestone of [_readiness_milestones]. *)
Definition readiness (outcomes : list (text * TaskOutcome)) (acc : PerfRecord * list PerfNote)
    (mt : text * text) : PerfRecord * list PerfNote :=
  let '(r, notes) := acc in
  let '(milestone, task) := mt in
  match dget outcomes task with
  | None => (r, notes ++ [NeverStarted milestone task])
  | Some o =>
      match to_seconds o with
      | None => (r, notes ++ [NeverFinished milestone task])
      | Some x =>
          if to_failed o || negb (to_ok o) then (r, notes ++ [NotReached milestone task x])
          else (add_milestone milestone (NFloat x) r, notes)
      end
  end.

(** [_readiness_milestones]; [None] is an exception. *)
Definition readiness_milestones (transcript : text) (r : PerfRecord) : option (PerfRecord * list PerfNote) :=
  outcomes ← ansible_task_outcomes (splitlines transcript) READINESS_TASKS.*2;
  Some (foldl (readiness outcomes) (r, [BoundGap]) READINESS_TASKS).

(** [finish], between the stop of the sampler and the writing of the report: the
    transcript is [None] when it cannot be read, and [exc] is the text of what failed. *)
Definition finish (c : Capture) (exc : text) (transcript : option text) (r : PerfRecord) :
    PerfRecord * list PerfNote :=
  let '(r1, n1) := boot_milestones (ca_batches c) r in
  let '(r2, n2) :=
    if ca_observe c then
      match t ← transcript; readiness_milestones t r1 with
      | Some rn => rn
      | None => (r1, [Degraded (u "observe readiness milestones unavailable") exc])
      end
    else (r1, []) in
  (r2, Outcome (ca_outcome c) :: n1 ++ n2).

(** ** Boot milestones *)

Lemma boot_key_inj a b : boot_key a = boot_key b → a = b.
Proof. unfold boot_key. by intros ?%app_inv_head. Qed.
Lemma retries_key_inj a b : retries_key a = retries_key b → a = b.
Proof. unfold retries_key. by intros ?%app_inv_head. Qed.
Lemma keys_apart a b : boot_key a ≠ retries_key b.
Proof. done. Qed.

(** The steps that booted a machine. *)
Definition booted (batches : list (text * list text)) (vm : text) (s : StepTiming) : bool :=
  match dget batches (tm_label s) with
  | Some vms => bool_decide (tm_phase s = VMS) && tm_ok s && bool_decide (vm ∈ vms)
  | None => false
  end.

Definition last_boot (batches : list (text * list text)) (vm : text) (steps : list StepTiming) :
    option StepTiming := last (filter (λ s, booted batches vm s = true) steps).

Lemma boot_fold_get (s : StepTiming) vms r vm :
  let r' := foldl (λ r vm, add_milestone (retries_key vm) (NInt (Z.of_nat (tm_retries s)))
              (add_milestone (boot_key vm) (NFloat (tm_seconds s)) r)) r vms in
  dget (pr_milestones r') (boot_key vm) =
    (if bool_decide (vm ∈ vms) then Some (NFloat (tm_seconds s)) else dget (pr_milestones r) (boot_key vm)) ∧
  dget (pr_milestones r') (retries_key vm) =
    (if bool_decide (vm ∈ vms) then Some (NInt (Z.of_nat (tm_retries s)))
     else dget (pr_milestones r) (retries_key vm)).
Proof.
  simpl. induction vms as [|v vms IH] using rev_ind; [done|].
  rewrite foldl_app. cbn [foldl add_milestone pr_milestones]. rewrite !dget_dset.
  destruct IH as [IH1 IH2]. rewrite IH1, IH2.
  assert (vm ∈ vms ++ [v] ↔ vm ∈ vms ∨ v = vm) as Hin.
  { rewrite elem_of_app, list_elem_of_singleton. naive_solver. }
  rewrite (decide_False (P := retries_key v = boot_key vm)) by (intros H; by apply (keys_apart vm v)).
  rewrite (decide_False (P := boot_key v = retries_key vm)) by apply keys_apart.
  destruct (decide (v = vm)) as [->|Hne].
  - rewrite !decide_True by done. rewrite bool_decide_eq_true_2 by tauto. done.
  - rewrite (decide_False (P := boot_key v = boot_key vm)) by (by intros ?%boot_key_inj).
    rewrite (decide_False (P := retries_key v = retries_key vm)) by (by intros ?%retries_key_inj).
    by rewrite (bool_decide_ext (vm ∈ vms ++ [v]) (vm ∈ vms)) by tauto.
Qed.

Lemma boot_step_get batches r s vm :
  dget (pr_milestones (boot_step batches r s)) (boot_key vm) =
    (if booted batches vm s then Some (NFloat (tm_seconds s)) else dget (pr_milestones r) (boot_key vm)) ∧
  dget (pr_milestones (boot_step batches r s)) (retries_key vm) =
    (if booted batches vm s then Some (NInt (Z.of_nat (tm_retries s)))
     else dget (pr_milestones r) (retries_key vm)).
Proof.
  unfold boot_step, booted. destruct (dget batches (tm_label s)) as [vms|]; [|done].
  destruct (bool_decide (tm_phase s = VMS) && tm_ok s); [|done]. cbn [andb]. apply boot_fold_get.
Qed.

Lemma boot_steps_get batches steps r vm :
  let r' := foldl (boot_step batches) r steps in
  match last_boot batches vm steps with
  | Some s => dget (pr_milestones r') (boot_key vm) = Some (NFloat (tm_seconds s)) ∧
      dget (pr_milestones r') (retries_key vm) = Some (NInt (Z.of_nat (tm_retries s)))
  | None => dget (pr_milestones r') (boot_key vm) = dget (pr_milestones r) (boot_key vm) ∧
      dget (pr_milestones r') (retries_key vm) = dget (pr_milestones r) (retries_key vm)
  end.
Proof.
  simpl. unfold last_boot. induction steps as [|s steps IH] using rev_ind; [done|].
  rewrite foldl_app, filter_app, filter_cons, filter_nil. cbn [foldl].
  destruct (boot_step_get batches (foldl (boot_step batches) r steps) s vm) as [H1 H2]. rewrite H1, H2.
  destruct (booted batches vm s) eqn:Hb.
  - rewrite decide_True by done. by rewrite last_snoc.
  - rewrite decide_False by done. by rewrite app_nil_r.
Qed.

Lemma last_boot_None batches vm steps :
  last_boot batches vm steps = None ↔ ∀ s, s ∈ steps → booted batches vm s = false.
Proof.
  unfold last_boot. rewrite last_None. split.
  - intros Hf s Hs. apply not_true_iff_false. intros Hb.
    assert (s ∈ filter (λ s, booted batches vm s = true) steps) as Hin by (by apply list_elem_of_filter).
    rewrite Hf in Hin. by apply elem_of_nil in Hin.
  - intros Hall. destruct (filter _ steps) as [|s l] eqn:Hf; [done|].
    assert (s ∈ filter (λ s, booted batches vm s = true) steps) as [Hb Hs]%list_elem_of_filter by (rewrite Hf; by left).
    by rewrite Hall in Hb.
Qed.

(** Boot attribution is exact and complete: after the milestones are derived, every
    machine of a batch that booted has as its boot time and retries those of the last
    successful step of the vms phase that booted it, a failed or foreign step gives none,
    and a machine of a batch none of whose steps succeeded is named in the note of the
    untimed ones. *)
Theorem boot_milestones_exact batches r r' notes :
  boot_milestones batches r = (r', notes) → dict_wf batches →
  (∀ vm, match last_boot batches vm (pr_steps r) with
    | Some s => dget (pr_milestones r') (boot_key vm) = Some (NFloat (tm_seconds s)) ∧
        dget (pr_milestones r') (retries_key vm) = Some (NInt (Z.of_nat (tm_retries s)))
    | None => dget (pr_milestones r') (boot_key vm) = dget (pr_milestones r) (boot_key vm) ∧
        dget (pr_milestones r') (retries_key vm) = dget (pr_milestones r) (retries_key vm)
    end) ∧
  (∀ label vms vm, (label, vms) ∈ batches → vm ∈ vms →
     (∃ s, last_boot batches vm (pr_steps r) = Some s) ∨ ∃ l, Untimed l ∈ notes ∧ vm ∈ l).
Proof.
  intros Hb Hwf. unfold boot_milestones in Hb. destruct batches as [|b0 batches0] eqn:Hbs.
  { injection Hb as <- <-. split; [|by intros ??? ?%elem_of_nil]. intros vm.
    destruct (last_boot [] vm (pr_steps r)) as [s|] eqn:Hl; [|done]. unfold last_boot in Hl.
    apply last_Some_elem_of, list_elem_of_filter in Hl as [Hl _]. done. }
  rewrite <-Hbs in *. clear Hbs. injection Hb as <- <-. split; [intros vm; apply boot_steps_get|].
  intros label vms vm Hin Hvm. destruct (last_boot batches vm (pr_steps r)) as [s|] eqn:Hl; [by eauto|right].
  assert (vm ∈ (filter (λ b, b.1 ∉ timed batches (pr_steps r)) batches ≫= snd)) as Hun.
  { apply list_elem_of_bind. exists (label, vms). split; [done|]. apply list_elem_of_filter. split; [|done].
    cbn [fst]. unfold timed. intros (s & -> & Hs)%list_elem_of_fmap.
    apply list_elem_of_filter in Hs as [(Hph & _ & Hok) Hs].
    apply (elem_dget _ _ _ Hwf) in Hin. apply last_boot_None with (s := s) in Hl; [|done].
    unfold booted in Hl. rewrite Hin, Hph, Hok in Hl. by rewrite !bool_decide_eq_true_2 in Hl. }
  destruct (filter _ batches ≫= snd) as [|u0 us] eqn:Hu; [by apply elem_of_nil in Hun|].
  exists (u0 :: us). split; [|done]. apply elem_of_app. right. by left.
Qed.

(** ** Outcomes of the readiness tasks *)

(** A duration as profile_tasks prints it. *)
Record Clock := mk_clock { k_h : text; k_m : text; k_s : text; k_ms : text }.

Definition clock_text (k : Clock) : text := k_h k ++ 58%N :: k_m k ++ 58%N :: k_s k ++ 46%N :: k_ms k.
Definition clock_seconds (k : Clock) : option float := timing_seconds (k_h k, k_m k, k_s k, k_ms k).

Definition clock_ok (k : Clock) : Prop :=
  k_h k ≠ [] ∧ length (k_m k) = 2 ∧ length (k_s k) = 2 ∧ length (k_ms k) = 3 ∧
  Forall (λ c, re_digit c = true) (k_h k ++ k_m k ++ k_s k ++ k_ms k) ∧ is_Some (clock_seconds k).

(** The banner of a task, and the timing line after it. *)
Definition banner_line (name : text) (stars : nat) : text :=
  u "TASK [" ++ name ++ u "] " ++ replicate (S stars) 42%N.
Definition timing_line (date : text) (prev total : Clock) (pad stars : nat) : text :=
  date ++ 40%N :: clock_text prev ++ 41%N :: replicate (S pad) 32%N ++ clock_text total ++
  32%N :: replicate (S stars) 42%N.

Lemma some_of_app p a s : a ≠ [] → Forall (λ c, p c = true) a →
  match s with c :: _ => p c = false | [] => True end → some_of p (a ++ s) = Some (a, s).
Proof. intros Hne Ha Hs. unfold some_of. rewrite span_app by done. by destruct a. Qed.

Lemma digits_n_app n a s : length a = n → Forall (λ c, re_digit c = true) a → digits_n n (a ++ s) = Some (a, s).
Proof.
  intros <- Ha. unfold digits_n. rewrite take_app_length, drop_app_length.
  rewrite bool_decide_eq_true_2 by done. cbn [andb].
  assert (forallb re_digit a = true) as -> by (induction Ha as [|c a Hc _ IH]; [done|]; cbn; by rewrite Hc).
  done.
Qed.

Lemma clock_at_text k s : clock_ok k → clock_at (clock_text k ++ s) = Some (k_h k, k_m k, k_s k, k_ms k, s).
Proof.
  intros (Hh & Hm & Hs & Hms & Hd & _). rewrite !Forall_app in Hd. destruct Hd as (Dh & Dm & Ds & Dms).
  unfold clock_at, clock_text. rewrite <-!app_assoc. cbn [app].
  rewrite some_of_app by done. cbn [mbind option_bind expect N.eqb Pos.eqb].
  rewrite <-app_assoc, digits_n_app by done. cbn [mbind option_bind expect N.eqb Pos.eqb app].
  rewrite <-app_assoc, digits_n_app by done. cbn [mbind option_bind expect N.eqb Pos.eqb app].
  by rewrite digits_n_app by done.
Qed.

Lemma stars_all n : Forall (λ c, (42 =? c)%N = true) (replicate n 42%N).
Proof. by apply Forall_replicate. Qed.

Lemma digit_not_space c : re_digit c = true → is_space c = false.
Proof.
  unfold re_digit. intros Hd%bool_decide_eq_true. apply not_true_iff_false. intros Hsp.
  assert (c ∈ ([9; 10; 11; 12; 13; 28; 29; 30; 31; 32; 133; 160; 5760; 8192; 8193; 8194; 8195; 8196; 8197; 8198;
                8199; 8200; 8201; 8202; 8232; 8233; 8239; 8287; 12288]%N : list N)) as Hin.
  { unfold is_space in Hsp. rewrite !orb_true_iff, !andb_true_iff, !N.leb_le, !N.eqb_eq in Hsp.
    apply list_elem_of_In. cbn [In]. lia. }
  assert (Forall (λ c, decimal_digit c = None)
    ([9; 10; 11; 12; 13; 28; 29; 30; 31; 32; 133; 160; 5760; 8192; 8193; 8194; 8195; 8196; 8197; 8198;
      8199; 8200; 8201; 8202; 8232; 8233; 8239; 8287; 12288]%N : list N)) as Hall by (by repeat constructor).
  rewrite Forall_forall in Hall. rewrite (Hall c Hin) in Hd. by destruct Hd.
Qed.

Lemma timing_of_line date prev total pad stars :
  40%N ∉ date → clock_ok prev → clock_ok total →
  timing_of (timing_line date prev total pad stars) = Some (k_h prev, k_m prev, k_s prev, k_ms prev).
Proof.
  intros Hd Hp Ht. unfold timing_line. induction date as [|c date IH].
  - cbn [app]. assert (∀ line r, timing_at line = Some r → timing_of line = Some r) as Hof.
    { intros [|c line] r H; cbn [timing_of]; by rewrite H. }
    apply Hof. unfold timing_at. cbn [expect N.eqb Pos.eqb mbind option_bind].
    rewrite clock_at_text by done. cbn [expect N.eqb Pos.eqb mbind option_bind].
    rewrite some_of_app; [|done|by apply Forall_replicate|].
    2:{ destruct Ht as (Hh & _ & _ & _ & Hdig & _). unfold clock_text. destruct (k_h total) as [|c h]; [done|].
        apply Forall_inv in Hdig. by apply digit_not_space. }
    cbn [mbind option_bind]. rewrite clock_at_text by done. cbn [expect N.eqb Pos.eqb mbind option_bind].
    rewrite <-(app_nil_r (replicate (S stars) 42%N)), some_of_app by first [done|apply stars_all]. done.
  - apply not_elem_of_cons in Hd as [Hc Hd]. cbn [app timing_of]. rewrite IH by done.
    unfold timing_at. cbn [expect]. rewrite (proj2 (N.eqb_neq 40 c)) by done. done.
Qed.

Lemma banner_of_line name stars : name ≠ [] → banner_of (banner_line name stars) = Some name.
Proof.
  intros Hne. unfold banner_of, banner_line.
  assert (startswith (u "TASK [" ++ name ++ u "] " ++ replicate (S stars) 42%N) (u "TASK [") = true) as ->.
  { apply bool_decide_eq_true. by apply prefix_app_r. }
  change (drop 6 (u "TASK [" ++ ?x)) with x. rewrite !rev_app_distr.
  assert (rev (replicate (S stars) 42%N) = 42%N :: replicate stars 42%N) as ->.
  { rewrite rev_alt. apply (reverse_replicate (S stars)). }
  change (rev (u "] ")) with ([32; 93]%N). rewrite <-app_assoc. cbn [app].
  rewrite lstrip_by_id by done. cbv iota.
  pose proof (lstrip_by_all (N.eqb 42) (42%N :: replicate stars 42%N) (32%N :: 93%N :: rev name)
    (stars_all (S stars))) as Hl. cbn [app] in Hl. rewrite Hl. rewrite lstrip_by_id by done. cbv iota.
  destruct (rev name) as [|c r] eqn:Hr.
  - apply (f_equal (@rev N)) in Hr. rewrite rev_involutive in Hr. done.
  - by rewrite <-Hr, rev_involutive.
Qed.

(** One task of a play, as the callbacks print it. *)
Record TaskRun := mk_taskrun {
  tr_name : text; tr_stars : nat; tr_date : text; tr_prev : Clock; tr_total : Clock; tr_pad : nat;
  tr_results : list text
}.

(** What a line of a task's results may be. *)
Definition result_line (line : text) : Prop := banner_of line = None ∧ timing_of line = None.

Definition run_ok (r : TaskRun) : Prop :=
  tr_name r ≠ [] ∧ (40%N ∉ tr_date r) ∧ clock_ok (tr_prev r) ∧ clock_ok (tr_total r) ∧
  Forall result_line (tr_results r).

Definition run_lines (r : TaskRun) : list text :=
  banner_line (tr_name r) (tr_stars r)
  :: timing_line (tr_date r) (tr_prev r) (tr_total r) (tr_pad r) (tr_stars r) :: tr_results r.

(** The recap that ends a play: the duration of the last task, unless the run died in it. *)
Definition recap_lines (recap : option Clock) : list text :=
  match recap with Some k => [timing_line [] k k 6 0] | None => [] end.

Definition transcript_lines (runs : list TaskRun) (recap : option Clock) : list text :=
  (runs ≫= run_lines) ++ recap_lines recap.

(** The duration printed when the task before [runs] ended. *)
Definition next_clock (runs : list TaskRun) (recap : option Clock) : option Clock :=
  match runs with r :: _ => Some (tr_prev r) | [] => recap end.

Definition is_ok_line (line : text) : bool := startswith line (u "ok: [") || startswith line (u "changed: [").
Definition is_fatal_line (line : text) : bool := startswith line (u "fatal: [").

(** The outcome the first run of a task has. *)
Fixpoint outcome_of (name : text) (runs : list TaskRun) (recap : option Clock) : option TaskOutcome :=
  match runs with
  | [] => None
  | r :: runs =>
      if bool_decide (tr_name r = name)
      then Some (mk_outcome (next_clock runs recap ≫= clock_seconds)
                   (existsb is_ok_line (tr_results r)) (existsb is_fatal_line (tr_results r)))
      else outcome_of name runs recap
  end.

(** Nothing but the task's own results counts between its start and its end. *)
Lemma result_lines names out a o ls :
  Forall result_line ls →
  task_lines names (mk_scan (dset out a o) None (Some a)) ls =
  Some (mk_scan (dset out a (mk_outcome (to_seconds o) (to_ok o || existsb is_ok_line ls)
                               (to_failed o || existsb is_fatal_line ls))) None (Some a)).
Proof.
  intros Hls. revert o. induction Hls as [|l ls [Hb Ht] _ IH]; intros [x ok failed].
  { cbn. by rewrite !orb_false_r. }
  cbn [task_lines]. unfold task_line. rewrite Hb, Ht. cbn [sc_active sc_out sc_banner existsb].
  unfold update_task. rewrite !dget_dset_eq, !dset_twice.
  fold (is_ok_line l) (is_fatal_line l).
  destruct (is_ok_line l) eqn:Hok; [|destruct (is_fatal_line l) eqn:Hf]; cbn [mbind option_bind]; rewrite IH;
    cbn [set_ok set_failed to_seconds to_ok to_failed]; do 3 f_equal; f_equal;
    rewrite ?orb_true_r, ?orb_true_l, ?orb_false_l; try done.
  unfold is_ok_line, is_fatal_line in *. 
  assert (startswith l (u "fatal: [") = false) as ->; [|done].
  apply not_true_iff_false. intros [t ->]%bool_decide_eq_true. by vm_compute in Hok.
Qed.

Lemma task_lines_app names st l1 l2 :
  task_lines names st (l1 ++ l2) = st1 ← task_lines names st l1; task_lines names st1 l2.
Proof.
  revert st. induction l1 as [|l l1 IH]; intros st; [done|]. cbn [app task_lines].
  destruct (task_line names st l); [apply IH|done].
Qed.

(** The state after a task's lines: the running task is charged its duration, and the new
    one is recorded when it is wanted and not yet seen. *)
Definition charge (out : list (text * TaskOutcome)) (active : option text) (x : float) :
    list (text * TaskOutcome) :=
  match active with Some a => update_task out a (set_seconds x) | None => out end.

Lemma charge_keys out active x : (charge out active x).*1 = out.*1.
Proof.
  destruct active as [a|]; [|done]. cbn [charge]. unfold update_task. destruct (dget out a) eqn:Ha; [|done].
  apply dset_keys_old, dget_is_Some. by rewrite Ha.
Qed.

Lemma charge_get out active x name :
  dget (charge out active x) name =
  (if bool_decide (active = Some name) then set_seconds x <$> dget out name else dget out name).
Proof.
  destruct active as [a|]; [|done]. cbn [charge]. unfold update_task. destruct (decide (a = name)) as [->|Hne].
  - rewrite bool_decide_eq_true_2 by done. destruct (dget out name) eqn:Ha; [|done]. by rewrite dget_dset_eq.
  - rewrite bool_decide_eq_false_2 by congruence. destruct (dget out a); [|done]. by rewrite dget_dset_ne.
Qed.

Lemma rev_stars n : rev (replicate n 42%N) = replicate n 42%N.
Proof. rewrite rev_alt. apply (reverse_replicate n). Qed.

(** A timing line is no banner, whatever its date. *)
Lemma banner_of_timing date prev total pad stars :
  clock_ok prev → clock_ok total → banner_of (timing_line date prev total pad stars) = None.
Proof.
  intros (_ & Hm & Hs & Hms & _) (_ & _ & _ & Tms & Td & _). unfold banner_of, timing_line.
  destruct (startswith _ _); [|done].
  set (A := date ++ 40%N :: clock_text prev ++ 41%N :: replicate (S pad) 32%N).
  replace (date ++ 40%N :: clock_text prev ++ 41%N :: replicate (S pad) 32%N ++ clock_text total ++
           32%N :: replicate (S stars) 42%N)
    with (A ++ clock_text total ++ 32%N :: replicate (S stars) 42%N)
    by (unfold A; cbn [app]; repeat (rewrite <-!app_assoc; cbn [app]); done).
  assert (6 ≤ length A) as HA.
  { unfold A, clock_text. rewrite !length_app. cbn [length]. rewrite !length_app. cbn [length].
    rewrite !length_app. cbn [length]. lia. }
  rewrite (skipn_app 6 A), (proj2 (Nat.sub_0_le 6 (length A))) by done.
  change (drop 0 ?x) with x. unfold clock_text. rewrite !Forall_app in Td. destruct Td as (_ & _ & _ & Td).
  destruct (k_ms total) as [|m0 [|m1 [|m2 [|]]]]; try done. clear Tms.
  rewrite !Forall_cons in Td. destruct Td as (_ & _ & Hd & _). pose proof (digit_not_space _ Hd) as Hnsp.
  assert (∀ B, rev (drop 6 A ++ (B ++ [m0; m1; m2]) ++ 32%N :: replicate (S stars) 42%N) =
    replicate (S stars) 42%N ++ 32%N :: m2 :: m1 :: m0 :: rev (drop 6 A ++ B)) as Hrev.
  { intros B. change (32%N :: ?l) with ([32%N] ++ l). rewrite !app_assoc, !rev_app_distr, rev_stars.
    rewrite <-!app_assoc. done. }
  specialize (Hrev (k_h total ++ 58%N :: k_m total ++ 58%N :: k_s total ++ [46%N])).
  replace (k_h total ++ 58%N :: k_m total ++ 58%N :: k_s total ++ 46%N :: [m0; m1; m2])
    with ((k_h total ++ 58%N :: k_m total ++ 58%N :: k_s total ++ [46%N]) ++ [m0; m1; m2])
    by (repeat (rewrite <-!app_assoc; cbn [app]); done).
  rewrite Hrev. cbn [replicate app]. rewrite lstrip_by_id by done. cbv iota.
  pose proof (λ tl, lstrip_by_all (N.eqb 42) (42%N :: replicate stars 42%N) tl (stars_all (S stars))) as Hl.
  cbn [app] in Hl. rewrite Hl, lstrip_by_id by done. cbv iota.
  destruct (decide (m2 = 93%N)) as [->|Hne]; [by vm_compute in Hd|].
  by repeat case_match; simplify_eq.
Qed.
Lemma run_lines_step names out active r x rest :
  run_ok r → clock_seconds (tr_prev r) = Some x →
  task_lines names (mk_scan out None active) (run_lines r ++ rest) =
  task_lines names
    (let out1 := charge out active x in
     if bool_decide (tr_name r ∈ names) && negb (dmem (tr_name r) out1)
     then mk_scan (dset out1 (tr_name r) (mk_outcome None (existsb is_ok_line (tr_results r))
                                           (existsb is_fatal_line (tr_results r)))) None (Some (tr_name r))
     else mk_scan out1 None None) rest.
Proof.
  intros (Hn & Hd & Hp & Ht & Hr) Hx. unfold run_lines. cbn [app task_lines].
  assert (∀ st, task_line names st (banner_line (tr_name r) (tr_stars r)) =
    Some (mk_scan (sc_out st) (Some (tr_name r)) (sc_active st))) as ->
    by (intros st; unfold task_line; by rewrite banner_of_line).
  cbn [mbind option_bind sc_out sc_active].
  assert (task_line names (mk_scan out (Some (tr_name r)) active)
      (timing_line (tr_date r) (tr_prev r) (tr_total r) (tr_pad r) (tr_stars r)) =
    Some (let out1 := charge out active x in
      if bool_decide (tr_name r ∈ names) && negb (dmem (tr_name r) out1)
      then mk_scan (dset out1 (tr_name r) (mk_outcome None false false)) None (Some (tr_name r))
      else mk_scan out1 None None)) as ->.
  { unfold task_line. rewrite banner_of_timing, timing_of_line by done. cbn [sc_active sc_out sc_banner].
    unfold clock_seconds in Hx. destruct active as [a|]; [rewrite Hx|]; cbn [mbind option_bind charge]; by case_match. }
  cbn [mbind option_bind]. cbv zeta. destruct (bool_decide _ && negb _).
  - rewrite task_lines_app, result_lines by done. done.
  - rewrite task_lines_app. assert (∀ o, task_lines names (mk_scan o None None) (tr_results r) =
      Some (mk_scan o None None)) as Hidle.
    { intros o. induction Hr as [|l ls [Hb Hti] _ IH]; [done|]. cbn [task_lines]. unfold task_line.
      rewrite Hb, Hti. cbn. exact IH. }
    by rewrite Hidle.
Qed.

(** What the scan holds of one task: a task already seen keeps its outcome, and if it is the
    running one it is charged the next duration printed. *)
Lemma runs_scan names name recap runs : ∀ out active,
  Forall run_ok runs → (∀ k, recap = Some k → clock_ok k) →
  (∀ a, active = Some a → dmem a out = true) →
  ∃ st, task_lines names (mk_scan out None active) (transcript_lines runs recap) = Some st ∧
    dget (sc_out st) name =
      match dget out name with
      | Some o =>
          Some (match next_clock runs recap ≫= clock_seconds with
                | Some x => if bool_decide (active = Some name) then set_seconds x o else o
                | None => o
                end)
      | None => if bool_decide (name ∈ names) then outcome_of name runs recap else None
      end.
Proof.
  induction runs as [|r runs IH]; intros out active Hruns Hre Hact.
  - unfold transcript_lines. cbn [mbind list_bind app next_clock outcome_of].
    assert ((if bool_decide (name ∈ names) then None else None) = @None TaskOutcome) as Hif
      by (by destruct (bool_decide _)).
    destruct recap as [k|]; cbn [recap_lines].
    + specialize (Hre k eq_refl). destruct (Hre) as (_ & _ & _ & _ & _ & [x Hx]).
      cbn [task_lines]. unfold task_line.
      rewrite banner_of_timing, timing_of_line by first [done|apply not_elem_of_nil].
      cbn [sc_active sc_out sc_banner mbind option_bind]. rewrite Hx. cbn [option_bind].
      exists (mk_scan (charge out active x) None None).
      split; [unfold clock_seconds in Hx; destruct active as [a|]; [rewrite Hx|]; done|].
      cbn [sc_out]. rewrite charge_get.
      destruct (bool_decide (active = Some name)), (dget out name); cbn [fmap option_fmap option_map]; by rewrite ?Hif.
    + eexists. split; [done|]. cbn [sc_out]. destruct (dget out name); rewrite ?Hif; done.
  - apply Forall_cons in Hruns as [Hr Hruns]. destruct (Hr) as (_ & _ & (_ & _ & _ & _ & _ & [x Hx]) & _).
    unfold transcript_lines. rewrite bind_cons, <-app_assoc. fold (transcript_lines runs recap).
    rewrite (run_lines_step names out active r x _ Hr Hx). cbn [next_clock mbind option_bind outcome_of].
    rewrite Hx. pose proof (charge_get out active x name) as Hc. cbv zeta.
    destruct (bool_decide (tr_name r ∈ names) && negb (dmem (tr_name r) (charge out active x))) eqn:Hnew.
    + apply andb_true_iff in Hnew as [Hin%bool_decide_eq_true Hfresh%negb_true_iff].
      assert (dget out (tr_name r) = None) as Hnone.
      { apply dmem_false in Hfresh. rewrite charge_keys in Hfresh. by apply dget_None. }
      destruct (IH (dset (charge out active x) (tr_name r) (mk_outcome None (existsb is_ok_line (tr_results r))
                     (existsb is_fatal_line (tr_results r)))) (Some (tr_name r)) Hruns Hre) as (st & Hst & Hget).
      { intros a [= <-]. apply dmem_true, elem_of_dset_keys. by left. }
      exists st. split; [exact Hst|]. rewrite Hget, dget_dset, Hc.
      destruct (decide (tr_name r = name)) as [<-|Hne].
      * rewrite Hnone, !bool_decide_eq_true_2 by done. cbn [mbind option_bind].
        destruct (next_clock runs recap ≫= clock_seconds) eqn:Hn; cbn; by rewrite ?Hn.
      * rewrite (bool_decide_eq_false_2 (tr_name r = name)) by done.
        rewrite (bool_decide_eq_false_2 (Some (tr_name r) = Some name)) by congruence.
        destruct (dget out name) as [o|]; [|by destruct (bool_decide (active = _)), (bool_decide (name ∈ _))].
        destruct (bool_decide (active = Some name)); cbn; by repeat case_match.
    + destruct (IH (charge out active x) None Hruns Hre) as (st & Hst & Hget); [done|].
      exists st. split; [exact Hst|]. rewrite Hget, Hc. 
      destruct (dget out name) as [o|] eqn:Ho.
      * destruct (bool_decide (active = Some name)); cbn; by repeat case_match.
      * replace (if bool_decide (active = Some name) then set_seconds x <$> None else @None TaskOutcome)
          with (@None TaskOutcome) by (by destruct (bool_decide (active = Some name))).
        destruct (bool_decide (name ∈ names)) eqn:Hin; [|done].
        rewrite bool_decide_eq_false_2; [done|]. intros Heq. rewrite Heq, Hin in Hnew. cbn [andb] in Hnew.
        apply negb_false_iff, dmem_true in Hnew. rewrite charge_keys in Hnew.
        by apply dget_None in Ho.
Qed.

(** The readiness outcomes are exact: of a transcript in which each task is printed as its
    banner, the timing line that carries the duration of the task before it, and its
    results, every wanted task that ran is reported with the duration the next timing line
    carries (none when the run ended inside it) and with whether a host of its first run
    reported ok or changed, or fatal; a wanted task that never started, and any other
    task, is absent; and reading it never fails. *)
Theorem task_outcomes_exact names runs recap :
  Forall run_ok runs → (∀ k, recap = Some k → clock_ok k) →
  ∃ out, ansible_task_outcomes (transcript_lines runs recap) names = Some out ∧
    ∀ name, dget out name = if bool_decide (name ∈ names) then outcome_of name runs recap else None.
Proof.
  intros Hruns Hre.
  destruct (runs_scan names [] recap runs [] None Hruns Hre) as (st & Hst & _); [done|].
  exists (sc_out st). unfold ansible_task_outcomes. rewrite Hst. split; [done|]. intros name.
  destruct (runs_scan names name recap runs [] None Hruns Hre) as (st' & Hst' & Hget); [done|].
  rewrite Hst in Hst'. injection Hst' as <-. exact Hget.
Qed.

(** ** Witnesses *)

Definition demo_clock (h m s ms : string) : Clock := mk_clock (u h) (u m) (u s) (u ms).

Lemma demo_clock_ok h m s ms :
  bool_decide (u h ≠ []) && bool_decide (length (u m) = 2) && bool_decide (length (u s) = 2)
    && bool_decide (length (u ms) = 3)
    && forallb re_digit (u h ++ u m ++ u s ++ u ms)
    && bool_decide (is_Some (clock_seconds (demo_clock h m s ms))) = true →
  clock_ok (demo_clock h m s ms).
Proof.
  rewrite !andb_true_iff, !bool_decide_eq_true. intros [[[[[? ?] ?] ?] Hd] ?].
  split_and!; [done..| |done]. apply Forall_forall. intros c Hc.
  rewrite forallb_forall in Hd. by apply Hd, list_elem_of_In.
Qed.

(** The cluster's wait succeeds after a quarter of an hour; the run dies in the next wait. *)
Definition demo_play : list TaskRun :=
  [mk_taskrun (u "common : apt cache") 20 (u "Friday 02 January 2026  10:00:00 +0000 ")
     (demo_clock "0" "00" "00" "010") (demo_clock "0" "00" "01" "000") 6 [u "changed: [os-1]"];
   mk_taskrun (u "opensearch : wait for the OpenSearch cluster to accept requests") 3
     (u "Friday 02 January 2026  10:00:05 +0000 ")
     (demo_clock "0" "00" "05" "200") (demo_clock "0" "00" "06" "200") 6 [u "ok: [os-1]"; []];
   mk_taskrun (u "data-prepper : wait for the Data Prepper otel_logs_source to accept connections") 3
     (u "Friday 02 January 2026  10:15:05 +0000 ")
     (demo_clock "0" "15" "00" "500") (demo_clock "0" "15" "06" "700") 6 [u "fatal: [os-1]: timed out"]].

Lemma demo_play_ok : Forall run_ok demo_play.
Proof.
  repeat constructor; try done; try apply not_elem_of_nil;
    try (by apply (bool_decide_unpack _); vm_compute); try (apply demo_clock_ok; by vm_compute); by vm_compute.
Qed.

Lemma task_outcomes_exact_witness :
  ∃ out, ansible_task_outcomes (transcript_lines demo_play None) READINESS_TASKS.*2 = Some out ∧
    to_seconds <$> dget out (u "opensearch : wait for the OpenSearch cluster to accept requests") =
      Some (clock_seconds (demo_clock "0" "15" "00" "500")) ∧
    dget out (u "data-prepper : wait for the Data Prepper otel_logs_source to accept connections") =
      Some (mk_outcome None false true) ∧
    dget out (u "common : apt cache") = None.
Proof.
  destruct (task_outcomes_exact READINESS_TASKS.*2 demo_play None demo_play_ok) as (out & Hout & Hget); [done|].
  exists out. split; [exact Hout|]. rewrite !Hget. split_and!; by vm_compute.
Defined.

Definition demo_batches : list (text * list text) := [(u "up 1", [u "a1"; u "a2"]); (u "up 2", [u "b1"])].

Definition demo_record : PerfRecord :=
  add_step (mk_timing VMS (u "up 2") (float_of_Z 90) 0 false)
    (add_step (mk_timing VMS (u "up 1") (float_of_Z 60) 1 true) (new_record (u "pcmk") fzero)).

Lemma boot_milestones_exact_witness :
  let r := (boot_milestones demo_batches demo_record).1 in
  dict_wf demo_batches ∧ dget (pr_milestones r) (boot_key (u "a2")) = Some (NFloat (float_of_Z 60)) ∧
  (∃ l, Untimed l ∈ (boot_milestones demo_batches demo_record).2 ∧ u "b1" ∈ l).
Proof.
  assert (dict_wf demo_batches) as Hwf by (apply (bool_decide_unpack _); by vm_compute).
  destruct (boot_milestones_exact demo_batches demo_record (boot_milestones demo_batches demo_record).1
    (boot_milestones demo_batches demo_record).2 (surjective_pairing _) Hwf) as [H1 H2].
  split; [exact Hwf|]. split.
  - specialize (H1 (u "a2")). by apply H1.
  - destruct (H2 (u "up 2") [u "b1"] (u "b1")) as [[s Hs]|Hl]; [right; left|left| |exact Hl].
    by vm_compute in Hs.
Defined.
