(* ===== verification/Trace.v ===== *)
(** * Effectful code as a trace

    A computation that talks to the outside is the list of its effects with its result, an
    exception included: what happened before a failure stays visible. The rules of the bind
    say which effects a sequence has, so that a property of a long handler is read off its
    parts. *)

From S2P Require Import Prelude.

Definition traced (O E A : Type) : Type := (list O * res E A)%type.

Section trace.
Context {O E : Type}.

Definition quiet {A} (r : res E A) : traced O E A := ([], r).
Definition emit {A} (o : O) (r : res E A) : traced O E A := ([o], r).
Definition then_ {A B} (m : traced O E A) (k : A → traced O E B) : traced O E B :=
  match m.2 with Ok a => (m.1 ++ (k a).1, (k a).2) | Err e => (m.1, Err e) end.

Lemma then_Ok {A B} (m : traced O E A) (k : A → traced O E B) b :
  (then_ m k).2 = Ok b ↔ ∃ a, m.2 = Ok a ∧ (k a).2 = Ok b.
Proof. unfold then_. destruct m as [t [a|e]]; naive_solver. Qed.

(** The effects of a sequence: those of its head, then those of its tail if it is reached. *)
Lemma then_trace {A B} (m : traced O E A) (k : A → traced O E B) :
  (then_ m k).1 = m.1 ++ match m.2 with Ok a => (k a).1 | Err _ => [] end.
Proof. unfold then_. destruct m as [t [a|e]]; [done|]. cbn [fst snd]. by rewrite app_nil_r. Qed.

Lemma then_trace_Ok {A B} (m : traced O E A) (k : A → traced O E B) a :
  m.2 = Ok a → (then_ m k).1 = m.1 ++ (k a).1.
Proof. intros Ha. by rewrite then_trace, Ha. Qed.

Lemma elem_of_then {A B} (m : traced O E A) (k : A → traced O E B) o :
  o ∈ (then_ m k).1 ↔ o ∈ m.1 ∨ ∃ a, m.2 = Ok a ∧ o ∈ (k a).1.
Proof.
  rewrite then_trace, elem_of_app. destruct m.2 as [a|e].
  - split; [intros [?|?]; [by left|right; by exists a]|intros [?|(a' & [= <-] & ?)]; tauto].
  - split; [intros [?|Hn]; [by left|by apply elem_of_nil in Hn]|intros [?|(? & [=] & _)]; by left].
Qed.

(** What holds of every effect of the parts holds of the effects of the sequence. *)
Lemma then_Forall {A B} (P : O → Prop) (m : traced O E A) (k : A → traced O E B) :
  Forall P m.1 → (∀ a, m.2 = Ok a → Forall P (k a).1) → Forall P (then_ m k).1.
Proof.
  intros Hm Hk. rewrite then_trace, Forall_app. split; [done|]. destruct m.2 as [a|e]; [by apply Hk|constructor].
Qed.

(** A loop of effects over a list, stopped by the first failure. *)
Fixpoint each {A} (f : A → traced O E ()) (l : list A) : traced O E () :=
  match l with
  | [] => quiet (Ok ())
  | x :: l => then_ (f x) (λ _, each f l)
  end.

Lemma each_Ok {A} (f : A → traced O E ()) l :
  (each f l).2 = Ok () → (each f l).1 = (l ≫= λ x, (f x).1) ∧ ∀ x, x ∈ l → (f x).2 = Ok ().
Proof.
  induction l as [|x l IH]; [intros _; split; [done|by intros ? ?%elem_of_nil]|].
  cbn [each]. intros ([] & Hx & Hl)%then_Ok. destruct (IH Hl) as [Ht Hall]. split.
  - by rewrite then_trace, Hx, Ht.
  - by intros y [->|Hy]%elem_of_cons; [|apply Hall].
Qed.

(** Every effect of a loop is one of an element's. *)
Lemma elem_of_each {A} (f : A → traced O E ()) l o :
  o ∈ (each f l).1 → ∃ x, x ∈ l ∧ o ∈ (f x).1.
Proof.
  induction l as [|x l IH]; [by intros ?%elem_of_nil|]. cbn [each].
  intros [Hx|([] & _ & Hl)]%elem_of_then; [exists x; split; [by left|done]|].
  destruct (IH Hl) as (y & Hy & Ho). exists y. split; [by right|done].
Qed.

(** A loop that keeps a state. *)
Fixpoint fold_trace {A S} (f : S → A → traced O E S) (s : S) (l : list A) : traced O E S :=
  match l with
  | [] => quiet (Ok s)
  | x :: l => then_ (f s x) (λ s, fold_trace f s l)
  end.

Lemma elem_of_fold_trace {A S} (f : S → A → traced O E S) s l o :
  o ∈ (fold_trace f s l).1 → ∃ s' x, x ∈ l ∧ o ∈ (f s' x).1.
Proof.
  revert s. induction l as [|x l IH]; intros s; [by intros ?%elem_of_nil|]. cbn [fold_trace].
  intros [Hx|(s1 & _ & Hl)]%elem_of_then; [exists s, x; split; [by left|done]|].
  destruct (IH s1 Hl) as (s' & y & Hy & Ho). exists s', y. split; [by right|done].
Qed.

Lemma fold_trace_app {A S} (f : S → A → traced O E S) s l1 l2 :
  fold_trace f s (l1 ++ l2) = then_ (fold_trace f s l1) (λ s, fold_trace f s l2).
Proof.
  revert s. induction l1 as [|x l1 IH]; intros s; cbn [app fold_trace].
  - unfold then_, quiet. cbn [fst snd app]. by destruct (fold_trace f s l2).
  - unfold then_ at 1. unfold then_ at 2. destruct (f s x) as [t [s'|e]]; cbn [fst snd]; [|done].
    rewrite IH. unfold then_. destruct (fold_trace f s' l1) as [t1 [s1|e1]]; cbn [fst snd]; [|done].
    by rewrite app_assoc.
Qed.

Lemma fold_trace_fmap {A B S} (f : S → B → traced O E S) (g : A → B) s l :
  fold_trace f s (g <$> l) = fold_trace (λ s x, f s (g x)) s l.
Proof.
  revert s. induction l as [|x l IH]; intros s; [done|]. rewrite fmap_cons. cbn [fold_trace].
  unfold then_. destruct (f s (g x)) as [t [s'|e]]; cbn [fst snd]; [|done]. by rewrite IH.
Qed.

Lemma fold_trace_ext {A S} (f g : S → A → traced O E S) s l :
  (∀ s x, f s x = g s x) → fold_trace f s l = fold_trace g s l.
Proof.
  intros Hfg. revert s. induction l as [|x l IH]; intros s; [done|]. cbn [fold_trace]. rewrite Hfg.
  unfold then_. destruct (g s x) as [t [s'|e]]; [|done]. cbn [fst snd]. by rewrite IH.
Qed.

(** Two nested loops are one over the flattened list. *)
Lemma fold_trace_bind {A B S} (f : S → B → traced O E S) (g : A → list B) s l :
  fold_trace (λ s x, fold_trace f s (g x)) s l = fold_trace f s (l ≫= g).
Proof.
  revert s. induction l as [|x l IH]; intros s; [done|]. rewrite bind_cons, fold_trace_app. cbn [fold_trace].
  unfold then_. destruct (fold_trace f s (g x)) as [t [s'|e]]; cbn [fst snd]; [|done]. by rewrite IH.
Qed.

(** An invariant of the state, its effects and the elements already seen; when the loop
    fails, of the state before the element that failed it. *)
Lemma fold_trace_ind {A S} (f : S → A → traced O E S) (I : list A → S → list O → Prop) (s : S) l :
  I [] s [] →
  (∀ seen x rest s tr s', l = seen ++ x :: rest → I seen s tr → (f s x).2 = Ok s' → I (seen ++ [x]) s' (tr ++ (f s x).1)) →
  match (fold_trace f s l).2 with
  | Ok s' => I l s' (fold_trace f s l).1
  | Err e => ∃ seen x rest s1 tr, l = seen ++ x :: rest ∧ I seen s1 tr ∧ (f s1 x).2 = Err e ∧
      (fold_trace f s l).1 = tr ++ (f s1 x).1
  end.
Proof.
  intros H0 Hstep.
  assert (∀ todo seen s tr, l = seen ++ todo → I seen s tr →
    match (fold_trace f s todo).2 with
    | Ok s' => I l s' (tr ++ (fold_trace f s todo).1)
    | Err e => ∃ seen' x rest s1 tr', l = seen' ++ x :: rest ∧ I seen' s1 tr' ∧ (f s1 x).2 = Err e ∧
        tr ++ (fold_trace f s todo).1 = tr' ++ (f s1 x).1
    end) as Hgen; [|exact (Hgen l [] s [] eq_refl H0)].
  clear s H0. induction todo as [|x todo IH]; intros seen s tr Hl HI.
  { cbn. rewrite app_nil_r in *. by subst. }
  cbn [fold_trace]. unfold then_. destruct (f s x) as [t [s'|e]] eqn:Hf; cbn [fst snd].
  - specialize (IH (seen ++ [x]) s' (tr ++ t)). rewrite <-app_assoc in IH.
    rewrite (app_assoc tr). apply IH; [done|].
    pose proof (Hstep seen x todo s tr s' Hl HI) as Hs. rewrite Hf in Hs. by apply Hs.
  - exists seen, x, todo, s, tr. by rewrite Hf.
Qed.
End trace.

(** A computation as part of a larger one. *)
Definition lift {O P E A} (f : O → P) (m : traced O E A) : traced P E A := (f <$> m.1, m.2).

Lemma elem_of_lift {O P E A} (f : O → P) (m : traced O E A) p : p ∈ (lift f m).1 ↔ ∃ o, p = f o ∧ o ∈ m.1.
Proof. apply list_elem_of_fmap. Qed.

(** [except E as exc: raise f(exc)] around a computation. *)
Definition raising {O E E' A} (f : E → E') (m : traced O E A) : traced O E' A := (m.1, map_err f m.2).

Declare Scope trace_scope.
Delimit Scope trace_scope with trace.
Notation "'let*' x ':=' m 'in' k" := (then_ m (λ x, k))
  (at level 10, x name, m at level 100, k at level 200) : trace_scope.
