(* ===== verification/Trees.v ===== *)
(** * Directories made aside and renamed into place

    The build and the runtime both make a directory under a staging name, file by file,
    and rename it over the final one. The file operations are data here, so that a run
    that is cut is a prefix of its operations; a tree is removed file by file. *)

From S2P Require Import Prelude PyText.

(** The directories of a root, each with its files and their contents. *)
Abbreviation dirs := (gmap text (gmap text text)).

Inductive TreeOp :=
  | TreeMk (d : text) | TreeAdd (d file content : text)
  | TreeDrop (d file : text) | TreeRmdir (d : text) | TreeRename (a b : text).

Definition tree_apply (m : dirs) (o : TreeOp) : dirs :=
  match o with
  | TreeMk d => <[d := ∅]> m
  | TreeAdd d f c => alter <[f := c]> d m
  | TreeDrop d f => alter (delete f) d m
  | TreeRmdir d => delete d m
  | TreeRename a b => match m !! a with Some t => <[b := t]> (delete a m) | None => m end
  end.
Definition tree_play (m : dirs) (ops : list TreeOp) : dirs := foldl tree_apply m ops.

(** [shutil.rmtree(d, ignore_errors=True)]. *)
Definition rmtree (d : text) (t : option (gmap text text)) : list TreeOp :=
  match t with Some t => (TreeDrop d <$> (map_to_list t).*1) ++ [TreeRmdir d] | None => [] end.

Definition writes (d : text) (files : list (text * text)) : list TreeOp := (λ fc, TreeAdd d fc.1 fc.2) <$> files.
Definition files_map (files : list (text * text)) : gmap text text := foldl (λ t fc, <[fc.1 := fc.2]> t) ∅ files.

(** The staging name of a directory or a file. *)
Definition partial (name : text) : text := name ++ u ".partial".

(** A file of a directory. *)
Definition file_of (m : dirs) (d f : text) : option text := m !! d ≫= lookup f.

(** ** What the operations touch *)

Definition op_dirs (o : TreeOp) : list text :=
  match o with
  | TreeMk d | TreeAdd d _ _ | TreeDrop d _ | TreeRmdir d => [d]
  | TreeRename a b => [a; b]
  end.

Lemma tree_play_app m l k : tree_play m (l ++ k) = tree_play (tree_play m l) k.
Proof. apply foldl_app. Qed.

Lemma tree_play_cons m o l : tree_play m (o :: l) = tree_play (tree_apply m o) l.
Proof. done. Qed.

Lemma tree_apply_other m o d : d ∉ op_dirs o → tree_apply m o !! d = m !! d.
Proof.
  destruct o; cbn [op_dirs tree_apply]; rewrite ?not_elem_of_cons; intros Hd.
  - by rewrite lookup_insert_ne by naive_solver.
  - by rewrite lookup_alter_ne by naive_solver.
  - by rewrite lookup_alter_ne by naive_solver.
  - by rewrite lookup_delete_ne by naive_solver.
  - destruct (m !! a); [|done]. by rewrite lookup_insert_ne, lookup_delete_ne by naive_solver.
Qed.

Lemma tree_play_other l m d : (∀ o, o ∈ l → d ∉ op_dirs o) → tree_play m l !! d = m !! d.
Proof.
  revert m. induction l as [|o l IH]; intros m Hl; [done|]. rewrite tree_play_cons, IH by (intros; apply Hl; by right).
  apply tree_apply_other, Hl. by left.
Qed.

Lemma partial_ne n : partial n ≠ n.
Proof.
  intros H. apply (f_equal length) in H. unfold partial in H. rewrite length_app in H.
  change (length (u ".partial")) with 8 in H. lia.
Qed.

(** A prefix of a sequence of two runs. *)
Lemma prefix_app_cases {A} (l k m : list A) :
  l `prefix_of` k ++ m → l `prefix_of` k ∨ ∃ q, l = k ++ q ∧ q `prefix_of` m.
Proof.
  intros [r Hr]. destruct (app_eq_inv _ _ _ _ Hr) as [(q & -> & ->)|(q & -> & ->)].
  - left. by exists q.
  - right. exists q. split; [done|by exists r].
Qed.

Lemma prefix_elem {A} (l k : list A) x : l `prefix_of` k → x ∈ l → x ∈ k.
Proof. intros [r ->] Hx. apply elem_of_app. by left. Qed.

Lemma prefix_Forall {A} (P : A → Prop) (l k : list A) : l `prefix_of` k → Forall P k → Forall P l.
Proof. intros [r ->]. by intros [? _]%Forall_app. Qed.

Lemma prefix_of_single {A} (l : list A) x : l `prefix_of` [x] → l = [] ∨ l = [x].
Proof.
  destruct l as [|y l]; [by left|]. intros Hl. right. pose proof (prefix_cons_inv_1 _ _ _ _ Hl) as ->.
  by apply prefix_cons_inv_2, prefix_nil_inv in Hl as ->.
Qed.

(** ** Removing and filling a directory *)

Lemma rmtree_touches d t o : o ∈ rmtree d t → op_dirs o = [d].
Proof.
  unfold rmtree. destruct t as [t|]; [|by intros ?%elem_of_nil].
  rewrite elem_of_app, list_elem_of_singleton. intros [Ho| ->]; [|done].
  by apply list_elem_of_fmap in Ho as (f & -> & _).
Qed.

(** Removing a tree never adds a file to it, and ends with it gone. *)
Lemma rmtree_shrinks d t f m pre :
  pre `prefix_of` rmtree d t → file_of m d f = None → file_of (tree_play m pre) d f = None.
Proof.
  intros Hpre. assert (∀ o, o ∈ pre → (∃ g, o = TreeDrop d g) ∨ o = TreeRmdir d) as Hops.
  { intros o Ho. apply (prefix_elem _ _ _ Hpre) in Ho. unfold rmtree in Ho. destruct t as [t|]; [|by apply elem_of_nil in Ho].
    apply elem_of_app in Ho as [Ho|Ho%list_elem_of_singleton]; [|by right].
    left. apply list_elem_of_fmap in Ho as (g & -> & _). by exists g. }
  clear Hpre. revert m. induction pre as [|o pre IH]; intros m Hf; [done|].
  rewrite tree_play_cons. apply IH; [intros; apply Hops; by right|]. unfold file_of in *.
  destruct (Hops o) as [[g ->]| ->]; [by left| |]; cbn [tree_apply].
  - rewrite lookup_alter_eq. destruct (m !! d) as [t'|]; cbn in *; [|done]. by rewrite lookup_delete_None; right.
  - by rewrite lookup_delete_eq.
Qed.

Lemma rmtree_gone d m : tree_play m (rmtree d (m !! d)) !! d = None.
Proof. unfold rmtree. destruct (m !! d) eqn:Hd; [|done]. rewrite tree_play_app. cbn. apply lookup_delete_eq. Qed.

Lemma writes_touches d files o : o ∈ writes d files → op_dirs o = [d].
Proof. by intros (fc & -> & _)%list_elem_of_fmap. Qed.

Lemma writes_app d fs gs : writes d (fs ++ gs) = writes d fs ++ writes d gs.
Proof. apply fmap_app. Qed.

Lemma writes_tree d files m t :
  m !! d = Some t → tree_play m (writes d files) !! d = Some (foldl (λ t fc, <[fc.1 := fc.2]> t) t files).
Proof.
  revert m t. induction files as [|[f c] files IH]; intros m t Hd; [done|].
  unfold writes. rewrite fmap_cons, tree_play_cons. apply IH. cbn [fst snd tree_apply]. by rewrite lookup_alter_eq, Hd.
Qed.

(** The file a sequence of writes leaves: the last one of its name. *)
Lemma writes_lookup (files : list (text * text)) (t : gmap text text) f :
  (f ∈ files.*1 → ∃ c, (f, c) ∈ files ∧ foldl (λ t fc, <[fc.1 := fc.2]> t) t files !! f = Some c) ∧
  (f ∉ files.*1 → foldl (λ t fc, <[fc.1 := fc.2]> t) t files !! f = t !! f).
Proof.
  induction files as [|[g c] files [IH1 IH2]] using rev_ind; [split; [by intros ?%elem_of_nil|done]|].
  rewrite fmap_app, foldl_app. cbn [fmap list_fmap fst foldl snd]. rewrite elem_of_app, list_elem_of_singleton.
  destruct (decide (f = g)) as [->|Hne].
  - split; [|tauto]. intros _. exists c. rewrite elem_of_app, list_elem_of_singleton, lookup_insert_eq. by split; [right|].
  - rewrite lookup_insert_ne by done. split; [|tauto]. intros [Hf|?]; [|done]. destruct (IH1 Hf) as (c' & ? & ?).
    exists c'. rewrite elem_of_app. by split; [left|].
Qed.

Lemma files_map_Some files f : is_Some (files_map files !! f) ↔ f ∈ files.*1.
Proof.
  unfold files_map. destruct (writes_lookup files ∅ f) as [H1 H2]. split.
  - intros Hs. destruct (decide (f ∈ files.*1)) as [|Hn]; [done|]. rewrite (H2 Hn), lookup_empty in Hs. by destruct Hs.
  - intros (c & _ & ->)%H1. by eexists.
Qed.

(** A directory made anew under the staging name, then renamed over the final one. *)
Definition remake (d : text) (t : option (gmap text text)) (files : list (text * text)) : list TreeOp :=
  rmtree d t ++ TreeMk d :: writes d files.

Lemma remake_touches d t files o : o ∈ remake d t files → op_dirs o = [d].
Proof.
  unfold remake. rewrite elem_of_app, elem_of_cons. intros [?%rmtree_touches|[->|?%writes_touches]]; done.
Qed.

Lemma remade d t files m : tree_play m (remake d t files) !! d = Some (files_map files).
Proof.
  unfold remake. rewrite tree_play_app, tree_play_cons. apply writes_tree. cbn [tree_apply]. apply lookup_insert_eq.
Qed.

(** Replacing the final directory: the old one is removed, then the staged one renamed. *)
Definition replace_tree (a b : text) (t : option (gmap text text)) : list TreeOp := rmtree b t ++ [TreeRename a b].

Lemma replace_touches a b t o : o ∈ replace_tree a b t → op_dirs o ⊆ [a; b].
Proof.
  unfold replace_tree. intros [->%rmtree_touches| ->%list_elem_of_singleton]%elem_of_app; [|done].
  intros d Hd%list_elem_of_singleton. subst d. by right; left.
Qed.

Lemma replaced a b m t : a ≠ b → m !! a = Some t → tree_play m (replace_tree a b (m !! b)) !! b = Some t.
Proof.
  intros Hab Ha. unfold replace_tree. rewrite tree_play_app, tree_play_cons. cbn [tree_apply].
  rewrite (tree_play_other (rmtree b (m !! b)) m a); [rewrite Ha; apply lookup_insert_eq|].
  intros o ->%rmtree_touches. by rewrite list_elem_of_singleton.
Qed.

(** However it is cut, where the final directory had no file [f], it has it only when it is the
    whole of the staged one. *)
Lemma replace_atomic a b m t f pre :
  a ≠ b → m !! a = Some t → file_of m b f = None → pre `prefix_of` replace_tree a b (m !! b) →
  is_Some (file_of (tree_play m pre) b f) → tree_play m pre !! b = Some t ∧ pre = replace_tree a b (m !! b).
Proof.
  intros Hab Ha Hf Hpre Hin. unfold replace_tree in Hpre. apply prefix_app_cases in Hpre as [Hpre|(q & -> & Hq)].
  { rewrite (rmtree_shrinks b (m !! b) f m pre Hpre Hf) in Hin. by destruct Hin. }
  apply prefix_of_single in Hq as [->| ->]; [|split; [by apply (replaced a b)|done]].
  rewrite app_nil_r in Hin. unfold file_of in Hin. rewrite rmtree_gone in Hin. by destruct Hin.
Qed.

(** A directory that is gone, or holds a part of what it held. *)
Definition shrunk (before after : option (gmap text text)) : Prop :=
  match after with
  | None => True
  | Some part => ∃ whole, before = Some whole ∧ part ⊆ whole
  end.

Lemma shrunk_refl t : shrunk t t.
Proof. destruct t; [by eexists|done]. Qed.

(** A removal that is cut leaves a part of the directory. *)
Lemma rmtree_cut d t m pre : pre `prefix_of` rmtree d t → shrunk (m !! d) (tree_play m pre !! d).
Proof.
  intros Hpre. assert (∀ o, o ∈ pre → (∃ g, o = TreeDrop d g) ∨ o = TreeRmdir d) as Hops.
  { intros o Ho. apply (prefix_elem _ _ _ Hpre) in Ho. unfold rmtree in Ho. destruct t as [t|]; [|by apply elem_of_nil in Ho].
    apply elem_of_app in Ho as [Ho|Ho%list_elem_of_singleton]; [|by right].
    left. apply list_elem_of_fmap in Ho as (g & -> & _). by exists g. }
  clear Hpre. induction pre as [|o pre IH] using rev_ind; [apply shrunk_refl|].
  rewrite tree_play_app, tree_play_cons. cbn [tree_play foldl]. change (foldl tree_apply ?a []) with a.
  specialize (IH ltac:(intros; apply Hops, elem_of_app; by left)).
  destruct (Hops o) as [[g ->]| ->]; [apply elem_of_app; right; by left| |]; cbn [tree_apply].
  - rewrite lookup_alter_eq. change (foldl tree_apply m pre) with (tree_play m pre).
    destruct (tree_play m pre !! d) as [part|]; cbn in *; [|done]. destruct IH as (whole & -> & Hsub).
    exists whole. split; [done|]. etrans; [apply delete_subseteq|done].
  - by rewrite lookup_delete_eq.
Qed.

(** Filling a staging directory and renaming it over the final one, cut anywhere: no other
    directory changes, and the final one is as it was, or what the whole sequence leaves, or
    the removal of it was cut: then a part of the old one is left and the new one is whole in
    the staging directory. *)
Lemma publish_cut a b m files r :
  a ≠ b → is_Some (m !! a) → r `prefix_of` writes a files ++ replace_tree a b (m !! b) →
  let full := tree_play m (writes a files ++ replace_tree a b (m !! b)) in
  (∀ d, d ≠ a → d ≠ b → tree_play m r !! d = m !! d) ∧
  (tree_play m r !! b = m !! b ∨ tree_play m r !! b = full !! b ∨
     shrunk (m !! b) (tree_play m r !! b) ∧ tree_play m r !! a = full !! b).
Proof.
  intros Hab [t Ha] Hr. set (m1 := tree_play m (writes a files)). cbv zeta.
  assert (∀ d, d ≠ a → m1 !! d = m !! d) as Hm1.
  { intros d Hd. apply tree_play_other. intros o ->%writes_touches. by rewrite list_elem_of_singleton. }
  assert (m1 !! a = Some (foldl (λ t fc, <[fc.1 := fc.2]> t) t files)) as Ht by by apply writes_tree.
  apply prefix_app_cases in Hr as [Hr|(q & -> & Hq)].
  - assert (∀ d, d ≠ a → tree_play m r !! d = m !! d) as Hsame.
    { intros d Hd. apply tree_play_other. intros o Ho. apply (prefix_elem _ _ _ Hr), writes_touches in Ho as ->.
      by rewrite list_elem_of_singleton. }
    split; [by intros d Hd _; apply Hsame|left; by apply Hsame].
  - rewrite !tree_play_app. fold m1. split.
    + intros d Hda Hdb. rewrite <-(Hm1 d Hda). apply tree_play_other. intros o Ho. apply (prefix_elem _ _ _ Hq) in Ho.
      intros Hod%(replace_touches _ _ _ _ Ho). rewrite !elem_of_cons, elem_of_nil in Hod. tauto.
    + rewrite <-(Hm1 b) in * by done. rewrite (replaced a b m1 _ Hab Ht).
      unfold replace_tree in Hq. apply prefix_app_cases in Hq as [Hq|(q' & -> & Hq)].
      * right. right. split; [by eapply rmtree_cut|]. rewrite <-Ht. apply tree_play_other.
        intros o ->%(prefix_elem _ _ _ Hq)%rmtree_touches. by rewrite list_elem_of_singleton.
      * apply prefix_of_single in Hq as [->| ->].
        -- right. right. rewrite app_nil_r. split; [by eapply rmtree_cut|]. rewrite <-Ht. apply tree_play_other.
           intros o ->%rmtree_touches. by rewrite list_elem_of_singleton.
        -- right. left. by apply (replaced a b).
Qed.

(** What the whole sequence leaves. *)
Lemma publish_leaves a b m t files :
  a ≠ b → m !! a = Some t →
  let m' := tree_play m (writes a files ++ replace_tree a b (m !! b)) in
  m' !! b = Some (foldl (λ t fc, <[fc.1 := fc.2]> t) t files) ∧ m' !! a = None ∧ ∀ d, d ≠ a → d ≠ b → m' !! d = m !! d.
Proof.
  intros Hab Ha. cbv zeta. rewrite tree_play_app. set (m1 := tree_play m (writes a files)).
  assert (∀ d, d ≠ a → m1 !! d = m !! d) as Hm1.
  { intros d Hd. apply tree_play_other. intros o ->%writes_touches. by rewrite list_elem_of_singleton. }
  assert (m1 !! a = Some (foldl (λ t fc, <[fc.1 := fc.2]> t) t files)) as Ht by by apply writes_tree.
  rewrite <-(Hm1 b) by done. split_and!; [by apply replaced| |].
  - unfold replace_tree. rewrite tree_play_app, tree_play_cons. cbn [tree_play foldl tree_apply].
    change (foldl tree_apply m1 ?l) with (tree_play m1 l).
    rewrite (tree_play_other (rmtree b (m1 !! b)) m1 a); [|intros o ->%rmtree_touches; by rewrite list_elem_of_singleton].
    rewrite Ht, lookup_insert_ne by done. apply lookup_delete_eq.
  - intros d Hda Hdb. rewrite <-(Hm1 d Hda). apply tree_play_other. intros o Ho Hod%(replace_touches _ _ _ _ Ho).
    rewrite !elem_of_cons, elem_of_nil in Hod. tauto.
Qed.
