(* ===== verification/Boxes.v ===== *)
(** * The fleet of baked boxes

    Models the deciding half of mqlab/box.py: the fleet derived from the catalog, the boxes
    a build file needs, the order of a build, the flags of a builder, the reading of a
    builder's decision, and the build itself as the sequence of its effects. The builders'
    output, the component trees and what is in the cache are inputs. BoxGc.v holds the other
    half, the reclaiming of boxes and images. *)

From S2P Require Import Prelude PyText PyCodec PyDict PyFloat Trace Orchestrator Topology Hostfacts Versions VersionsLoad Stacks Platforms.

(** ** The specification of a box *)

Record BoxSpec := mk_spec {
  bs_name : text; bs_builder : text; bs_arch : text; bs_cache_artifact : text; bs_hashed : bool;
  bs_os : OsEntry; bs_role : option text; bs_bake_stem : option text; bs_mq_bearing : bool;
  bs_components : list text; bs_runtime_pin : text
}.

Definition FATBOX_BUILDER : text := u "lab/boxes/build-fatbox.sh".
Definition RHEL_BASE_BUILDER : text := u "lab/boxes/rhel/build-box.sh".

Definition manifest_hash_artifact (s : BoxSpec) : text := bs_name s ++ u "-" ++ bs_arch s ++ u ".manifest-hash".
Definition components_record_artifact (s : BoxSpec) : text :=
  bs_name s ++ u "-" ++ bs_arch s ++ u ".components.json".

(** [os_pin]: an empty string is falsy. *)
Definition os_pin (e : OsEntry) : text :=
  oe_base_box e ++ u "@" ++
  default (default (u "none") (or_none (oe_base_box_version e))) (or_none (oe_point e)).

Definition base_cache_artifact (base_box : text) : text := replace_char 47 (u "-") base_box ++ u ".box".

Definition fat_spec (b : BoxEntry) (facts : HostFacts) (runtime_pin : text) : BoxSpec :=
  let arch := box_build_arch (oe_arch_pin (be_os b)) facts in
  mk_spec (be_name b) FATBOX_BUILDER arch (be_name b ++ u "-" ++ arch ++ u ".box") true (be_os b)
    (Some (be_role b)) (Some (be_bake_stem b)) (be_mq_bearing b) (be_components b) runtime_pin.

Definition base_spec (e : OsEntry) (facts : HostFacts) : BoxSpec :=
  mk_spec (oe_base_box e) RHEL_BASE_BUILDER (box_build_arch (oe_arch_pin e) facts)
    (base_cache_artifact (oe_base_box e)) false e None None false [] [].

(** ** The fleet *)

Inductive BoxError :=
  | InCatalog (e : CatalogError)
  | UnknownBuildStack (stack : text) (known : list text)
  | NoEntry (r : OsRef)             (* KeyError *)
  | NotInFleet (name : text)        (* KeyError *)
  | NeedsPointIso (name : text)
  | BadDecision (output : text) | AgeTooLong
  | CrossArch (name pin : text)
  | BoxExit (code : Z).

(** [sorted(catalog.oses.items())]: the references are distinct. *)
Definition sorted_oses (c : Catalog) : list (OsRef * OsEntry) := isort (λ a b, ref_leb a.1 b.1) (c_oses c).

Definition base_entries (c : Catalog) (facts : HostFacts) : list OsEntry :=
  (filter (λ re, ref_family re.1 = u "rhel" ∧ host_can_run re.2 facts = true) (sorted_oses c)).*2.

Definition build_fleet (facts : HostFacts) (c : Catalog) (roles : list (text * gset text)) :
    res BoxError (list (text * BoxSpec)) :=
  boxes ← map_err InCatalog (all_boxes c (Some facts) roles);
  let bases := dict_of (λ e, (oe_base_box e, base_spec e facts)) (base_entries c facts) in
  Ok (foldl (λ d b, dset d (be_name b) (fat_spec b facts (rp_token (c_runtime c)))) bases boxes).

(** Whether a build file leaves a stack out: one with no OS, the stacks this host cannot run
    at their default; one that names an OS, the stacks of another family. *)
Definition left_out (c : Catalog) (facts : HostFacts) (build : BuildFile) (dflt : OsRef) : res BoxError bool :=
  match bf_os build with
  | None => e ← of_option (NoEntry dflt) (dget (c_oses c) dflt); Ok (negb (host_can_run e facts))
  | Some r => Ok (negb (bool_decide (ref_family r = ref_family dflt)))
  end.

(** The boxes of a stack's roles on an OS. *)
Definition role_names (c : Catalog) (r : OsRef) (roles : list text) : res BoxError (list text) :=
  map_err InCatalog (res_mapM (λ role, b ← box c role r; Ok (be_name b)) roles).

(** The boxes one stack needs for a build file. *)
Definition stack_names (c : Catalog) (facts : HostFacts) (build : BuildFile) (sr : text * gset text) :
    res BoxError (list text) :=
  spec ← of_option (UnknownBuildStack sr.1 (sorted_text (c_stacks c).*1)) (dget (c_stacks c) sr.1);
  skip ← left_out c facts build (ss_default spec);
  if skip : bool then Ok [] else
    r ← map_err InCatalog (stack_os c sr.1 (Some build) facts);
    role_names c r (sorted_set sr.2).

Definition shared_names (c : Catalog) : res BoxError (list text) :=
  map_err InCatalog (res_mapM (λ role, r ← shared_os c role; b ← box c role r; Ok (be_name b)) SHARED_ROLES).

Definition boxes_for_build (build : BuildFile) (facts : HostFacts) (c : Catalog)
    (roles : list (text * gset text)) : res BoxError (list text) :=
  shared ← shared_names c;
  rest ← res_mapM (stack_names c facts build) roles;
  Ok (uniq (shared ++ mjoin rest)).

(** ** A builder's decision *)

Inductive Action := Reuse | Build | Stale | ForceBuild.
#[export] Instance Action_eq_dec : EqDecision Action.
Proof. solve_decision. Defined.

(** [_ACTIONS], in the order they are looked for. *)
Definition ACTIONS : list (text * Action) :=
  [(u "FORCE-BUILD", ForceBuild); (u "STALE", Stale); (u "BUILD", Build); (u "REUSE", Reuse)].

Definition contains (s p : text) : bool := bool_decide (is_Some (find_sub p s)).

Definition parse_action (output : text) : res BoxError Action :=
  of_option (BadDecision output) (snd <$> List.find (λ ta, contains output ta.1) ACTIONS).

Section decision.
Context (uword : N → bool).

(** [(\d+)d\b] at the head of a text, the digits before it given reversed. *)
Fixpoint age_at (digits : text) (s : text) : option text :=
  match s with
  | c :: s' =>
      if bool_decide (is_Some (decimal_digit c)) then age_at (c :: digits) s'
      else if (c =? 100)%N && negb (bool_decide (digits = []))
              && negb (match s' with c' :: _ => word_char uword c' | [] => false end)
           then Some (rev digits) else None
  | [] => None
  end.

(** The leftmost match. *)
Fixpoint find_age (s : text) : option text :=
  match age_at [] s with
  | Some d => Some d
  | None => match s with [] => None | _ :: s' => find_age s' end
  end.

Definition parse_age_days (output : text) : res BoxError (option Z) :=
  match find_age output with
  | None => Ok None
  | Some d => z ← of_option AgeTooLong (int_of_text d); Ok (Some z)
  end.

Definition derive_hash_match (s : BoxSpec) (a : Action) (cached : bool) : option bool :=
  if negb (bs_hashed s) then None else
  match a with
  | Reuse | Stale => Some true
  | Build => if cached then Some false else None
  | ForceBuild => None
  end.

Record BoxDecision := mk_decided {
  bd_name : text; bd_cached : bool; bd_age_days : option Z; bd_hash_match : option bool;
  bd_registered : bool; bd_action : Action
}.

(** What the host answers: a builder's dry run, the cache's files, the registrations. *)
Record BoxHost := mk_box_host {
  bh_dry_run : text → text; bh_cache : gset text; bh_registered : list (text * text)
}.

Definition box_decision (fleet : list (text * BoxSpec)) (h : BoxHost) (name : text) : res BoxError BoxDecision :=
  spec ← of_option (NotInFleet name) (dget fleet name);
  let output := bh_dry_run h name in
  a ← parse_action output;
  let cached := bool_decide (bs_cache_artifact spec ∈ bh_cache h) in
  age ← parse_age_days output;
  Ok (mk_decided name cached age (derive_hash_match spec a cached) (dmem name (bh_registered h)) a).

Definition decided (fleet : list (text * BoxSpec)) (h : BoxHost) (name : text) : res BoxError Action :=
  d ← box_decision fleet h name; Ok (bd_action d).

(** ** The plan of a build *)

(** [bakes]: forced, or a decision other than REUSE. *)
Definition bakes (fleet : list (text * BoxSpec)) (h : BoxHost) (force : bool) (name : text) : res BoxError bool :=
  if force then Ok true else a ← decided fleet h name; Ok (negb (bool_decide (a = Reuse))).

(** The base box a named box brings in. *)
Definition dep_of (fleet : list (text * BoxSpec)) (h : BoxHost) (force : bool) (name : text) :
    res BoxError (option text) :=
  spec ← of_option (NotInFleet name) (dget fleet name);
  if bool_decide (bs_role spec ≠ None) && dmem (oe_base_box (bs_os spec)) fleet then
    b ← bakes fleet h force name;
    Ok (if b : bool then Some (oe_base_box (bs_os spec)) else None)
  else Ok None.

Definition build_plan (fleet : list (text * BoxSpec)) (h : BoxHost) (names : list text) (force : bool) :
    res BoxError (list (text * bool)) :=
  deps ← res_mapM (dep_of fleet h force) (uniq names);
  Ok (((λ b, (b, false)) <$> filter (λ b, b ∉ names) (uniq (omap id deps)))
      ++ ((λ n, (n, force)) <$> uniq names)).

(** The components the plan's bakes need, in order. *)
Definition plan_components (fleet : list (text * BoxSpec)) (h : BoxHost) (plan : list (text * bool)) :
    res BoxError (list text) :=
  l ← res_mapM (λ nf : text * bool,
        spec ← of_option (NotInFleet nf.1) (dget fleet nf.1);
        match bs_components spec with
        | [] => Ok []
        | cs => b ← bakes fleet h nf.2 nf.1; Ok (if b : bool then cs else [])
        end) plan;
  Ok (uniq (mjoin l)).

(** [_rhel_base_needs_dvd]. *)
Definition rhel_base_needs_dvd (fleet : list (text * BoxSpec)) (h : BoxHost) (nf : text * bool) :
    res BoxError bool :=
  spec ← of_option (NotInFleet nf.1) (dget fleet nf.1);
  match bs_role spec with Some _ => Ok false | None => bakes fleet h nf.2 nf.1 end.
End decision.

(** ** The flags of a builder *)

(** What the flags are made from: the checkout, the effective topology ([None] when it does
    not load), the tree hash of a component at HEAD ([None]: ComponentError). *)
Record BuilderInput := mk_binput {
  bi_root : text; bi_topo : option Topo; bi_tree : text → option text; bi_install_vars : text
}.

Definition bake_size_args (i : BuilderInput) (s : BoxSpec) : res BoxError (list text) :=
  t ← of_option (BoxExit 1) (bi_topo i);
  size ← map_err (λ _, BoxExit 1) (bake_size t (default (u "None") (bs_role s)));
  Ok [u "--bake-cpus"; Z_text (bk_cpus size); u "--bake-memory"; Z_text (bk_memory size)].

Definition component_args (i : BuilderInput) (s : BoxSpec) : res BoxError (list text) :=
  baked ← res_mapM (λ name, t ← of_option (BoxExit 1) (bi_tree i name); Ok (name ++ u "@" ++ t))
            (bs_components s);
  Ok ([u "--runtime-pin"; bs_runtime_pin s; u "--components"; str_join (u ",") baked]
      ++ match bs_components s with [] => [] | _ => [u "--install-vars"; bi_install_vars i] end).

Definition virt_args (s : BoxSpec) (facts : HostFacts) : list text :=
  let v := box_build_domain_virt (bs_arch s) facts in [u "--domain-type"; v.1; u "--cpu-mode"; v.2].

Definition builder_args (i : BuilderInput) (s : BoxSpec) (facts : HostFacts) : res BoxError (list text) :=
  let e := bs_os s in
  match bs_role s with
  | None =>
      match oe_point e, oe_iso e with
      | Some point, Some iso =>
          Ok ([u "--major"; Z_text (ref_major (oe_ref e)); u "--point"; point; u "--iso"; iso]
              ++ virt_args s facts)
      | _, _ => Err (NeedsPointIso (bs_name s))
      end
  | Some _ =>
      size ← bake_size_args i s;
      components ← component_args i s;
      Ok ([u "--box"; bs_name s; u "--arch"; bs_arch s; u "--base-kind"; ref_family (oe_ref e);
           u "--base-box"; oe_base_box e;
           u "--base-box-version"; default (u "none") (or_none (oe_base_box_version e));
           u "--bake"; default (u "None") (bs_bake_stem s);
           u "--dvd"; default (u "none") (or_none (oe_iso e)); u "--os-pin"; os_pin e;
           u "--mq-bearing"; if bs_mq_bearing s then u "1" else u "0"]
          ++ virt_args s facts ++ size ++ components)
  end.

Definition builder_argv (i : BuilderInput) (s : BoxSpec) (facts : HostFacts) : res BoxError (list text) :=
  args ← builder_args i s facts;
  Ok (u "bash" :: (bi_root i ++ u "/" ++ bs_builder s) :: args).

(** One step of [_build_steps]. *)
Definition box_step (i : BuilderInput) (fleet : list (text * BoxSpec)) (facts : HostFacts) (nf : text * bool) :
    res BoxError CommandStep :=
  spec ← of_option (NotInFleet nf.1) (dget fleet nf.1);
  _ ← match oe_arch_pin (bs_os spec) with
      | Some pin => raise_if (negb (bool_decide (pin = arch_name (hf_arch facts)))) (CrossArch nf.1 pin)
      | None => Ok ()
      end;
  argv ← builder_argv i spec facts;
  Ok (mk_step (u "box " ++ nf.1)
        (mk_command (argv ++ if nf.2 then [u "--rebuild-box"] else []) None None) None []).

Definition build_steps (i : BuilderInput) (fleet : list (text * BoxSpec)) (facts : HostFacts)
    (plan : list (text * bool)) : res BoxError (list CommandStep) := res_mapM (box_step i fleet facts) plan.

(** ** The DVD of a base box *)

(** No release is pinned. *)
Definition RHEL_DVD_SHA256 : list (text * text) := [].

Definition rhel_dvd_path (environ : list (text * text)) (state_dir iso : text) : text :=
  match dget environ (u "MQLAB_RHEL_ISO") ≫= (or_none ∘ Some), dget environ (u "RHEL_ISO") ≫= (or_none ∘ Some) with
  | Some p, _ | None, Some p => p
  | None, None => state_dir ++ u "/" ++ iso
  end.

(** [verify_rhel_dvd]: whether the checksum was verified; [present] and [sha] answer for the
    file at a path. *)
Definition verify_rhel_dvd (pins environ : list (text * text)) (state_dir : text)
    (present : text → bool) (sha : text → text) (e : OsEntry) : res BoxError bool :=
  match oe_point e, oe_iso e with
  | Some version, Some iso =>
      let path := rhel_dvd_path environ state_dir iso in
      _ ← raise_if (negb (present path)) (BoxExit 2);
      match dget pins version ≫= (or_none ∘ Some) with
      | None => Ok false
      | Some pinned => _ ← raise_if (negb (bool_decide (sha path = pinned))) (BoxExit 2); Ok true
      end
  | _, _ => Err (NeedsPointIso (oe_base_box e))
  end.

(** ** A build, as the sequence of its effects *)

Inductive BoxOp :=
  | OpVenv | OpResolve | OpExporter
  | OpDvd (name : text)
  | OpComponents (names : list text)
  | OpRun (steps : list CommandStep)
  | OpCollect.

#[local] Open Scope trace_scope.

(** How each effect ends. *)
Record BuildWorld := mk_world {
  bw_venv : res BoxError (); bw_resolve : res BoxError (); bw_exporter : res BoxError ();
  bw_dvd : OsEntry → res BoxError bool; bw_components : res BoxError (); bw_run : res BoxError ()
}.

Definition EXPORTER_ROLES : list text := [u "mq-client"].
Definition needs_exporter_binary (roles : list (option text)) : bool :=
  existsb (λ r, match r with Some r => bool_decide (r ∈ EXPORTER_ROLES) | None => false end) roles.

Section build.
Context (uword : N → bool) (fleet : list (text * BoxSpec)) (h : BoxHost) (w : BuildWorld).

Definition plan_roles (plan : list (text * bool)) : res BoxError (list (option text)) :=
  res_mapM (λ nf : text * bool, spec ← of_option (NotInFleet nf.1) (dget fleet nf.1); Ok (bs_role spec)) plan.

(** The preflight of one planned box. *)
Definition verify_dvd (nf : text * bool) : traced BoxOp BoxError () :=
  let* needs := quiet (rhel_base_needs_dvd uword fleet h nf) in
  if needs : bool then
    let* spec := quiet (of_option (NotInFleet nf.1) (dget fleet nf.1)) in
    let* _ := emit (OpDvd nf.1) (bw_dvd w (bs_os spec)) in
    quiet (Ok ())
  else quiet (Ok ()).

(** [_ensure_component_artifacts]. *)
Definition ensure_component_artifacts (plan : list (text * bool)) : traced BoxOp BoxError () :=
  let* names := quiet (plan_components uword fleet h plan) in
  match names with [] => quiet (Ok ()) | _ => emit (OpComponents names) (bw_components w) end.

Definition build_boxes (i : BuilderInput) (facts : HostFacts) (names : list text) (force : bool) : traced BoxOp BoxError () :=
  let* _ := emit OpVenv (bw_venv w) in
  let* _ := emit OpResolve (bw_resolve w) in
  let* plan := quiet (build_plan uword fleet h names force) in
  let* roles := quiet (plan_roles plan) in
  let* _ := if needs_exporter_binary roles then emit OpExporter (bw_exporter w) else quiet (Ok ()) in
  let* _ := each verify_dvd plan in
  let* steps := quiet (build_steps i fleet facts plan) in
  let* _ := ensure_component_artifacts plan in
  let* _ := emit (OpRun steps) (bw_run w) in
  emit OpCollect (Ok ()).
End build.

(** ** The fleet covers the builds *)

(** A fat box of the fleet: built from the catalog's box of that name. *)
Definition fleet_box (c : Catalog) (facts : HostFacts) (s : BoxSpec) (n : text) : Prop :=
  ∃ role r b, box c role r = Ok b ∧ be_name b = n ∧ s = fat_spec b facts (rp_token (c_runtime c)) ∧
    (role ∈ SHARED_ROLES ∨ runnable c facts r = true).

Lemma build_fleet_Ok facts c roles fleet :
  build_fleet facts c roles = Ok fleet →
  ∃ boxes, all_boxes c (Some facts) roles = Ok boxes ∧
    (∀ b, b ∈ boxes → dget fleet (be_name b) = Some (fat_spec b facts (rp_token (c_runtime c)))) ∧
    (∀ n s, dget fleet n = Some s →
       (∃ b, b ∈ boxes ∧ be_name b = n ∧ s = fat_spec b facts (rp_token (c_runtime c))) ∨
       ∃ e, e ∈ base_entries c facts ∧ oe_base_box e = n ∧ s = base_spec e facts).
Proof.
  unfold build_fleet. intros H. res_inv. rename x into boxes. subst fleet. exists boxes. split; [done|].
  match goal with H : all_boxes _ _ _ = Ok _ |- _ => apply all_boxes_Ok in H as (Hnd & _) end.
  set (tok := rp_token (c_runtime c)). set (f b := (be_name b, fat_spec b facts tok)). split.
  - intros b Hb. exact (foldl_dset_elem f boxes _ b Hnd Hb).
  - intros n s [(b & Hb & Hf)|Hs]%(foldl_dset_inv f).
    + injection Hf as <- <-. left. by exists b.
    + right. apply (foldl_dset_inv (λ e, (oe_base_box e, base_spec e facts))) in Hs as [(e & He & [= <- <-])|Hs];
        [by exists e|done].
Qed.

Lemma stack_names_Ok c facts build sr names :
  catalog_ok c → stack_names c facts build sr = Ok names →
  ∀ n, n ∈ names → ∃ role r b spec, box c role r = Ok b ∧ be_name b = n ∧ role ∈ sr.2 ∧
    dget (c_stacks c) sr.1 = Some spec ∧ r ∈ ss_supported spec ∧ runnable c facts r = true.
Proof.
  intros Hc H n Hn. unfold stack_names in H. res_inv. rename x into spec, x0 into skip.
  destruct skip; [by injection H1 as <-; apply elem_of_nil in Hn|]. unfold role_names in H1. res_inv.
  match goal with H : stack_os _ _ _ _ = Ok ?r |- _ =>
    apply stack_os_Ok in H as (spec' & Hs & _ & Hsup & Hrun); [|done]; rename r into os end.
  match goal with H : res_mapM _ _ = Ok _ |- _ => apply (res_mapM_elem _ _ _ _ H) in Hn as (role & Hr & Hb) end.
  res_inv. exists role, os, x, spec. simplify_eq. split_and!; [done..| |done|done|done].
  unfold sorted_set, sorted_text in Hr. apply elem_of_isort in Hr. by apply elem_of_elements.
Qed.

(** The box of a role on an OS is one. *)
Ltac same_box :=
  match goal with H1 : box ?c ?r ?x = Ok _, H2 : box ?c ?r ?x = Ok _ |- _ =>
    rewrite H1 in H2; injection H2 as <- end.

(** C29. The fleet covers the builds: every box a build file needs on a host is in that host's
    fleet, as the fat box the catalog generates under that name, and no box is listed
    twice; every fat box of the fleet is the catalog's box of its role, for an OS this host
    can run or a shared role; and the other boxes are the base boxes of the RHEL majors
    the host can run. *)
Theorem fleet_covers_builds c facts roles fleet build names :
  catalog_ok c → build_fleet facts c roles = Ok fleet →
  boxes_for_build build facts c roles = Ok names →
  NoDup names ∧
  (∀ n, n ∈ names → ∃ s, dget fleet n = Some s ∧ bs_hashed s = true ∧ fleet_box c facts s n) ∧
  (∀ n s, dget fleet n = Some s →
     if bs_role s is Some _ then fleet_box c facts s n
     else ∃ e, bs_os s = e ∧ oe_base_box e = n ∧ ref_family (oe_ref e) = u "rhel" ∧
          dget (c_oses c) (oe_ref e) = Some e ∧ host_can_run e facts = true).
Proof.
  intros Hc Hf Hn. apply build_fleet_Ok in Hf as (boxes & Hall & Hget & Hfrom).
  destruct (all_boxes_Ok _ _ _ _ Hall) as (_ & Hwhere & Hshared & Hstack).
  assert (∀ b, b ∈ boxes → fleet_box c facts (fat_spec b facts (rp_token (c_runtime c))) (be_name b)) as Hbox.
  { intros b Hb. destruct (Hwhere b Hb) as (role & r & Hbx & Hw). exists role, r, b. split_and!; [done..|].
    destruct Hw as [[? _]|(st & rs & spec & _ & _ & _ & _ & ?)]; [by left|by right]. }
  unfold boxes_for_build, shared_names in Hn. res_inv. subst names. rename x into shared, x0 into rest.
  split_and!; [apply NoDup_uniq| |].
  - intros n Hin%elem_of_uniq%elem_of_app.
    assert (n ∈ be_name <$> boxes) as (b & -> & Hb)%list_elem_of_fmap.
    { destruct Hin as [Hin|Hin].
      - match goal with H : res_mapM _ SHARED_ROLES = Ok _ |- _ =>
          apply (res_mapM_elem _ _ _ _ H) in Hin as (role & Hr & Hb) end. res_inv.
        match goal with H : shared_os _ role = Ok ?r |- _ => destruct (Hshared role r Hr H) as (b & Hb' & Hin) end.
        same_box. by subst n.
      - apply list_elem_of_join in Hin as (l & Hin & Hl).
        match goal with H : res_mapM (stack_names _ _ _) _ = Ok _ |- _ =>
          apply (res_mapM_elem _ _ _ _ H) in Hl as ([stack rs] & Hsr & Hnames) end.
        destruct (stack_names_Ok _ _ _ _ _ Hc Hnames n Hin) as (role & r & b & spec & Hb & <- & Hr & Hs & Hsup & Hrun).
        destruct (Hstack stack rs role spec r Hsr Hr Hs Hsup Hrun) as (b' & Hb' & Hin'). by same_box. }
    exists (fat_spec b facts (rp_token (c_runtime c))). split_and!; [by apply Hget|done|by apply Hbox].
  - intros n s [(b & Hb & <- & ->)|(e & He & <- & ->)]%Hfrom; [by apply Hbox|]. cbn [bs_role base_spec].
    unfold base_entries in He. apply list_elem_of_fmap in He as ([r e'] & -> & [[Hfam Hrun] Hin]%list_elem_of_filter).
    unfold sorted_oses in Hin. apply elem_of_isort in Hin. cbn [fst snd] in *.
    apply elem_dget in Hin; [|apply Hc]. destruct (cok_refs c Hc _ _ Hin) as [<- _]. by exists e'.
Qed.

(** ** The order of a build *)

Section plan.
Context (uword : N → bool) (fleet : list (text * BoxSpec)) (h : BoxHost).

(** A base box that the bake of a named fat box needs. *)
Definition needed_base (names : list text) (force : bool) (b : text) : Prop :=
  ∃ n s, n ∈ names ∧ dget fleet n = Some s ∧ bs_role s ≠ None ∧ oe_base_box (bs_os s) = b ∧
    dmem b fleet = true ∧ bakes uword fleet h force n = Ok true.

Lemma dep_of_Some force n b :
  dep_of uword fleet h force n = Ok (Some b) ↔
  ∃ s, dget fleet n = Some s ∧ bs_role s ≠ None ∧ oe_base_box (bs_os s) = b ∧ dmem b fleet = true ∧
    bakes uword fleet h force n = Ok true.
Proof.
  unfold dep_of. destruct (dget fleet n) as [s|]; [|split; [done|intros (? & [=] & _)]].
  cbn [of_option mbind res_bind].
  destruct (bool_decide (bs_role s ≠ None) && dmem (oe_base_box (bs_os s)) fleet) eqn:Hb.
  - apply andb_true_iff in Hb as [Hr%bool_decide_eq_true Hm]. split.
    + intros H. res_inv. destruct x; [|done]. simplify_eq. by exists s.
    + intros (s' & [= <-] & _ & <- & _ & ->). done.
  - split; [done|]. intros (s' & [= <-] & Hr & <- & Hm & _). exfalso.
    by rewrite bool_decide_eq_true_2, Hm in Hb by done.
Qed.

(** A build runs in the order its builders need: the plan is the base boxes that the bakes
    of the named boxes need and that are not named themselves, each ensured but never
    forced, and then the named boxes once each, in the order given and forced as asked; a
    base box is brought in exactly when a fat box on it is about to bake. *)
Theorem build_plan_exact names force plan :
  build_plan uword fleet h names force = Ok plan →
  NoDup plan.*1 ∧
  ∃ deps, plan = ((λ b, (b, false)) <$> deps) ++ ((λ n, (n, force)) <$> uniq names) ∧
    ∀ b, b ∈ deps ↔ (b ∉ names) ∧ needed_base names force b.
Proof.
  unfold build_plan. intros H. res_inv. subst plan. rename x into l.
  set (deps := filter (λ b, b ∉ names) (uniq (omap id l))).
  assert (∀ b, b ∈ deps ↔ (b ∉ names) ∧ needed_base names force b) as Hdeps.
  { intros b. unfold deps. rewrite list_elem_of_filter, elem_of_uniq, list_elem_of_omap.
    apply and_iff_compat_l. split.
    - intros (o & Ho & Hb). cbn [id] in Hb. subst o.
      match goal with H : res_mapM _ _ = Ok _ |- _ => apply (res_mapM_elem _ _ _ _ H) in Ho as (n & Hn & Hd) end.
      apply dep_of_Some in Hd as (s & ?). exists n, s. by rewrite elem_of_uniq in Hn.
    - intros (n & s & Hn & Hd). rewrite <-elem_of_uniq in Hn.
      match goal with H : res_mapM _ _ = Ok _ |- _ => apply (res_mapM_image _ _ _ _ H) in Hn as (o & Ho & Hof) end.
      exists o. split; [done|]. assert (dep_of uword fleet h force n = Ok (Some b)) as Hs
        by (apply dep_of_Some; by exists s). rewrite Hs in Hof. by injection Hof as <-. }
  split; [|by exists deps].
  assert (∀ (f : bool) (xs : list text), ((λ b, (b, f)) <$> xs).*1 = xs) as Hfst.
  { intros f xs. induction xs as [|x xs IH]; [done|]. csimpl. by rewrite IH. }
  rewrite fmap_app, !Hfst. apply NoDup_app. split_and!; [apply NoDup_filter, NoDup_uniq| |apply NoDup_uniq].
  intros b [Hb _]%Hdeps Hn. by rewrite elem_of_uniq in Hn.
Qed.

(** A base box that is named with its fat box keeps its place: when the fat box is named
    first, its bake is planned before the base it boots is built. *)
Theorem named_base_keeps_its_place fat base force s :
  fat ≠ base → dget fleet fat = Some s → oe_base_box (bs_os s) = base →
  dmem base fleet = true → (∀ sb, dget fleet base = Some sb → bs_role sb = None) →
  bakes uword fleet h force fat = Ok true →
  build_plan uword fleet h [fat; base] force = Ok [(fat, force); (base, force)].
Proof.
  intros Hne Hs Hbase Hm Hrole Hb.
  assert (uniq [fat; base] = [fat; base]) as Hu.
  { unfold uniq, uniq_onto. cbn [foldl]. unfold add_new at 2. rewrite decide_False by apply not_elem_of_nil.
    unfold add_new. rewrite decide_False; [done|]. by intros ?%list_elem_of_singleton. }
  unfold build_plan. rewrite Hu. cbn [res_mapM].
  assert (dep_of uword fleet h force base = Ok None) as ->.
  { unfold dep_of. apply dmem_true, dget_is_Some in Hm as [sb Hsb]. rewrite Hsb. cbn [of_option mbind res_bind].
    by rewrite (Hrole _ Hsb). }
  assert (∃ o, dep_of uword fleet h force fat = Ok o ∧ (o = None ∨ o = Some base)) as (o & -> & Ho).
  { unfold dep_of. rewrite Hs. cbn [of_option mbind res_bind]. rewrite Hb, Hbase. cbn [mbind res_bind].
    destruct (_ && _); eauto. }
  cbn [mbind res_bind]. f_equal.
  assert (filter (λ b, b ∉ [fat; base]) (uniq (omap id [o; None])) = []) as ->; [|done].
  destruct Ho as [-> | ->]; [done|]. change (uniq (omap id [Some base; None])) with [base].
  rewrite filter_cons, filter_nil, decide_False; [done|]. intros Hn. apply Hn. right. by left.
Qed.
End plan.

(** ** What a build does before its builders run *)

Section safety.
Context (uword : N → bool) (fleet : list (text * BoxSpec)) (h : BoxHost) (w : BuildWorld).

(** A planned box the builder will build from the DVD. *)
Definition from_dvd (nf : text * bool) : Prop := rhel_base_needs_dvd uword fleet h nf = Ok true.

Lemma verify_dvd_Ok nf s :
  (verify_dvd uword fleet h w nf).2 = Ok () → from_dvd nf → dget fleet nf.1 = Some s →
  (∃ b, bw_dvd w (bs_os s) = Ok b) ∧ OpDvd nf.1 ∈ (verify_dvd uword fleet h w nf).1.
Proof.
  unfold from_dvd, verify_dvd. intros H Hn Hs. rewrite Hn in *. rewrite Hs in *.
  apply then_Ok in H as (b & [= <-] & H). cbv iota in H.
  apply then_Ok in H as (s' & [= <-] & H). apply then_Ok in H as (v & Hv & _).
  split; [by exists v|]. apply elem_of_then. right. exists true. split; [done|].
  apply elem_of_then. right. exists s. split; [done|]. apply elem_of_then. left. by left.
Qed.

Lemma verify_dvd_ops nf o : o ∈ (verify_dvd uword fleet h w nf).1 → o = OpDvd nf.1.
Proof.
  unfold verify_dvd. intros [Hin|([] & _ & Hin)]%elem_of_then; [by apply elem_of_nil in Hin| |by apply elem_of_nil in Hin].
  apply elem_of_then in Hin as [Hin|(s & _ & Hin)]; [by apply elem_of_nil in Hin|].
  apply elem_of_then in Hin as [Hin|(? & _ & Hin)]; [by apply list_elem_of_singleton in Hin|by apply elem_of_nil in Hin].
Qed.

Lemma box_step_Ok i facts nf step :
  box_step i fleet facts nf = Ok step →
  ∃ s, dget fleet nf.1 = Some s ∧
    (∀ pin, oe_arch_pin (bs_os s) = Some pin → pin = arch_name (hf_arch facts)) ∧
    st_label step = u "box " ++ nf.1 ∧
    ∃ args, builder_args i s facts = Ok args ∧
      cmd_argv (st_command step) =
        (u "bash" :: (bi_root i ++ u "/" ++ bs_builder s) :: args) ++ if nf.2 then [u "--rebuild-box"] else [].
Proof.
  unfold box_step, builder_argv. intros H. res_inv. subst. eexists. split_and!; [done| |done|by eexists].
  intros pin Hp. rewrite Hp in *. res_inv. match goal with H : negb _ = false |- _ =>
    by apply negb_false_iff, bool_decide_eq_true in H end.
Qed.

Lemma build_steps_labels i facts plan steps :
  build_steps i fleet facts plan = Ok steps → st_label <$> steps = (λ nf, u "box " ++ nf.1) <$> plan.
Proof.
  intros H. apply res_mapM_Ok in H. induction H as [|nf st plan steps Hst _ IH]; [done|].
  apply box_step_Ok in Hst as (_ & _ & _ & Hl & _). rewrite !fmap_cons, Hl, IH. done.
Qed.

(** The effects of a build up to its builders. *)
Definition preflight (exporter : bool) (plan : list (text * bool)) (components : list text) : list BoxOp :=
  [OpVenv; OpResolve] ++ (if exporter then [OpExporter] else [])
  ++ (plan ≫= λ nf, (verify_dvd uword fleet h w nf).1)
  ++ match components with [] => [] | _ => [OpComponents components] end.

Lemma elem_of_preflight exporter plan cs o :
  o ∈ preflight exporter plan cs ↔
    o = OpVenv ∨ o = OpResolve ∨ (o = OpExporter ∧ exporter = true) ∨
    (∃ nf, nf ∈ plan ∧ o ∈ (verify_dvd uword fleet h w nf).1) ∨ (o = OpComponents cs ∧ cs ≠ []).
Proof.
  unfold preflight. rewrite !elem_of_app, list_elem_of_bind.
  assert (o ∈ [OpVenv; OpResolve] ↔ o = OpVenv ∨ o = OpResolve) as -> by
    (rewrite elem_of_cons, list_elem_of_singleton; done).
  assert (o ∈ (if exporter then [OpExporter] else []) ↔ o = OpExporter ∧ exporter = true) as -> by
    (destruct exporter; [rewrite list_elem_of_singleton; tauto|split; [by intros ?%elem_of_nil|by intros [_ [=]]]]).
  assert (o ∈ match cs with [] => [] | _ => [OpComponents cs] end ↔ o = OpComponents cs ∧ cs ≠ []) as -> by
    (destruct cs; [split; [by intros ?%elem_of_nil|by intros [_ ?]]|rewrite list_elem_of_singleton; naive_solver]).
  split; [intros [?|[?|[(nf & ? & ?)|?]]]|intros [?|[?|[?|[(nf & ? & ?)|?]]]]]; try tauto;
    [do 3 right; left; by exists nf|do 2 right; left; by exists nf].
Qed.

Lemma build_boxes_runs i facts names force steps :
  OpRun steps ∈ (build_boxes uword fleet h w i facts names force).1 →
  ∃ plan roles components, build_plan uword fleet h names force = Ok plan ∧
    plan_roles fleet plan = Ok roles ∧
    (∀ nf, nf ∈ plan → (verify_dvd uword fleet h w nf).2 = Ok ()) ∧
    plan_components uword fleet h plan = Ok components ∧
    (components = [] ∨ bw_components w = Ok ()) ∧
    build_steps i fleet facts plan = Ok steps ∧
    (build_boxes uword fleet h w i facts names force).1 =
      preflight (needs_exporter_binary roles) plan components
      ++ OpRun steps :: match bw_run w with Ok _ => [OpCollect] | Err _ => [] end.
Proof.
  intros Hin. unfold build_boxes in *. 
  apply elem_of_then in Hin as [Hin|([] & Hv & Hin)]; [by apply list_elem_of_singleton in Hin|].
  apply elem_of_then in Hin as [Hin|([] & Hr & Hin)]; [by apply list_elem_of_singleton in Hin|].
  apply elem_of_then in Hin as [Hin|(plan & Hp & Hin)]; [by apply elem_of_nil in Hin|].
  apply elem_of_then in Hin as [Hin|(roles & Hro & Hin)]; [by apply elem_of_nil in Hin|].
  apply elem_of_then in Hin as [Hin|([] & He & Hin)].
  { destruct (needs_exporter_binary roles); [by apply list_elem_of_singleton in Hin|by apply elem_of_nil in Hin]. }
  apply elem_of_then in Hin as [Hin|([] & Hd & Hin)].
  { apply elem_of_each in Hin as (nf & _ & Hin). by apply verify_dvd_ops in Hin. }
  apply elem_of_then in Hin as [Hin|(steps' & Hs & Hin)]; [by apply elem_of_nil in Hin|].
  apply elem_of_then in Hin as [Hin|([] & Hc & Hin)].
  { unfold ensure_component_artifacts in Hin. exfalso.
    apply elem_of_then in Hin as [Hin|([|c cs] & _ & Hin)];
      [by apply elem_of_nil in Hin|by apply elem_of_nil in Hin|by apply list_elem_of_singleton in Hin]. }
  assert (steps' = steps) as ->.
  { apply elem_of_then in Hin as [Hin|(? & _ & Hin)]; [|by apply list_elem_of_singleton in Hin].
    apply list_elem_of_singleton in Hin. by injection Hin as ->. }
  destruct (each_Ok _ _ Hd) as [Hdt Hdv].
  apply then_Ok in Hc as (cs & Hcs & Hcw). exists plan, roles, cs. cbn [quiet snd] in Hp, Hro, Hs, Hcs.
  split_and!; [done|done|exact Hdv|done|destruct cs; [by left|by right]|done|].
  rewrite (then_trace_Ok _ _ _ Hv), (then_trace_Ok _ _ _ Hr).
  rewrite (then_trace_Ok (quiet _) _ plan Hp), (then_trace_Ok (quiet _) _ roles Hro), (then_trace_Ok _ _ _ He).
  rewrite (then_trace_Ok _ _ _ Hd), Hdt, (then_trace_Ok (quiet _) _ steps Hs).
  rewrite (then_trace_Ok (ensure_component_artifacts _ _ _ _ _) _ ()).
  2:{ unfold ensure_component_artifacts. apply then_Ok. by exists cs. }
  unfold ensure_component_artifacts. rewrite (then_trace_Ok (quiet _) _ cs Hcs), then_trace.
  unfold preflight. cbn [quiet emit fst snd app]. f_equal. f_equal. rewrite <-!app_assoc.
  f_equal; [by destruct (needs_exporter_binary roles)|]. f_equal. destruct cs, (bw_run w); done.
Qed.

(** A build never starts a builder before its checks: when the builders run, the plan was
    made, none of its boxes is pinned to another architecture, the DVD of every base box
    about to be built was verified, the components of every box about to bake were built, and
    the exporter when a box bakes it; the builders run once, as one run over the plan in its
    order, each with the flags of its box; and only a run that succeeded collects. *)
Theorem build_checks_first i facts names force steps :
  OpRun steps ∈ (build_boxes uword fleet h w i facts names force).1 →
  ∃ plan pre post, build_plan uword fleet h names force = Ok plan ∧
    (build_boxes uword fleet h w i facts names force).1 = pre ++ OpRun steps :: post ∧
    (∀ l, OpRun l ∉ pre ++ post) ∧ (OpCollect ∈ post ↔ bw_run w = Ok ()) ∧
    st_label <$> steps = (λ nf, u "box " ++ nf.1) <$> plan ∧
    ∀ nf, nf ∈ plan → ∃ s, dget fleet nf.1 = Some s ∧
      (∀ pin, oe_arch_pin (bs_os s) = Some pin → pin = arch_name (hf_arch facts)) ∧
      (from_dvd nf → OpDvd nf.1 ∈ pre ∧ ∃ b, bw_dvd w (bs_os s) = Ok b) ∧
      (bakes uword fleet h nf.2 nf.1 = Ok true →
         ∀ c, c ∈ bs_components s → ∃ cs, OpComponents cs ∈ pre ∧ c ∈ cs ∧ bw_components w = Ok ()) ∧
      (bs_role s = Some (u "mq-client") → OpExporter ∈ pre).
Proof.
  intros Hin. destruct (build_boxes_runs _ _ _ _ _ Hin) as (plan & roles & cs & Hp & Hro & Hv & Hc & Hcw & Hs & Ht).
  exists plan, (preflight (needs_exporter_binary roles) plan cs), (match bw_run w with Ok _ => [OpCollect] | Err _ => [] end).
  split_and!; [done|exact Ht| | | |].
  - intros l [Hl|Hl]%elem_of_app.
    + apply elem_of_preflight in Hl as [?|[?|[[? _]|[(nf & _ & ?%verify_dvd_ops)|[? _]]]]]; done.
    + destruct (bw_run w); [by apply list_elem_of_singleton in Hl|by apply elem_of_nil in Hl].
  - destruct (bw_run w) as [[]|]; [split; [done|intros _; by left]|split; [by intros ?%elem_of_nil|done]].
  - eapply build_steps_labels; exact Hs.
  - intros nf Hnf. unfold build_steps in Hs.
    destruct (res_mapM_image _ _ _ _ Hs Hnf) as (st & _ & (s & Hget & Hpin & _)%box_step_Ok).
    exists s. split_and!; [done|done| | |].
    + intros Hd. destruct (verify_dvd_Ok _ _ (Hv _ Hnf) Hd Hget) as [Hb Ho]. split; [|done].
      apply elem_of_preflight. do 3 right. left. by exists nf.
    + intros Hb c Hcin. unfold plan_components in Hc. res_inv. subst cs. rename x into l.
      match goal with H : res_mapM _ _ = Ok l |- _ => destruct (res_mapM_image _ _ _ _ H Hnf) as (ys & Hys & Hf) end.
      rewrite Hget in Hf. cbn [of_option mbind res_bind] in Hf.
      assert (ys = bs_components s) as ->.
      { destruct (bs_components s); [by injection Hf as <-|]. rewrite Hb in Hf. by injection Hf as <-. }
      assert (c ∈ uniq (mjoin l)) as Hin' by (apply elem_of_uniq, list_elem_of_join; by exists (bs_components s)).
      exists (uniq (mjoin l)). split_and!; [|done|].
      * apply elem_of_preflight. do 4 right. split; [done|]. intros Hnil. rewrite Hnil in Hin'. by apply elem_of_nil in Hin'.
      * destruct Hcw as [Hnil|]; [|done]. rewrite Hnil in Hin'. by apply elem_of_nil in Hin'.
    + intros Hrole. apply elem_of_preflight. do 2 right. left. split; [done|].
      unfold plan_roles in Hro. destruct (res_mapM_image _ _ _ _ Hro Hnf) as (o & Ho & Hf).
      rewrite Hget in Hf. cbn [of_option mbind res_bind] in Hf. injection Hf as <-.
      unfold needs_exporter_binary. apply existsb_exists. exists (bs_role s). split; [by apply list_elem_of_In|].
      by rewrite Hrole.
Qed.
End safety.

(** ** Witnesses *)

Definition demo_roles : list (text * gset text) :=
  [(u "pcmk-ubuntu", {[ u "mq-rdqm" ]}); (u "rdqm-rhel", {[ u "mq-rdqm" ]})].

Definition demo_fleet : list (text * BoxSpec) :=
  match build_fleet demo_x86 demo_catalog demo_roles with Ok f => f | Err _ => [] end.

Lemma fleet_covers_builds_witness :
  ∃ names, boxes_for_build (mk_build None) demo_x86 demo_catalog demo_roles = Ok names ∧
    u "mq-rdqm-rhel9" ∈ names ∧
    ∃ s, dget demo_fleet (u "mq-rdqm-rhel9") = Some s ∧ fleet_box demo_catalog demo_x86 s (u "mq-rdqm-rhel9").
Proof.
  destruct (boxes_for_build (mk_build None) demo_x86 demo_catalog demo_roles) as [names|e] eqn:Hn; [|by vm_compute in Hn].
  destruct (build_fleet demo_x86 demo_catalog demo_roles) as [fleet|e] eqn:Hf; [|by vm_compute in Hf].
  destruct (fleet_covers_builds demo_catalog demo_x86 demo_roles fleet (mk_build None) names demo_catalog_ok Hf Hn)
    as (_ & Hall & _).
  assert (u "mq-rdqm-rhel9" ∈ names) as Hin
    by (vm_compute in Hn; injection Hn as <-; apply (bool_decide_unpack _); by vm_compute).
  exists names. split_and!; [done..|]. destruct (Hall _ Hin) as (s & Hs & _ & Hb). exists s.
  split; [|done]. unfold demo_fleet. by rewrite Hf.
Defined.

Definition demo_host : BoxHost :=
  mk_box_host (λ n, if bool_decide (n = u "mq-rdqm-rhel9") then u "STALE: the cache is 120d old, rebuilding"
                    else if bool_decide (n = u "rhel9") then u "BUILD: no cached box" else u "REUSE") ∅ [].

Lemma build_plan_exact_witness :
  ∃ plan, build_plan (λ _, false) demo_fleet demo_host [u "mq-rdqm-rhel9"; u "obs-ubuntu24"] false = Ok plan ∧
    plan = [(u "rhel9", false); (u "mq-rdqm-rhel9", false); (u "obs-ubuntu24", false)] ∧
    NoDup plan.*1.
Proof.
  eexists. split; [by vm_compute|]. split; [by vm_compute|].
  apply (build_plan_exact (λ _, false) demo_fleet demo_host [u "mq-rdqm-rhel9"; u "obs-ubuntu24"] false).
  by vm_compute.
Defined.

Lemma named_base_keeps_its_place_witness :
  build_plan (λ _, false) demo_fleet demo_host [u "mq-rdqm-rhel9"; u "rhel9"] false =
    Ok [(u "mq-rdqm-rhel9", false); (u "rhel9", false)].
Proof.
  destruct (dget demo_fleet (u "mq-rdqm-rhel9")) as [s|] eqn:Hs; [|by vm_compute in Hs].
  apply (named_base_keeps_its_place (λ _, false) demo_fleet demo_host _ _ _ s); [by vm_compute|done| | | |by vm_compute].
  - vm_compute in Hs. by injection Hs as <-.
  - by vm_compute.
  - intros sb Hsb. vm_compute in Hsb. by injection Hsb as <-.
Defined.

Definition demo_world : BuildWorld := mk_world (Ok ()) (Ok ()) (Ok ()) (λ _, Ok true) (Ok ()) (Ok ()).
Definition demo_input : BuilderInput :=
  mk_binput (u "/lab") (Some demo_topo) (λ _, Some (u "f00d")) (u "/lab/build/install-vars.json").

Lemma build_checks_first_witness :
  ∃ steps, OpRun steps ∈ (build_boxes (λ _, false) demo_fleet demo_host demo_world demo_input demo_x86
      [u "mq-rdqm-rhel9"] false).1 ∧
    st_label <$> steps = [u "box rhel9"; u "box mq-rdqm-rhel9"] ∧
    ∃ pre post, (build_boxes (λ _, false) demo_fleet demo_host demo_world demo_input demo_x86
      [u "mq-rdqm-rhel9"] false).1 = pre ++ OpRun steps :: post ∧ OpDvd (u "rhel9") ∈ pre.
Proof.
  destruct (build_steps demo_input demo_fleet demo_x86 [(u "rhel9", false); (u "mq-rdqm-rhel9", false)])
    as [steps|e] eqn:Hst; [|by vm_compute in Hst].
  assert (OpRun steps ∈ (build_boxes (λ _, false) demo_fleet demo_host demo_world demo_input demo_x86
      [u "mq-rdqm-rhel9"] false).1) as Hin.
  { assert ((build_boxes (λ _, false) demo_fleet demo_host demo_world demo_input demo_x86 [u "mq-rdqm-rhel9"] false).1 =
      [OpVenv; OpResolve; OpDvd (u "rhel9"); OpRun steps; OpCollect]) as ->
      by (vm_compute in Hst; injection Hst as <-; by vm_compute).
    by do 3 right; left. }
  destruct (build_checks_first _ _ _ _ _ _ _ _ _ Hin) as (plan & pre & post & Hp & Ht & _ & _ & Hl & Hall).
  assert (plan = [(u "rhel9", false); (u "mq-rdqm-rhel9", false)]) as -> by (vm_compute in Hp; by injection Hp as <-).
  exists steps. split_and!; [done|by rewrite Hl|]. exists pre, post. split; [exact Ht|].
  destruct (Hall (u "rhel9", false)) as (s & _ & _ & Hd & _); [by left|]. apply Hd. by vm_compute.
Defined.
