(* ===== verification/BoxGc.v ===== *)
(** * Reclaiming the base images of boxes

    Models the reclaiming half of mqlab/box.py: the scan of the libvirt pool, the garbage
    collection of orphaned base images. What virsh prints and the store of registered boxes
    are inputs; the deletions are the trace. *)

From S2P Require Import Prelude PyText PyCodec PyDict PyFloat Trace Orchestrator Topology Hostfacts Versions VersionsLoad Stacks Platforms Boxes.

#[local] Open Scope trace_scope.

Inductive GcError :=
  | PoolAbsent (msg : text) | VolumeVanished (msg : text) | VirshFailed (msg : text)
  | IntTooLong                     (* ValueError *)
  | RemoveFailed (code : Z)        (* typer.Exit *)
  | UnknownBox (name : text).      (* KeyError *)

(** ** virsh *)

(** An exit code and the output. *)
Definition Ran : Type := (Z * text)%type.

Definition POOL_ABSENT_MARKERS : list text := [u "storage pool not found"; u "no storage pool with matching name"].
Definition VOLUME_VANISHED_MARKERS : list text := [u "storage volume not found"; u "no storage vol with matching"].

Definition failed_msg (what : text) (rc : Z) (out : text) : text :=
  u "virsh " ++ what ++ u " failed (rc=" ++ Z_text rc ++ u "): " ++ out.

(** One line of the Name/Path table. *)
Definition volume_line (raw : text) : option text :=
  let line := strip raw in
  if bool_decide (line = []) || startswith line (u "Name") || forallb (N.eqb 45) line then None
  else head (split_ws line).

(** The place where a text matches at the start of [s]: what [f] reads there, leftmost. *)
Fixpoint search {A} (f : text → option A) (s : text) : option A :=
  match f s with
  | Some a => Some a
  | None => match s with [] => None | _ :: s' => search f s' end
  end.

(** [open], a run of characters, [close]. *)
Definition enclosed (p : N → bool) (open close s : text) : option text :=
  if startswith s open then
    let '(v, r) := span p (drop (length open) s) in
    if negb (bool_decide (v = [])) && startswith r close then Some v else None
  else None.

Definition allocation_of (xml : text) : option text :=
  search (enclosed re_digit (u "<allocation unit='bytes'>") (u "</allocation>")) xml.

Definition backing_of (xml : text) : option text :=
  i ← find_sub (u "<backingStore>") xml;
  search (enclosed (λ c, negb (c =? 60)%N) (u "<path>") (u "</path>")) (drop (i + 14) xml).

(** [Path(s).name]. *)
Definition path_basename (s : text) : text :=
  default [] (last (filter (λ p, p ≠ [] ∧ p ≠ u ".") (split_on 47 s))).

(** [.+] of a pattern. *)
Definition dot_plus (s : text) : bool := negb (bool_decide (s = [])) && negb (bool_decide (10%N ∈ s)).

(** [_BOX_IMAGE_RE]: the stem and the digits of the import time. *)
Definition box_image (name : text) : option (text * text) :=
  r ← strip_suffix (u "_box.img") (drop_newline name);
  let '(d, r) := span re_digit (rev r) in
  if bool_decide (d = []) then None else
    stem ← strip_suffix (u "_vagrant_box_image_0_") (rev r);
    if dot_plus stem then Some (stem, rev d) else None.

Section virsh.
Context (lower : text → text).

Definition has_marker (markers : list text) (out : text) : bool := existsb (contains (lower out)) markers.

(** [_pool_volume_names]. *)
Definition pool_volume_names (pool : text) (ran : Ran) : res GcError (list text) :=
  let '(rc, out) := ran in
  if (rc =? 0)%Z then Ok (omap volume_line (splitlines out))
  else let msg := failed_msg (u "vol-list --pool " ++ pool) rc out in
       Err (if has_marker POOL_ABSENT_MARKERS out then PoolAbsent msg else VirshFailed msg).

(** [_vol_detail]. *)
Definition vol_detail (pool name : text) (ran : Ran) : res GcError (Z * option text) :=
  let '(rc, xml) := ran in
  if (rc =? 0)%Z then
    alloc ← match allocation_of xml with
            | Some d => of_option IntTooLong (int_of_text d)
            | None => Ok 0%Z
            end;
    Ok (alloc, path_basename ∘ strip <$> backing_of xml)
  else let msg := failed_msg (u "vol-dumpxml " ++ name ++ u " --pool " ++ pool) rc xml in
       Err (if has_marker VOLUME_VANISHED_MARKERS xml then VolumeVanished msg else VirshFailed msg).

(** [_vol_delete], on how the command ended. *)
Definition vol_delete (name : text) (ran : Ran) : res GcError () :=
  let '(rc, out) := ran in
  if (rc =? 0)%Z || contains (lower out) (u "not found") || contains (lower out) (u "no storage vol") then Ok ()
  else Err (VirshFailed (u "virsh vol-delete " ++ name ++ u " failed (rc=" ++ Z_text rc ++ u "): " ++ out)).

(** What virsh answers. *)
Record Virsh := mk_virsh { vi_list : Ran; vi_xml : text → Ran; vi_delete : text → Ran }.

(** ** The scan of the pool *)

Record PoolScan := mk_scan {
  sc_names : list text; sc_alloc : list (text * Z); sc_in_use : list text; sc_vanished : list text
}.

Definition scan_volume (v : Virsh) (pool : text) (s : PoolScan) (name : text) : res GcError PoolScan :=
  match vol_detail pool name (vi_xml v name) with
  | Ok (alloc, backing) =>
      Ok (mk_scan (sc_names s ++ [name]) (dset (sc_alloc s) name alloc)
            (match or_none backing with Some b => add_new (sc_in_use s) b | None => sc_in_use s end)
            (sc_vanished s))
  | Err (VolumeVanished _) => Ok (mk_scan (sc_names s) (sc_alloc s) (sc_in_use s) (sc_vanished s ++ [name]))
  | Err e => Err e
  end.

Definition scan_pool (v : Virsh) (pool : text) : res GcError PoolScan :=
  names ← pool_volume_names pool (vi_list v);
  res_foldM (scan_volume v pool) (mk_scan [] [] [] []) names.

(** [box_images]: per stem, the import time and the name. *)
Definition add_image (d : list (text * list (Z * text))) (name : text) :
    res GcError (list (text * list (Z * text))) :=
  match box_image name with
  | None => Ok d
  | Some (stem, ts) =>
      t ← of_option IntTooLong (int_of_text ts);
      Ok (dset d stem (dget_or d stem [] ++ [(t, name)]))
  end.
Definition box_images (s : PoolScan) : res GcError (list (text * list (Z * text))) :=
  res_foldM add_image [] (sc_names s).

Definition in_use_stems (s : PoolScan) : list text := omap (λ i, fst <$> box_image i) (sc_in_use s).

(** ** The registered boxes' current images *)

(** A directory of the box store: its name, and the box.img files under its version 0 with
    the name of the directory that holds each and its mtime in whole seconds. *)
Record BoxDir := mk_boxdir { xd_name : text; xd_images : option (list (text * Z)) }.

Definition volume_of (dir : text) (mtime : Z) : text :=
  dir ++ u "_vagrant_box_image_0_" ++ Z_text mtime ++ u "_box.img".

Definition add_current (dir : text) (cur : list (text * list text)) (img : text * Z) : list (text * list text) :=
  if bool_decide (img.1 = u "libvirt")
  then dset cur dir (add_new (dget_or cur dir []) (volume_of dir img.2)) else cur.

(** [_current_box_volumes]: [None] when the store does not exist. *)
Definition current_box_volumes (store : option (list BoxDir)) : list (text * list text) :=
  foldl (λ cur d, foldl (add_current (xd_name d)) cur (default [] (xd_images d))) [] (default [] store).

(** ** The collection *)

Record GcResult := mk_gc {
  g_deleted : list text; g_freed : Z; g_kept : list text; g_skipped : list text; g_dry_run : bool;
  g_vanished : list text; g_absent_pool : option text
}.

(** Ascending by import time, then by name. *)
Definition image_leb (a b : Z * text) : bool :=
  if (a.1 =? b.1)%Z then text_leb a.2 b.2 else (a.1 <? b.1)%Z.

Definition keep_set (dead : list text) (current : list (text * list text)) (stem : text)
    (images : list (Z * text)) : list text :=
  if bool_decide (stem ∈ dead) then []
  else match dget current stem with
       | Some names => filter (λ n, n ∈ names) images.*2
       | None => match last images with Some i => [i.2] | None => [] end
       end.

(** One image of the inner loop. *)
Definition gc_image (v : Virsh) (dry_run : bool) (s : PoolScan) (keep : list text) (r : GcResult)
    (img : Z * text) : traced text GcError GcResult :=
  let name := img.2 in
  if bool_decide (name ∈ keep) then
    quiet (Ok (mk_gc (g_deleted r) (g_freed r) (g_kept r ++ [name]) (g_skipped r) dry_run (g_vanished r) None))
  else if bool_decide (name ∈ sc_in_use s) then
    quiet (Ok (mk_gc (g_deleted r) (g_freed r) (g_kept r) (g_skipped r ++ [name]) dry_run (g_vanished r) None))
  else
    let* _ := if dry_run then quiet (Ok ()) else emit name (vol_delete name (vi_delete v name)) in
    quiet (Ok (mk_gc (g_deleted r ++ [name]) (g_freed r + dget_or (sc_alloc s) name 0%Z)%Z (g_kept r)
                 (g_skipped r) dry_run (g_vanished r) None)).

(** One stem of the outer loop. *)
Definition gc_stem (v : Virsh) (dry_run : bool) (s : PoolScan) (dead : list text)
    (current : list (text * list text)) (r : GcResult) (si : text * list (Z * text)) :
    traced text GcError GcResult :=
  let images := isort image_leb si.2 in
  fold_trace (gc_image v dry_run s (keep_set dead current si.1 images)) r images.

Definition retired_stems (retired : list text) : list text := replace_char 47 (u "-VAGRANTSLASH-") <$> retired.

(** [gc_orphaned_images]. *)
Definition gc_orphaned_images (v : Virsh) (store : option (list BoxDir)) (retired : list text) (dry_run : bool)
    (pool : text) (dead_stems : list text) : traced text GcError GcResult :=
  let current := current_box_volumes store in
  let dead := retired_stems retired ++ dead_stems in
  match scan_pool v pool with
  | Err (PoolAbsent _) => quiet (Ok (mk_gc [] 0 [] [] dry_run [] (Some pool)))
  | Err e => quiet (Err e)
  | Ok s =>
      let* images := quiet (box_images s) in
      fold_trace (gc_stem v dry_run s dead current) (mk_gc [] 0 [] [] dry_run (sc_vanished s) None)
        (isort (λ a b, text_leb a.1 b.1) images)
  end.
End virsh.

(** ** What a collection decides *)

Section collection.
Context (lower : text → text) (v : Virsh) (dry_run : bool) (s : PoolScan) (dead : list text)
  (current : list (text * list text)).

(** An image with the set kept of its stem. *)
Definition item : Type := (list text * (Z * text))%type.

Definition item_name (i : item) : text := i.2.2.
Definition deletes (i : item) : bool :=
  bool_decide (item_name i ∉ i.1) && bool_decide (item_name i ∉ sc_in_use s).
Definition keeps (i : item) : bool := bool_decide (item_name i ∈ i.1).
Definition skips (i : item) : bool :=
  bool_decide (item_name i ∉ i.1) && bool_decide (item_name i ∈ sc_in_use s).

Definition names_where (p : item → bool) (l : list item) : list text := item_name <$> filter (λ i, p i = true) l.

(** The items in the order of the two loops. *)
Definition items (d : list (text * list (Z * text))) : list item :=
  isort (λ a b, text_leb a.1 b.1) d ≫= λ si,
    let images := isort image_leb si.2 in
    (λ img, (keep_set dead current si.1 images, img)) <$> images.

Lemma collection_loop d r :
  fold_trace (gc_stem lower v dry_run s dead current) r (isort (λ a b, text_leb a.1 b.1) d) =
  fold_trace (λ r (i : item), gc_image lower v dry_run s i.1 r i.2) r (items d).
Proof.
  unfold items. rewrite <-fold_trace_bind. apply fold_trace_ext. intros r' si. unfold gc_stem.
  by rewrite fold_trace_fmap.
Qed.

Definition freed (l : list item) : Z := sumZ ((λ n, dget_or (sc_alloc s) n 0%Z) <$> names_where deletes l).

Definition outcome_of_items (vanished : list text) (l : list item) : GcResult :=
  mk_gc (names_where deletes l) (freed l) (names_where keeps l) (names_where skips l) dry_run vanished None.

Lemma names_where_snoc p l i :
  names_where p (l ++ [i]) = names_where p l ++ if p i then [item_name i] else [].
Proof.
  unfold names_where. rewrite filter_app, fmap_app. f_equal. rewrite filter_cons, filter_nil.
  destruct (p i); [by rewrite decide_True by done|by rewrite decide_False by done].
Qed.

Lemma sumZ_snoc l z : sumZ (l ++ [z]) = (sumZ l + z)%Z.
Proof. rewrite sumZ_app. cbn. lia. Qed.

(** One image: by its verdict. *)
Lemma gc_image_outcome vanished seen (i : item) :
  let m := gc_image lower v dry_run s i.1 (outcome_of_items vanished seen) i.2 in
  if deletes i
  then m.1 = (if dry_run then [] else [item_name i]) ∧
       match m.2 with
       | Ok r => r = outcome_of_items vanished (seen ++ [i])
       | Err e => dry_run = false ∧ ∃ msg, e = VirshFailed msg
       end
  else m = ([], Ok (outcome_of_items vanished (seen ++ [i]))).
Proof.
  cbv zeta. unfold gc_image, outcome_of_items, freed. fold (item_name i). rewrite !names_where_snoc.
  assert (deletes i = negb (keeps i) && negb (bool_decide (item_name i ∈ sc_in_use s)) ∧
    skips i = negb (keeps i) && bool_decide (item_name i ∈ sc_in_use s)) as [-> ->]
    by (unfold deletes, skips, keeps; by rewrite !bool_decide_not).
  unfold keeps. destruct (bool_decide (item_name i ∈ i.1)); cbn [negb andb]; [by rewrite !app_nil_r|].
  destruct (bool_decide (item_name i ∈ sc_in_use s)); cbn [negb]; [by rewrite !app_nil_r|].
  rewrite !app_nil_r, fmap_app. cbn [fmap list_fmap]. rewrite sumZ_snoc.
  destruct dry_run; [by split|]. unfold then_, emit, quiet. cbn [fst snd].
  unfold vol_delete. destruct (vi_delete v (item_name i)) as [rc out].
  destruct (_ || _ || _); [by split|]. split; [done|]. split; [done|by eexists].
Qed.

(** The loop does what the verdicts say; when a deletion fails, it has asked for the
    deletions up to that one. *)
Lemma collection_run vanished l :
  let run := fold_trace (λ r (i : item), gc_image lower v dry_run s i.1 r i.2) (mk_gc [] 0 [] [] dry_run vanished None) l in
  match run.2 with
  | Ok r => r = outcome_of_items vanished l ∧ run.1 = if dry_run then [] else names_where deletes l
  | Err e => dry_run = false ∧ (∃ msg, e = VirshFailed msg) ∧
      ∃ seen rest, l = seen ++ rest ∧ run.1 = names_where deletes seen
  end.
Proof.
  cbv zeta.
  opose proof (fold_trace_ind (λ r (i : item), gc_image lower v dry_run s i.1 r i.2)
    (λ seen r tr, r = outcome_of_items vanished seen ∧ tr = if dry_run then [] else names_where deletes seen)
    (mk_gc [] 0 [] [] dry_run vanished None) l _ _) as Hind.
  - split; [done|]. by destruct dry_run.
  - intros seen i rest r tr r' _ [-> ->] Hr. pose proof (gc_image_outcome vanished seen i) as Ho. cbv zeta in Ho.
    rewrite names_where_snoc. destruct (deletes i) eqn:Hd.
    + destruct Ho as [Ht Ho]. rewrite Hr in Ho. split; [done|]. rewrite Ht. by destruct dry_run.
    + rewrite Ho in Hr |- *. cbn [snd fst] in *. injection Hr as <-. split; [done|]. rewrite !app_nil_r. done.
  - destruct (_.2) as [r|e]; [exact Hind|]. destruct Hind as (seen & i & rest & r1 & tr & Hl & [-> ->] & He & Ht).
    pose proof (gc_image_outcome vanished seen i) as Ho. cbv zeta in Ho. destruct (deletes i) eqn:Hd.
    + destruct Ho as [Ht' Ho]. rewrite He in Ho. destruct Ho as [-> Hm]. split_and!; [done..|].
      exists (seen ++ [i]), rest. rewrite <-app_assoc. split; [done|]. by rewrite Ht, Ht', names_where_snoc, Hd.
    + rewrite Ho in He. discriminate He.
Qed.
End collection.

(** ** The images of the pool *)

(** The image a volume is of a stem. *)
Definition stem_image (stem n : text) : option (Z * text) :=
  '(st, ds) ← box_image n; if bool_decide (st = stem) then t ← int_of_text ds; Some (t, n) else None.

Lemma stem_image_name stem n t n' : stem_image stem n = Some (t, n') → n' = n.
Proof.
  unfold stem_image. destruct (box_image n) as [[st ds]|]; [|done]. cbn.
  case_bool_decide; [|done]. destruct (int_of_text ds); [|done]. by intros [= _ ->].
Qed.

Lemma stem_image_stem stem stem' n i i' : stem_image stem n = Some i → stem_image stem' n = Some i' → stem = stem'.
Proof.
  unfold stem_image. destruct (box_image n) as [[st ds]|]; [|done]. cbn. repeat case_bool_decide; by subst.
Qed.

(** The dictionary holds, per stem, its images in the order of the pool. *)
Lemma box_images_spec names d :
  res_foldM add_image [] names = Ok d →
  dict_wf d ∧ ∀ stem, dget d stem =
    match omap (stem_image stem) names with [] => None | l => Some l end.
Proof.
  revert d. induction names as [|n names IH] using rev_ind; intros d Hd.
  { injection Hd as <-. split; [constructor|done]. }
  rewrite res_foldM_app in Hd. apply bind_Ok in Hd as (d0 & Hd0 & Hd). destruct (IH d0 Hd0) as [Hwf Hget]. clear IH.
  apply bind_Ok in Hd as (d1 & Hd & [= ->]). unfold add_image in Hd.
  destruct (box_image n) as [[st ds]|] eqn:Hn; cycle 1.
  - injection Hd as <-. split; [done|]. intros stem. rewrite Hget, omap_app. cbn [omap list_omap].
    assert (stem_image stem n = None) as -> by (unfold stem_image; by rewrite Hn). by rewrite app_nil_r.
  - apply bind_Ok in Hd as (t & Ht%of_option_Ok & [= <-]). split; [by apply dset_wf|]. intros stem.
    rewrite dget_dset, omap_app. cbn [omap list_omap]. unfold stem_image at 2. rewrite Hn. cbn [mbind option_bind].
    case_decide as Hst.
    + subst stem. rewrite bool_decide_eq_true_2, Ht by done. cbn. unfold dget_or. rewrite Hget.
      by destruct (omap (stem_image st) names).
    + rewrite bool_decide_eq_false_2 by done. by rewrite app_nil_r, Hget.
Qed.

Definition newest (names : list text) (stem : text) (i : Z * text) : Prop :=
  ∀ n' i', n' ∈ names → stem_image stem n' = Some i' → image_leb i' i = true.

(** An image the collection must keep. *)
Definition wanted (names dead : list text) (current : list (text * list text)) (n : text) : Prop :=
  ∃ stem i, stem_image stem n = Some i ∧ (stem ∉ dead) ∧
    match dget current stem with Some c => n ∈ c | None => newest names stem i end.

Definition is_image (n : text) : Prop := ∃ stem i, stem_image stem n = Some i.

(** What it may reclaim. *)
Definition reclaimable (s : PoolScan) (dead : list text) (current : list (text * list text)) (n : text) : Prop :=
  n ∈ sc_names s ∧ is_image n ∧ ¬ wanted (sc_names s) dead current n ∧ n ∉ sc_in_use s.

Lemma image_leb_total a b : image_leb a b = true ∨ image_leb b a = true.
Proof.
  unfold image_leb. destruct (Z.eqb_spec a.1 b.1) as [H|H], (Z.eqb_spec b.1 a.1); try lia. apply text_leb_total.
Qed.
Lemma image_leb_trans a b c : image_leb a b = true → image_leb b c = true → image_leb a c = true.
Proof.
  unfold image_leb. destruct (Z.eqb_spec a.1 b.1), (Z.eqb_spec b.1 c.1), (Z.eqb_spec a.1 c.1);
    rewrite ?Z.ltb_lt; try lia; apply text_leb_trans.
Qed.
Lemma image_leb_antisym a b : image_leb a b = true → image_leb b a = true → a = b.
Proof.
  unfold image_leb. destruct a as [t n], b as [t' n']. cbn [fst snd].
  destruct (Z.eqb_spec t t'), (Z.eqb_spec t' t); rewrite ?Z.ltb_lt; try lia. subst.
  intros H1 H2. f_equal. by apply text_leb_antisym.
Qed.

(** The last of a sorted list is above all. *)
Lemma sorted_last l i : last (isort image_leb l) = Some i → ∀ j, j ∈ l → image_leb j i = true.
Proof.
  intros Hl j Hj. assert (StronglySorted image_leb (isort image_leb l)) as Hs.
  { apply (isort_StronglySorted _ (λ _, True)); [intros; apply image_leb_total|eauto using image_leb_trans|by apply Forall_true]. }
  rewrite <-(elem_of_isort image_leb) in Hj. revert Hl Hj Hs. generalize (isort image_leb l). clear l.
  intros l. rewrite last_Some. intros [l' ->] [Hj|Hj%list_elem_of_singleton]%elem_of_app Hs.
  - apply Is_true_true. eapply (StronglySorted_app_1_elem_of image_leb); [exact Hs|done|by left].
  - subst. by destruct (image_leb_total i i).
Qed.

(** ** The items of a scan *)

Section items.
Context (s : PoolScan) (dead : list text) (current : list (text * list text)) (d : list (text * list (Z * text)))
  (Hd : box_images s = Ok d).

Lemma elem_of_stem stem l : (stem, l) ∈ d ↔ l ≠ [] ∧ l = omap (stem_image stem) (sc_names s).
Proof.
  destruct (box_images_spec _ _ Hd) as [Hwf Hget]. split.
  - intros Hin%elem_dget; [|done]. rewrite Hget in Hin. by destruct (omap _ _); simplify_eq.
  - intros [Hne ->]. apply dget_elem. rewrite Hget. by destruct (omap _ _).
Qed.

(** The item of an image. *)
Definition item_of (stem : text) (i : Z * text) : item :=
  (keep_set dead current stem (isort image_leb (omap (stem_image stem) (sc_names s))), i).

Lemma elem_of_items k :
  k ∈ items dead current d ↔
    ∃ stem n i, n ∈ sc_names s ∧ stem_image stem n = Some i ∧ k = item_of stem i.
Proof.
  unfold items. rewrite list_elem_of_bind. split.
  - intros ([stem l] & Hk & Hin). rewrite elem_of_isort in Hin. apply elem_of_stem in Hin as [_ ->].
    apply list_elem_of_fmap in Hk as (i & -> & Hi). cbn [fst snd] in *.
    rewrite elem_of_isort, list_elem_of_omap in Hi. destruct Hi as (n & Hn & Hi). by exists stem, n, i.
  - intros (stem & n & i & Hn & Hi & ->). exists (stem, omap (stem_image stem) (sc_names s)).
    assert (i ∈ omap (stem_image stem) (sc_names s)) as Hin by (apply list_elem_of_omap; by exists n).
    split.
    + apply list_elem_of_fmap. exists i. split; [done|]. by rewrite elem_of_isort.
    + rewrite elem_of_isort. apply elem_of_stem. split; [|done]. intros Hnil. rewrite Hnil in Hin. by apply elem_of_nil in Hin.
Qed.

(** An image is kept exactly when it is wanted. *)
Lemma keeps_wanted stem n i :
  n ∈ sc_names s → stem_image stem n = Some i →
  keeps (item_of stem i) = true ↔ wanted (sc_names s) dead current n.
Proof.
  intros Hn Hi. unfold keeps, item_name, item_of. cbn [fst snd]. rewrite bool_decide_eq_true.
  assert (i.2 = n) as Hin by (destruct i; by apply stem_image_name in Hi).
  set (l := omap (stem_image stem) (sc_names s)).
  assert (∀ j, j ∈ l ↔ ∃ n', n' ∈ sc_names s ∧ stem_image stem n' = Some j) as Hl by (intros; apply list_elem_of_omap).
  assert (i ∈ l) as Hil by (apply Hl; by exists n).
  assert (wanted (sc_names s) dead current n ↔ (stem ∉ dead) ∧
    match dget current stem with Some c => n ∈ c | None => newest (sc_names s) stem i end) as ->.
  { split; [|intros Hw; by exists stem, i].
    intros (st & j & Hj & Hw). assert (st = stem) as -> by (by eapply stem_image_stem). by simplify_eq. }
  unfold keep_set. case_bool_decide as Hdead; [split; [by intros ?%elem_of_nil|tauto]|].
  rewrite Hin. destruct (dget current stem) as [c|].
  - rewrite list_elem_of_filter. split; [tauto|]. intros [_ Hc]. split; [done|].
    apply list_elem_of_fmap. exists i. by rewrite elem_of_isort.
  - destruct (last (isort image_leb l)) as [m|] eqn:Hm; cycle 1.
    { apply last_None in Hm. rewrite <-(elem_of_isort image_leb), Hm in Hil. by apply elem_of_nil in Hil. }
    pose proof (sorted_last _ _ Hm) as Hmax.
    assert (m ∈ l) as Hml by (rewrite <-(elem_of_isort image_leb); by apply last_Some_elem_of).
    rewrite list_elem_of_singleton. split.
    + intros Heq. split; [done|]. intros n' j Hn' Hj.
      assert (m = i) as <-; [|apply Hmax, Hl; by exists n'].
      apply Hl in Hml as (n'' & Hn'' & Hm'). assert (m.2 = n'') by (destruct m; by apply stem_image_name in Hm').
      assert (n'' = n) as -> by congruence. congruence.
    + intros [_ Hnew]. assert (m = i) as ->; [|done].
      apply image_leb_antisym; [|by apply Hmax]. apply Hl in Hml as (n'' & Hn'' & Hm'). by eapply Hnew.
Qed.

Lemma elem_of_names_where p n :
  n ∈ names_where p (items dead current d) ↔
    ∃ stem i, n ∈ sc_names s ∧ stem_image stem n = Some i ∧ p (item_of stem i) = true.
Proof.
  unfold names_where. rewrite list_elem_of_fmap. split.
  - intros (k & -> & [Hp Hk]%list_elem_of_filter). apply elem_of_items in Hk as (stem & n & i & Hn & Hi & ->).
    assert (item_name (item_of stem i) = n) as -> by (destruct i; by apply stem_image_name in Hi). by exists stem, i.
  - intros (stem & i & Hn & Hi & Hp). exists (item_of stem i).
    split; [destruct i; by apply stem_image_name in Hi|]. apply list_elem_of_filter. split; [done|].
    apply elem_of_items. by exists stem, n, i.
Qed.

Lemma verdicts n :
  (n ∈ names_where (deletes s) (items dead current d) ↔ reclaimable s dead current n) ∧
  (n ∈ names_where keeps (items dead current d) ↔ n ∈ sc_names s ∧ wanted (sc_names s) dead current n) ∧
  (n ∈ names_where (skips s) (items dead current d) ↔
     n ∈ sc_names s ∧ is_image n ∧ ¬ wanted (sc_names s) dead current n ∧ n ∈ sc_in_use s).
Proof.
  rewrite !elem_of_names_where. unfold reclaimable, is_image.
  assert (∀ stem i, n ∈ sc_names s → stem_image stem n = Some i →
    (keeps (item_of stem i) = true ↔ wanted (sc_names s) dead current n) ∧
    (deletes s (item_of stem i) = true ↔ ¬ wanted (sc_names s) dead current n ∧ n ∉ sc_in_use s) ∧
    (skips s (item_of stem i) = true ↔ ¬ wanted (sc_names s) dead current n ∧ n ∈ sc_in_use s)) as Hk.
  { intros stem i Hn Hi. pose proof (keeps_wanted stem n i Hn Hi) as Hk. split; [exact Hk|].
    assert (item_name (item_of stem i) = n) as Hname by (destruct i; by apply stem_image_name in Hi).
    unfold keeps in Hk. unfold deletes, skips. rewrite Hname in *.
    rewrite !andb_true_iff, !bool_decide_eq_true. rewrite bool_decide_eq_true in Hk. tauto. }
  split_and!; split.
  - intros (stem & i & Hn & Hi & Hp). apply (Hk stem i Hn Hi) in Hp as [? ?]. eauto 6.
  - intros (Hn & (stem & i & Hi) & ? & ?). exists stem, i. split_and!; [done..|]. by apply (Hk stem i Hn Hi).
  - intros (stem & i & Hn & Hi & Hp). split; [done|]. by apply (Hk stem i Hn Hi).
  - intros (Hn & Hw). destruct Hw as (stem & i & Hi & Hw). exists stem, i. split_and!; [done..|].
    apply (Hk stem i Hn Hi). by exists stem, i.
  - intros (stem & i & Hn & Hi & Hp). apply (Hk stem i Hn Hi) in Hp as [? ?]. eauto 6.
  - intros (Hn & (stem & i & Hi) & ? & ?). exists stem, i. split_and!; [done..|]. by apply (Hk stem i Hn Hi).
Qed.

Lemma names_NoDup p : NoDup (sc_names s) → NoDup (names_where p (items dead current d)).
Proof.
  intros Hnd. unfold names_where.
  apply (sublist_NoDup _ (item_name <$> items dead current d)); [|apply fmap_sublist, sublist_filter].
  destruct (box_images_spec _ _ Hd) as [Hwf _].
  assert (∀ si, si ∈ d → NoDup (snd <$> si.2)) as Hstem.
  { intros [stem l] Hin. apply elem_of_stem in Hin as [_ ->]. cbn [snd].
    clear -Hnd. induction (sc_names s) as [|n names IH]; [constructor|]. apply NoDup_cons in Hnd as [Hn Hnd].
    csimpl. destruct (stem_image stem n) as [[t n']|] eqn:Hi; [|by apply IH]. csimpl. apply NoDup_cons.
    split; [|by apply IH]. apply stem_image_name in Hi as ->. intros Hin. apply Hn.
    apply list_elem_of_fmap in Hin as ([t' n'] & -> & Hin). apply list_elem_of_omap in Hin as (n1 & Hn1 & Hi).
    by apply stem_image_name in Hi as ->. }
  apply NoDup_fmap_2_strong.
  - intros k1 k2 Hk1 Hk2 Heq. apply elem_of_items in Hk1 as (st1 & n1 & i1 & _ & Hi1 & ->), Hk2 as (st2 & n2 & i2 & _ & Hi2 & ->).
    assert (n1 = n2) as <- by (destruct i1, i2; apply stem_image_name in Hi1, Hi2; unfold item_name in Heq; cbn in Heq; congruence).
    assert (st1 = st2) as <- by (by eapply stem_image_stem). by simplify_eq.
  - unfold items. apply NoDup_bind.
    + intros [st1 l1] [st2 l2] k H1 H2. rewrite !elem_of_isort in H1, H2. cbn zeta.
      intros (i1 & -> & Hi1)%list_elem_of_fmap (i2 & Hk & Hi2)%list_elem_of_fmap. injection Hk as _ ->.
      rewrite !elem_of_isort in Hi1, Hi2. apply elem_of_stem in H1 as [_ ->], H2 as [_ ->]. cbn [snd] in *.
      apply list_elem_of_omap in Hi1 as (n1 & _ & Hi1), Hi2 as (n2 & _ & Hi2).
      assert (n1 = n2) as <- by (destruct i2; apply stem_image_name in Hi1, Hi2; congruence).
      by assert (st1 = st2) as <- by (by eapply stem_image_stem).
    + intros si Hsi. rewrite elem_of_isort in Hsi. apply NoDup_fmap_2; [by intros ?? [= ?]|].
      apply NoDup_isort. eapply NoDup_fmap_1, Hstem, Hsi.
    + apply NoDup_isort. eapply NoDup_fmap_1. exact Hwf.
Qed.
End items.

(** ** The collection is safe and complete *)

Section gc.
Context (lower : text → text) (store : option (list BoxDir)) (retired : list text) (dry_run : bool)
  (pool : text) (dead_stems : list text).

Abbreviation gc v := (gc_orphaned_images lower v store retired dry_run pool dead_stems).
Abbreviation dead := (retired_stems retired ++ dead_stems).
Abbreviation current := (current_box_volumes store).

(** A collection over a scan is one loop over its items. *)
Lemma gc_loop v s :
  scan_pool lower v pool = Ok s →
  match box_images s with
  | Err e => gc v = ([], Err e)
  | Ok d => gc v = fold_trace (λ r (i : item), gc_image lower v dry_run s i.1 r i.2)
                     (mk_gc [] 0 [] [] dry_run (sc_vanished s) None) (items dead current d)
  end.
Proof.
  intros Hs. unfold gc_orphaned_images. rewrite Hs. destruct (box_images s) as [d|e]; [|done].
  rewrite <-(collection_loop lower v dry_run s). unfold then_, quiet. cbn [fst snd app].
  by destruct (fold_trace _ _ _).
Qed.

Lemma gc_deleted v s r :
  scan_pool lower v pool = Ok s → (gc v).2 = Ok r →
  (gc v).1 = (if dry_run then [] else g_deleted r) ∧
  ∀ n, n ∈ g_deleted r ↔ reclaimable s dead current n.
Proof.
  intros Hs Hr. pose proof (gc_loop v s Hs) as Hl. destruct (box_images s) as [d|e] eqn:Hd; [|by rewrite Hl in Hr].
  rewrite Hl in *. pose proof (collection_run lower v dry_run s (sc_vanished s) (items dead current d)) as Hrun.
  cbv zeta in Hrun. rewrite Hr in Hrun. destruct Hrun as [-> Ht]. split; [exact Ht|].
  intros n. by apply (verdicts s dead current d Hd).
Qed.

(** Whatever stops a collection, what it deleted was reclaimable. *)
Lemma gc_deletes_reclaimable v s n :
  scan_pool lower v pool = Ok s → n ∈ (gc v).1 → reclaimable s dead current n.
Proof.
  intros Hs. pose proof (gc_loop v s Hs) as Hl. destruct (box_images s) as [d|e] eqn:Hd; rewrite Hl; [|by intros ?%elem_of_nil].
  pose proof (collection_run lower v dry_run s (sc_vanished s) (items dead current d)) as Hrun. cbv zeta in Hrun.
  assert (∀ seen rest, items dead current d = seen ++ rest → n ∈ names_where (deletes s) seen →
    reclaimable s dead current n) as Hpre.
  { intros seen rest Hi Hn. apply (verdicts s dead current d Hd n). unfold names_where.
    rewrite Hi, filter_app, fmap_app. apply elem_of_app. by left. }
  destruct (_.2) as [r|e].
  - destruct Hrun as [-> ->]. destruct dry_run; [by intros ?%elem_of_nil|]. apply (Hpre _ []). by rewrite app_nil_r.
  - destruct Hrun as (_ & _ & seen & rest & Hi & ->). by apply (Hpre seen rest).
Qed.

(** The collection of base images is safe and complete: of a pool whose volumes have
    distinct names, it reclaims exactly the box images that no live overlay backs onto and
    that are not wanted (an image is wanted when its box is neither retired nor dead, and
    it is one the registered box resolves to or, for a box that is not registered, the
    newest); it keeps exactly the wanted ones and reports the others as in use; each is
    deleted once and the bytes freed are theirs; a dry run gives the same report and
    deletes nothing; and a run that a failing deletion stops has deleted reclaimable
    images only. *)
Theorem gc_exact v s :
  scan_pool lower v pool = Ok s → NoDup (sc_names s) →
  match (gc v).2 with
  | Ok r =>
      (gc v).1 = (if dry_run then [] else g_deleted r) ∧ NoDup (g_deleted r) ∧
      (∀ n, n ∈ g_deleted r ↔ reclaimable s dead current n) ∧
      (∀ n, n ∈ g_kept r ↔ n ∈ sc_names s ∧ wanted (sc_names s) dead current n) ∧
      (∀ n, n ∈ g_skipped r ↔ n ∈ sc_names s ∧ is_image n ∧ ¬ wanted (sc_names s) dead current n ∧ n ∈ sc_in_use s) ∧
      g_freed r = sumZ ((λ n, dget_or (sc_alloc s) n 0%Z) <$> g_deleted r)
  | Err e => (∀ n, n ∈ (gc v).1 → reclaimable s dead current n) ∧ NoDup (gc v).1
  end.
Proof.
  intros Hs Hnd. pose proof (λ n, gc_deletes_reclaimable v s n Hs) as Hrec. pose proof (gc_loop v s Hs) as Hl.
  destruct (box_images s) as [d|e] eqn:Hd; rewrite Hl in *; [|split; [done|constructor]].
  pose proof (collection_run lower v dry_run s (sc_vanished s) (items dead current d)) as Hrun. cbv zeta in Hrun.
  destruct (_.2) as [r|e].
  - destruct Hrun as [-> ->]. cbn [outcome_of_items g_deleted g_kept g_skipped g_freed].
    split_and!; [done|by apply (names_NoDup s dead current d Hd)|intros n; by apply (verdicts s dead current d Hd)..|done].
  - split; [done|]. destruct Hrun as (_ & _ & seen & rest & Hi & ->).
    pose proof (names_NoDup s dead current d Hd (deletes s) Hnd) as Hall.
    unfold names_where in Hall. rewrite Hi, filter_app, fmap_app in Hall. by apply NoDup_app in Hall as (? & _).
Qed.

(** A collection leaves nothing to collect: after one that succeeded, the pool without the
    deleted images, its live overlays backing onto the same images, gives a collection
    that deletes nothing. *)
Theorem gc_idempotent v v' s s' r r' :
  scan_pool lower v pool = Ok s → (gc v).2 = Ok r →
  scan_pool lower v' pool = Ok s' →
  sc_names s' = filter (λ n, n ∉ g_deleted r) (sc_names s) →
  (∀ n, n ∈ sc_in_use s' ↔ n ∈ sc_in_use s) →
  (gc v').2 = Ok r' →
  g_deleted r' = [] ∧ (gc v').1 = [].
Proof.
  intros Hs Hr Hs' Hnames Huse Hr'.
  destruct (gc_deleted v s r Hs Hr) as [_ Hdel], (gc_deleted v' s' r' Hs' Hr') as [Ht Hdel'].
  assert (g_deleted r' = []) as Hnil; [|split; [done|]; rewrite Ht, Hnil; by destruct dry_run].
  destruct (g_deleted r') as [|n l] eqn:Hl; [done|]. exfalso.
  assert (n ∈ n :: l) as (Hn & Him & Hw & Hu)%Hdel' by (by left).
  rewrite Hnames in Hn. apply list_elem_of_filter in Hn as [Hnot Hn]. apply Hnot, Hdel.
  split_and!; [done|done| |by rewrite <-Huse]. intros (stem & i & Hi & Hdead & Hwant). apply Hw.
  exists stem, i. split_and!; [done..|]. destruct (dget _ _); [done|]. intros n' j Hn' Hj.
  apply (Hwant n' j); [|done]. rewrite Hnames in Hn'. by apply list_elem_of_filter in Hn' as [_ ?].
Qed.
End gc.

(** ** A registered box's image is wanted *)

Lemma ascii_re_digit c : (48 ≤ c ≤ 57)%N → re_digit c = true.
Proof.
  intros Hc. assert (c ∈ ([48; 49; 50; 51; 52; 53; 54; 55; 56; 57]%N : list N)) as Hin by (apply list_elem_of_In; cbn [In]; lia).
  assert (Forall (λ c, re_digit c = true) ([48; 49; 50; 51; 52; 53; 54; 55; 56; 57]%N : list N)) as Hall by (by repeat constructor).
  by apply (proj1 (Forall_forall _ _) Hall).
Qed.

Lemma box_image_volume dir m :
  dot_plus dir = true → (0 ≤ m)%Z → box_image (volume_of dir m) = Some (dir, Z_text m).
Proof.
  intros Hdir Hm. unfold box_image, volume_of.
  assert (∀ x, drop_newline (x ++ u "_box.img") = x ++ u "_box.img") as Hnl by (intros x; unfold drop_newline; by rewrite rev_app_distr).
  rewrite !app_assoc, Hnl, strip_suffix_app. cbn [mbind option_bind].
  rewrite rev_app_distr.
  assert (Forall (λ c, re_digit c = true) (Z_text m)) as Hdig.
  { unfold Z_text. rewrite (proj2 (Z.ltb_ge m 0)) by lia. eapply Forall_impl; [apply N_text_digits|]. apply ascii_re_digit. }
  rewrite (span_app re_digit (rev (Z_text m))); cycle 1.
  { apply Forall_forall. intros c Hc. apply (proj1 (Forall_forall _ _) Hdig). by apply list_elem_of_In, in_rev, list_elem_of_In. }
  { by rewrite rev_app_distr. }
  rewrite bool_decide_eq_false_2; cycle 1.
  { destruct (Z_text_word m) as [Hne _]. intros Hr. apply Hne. apply (f_equal (@rev N)) in Hr. by rewrite rev_involutive in Hr. }
  rewrite !rev_involutive, strip_suffix_app. cbn [mbind option_bind]. by rewrite Hdir.
Qed.

Lemma current_box_volumes_elem store dir m imgs :
  mk_boxdir dir (Some imgs) ∈ store → (u "libvirt", m) ∈ imgs →
  ∃ c, dget (current_box_volumes (Some store)) dir = Some c ∧ volume_of dir m ∈ c.
Proof.
  set (P (d : list (text * list text)) := ∃ c, dget d dir = Some c ∧ volume_of dir m ∈ c).
  assert (∀ dir' d img, P d → P (add_current dir' d img)) as Hkeep.
  { intros dir' d img (c & Hc & Hin). unfold P, add_current. case_bool_decide; [|by exists c].
    rewrite dget_dset. case_decide as Hd; [|by exists c]. subst dir'. unfold dget_or. rewrite Hc. eexists. split; [done|].
    rewrite elem_of_add_new. by left. }
  assert (∀ dir' l d, P d → P (foldl (add_current dir') d l)) as Hkeeps.
  { intros dir' l. induction l as [|i l IH]; intros d Hd; [done|]. by apply IH, Hkeep. }
  assert (∀ l d, (u "libvirt", m) ∈ l → P (foldl (add_current dir) d l)) as Hadd.
  { induction l as [|i l IH]; intros d Hin; [by apply elem_of_nil in Hin|]. cbn [foldl].
    apply elem_of_cons in Hin as [<-|Hin]; [|by apply IH]. apply Hkeeps. unfold P, add_current.
    cbn [fst snd]. rewrite bool_decide_eq_true_2 by done. eexists. split; [apply dget_dset_eq|].
    rewrite elem_of_add_new. by right. }
  intros Hs Hm. unfold current_box_volumes. cbn [default from_option id]. generalize (@nil (text * list text)). revert Hs.
  induction store as [|d store IH]; intros Hs cur; [by apply elem_of_nil in Hs|]. cbn [foldl].
  apply elem_of_cons in Hs as [<-|Hs]; [|by apply IH]. cbn [xd_name xd_images default from_option id].
  assert (P (foldl (add_current dir) cur imgs)) as HP by (by apply Hadd). revert HP.
  generalize (foldl (add_current dir) cur imgs). clear IH. induction store as [|d store IH]; intros d0 HP; [done|].
  cbn [foldl]. by apply IH, Hkeeps.
Qed.

(** The image a registered box boots is never reclaimed, unless its name is retired or dead. *)
Lemma registered_image_wanted names dead store dir m imgs :
  mk_boxdir dir (Some imgs) ∈ store → (u "libvirt", m) ∈ imgs →
  dot_plus dir = true → (0 ≤ m)%Z → is_Some (str_int m) → dir ∉ dead →
  wanted names dead (current_box_volumes (Some store)) (volume_of dir m).
Proof.
  intros Hs Hi Hdir Hm Hstr Hdead. destruct (current_box_volumes_elem _ _ _ _ Hs Hi) as (c & Hc & Hin).
  exists dir, (m, volume_of dir m). split_and!; [|done|by rewrite Hc].
  unfold stem_image. rewrite box_image_volume by done. cbn [mbind option_bind].
  by rewrite bool_decide_eq_true_2, int_of_Z_text by done.
Qed.

(** ** Witnesses *)

Definition demo_lines (l : list text) : text := mjoin ((λ t, t ++ [10%N]) <$> l).

(** A pool with two images of a box, the older under a live overlay, and one of a retired box. *)
Definition demo_virsh (volumes : list text) : Virsh :=
  mk_virsh (0%Z, demo_lines (u " Name   Path" :: u "------" :: volumes))
    (λ n, (0%Z, if bool_decide (n = u "lab_obs.img")
      then u "<allocation unit='bytes'>7</allocation><backingStore><path>/pool/" ++ volume_of (u "obs-ubuntu24") 100 ++
           u "</path></backingStore>"
      else u "<allocation unit='bytes'>3000</allocation>"))
    (λ _, (0%Z, [])).

Definition demo_pool : list text :=
  [volume_of (u "obs-ubuntu24") 100; volume_of (u "obs-ubuntu24") 200; u "lab_obs.img  /pool/lab_obs.img";
   volume_of (u "obs-ubuntu2404") 50].

Definition demo_gc (volumes : list text) (dry_run : bool) : traced text GcError GcResult :=
  gc_orphaned_images lower_ascii (demo_virsh volumes) None [u "obs-ubuntu2404"] dry_run (u "default") [].

Lemma gc_exact_witness :
  ∃ r, (demo_gc demo_pool false).2 = Ok r ∧ (demo_gc demo_pool false).1 = [volume_of (u "obs-ubuntu2404") 50] ∧
    g_freed r = 3000%Z ∧ g_kept r = [volume_of (u "obs-ubuntu24") 200] ∧
    ∀ n, n ∈ g_skipped r ↔ n = volume_of (u "obs-ubuntu24") 100.
Proof.
  destruct (scan_pool lower_ascii (demo_virsh demo_pool) (u "default")) as [s|e] eqn:Hs; [|by vm_compute in Hs].
  assert (NoDup (sc_names s)) as Hnd
    by (vm_compute in Hs; injection Hs as <-; apply (bool_decide_unpack _); by vm_compute).
  pose proof (gc_exact lower_ascii None [u "obs-ubuntu2404"] false (u "default") [] _ s Hs Hnd) as H.
  fold (demo_gc demo_pool false) in H.
  destruct (demo_gc demo_pool false) as [tr [r|e]] eqn:Hr; [|by vm_compute in Hr].
  cbn [fst snd] in *. destruct H as (-> & _ & _ & _ & _ & Hfreed). exists r. split; [done|].
  clear Hs. vm_compute in Hr. injection Hr as _ <-. split_and!; [by vm_compute..|].
  intros n. cbn [g_skipped]. rewrite list_elem_of_singleton. done.
Defined.

Lemma gc_idempotent_witness :
  ∃ r r', (demo_gc demo_pool false).2 = Ok r ∧ g_deleted r = [volume_of (u "obs-ubuntu2404") 50] ∧
    (demo_gc (take 3 demo_pool) false).2 = Ok r' ∧ g_deleted r' = [].
Proof.
  destruct (scan_pool lower_ascii (demo_virsh demo_pool) (u "default")) as [s|e] eqn:Hs; [|by vm_compute in Hs].
  destruct (scan_pool lower_ascii (demo_virsh (take 3 demo_pool)) (u "default")) as [s'|e] eqn:Hs'; [|by vm_compute in Hs'].
  destruct (demo_gc demo_pool false).2 as [r|e] eqn:Hr; [|by vm_compute in Hr].
  destruct (demo_gc (take 3 demo_pool) false).2 as [r'|e] eqn:Hr'; [|by vm_compute in Hr'].
  exists r, r'. split; [done|].
  assert (g_deleted r = [volume_of (u "obs-ubuntu2404") 50]) as Hdel by (vm_compute in Hr; injection Hr as <-; by vm_compute).
  split_and!; [done|done|].
  apply (gc_idempotent lower_ascii None [u "obs-ubuntu2404"] false (u "default") [] _ _ s s' r r' Hs Hr Hs'); [| |exact Hr'].
  - rewrite Hdel. vm_compute in Hs, Hs'. injection Hs as <-. injection Hs' as <-. by vm_compute.
  - vm_compute in Hs, Hs'. injection Hs as <-. injection Hs' as <-. done.
Defined.
