(* ===== verification/BoxClean.v ===== *)
(** * Removing retired and unreferenced boxes

    Models the box-removing verbs of mqlab/box.py and their commands in mqlab/cli.py: the
    deregistration of retired boxes, the deletion of dead caches, the migration of the
    cache's file names, and [box gc --unreferenced]. The cache directory is a map from file
    names to contents, or the list of its files where only names count. *)

From S2P Require Import Prelude PyText PyCodec PyDict PyFloat Trace Orchestrator Topology Hostfacts Versions VersionsLoad Stacks Platforms Boxes BoxGc.

#[local] Open Scope trace_scope.

(** ** retired_boxes.py *)

Definition RETIRED_BOX_NAMES : list text :=
  [u "obs-ubuntu2404"; u "infra-ubuntu2404"; u "mq-ubuntu2404"; u "mq-nativeha-ubuntu"; u "pcmk-ubuntu";
   u "rhel/9.6-x86_64"].
Definition RETIRED_BASE_ARTIFACTS : list (text * (text * text)) :=
  [(u "rhel/9.6-x86_64", (u "rhel-9.6-x86_64-libvirt.box", u "rhel/9-x86_64"))].

(** ** Registrations *)

Inductive CleanOp := Unlink (file : text) | BoxRemove (name : text).

Section clean.
Context (lower : text → text).

(** [parse_box_list]. *)
Definition box_list_line (d : list (text * text)) (raw : text) : list (text * text) :=
  let line := strip raw in
  if bool_decide (line = []) || startswith (lower line) (u "there are no") then d
  else match cut 32 line with
       | Some (name, rest) => dset d name (strip rest)
       | None => dset d line []
       end.
Definition parse_box_list (out : text) : list (text * text) := foldl box_list_line [] (splitlines out).

(** [_vagrant_box_remove]. *)
Definition vagrant_box_remove (ran : text → Ran) (name : text) : traced CleanOp GcError () :=
  emit (BoxRemove name)
    (let '(rc, out) := ran name in
     if (rc =? 0)%Z || contains (lower out) (u "not installed") then Ok () else Err (RemoveFailed rc)).

(** [clean_retired]. *)
Definition clean_retired (ran : text → Ran) (registered : list (text * text)) (dry_run : bool) :
    traced CleanOp GcError (list text) :=
  let retired := filter (λ n, dmem n registered = true) RETIRED_BOX_NAMES in
  let* _ := if dry_run then quiet (Ok ()) else each (vagrant_box_remove ran) retired in
  quiet (Ok retired).

(** [clean_retired_cache], on the files of the cache directory. *)
Definition retired_artifacts : list text :=
  filter (λ n, dmem n RETIRED_BASE_ARTIFACTS = false) RETIRED_BOX_NAMES ≫= λ n,
    (n :: ((λ arch, n ++ u "-" ++ arch) <$> HOST_ARCHES)) ≫= λ stem,
      (λ suffix, stem ++ suffix) <$> [u ".box"; u ".manifest-hash"].

Definition clean_retired_cache (files : list text) (dry_run : bool) : traced CleanOp GcError (list text) :=
  let dead := filter (λ a, a ∈ files) retired_artifacts in
  let* _ := if dry_run then quiet (Ok ()) else each (λ a, emit (Unlink a) (Ok ())) dead in
  quiet (Ok dead).

(** [clean_boxes]: the artifact and the records of each box, then its registration, with a
    report of what was there. The state is the files left and the report. *)
Definition clean_record (dir : text) (st : list text * list text) (a : text) :
    traced CleanOp GcError (list text * list text) :=
  if bool_decide (a ∈ st.1)
  then emit (Unlink a) (Ok (filter (λ b, b ≠ a) st.1, st.2 ++ [dir ++ u "/" ++ a])) else quiet (Ok st).

Definition box_files (s : BoxSpec) : list text :=
  bs_cache_artifact s :: if bs_hashed s then [manifest_hash_artifact s; components_record_artifact s] else [].

Definition clean_box (fleet : list (text * BoxSpec)) (dir : text) (ran : text → Ran) (st : list text * list text)
    (name : text) : traced CleanOp GcError (list text * list text) :=
  let* s := quiet (of_option (UnknownBox name) (dget fleet name)) in
  let* st := fold_trace (clean_record dir) st (box_files s) in
  let* _ := vagrant_box_remove ran name in
  quiet (Ok (st.1, st.2 ++ [u "vagrant box '" ++ name ++ u "'"])).

Definition clean_boxes (fleet : list (text * BoxSpec)) (dir : text) (ran : text → Ran) (files names : list text) :
    traced CleanOp GcError (list text * list text) :=
  fold_trace (clean_box fleet dir ran) (files, []) names.

(** ** Boxes no catalog selection resolves to *)

(** [_FAT_CACHE_RE]: the box a cache file belongs to. *)
Definition FAT_SUFFIXES : list text :=
  HOST_ARCHES ≫= λ arch, (λ ext, u "-" ++ arch ++ u "." ++ ext) <$> [u "box"; u "manifest-hash"; u "components.json"].

Definition fat_cache_name (file : text) : option text :=
  name ← head (omap (λ suffix, strip_suffix suffix (drop_newline file)) FAT_SUFFIXES);
  if dot_plus name then Some name else None.

(** [path.stem]. *)
Definition path_stem (name : text) : text :=
  let '(ext, r) := span (λ c, negb (c =? 46)%N) (rev name) in
  match r with
  | [] => name
  | _ :: stem => if forallb (N.eqb 46) stem then name else rev stem
  end.

Definition os_token_family (t : text) : option text :=
  let '(family, digits) := span is_lower t in
  if negb (bool_decide (family = [])) && negb (bool_decide (digits = [])) && forallb is_digit digits
  then Some family else None.

Definition generated_by (name role : text) : bool :=
  if startswith name (role ++ u "-") then
    match os_token_family (drop (length role + 1) name) with
    | Some family => dmem family FAMILIES
    | None => false
    end
  else false.

Definition generated_box_name (name : text) (c : Catalog) : bool := existsb (generated_by name) (c_roles c).*1.

Definition resolvable_box_names (c : Catalog) (roles : list (text * gset text)) (fleet : list (text * BoxSpec)) :
    res CatalogError (list text) :=
  boxes ← all_boxes c None roles;
  Ok ((be_name <$> boxes) ++ (oe_base_box <$> (c_oses c).*2) ++ fleet.*1).

Record UnreferencedBox := mk_unref {
  ub_name : text; ub_registered : bool; ub_cache_files : list text; ub_has_volumes : bool
}.

Record UnreferencedResult := mk_unrefs {
  ur_removed : list UnreferencedBox; ur_in_use : list UnreferencedBox; ur_resolvable : list text;
  ur_foreign : list text
}.

(** What was found on the host: generated registrations, files per generated name, stems of
    generated names in the pool, stems in use, and the foreign rest. *)
Record Found := mk_found {
  fd_registered : list text; fd_cached : list (text * list text); fd_pooled : list text;
  fd_in_use : list text; fd_foreign : list text
}.

(** One file of the cache directory. *)
Definition add_cached (c : Catalog) (retired : list text) (acc : list (text * list text) * list text)
    (file : text) : list (text * list text) * list text :=
  let '(cached, foreign) := acc in
  let fat := fat_cache_name file in
  if bool_decide (path_stem file ∈ retired) || match fat with Some n => bool_decide (n ∈ retired) | None => false end
  then acc
  else match fat with
       | Some n => if generated_box_name n c then (dset cached n (dget_or cached n [] ++ [file]), foreign)
                   else (cached, foreign ++ [file])
       | None => (cached, foreign ++ [file])
       end.

(** The pool's side: the stems in use, and the generated stems with volumes. *)
Definition pool_stems (v : Virsh) (pool : text) (c : Catalog) : res GcError (list text * list text) :=
  match scan_pool lower v pool with
  | Err (PoolAbsent _) => Ok ([], [])
  | Err e => Err e
  | Ok s => images ← box_images s; Ok (in_use_stems s, filter (λ n, generated_box_name n c = true) images.*1)
  end.

Definition find_boxes (v : Virsh) (pool : text) (c : Catalog) (registered : list (text * text))
    (files : list text) : res GcError Found :=
  '(in_use, pooled) ← pool_stems v pool c;
  let names := filter (λ n, n ∉ RETIRED_BOX_NAMES) registered.*1 in
  let '(cached, foreign) :=
    foldl (add_cached c RETIRED_BOX_NAMES)
      ([], filter (λ n, generated_box_name n c = false) names) (sorted_text files) in
  Ok (mk_found (filter (λ n, generated_box_name n c = true) names) cached pooled in_use foreign).

Definition candidates (f : Found) : list text :=
  sorted_text (filter (λ n, n ∉ RETIRED_BOX_NAMES) (uniq (fd_registered f ++ (fd_cached f).*1 ++ fd_pooled f))).

(** One candidate. *)
Definition unref_one (ran : text → Ran) (dry_run : bool) (protected : list text) (f : Found)
    (r : UnreferencedResult) (name : text) : traced CleanOp GcError UnreferencedResult :=
  let found := mk_unref name (bool_decide (name ∈ fd_registered f)) (dget_or (fd_cached f) name [])
                 (bool_decide (name ∈ fd_pooled f)) in
  if bool_decide (name ∈ protected) then
    quiet (Ok (mk_unrefs (ur_removed r) (ur_in_use r) (ur_resolvable r ++ [name]) (ur_foreign r)))
  else if bool_decide (name ∈ fd_in_use f) then
    quiet (Ok (mk_unrefs (ur_removed r) (ur_in_use r ++ [found]) (ur_resolvable r) (ur_foreign r)))
  else
    let* _ :=
      if dry_run then quiet (Ok ())
      else let* _ := each (λ a, emit (Unlink a) (Ok ())) (ub_cache_files found) in
           if ub_registered found then vagrant_box_remove ran name else quiet (Ok ()) in
    quiet (Ok (mk_unrefs (ur_removed r ++ [found]) (ur_in_use r) (ur_resolvable r) (ur_foreign r))).

(** [clean_unreferenced], with the names the catalog resolves. *)
Definition clean_unreferenced (v : Virsh) (ran : text → Ran) (pool : text) (c : Catalog) (protected : list text)
    (registered : list (text * text)) (files : list text) (dry_run : bool) :
    traced CleanOp GcError UnreferencedResult :=
  let* f := quiet (find_boxes v pool c registered files) in
  let* r := fold_trace (unref_one ran dry_run protected f) (mk_unrefs [] [] [] []) (candidates f) in
  quiet (Ok (mk_unrefs (ur_removed r) (ur_in_use r) (ur_resolvable r) (sorted_text (fd_foreign f)))).

Definition dead_stems (r : UnreferencedResult) : list text := ub_name <$> ur_removed r.

(** [box_gc], with [--unreferenced]: the retired names, their dead caches, the boxes no
    selection resolves to, then the base images. The registrations and the files are read
    anew by the third pass, and the pool by the fourth. *)
Inductive GcOp := Cleaned (o : CleanOp) | VolDelete (name : text).

Record GcWorld := mk_gcworld {
  gw_registered : list (text * text); gw_registered_after : list (text * text);
  gw_files : list text; gw_files_after : list text;
  gw_virsh : Virsh; gw_virsh_after : Virsh; gw_store : option (list BoxDir);
  gw_remove : text → Ran
}.

Definition box_gc (w : GcWorld) (pool : text) (c : Catalog) (protected : list text)
    (dry_run unreferenced : bool) : traced GcOp GcError GcResult :=
  let* _ := lift Cleaned (clean_retired (gw_remove w) (gw_registered w) dry_run) in
  let* _ := lift Cleaned (clean_retired_cache (gw_files w) dry_run) in
  let* dead := if unreferenced : bool then
      let* r := lift Cleaned (clean_unreferenced (gw_virsh w) (gw_remove w) pool c protected
                  (gw_registered_after w) (gw_files_after w) dry_run) in
      quiet (Ok (dead_stems r))
    else quiet (Ok []) in
  lift VolDelete (gc_orphaned_images lower (gw_virsh_after w) (gw_store w) RETIRED_BOX_NAMES dry_run pool dead).
End clean.

(** ** The migration of the cache's names *)

Section migrate.
Context {A : Type}.

(** The cache directory: the content of each file, [None] for an entry that is no file. *)
Abbreviation cache := (gmap text (option A)).

Definition cache_moves (fleet : list (text * BoxSpec)) : list (text * text) :=
  (filter (λ s, bs_hashed s = true) fleet.*2 ≫= λ s,
     [(bs_name s ++ u ".box", bs_name s ++ u "-x86_64.box");
      (bs_name s ++ u ".manifest-hash", bs_name s ++ u "-x86_64.manifest-hash")]) ++
  ((λ ab, (ab.1, base_cache_artifact ab.2)) <$> RETIRED_BASE_ARTIFACTS.*2).

Definition migrate_one (dry_run : bool) (st : list (text * text) * cache) (m : text * text) :
    list (text * text) * cache :=
  let '(renamed, fs) := st in
  match fs !! m.1, fs !! m.2 with
  | Some (Some a), None => (renamed ++ [m], if dry_run then fs else <[m.2 := Some a]> (delete m.1 fs))
  | _, _ => st
  end.

(** [migrate_box_cache]. *)
Definition migrate_box_cache (fleet : list (text * BoxSpec)) (dry_run : bool) (fs : cache) :
    list (text * text) * cache :=
  foldl (migrate_one dry_run) ([], fs) (cache_moves fleet).
End migrate.

(** ** The unreferenced pass is safe and complete *)

Section unreferenced.
Context (lower : text → text) (v : Virsh) (ran : text → Ran) (pool : text) (c : Catalog)
  (protected : list text) (registered : list (text * text)) (files : list text) (dry_run : bool).

Abbreviation run := (clean_unreferenced lower v ran pool c protected registered files dry_run).

(** A box the pass may remove. *)
Definition removable (in_use : list text) (n : text) : Prop :=
  generated_box_name n c = true ∧ (n ∉ RETIRED_BOX_NAMES) ∧ (n ∉ protected) ∧ n ∉ in_use.

(** A cache file of a box, in neither retired scheme. *)
Definition cache_of (n a : text) : Prop :=
  a ∈ files ∧ fat_cache_name a = Some n ∧ (path_stem a ∉ RETIRED_BOX_NAMES) ∧ n ∉ RETIRED_BOX_NAMES.

Lemma add_cached_spec l acc n :
  generated_box_name n c = true →
  dget_or (foldl (add_cached c RETIRED_BOX_NAMES) acc l).1 n [] =
  dget_or acc.1 n [] ++ filter (λ a, fat_cache_name a = Some n ∧ (path_stem a ∉ RETIRED_BOX_NAMES) ∧ n ∉ RETIRED_BOX_NAMES) l.
Proof.
  intros Hg. revert acc. induction l as [|a l IH]; intros acc; [by rewrite app_nil_r|]. cbn [foldl]. rewrite IH.
  rewrite filter_cons. destruct acc as [cached foreign]. unfold add_cached at 1.
  case_bool_decide as Hr; cbn [orb].
  { rewrite decide_False; [done|]. tauto. }
  destruct (fat_cache_name a) as [m|] eqn:Hm; cbn [orb]; [|by rewrite decide_False by (intros [[=] _])].
  case_bool_decide as Hmr; cbn [orb]; [rewrite decide_False; [done|]; intros ([= ->] & _ & ?); done|].
  destruct (decide (m = n)) as [->|Hne].
  - rewrite Hg, decide_True by done. cbn [fst]. unfold dget_or at 1. rewrite dget_dset_eq. cbn [default from_option id].
    by rewrite <-app_assoc.
  - rewrite decide_False by (intros ([= ->] & _); done). destruct (generated_box_name m c); cbn [fst]; [|done].
    unfold dget_or at 1. by rewrite dget_dset_ne by done.
Qed.

Lemma add_cached_keys l acc n :
  n ∈ (foldl (add_cached c RETIRED_BOX_NAMES) acc l).1.*1 ↔
  n ∈ acc.1.*1 ∨ (generated_box_name n c = true ∧ (n ∉ RETIRED_BOX_NAMES) ∧
    ∃ a, a ∈ l ∧ fat_cache_name a = Some n ∧ path_stem a ∉ RETIRED_BOX_NAMES).
Proof.
  revert acc. induction l as [|a l IH]; intros acc; cbn [foldl].
  { split; [by left|intros [?|(_ & _ & a & Ha & _)]; [done|by apply elem_of_nil in Ha]]. }
  rewrite IH. clear IH.
  assert (n ∈ (add_cached c RETIRED_BOX_NAMES acc a).1.*1 ↔ n ∈ acc.1.*1 ∨ (generated_box_name n c = true ∧
    (n ∉ RETIRED_BOX_NAMES) ∧ fat_cache_name a = Some n ∧ path_stem a ∉ RETIRED_BOX_NAMES)) as ->.
  { destruct acc as [cached foreign]. unfold add_cached.
    case_bool_decide as Hr; cbn [orb fst]; [tauto|].
    destruct (fat_cache_name a) as [m|]; cbn [orb fst]; [|split; [by left|intros [?|(_ & _ & [=] & _)]; done]].
    case_bool_decide as Hmr; cbn [orb fst]; [split; [by left|intros [?|(_ & ? & [= ->] & _)]; done]|].
    destruct (generated_box_name m c) eqn:Hg; cbn [fst].
    - rewrite elem_of_dset_keys. split; [intros [->|?]; [by right|by left]|intros [?|(_ & _ & [= ->] & _)]; [by right|by left]].
    - split; [by left|intros [?|(Hg' & _ & [= ->] & _)]; [done|congruence]]. }
  setoid_rewrite elem_of_cons. split.
  - intros [[?|(? & ? & ? & ?)]|(? & ? & b & ? & ? & ?)]; [by left|right; split_and!; [done..|]; exists a; tauto|].
    right. split_and!; [done..|]. exists b. tauto.
  - intros [?|(? & ? & b & [->|?] & ? & ?)]; [tauto|left; right; tauto|right; split_and!; [done..|]; by exists b].
Qed.

Lemma find_boxes_Ok f :
  find_boxes lower v pool c registered files = Ok f →
  ∃ in_use pooled, pool_stems lower v pool c = Ok (in_use, pooled) ∧ fd_in_use f = in_use ∧ fd_pooled f = pooled ∧
    (∀ n, n ∈ fd_registered f ↔ n ∈ registered.*1 ∧ (n ∉ RETIRED_BOX_NAMES) ∧ generated_box_name n c = true) ∧
    (∀ n, n ∈ (fd_cached f).*1 ↔ generated_box_name n c = true ∧ ∃ a, cache_of n a) ∧
    (∀ n, generated_box_name n c = true → ∀ a, a ∈ dget_or (fd_cached f) n [] ↔ cache_of n a).
Proof.
  unfold find_boxes. intros H. apply bind_Ok in H as ([in_use pooled] & Hp & H). cbv beta iota zeta in H.
  match type of H with context [foldl ?g ?a ?l] => set (acc := a) in *; set (fs := l) in *;
    pose proof (add_cached_spec fs acc) as Hget; pose proof (add_cached_keys fs acc) as Hkeys;
    destruct (foldl g acc fs) as [cached foreign] eqn:Hf end.
  injection H as <-. exists in_use, pooled. cbn [fd_in_use fd_pooled fd_registered fd_cached]. 
  cbn [fst] in Hget, Hkeys. assert (∀ a, a ∈ fs ↔ a ∈ files) as Hfs by (intros; apply elem_of_isort).
  split_and!; [done..| | |].
  - intros n. rewrite !list_elem_of_filter. tauto.
  - intros n. rewrite Hkeys. unfold cache_of. cbn [acc fst fmap list_fmap]. setoid_rewrite Hfs. split.
    + intros [Hn|(? & ? & a & ? & ? & ?)]; [by apply elem_of_nil in Hn|]. split; [done|]. by exists a.
    + intros (? & a & ? & ? & ? & ?). right. split_and!; [done..|]. by exists a.
  - intros n Hg a. rewrite Hget by done. cbn [acc fst dget_or dget from_option default app].
    unfold cache_of. change (dget_or [] n []) with (@nil text). cbn [app]. rewrite list_elem_of_filter, Hfs. tauto.
Qed.

Lemma candidates_spec f n in_use pooled :
  find_boxes lower v pool c registered files = Ok f → pool_stems lower v pool c = Ok (in_use, pooled) →
  n ∈ candidates f ↔ generated_box_name n c = true ∧ (n ∉ RETIRED_BOX_NAMES) ∧
    (n ∈ registered.*1 ∨ (∃ a, cache_of n a) ∨ n ∈ pooled).
Proof.
  intros Hf Hp. destruct (find_boxes_Ok f Hf) as (iu & po & Hp' & <- & <- & Hreg & Hkeys & _).
  rewrite Hp in Hp'. injection Hp' as -> ->.
  assert (n ∈ fd_pooled f → generated_box_name n c = true) as Hgen.
  { unfold pool_stems in Hp. destruct (scan_pool lower v pool) as [s|[]]; try done; [|injection Hp as _ Hp; rewrite <-Hp; by intros ?%elem_of_nil].
    res_inv. intros Hn. match goal with H : _ = fd_pooled f |- _ => rewrite <-H in Hn end.
    by apply list_elem_of_filter in Hn as [? _]. }
  unfold candidates, sorted_text. rewrite elem_of_isort, list_elem_of_filter, elem_of_uniq, !elem_of_app, Hreg, Hkeys. 
  tauto.
Qed.

(** What one removal runs. *)
Definition removal (f : Found) (n : text) : list CleanOp :=
  if dry_run then []
  else (Unlink <$> dget_or (fd_cached f) n []) ++ if bool_decide (n ∈ fd_registered f) then [BoxRemove n] else [].

Lemma each_unlink (l : list text) :
  each (E := GcError) (λ a, emit (Unlink a) (Ok ())) l = (Unlink <$> l, Ok ()).
Proof. induction l as [|a l IH]; [done|]. cbn [each]. rewrite IH. done. Qed.

Lemma unref_one_spec f r n :
  let m := unref_one lower ran dry_run protected f r n in
  if bool_decide (n ∈ protected) || bool_decide (n ∈ fd_in_use f)
  then m.1 = [] ∧ ∃ r', m.2 = Ok r' ∧ dead_stems r' = dead_stems r
  else m.1 = removal f n ∧ ∀ r', m.2 = Ok r' → dead_stems r' = dead_stems r ++ [n].
Proof.
  cbv zeta. unfold unref_one. case_bool_decide; cbn [orb]; [split; [done|by eexists]|].
  case_bool_decide; cbn [orb]; [split; [done|by eexists]|].
  assert (∀ r', Ok r' = Ok (mk_unrefs (ur_removed r ++ [mk_unref n (bool_decide (n ∈ fd_registered f))
      (dget_or (fd_cached f) n []) (bool_decide (n ∈ fd_pooled f))]) (ur_in_use r) (ur_resolvable r) (ur_foreign r))
      (E := GcError) → dead_stems r' = dead_stems r ++ [n]) as Hr.
  { intros r' [= ->]. unfold dead_stems. cbn [ur_removed]. by rewrite fmap_app. }
  unfold removal. cbn [ub_cache_files ub_registered]. rewrite each_unlink.
  destruct dry_run; [split; [done|intros r' Hr'; apply Hr; by rewrite <-Hr']|].
  destruct (bool_decide (n ∈ fd_registered f)); unfold then_, emit, quiet, vagrant_box_remove; cbn [fst snd app].
  - destruct (ran n) as [rc out]. destruct ((rc =? 0)%Z || _); cbn [fst snd].
    + rewrite app_nil_r. split; [done|]. intros r' Hr'. apply Hr. by rewrite <-Hr'.
    + split; [done|]. by intros r' [=].
  - rewrite !app_nil_r. split; [done|]. intros r' Hr'. apply Hr. by rewrite <-Hr'.
Qed.

(** The pass over what was found. *)
Lemma unreferenced_run f in_use pooled :
  pool_stems lower v pool c = Ok (in_use, pooled) → find_boxes lower v pool c registered files = Ok f →
  (∀ o, o ∈ run.1 → ∃ n, n ∈ candidates f ∧ removable in_use n ∧ o ∈ removal f n) ∧
  ∀ r, run.2 = Ok r →
    (∀ n, n ∈ dead_stems r ↔ n ∈ candidates f ∧ removable in_use n) ∧ run.1 = dead_stems r ≫= removal f.
Proof.
  intros Hp Hf. destruct (find_boxes_Ok f Hf) as (iu & po & Hp' & Hiu & _). rewrite Hp in Hp'. injection Hp' as <- <-.
  assert (∀ n, n ∈ candidates f →
    bool_decide (n ∈ protected) || bool_decide (n ∈ fd_in_use f) = false ↔ removable in_use n) as Hrm.
  { intros n Hn. apply (candidates_spec f n in_use pooled Hf Hp) in Hn as (? & ? & _).
    rewrite orb_false_iff, !bool_decide_eq_false, Hiu. unfold removable. tauto. }
  unfold clean_unreferenced. rewrite Hf. unfold then_, quiet. cbn [fst snd app].
  opose proof (fold_trace_ind (unref_one lower ran dry_run protected f)
    (λ seen r tr, dead_stems r = filter (λ n, bool_decide (n ∈ protected) || bool_decide (n ∈ fd_in_use f) = false) seen ∧
       tr = dead_stems r ≫= removal f) (mk_unrefs [] [] [] []) (candidates f) _ _) as Hind.
  - done.
  - intros seen n rest r tr r' _ [Hd ->] Hr. pose proof (unref_one_spec f r n) as Ho. cbv zeta in Ho.
    rewrite filter_app, filter_cons, filter_nil, <-Hd.
    destruct (bool_decide (n ∈ protected) || bool_decide (n ∈ fd_in_use f)).
    + destruct Ho as (-> & r1 & Hr1 & Hd1). rewrite Hr in Hr1. injection Hr1 as <-.
      rewrite decide_False by done. rewrite !app_nil_r, Hd1. done.
    + destruct Ho as (-> & Hd1). rewrite decide_True by done. rewrite (Hd1 _ Hr). split; [done|].
      by rewrite bind_app, bind_cons, app_nil_r.
  - assert (∀ o, o ∈ (fold_trace (unref_one lower ran dry_run protected f) (mk_unrefs [] [] [] []) (candidates f)).1 →
      ∃ n, n ∈ candidates f ∧ removable in_use n ∧ o ∈ removal f n) as Htr.
    { intros o Ho. apply elem_of_fold_trace in Ho as (r & n & Hn & Ho). exists n. split; [done|].
      pose proof (unref_one_spec f r n) as Hs. cbv zeta in Hs. rewrite <-Hrm by done.
      destruct (_ || _); [destruct Hs as [Hs _]; rewrite Hs in Ho; by apply elem_of_nil in Ho|].
      destruct Hs as [Hs _]. by rewrite Hs in Ho. }
    destruct (fold_trace _ _ (candidates f)) as [tr [r|e]]; cbn [fst snd] in *; rewrite ?app_nil_r;
      (split; [exact Htr|]); [|by intros ? [=]].
    destruct Hind as [Hd ->]. intros r' [= <-]. unfold dead_stems at 1 3. cbn [ur_removed]. fold (dead_stems r).
    split; [|done]. intros n. rewrite Hd, list_elem_of_filter. split; intros [? ?].
    + split; [done|]. by apply Hrm.
    + split; [|done]. by apply Hrm.
Qed.

(** What a removal of a candidate runs. *)
Lemma removal_ops f in_use pooled n o :
  pool_stems lower v pool c = Ok (in_use, pooled) → find_boxes lower v pool c registered files = Ok f →
  n ∈ candidates f →
  o ∈ removal f n ↔ dry_run = false ∧
    ((o = BoxRemove n ∧ n ∈ registered.*1) ∨ ∃ a, o = Unlink a ∧ cache_of n a).
Proof.
  intros Hp Hf Hn. apply (candidates_spec f n in_use pooled Hf Hp) in Hn as (Hg & Hret & _).
  destruct (find_boxes_Ok f Hf) as (_ & _ & _ & _ & _ & Hreg & _ & Hcached). unfold removal.
  destruct dry_run; [rewrite elem_of_nil; split; [done|by intros [? _]]|].
  rewrite elem_of_app, list_elem_of_fmap. setoid_rewrite Hcached; [|done].
  assert (o ∈ (if bool_decide (n ∈ fd_registered f) then [BoxRemove n] else []) ↔ o = BoxRemove n ∧ n ∈ registered.*1) as ->; [|tauto].
  case_bool_decide as Hr; rewrite Hreg in Hr; [rewrite list_elem_of_singleton|rewrite elem_of_nil]; tauto.
Qed.

(** [box gc --unreferenced] is safe: whatever fails, it deregisters and deletes nothing but
    the registrations and the cache files of boxes with a generated name that is not
    retired, that the catalog resolves to on no host, and that no live overlay backs onto;
    a dry run runs nothing. It is complete: when it succeeds, the boxes it reports removed
    are all of these it found registered, cached or in the pool, and each of their
    registrations and cache files was removed. *)
Theorem unreferenced_exact in_use pooled :
  pool_stems lower v pool c = Ok (in_use, pooled) →
  (∀ o, o ∈ run.1 → dry_run = false ∧ ∃ n, removable in_use n ∧
     ((o = BoxRemove n ∧ n ∈ registered.*1) ∨ ∃ a, o = Unlink a ∧ cache_of n a)) ∧
  ∀ r, run.2 = Ok r →
    (∀ n, n ∈ dead_stems r ↔ removable in_use n ∧ (n ∈ registered.*1 ∨ (∃ a, cache_of n a) ∨ n ∈ pooled)) ∧
    (dry_run = false → ∀ n, n ∈ dead_stems r →
       (n ∈ registered.*1 → BoxRemove n ∈ run.1) ∧ ∀ a, cache_of n a → Unlink a ∈ run.1).
Proof.
  intros Hp. destruct (find_boxes lower v pool c registered files) as [f|e] eqn:Hf; cycle 1.
  { unfold clean_unreferenced. rewrite Hf. split; [by intros ? ?%elem_of_nil|by intros ? [=]]. }
  destruct (unreferenced_run f in_use pooled Hp Hf) as [Hops Hok]. split.
  - intros o (n & Hn & Hrm & [? Ho]%(removal_ops f in_use pooled n o Hp Hf Hn))%Hops. split; [done|]. by exists n.
  - intros r [Hdead Htr]%Hok. split.
    + intros n. rewrite Hdead, (candidates_spec f n in_use pooled Hf Hp). unfold removable. tauto.
    + intros Hdry n Hn. rewrite Htr. pose proof Hn as [Hc _]%Hdead.
      assert (∀ o, o ∈ removal f n → o ∈ dead_stems r ≫= removal f) as Hin
        by (intros o Ho; apply list_elem_of_bind; by exists n).
      split; [intros Hr|intros a Ha]; apply Hin, (removal_ops f in_use pooled n _ Hp Hf Hc); (split; [done|]);
        [by left|right; by exists a].
Qed.
End unreferenced.

(** ** A cleaned box is pristine *)

Section pristine.
Context (lower : text → text) (fleet : list (text * BoxSpec)) (dir : text) (ran : text → Ran).

Definition files_of (name : text) : list text := default [] (box_files <$> dget fleet name).

Lemma clean_records (l : list text) st :
  ∃ rep, (fold_trace (clean_record dir) st l).2 = Ok (filter (λ a, a ∉ l) st.1, rep) ∧
    ∀ o, o ∈ (fold_trace (clean_record dir) st l).1 ↔ ∃ a, o = Unlink a ∧ a ∈ st.1 ∧ a ∈ l.
Proof.
  revert st. induction l as [|a l IH]; intros [fs rep].
  { exists rep. cbn [fold_trace]. split; [cbn [fst snd quiet]; do 2 f_equal|].
    - clear. induction fs as [|a fs IH]; [done|]. rewrite filter_cons, decide_True by apply not_elem_of_nil.
      by rewrite <-IH.
    - intros o. cbn. rewrite elem_of_nil. split; [done|]. by intros (? & _ & _ & ?%elem_of_nil). }
  cbn [fold_trace]. unfold clean_record at 1 3. cbn [fst snd].
  case_bool_decide as Ha.
  - destruct (IH (filter (λ b, b ≠ a) fs, rep ++ [dir ++ u "/" ++ a])) as (rep' & Hr & Ho). exists rep'.
    unfold then_, emit. cbn [fst snd]. split.
    + rewrite Hr. cbn [fst]. rewrite list_filter_filter. do 2 f_equal. apply list_filter_iff. intros b.
      rewrite not_elem_of_cons. tauto.
    + intros o. cbn [app]. rewrite elem_of_cons, Ho. cbn [fst]. setoid_rewrite list_elem_of_filter.
      setoid_rewrite elem_of_cons. split.
      * intros [->|(b & -> & [? ?] & ?)]; [exists a; tauto|exists b; tauto].
      * intros (b & -> & Hb & Hbl). destruct (decide (b = a)) as [->|]; [by left|right; exists b; tauto].
  - destruct (IH (fs, rep)) as (rep' & Hr & Ho). exists rep'. unfold then_, quiet. cbn [fst snd app]. split.
    + rewrite Hr. cbn [fst]. do 2 f_equal. apply list_filter_ext. intros b Hb. rewrite not_elem_of_cons.
      split; [intros ?; split; [by intros ->|done]|tauto].
    + intros o. rewrite Ho. cbn [fst]. setoid_rewrite elem_of_cons. split; intros (b & -> & ? & Hb); exists b;
        (split_and!; [done..|]); [by right|]. by destruct Hb as [->|?].
Qed.

Lemma clean_box_spec st n :
  let m := clean_box lower fleet dir ran st n in
  (∀ o, o ∈ m.1 → o = BoxRemove n ∨ ∃ a, o = Unlink a ∧ a ∈ st.1 ∧ a ∈ files_of n) ∧
  ∀ st', m.2 = Ok st' → is_Some (dget fleet n) ∧ st'.1 = filter (λ a, a ∉ files_of n) st.1 ∧
    ∀ o, o ∈ m.1 ↔ o = BoxRemove n ∨ ∃ a, o = Unlink a ∧ a ∈ st.1 ∧ a ∈ files_of n.
Proof.
  cbv zeta. unfold clean_box, files_of. destruct (dget fleet n) as [s|]; cycle 1.
  { split; [by intros ? ?%elem_of_nil|by intros ? [=]]. }
  destruct (clean_records (box_files s) st) as (rep & Hr & Ho). cbn [fmap option_fmap option_map default from_option id].
  unfold vagrant_box_remove, then_, emit, quiet. cbn [of_option fst snd app]. rewrite Hr. cbn [fst snd].
  destruct (ran n) as [rc out]. destruct ((rc =? 0)%Z || _); cbn [fst snd].
  - split.
    + intros o. rewrite elem_of_app, list_elem_of_singleton, Ho. tauto.
    + intros st' [= <-]. split_and!; [by eexists|done|]. intros o.
      rewrite elem_of_app, list_elem_of_singleton, Ho. tauto.
  - split; [|by intros ? [=]]. intros o. rewrite elem_of_app, list_elem_of_singleton, Ho. tauto.
Qed.

(** Cleaning makes each named box pristine: when it succeeds, every named box is in the
    fleet, it deleted exactly the artifacts and records of these boxes that were there and
    deregistered exactly these boxes, and the cache keeps every other file; when it
    fails, it touched nothing else either. *)
Theorem clean_boxes_pristine files names :
  let m := clean_boxes lower fleet dir ran files names in
  (∀ o, o ∈ m.1 → ∃ n, n ∈ names ∧ (o = BoxRemove n ∨ ∃ a, o = Unlink a ∧ a ∈ files ∧ a ∈ files_of n)) ∧
  ∀ left rep, m.2 = Ok (left, rep) →
    left = filter (λ a, a ∉ names ≫= files_of) files ∧
    (∀ a, Unlink a ∈ m.1 ↔ a ∈ files ∧ a ∈ names ≫= files_of) ∧
    (∀ n, BoxRemove n ∈ m.1 ↔ n ∈ names) ∧ ∀ n, n ∈ names → is_Some (dget fleet n).
Proof.
  cbv zeta. unfold clean_boxes.
  opose proof (fold_trace_ind (clean_box lower fleet dir ran)
    (λ seen st tr, st.1 = filter (λ a, a ∉ seen ≫= files_of) files ∧
       (∀ a, Unlink a ∈ tr ↔ a ∈ files ∧ a ∈ seen ≫= files_of) ∧
       (∀ n, BoxRemove n ∈ tr ↔ n ∈ seen) ∧ ∀ n, n ∈ seen → is_Some (dget fleet n)) (files, []) names _ _) as Hind.
  - cbn [fst]. split_and!.
    + cbn [mbind list_bind]. clear. induction files as [|a fs IH]; [done|].
      rewrite filter_cons, decide_True by apply not_elem_of_nil. by rewrite <-IH.
    + intros a. rewrite !elem_of_nil. tauto.
    + intros n. by rewrite !elem_of_nil.
    + by intros n ?%elem_of_nil.
  - intros seen n rest st tr st' _ (Hfs & Hun & Hrm & Hin) Hst.
    destruct (clean_box_spec st n) as [_ Hspec]. destruct (Hspec _ Hst) as (Hn & Hst' & Hops).
    assert (∀ a, a ∈ (seen ++ [n]) ≫= files_of ↔ a ∈ seen ≫= files_of ∨ a ∈ files_of n) as Hsn
      by (intros a; by rewrite bind_app, elem_of_app, bind_cons, app_nil_r).
    split_and!.
    + rewrite Hst', Hfs, list_filter_filter. apply list_filter_iff. intros a. rewrite Hsn. tauto.
    + intros a. rewrite elem_of_app, Hun, Hops, Hsn, Hfs. setoid_rewrite list_elem_of_filter. split.
      * intros [?|[[=]|(b & [= <-] & ? & ?)]]; tauto.
      * intros [Ha [?|?]]; [by left; split|]. destruct (decide (a ∈ seen ≫= files_of)); [by left; split|].
        right; right. exists a. tauto.
    + intros k. rewrite !elem_of_app, Hrm, Hops, list_elem_of_singleton. split.
      * intros [?|[[= ->]|(b & [=] & _)]]; tauto.
      * intros [?| ->]; tauto.
    + intros k [Hk| ->%list_elem_of_singleton]%elem_of_app; [by apply Hin|done].
  - destruct (fold_trace _ _ names) as [tr [[left rep]|e]]; cbn [fst snd] in *.
    + destruct Hind as (-> & Hun & Hrm & Hin). split; [|by intros ? ? [= <- <-]].
      intros [a|n] Ho.
      * apply Hun in Ho as [Ha (n & Han & Hn)%list_elem_of_bind]. exists n. split; [done|]. right. by exists a.
      * exists n. apply Hrm in Ho. split; [done|by left].
    + split; [|by intros ? ? [=]]. destruct Hind as (seen & n & rest & st & tr' & -> & (Hfs & Hun & Hrm & _) & _ & ->).
      assert (n ∈ seen ++ n :: rest) as Hn by (rewrite elem_of_app, elem_of_cons; tauto).
      intros o [Ho|Ho]%elem_of_app.
      * destruct o as [a|k].
        -- apply Hun in Ho as [Ha (k & Hak & Hk)%list_elem_of_bind]. exists k. rewrite elem_of_app. split; [by left|].
           right. by exists a.
        -- exists k. apply Hrm in Ho. rewrite elem_of_app. split; [by left|by left].
      * exists n. split; [done|]. destruct (clean_box_spec st n) as [Hspec _].
        destruct (Hspec o Ho) as [->|(a & -> & Ha & Han)]; [by left|]. right. exists a.
        rewrite Hfs in Ha. by apply list_elem_of_filter in Ha as [_ ?].
Qed.
End pristine.

(** ** The collection spares what a build needs *)

(** A box some build on some host needs is one the catalog resolves to. *)
Lemma build_names_resolvable c roles fleet protected build facts names :
  catalog_ok c → resolvable_box_names c roles fleet = Ok protected →
  boxes_for_build build facts c roles = Ok names → ∀ n, n ∈ names → n ∈ protected.
Proof.
  intros Hc Hp Hb n Hn. unfold resolvable_box_names in Hp. res_inv. rename x into boxes. subst protected.
  match goal with H : all_boxes _ _ _ = Ok _ |- _ => apply all_boxes_Ok in H as (_ & _ & Hshared & Hstack) end.
  unfold boxes_for_build, shared_names in Hb. res_inv. subst names. rename x into shared, x0 into rest.
  apply elem_of_app. left. apply elem_of_uniq, elem_of_app in Hn as [Hn|Hn].
  - match goal with H : res_mapM _ SHARED_ROLES = Ok shared |- _ => rename H into Hsh end.
    apply (res_mapM_elem _ _ _ _ Hsh) in Hn as (role & Hr & Hbx). res_inv.
    destruct (Hshared role x Hr) as (b & Hb' & Hin); [done|]. simplify_eq. by same_box.
  - apply list_elem_of_join in Hn as (l & Hn & Hl).
    match goal with H : res_mapM (stack_names _ _ _) _ = Ok rest |- _ =>
      apply (res_mapM_elem _ _ _ _ H) in Hl as ([st rs] & Hsr & Hnames) end.
    destruct (stack_names_Ok _ _ _ _ _ Hc Hnames n Hn) as (role & r & b & spec & Hb & <- & Hr & Hs & Hsup & _).
    by destruct (Hstack st rs role spec r Hsr Hr Hs Hsup) as (b' & Hb' & Hin); [done|]; same_box.
Qed.


(** ** The migration is exact *)

Section migration.
Context {A : Type} (fleet : list (text * BoxSpec)).

Abbreviation cache := (gmap text (option A)).

(** A move the migration makes: a legacy file whose new name is free. *)
Definition movable (fs : cache) (m : text * text) : Prop := (∃ a, fs !! m.1 = Some (Some a)) ∧ fs !! m.2 = None.

#[export] Instance movable_dec fs m : Decision (movable fs m).
Proof.
  refine (cast_if_and (decide (is_Some (mjoin (fs !! m.1)))) (decide (fs !! m.2 = None))); unfold movable.
  - split; [|done]. destruct (fs !! m.1) as [[a|]|]; [by exists a|by destruct i..].
  - by intros [_ ?].
  - intros [(a & Ha) _]. rewrite Ha in n. by destruct n.
Defined.

Lemma migrate_one_movable dry_run renamed fs m :
  (movable fs m ∧ ∃ a, fs !! m.1 = Some (Some a) ∧
     migrate_one dry_run (renamed, fs) m = (renamed ++ [m], if dry_run then fs else <[m.2 := Some a]> (delete m.1 fs))) ∨
  (¬ movable fs m ∧ migrate_one dry_run (renamed, fs) m = (renamed, fs)).
Proof.
  unfold migrate_one, movable. destruct (fs !! m.1) as [[a|]|]; [|right; split; [by intros [[? [=]] _]|done]..].
  destruct (fs !! m.2); [right; split; [by intros [_ [=]]|done]|left].
  split; [split; [by eexists|done]|by eexists].
Qed.

(** Moves without a clash of names do not meet. *)
Lemma moves_apart (moves : list (text * text)) m k :
  NoDup (moves.*1 ++ moves.*2) → m ∈ moves → k ∈ moves →
  m.1 ≠ k.2 ∧ (m.1 = k.1 → m = k) ∧ (m.2 = k.2 → m = k).
Proof.
  intros (H1 & Hx & H2)%NoDup_app Hm Hk. split.
  - intros Heq. apply (Hx m.1); [by apply list_elem_of_fmap_2|]. rewrite Heq. by apply list_elem_of_fmap_2.
  - apply list_elem_of_lookup_1 in Hm as [i Hi], Hk as [j Hj]. split; intros Heq.
    + assert (i = j) as <-; [|congruence].
      eapply (NoDup_lookup moves.*1 i j m.1); [done|by rewrite list_lookup_fmap, Hi|by rewrite list_lookup_fmap, Hj, Heq].
    + assert (i = j) as <-; [|congruence].
      eapply (NoDup_lookup moves.*2 i j m.2); [done|by rewrite list_lookup_fmap, Hi|by rewrite list_lookup_fmap, Hj, Heq].
Qed.

(** A run over moves whose names are all distinct. *)
Lemma migrate_run dry_run moves renamed fs :
  NoDup (moves.*1 ++ moves.*2) →
  let out := foldl (migrate_one dry_run) (renamed, fs) moves in
  out.1 = renamed ++ filter (movable fs) moves ∧
  (∀ m, m ∈ moves → movable fs m → dry_run = false → out.2 !! m.2 = fs !! m.1 ∧ out.2 !! m.1 = None) ∧
  (∀ n, (∀ m, m ∈ moves → movable fs m → n ≠ m.1 ∧ n ≠ m.2) → out.2 !! n = fs !! n) ∧
  (dry_run = true → out.2 = fs).
Proof.
  revert renamed fs. induction moves as [|m moves IH]; intros renamed fs Hnd; cbn [foldl].
  { cbv zeta. rewrite app_nil_r. split_and!; [done| |done..]. by intros m Hm%elem_of_nil. }
  rewrite !fmap_cons in Hnd. cbn [app] in Hnd. apply NoDup_cons in Hnd as [H1 Hnd].
  rewrite <-Permutation_middle in Hnd. apply NoDup_cons in Hnd as [H2 Hnd].
  rewrite not_elem_of_app in H1. rewrite not_elem_of_app in H2. destruct H1 as [H11 H12], H2 as [H21 H22].
  apply not_elem_of_cons in H12 as [H10 H12].
  assert (∀ k, k ∈ moves → k.1 ≠ m.1 ∧ k.1 ≠ m.2 ∧ k.2 ≠ m.1 ∧ k.2 ≠ m.2) as Hfresh.
  { intros k Hk. split_and!; intros Heq; [apply H11|apply H21|apply H12|apply H22]; rewrite <-Heq; by apply list_elem_of_fmap_2. }
  destruct (migrate_one_movable dry_run renamed fs m) as [(Hm & a & Ha & ->)|[Hm ->]].
  - set (fs' := if dry_run then fs else _).
    assert (∀ n, n ≠ m.1 → n ≠ m.2 → fs' !! n = fs !! n) as Hsame.
    { intros n ??. unfold fs'. destruct dry_run; [done|]. by rewrite lookup_insert_ne, lookup_delete_ne by done. }
    assert (∀ k, k ∈ moves → movable fs' k ↔ movable fs k) as Hmov.
    { intros k Hk. destruct (Hfresh k Hk) as (? & ? & ? & ?). unfold movable. by rewrite !Hsame by done. }
    destruct (IH (renamed ++ [m]) fs' Hnd) as (Hout & Hdone & Hkeep & Hdry). cbv zeta in *. split_and!.
    + rewrite Hout, filter_cons, decide_True, <-app_assoc by done. cbn [app]. do 2 f_equal.
      by apply list_filter_ext.
    + intros k [->|Hk]%elem_of_cons Hkm Hd.
      * assert (∀ k, k ∈ moves → movable fs' k → m.1 ≠ k.1 ∧ m.1 ≠ k.2) as Hk1 by (intros k Hk _; destruct (Hfresh k Hk) as (? & ? & ? & ?); done).
        assert (∀ k, k ∈ moves → movable fs' k → m.2 ≠ k.1 ∧ m.2 ≠ k.2) as Hk2 by (intros k Hk _; destruct (Hfresh k Hk) as (? & ? & ? & ?); done).
        rewrite !Hkeep by done. unfold fs'. rewrite Hd, lookup_insert_eq, lookup_insert_ne, lookup_delete_eq by done. done.
      * destruct (Hfresh k Hk) as (? & ? & ? & ?). destruct (Hdone k Hk) as [-> ->]; [by apply Hmov|done|]. by rewrite Hsame.
    + intros n Hn. destruct (Hn m) as [? ?]; [by left|done|]. rewrite Hkeep; [by apply Hsame|].
      intros k Hk Hkm. apply Hn; [by right|by apply Hmov].
    + intros Hd. rewrite Hdry by done. unfold fs'. by rewrite Hd.
  - destruct (IH renamed fs Hnd) as (Hout & Hdone & Hkeep & Hdry). cbv zeta in *. split_and!; [| | |done].
    + by rewrite Hout, filter_cons, decide_False.
    + intros k [->|Hk]%elem_of_cons Hkm Hd; [done|by apply Hdone].
    + intros n Hn. apply Hkeep. intros k Hk. apply Hn. by right.
Qed.

(** The migration of the cache, where no two of its names clash: it renames exactly the
    legacy files whose new name is free, in order, so that it never overwrites an entry;
    each keeps its content under the new name and the old name is gone, every other entry
    is as it was; a dry run reports the same renames and makes none; and a second run
    renames nothing. *)
Theorem migrate_exact (fs : cache) dry_run :
  NoDup ((cache_moves fleet).*1 ++ (cache_moves fleet).*2) →
  let out := migrate_box_cache fleet false fs in
  out.1 = filter (movable fs) (cache_moves fleet) ∧
  (∀ m, m ∈ out.1 → out.2 !! m.2 = fs !! m.1 ∧ out.2 !! m.1 = None) ∧
  (∀ n, (n ∉ out.1.*1) → (n ∉ out.1.*2) → out.2 !! n = fs !! n) ∧
  migrate_box_cache fleet true fs = (out.1, fs) ∧
  migrate_box_cache fleet dry_run out.2 = ([], out.2).
Proof.
  intros Hnd. cbv zeta. unfold migrate_box_cache.
  destruct (migrate_run false _ [] fs Hnd) as (Hout & Hdone & Hkeep & _). cbv zeta in *.
  set (out := foldl _ _ _) in *. cbn [app] in Hout.
  assert (∀ m, m ∈ out.1 ↔ m ∈ cache_moves fleet ∧ movable fs m) as Hin
    by (intros m; rewrite Hout, list_elem_of_filter; tauto).
  split_and!; [done| | | |].
  - intros m [Hm Hmv]%Hin. by apply Hdone.
  - intros n H1 H2. apply Hkeep. intros m Hm Hmv. assert (m ∈ out.1) as Hmo by by apply Hin.
    split; intros ->; [apply H1|apply H2]; by apply list_elem_of_fmap_2.
  - destruct (migrate_run true _ [] fs Hnd) as (Hout' & _ & _ & Hdry). cbv zeta in *.
    rewrite (surjective_pairing (foldl _ _ _)). cbn [app] in Hout'. by rewrite Hout', Hout, Hdry.
  - destruct (migrate_run dry_run _ [] out.2 Hnd) as (Hout' & _ & Hkeep' & _). cbv zeta in *.
    assert (∀ m, m ∈ cache_moves fleet → ¬ movable out.2 m) as Hnone.
    { intros m Hm [(a & Ha) Hfree]. destruct (decide (movable fs m)) as [Hmv|Hmv].
      - destruct (Hdone m Hm Hmv eq_refl) as [_ Hgone]. by rewrite Hgone in Ha.
      - assert (∀ k, k ∈ cache_moves fleet → movable fs k → (m.1 ≠ k.1 ∧ m.1 ≠ k.2) ∧ m.2 ≠ k.1 ∧ m.2 ≠ k.2) as Hap.
        { intros k Hk Hkm. destruct (moves_apart _ m k Hnd Hm Hk) as (? & Heq1 & Heq2), (moves_apart _ k m Hnd Hk Hm) as (? & _).
          assert (m ≠ k) by (by intros ->). split_and!; [by intros ?%Heq1|done|done|by intros ?%Heq2]. }
        apply Hmv. split; [exists a; rewrite <-Ha|rewrite <-Hfree]; symmetry; apply Hkeep; intros k Hk Hkm; by apply Hap. }
    rewrite (surjective_pairing (foldl _ _ _)). cbn [app] in Hout'. f_equal.
    + rewrite Hout'. apply elem_of_nil_inv. intros m [Hmv Hm]%list_elem_of_filter. by eapply Hnone.
    + apply map_eq. intros n. apply Hkeep'. intros m Hm Hmv. by destruct (Hnone m Hm).
Qed.
End migration.

(** The retired passes remove retired boxes and their cache files. *)
Lemma retired_ops (lower : text → text) ran registered files dry_run o :
  o ∈ (clean_retired lower ran registered dry_run).1 ∨ o ∈ (clean_retired_cache files dry_run).1 →
  ∃ n, n ∈ RETIRED_BOX_NAMES ∧ (o = BoxRemove n ∨ ∃ a, o = Unlink a ∧ (fat_cache_name a = Some n ∨ path_stem a = n)).
Proof.
  intros [Ho|Ho].
  - unfold clean_retired in Ho. apply elem_of_then in Ho as [Ho|(? & _ & Ho)]; [|by apply elem_of_nil in Ho].
    destruct dry_run; [by apply elem_of_nil in Ho|]. apply elem_of_each in Ho as (n & Hn & Ho).
    apply list_elem_of_singleton in Ho. exists n. split; [by apply list_elem_of_filter in Hn as [_ ?]|by left].
  - unfold clean_retired_cache in Ho. apply elem_of_then in Ho as [Ho|(? & _ & Ho)]; [|by apply elem_of_nil in Ho].
    destruct dry_run; [by apply elem_of_nil in Ho|]. apply elem_of_each in Ho as (a & Ha & Ho).
    apply list_elem_of_singleton in Ho. subst o.
    apply list_elem_of_filter in Ha as [_ Ha].
    assert (Forall (λ a, Exists (λ n, fat_cache_name a = Some n ∨ path_stem a = n) RETIRED_BOX_NAMES) retired_artifacts) as Hall
      by (apply (bool_decide_unpack _); by vm_compute).
    apply (proj1 (Forall_forall _ _) Hall), Exists_exists in Ha as (n & Hn & Ha). exists n. split; [done|].
    right. by exists a.
Qed.

Section spared.
Context (lower : text → text) (w : GcWorld) (pool : text) (dry_run unreferenced : bool).
Context (c : Catalog) (roles : list (text * gset text)) (fleet : list (text * BoxSpec)) (protected : list text).

Abbreviation gc_run := (box_gc lower w pool c protected dry_run unreferenced).

(** The operations of the command, by pass. *)
Lemma box_gc_cleaned o :
  Cleaned o ∈ gc_run.1 →
  (o ∈ (clean_retired lower (gw_remove w) (gw_registered w) dry_run).1 ∨ o ∈ (clean_retired_cache (gw_files w) dry_run).1) ∨
  o ∈ (clean_unreferenced lower (gw_virsh w) (gw_remove w) pool c protected (gw_registered_after w)
         (gw_files_after w) dry_run).1.
Proof.
  unfold box_gc. rewrite elem_of_then, elem_of_lift. intros [(o' & [= <-] & ?)|(_ & _ & H)]; [by left; left|].
  revert H. rewrite elem_of_then, elem_of_lift. intros [(o' & [= <-] & ?)|(_ & _ & H)]; [by left; right|].
  revert H. rewrite elem_of_then. setoid_rewrite elem_of_lift. intros [H|(_ & _ & (? & [=] & _))].
  destruct unreferenced; [|by apply elem_of_nil in H]. revert H. rewrite elem_of_then, elem_of_lift.
  intros [(o' & [= <-] & ?)|(? & _ & H)]; [by right|by apply elem_of_nil in H].
Qed.

Lemma box_gc_deletes n :
  VolDelete n ∈ gc_run.1 → ∃ dead,
    (dead = [] ∨ ∃ r, (clean_unreferenced lower (gw_virsh w) (gw_remove w) pool c protected (gw_registered_after w)
                        (gw_files_after w) dry_run).2 = Ok r ∧ dead = dead_stems r) ∧
    n ∈ (gc_orphaned_images lower (gw_virsh_after w) (gw_store w) RETIRED_BOX_NAMES dry_run pool dead).1.
Proof.
  unfold box_gc. rewrite elem_of_then, elem_of_lift. intros [(o' & [=] & _)|(_ & _ & H)].
  revert H. rewrite elem_of_then, elem_of_lift. intros [(o' & [=] & _)|(_ & _ & H)].
  revert H. rewrite elem_of_then. setoid_rewrite elem_of_lift. intros [H|(dead & Hd & (o' & [= <-] & H))].
  - destruct unreferenced; [|by apply elem_of_nil in H]. revert H. rewrite elem_of_then, elem_of_lift.
    intros [(o' & [=] & _)|(? & _ & H)]. by apply elem_of_nil in H.
  - exists dead. split; [|done]. destruct unreferenced; [|left; by injection Hd as <-].
    right. apply then_Ok in Hd as (r & Hr & [= <-]). by exists r.
Qed.

(** C28. [box gc] spares what any build needs, on this host or another: whichever pass fails
    and with or without [--unreferenced], a box that some build file needs on some host,
    and whose name is not retired, keeps its registration and its cache files, and the
    base image its registration boots stays in the pool, whoever backs onto it. *)
Theorem box_gc_spares_builds build facts names n :
  catalog_ok c → resolvable_box_names c roles fleet = Ok protected →
  boxes_for_build build facts c roles = Ok names → n ∈ names →
  n ∉ RETIRED_BOX_NAMES →
  (Cleaned (BoxRemove n) ∉ gc_run.1) ∧
  (∀ a, fat_cache_name a = Some n → path_stem a ∉ RETIRED_BOX_NAMES → Cleaned (Unlink a) ∉ gc_run.1) ∧
  (∀ store imgs m, gw_store w = Some store → mk_boxdir n (Some imgs) ∈ store → (u "libvirt", m) ∈ imgs →
     dot_plus n = true → (0 ≤ m)%Z → is_Some (str_int m) → n ∉ retired_stems RETIRED_BOX_NAMES →
     VolDelete (volume_of n m) ∉ gc_run.1).
Proof.
  intros Hc Hp Hb Hn Hret. pose proof (build_names_resolvable _ _ _ _ _ _ _ Hc Hp Hb n Hn) as Hprot.
  set (unref := clean_unreferenced lower (gw_virsh w) (gw_remove w) pool c protected (gw_registered_after w)
                  (gw_files_after w) dry_run).
  assert ((∀ o, o ∈ unref.1 → ∃ k, (k ∉ protected) ∧ (o = BoxRemove k ∨ ∃ a, o = Unlink a ∧ fat_cache_name a = Some k)) ∧
    ∀ r, unref.2 = Ok r → n ∉ dead_stems r) as [Hunref Hdead].
  { destruct (pool_stems lower (gw_virsh w) pool c) as [[iu po]|e] eqn:Hps; cycle 1.
    { unfold unref, clean_unreferenced, find_boxes. rewrite Hps. split; [by intros ? ?%elem_of_nil|by intros ? [=]]. }
    destruct (find_boxes lower (gw_virsh w) pool c (gw_registered_after w) (gw_files_after w)) as [f|e] eqn:Hf; cycle 1.
    { unfold unref, clean_unreferenced. rewrite Hf. split; [by intros ? ?%elem_of_nil|by intros ? [=]]. }
    destruct (unreferenced_run lower (gw_virsh w) (gw_remove w) pool c protected (gw_registered_after w)
      (gw_files_after w) dry_run f iu po Hps Hf) as [Hops Hok]. split.
    - intros o (k & Hk & (_ & _ & Hnp & _) & [_ Ho]%(removal_ops lower (gw_virsh w) (gw_remove w) pool c _ _ dry_run f iu po k o Hps Hf Hk))%Hops.
      exists k. split; [done|]. destruct Ho as [[-> _]|(a & -> & _ & Ha & _)]; [by left|right; by exists a].
    - intros r [Hd _]%Hok [_ (_ & _ & Hnp & _)]%Hd. done. }
  assert (∀ o, Cleaned o ∈ gc_run.1 → ∃ k, k ≠ n ∧
    (o = BoxRemove k ∨ ∃ a, o = Unlink a ∧ (fat_cache_name a = Some k ∨ path_stem a ∈ RETIRED_BOX_NAMES))) as Hcl.
  { intros o [Ho|Ho]%box_gc_cleaned.
    - apply retired_ops in Ho as (k & Hk & Ho). exists k. split; [by intros ->|].
      destruct Ho as [->|(a & -> & [Ha| <-])]; [by left|right; exists a; tauto..].
    - apply Hunref in Ho as (k & Hk & Ho). exists k. split; [by intros ->|].
      destruct Ho as [->|(a & -> & Ha)]; [by left|right; exists a; tauto]. }
  split_and!.
  - intros (k & Hk & [[= ->]|(a & [=] & _)])%Hcl. done.
  - intros a Ha Hst (k & Hk & [[=]|(a' & [= <-] & [Hk'|?])])%Hcl; [congruence|done].
  - intros store imgs m Hst Hdir Hi Hdot Hm Hstr Hrst (dead & Hd & Hv)%box_gc_deletes.
    destruct (scan_pool lower (gw_virsh_after w) pool) as [s|e] eqn:Hs; cycle 1.
    { unfold gc_orphaned_images in Hv. rewrite Hs in Hv. by destruct e; apply elem_of_nil in Hv. }
    pose proof (gc_deletes_reclaimable _ _ _ _ _ _ _ s _ Hs Hv) as (_ & _ & Hw & _). apply Hw. rewrite Hst.
    apply (registered_image_wanted _ _ store n m imgs); [done..|]. rewrite not_elem_of_app. split; [done|].
    destruct Hd as [->|(r & Hr & ->)]; [apply not_elem_of_nil|by apply Hdead].
Qed.
End spared.

(** ** Witnesses *)

Definition demo_protected : list text :=
  match resolvable_box_names demo_catalog demo_roles demo_fleet with Ok p => p | Err _ => [] end.

(** A box left behind by a re-pin, registered, cached and imported; a protected one; a foreign one. *)
Definition demo_registered : list (text * text) :=
  [(u "obs-ubuntu22", u "(libvirt, 0)"); (u "obs-ubuntu24", u "(libvirt, 0)"); (u "cloud-image/ubuntu", u "(libvirt, 0)")].
Definition demo_files : list text :=
  [u "obs-ubuntu22-x86_64.box"; u "obs-ubuntu22-x86_64.manifest-hash"; u "obs-ubuntu24-x86_64.box"; u "notes.txt"].
Definition demo_volumes : list text := [volume_of (u "obs-ubuntu22") 100; volume_of (u "obs-ubuntu24") 200].

Lemma unreferenced_exact_witness :
  ∃ r, (clean_unreferenced lower_ascii (demo_virsh demo_volumes) (λ _, (0%Z, [])) (u "default") demo_catalog
          demo_protected demo_registered demo_files false).2 = Ok r ∧
    dead_stems r = [u "obs-ubuntu22"] ∧
    Unlink (u "obs-ubuntu22-x86_64.manifest-hash") ∈
      (clean_unreferenced lower_ascii (demo_virsh demo_volumes) (λ _, (0%Z, [])) (u "default") demo_catalog
          demo_protected demo_registered demo_files false).1.
Proof.
  destruct (pool_stems lower_ascii (demo_virsh demo_volumes) (u "default") demo_catalog) as [[iu po]|e] eqn:Hp;
    [|by vm_compute in Hp].
  destruct (unreferenced_exact lower_ascii (demo_virsh demo_volumes) (λ _, (0%Z, [])) (u "default") demo_catalog
    demo_protected demo_registered demo_files false iu po Hp) as [_ Hok].
  destruct (clean_unreferenced _ _ _ _ _ _ _ _ _).2 as [r|e] eqn:Hr; [|by vm_compute in Hr].
  destruct (Hok r eq_refl) as [Hdead Hall]. exists r. split; [done|].
  assert (dead_stems r = [u "obs-ubuntu22"]) as Hd by (vm_compute in Hr; injection Hr as <-; by vm_compute).
  split; [done|]. apply (Hall eq_refl (u "obs-ubuntu22")); [rewrite Hd; by left|].
  split_and!; [apply (bool_decide_unpack _); by vm_compute|by vm_compute|
    apply (bool_decide_unpack _); by vm_compute..].
Defined.

Definition demo_gc_world : GcWorld :=
  mk_gcworld demo_registered demo_registered demo_files demo_files (demo_virsh demo_volumes) (demo_virsh demo_volumes)
    (Some [mk_boxdir (u "obs-ubuntu24") (Some [(u "libvirt", 200%Z)])]) (λ _, (0%Z, [])).

Lemma box_gc_spares_builds_witness :
  ∃ names, boxes_for_build (mk_build None) demo_x86 demo_catalog demo_roles = Ok names ∧ u "obs-ubuntu24" ∈ names ∧
    (Cleaned (BoxRemove (u "obs-ubuntu22")) ∈
       (box_gc lower_ascii demo_gc_world (u "default") demo_catalog demo_protected false true).1) ∧
    (Cleaned (BoxRemove (u "obs-ubuntu24")) ∉
       (box_gc lower_ascii demo_gc_world (u "default") demo_catalog demo_protected false true).1) ∧
    VolDelete (volume_of (u "obs-ubuntu24") 200) ∉
      (box_gc lower_ascii demo_gc_world (u "default") demo_catalog demo_protected false true).1.
Proof.
  destruct (boxes_for_build (mk_build None) demo_x86 demo_catalog demo_roles) as [names|e] eqn:Hn; [|by vm_compute in Hn].
  assert (u "obs-ubuntu24" ∈ names) as Hin
    by (vm_compute in Hn; injection Hn as <-; apply (bool_decide_unpack _); by vm_compute).
  assert (resolvable_box_names demo_catalog demo_roles demo_fleet = Ok demo_protected) as Hp by by vm_compute.
  destruct (box_gc_spares_builds lower_ascii demo_gc_world (u "default") false true demo_catalog demo_roles demo_fleet
    demo_protected (mk_build None) demo_x86 names (u "obs-ubuntu24") demo_catalog_ok Hp Hn Hin) as (Hr & _ & Hv);
    [apply (bool_decide_unpack _); by vm_compute|].
  exists names. split_and!; [done|done| |exact Hr|].
  - assert (∃ a b, (box_gc lower_ascii demo_gc_world (u "default") demo_catalog demo_protected false true).1 =
      a ++ Cleaned (BoxRemove (u "obs-ubuntu22")) :: b) as (a & b & ->).
    { exists (take 2 (box_gc lower_ascii demo_gc_world (u "default") demo_catalog demo_protected false true).1),
        (drop 3 (box_gc lower_ascii demo_gc_world (u "default") demo_catalog demo_protected false true).1).
      by vm_compute. }
    rewrite elem_of_app, elem_of_cons. tauto.
  - apply (Hv _ [(u "libvirt", 200%Z)] 200%Z eq_refl); [by left|by left|by vm_compute|done|by vm_compute; eexists|].
    apply (bool_decide_unpack _); by vm_compute.
Defined.

Lemma migrate_exact_witness :
  let fs : gmap text (option Z) := {[ u "mq-rdqm-rhel9.box" := Some 7%Z; u "obs-ubuntu24.box" := Some 8%Z;
    u "obs-ubuntu24-x86_64.box" := Some 9%Z ]} in
  (migrate_box_cache demo_fleet false fs).1 = [(u "mq-rdqm-rhel9.box", u "mq-rdqm-rhel9-x86_64.box")] ∧
  (migrate_box_cache demo_fleet false fs).2 !! u "mq-rdqm-rhel9-x86_64.box" = Some (Some 7%Z) ∧
  (migrate_box_cache demo_fleet false (migrate_box_cache demo_fleet false fs).2).1 = [].
Proof.
  intros fs. assert (NoDup ((cache_moves demo_fleet).*1 ++ (cache_moves demo_fleet).*2)) as Hnd
    by (apply (bool_decide_unpack _); by vm_compute).
  destruct (migrate_exact demo_fleet fs false Hnd) as (_ & Hdone & _ & _ & Hagain).
  assert ((migrate_box_cache demo_fleet false fs).1 = [(u "mq-rdqm-rhel9.box", u "mq-rdqm-rhel9-x86_64.box")]) as Hout
    by by vm_compute.
  split_and!; [done| |by rewrite Hagain].
  destruct (Hdone (u "mq-rdqm-rhel9.box", u "mq-rdqm-rhel9-x86_64.box")) as [Hl _]; [rewrite Hout; by left|].
  cbn [fst snd] in Hl. rewrite Hl. by vm_compute.
Defined.
