(* ===== verification/Runtime.v ===== *)
(** * The pinned guest runtime on the host

    Models mqlab/runtime.py: the tarball cache, verified against the pin on every use, and
    the unpacked interpreter, made in a staging directory that is renamed into place. A
    run is the sequence of its file operations, so that a run cut at any of them is a
    prefix: a download is written in pieces, an archive is unpacked and a tree removed
    file by file. The digest, the download and the archive format are parameters. *)

From S2P Require Import Prelude PyText PyDict PyCodec Trace Trees Versions.

#[local] Open Scope trace_scope.

Inductive RtError :=
  | NoBuild (e : CatalogError)                    (* VersionError *)
  | UnknownHostArch (raw : text)
  | PinMismatch (name actual expected : text)
  | NotInstallOnly (name : text)
  | DownloadFailed | BadArchive                   (* urllib's and tarfile's exceptions *)
  | NotThreeParts (version : text).               (* ValueError *)

(** [_ARCH_ALIASES]. *)
Definition ARCH_ALIASES : list (text * text) :=
  [(u "x86_64", u "x86_64"); (u "amd64", u "x86_64"); (u "aarch64", u "aarch64"); (u "arm64", u "aarch64")].

Definition host_arch (lower : text → text) (raw : text) : res RtError text :=
  of_option (UnknownHostArch raw) (dget ARCH_ALIASES (lower raw)).

(** [RuntimePin.minor]. *)
Definition rp_minor (p : RuntimePin) : res RtError text :=
  match split_on 46 (rp_version p) with
  | [major; minor; _] => Ok (major ++ u "." ++ minor)
  | _ => Err (NotThreeParts (rp_version p))
  end.

(** ** The two caches *)

(** The files of the tarball directory, and the directories of the unpack root. *)
Record Store := mk_store { rs_tars : gmap text text; rs_trees : dirs }.

Inductive FsOp :=
  | TarCreate (name : text) | TarAppend (name chunk : text)
  | TarRename (a b : text) | TarRemove (name : text)
  | Tree (o : TreeOp).

Definition tars (f : gmap text text → gmap text text) (s : Store) : Store := mk_store (f (rs_tars s)) (rs_trees s).

Definition fs_apply (s : Store) (o : FsOp) : Store :=
  match o with
  | TarCreate n => tars <[n := []]> s
  | TarAppend n c => tars (alter (.++ c) n) s
  | TarRename a b => tars (λ m, match m !! a with Some c => <[b := c]> (delete a m) | None => m end) s
  | TarRemove n => tars (delete n) s
  | Tree o => mk_store (rs_tars s) (tree_apply (rs_trees s) o)
  end.

Definition fs_play (s : Store) (ops : list FsOp) : Store := foldl fs_apply s ops.

(** What a download delivers, in pieces, and whether it ended well. *)
Record Download := mk_download { dl_chunks : list text; dl_ok : bool }.

Section runtime.
Context (sha256 : text → text) (fetch : text → Download).
(** The files an archive unpacks to, and whether all of it could be read. *)
Context (untar : text → list (text * text) * bool).

(** [ensure_tarball]: the name of the verified tarball, with its content. *)
Definition ensure_tarball (p : RuntimePin) (arch : text) (s : Store) : traced FsOp RtError (text * text) :=
  let* name := quiet (map_err NoBuild (tarball p arch)) in
  let* expected := quiet (of_option (NoBuild (NoRuntimeBuild arch [])) (dget (rp_sha256 p) arch)) in
  let* content :=
    match rs_tars s !! name with
    | Some c => quiet (Ok c)
    | None =>
        let* src := quiet (map_err NoBuild (url p arch)) in
        let dl := fetch src in
        let* _ := (TarCreate (partial name) :: (TarAppend (partial name) <$> dl_chunks dl),
                   if dl_ok dl then Ok () else Err DownloadFailed) in
        emit (TarRename (partial name) name) (Ok (mjoin (dl_chunks dl)))
    end in
  if bool_decide (sha256 content = expected) then quiet (Ok (name, content))
  else emit (TarRemove name) (Err (PinMismatch name (sha256 content) expected)).

Definition interpreter_dir (p : RuntimePin) (arch : text) : text := u "cpython-" ++ rp_token p ++ u "-" ++ arch.
Definition interpreter_file (p : RuntimePin) : res RtError text :=
  minor ← rp_minor p; Ok (u "python/bin/python" ++ minor).

(** [ensure_interpreter]: the directory and the file of the interpreter in it. *)
Definition ensure_interpreter (p : RuntimePin) (arch : text) (s : Store) : traced FsOp RtError (text * text) :=
  let* tar := ensure_tarball p arch s in
  let target := interpreter_dir p arch in
  let staging := partial target in
  let* binary := quiet (interpreter_file p) in
  match file_of (rs_trees s) target binary with
  | Some _ => quiet (Ok (target, binary))
  | None =>
      let '(files, whole) := untar tar.2 in
      let* _ := (Tree <$> remake staging (rs_trees s !! staging) files, if whole : bool then Ok () else Err BadArchive) in
      if bool_decide (binary ∈ files.*1) then
        (Tree <$> replace_tree staging target (rs_trees s !! target), Ok (target, binary))
      else (Tree <$> rmtree staging (Some (files_map files)), Err (NotInstallOnly tar.1))
  end.
End runtime.

(** ** What the operations touch *)

Definition tree_ops (l : list FsOp) : list TreeOp := omap (λ o, match o with Tree o => Some o | _ => None end) l.

Lemma fs_play_app s l k : fs_play s (l ++ k) = fs_play (fs_play s l) k.
Proof. apply foldl_app. Qed.

(** The directories only see the operations on trees. *)
Lemma fs_play_trees s l : rs_trees (fs_play s l) = tree_play (rs_trees s) (tree_ops l).
Proof.
  revert s. induction l as [|o l IH]; intros s; [done|]. cbn [fs_play foldl].
  change (foldl fs_apply ?a l) with (fs_play a l). rewrite IH. by destruct o.
Qed.

Lemma fs_play_Tree s l : fs_play s (Tree <$> l) = mk_store (rs_tars s) (tree_play (rs_trees s) l).
Proof. revert s. induction l as [|o l IH]; intros s; [by destruct s|]. rewrite fmap_cons. cbn [fs_play foldl]. apply IH. Qed.

Lemma tree_ops_Tree l : tree_ops (Tree <$> l) = l.
Proof. induction l as [|o l IH]; [done|]. rewrite fmap_cons. cbn. f_equal. exact IH. Qed.

Lemma tree_ops_app l k : tree_ops (l ++ k) = tree_ops l ++ tree_ops k.
Proof. apply omap_app. Qed.

Lemma tree_ops_prefix l k : l `prefix_of` k → tree_ops l `prefix_of` tree_ops k.
Proof. intros [r ->]. rewrite tree_ops_app. by exists (tree_ops r). Qed.

Lemma appends_tar n chunks s c :
  rs_tars s !! n = Some c → rs_tars (fs_play s (TarAppend n <$> chunks)) !! n = Some (c ++ mjoin chunks).
Proof.
  revert s c. induction chunks as [|x chunks IH]; intros s c Hn; [cbn; by rewrite app_nil_r|].
  rewrite fmap_cons. change (fs_play s (TarAppend n x :: ?l)) with (fs_play (fs_apply s (TarAppend n x)) l).
  rewrite (IH _ (c ++ x)); [cbn [mjoin list_join]; by rewrite <-app_assoc|].
  cbn [fs_apply tars rs_tars]. by rewrite lookup_alter_eq, Hn.
Qed.

Section correct.
Context (sha256 : text → text) (fetch : text → Download) (untar : text → list (text * text) * bool).
Context (p : RuntimePin) (arch : text) (s : Store).

Abbreviation tar_run := (ensure_tarball sha256 fetch p arch s).
Abbreviation run := (ensure_interpreter sha256 fetch untar p arch s).
Abbreviation target := (interpreter_dir p arch).

Lemma ensure_tarball_trees : tree_ops tar_run.1 = [].
Proof.
  unfold ensure_tarball, then_, quiet, emit.
  destruct (map_err NoBuild (tarball p arch)) as [n|e]; cbn [fst snd]; [|done].
  destruct (dget (rp_sha256 p) arch) as [e|]; cbn [of_option fst snd app]; [|done].
  assert (∀ src, tree_ops (TarCreate (partial n) :: (TarAppend (partial n) <$> dl_chunks (fetch src))) = []) as Hdl.
  { intros src. cbn. by induction (dl_chunks (fetch src)). }
  destruct (rs_tars s !! n) as [c|]; cbn [fst snd app].
  - by case_bool_decide.
  - destruct (map_err NoBuild (url p arch)) as [src|e']; cbn [fst snd app]; [|done].
    destruct (dl_ok (fetch src)); cbn [fst snd]; [|apply Hdl].
    case_bool_decide; rewrite tree_ops_app; cbn [fst app]; rewrite app_comm_cons, tree_ops_app, Hdl; done.
Qed.

(** A tarball that is returned has the pinned digest, and is in the cache. *)
Lemma ensure_tarball_Ok name c :
  tar_run.2 = Ok (name, c) →
  tarball p arch = Ok name ∧ dget (rp_sha256 p) arch = Some (sha256 c) ∧
  rs_tars (fs_play s tar_run.1) !! name = Some c ∧ (rs_tars s !! name = Some c → tar_run.1 = []).
Proof.
  unfold ensure_tarball. intros (n & Hn & H)%then_Ok. rewrite (then_trace_Ok _ _ _ Hn).
  apply then_Ok in H as (e & He & H). rewrite (then_trace_Ok _ _ _ He). cbn [quiet fst app] in *.
  apply then_Ok in H as (c' & Hc & H). rewrite (then_trace_Ok _ _ _ Hc).
  case_bool_decide as Hsha; [|done]. injection H as -> ->. cbn [quiet fst]. rewrite app_nil_r.
  cbn [quiet snd] in Hn, He. apply map_err_Ok in Hn. unfold of_option in He. destruct (dget _ arch) as [e'|]; [|done].
  injection He as ->. rewrite Hsha. split; [done|]. split; [done|].
  destruct (rs_tars s !! name) as [c0|] eqn:Hs.
  - injection Hc as ->. done.
  - split; [|done]. apply then_Ok in Hc as (src & Hsrc & Hc). rewrite (then_trace_Ok _ _ _ Hsrc).
    apply then_Ok in Hc as ([] & Hdl & Hc). rewrite (then_trace_Ok _ _ _ Hdl). injection Hc as <-. cbn [quiet emit fst app].
    change (fs_play s (TarCreate (partial name) :: ?l)) with (fs_play (fs_apply s (TarCreate (partial name))) l).
    rewrite fs_play_app. cbn [fs_play foldl fs_apply tars rs_tars].
    change (foldl fs_apply ?a ?l) with (fs_play a l).
    rewrite (appends_tar _ _ _ []); [by rewrite lookup_insert_eq|]. cbn [fs_apply tars rs_tars]. by rewrite lookup_insert_eq.
Qed.

(** A run either stops at the tarball or at an interpreter already there, or unpacks. *)
Lemma ensure_interpreter_cases :
  (run.1 = tar_run.1 ∧ ∀ d b, run.2 = Ok (d, b) → d = target ∧ interpreter_file p = Ok b ∧
     is_Some (file_of (rs_trees s) target b) ∧ ∃ nc, tar_run.2 = Ok nc) ∨
  ∃ name c b rest, tar_run.2 = Ok (name, c) ∧ interpreter_file p = Ok b ∧ file_of (rs_trees s) target b = None ∧
    run.1 = tar_run.1 ++ (Tree <$> remake (partial target) (rs_trees s !! partial target) (untar c).1 ++ rest) ∧
    (((untar c).2 = true ∧ b ∈ (untar c).1.*1 ∧ rest = replace_tree (partial target) target (rs_trees s !! target) ∧
        run.2 = Ok (target, b)) ∨
     (∃ e, run.2 = Err e) ∧ (rest = [] ∨ rest = rmtree (partial target) (Some (files_map (untar c).1)))).
Proof.
  unfold ensure_interpreter, then_, quiet. destruct tar_run as [tr [[name c]|e]]; cbn [fst snd];
    [|left; split; [done|by intros ? ? [=]]].
  destruct (interpreter_file p) as [b|e]; cbn [fst snd]; [|left; rewrite app_nil_r; split; [done|by intros ? ? [=]]].
  destruct (file_of (rs_trees s) target b) as [x|] eqn:Hin; cbn [fst snd].
  { left. rewrite !app_nil_r. split; [done|]. intros d b' [= <- <-]. rewrite Hin. split_and!; [done..|by eexists]. }
  right. exists name, c, b. destruct (untar c) as [files whole]. cbn [fst snd].
  destruct whole; cbn [fst snd]; [case_bool_decide as Hf; cbn [fst snd]|].
  - eexists. split_and!; [done..| |left; by split_and!]. cbn [app]. by rewrite fmap_app.
  - eexists. split_and!; [done..| |right; split; [by eexists|by right]]. cbn [app]. by rewrite fmap_app.
  - exists []. split_and!; [done..| |right; split; [by eexists|by left]]. by rewrite !app_nil_r.
Qed.

(** C27. The interpreter is never half unpacked: cut a run after any number of its file
    operations, whatever the digest, the download or the archive did; if the target holds
    the interpreter's binary, then either the target is as it was before the run, or it is
    the whole content of an archive that could be read to its end, whose digest is the one
    the catalog pins for the architecture. No other interpreter is touched. *)
Theorem interpreter_never_partial b pre :
  interpreter_file p = Ok b → pre `prefix_of` run.1 →
  (∀ d, d ≠ target → d ≠ partial target → rs_trees (fs_play s pre) !! d = rs_trees s !! d) ∧
  (is_Some (file_of (rs_trees (fs_play s pre)) target b) →
     rs_trees (fs_play s pre) !! target = rs_trees s !! target ∨
     ∃ c, dget (rp_sha256 p) arch = Some (sha256 c) ∧ (untar c).2 = true ∧
       rs_trees (fs_play s pre) !! target = Some (files_map (untar c).1)).
Proof.
  intros Hb Hpre%tree_ops_prefix. rewrite fs_play_trees. revert Hpre. generalize (tree_ops pre). clear pre. intros pre Hpre.
  destruct ensure_interpreter_cases as [[Hrun _]|(name & c & b' & rest & Htar & Hb' & Hnot & Hrun & Hrest)];
    rewrite Hrun, ?tree_ops_app, ensure_tarball_trees in Hpre.
  { apply prefix_nil_inv in Hpre as ->. split; [done|by left]. }
  rewrite Hb in Hb'. injection Hb' as <-. cbn [app] in Hpre. rewrite tree_ops_Tree in Hpre.
  assert (∀ o, o ∈ rest → op_dirs o ⊆ [partial target; target]) as Htouch.
  { intros o Ho. destruct Hrest as [(_ & _ & -> & _)|(_ & [->| ->])].
    - by eapply replace_touches.
    - by apply elem_of_nil in Ho.
    - apply rmtree_touches in Ho as ->. intros d Hd%list_elem_of_singleton. subst d. by left. }
  split.
  { intros d Hd Hd'. apply tree_play_other. intros o Ho Hod. apply (prefix_elem _ _ _ Hpre) in Ho.
    apply elem_of_app in Ho as [Ho%remake_touches|Ho].
    - rewrite Ho in Hod. by apply list_elem_of_singleton in Hod.
    - apply (Htouch o Ho) in Hod. rewrite !elem_of_cons in Hod. destruct Hod as [?|[?|?%elem_of_nil]]; done. }
  intros Hin. apply prefix_app_cases in Hpre as [Hpre|(q & -> & Hq)].
  { left. apply tree_play_other. intros o Ho. apply (prefix_elem _ _ _ Hpre), remake_touches in Ho as ->.
    rewrite list_elem_of_singleton. intros H. by apply (partial_ne target). }
  rewrite tree_play_app in *. set (m := tree_play _ (remake _ _ _)) in *.
  assert (m !! target = rs_trees s !! target) as Hm.
  { apply tree_play_other. intros o ->%remake_touches. rewrite list_elem_of_singleton. intros H. by apply (partial_ne target). }
  destruct Hrest as [(Hwhole & Hbc & -> & _)|(_ & [->| ->])].
  - right. exists c. destruct (ensure_tarball_Ok _ _ Htar) as (_ & Hsha & _). split_and!; [done..|].
    rewrite <-Hm in Hq. apply (replace_atomic (partial target) target m _ b); [apply partial_ne|apply remade| |done..].
    unfold file_of. by rewrite Hm.
  - left. by apply prefix_nil_inv in Hq as ->.
  - left. rewrite <-Hm. apply tree_play_other. intros o Ho. apply (prefix_elem _ _ _ Hq), rmtree_touches in Ho as ->.
    rewrite list_elem_of_singleton. intros H. by apply (partial_ne target).
Qed.

(** A tarball with another digest is removed. *)
Lemma ensure_tarball_mismatch name actual expected :
  tar_run.2 = Err (PinMismatch name actual expected) →
  actual ≠ expected ∧ rs_tars (fs_play s tar_run.1) !! name = None.
Proof.
  unfold ensure_tarball, then_, quiet, emit.
  destruct (map_err NoBuild (tarball p arch)) as [n|e] eqn:Hn; cbn [fst snd];
    [|intros [= ->]; by destruct (tarball p arch)].
  destruct (dget (rp_sha256 p) arch) as [e|]; cbn [of_option fst snd]; [|done].
  assert (∀ ops c, (if bool_decide (sha256 c = e) then ([], Ok (n, c))
      else ([TarRemove n], Err (PinMismatch n (sha256 c) e)) : traced FsOp RtError (text * text)).2 =
        Err (PinMismatch name actual expected) →
      actual ≠ expected ∧ rs_tars (fs_play s (ops ++ (if bool_decide (sha256 c = e) then ([], Ok (n, c))
      else ([TarRemove n], Err (PinMismatch n (sha256 c) e)) : traced FsOp RtError (text * text)).1)) !! name = None) as Hend.
  { intros ops c. case_bool_decide as Hc; [done|]. intros [= -> <- <-]. split; [done|].
    rewrite fs_play_app. cbn [fst fs_play foldl fs_apply tars rs_tars]. apply lookup_delete_eq. }
  destruct (rs_tars s !! n) as [c|]; cbn [fst snd app]; [by apply (Hend [])|].
  destruct (map_err NoBuild (url p arch)) as [src|e'] eqn:Hsrc; cbn [fst snd app];
    [|intros [= ->]; by destruct (url p arch)].
  destruct (dl_ok (fetch src)); cbn [fst snd app]; [|done]. apply (Hend (_ :: _)).
Qed.

Lemma second_run s' name c b :
  tarball p arch = Ok name → dget (rp_sha256 p) arch = Some (sha256 c) → rs_tars s' !! name = Some c →
  interpreter_file p = Ok b → is_Some (file_of (rs_trees s') target b) →
  ensure_interpreter sha256 fetch untar p arch s' = ([], Ok (target, b)).
Proof.
  intros Hn Hsha Hc Hb Hin. unfold ensure_interpreter, ensure_tarball, then_, quiet.
  rewrite Hn, Hsha. cbn [map_err of_option fst snd]. rewrite Hc. cbn [fst snd]. rewrite bool_decide_eq_true_2 by done.
  cbn [fst snd]. rewrite Hb. cbn [fst snd]. destruct Hin as [x ->]. done.
Qed.

(** A run that succeeds leaves the pinned interpreter ready: its target holds the binary,
    the tarball in the cache has the digest the catalog pins, and a second run has nothing
    to do and answers the same. A run whose tarball has another digest removes it. *)
Theorem interpreter_ready :
  (∀ d b, run.2 = Ok (d, b) →
     d = target ∧ interpreter_file p = Ok b ∧ is_Some (file_of (rs_trees (fs_play s run.1)) d b) ∧
     (∃ name c, tarball p arch = Ok name ∧ rs_tars (fs_play s run.1) !! name = Some c ∧
        dget (rp_sha256 p) arch = Some (sha256 c)) ∧
     ensure_interpreter sha256 fetch untar p arch (fs_play s run.1) = ([], Ok (d, b))) ∧
  (∀ name actual expected, run.2 = Err (PinMismatch name actual expected) →
     actual ≠ expected ∧ rs_tars (fs_play s run.1) !! name = None).
Proof.
  split.
  - intros d b Hr.
    destruct ensure_interpreter_cases as [[Hrun Hok]|(name & c & b' & rest & Htar & Hb & _ & Hrun & [(_ & Hin & -> & Hr')|[[e Hr'] _]])].
    + destruct (Hok d b Hr) as (-> & Hb & Hin & [name c] & Htar).
      destruct (ensure_tarball_Ok _ _ Htar) as (Hn & Hsha & Hc & _). rewrite <-Hrun in Hc.
      assert (is_Some (file_of (rs_trees (fs_play s run.1)) target b)) as Hin'
        by (rewrite fs_play_trees, Hrun, ensure_tarball_trees; exact Hin).
      split_and!; [done..|by exists name, c|]. by apply (second_run _ name c b).
    + rewrite Hr in Hr'. injection Hr' as -> ->.
      destruct (ensure_tarball_Ok _ _ Htar) as (Hn & Hsha & Hc & _).
      assert (rs_tars (fs_play s run.1) !! name = Some c) as Hc' by by rewrite Hrun, fs_play_app, fs_play_Tree.
      assert (is_Some (file_of (rs_trees (fs_play s run.1)) target b')) as Hin'.
      { unfold file_of. rewrite fs_play_trees, Hrun, tree_ops_app, ensure_tarball_trees, tree_ops_Tree. cbn [app].
        rewrite tree_play_app. set (m := tree_play _ (remake _ _ _)).
        assert (m !! target = rs_trees s !! target) as <-.
        { apply tree_play_other. intros o ->%remake_touches. rewrite list_elem_of_singleton. intros H. by apply (partial_ne target). }
        rewrite (replaced _ _ m (files_map (untar c).1)); [|apply partial_ne|apply remade]. cbn. by apply files_map_Some. }
      split_and!; [done..|by exists name, c|]. by apply (second_run _ name c b').
    + congruence.
  - intros name actual expected. pose proof (ensure_tarball_mismatch name actual expected) as Hm. revert Hm.
    unfold ensure_interpreter, then_, quiet. destruct tar_run as [tr [[n c]|e]]; cbn [fst snd]; [intros _|by intros Hm].
    destruct (interpreter_file p) as [b|e] eqn:Hb; cbn [fst snd]; cycle 1.
    { intros [= ->]. unfold interpreter_file, rp_minor in Hb. by destruct (split_on 46 (rp_version p)) as [|? [|? [|? []]]]. }
    destruct (file_of _ _ _); [done|]. destruct (untar c) as [files []]; cbn [fst snd]; [|done]. by case_bool_decide.
Qed.
End correct.

(** ** Witnesses *)

(** A digest, a mirror and archives small enough to evaluate: the digest of a text is its
    length, an archive lists its files, one per line, and is whole when it ends in a dot. *)
Definition demo_sha (c : text) : text := N_text (N.of_nat (length c)).
Definition demo_untar (c : text) : list (text * text) * bool :=
  ((λ l, (l, l)) <$> filter (λ l, l ≠ u ".") (splitlines c), bool_decide (last (splitlines c) = Some (u "."))).
Definition demo_archive : text := mjoin ((λ l, l ++ [10%N]) <$> [u "python/bin/python3.14"; u "python/lib/os.py"; u "."]).
Definition demo_fetch (src : text) : Download := mk_download [take 10 demo_archive; drop 10 demo_archive] true.
Definition demo_pin : RuntimePin := mk_runtime (u "3.14.8") (u "20261003") [(u "x86_64", demo_sha demo_archive)].
(** An interpreter directory left incomplete. *)
Definition demo_store : Store :=
  mk_store ∅ {[ interpreter_dir demo_pin (u "x86_64") := {[ u "python/lib/os.py" := [] ]} ]}.

Lemma interpreter_never_partial_witness :
  ¬ is_Some (file_of (rs_trees (fs_play demo_store
      (take 9 (ensure_interpreter demo_sha demo_fetch demo_untar demo_pin (u "x86_64") demo_store).1)))
        (interpreter_dir demo_pin (u "x86_64")) (u "python/bin/python3.14")) ∧
  (ensure_interpreter demo_sha demo_fetch demo_untar demo_pin (u "x86_64") demo_store).2 =
    Ok (interpreter_dir demo_pin (u "x86_64"), u "python/bin/python3.14").
Proof.
  split; [|by vm_compute]. intros Hin.
  apply (interpreter_never_partial demo_sha demo_fetch demo_untar demo_pin (u "x86_64") demo_store
    (u "python/bin/python3.14") (take 9 _) ltac:(by vm_compute) (prefix_take _ _)) in Hin as [H|(c & _ & _ & H)].
  - apply (f_equal (λ t, bool_decide (is_Some t))) in H. by vm_compute in H.
  - apply (f_equal (λ t, bool_decide (is_Some t))) in H. by vm_compute in H.
Defined.
