(* ===== verification/Deps.v ===== *)
(** * The dependencies staged with a component

    Models the dependency half of mqlab/component.py: the projects an exported
    requirements file names, the wheels a guest could install, and the staging of every
    artifact of uv.lock that they need, with its digest checked. The lock file is the
    record of what the TOML reader returns; the digest and the download are parameters. *)

From S2P Require Import Prelude PyText PyDict PyCodec Trace Trees Versions Runtime.

#[local] Open Scope trace_scope.

(** [_normalize]: a run of [-], [_] and [.] is one dash. *)
Definition is_sep (c : N) : bool := ((c =? 45) || (c =? 95) || (c =? 46))%N.
Fixpoint collapse (in_run : bool) (s : text) : text :=
  match s with
  | [] => []
  | c :: s => if is_sep c then (if in_run then [] else [45%N]) ++ collapse true s else c :: collapse false s
  end.
Definition normalize (lower : text → text) (project : text) : text := lower (collapse false project).

(** [_REQ_NAME]: the name a requirement line pins. *)
Definition is_alnum (c : N) : bool :=
  ((48 <=? c) && (c <=? 57) || (65 <=? c) && (c <=? 90) || (97 <=? c) && (c <=? 122))%N.
Definition req_name (line : text) : option text :=
  match line with
  | c :: rest =>
      if is_alnum c then
        let '(name, rest) := span (λ c, is_alnum c || is_sep c) rest in
        if startswith rest (u "==") then Some (c :: name) else None
      else None
  | [] => None
  end.

(** [_wanted], of the requirement files that exist. *)
Definition wanted (lower : text → text) (files : list (option text)) : gset text :=
  list_to_set (omap id files ≫= λ t, omap (λ line, normalize lower <$> req_name line) (splitlines t)).

(** ** Wheels *)

Inductive DepError :=
  | NotLocked (missing : list text)
  | NoCandidate (project version : text)
  | BadUrl (url : text)                       (* IndexError *)
  | BadWheelName (filename : text)            (* ValueError *)
  | DepDownload                               (* urllib's exceptions *)
  | HashMismatch (filename actual locked : text).

(** [s.split("-")[-3:]] of a wheel's stem. *)
Definition wheel_tags (filename : text) : res DepError (text * text * text) :=
  let parts := split_on 45 (default filename (strip_suffix (u ".whl") filename)) in
  match drop (length parts - 3) parts with
  | [py; abi; plat] => Ok (py, abi, plat)
  | _ => Err (BadWheelName filename)
  end.

(** [_WHEEL_PY]. *)
Definition wheel_py (tag : text) : bool := bool_decide (drop_newline tag ∈ [u "py3"; u "cp314"]).

Definition guest_platform (tag : text) : bool :=
  bool_decide (tag = u "any") || startswith tag (u "manylinux") && (endswith tag (u "_x86_64") || endswith tag (u "_aarch64")).

Definition wheel_installable (filename : text) : res DepError bool :=
  '(py, abi, plat) ← wheel_tags filename;
  let pys := split_on 46 py in
  let py_ok := existsb wheel_py pys || bool_decide (abi = u "abi3") && existsb (λ t, startswith t (u "cp3")) pys in
  Ok (py_ok && existsb guest_platform (split_on 46 plat)).

(** ** Staging *)

Record LockArtifact := mk_lart { la_url : text; la_hash : text }.
Record LockPackage := mk_lpkg {
  lp_name : text; lp_version : text; lp_sdist : option LockArtifact; lp_wheels : list LockArtifact
}.

(** [url.rsplit("/", 1)[1]]. *)
Definition url_filename (url : text) : res DepError text :=
  match cut 47 (rev url) with Some (name, _) => Ok (rev name) | None => Err (BadUrl url) end.

Definition dep_file (filename : text) : text := u "deps/" ++ filename.

Fixpoint res_filterM {E A} (p : A → res E bool) (l : list A) : res E (list A) :=
  match l with
  | [] => Ok []
  | x :: l => b ← p x; r ← res_filterM p l; Ok (if b : bool then x :: r else r)
  end.

Section stage.
Context (lower : text → text) (sha256 : text → text) (fetch : text → Download) (d : text).

Definition installable (w : LockArtifact) : res DepError bool := name ← url_filename (la_url w); wheel_installable name.

Definition dep_candidates (pkg : LockPackage) : res DepError (list LockArtifact) :=
  wheels ← res_filterM installable (lp_wheels pkg);
  Ok (match lp_sdist pkg with Some a => [a] | None => [] end ++ wheels).

(** One artifact: fetched, and removed again when its digest is not the locked one. *)
Definition stage_art (staged : list text) (a : LockArtifact) : traced TreeOp DepError (list text) :=
  let* filename := quiet (url_filename (la_url a)) in
  let dl := fetch (la_url a) in
  let content := mjoin (dl_chunks dl) in
  let* _ := emit (TreeAdd d (dep_file filename) content) (if dl_ok dl then Ok () else Err DepDownload) in
  let '(algo, expected) := default (la_hash a, []) (cut 58 (la_hash a)) in
  if bool_decide (algo = u "sha256") && bool_decide (sha256 content = expected)
  then quiet (Ok (staged ++ [filename]))
  else emit (TreeDrop d (dep_file filename)) (Err (HashMismatch filename (sha256 content) (la_hash a))).

Definition packages_of (lock : list LockPackage) : list (text * LockPackage) :=
  foldl (λ m p, dset m (normalize lower (lp_name p)) p) [] lock.

Definition stage_project (packages : list (text * LockPackage)) (staged : list text) (project : text) :
    traced TreeOp DepError (list text) :=
  let* pkg := quiet (of_option (NotLocked [project]) (dget packages project)) in
  let* candidates := quiet (dep_candidates pkg) in
  let* _ := quiet (raise_if (bool_decide (candidates = [])) (NoCandidate project (lp_version pkg))) in
  fold_trace stage_art staged candidates.

Definition stage_deps (lock : list LockPackage) (want : gset text) : traced TreeOp DepError (list text) :=
  let packages := packages_of lock in
  let missing := sorted_text (elements (filter (λ n, dmem n packages = false) want)) in
  let* _ := quiet (raise_if (negb (bool_decide (missing = []))) (NotLocked missing)) in
  fold_trace (stage_project packages) [] (sorted_text (elements want)).
End stage.

(** ** Every staged file is a locked one *)

Section staged.
Context (lower : text → text) (sha256 : text → text) (fetch : text → Download) (d : text).

(** A file and a content that an artifact of the lock admits. *)
Definition admitted (a : LockArtifact) (fc : text * text) : Prop :=
  url_filename (la_url a) = Ok fc.1 ∧ default (la_hash a, []) (cut 58 (la_hash a)) = (u "sha256", sha256 fc.2).

Definition dep_puts (fcs : list (text * text)) : list TreeOp := writes d ((λ fc, (dep_file fc.1, fc.2)) <$> fcs).

Lemma stage_art_Ok staged a staged' :
  (stage_art sha256 fetch d staged a).2 = Ok staged' →
  ∃ fc, admitted a fc ∧ staged' = staged ++ [fc.1] ∧ (stage_art sha256 fetch d staged a).1 = dep_puts [fc].
Proof.
  unfold stage_art, then_, quiet, emit, admitted. destruct (url_filename (la_url a)) as [fn|e]; [|done]. cbn [fst snd].
  destruct (dl_ok _); cbn [fst snd]; [|done].
  destruct (default (la_hash a, []) (cut 58 (la_hash a))) as [algo expected].
  destruct (bool_decide (algo = u "sha256")) eqn:Ha; [|done]. apply bool_decide_eq_true in Ha as ->.
  case_bool_decide as Hs; cbn [andb fst snd]; [|done]. intros [= <-]. subst expected.
  by exists (fn, mjoin (dl_chunks (fetch (la_url a)))).
Qed.

Lemma stage_arts_Ok l staged staged' :
  (fold_trace (stage_art sha256 fetch d) staged l).2 = Ok staged' →
  ∃ fcs, Forall2 admitted l fcs ∧ staged' = staged ++ fcs.*1 ∧
    (fold_trace (stage_art sha256 fetch d) staged l).1 = dep_puts fcs.
Proof.
  revert staged. induction l as [|a l IH]; intros staged; cbn [fold_trace].
  { intros [= <-]. exists []. by rewrite app_nil_r. }
  intros H. apply then_Ok in H as (s1 & Ha & Hl). rewrite (then_trace_Ok _ _ _ Ha).
  destruct (stage_art_Ok _ _ _ Ha) as (fc & Hfc & -> & ->). destruct (IH _ Hl) as (fcs & Hall & -> & ->).
  exists (fc :: fcs). rewrite fmap_cons, <-app_assoc. split_and!; [by constructor|done|]. unfold dep_puts.
  by rewrite <-writes_app, <-fmap_app.
Qed.

Definition project_candidates (packages : list (text * LockPackage)) (project : text) : res DepError (list LockArtifact) :=
  pkg ← of_option (NotLocked [project]) (dget packages project); dep_candidates pkg.

Lemma stage_projects_Ok packages projects staged staged' :
  (fold_trace (stage_project sha256 fetch d packages) staged projects).2 = Ok staged' →
  ∃ arts fcs, res_mapM (project_candidates packages) projects = Ok arts ∧ ([] ∉ arts) ∧
    Forall2 admitted (mjoin arts) fcs ∧ staged' = staged ++ fcs.*1 ∧
    (fold_trace (stage_project sha256 fetch d packages) staged projects).1 = dep_puts fcs.
Proof.
  revert staged. induction projects as [|p projects IH]; intros staged; cbn [fold_trace].
  { intros [= <-]. exists [], []. rewrite app_nil_r. split_and!; [done|apply not_elem_of_nil|constructor|done..]. }
  intros H. apply then_Ok in H as (s1 & Hp & Hl). rewrite (then_trace_Ok _ _ _ Hp).
  destruct (IH _ Hl) as (arts & fcs & Harts & Hne & Hall & -> & ->).
  unfold stage_project in *. apply then_Ok in Hp as (pkg & Hpkg & Hp). rewrite (then_trace_Ok _ _ _ Hpkg).
  apply then_Ok in Hp as (cands & Hc & Hp). rewrite (then_trace_Ok _ _ _ Hc).
  apply then_Ok in Hp as ([] & Hr & Hp). rewrite (then_trace_Ok _ _ _ Hr).
  destruct (stage_arts_Ok _ _ _ Hp) as (fcs1 & Hall1 & -> & ->). cbn [quiet fst snd app] in *.
  exists (cands :: arts), (fcs1 ++ fcs). rewrite fmap_app, <-app_assoc. split_and!.
  - assert (project_candidates packages p = Ok cands) as Hpc by (unfold project_candidates; by rewrite Hpkg).
    cbn [res_mapM]. by rewrite Hpc, Harts.
  - rewrite not_elem_of_cons. split; [|done]. intros <-. done.
  - by apply Forall2_app.
  - done.
  - unfold dep_puts. by rewrite fmap_app, writes_app.
Qed.

(** The dependencies staged with a component are the locked ones: when the staging
    succeeds, every wanted project is in the lock with at least one artifact a guest can
    install, all of its source and installable wheels were fetched in order, and every
    file then under the staging directory's deps has the content whose SHA-256 the lock
    gives for an artifact of that name; nothing else was written. *)
Theorem deps_verified lock want staged m t :
  m !! d = Some t → (stage_deps lower sha256 fetch d lock want).2 = Ok staged →
  let tr := (stage_deps lower sha256 fetch d lock want).1 in
  ∃ arts, res_mapM (project_candidates (packages_of lower lock)) (sorted_text (elements want)) = Ok arts ∧ ([] ∉ arts) ∧
    res_mapM (λ a, url_filename (la_url a)) (mjoin arts) = Ok staged ∧
    (∀ fn, fn ∈ staged → ∃ a c, a ∈ mjoin arts ∧ admitted a (fn, c) ∧ file_of (tree_play m tr) d (dep_file fn) = Some c) ∧
    (∀ f, (∀ fn, fn ∈ staged → f ≠ dep_file fn) → file_of (tree_play m tr) d f = t !! f).
Proof.
  intros Hd. cbv zeta. unfold stage_deps. intros ([] & Hmiss & H)%then_Ok.
  rewrite (then_trace_Ok _ _ _ Hmiss). cbn [quiet fst app].
  destruct (stage_projects_Ok _ _ _ _ H) as (arts & fcs & Harts & Hne & Hall & Hst & Htr). cbn [app] in Hst.
  rewrite Htr. clear H Htr. exists arts. split_and!; [done..| | |].
  - subst staged. induction Hall as [|a fc l fcs [Ha _] _ IH]; [done|]. cbn [res_mapM]. by rewrite Ha, IH.
  - intros fn Hfn. subst staged. destruct (writes_lookup ((λ fc, (dep_file fc.1, fc.2)) <$> fcs) t (dep_file fn)) as [Hlast _].
    destruct Hlast as (c & Hc & Hf).
    { rewrite <-list_fmap_compose. apply list_elem_of_fmap in Hfn as (fc & -> & Hfc). apply list_elem_of_fmap. by exists fc. }
    apply list_elem_of_fmap in Hc as ([fn' c'] & [= Hfn' ->] & Hc). cbn [fst snd] in *. subst fn'.
    apply list_elem_of_lookup_1 in Hc as [i Hi]. destruct (Forall2_lookup_r _ _ _ _ _ Hall Hi) as (a & Ha & Hadm).
    exists a, c'. split_and!; [by eapply list_elem_of_lookup_2|done|].
    unfold file_of, dep_puts. by rewrite (writes_tree _ _ _ _ Hd).
  - intros f Hf. unfold file_of, dep_puts. rewrite (writes_tree _ _ _ _ Hd). cbn [mbind option_bind].
    apply writes_lookup. rewrite <-list_fmap_compose. intros (fc & -> & Hfc)%list_elem_of_fmap.
    apply (Hf fc.1); [|done]. subst staged. by apply list_elem_of_fmap_2.
Qed.
End staged.

(** ** Witness *)

Definition demo_lock : list LockPackage :=
  [mk_lpkg (u "Py_YAML") (u "6.0") (Some (mk_lart (u "https://x/PyYAML-6.0.tar.gz") (u "sha256:5")))
     [mk_lart (u "https://x/PyYAML-6.0-cp314-cp314-manylinux_2_28_x86_64.whl") (u "sha256:5");
      mk_lart (u "https://x/PyYAML-6.0-cp39-cp39-win_amd64.whl") (u "sha256:9")]].
Definition demo_dep_fetch (src : text) : Download := mk_download [u "ab"; u "cde"] true.

Lemma deps_verified_witness :
  (stage_deps lower_ascii demo_sha demo_dep_fetch (u "stage") demo_lock {[ u "py-yaml" ]}).2 =
    Ok [u "PyYAML-6.0.tar.gz"; u "PyYAML-6.0-cp314-cp314-manylinux_2_28_x86_64.whl"] ∧
  ∃ a c, admitted demo_sha a (u "PyYAML-6.0.tar.gz", c) ∧
    file_of (tree_play {[ u "stage" := ∅ ]}
      (stage_deps lower_ascii demo_sha demo_dep_fetch (u "stage") demo_lock {[ u "py-yaml" ]}).1) (u "stage")
      (u "deps/PyYAML-6.0.tar.gz") = Some c.
Proof.
  assert ((stage_deps lower_ascii demo_sha demo_dep_fetch (u "stage") demo_lock {[ u "py-yaml" ]}).2 =
    Ok [u "PyYAML-6.0.tar.gz"; u "PyYAML-6.0-cp314-cp314-manylinux_2_28_x86_64.whl"]) as Hok by by vm_compute.
  split; [done|].
  destruct (deps_verified lower_ascii demo_sha demo_dep_fetch (u "stage") demo_lock {[ u "py-yaml" ]} _
    {[ u "stage" := ∅ ]} ∅ (lookup_singleton_eq _ _) Hok) as (arts & _ & _ & _ & Hin & _).
  destruct (Hin (u "PyYAML-6.0.tar.gz")) as (a & c & _ & Ha & Hc); [by left|]. exists a, c. split; [exact Ha|exact Hc].
Defined.
