(* ===== verification/Component.v ===== *)
(** * Building and finding a guest component

    Models the build half of mqlab/component.py: the checks a build passes before it
    stages anything, the staging of an artifact, its publication by a rename, the pointer
    to the current one, and the ways an artifact is found again. The answers of git and
    uv, the files uv writes, the lock file, the clock and [Path.resolve] are inputs; the
    commands and the file operations are the trace. *)

From S2P Require Import Prelude PyText PyDict PyCodec PyFloat PyJson JsonRoundTrip Trace Trees Versions Runtime Deps.

#[local] Open Scope trace_scope.

(** An artifact: its directory under the component's, and what its BUILD.json says. *)
Record Artifact := mk_artifact {
  af_name : text; af_version : json; af_tree : json; af_dir : text; af_build : json
}.

Inductive CompError :=
  | UnknownComponent (name : text) (known : list text)
  | NoVersion (name : text)
  | NotCommitted (name : text) (out : list text)
  | StatusFailed (name : text) (out : list text)
  | Uncommitted (name : text) (paths : list text)
  | InRuntime (e : RtError) | InDeps (e : DepError)
  | StaleLock | VenvFailed | TestsFailed | WheelFailed | ExportFailed | GroupExportFailed
  | NoPyvenvCfg | UnpinnedVenv (home : text) | WrongPython (version : text)
  | BadBuildJson (e : option JsonError)          (* JSONDecodeError, KeyError *)
  | NotOneStaged (wanted : text) (staged : list text) (several : bool)
  | PlaybookFailed (rc : Z).

Inductive CompOp :=
  | Rt (o : FsOp) | Run (args : list text) | VenvDropped | Art (o : TreeOp) | SetCurrent (content : text).

(** What the tools answer and write, in the order a build asks. *)
Record Tools := mk_tools {
  tl_known : list text; tl_version : option text;
  tl_status : Z * list text; tl_tree : Z * list text; tl_head : Z * list text;
  tl_lock_check : Z; tl_venv : Z; tl_cfg_made : option text; tl_pytest : Z; tl_cfg_run : option text;
  tl_wheel : Z; tl_wheels : list (text * text);
  tl_export : Z; tl_requirements : option text;
  tl_group : bool; tl_group_export : Z; tl_build_requirements : option text;
  tl_lock : list LockPackage; tl_units : list (text * text); tl_now : text
}.

(** Where things are: the component's artifacts, its test environment, the unpack root. *)
Record Places := mk_places { ph_artifacts : text; ph_venv : text; ph_unpack : text }.

(** The component's artifact directories, its CURRENT file, and the runtime's caches. *)
Record Shop := mk_shop { sp_dirs : dirs; sp_current : option text; sp_rt : Store }.

Definition shop_apply (s : Shop) (o : CompOp) : Shop :=
  match o with
  | Rt o => mk_shop (sp_dirs s) (sp_current s) (fs_apply (sp_rt s) o)
  | Art o => mk_shop (tree_apply (sp_dirs s) o) (sp_current s) (sp_rt s)
  | SetCurrent c => mk_shop (sp_dirs s) (Some c) (sp_rt s)
  | Run _ | VenvDropped => s
  end.
Definition shop_play (s : Shop) (ops : list CompOp) : Shop := foldl shop_apply s ops.

(** ** The component's tree *)

Definition component_dir (t : Tools) (name : text) : res CompError () :=
  raise_if (negb (bool_decide (name ∈ tl_known t))) (UnknownComponent name (tl_known t)).

Definition comp_version (t : Tools) (name : text) : res CompError text :=
  _ ← component_dir t name;
  match tl_version t with Some (c :: v) => Ok (c :: v) | _ => Err (NoVersion name) end.

Definition comp_path (name : text) : text := u "components/" ++ name.

Definition tree_hash (t : Tools) (name : text) : traced CompOp CompError text :=
  emit (Run [u "git"; u "rev-parse"; u "HEAD:" ++ comp_path name])
    (let '(rc, out) := tl_tree t in
     match last out with
     | Some line => if (rc =? 0)%Z then Ok (strip line) else Err (NotCommitted name out)
     | None => Err (NotCommitted name out)
     end).

Definition dirty_paths (t : Tools) (name : text) : traced CompOp CompError (list text) :=
  emit (Run [u "git"; u "status"; u "--porcelain"; u "--"; comp_path name])
    (let '(rc, out) := tl_status t in
     if (rc =? 0)%Z then Ok (drop 3 <$> filter (λ l, strip l ≠ []) out) else Err (StatusFailed name out)).

Definition refuse_dirty (t : Tools) (name : text) : traced CompOp CompError () :=
  let* dirty := dirty_paths t name in
  quiet (raise_if (negb (bool_decide (dirty = []))) (Uncommitted name dirty)).

(** ** Artifacts *)

Definition artifact_dir (version tree : text) : text := version ++ u "+" ++ tree.
Definition BUILD_JSON : text := u "BUILD.json".

Section component.
Context `{FT : FloatText} (lower : text → text) (sha256 : text → text) (fetch : text → Download)
  (untar : text → list (text * text) * bool) (resolve : text → text).

(** [_load]. *)
Definition load_artifact (name : text) (m : dirs) (d : text) : res CompError (option Artifact) :=
  match file_of m d BUILD_JSON with
  | None => Ok None
  | Some t =>
      v ← map_err (BadBuildJson ∘ Some) (loads t);
      match v with
      | JObj o =>
          version ← of_option (BadBuildJson None) (dget o (u "version"));
          tree ← of_option (BadBuildJson None) (dget o (u "tree"));
          Ok (Some (mk_artifact name version tree d v))
      | _ => Err (BadBuildJson None)
      end
  end.

(** The directories that match a pattern, in the order of their names. *)
Definition dirs_where (p : text → bool) (m : dirs) : list text :=
  sorted_text (filter (λ d, p d = true) (map_to_list m).*1).

Fixpoint first_loaded (name : text) (m : dirs) (ds : list text) : res CompError (option Artifact) :=
  match ds with
  | [] => Ok None
  | d :: ds => a ← load_artifact name m d;
               match a with Some a => Ok (Some a) | None => first_loaded name m ds end
  end.

(** [find_artifact]: of the directories [*+tree]. *)
Definition find_artifact (name tree : text) (m : dirs) : res CompError (option Artifact) :=
  first_loaded name m (dirs_where (λ d, endswith d (u "+" ++ tree)) m).

(** [current]. *)
Definition current_artifact (name : text) (s : Shop) : res CompError (option Artifact) :=
  match sp_current s with
  | Some pointer => load_artifact name (sp_dirs s) (strip pointer)
  | None => Ok None
  end.

Definition set_current (a : Artifact) : traced CompOp CompError () :=
  emit (SetCurrent (af_dir a ++ [10%N])) (Ok ()).

(** ** The build *)

Definition uv_step (args : list text) (rc : Z) (e : CompError) : traced CompOp CompError () :=
  emit (Run (u "uv" :: args)) (raise_if (negb (rc =? 0)%Z) e).

Definition path_parent (p : text) : text := match cut 47 (rev p) with Some (_, r) => rev r | None => u "." end.

(** One line of pyvenv.cfg. *)
Definition cfg_line (cfg : list (text * text)) (line : text) : list (text * text) :=
  let '(k, v) := default (line, []) (cut 61 line) in
  if bool_decide (strip k = []) then cfg else dset cfg (strip k) (strip v).

(** [_assert_pinned_venv]. *)
Definition assert_pinned_venv (cfg_text : option text) (interpreter : text) (pin : RuntimePin) : res CompError () :=
  t ← of_option NoPyvenvCfg cfg_text;
  let cfg := foldl cfg_line [] (splitlines t) in
  let home := dget_or cfg (u "home") [] in
  let found := match dget_or cfg (u "version_info") [] with [] => dget_or cfg (u "version") [] | v => v end in
  _ ← raise_if (bool_decide (home = []) || negb (bool_decide (resolve home = resolve (path_parent interpreter))))
        (UnpinnedVenv home);
  minor ← map_err InRuntime (rp_minor pin);
  raise_if (negb (bool_decide (take 2 (split_on 46 found) = split_on 46 minor))) (WrongPython found).

(** What a build checks before it stages anything: the source tree, its version, and the
    path of the interpreter its tests passed on. *)
Definition build_checks (t : Tools) (ph : Places) (pin : RuntimePin) (machine : text) (s : Shop) (name : text) :
    traced CompOp CompError (text * text * text) :=
  let* _ := quiet (component_dir t name) in
  let* _ := refuse_dirty t name in
  let* tree := tree_hash t name in
  let* version := quiet (comp_version t name) in
  let* arch := quiet (map_err InRuntime (host_arch lower machine)) in
  let* df := lift Rt (raising InRuntime (ensure_interpreter sha256 fetch untar pin arch (sp_rt s))) in
  let interpreter := ph_unpack ph ++ u "/" ++ df.1 ++ u "/" ++ df.2 in
  let* _ := uv_step [u "lock"; u "--check"] (tl_lock_check t) StaleLock in
  let* _ := emit VenvDropped (Ok ()) in
  let* _ := uv_step [u "venv"; u "--python"; interpreter; ph_venv ph] (tl_venv t) VenvFailed in
  let* _ := quiet (assert_pinned_venv (tl_cfg_made t) interpreter pin) in
  let* _ := uv_step [u "run"; u "--frozen"; u "--python"; interpreter; u "pytest"] (tl_pytest t) TestsFailed in
  let* _ := quiet (assert_pinned_venv (tl_cfg_run t) interpreter pin) in
  quiet (Ok (tree, version, interpreter)).

Definition EXPORT : list text :=
  [u "export"; u "--frozen"; u "--no-emit-project"; u "--format"; u "requirements-txt"].
Definition SDIST_BUILD_GROUP : text := u "sdist-build".

Definition put_files (d : text) (files : list (text * text)) : traced CompOp CompError () :=
  (Art <$> writes d files, Ok ()).
Definition file_named (f : text) (content : option text) : list (text * text) :=
  match content with Some c => [(f, c)] | None => [] end.

(** What goes into the staging directory, up to its BUILD.json. *)
Definition fill_component (t : Tools) (path stage : text) : traced CompOp CompError () :=
  let* _ := uv_step [u "build"; u "--wheel"; u "--out-dir"; path] (tl_wheel t) WheelFailed in
  let* _ := put_files stage (tl_wheels t) in
  let* _ := uv_step (EXPORT ++ [u "--no-dev"; u "--all-extras"; u "-o"; path ++ u "/requirements.txt"])
              (tl_export t) ExportFailed in
  let* _ := put_files stage (file_named (u "requirements.txt") (tl_requirements t)) in
  let* built := if tl_group t then
      let* _ := uv_step (EXPORT ++ [u "--only-group"; SDIST_BUILD_GROUP; u "-o"; path ++ u "/build-requirements.txt"])
                  (tl_group_export t) GroupExportFailed in
      let* _ := put_files stage (file_named (u "build-requirements.txt") (tl_build_requirements t)) in
      quiet (Ok (tl_build_requirements t))
    else quiet (Ok None) in
  let* _ := lift Art (raising InDeps (stage_deps lower sha256 fetch stage (tl_lock t)
              (wanted lower [tl_requirements t; built]))) in
  put_files stage ((λ fc, (u "systemd/" ++ fc.1, fc.2)) <$> tl_units t).

Definition stage_component (t : Tools) (ph : Places) (s : Shop) (stage : text) : traced CompOp CompError () :=
  let* _ := (Art <$> remake stage (sp_dirs s !! stage) [], Ok ()) in
  fill_component t (ph_artifacts ph ++ u "/" ++ stage) stage.

Definition build_info (name version tree commit : text) (pin : RuntimePin) (now : text) : json :=
  JObj [(u "name", JStr name); (u "version", JStr version); (u "tree", JStr tree); (u "commit", JStr commit);
        (u "runtime", JStr (rp_token pin)); (u "tests", JStr (u "passed")); (u "built_at", JStr now)].

Definition head_commit (t : Tools) : text := match last (tl_head t).2 with Some l => strip l | None => [] end.

(** BUILD.json, the rename into place, and CURRENT. *)
Definition publish (t : Tools) (pin : RuntimePin) (s : Shop) (name version tree : text) :
    traced CompOp CompError Artifact :=
  let final := artifact_dir version tree in
  let* commit := emit (Run [u "git"; u "rev-parse"; u "HEAD"]) (Ok (head_commit t)) in
  let info := build_info name version tree commit pin (tl_now t) in
  let* doc := quiet (map_err (BadBuildJson ∘ Some) (dumps (Some 2) info)) in
  let* _ := put_files (partial final) [(BUILD_JSON, doc ++ [10%N])] in
  let* _ := (Art <$> replace_tree (partial final) final (sp_dirs s !! final), Ok ()) in
  let a := mk_artifact name (JStr version) (JStr tree) final info in
  let* _ := set_current a in
  quiet (Ok a).

(** [build]. *)
Definition build (t : Tools) (ph : Places) (pin : RuntimePin) (machine : text) (s : Shop) (name : text) :
    traced CompOp CompError Artifact :=
  let* tvi := build_checks t ph pin machine s name in
  let '(tree, version, _) := tvi in
  let* _ := stage_component t ph s (partial (artifact_dir version tree)) in
  publish t pin s name version tree.

(** [ensure_built]. *)
Definition ensure_built (t : Tools) (ph : Places) (pin : RuntimePin) (machine : text) (s : Shop) (name : text) :
    traced CompOp CompError Artifact :=
  let* _ := refuse_dirty t name in
  let* tree := tree_hash t name in
  let* found := quiet (find_artifact name tree (sp_dirs s)) in
  match found with
  | Some a => let* _ := set_current a in quiet (Ok a)
  | None => build t ph pin machine s name
  end.

(** [resolve_artifact]. *)
Definition names_artifact (wanted : text) (a : Artifact) : bool :=
  bool_decide (wanted = af_dir a) || match af_version a with JStr v => bool_decide (wanted = v) | _ => false end.

Definition resolve_artifact (t : Tools) (ph : Places) (pin : RuntimePin) (machine : text) (s : Shop) (name : text)
    (want : option text) : traced CompOp CompError Artifact :=
  match want with
  | None => ensure_built t ph pin machine s name
  | Some w =>
      let* _ := quiet (component_dir t name) in
      let* loaded := quiet (res_mapM (load_artifact name (sp_dirs s))
                       (dirs_where (λ d, bool_decide (43%N ∈ d)) (sp_dirs s))) in
      let staged := omap id loaded in
      match filter (λ a, names_artifact w a = true) staged with
      | [a] => quiet (Ok a)
      | matches => quiet (Err (NotOneStaged w (af_dir <$> staged) (negb (bool_decide (matches = [])))))
      end
  end.
End component.

(** ** What the operations touch *)

Definition art_ops (l : list CompOp) : list TreeOp := omap (λ o, match o with Art o => Some o | _ => None end) l.
Definition current_ops (l : list CompOp) : list text := omap (λ o, match o with SetCurrent c => Some c | _ => None end) l.

Lemma shop_play_app s l k : shop_play s (l ++ k) = shop_play (shop_play s l) k.
Proof. apply foldl_app. Qed.

Lemma shop_play_dirs s l : sp_dirs (shop_play s l) = tree_play (sp_dirs s) (art_ops l).
Proof.
  revert s. induction l as [|o l IH]; intros s; [done|]. cbn [shop_play foldl].
  change (foldl shop_apply ?a l) with (shop_play a l). rewrite IH. by destruct o.
Qed.

Lemma shop_play_current s l : sp_current (shop_play s l) = match last (current_ops l) with Some c => Some c | None => sp_current s end.
Proof.
  induction l as [|o l IH] using rev_ind; [done|]. rewrite shop_play_app. unfold current_ops. rewrite omap_app.
  fold (current_ops l). cbn [shop_play foldl omap list_omap]. rewrite last_app.
  destruct o; cbn [shop_apply sp_current last]; [exact IH..|done].
Qed.

Lemma art_ops_app l k : art_ops (l ++ k) = art_ops l ++ art_ops k.
Proof. apply omap_app. Qed.

Lemma art_ops_Art l : art_ops (Art <$> l) = l.
Proof. induction l as [|o l IH]; [done|]. rewrite fmap_cons. cbn. f_equal. exact IH. Qed.

Lemma current_ops_app l k : current_ops (l ++ k) = current_ops l ++ current_ops k.
Proof. apply omap_app. Qed.

Lemma current_ops_Art l : current_ops (Art <$> l) = [].
Proof. induction l as [|o l IH]; [done|]. rewrite fmap_cons. exact IH. Qed.

(** An operation that leaves the artifacts and CURRENT alone, or works in [stage] only. *)
Definition calm (o : CompOp) : Prop := match o with Art _ | SetCurrent _ => False | _ => True end.
Definition staging (stage : text) (o : CompOp) : Prop :=
  match o with Art o => op_dirs o = [stage] | SetCurrent _ => False | _ => True end.

(** An operation that only writes or removes files of [stage]. *)
Definition filling (stage : text) (o : CompOp) : Prop :=
  match o with Art (TreeAdd d _ _) | Art (TreeDrop d _) => d = stage | Art _ | SetCurrent _ => False | _ => True end.

Lemma filling_staging stage o : filling stage o → staging stage o.
Proof. by destruct o as [| | |[]|]; cbn; [done..|intros ->|intros ->| | |]. Qed.

Lemma filling_keeps stage l m :
  Forall (filling stage) l → is_Some (m !! stage) → is_Some (tree_play m (art_ops l) !! stage).
Proof.
  intros Hl. revert m. induction Hl as [|o l Ho _ IH]; intros m Hm; [done|].
  destruct o as [| | |o|]; try done; cbn [art_ops omap list_omap]; try by apply IH.
  rewrite tree_play_cons. apply IH. destruct o; try done; cbn in Ho; subst; cbn [tree_apply];
    rewrite lookup_alter_eq; destruct Hm as [x ->]; by eexists.
Qed.

Lemma calm_staging stage o : calm o → staging stage o.
Proof. by destruct o. Qed.

Lemma calm_arts l : Forall calm l → art_ops l = [] ∧ current_ops l = [].
Proof. induction 1 as [|o l Ho Hl [IH1 IH2]]; [done|]. by destruct o. Qed.

Lemma staging_arts stage l :
  Forall (staging stage) l → (∀ o, o ∈ art_ops l → op_dirs o = [stage]) ∧ current_ops l = [].
Proof.
  induction 1 as [|o l Ho Hl [IH1 IH2]]; [by split; [intros ? ?%elem_of_nil|]|].
  destruct o; try done; cbn; [by split..|]. split; [|done]. by intros o' [->|?]%elem_of_cons; [|apply IH1].
Qed.

Lemma Forall_emit {O E A} (P : O → Prop) o (r : res E A) : P o → Forall P (emit o r).1.
Proof. intros Ho. by constructor. Qed.

Lemma Forall_quiet {O E A} (P : O → Prop) (r : res E A) : Forall P (quiet (O := O) r).1.
Proof. constructor. Qed.

Lemma Forall_fmap_all {A B} (f : A → B) (P : B → Prop) l : (∀ x, x ∈ l → P (f x)) → Forall P (f <$> l).
Proof. intros Hf. apply Forall_forall. by intros y (x & -> & Hx)%list_elem_of_fmap; apply Hf. Qed.

Ltac trace_all :=
  repeat (first [apply then_Forall; [|intros ? _] | apply Forall_quiet | apply Forall_emit; exact I]).

Section correct.
Context `{FT : FloatText} (lower : text → text) (sha256 : text → text) (fetch : text → Download)
  (untar : text → list (text * text) * bool) (resolve : text → text).
Context (t : Tools) (ph : Places) (pin : RuntimePin) (machine name : text).

Abbreviation checks s := (build_checks lower sha256 fetch untar resolve t ph pin machine s name).
Abbreviation built s := (build lower sha256 fetch untar resolve t ph pin machine s name).
Abbreviation ensured s := (ensure_built lower sha256 fetch untar resolve t ph pin machine s name).

Lemma refuse_dirty_calm : Forall calm (refuse_dirty t name).1.
Proof. unfold refuse_dirty, dirty_paths. trace_all. Qed.

Lemma checks_calm s : Forall calm (checks s).1.
Proof.
  unfold build_checks. unfold tree_hash, uv_step. trace_all.
  cbn [lift fst]. by apply Forall_fmap_all.
Qed.

Lemma put_files_filling d files : Forall (filling d) (put_files d files).1.
Proof. apply Forall_fmap_all. by intros o (fc & -> & _)%list_elem_of_fmap. Qed.

Lemma stage_deps_filling d lock want : Forall (filling d) (Art <$> (stage_deps lower sha256 fetch d lock want).1).
Proof.
  apply Forall_fmap_all. intros o. unfold stage_deps. intros [?%elem_of_nil|([] & _ & Ho)]%elem_of_then; [done|].
  apply elem_of_fold_trace in Ho as (staged & p & _ & Ho). unfold stage_project in Ho.
  apply elem_of_then in Ho as [?%elem_of_nil|(pkg & _ & Ho)]; [done|].
  apply elem_of_then in Ho as [?%elem_of_nil|(cs & _ & Ho)]; [done|].
  apply elem_of_then in Ho as [?%elem_of_nil|([] & _ & Ho)]; [done|].
  apply elem_of_fold_trace in Ho as (staged' & a & _ & Ho). unfold stage_art in Ho.
  apply elem_of_then in Ho as [?%elem_of_nil|(fn & _ & Ho)]; [done|].
  apply elem_of_then in Ho as [->%list_elem_of_singleton|([] & _ & Ho)]; [done|].
  destruct (default _ _) as [algo expected]. destruct (_ && _); [by apply elem_of_nil in Ho|].
  by apply list_elem_of_singleton in Ho as ->.
Qed.

Lemma fill_filling path stage : Forall (filling stage) (fill_component lower sha256 fetch t path stage).1.
Proof.
  unfold fill_component, uv_step. trace_all; try apply put_files_filling.
  - destruct (tl_group t); trace_all. apply put_files_filling.
  - apply stage_deps_filling.
Qed.

Lemma stage_staging s stage : Forall (staging stage) (stage_component lower sha256 fetch t ph s stage).1.
Proof.
  unfold stage_component. apply then_Forall; [|intros _ _].
  - apply Forall_fmap_all. intros o Ho. by eapply remake_touches.
  - eapply Forall_impl; [apply fill_filling|apply filling_staging].
Qed.

(** After the staging, the staging directory is there. *)
Lemma stage_exists s stage m :
  is_Some (tree_play m (art_ops (stage_component lower sha256 fetch t ph s stage).1) !! stage).
Proof.
  unfold stage_component. rewrite then_trace. cbn [fst snd].
  rewrite art_ops_app, art_ops_Art, tree_play_app. apply filling_keeps; [apply fill_filling|].
  rewrite remade. by eexists.
Qed.

Definition info_doc (version tree : text) : text := enc (Some 2) 0 (build_info name version tree (head_commit t) pin (tl_now t)).

(** The publication cannot fail, and is these operations. *)
Lemma publish_run s version tree :
  let final := artifact_dir version tree in
  publish t pin s name version tree =
    (Run [u "git"; u "rev-parse"; u "HEAD"] :: (Art <$> (writes (partial final) [(BUILD_JSON, info_doc version tree ++ [10%N])] ++
       replace_tree (partial final) final (sp_dirs s !! final))) ++ [SetCurrent (final ++ [10%N])],
     Ok (mk_artifact name (JStr version) (JStr tree) final (build_info name version tree (head_commit t) pin (tl_now t)))).
Proof.
  cbv zeta. unfold publish, then_, emit, quiet, put_files. cbn [fst snd].
  change (dumps (Some 2) (build_info name version tree (head_commit t) pin (tl_now t))) with (Ok (E := JsonError) (info_doc version tree)).
  cbn [map_err fst snd app]. rewrite fmap_app, <-app_assoc. unfold set_current, emit. cbn [fst snd app af_dir]. done.
Qed.

Abbreviation staged s stage := (stage_component lower sha256 fetch t ph s stage).
Abbreviation published s version tree := (publish t pin s name version tree).

(** A build stops in the checks, stops in the staging, or publishes. *)
Lemma build_cases s :
  ((built s).1 = (checks s).1 ∧ ∃ e, (built s).2 = Err e) ∨
  ∃ tree version interp, (checks s).2 = Ok (tree, version, interp) ∧
    let st := staged s (partial (artifact_dir version tree)) in
    ((built s).1 = (checks s).1 ++ st.1 ∧ ∃ e, (built s).2 = Err e) ∨
    (st.2 = Ok () ∧ (built s).1 = (checks s).1 ++ st.1 ++ (published s version tree).1 ∧
     (built s).2 = (published s version tree).2).
Proof.
  unfold build, then_. destruct (checks s) as [tr [[[tree version] interp]|e]]; cbn [fst snd];
    [|left; split; [done|by eexists]]. right. exists tree, version, interp. split; [done|]. cbv zeta.
  destruct (staged s _) as [tr1 [[]|e]]; cbn [fst snd]; [by right|left]. split; [done|by eexists].
Qed.

(** What a cut build leaves of the artifacts, before the publication. *)
Lemma cut_staging s stage pre l :
  Forall calm l → Forall (staging stage) pre →
  (∀ d, d ≠ stage → sp_dirs (shop_play s (l ++ pre)) !! d = sp_dirs s !! d) ∧
  sp_current (shop_play s (l ++ pre)) = sp_current s.
Proof.
  intros Hl Hpre. destruct (calm_arts _ Hl) as [Ha Hc], (staging_arts _ _ Hpre) as [Hops Hcur].
  rewrite shop_play_dirs, shop_play_current, art_ops_app, current_ops_app, Ha, Hc, Hcur. cbn [app last].
  split; [|done]. intros d Hd. apply tree_play_other. intros o Ho. rewrite (Hops o Ho). by rewrite list_elem_of_singleton.
Qed.

(** A prefix of a run that stages is a calm part, then a staging one. *)
Lemma cut_split s stage pre :
  pre `prefix_of` (checks s).1 ++ (staged s stage).1 →
  (∀ d, d ≠ stage → sp_dirs (shop_play s pre) !! d = sp_dirs s !! d) ∧ sp_current (shop_play s pre) = sp_current s.
Proof.
  intros [Hpre|(q & -> & Hq)]%prefix_app_cases.
  - rewrite <-(app_nil_r pre). apply cut_staging; [by eapply prefix_Forall, checks_calm|constructor].
  - apply cut_staging; [apply checks_calm|by eapply prefix_Forall, stage_staging].
Qed.

(** The publication's operations on the artifacts. *)
Lemma publish_arts args l c : art_ops (Run args :: (Art <$> l) ++ [SetCurrent c]) = l.
Proof. change (art_ops (Run ?a :: ?k)) with (art_ops k). rewrite art_ops_app, art_ops_Art. apply app_nil_r. Qed.

Lemma stage_left s stage m : is_Some (tree_play m (art_ops ((checks s).1 ++ (staged s stage).1)) !! stage).
Proof. rewrite art_ops_app, tree_play_app. apply stage_exists. Qed.

(** What the checks establish. *)
Record checked (s : Shop) (tree version interp : text) : Prop := mk_checked {
  ck_known : name ∈ tl_known t;
  ck_clean : ∃ out, tl_status t = (0%Z, out) ∧ ∀ l, l ∈ out → strip l = [];
  ck_tree : ∃ out l, tl_tree t = (0%Z, out) ∧ last out = Some l ∧ tree = strip l;
  ck_version : tl_version t = Some version ∧ version ≠ [];
  ck_interp : ∃ arch d f, host_arch lower machine = Ok arch ∧
    (ensure_interpreter sha256 fetch untar pin arch (sp_rt s)).2 = Ok (d, f) ∧
    interp = ph_unpack ph ++ u "/" ++ d ++ u "/" ++ f;
  ck_lock : tl_lock_check t = 0%Z; ck_venv : tl_venv t = 0%Z; ck_tests : tl_pytest t = 0%Z;
  ck_made : assert_pinned_venv resolve (tl_cfg_made t) interp pin = Ok ();
  ck_run : assert_pinned_venv resolve (tl_cfg_run t) interp pin = Ok ()
}.

Definition pytest_run (interp : text) : CompOp := Run [u "uv"; u "run"; u "--frozen"; u "--python"; interp; u "pytest"].

Lemma refuse_dirty_Ok : (refuse_dirty t name).2 = Ok () →
  ∃ out, tl_status t = (0%Z, out) ∧ ∀ l, l ∈ out → strip l = [].
Proof.
  unfold refuse_dirty. intros (dirty & Hd & Hr)%then_Ok. unfold dirty_paths, emit in Hd. cbn [snd] in Hd.
  destruct (tl_status t) as [rc out]. destruct (Z.eqb_spec rc 0) as [->|]; [|done]. injection Hd as <-.
  apply raise_if_Ok in Hr. apply negb_false_iff, bool_decide_eq_true, fmap_nil_inv in Hr.
  exists out. split; [done|]. intros l Hl. destruct (decide (strip l = [])) as [|Hn]; [done|].
  assert (l ∈ filter (λ l, strip l ≠ []) out) as Hin by (by apply list_elem_of_filter). rewrite Hr in Hin. by apply elem_of_nil in Hin.
Qed.

Lemma tree_hash_Ok tree : (tree_hash t name).2 = Ok tree →
  ∃ out l, tl_tree t = (0%Z, out) ∧ last out = Some l ∧ tree = strip l.
Proof.
  unfold tree_hash, emit. cbn [snd]. destruct (tl_tree t) as [rc out]. destruct (last out) as [l|] eqn:Hl; [|done].
  destruct (Z.eqb_spec rc 0) as [->|]; [|done]. intros [= <-]. by exists out, l.
Qed.

Lemma uv_step_Ok args rc e : (uv_step args rc e).2 = Ok () → rc = 0%Z.
Proof. intros H%raise_if_Ok. by apply negb_false_iff, Z.eqb_eq in H. Qed.

Lemma checks_Ok s tree version interp :
  (checks s).2 = Ok (tree, version, interp) →
  checked s tree version interp ∧ ∃ pre, (checks s).1 = pre ++ [pytest_run interp].
Proof.
  unfold build_checks. intros ([] & Hk & H)%then_Ok. rewrite (then_trace_Ok _ _ _ Hk).
  apply then_Ok in H as ([] & Hclean & H). rewrite (then_trace_Ok _ _ _ Hclean).
  apply then_Ok in H as (tree' & Htree & H). rewrite (then_trace_Ok _ _ _ Htree).
  apply then_Ok in H as (version' & Hver & H). rewrite (then_trace_Ok _ _ _ Hver).
  apply then_Ok in H as (arch & Harch & H). rewrite (then_trace_Ok _ _ _ Harch).
  apply then_Ok in H as ([d f] & Hint & H). rewrite (then_trace_Ok _ _ _ Hint).
  apply then_Ok in H as ([] & Hlock & H). rewrite (then_trace_Ok _ _ _ Hlock).
  apply then_Ok in H as ([] & Hdrop & H). rewrite (then_trace_Ok _ _ _ Hdrop).
  apply then_Ok in H as ([] & Hvenv & H). rewrite (then_trace_Ok _ _ _ Hvenv).
  apply then_Ok in H as ([] & Hmade & H). rewrite (then_trace_Ok _ _ _ Hmade).
  apply then_Ok in H as ([] & Htests & H). rewrite (then_trace_Ok _ _ _ Htests).
  apply then_Ok in H as ([] & Hrun & H). rewrite (then_trace_Ok _ _ _ Hrun). injection H as <- <- <-.
  cbn [quiet fst snd app] in *. split.
  - apply raise_if_Ok, negb_false_iff, bool_decide_eq_true in Hk.
    apply map_err_Ok in Harch. cbn [lift raising snd fst] in Hint. apply map_err_Ok in Hint.
    unfold comp_version, component_dir in Hver. res_inv.
    split; [done|by apply refuse_dirty_Ok|by apply tree_hash_Ok| |by exists arch, d, f|by eapply uv_step_Ok..|exact Hmade|exact Hrun].
    clear -H0. destruct (tl_version t) as [[|c v]|]; try done. by injection H0 as <-.
  - unfold uv_step, emit, pytest_run. cbn [fst app].
    match goal with |- ∃ pre, ?a ++ ?b ++ ?c ++ ?x :: ?y :: ?z :: [?w] = _ => exists (a ++ b ++ c ++ [x; y; z]) end.
    by rewrite <-!app_assoc.
Qed.

Abbreviation deps_run stage :=
  (stage_deps lower sha256 fetch stage (tl_lock t)
     (wanted lower [tl_requirements t; if tl_group t then tl_build_requirements t else None])).

Lemma fill_Ok path stage :
  (fill_component lower sha256 fetch t path stage).2 = Ok () →
  tl_wheel t = 0%Z ∧ tl_export t = 0%Z ∧ (tl_group t = true → tl_group_export t = 0%Z) ∧
  ∃ files, (deps_run stage).2 = Ok files.
Proof.
  unfold fill_component. intros ([] & Hw%uv_step_Ok & H)%then_Ok. apply then_Ok in H as ([] & _ & H).
  apply then_Ok in H as ([] & He%uv_step_Ok & H). apply then_Ok in H as ([] & _ & H).
  apply then_Ok in H as (b & Hb & H). apply then_Ok in H as (files & Hd & _). cbn [lift raising snd] in Hd.
  apply map_err_Ok in Hd. split_and!; [done..| |].
  - intros Hg. rewrite Hg in Hb. by apply then_Ok in Hb as ([] & Hb%uv_step_Ok & _).
  - exists files. destruct (tl_group t); [|by injection Hb as <-].
    apply then_Ok in Hb as ([] & _ & Hb). apply then_Ok in Hb as ([] & _ & Hb). by injection Hb as <-.
Qed.

(** An artifact is published only through every gate: a build that succeeds has found the
    component's tree clean and committed, its lock file current, and its tests passing on
    the pinned interpreter, in an environment made from that interpreter both before and
    after the run; the wheel and the requirements were exported and every dependency had
    its locked digest; the artifact carries the version and the tree it was built from;
    and no file of an artifact was touched before the tests had run. *)
Theorem build_gated s a :
  (built s).2 = Ok a → ∃ tree version interp,
    checked s tree version interp ∧
    a = mk_artifact name (JStr version) (JStr tree) (artifact_dir version tree)
          (build_info name version tree (head_commit t) pin (tl_now t)) ∧
    tl_wheel t = 0%Z ∧ tl_export t = 0%Z ∧ (tl_group t = true → tl_group_export t = 0%Z) ∧
    (∃ files, (deps_run (partial (artifact_dir version tree))).2 = Ok files) ∧
    ∃ pre post, (built s).1 = pre ++ pytest_run interp :: post ∧ art_ops pre = [] ∧ current_ops pre = [].
Proof.
  intros Ha. destruct (build_cases s) as [[_ [e He]]|(tree & version & interp & Hch & [[_ [e He]]|(Hst & Htr & Hres)])];
    [congruence|congruence|].
  destruct (checks_Ok _ _ _ _ Hch) as [Hck [pre Hpre]]. exists tree, version, interp. split; [done|].
  rewrite Hres, publish_run in Ha. injection Ha as <-. split; [done|].
  unfold stage_component in Hst. apply then_Ok in Hst as ([] & _ & Hfill).
  destruct (fill_Ok _ _ Hfill) as (? & ? & ? & ?). split_and!; [done..|].
  exists pre, ((staged s (partial (artifact_dir version tree))).1 ++ (published s version tree).1).
  rewrite Htr, Hpre, <-!app_assoc. split; [done|].
  pose proof (checks_calm s) as Hcalm. rewrite Hpre in Hcalm. by apply Forall_app in Hcalm as [Hcalm%calm_arts _].
Qed.

(** What a successful build leaves. *)
Lemma build_leaves s a :
  (built s).2 = Ok a →
  let m' := sp_dirs (shop_play s (built s).1) in
  sp_current (shop_play s (built s).1) = Some (af_dir a ++ [10%N]) ∧
  file_of m' (af_dir a) BUILD_JSON = Some (enc (Some 2) 0 (af_build a) ++ [10%N]) ∧
  m' !! partial (af_dir a) = None ∧
  ∀ d, d ≠ af_dir a → d ≠ partial (af_dir a) → m' !! d = sp_dirs s !! d.
Proof.
  intros Ha. cbv zeta.
  destruct (build_cases s) as [[_ [e He]]|(tree & version & interp & Hch & [[_ [e He]]|(Hst & Htr & Hres)])]; [congruence|congruence|].
  rewrite publish_run in Htr, Hres. cbn [fst snd] in Htr, Hres. rewrite Hres in Ha. injection Ha as <-.
  cbn [af_dir af_build]. set (final := artifact_dir version tree) in *. rewrite Htr, app_assoc.
  set (l := (checks s).1 ++ (staged s (partial final)).1).
  destruct (cut_split s (partial final) l (reflexivity _)) as [Hd Hcur].
  rewrite !shop_play_app, shop_play_current, shop_play_dirs, publish_arts. split.
  { change (current_ops (Run ?a :: ?k)) with (current_ops k). by rewrite current_ops_app, current_ops_Art. }
  destruct (stage_left s (partial final) (sp_dirs s)) as [t1 Ht1]. rewrite <-shop_play_dirs in Ht1. fold l in Ht1.
  set (m := sp_dirs (shop_play s l)) in *.
  assert (m !! final = sp_dirs s !! final) as Hmf by (apply Hd; intros H; by apply (partial_ne final)).
  rewrite <-Hmf. destruct (publish_leaves (partial final) final m t1 [(BUILD_JSON, info_doc version tree ++ [10%N])]
    (partial_ne final) Ht1) as (Hb & Hg & Hother). split_and!.
  - unfold file_of. rewrite Hb. cbn [mbind option_bind foldl fst snd]. apply lookup_insert_eq.
  - exact Hg.
  - intros d Hdf Hdp. rewrite Hother by done. by apply Hd.
Qed.

(** C24. A build cut after any number of its operations. Every artifact directory is as it
    was, whole as the build leaves it, or in one window a part of what it was: that is the
    directory of the very version and tree that is being built, it was there before, its removal
    has begun, and the new artifact is then whole in the staging directory. So an artifact that
    was not there before is never published in part, and nothing is removed before everything
    that can fail has passed. What the build leaves whole has its BUILD.json; and CURRENT is as
    it was, or names that artifact, and then the build has ended. *)
Theorem build_cut_anywhere s pre :
  pre `prefix_of` (built s).1 →
  let s' := shop_play s pre in
  let after := sp_dirs (shop_play s (built s).1) in
  (∀ d, (∀ n, d ≠ partial n) → sp_dirs s' !! d = sp_dirs s !! d ∨
     ∃ a, (built s).2 = Ok a ∧ d = af_dir a ∧
       file_of after d BUILD_JSON = Some (enc (Some 2) 0 (af_build a) ++ [10%N]) ∧
       (sp_dirs s' !! d = after !! d ∨
        shrunk (sp_dirs s !! d) (sp_dirs s' !! d) ∧ sp_dirs s' !! partial d = after !! d)) ∧
  (sp_current s' = sp_current s ∨
     ∃ a, (built s).2 = Ok a ∧ sp_current s' = Some (af_dir a ++ [10%N]) ∧ pre = (built s).1).
Proof.
  intros Hpre. cbv zeta.
  destruct (build_cases s) as [[Htr _]|(tree & version & interp & Hch & [[Htr _]|(Hst & Htr & Hres)])]; rewrite Htr in Hpre.
  - destruct (cut_split s (partial []) pre) as [Hd Hcur]; [by apply prefix_app_r|]. split; [|by left].
    intros d Hdp. left. by apply Hd.
  - destruct (cut_split s _ pre Hpre) as [Hd Hcur]. split; [|by left]. intros d Hdp. left. by apply Hd.
  - pose proof (build_leaves s) as Hleaves. rewrite publish_run in Htr, Hres, Hpre. cbn [fst snd] in Htr, Hres, Hpre.
    destruct (Hleaves _ Hres) as (_ & Hjson & _). cbn [af_dir] in Hjson. clear Hleaves.
    set (final := artifact_dir version tree) in *. set (l := (checks s).1 ++ (staged s (partial final)).1) in *.
    rewrite app_assoc in Htr, Hpre. fold l in Htr, Hpre.
    set (P := writes (partial final) _) in *. set (R := replace_tree _ final _) in *.
    apply prefix_app_cases in Hpre as [Hpre|(q & -> & Hq)].
    { destruct (cut_split s _ pre Hpre) as [Hd Hcur]. split; [|by left]. intros d Hdp. left. by apply Hd. }
    destruct (cut_split s (partial final) l (reflexivity _)) as [Hd Hcur]. split.
    + intros d Hdp. rewrite Htr, !shop_play_app, !shop_play_dirs in *. set (m := tree_play (sp_dirs s) (art_ops l)) in *.
      assert (m !! final = sp_dirs s !! final) as Hmf by (apply Hd; intros H; by apply (partial_ne final)).
      assert (art_ops q `prefix_of` P ++ R) as Hr.
      { destruct Hq as [k Hk]. apply (f_equal art_ops) in Hk. rewrite publish_arts, art_ops_app in Hk. by exists (art_ops k). }
      rewrite publish_arts in Hjson |- *. unfold P, R in Hr, Hjson |- *. rewrite <-Hmf in Hr, Hjson |- *.
      destruct (publish_cut _ final m _ _ (partial_ne final) (stage_left _ _ _) Hr) as [Hsame Hcases].
      destruct (decide (d = final)) as [->|Hne]; [|left; rewrite <-(Hd d) by apply Hdp; by apply Hsame].
      destruct Hcases as [Hc|Hc]; [left; by rewrite Hc|right].
      eexists. split; [exact Hres|]. split; [done|]. split; [exact Hjson|]. rewrite Hmf in *. exact Hc.
    + rewrite app_comm_cons in Hq. apply prefix_app_cases in Hq as [Hq|(r & -> & Hr)].
      * left. rewrite shop_play_app, shop_play_current, Hcur.
        assert (current_ops q = []) as ->; [|done]. destruct Hq as [k Hk]. apply (f_equal current_ops) in Hk.
        rewrite current_ops_app in Hk. change (current_ops (Run ?a :: ?k)) with (current_ops k) in Hk.
        rewrite current_ops_Art in Hk. symmetry in Hk. by apply app_eq_nil in Hk as [-> _].
      * apply prefix_of_single in Hr as [->| ->].
        -- left. rewrite app_nil_r, shop_play_app, shop_play_current, Hcur.
           change (current_ops (Run ?a :: ?k)) with (current_ops k). by rewrite current_ops_Art.
        -- right. eexists. split; [exact Hres|]. rewrite Htr, app_comm_cons. split; [|done].
           rewrite app_assoc, shop_play_app. done.
Qed.

(** ** Finding an artifact again *)

Context {FTL : FloatTextLaws}.

Lemma load_same m m' d : m !! d = m' !! d → load_artifact name m d = load_artifact name m' d.
Proof. intros Hd. unfold load_artifact, file_of. by rewrite Hd. Qed.

Lemma load_None m d : load_artifact name m d = Ok None ↔ file_of m d BUILD_JSON = None.
Proof.
  unfold load_artifact. destruct (file_of m d BUILD_JSON) as [doc|]; [|done]. split; [|done].
  intros (v & _ & H)%bind_Ok. destruct v; try done. by res_inv.
Qed.

Lemma load_built m d version tree commit now :
  json_ok (build_info name version tree commit pin now) = true →
  file_of m d BUILD_JSON = Some (enc (Some 2) 0 (build_info name version tree commit pin now) ++ [10%N]) →
  load_artifact name m d =
    Ok (Some (mk_artifact name (JStr version) (JStr tree) d (build_info name version tree commit pin now))).
Proof.
  intros Hok Hf. unfold load_artifact. rewrite Hf.
  rewrite (loads_dumps (Some 2) (build_info name version tree commit pin now)) by (done || by repeat constructor). done.
Qed.

Lemma first_loaded_None m ds : first_loaded name m ds = Ok None → ∀ d, d ∈ ds → load_artifact name m d = Ok None.
Proof.
  induction ds as [|d ds IH]; [by intros _ ? ?%elem_of_nil|]. cbn [first_loaded].
  intros (a & Ha & H)%bind_Ok. destruct a as [a|]; [done|]. by intros d' [->|?]%elem_of_cons; [|by apply IH].
Qed.

Lemma first_loaded_one m ds x a :
  (∀ d, d ∈ ds → d ≠ x → load_artifact name m d = Ok None) → load_artifact name m x = Ok (Some a) → x ∈ ds →
  first_loaded name m ds = Ok (Some a).
Proof.
  induction ds as [|d ds IH]; intros Hds Hx Hin; [by apply elem_of_nil in Hin|]. cbn [first_loaded].
  destruct (decide (d = x)) as [->|Hne]; [by rewrite Hx|]. rewrite (Hds d) by (by left || done). cbn [mbind res_bind].
  apply IH; [intros; apply Hds; [by right|done]|done|]. by apply elem_of_cons in Hin as [->|?].
Qed.

Lemma elem_of_dirs_where p m d : d ∈ dirs_where p m ↔ p d = true ∧ is_Some (m !! d).
Proof.
  unfold dirs_where, sorted_text. rewrite elem_of_isort, list_elem_of_filter, list_elem_of_fmap. split.
  - intros [Hp ([d' x] & -> & Hx%elem_of_map_to_list)]. split; [done|]. by exists x.
  - intros [Hp [x Hx]]. split; [done|]. exists (d, x). by rewrite elem_of_map_to_list.
Qed.

Lemma strip_newline x : strip (x ++ [10%N]) = strip x.
Proof.
  assert (∀ y, rstrip (y ++ [10%N]) = rstrip y) as Hr by (intros y; unfold rstrip, rstrip_by; by rewrite rev_app_distr).
  unfold strip. assert (lstrip (x ++ [10%N]) = lstrip x ++ [10%N] ∨ lstrip (x ++ [10%N]) = [] ∧ lstrip x = []) as [->|[-> ->]]; [|done..].
  unfold lstrip. induction x as [|c x IH]; [by right|]. cbn [app lstrip_by]. destruct (is_space c); [done|by left].
Qed.

(** What is found after a build is what was built. *)
Lemma find_built s a tree :
  (built s).2 = Ok a → json_ok (af_build a) = true → (tree_hash t name).2 = Ok tree →
  find_artifact name tree (sp_dirs s) = Ok None →
  load_artifact name (sp_dirs (shop_play s (built s).1)) (af_dir a) = Ok (Some a) ∧
  find_artifact name tree (sp_dirs (shop_play s (built s).1)) = Ok (Some a).
Proof.
  intros Ha Hok Htree Hnone. destruct (build_leaves s a Ha) as (_ & Hfile & Hstage & Hother).
  destruct (build_cases s) as [[_ [e He]]|(tree' & version & interp & Hch & [[_ [e He]]|(_ & _ & Hres)])]; [congruence|congruence|].
  destruct (checks_Ok _ _ _ _ Hch) as [Hck _].
  assert (tree' = tree) as ->.
  { apply tree_hash_Ok in Htree as (o1 & l1 & H1 & H2 & ->). destruct (ck_tree _ _ _ _ Hck) as (o2 & l2 & H3 & H4 & ->).
    congruence. }
  rewrite publish_run in Hres. cbn [snd] in Hres. rewrite Hres in Ha. injection Ha as <-. cbn [af_dir af_build] in *.
  set (m' := sp_dirs (shop_play s (built s).1)) in *. assert (load_artifact name m' (artifact_dir version tree) = Ok (Some
    (mk_artifact name (JStr version) (JStr tree) (artifact_dir version tree) (build_info name version tree (head_commit t) pin (tl_now t))))) as Hl
    by by apply load_built.
  split; [done|]. unfold find_artifact in *. apply (first_loaded_one _ _ (artifact_dir version tree)); [|done|].
  - intros d [Hp Hd]%elem_of_dirs_where Hne.
    assert (d ≠ partial (artifact_dir version tree)) as Hnp by (intros ->; rewrite Hstage in Hd; by destruct Hd).
    rewrite (load_same m' (sp_dirs s)) by by apply Hother. apply (first_loaded_None _ _ Hnone), elem_of_dirs_where.
    by rewrite <-Hother.
  - apply elem_of_dirs_where. split.
    + unfold endswith, artifact_dir. rewrite rev_app_distr. apply bool_decide_eq_true. by apply prefix_app_r.
    + unfold file_of in Hfile. destruct (m' !! artifact_dir version tree); [by eexists|done].
Qed.

Lemma first_loaded_Some m ds a : first_loaded name m ds = Ok (Some a) → ∃ d, d ∈ ds ∧ load_artifact name m d = Ok (Some a).
Proof.
  induction ds as [|d ds IH]; [done|]. cbn [first_loaded]. intros (o & Ho & H)%bind_Ok. destruct o as [a'|].
  - injection H as ->. exists d. split; [by left|done].
  - destruct (IH H) as (d' & ? & ?). exists d'. split; [by right|done].
Qed.

Lemma load_dir m d a : load_artifact name m d = Ok (Some a) → af_dir a = d.
Proof.
  unfold load_artifact. destruct (file_of m d BUILD_JSON); [|done]. intros (v & _ & H)%bind_Ok. destruct v; try done.
  res_inv. by subst.
Qed.

Definition git_asked : list CompOp :=
  [Run [u "git"; u "status"; u "--porcelain"; u "--"; comp_path name]; Run [u "git"; u "rev-parse"; u "HEAD:" ++ comp_path name]].

(** [ensure_built], once git has answered. *)
Lemma ensured_run s tree :
  (refuse_dirty t name).2 = Ok () → (tree_hash t name).2 = Ok tree →
  ensured s = match find_artifact name tree (sp_dirs s) with
              | Ok (Some a) => (git_asked ++ [SetCurrent (af_dir a ++ [10%N])], Ok a)
              | Ok None => (git_asked ++ (built s).1, (built s).2)
              | Err e => (git_asked, Err e)
              end.
Proof.
  intros Hclean Htree. assert (refuse_dirty t name = (take 1 git_asked, Ok ())) as Hc.
  { rewrite (surjective_pairing (refuse_dirty t name)), Hclean. f_equal.
    unfold refuse_dirty, then_, dirty_paths, emit, quiet. cbn [fst snd]. destruct (tl_status t) as [rc out].
    by destruct (rc =? 0)%Z. }
  assert (tree_hash t name = (drop 1 git_asked, Ok tree)) as Hh by (rewrite (surjective_pairing (tree_hash t name)), Htree; done).
  unfold ensure_built, then_. rewrite Hc, Hh. cbn [fst snd quiet]. destruct (find_artifact _ _ _) as [[a|]|e]; cbn [fst snd]; done.
Qed.

(** What is built is found and reused: after [ensure_built] succeeds, the source tree's
    artifact is found again, as the same artifact, and CURRENT points at it; and asking
    again, with the same answers of git, builds nothing: it runs two git commands, writes
    CURRENT as it was, and gives the same artifact. *)
Theorem ensure_built_reuses s a tree :
  (ensured s).2 = Ok a → json_ok (af_build a) = true → (tree_hash t name).2 = Ok tree →
  let s' := shop_play s (ensured s).1 in
  find_artifact name tree (sp_dirs s') = Ok (Some a) ∧
  (strip (af_dir a) = af_dir a → current_artifact name s' = Ok (Some a)) ∧
  ensured s' = (git_asked ++ [SetCurrent (af_dir a ++ [10%N])], Ok a).
Proof.
  intros Ha Hok Htree. cbv zeta.
  assert ((refuse_dirty t name).2 = Ok ()) as Hclean by (unfold ensure_built in Ha; by apply then_Ok in Ha as ([] & ? & _)).
  assert (find_artifact name tree (sp_dirs (shop_play s (ensured s).1)) = Ok (Some a) ∧
    sp_current (shop_play s (ensured s).1) = Some (af_dir a ++ [10%N]) ∧
    load_artifact name (sp_dirs (shop_play s (ensured s).1)) (af_dir a) = Ok (Some a)) as (Hfind & Hcur & Hload).
  { rewrite (ensured_run s tree Hclean Htree) in *. destruct (find_artifact name tree (sp_dirs s)) as [[a'|]|e] eqn:Hf; [| |done].
    - injection Ha as ->. split_and!; [done|done|]. destruct (first_loaded_Some _ _ _ Hf) as (d & _ & Hd).
      by rewrite (load_dir _ _ _ Hd).
    - cbn [fst snd] in *. destruct (find_built s a tree Ha Hok Htree Hf) as [H1 H2]. destruct (build_leaves s a Ha) as (H3 & _).
      by rewrite shop_play_app. }
  split_and!; [done| |by rewrite (ensured_run _ tree Hclean Htree), Hfind].
  intros Hs. unfold current_artifact. by rewrite Hcur, strip_newline, Hs.
Qed.
End correct.

(** ** Witnesses *)

Definition demo_venv_cfg : option text :=
  Some (u "home = /x/cpython-3.14.8+20261003-x86_64/python/bin" ++ [10%N] ++ u "version_info = 3.14.8" ++ [10%N]).
Definition demo_tools : Tools :=
  mk_tools [u "obs"] (Some (u "1.2.0")) (0%Z, []) (0%Z, [u "abc123"]) (0%Z, [u "def456"])
    0 0 demo_venv_cfg 0 demo_venv_cfg 0 [(u "obs-1.2.0-py3-none-any.whl", u "wheel")] 0
    (Some (u "py-yaml==6.0 \" ++ [10%N])) false 0 None
    [mk_lpkg (u "Py_YAML") (u "6.0") (Some (mk_lart (u "https://x/PyYAML-6.0.tar.gz") (u "sha256:" ++ demo_sha demo_archive))) []]
    [(u "obs.service", u "[Unit]")] (u "2026-10-01T00:00:00+00:00").
Definition demo_places : Places := mk_places (u "/cache/obs") (u "/work/obs/venv") (u "/x").
Definition demo_shop : Shop := mk_shop ∅ None demo_store.
Definition demo_final : text := u "1.2.0+abc123".

Definition demo_build : traced CompOp CompError Artifact :=
  build lower_ascii demo_sha demo_fetch demo_untar id demo_tools demo_places demo_pin (u "amd64") demo_shop (u "obs").

Lemma build_cut_anywhere_witness :
  ∃ n a, demo_build.2 = Ok a ∧ n < length demo_build.1 ∧
    (∀ d, (∀ n, d ≠ partial n) →
       sp_dirs (shop_play demo_shop (take n demo_build.1)) !! d = sp_dirs demo_shop !! d ∨ d = af_dir a).
Proof.
  destruct demo_build.2 as [a|e] eqn:Ha; [|by vm_compute in Ha]. exists 25, a.
  split; [done|]. split; [apply Nat.ltb_lt; by vm_compute|].
  destruct (build_cut_anywhere lower_ascii demo_sha demo_fetch demo_untar id demo_tools demo_places demo_pin (u "amd64")
    (u "obs") demo_shop (take 25 demo_build.1)) as [Hd _]; [apply prefix_take|].
  intros d Hdp. destruct (Hd d Hdp) as [?|(a' & Ha' & -> & _)]; [by left|right].
  fold demo_build in Ha'. rewrite Ha in Ha'. by injection Ha' as ->.
Defined.

(** The window is there: a second build of the same version and tree, cut while it removes the
    first one, leaves a directory that has lost a file, still has its BUILD.json, is named by
    CURRENT, and is found as the complete artifact of its tree. *)
Definition demo_shop_built : Shop := shop_play demo_shop demo_build.1.
Definition demo_rebuild : traced CompOp CompError Artifact :=
  build lower_ascii demo_sha demo_fetch demo_untar id demo_tools demo_places demo_pin (u "amd64") demo_shop_built (u "obs").

Example rebuild_cut_leaves_partial :
  ∃ n, let s := shop_play demo_shop_built (take n demo_rebuild.1) in
    n < length demo_rebuild.1 ∧
    (∃ f, is_Some (file_of (sp_dirs demo_shop_built) demo_final f) ∧ file_of (sp_dirs s) demo_final f = None) ∧
    sp_current s = Some (demo_final ++ [10%N]) ∧
    ∃ a, current_artifact (u "obs") s = Ok (Some a) ∧ find_artifact (u "obs") (u "abc123") (sp_dirs s) = Ok (Some a).
Proof.
  exists 16. cbv zeta. split; [apply Nat.ltb_lt; vm_compute; exact eq_refl|].
  split; [exists (u "deps/PyYAML-6.0.tar.gz"); split; [eexists|]; vm_compute; exact eq_refl|].
  split; [vm_compute; exact eq_refl|]. eexists. split; vm_compute; exact eq_refl.
Qed.

Lemma build_gated_witness :
  ∃ a, demo_build.2 = Ok a ∧ af_dir a = demo_final ∧
    ∃ interp pre post, demo_build.1 = pre ++ pytest_run interp :: post ∧ art_ops pre = [].
Proof.
  destruct demo_build.2 as [a|e] eqn:Ha; [|by vm_compute in Ha]. exists a. split; [done|].
  destruct (build_gated lower_ascii demo_sha demo_fetch demo_untar id demo_tools demo_places demo_pin (u "amd64")
    (u "obs") demo_shop a Ha) as (tree & version & interp & _ & _ & _ & _ & _ & _ & pre & post & Htr & Hpre & _).
  split; [vm_compute in Ha; injection Ha as <-; by vm_compute|]. exists interp, pre, post. split; [exact Htr|exact Hpre].
Defined.

Lemma ensure_built_reuses_witness :
  let run s := ensure_built lower_ascii demo_sha demo_fetch demo_untar id demo_tools demo_places demo_pin (u "amd64") s (u "obs") in
  ∃ a, (run demo_shop).2 = Ok a ∧ af_dir a = demo_final ∧
    (run (shop_play demo_shop (run demo_shop).1)).2 = Ok a ∧ length (run (shop_play demo_shop (run demo_shop).1)).1 = 3.
Proof.
  intros run. destruct (run demo_shop).2 as [a|e] eqn:Ha; [|by vm_compute in Ha]. exists a. split; [done|].
  assert (af_dir a = demo_final ∧ json_ok (af_build a) = true) as [Hdir Hok]
    by (vm_compute in Ha; injection Ha as <-; split; by vm_compute).
  split; [done|].
  destruct (ensure_built_reuses lower_ascii demo_sha demo_fetch demo_untar id demo_tools demo_places demo_pin (u "amd64")
    (u "obs") demo_shop a (u "abc123") Ha Hok eq_refl) as (_ & _ & Hagain).
  fold (run demo_shop) in Hagain. fold (run (shop_play demo_shop (run demo_shop).1)) in Hagain.
  rewrite Hagain. split; exact eq_refl.
Defined.
