(* ===== verification/FileTree.v ===== *)
(** * A tree of files

    A file system as a map from paths to entries: regular files with their content,
    symbolic links with their target, and directories. A rename moves everything below a
    path. *)

From S2P Require Import Prelude PyText.

Abbreviation path := (list text).

Inductive entry := EFile (content : text) | ELink (target : text) | EDir.
#[export] Instance entry_eq_dec : EqDecision entry.
Proof. solve_decision. Defined.

Abbreviation tree := (gmap path entry).

(** The rest of a path below another. *)
Fixpoint below (p k : path) : option path :=
  match p, k with
  | [], _ => Some k
  | x :: p, y :: k => if decide (x = y) then below p k else None
  | _ :: _, [] => None
  end.

Lemma below_Some p k r : below p k = Some r ↔ k = p ++ r.
Proof.
  revert k. induction p as [|x p IH]; intros k; cbn [below app]; [naive_solver|].
  destruct k as [|y k]; [done|]. destruct (decide (x = y)) as [->|Hne]; [rewrite IH; naive_solver|]. naive_solver.
Qed.

Lemma below_None p k : below p k = None ↔ ¬ p `prefix_of` k.
Proof.
  destruct (below p k) as [r|] eqn:H.
  - apply below_Some in H as ->. split; [done|]. intros []. by apply prefix_app_r.
  - split; [|done]. intros _ [r Hr]. by rewrite (proj2 (below_Some p k r) Hr) in H.
Qed.

Lemma below_app p r : below p (p ++ r) = Some r.
Proof. by apply below_Some. Qed.

(** The names in a directory, in order. *)
Definition children (fs : tree) (p : path) : list text :=
  sorted_text (omap (λ kv, match below p kv.1 with Some [c] => Some c | _ => None end) (map_to_list fs)).

Lemma elem_of_children fs p c : c ∈ children fs p ↔ is_Some (fs !! (p ++ [c])).
Proof.
  unfold children, sorted_text. rewrite elem_of_isort, list_elem_of_omap. split.
  - intros ([k e] & Hk%elem_of_map_to_list & H). cbn [fst] in H. destruct (below p k) as [[|x []]|] eqn:Hb; try done.
    injection H as ->. apply below_Some in Hb as ->. by exists e.
  - intros [e He]. exists (p ++ [c], e). split; [by apply elem_of_map_to_list|]. cbn [fst]. by rewrite below_app.
Qed.

Lemma NoDup_children fs p : NoDup (children fs p).
Proof.
  apply NoDup_isort. pose proof (NoDup_fst_map_to_list fs) as Hnd. revert Hnd.
  induction (map_to_list fs) as [|[k e] l IH]; intros Hnd; [constructor|]. cbn [fmap list_fmap fst] in Hnd.
  apply NoDup_cons in Hnd as [Hk Hnd]. cbn [omap list_omap fst].
  destruct (below p k) as [[|c []]|] eqn:Hb; try by apply IH. apply NoDup_cons. split; [|by apply IH].
  intros Hc. apply list_elem_of_omap in Hc as ([k' e'] & Hin & H). cbn [fst] in H.
  destruct (below p k') as [[|c' []]|] eqn:Hb'; try done. injection H as ->.
  apply below_Some in Hb as ->, Hb' as ->. apply Hk. by apply (list_elem_of_fmap_2 fst) in Hin.
Qed.

(** [Path.rename], of everything at and below [s], onto a free name. *)
Definition rehome (s d k : path) : path := match below s k with Some r => d ++ r | None => k end.
Definition rename (s d : path) (fs : tree) : tree :=
  list_to_map ((λ kv, (rehome s d kv.1, kv.2)) <$> filter (λ kv, below d kv.1 = None) (map_to_list fs)).

(** Paths of which neither is below the other. *)
Definition apart (p q : path) : Prop := (¬ p `prefix_of` q) ∧ ¬ q `prefix_of` p.

Lemma apart_sym p q : apart p q → apart q p.
Proof. by intros []. Qed.

Lemma apart_app p q r1 r2 : apart p q → apart (p ++ r1) (q ++ r2).
Proof.
  intros [H1 H2]. split; intros H; [destruct (prefix_weak_total p q (q ++ r2)) as [?|?]|destruct (prefix_weak_total p q (p ++ r1)) as [?|?]];
    try done; try (by apply prefix_app_r); by eapply prefix_app_l.
Qed.

Lemma apart_names p c1 c2 r1 r2 : c1 ≠ c2 → apart (p ++ c1 :: r1) (p ++ c2 :: r2).
Proof. intros Hne. split; intros H%prefix_app_inv; apply prefix_cons_inv_1 in H; congruence. Qed.

Lemma below_apart p q r : apart p q → below p (q ++ r) = None.
Proof.
  intros Ha. apply below_None. intros H. destruct (apart_app p q [] r Ha) as [H1 _]. by rewrite app_nil_r in H1.
Qed.

Lemma apart_not_prefix p q r : apart p q → ¬ p `prefix_of` q ++ r.
Proof. intros Ha. by apply below_None, below_apart. Qed.

Lemma rename_lookup s d fs p :
  apart s d →
  rename s d fs !! p = match below d p with
                       | Some r => fs !! (s ++ r)
                       | None => match below s p with Some _ => None | None => fs !! p end
                       end.
Proof.
  intros Ha. unfold rename.
  assert (∀ k e, fs !! k = Some e → below d k = None → rehome s d k = p →
    (match below d p with Some r => fs !! (s ++ r) | None => match below s p with Some _ => None | None => fs !! p end end) = Some e) as Hfwd.
  { intros k e Hk Hd <-. unfold rehome. destruct (below s k) as [r|] eqn:Hs.
    - apply below_Some in Hs as ->. by rewrite below_app.
    - by rewrite Hd, Hs. }
  assert (NoDup ((λ kv, (rehome s d kv.1, kv.2)) <$> filter (λ kv, below d kv.1 = None) (map_to_list fs)).*1) as Hnd.
  { assert (∀ l : list (path * entry), ((λ kv, (rehome s d kv.1, kv.2)) <$> l).*1 = rehome s d <$> l.*1) as ->
      by (intros l; rewrite <-!list_fmap_compose; done).
    assert (NoDup (filter (λ kv, below d kv.1 = None) (map_to_list fs)).*1) as Hnd.
    { eapply sublist_NoDup; [apply (NoDup_fst_map_to_list fs)|]. apply fmap_sublist, sublist_filter. }
    apply NoDup_fmap_2_strong; [|done].
    intros k1 k2 H1 H2. apply list_elem_of_fmap in H1 as ([k1' e1] & -> & [Hd1 _]%list_elem_of_filter).
    apply list_elem_of_fmap in H2 as ([k2' e2] & -> & [Hd2 _]%list_elem_of_filter). cbn [fst] in *. unfold rehome.
    destruct (below s k1') as [r1|] eqn:Hs1, (below s k2') as [r2|] eqn:Hs2; intros Heq.
    - apply below_Some in Hs1 as ->, Hs2 as ->. by simplify_list_eq.
    - rewrite <-Heq, below_app in Hd2. done.
    - rewrite Heq, below_app in Hd1. done.
    - done. }
  destruct (match below d p with Some r => _ | None => _ end) as [e|] eqn:He.
  - apply elem_of_list_to_map_1; [done|]. apply list_elem_of_fmap.
    destruct (below d p) as [r|] eqn:Hd.
    + exists (s ++ r, e). cbn [fst snd]. unfold rehome. rewrite below_app. apply below_Some in Hd as ->. split; [done|].
      apply list_elem_of_filter. cbn [fst]. split; [by apply below_apart, apart_sym|by apply elem_of_map_to_list].
    + destruct (below s p) eqn:Hs; [done|]. exists (p, e). cbn [fst snd]. unfold rehome. rewrite Hs. split; [done|].
      apply list_elem_of_filter. split; [done|by apply elem_of_map_to_list].
  - apply not_elem_of_list_to_map_1. intros Hin. rewrite <-list_fmap_compose in Hin.
    apply list_elem_of_fmap in Hin as ([k e] & Hp & [Hd Hk%elem_of_map_to_list]%list_elem_of_filter). cbn in Hp, Hd.
    discriminate (Hfwd k e Hk Hd (eq_sym Hp)).
Qed.

(** [mkdir(parents=True, exist_ok=True)]: the missing directories of a path. [None] is a
    component that is no directory. *)
Definition mkdir_one (fs : option tree) (p : path) : option tree :=
  m ← fs; match m !! p with None => Some (<[p := EDir]> m) | Some EDir => Some m | Some _ => None end.
Definition prefixes (p : path) : list path := (λ n, take n p) <$> seq 1 (length p).
Definition mkdirs (p : path) (fs : tree) : option tree := foldl mkdir_one (Some fs) (prefixes p).

Lemma elem_of_prefixes p q : q ∈ prefixes p ↔ q `prefix_of` p ∧ q ≠ [].
Proof.
  unfold prefixes. rewrite list_elem_of_fmap. split.
  - intros (n & -> & [Hn1 Hn2]%elem_of_seq). split; [apply prefix_take|]. destruct p, n; cbn in *; by try lia.
  - intros [[r ->] Hq]. exists (length q). rewrite take_app_length, elem_of_seq, length_app.
    destruct q; [done|]. cbn. split; [done|lia].
Qed.

(** Where every component is a directory or missing, the missing ones become directories
    and nothing else changes. *)
Lemma mkdirs_Some p fs :
  (∀ q, q `prefix_of` p → q ≠ [] → fs !! q = None ∨ fs !! q = Some EDir) →
  ∃ fs', mkdirs p fs = Some fs' ∧
    (∀ q, q `prefix_of` p → q ≠ [] → fs' !! q = Some EDir) ∧
    ∀ q, fs' !! q = fs !! q ∨ fs !! q = None ∧ fs' !! q = Some EDir ∧ q `prefix_of` p.
Proof.
  intros Hok. unfold mkdirs. assert (∀ l fs0,
    (∀ q, q ∈ l → q `prefix_of` p ∧ (fs0 !! q = None ∨ fs0 !! q = Some EDir)) →
    ∃ fs', foldl mkdir_one (Some fs0) l = Some fs' ∧ (∀ q, q ∈ l → fs' !! q = Some EDir) ∧
      ∀ q, fs' !! q = fs0 !! q ∨ fs0 !! q = None ∧ fs' !! q = Some EDir ∧ q `prefix_of` p) as Hgen.
  { induction l as [|x l IH]; intros fs0 Hl.
    { exists fs0. split_and!; [done|by intros ? ?%elem_of_nil|by left]. }
    destruct (Hl x) as [Hxp Hx]; [by left|]. cbn [foldl]. unfold mkdir_one at 2. cbn [mbind option_bind].
    assert (∃ fs1, match fs0 !! x with None => Some (<[x := EDir]> fs0) | Some EDir => Some fs0 | Some _ => None end = Some fs1 ∧
      fs1 !! x = Some EDir ∧ ∀ q, fs1 !! q = fs0 !! q ∨ fs0 !! q = None ∧ fs1 !! q = Some EDir ∧ q = x) as (fs1 & -> & Hfx & Hf1).
    { destruct Hx as [-> | Hx]; [|rewrite Hx; exists fs0; split_and!; [done|done|by left]].
      exists (<[x := EDir]> fs0). split_and!; [done|apply lookup_insert_eq|]. intros q.
      destruct (decide (q = x)) as [->|Hq]; [|left; by apply lookup_insert_ne].
      rewrite lookup_insert_eq. destruct (fs0 !! x) as [e|] eqn:He; [|by right]. destruct (Hl x) as [_ [?|Hd]]; [by left|congruence|left; congruence]. }
    destruct (IH fs1) as (fs' & Hfs' & Hin & Hother).
    { intros q Hq. destruct (Hl q) as [Hqp Hq0]; [by right|]. split; [done|]. destruct (Hf1 q) as [->|(_ & -> & _)]; [done|by right]. }
    exists fs'. split; [done|]. split.
    - intros q [->|Hq]%elem_of_cons; [|by apply Hin]. destruct (Hother x) as [->|(_ & -> & _)]; done.
    - intros q. destruct (Hother q) as [->|(Hn & Hq & Hqp)], (Hf1 q) as [H|(H0 & H & ->)]; rewrite ?H in *; auto. }
  destruct (Hgen (prefixes p) fs) as (fs' & Hfs' & Hin & Hother).
  { intros q [Hq Hne]%elem_of_prefixes. split; [done|by apply Hok]. }
  exists fs'. split_and!; [done| |done]. intros q Hq Hne. by apply Hin, elem_of_prefixes.
Qed.
