(* ===== verification/BuildEnv.v ===== *)
(** * The build directory's buckets and their migration

    Models the bucket half of mqlab/buildenv.py: where a bucket is, and the migration of
    the legacy top-level entries into their buckets, planned as a whole and then applied.
    Paths are relative to the repository, which is a main checkout, so that its buckets
    are directories of its own. Whether a symbolic link leads somewhere is an input. *)

From S2P Require Import Prelude PyText PyDict FileTree.

(** ** Where a bucket is *)

Definition BUCKETS : list text := [u "cache"; u "state"; u "work"; u "temp"].
Definition SHARED : list text := [u "cache"; u "state"].

Inductive BuildEnvError :=
  | UnknownBucket (bucket : text)
  | Collision (conflicts : list (path * path))
  | FileError.                                  (* OSError *)

(** [main_build_root]: [common] is git's answer, an absolute path or one below the
    repository; [resolve] is [Path.resolve]. *)
Definition main_build_root (resolve : text → text) (repo common : text) : text :=
  let abs := if startswith common (u "/") then common else repo ++ u "/" ++ common in
  match cut 47 (rev (resolve abs)) with Some (_, parent) => rev parent | None => u "." end ++ u "/build".

Definition bucket_path (resolve : text → text) (repo common bucket : text) : res BuildEnvError text :=
  if negb (bool_decide (bucket ∈ BUCKETS)) then Err (UnknownBucket bucket)
  else Ok (if bool_decide (bucket ∈ SHARED) then main_build_root resolve repo common ++ u "/" ++ bucket
           else repo ++ u "/build/" ++ bucket).

(** ** The plan *)

Definition MIGRATION : list (text * text) :=
  [(u "mq", u "cache"); (u "refs", u "cache"); (u "ansible_collections", u "cache"); (u "snapshots", u "state");
   (u "boxes", u "state"); (u "rhel96-box", u "state"); (u "secrets", u "state"); (u "fence_key", u "state");
   (u "fence_key.pub", u "state"); (u "runs", u "state"); (u "reports", u "state"); (u "dr-runs", u "state");
   (u "inventory.ini", u "work"); (u "lab", u "work"); (u "versions.json", u "work"); (u "grafana", u "work");
   (u "prometheus", u "work"); (u "obs", u "work"); (u "salt", u "work")].
(** [MIGRATION_GLOBS]: the suffix of its one pattern, and its bucket. *)
Definition DVD_SUFFIX : text := u "-dvd.iso".
Definition MERGEABLE : list text := [u "refs"].

Definition BUILD : text := u "build".

(** What the plan says of a path, in the order it is met. *)
Inductive item :=
  | Move (s d : path) | Dup (s d : path) | Prune (p : path) | Conflict (s d : path) | Stale (s d : path).

Section plan.
Context (alive : text → bool) (fs : tree).

(** [Path.exists], which follows a link; [lexists] does not. *)
Definition exists_at (p : path) : bool :=
  match fs !! p with Some (ELink t) => alive t | Some _ => true | None => false end.
Definition lexists (p : path) : bool := bool_decide (is_Some (fs !! p)).
Definition is_real_dir (p : path) : bool := bool_decide (fs !! p = Some EDir).

Definition identical (a b : path) : bool :=
  match fs !! a, fs !! b with
  | Some (ELink s), Some (ELink t) => bool_decide (s = t)
  | Some (EFile c), Some (EFile c') => bool_decide (c = c')
  | _, _ => false
  end.

(** [_plan_merge], with fuel for the depth of the tree. *)
Fixpoint plan_merge (n : nat) (src dst : path) : list item :=
  match n with
  | 0 => []
  | S n =>
      (children fs src ≫= λ c,
         let s := src ++ [c] in
         let d := dst ++ [c] in
         if negb (lexists d) then [Move s d]
         else if is_real_dir s && is_real_dir d then plan_merge n s d
         else if identical s d then [Dup s d]
         else [Conflict s d]) ++ [Prune src]
  end.

(** A level more than the longest path. *)
Definition depth : nat := S (foldr (λ kv m, Nat.max (length kv.1) m) 0 (map_to_list fs)).

Definition legacy (name : text) : path := [BUILD; name].
Definition bucketed (name bucket : text) : path := [BUILD; bucket; name].

(** The entries to migrate: the named ones, then the install DVDs found. *)
Definition migration_entries : list (text * text) :=
  MIGRATION ++ ((λ name, (name, u "state")) <$> filter (λ name, endswith name DVD_SUFFIX = true) (children fs [BUILD])).

Definition plan_entry (nb : text * text) : list item :=
  let '(name, bucket) := nb in
  let src := legacy name in
  let dst := bucketed name bucket in
  if negb (exists_at src) then []
  else if negb (exists_at dst) then [Move src dst]
  else if bool_decide (name ∈ MERGEABLE) && is_real_dir src && is_real_dir dst then plan_merge depth src dst
  else [Conflict src dst].

Definition vagrant_src : path := [u "lab"; u ".vagrant"].
Definition vagrant_dst : path := [BUILD; u "state"; u "vagrant"].
Definition plan_vagrant : list item :=
  if negb (is_real_dir vagrant_src) then []
  else if exists_at vagrant_dst then [Stale vagrant_src vagrant_dst] else [Move vagrant_src vagrant_dst].
End plan.

(** [MigrationPlan]. *)
Record MigrationPlan := mk_plan {
  mp_moves : list (path * path); mp_duplicates : list (path * path); mp_stale : list path; mp_prune : list path
}.

Definition moves_of (l : list item) : list (path * path) := omap (λ i, match i with Move s d => Some (s, d) | _ => None end) l.
Definition dups_of (l : list item) : list (path * path) := omap (λ i, match i with Dup s d => Some (s, d) | _ => None end) l.
Definition prunes_of (l : list item) : list path := omap (λ i, match i with Prune p => Some p | _ => None end) l.
Definition conflicts_of (l : list item) : list (path * path) :=
  omap (λ i, match i with Conflict s d => Some (s, d) | _ => None end) l.
Definition stale_of (l : list item) : list path := omap (λ i, match i with Stale s _ => Some s | _ => None end) l.

Definition plan_of (l : list item) : MigrationPlan := mk_plan (moves_of l) (dups_of l) (stale_of l) (prunes_of l).

(** ** Applying it *)

Definition parent (p : path) : path := removelast p.

Definition apply_move (fs : tree) (sd : path * path) : res BuildEnvError tree :=
  fs ← of_option FileError (mkdirs (parent sd.2) fs);
  _ ← of_option FileError (fs !! sd.1);
  Ok (rename sd.1 sd.2 fs).

Definition unlink (fs : tree) (p : path) : res BuildEnvError tree :=
  match fs !! p with Some (EFile _) | Some (ELink _) => Ok (delete p fs) | _ => Err FileError end.

Definition rmdir (fs : tree) (p : path) : res BuildEnvError tree :=
  if bool_decide (fs !! p = Some EDir) && bool_decide (children fs p = []) then Ok (delete p fs) else Err FileError.

(** [_apply]. *)
Definition apply_plan (p : MigrationPlan) (fs : tree) : res BuildEnvError tree :=
  fs ← res_foldM apply_move fs (mp_moves p);
  fs ← res_foldM (λ fs sd, unlink fs sd.1) fs (mp_duplicates p);
  res_foldM rmdir fs (mp_prune p).

(** [migrate]: the plan, and the tree it leaves. *)
Definition migrate (alive : text → bool) (dry_run : bool) (fs : tree) : res BuildEnvError (MigrationPlan * tree) :=
  let items := migration_entries fs ≫= plan_entry alive fs in
  _ ← raise_if (negb (bool_decide (conflicts_of items = []))) (Collision (conflicts_of items));
  let plan := plan_of (items ++ plan_vagrant alive fs) in
  fs' ← (if dry_run : bool then Ok fs else apply_plan plan fs);
  Ok (plan, fs').

(** ** What a plan covers *)

Definition cov (l : list item) (k : path) : Prop :=
  (∃ s d, Move s d ∈ l ∧ s `prefix_of` k) ∨ (∃ d, Dup k d ∈ l) ∨ Prune k ∈ l.

Lemma cov_sub l l' k : (∀ i, i ∈ l → i ∈ l') → cov l k → cov l' k.
Proof.
  intros Hl [(s & d & ? & ?)|[(d & ?)|?]]; [left; exists s, d|right; left; exists d|right; right]; auto.
Qed.

Definition no_conflict (l : list item) : Prop := ∀ s d, Conflict s d ∉ l.

(** Pairwise related elements, earlier to later. *)
Fixpoint pairwise {A} (R : A → A → Prop) (l : list A) : Prop :=
  match l with [] => True | x :: l => (∀ y, y ∈ l → R x y) ∧ pairwise R l end.

Lemma pairwise_app {A} (R : A → A → Prop) l k :
  pairwise R (l ++ k) ↔ pairwise R l ∧ pairwise R k ∧ ∀ x y, x ∈ l → y ∈ k → R x y.
Proof.
  induction l as [|x l IH]; cbn [pairwise app].
  - split; [intros ?; split_and!; [done..|by intros ? ? ?%elem_of_nil]|by intros (_ & ? & _)].
  - rewrite IH. setoid_rewrite elem_of_app. setoid_rewrite elem_of_cons. split.
    + intros (Hx & Hl & Hk & Hlk). split_and!; [intros; apply Hx; by left|done..|].
      intros a b [->|Ha] Hb; [apply Hx; by right|by apply Hlk].
    + intros ((Hx & Hl) & Hk & Hlk). split_and!; [|done..|intros; apply Hlk; [by right|done]].
      intros y [Hy|Hy]; [by apply Hx|apply Hlk; [by left|done]].
Qed.

Lemma pairwise_bind {A B} (R : B → B → Prop) (f : A → list B) l :
  (∀ x, x ∈ l → pairwise R (f x)) → pairwise (λ x y, ∀ a b, a ∈ f x → b ∈ f y → R a b) l → pairwise R (l ≫= f).
Proof.
  induction l as [|x l IH]; intros Hf Hl; [done|]. rewrite bind_cons, pairwise_app. destruct Hl as [Hx Hl].
  split_and!; [apply Hf; by left|apply IH; [intros; apply Hf; by right|done]|].
  intros a b Ha (y & Hb & Hy)%list_elem_of_bind. by eapply Hx.
Qed.

Lemma pairwise_NoDup {A} (R : A → A → Prop) l :
  NoDup l → (∀ x y, x ∈ l → y ∈ l → x ≠ y → R x y) → pairwise R l.
Proof.
  induction 1 as [|x l Hx Hl IH]; intros HR; [done|]. split.
  - intros y Hy. apply HR; [by left|by right|by intros ->].
  - apply IH. intros; apply HR; [by right..|done].
Qed.

(** The legacy paths a plan takes away one by one. *)
Definition source (i : item) : option path := match i with Move s _ | Dup s _ => Some s | _ => None end.

(** Every directory removed is empty by then: whatever is in it was covered before. *)
Fixpoint ordered (fs : tree) (before l : list item) : Prop :=
  match l with
  | [] => True
  | i :: l => match i with Prune p => ∀ c, is_Some (fs !! (p ++ [c])) → cov before (p ++ [c]) | _ => True end
              ∧ ordered fs (before ++ [i]) l
  end.

Lemma ordered_app fs b l k : ordered fs b (l ++ k) ↔ ordered fs b l ∧ ordered fs (b ++ l) k.
Proof.
  revert b. induction l as [|i l IH]; intros b; cbn [app ordered]; [rewrite app_nil_r; tauto|].
  rewrite IH, <-app_assoc. cbn [app]. tauto.
Qed.

Lemma ordered_mono fs b b' l : (∀ i, i ∈ b → i ∈ b') → ordered fs b l → ordered fs b' l.
Proof.
  revert b b'. induction l as [|i l IH]; intros b b' Hb; [done|]. cbn [ordered]. intros [Hi Hl]. split.
  - destruct i; try done. intros c Hc. by eapply cov_sub, Hi.
  - eapply IH; [|exact Hl]. intros j. rewrite !elem_of_app. naive_solver.
Qed.

Lemma ordered_bind fs b {A} (f : A → list item) l : (∀ x, x ∈ l → ordered fs [] (f x)) → ordered fs b (l ≫= f).
Proof.
  revert b. induction l as [|x l IH]; intros b Hf; [done|]. rewrite bind_cons, ordered_app. split.
  - eapply ordered_mono, Hf; [by intros ? ?%elem_of_nil|by left].
  - apply IH. intros; apply Hf. by right.
Qed.

(** Every component of a path is a directory, or missing. *)
Definition dirs_to (fs : tree) (p : path) : Prop :=
  ∀ q, q `prefix_of` p → q ≠ [] → fs !! q = None ∨ fs !! q = Some EDir.

Section merge.
Context (alive : text → bool) (fs : tree).

(** A tree: whatever has an entry below it is a directory. *)
Definition tree_wf : Prop := ∀ p r, r ≠ [] → is_Some (fs !! (p ++ r)) → p = [] ∨ fs !! p = Some EDir.

Record merged (items : list item) (src dst : path) : Prop := mk_merged {
  mg_moves : ∀ s d, Move s d ∈ items → ∃ r, s = src ++ r ∧ d = dst ++ r ∧ is_Some (fs !! s) ∧ fs !! d = None ∧
    dirs_to fs (parent d);
  mg_dups : ∀ s d, Dup s d ∈ items → ∃ r e, s = src ++ r ∧ d = dst ++ r ∧ e ≠ EDir ∧ fs !! s = Some e ∧ fs !! d = Some e;
  mg_prunes : ∀ p, Prune p ∈ items → ∃ r, p = src ++ r ∧ fs !! p = Some EDir ∧ fs !! (dst ++ r) = Some EDir;
  mg_stale : ∀ s d, Stale s d ∉ items;
  mg_cov : no_conflict items → ∀ r, is_Some (fs !! (src ++ r)) → cov items (src ++ r);
  mg_order : no_conflict items → ordered fs [] items;
  mg_apart : pairwise apart (omap source items);
  mg_once : NoDup (prunes_of items)
}.

Lemma dirs_to_dir p : tree_wf → fs !! p = Some EDir → dirs_to fs p.
Proof.
  intros Hwf Hp q [r ->] Hq. destruct r as [|x r]; [rewrite app_nil_r in Hp; by right|].
  destruct (Hwf q (x :: r)) as [?|?]; [done|by eexists|done|by right].
Qed.

Lemma identical_Some a b : identical fs a b = true → ∃ e, e ≠ EDir ∧ fs !! a = Some e ∧ fs !! b = Some e.
Proof.
  unfold identical. destruct (fs !! a) as [[c|t|]|], (fs !! b) as [[c'|t'|]|]; try done; intros H%bool_decide_eq_true; subst.
  - exists (EFile c'). by split_and!.
  - exists (ELink t'). by split_and!.
Qed.

Lemma parent_snoc (p : path) c : parent (p ++ [c]) = p.
Proof. apply removelast_last. Qed.

Lemma merged_source items src dst s : merged items src dst → s ∈ omap source items → ∃ r, s = src ++ r.
Proof.
  intros Hm (i & Hi & Hs)%list_elem_of_omap. destruct i; try done; injection Hs as ->.
  - destruct (mg_moves _ _ _ Hm _ _ Hi) as (r & -> & _). by exists r.
  - destruct (mg_dups _ _ _ Hm _ _ Hi) as (r & e & -> & _). by exists r.
Qed.

(** The merge of one child. *)
Definition merge_child (n : nat) (src dst : path) (c : text) : list item :=
  let s := src ++ [c] in
  let d := dst ++ [c] in
  if negb (lexists fs d) then [Move s d]
  else if is_real_dir fs s && is_real_dir fs d then plan_merge fs n s d
  else if identical fs s d then [Dup s d] else [Conflict s d].

Lemma plan_merge_S n src dst : plan_merge fs (S n) src dst = (children fs src ≫= merge_child n src dst) ++ [Prune src].
Proof. done. Qed.

Ltac vacuous :=
  intros; try (let H := fresh in intros H);
  match goal with H : _ ∈ [_] |- _ => apply list_elem_of_singleton in H; discriminate H end.

Lemma merged_move s d :
  is_Some (fs !! s) → fs !! d = None → dirs_to fs (parent d) → merged [Move s d] s d.
Proof.
  intros Hs Hd Hp. split; try vacuous; try done; [| | |].
  - intros s' d' [= -> ->]%list_elem_of_singleton. exists []. rewrite !app_nil_r. by split_and!.
  - intros _ r _. left. exists s, d. split; [by left|by apply prefix_app_r].
  - cbn. split; [by intros ? ?%elem_of_nil|done].
  - constructor.
Qed.

Lemma merged_dup s d e : tree_wf → s ≠ [] → e ≠ EDir → fs !! s = Some e → fs !! d = Some e → merged [Dup s d] s d.
Proof.
  intros Hwf Hne He Hs Hd. split; try vacuous; try done; [| | |].
  - intros s' d' [= -> ->]%list_elem_of_singleton. exists [], e. rewrite !app_nil_r. by split_and!.
  - intros _ r Hr. right; left. exists d. destruct r as [|c r]; [rewrite app_nil_r; by left|]. exfalso.
    destruct (Hwf s (c :: r)) as [->|Heq]; [done|done|done|congruence].
  - cbn. split; [by intros ? ?%elem_of_nil|done].
  - constructor.
Qed.

Lemma merged_conflict s d a b : merged [Conflict s d] a b.
Proof.
  split; try vacuous; try (intros Hn; by destruct (Hn s d); left); [done|constructor].
Qed.

Lemma merged_prune items src dst p : merged items src dst → p ∈ prunes_of items → ∃ r, p = src ++ r.
Proof.
  intros Hm (i & Hi & Hp)%list_elem_of_omap. destruct i; try done. injection Hp as ->.
  destruct (mg_prunes _ _ _ Hm _ Hi) as (r & -> & _). by exists r.
Qed.

Lemma merge_child_merged n src dst c :
  (∀ src dst, src ≠ [] → fs !! src = Some EDir → fs !! dst = Some EDir →
     (∀ r, is_Some (fs !! (src ++ r)) → length r < n) → merged (plan_merge fs n src dst) src dst) →
  tree_wf → fs !! dst = Some EDir → is_Some (fs !! (src ++ [c])) → (∀ r, is_Some (fs !! (src ++ r)) → length r < S n) →
  merged (merge_child n src dst c) (src ++ [c]) (dst ++ [c]).
Proof.
  intros IH Hwf Hdst Hc Hfuel. unfold merge_child, lexists, is_real_dir. case_bool_decide as Hd; cbn [negb]; cycle 1.
  { apply merged_move; [done|by apply eq_None_not_Some|]. rewrite parent_snoc. by apply dirs_to_dir. }
  destruct (bool_decide (fs !! (src ++ [c]) = Some EDir) && bool_decide (fs !! (dst ++ [c]) = Some EDir)) eqn:Hdirs.
  { apply andb_true_iff in Hdirs as [Hs1%bool_decide_eq_true Hd1%bool_decide_eq_true]. apply IH; [by destruct src|done|done|]. intros r Hr.
    rewrite <-app_assoc in Hr. specialize (Hfuel _ Hr). cbn in Hfuel. lia. }
  destruct (identical fs (src ++ [c]) (dst ++ [c])) eqn:Hi; [|apply merged_conflict].
  destruct (identical_Some _ _ Hi) as (e & ? & ? & ?). eapply merged_dup; [done|by destruct src|done..].
Qed.

Lemma prunes_bind {A} (f : A → list item) l : prunes_of (l ≫= f) = l ≫= λ x, prunes_of (f x).
Proof.
  induction l as [|x l IH]; [done|]. rewrite !bind_cons. unfold prunes_of in *. by rewrite omap_app, IH.
Qed.

(** The whole merge of two directories. *)
Lemma plan_merge_merged n src dst :
  tree_wf → src ≠ [] → fs !! src = Some EDir → fs !! dst = Some EDir →
  (∀ r, is_Some (fs !! (src ++ r)) → length r < n) → merged (plan_merge fs n src dst) src dst.
Proof.
  intros Hwf. revert src dst. induction n as [|n IH]; intros src dst Hne Hsrc Hdst Hfuel.
  { specialize (Hfuel []). rewrite app_nil_r in Hfuel. destruct (Nat.nlt_0_r _ (Hfuel ltac:(by eexists))). }
  assert (∀ c, c ∈ children fs src → merged (merge_child n src dst c) (src ++ [c]) (dst ++ [c])) as Hch.
  { intros c Hc%elem_of_children. apply merge_child_merged; try done. }
  rewrite plan_merge_S.
  assert (∀ i, i ∈ (children fs src ≫= merge_child n src dst) ++ [Prune src] →
    i = Prune src ∨ ∃ c, c ∈ children fs src ∧ i ∈ merge_child n src dst c) as Hel.
  { intros i [(c & ? & ?)%list_elem_of_bind| ->%list_elem_of_singleton]%elem_of_app; [right; by exists c|by left]. }
  assert (∀ c, c ∈ children fs src → ∀ i, i ∈ merge_child n src dst c → i ∈ (children fs src ≫= merge_child n src dst) ++ [Prune src]) as Hsub.
  { intros c Hc i Hi. apply elem_of_app. left. apply list_elem_of_bind. by exists c. }
  split.
  - intros s d [[=]|(c & Hc & Hi)]%Hel. destruct (mg_moves _ _ _ (Hch c Hc) _ _ Hi) as (r & -> & -> & ?).
    exists (c :: r). by rewrite <-!app_assoc in *.
  - intros s d [[=]|(c & Hc & Hi)]%Hel. destruct (mg_dups _ _ _ (Hch c Hc) _ _ Hi) as (r & e & -> & -> & ?).
    exists (c :: r), e. by rewrite <-!app_assoc in *.
  - intros p [[= ->]|(c & Hc & Hi)]%Hel; [exists []; by rewrite !app_nil_r|].
    destruct (mg_prunes _ _ _ (Hch c Hc) _ Hi) as (r & -> & ? & ?). exists (c :: r). by rewrite <-app_assoc in *.
  - intros s d [[=]|(c & Hc & Hi)]%Hel. by destruct (mg_stale _ _ _ (Hch c Hc) s d).
  - intros Hno r Hr. destruct r as [|c r]; [rewrite app_nil_r; right; right; apply elem_of_app; right; by left|].
    assert (c ∈ children fs src) as Hc.
    { apply elem_of_children. destruct r as [|x r]; [done|].
      destruct (Hwf (src ++ [c]) (x :: r)) as [H|H]; [done|by rewrite <-app_assoc|by destruct src|by eexists]. }
    assert (src ++ c :: r = (src ++ [c]) ++ r) as Heq by by rewrite <-app_assoc. rewrite Heq in *. eapply cov_sub; [by apply (Hsub c Hc)|].
    apply (mg_cov _ _ _ (Hch c Hc)); [|done]. intros s d Hi. by apply (Hno s d), (Hsub c Hc).
  - intros Hno. rewrite ordered_app. split.
    + apply ordered_bind. intros c Hc. apply (mg_order _ _ _ (Hch c Hc)). intros s d Hi. by apply (Hno s d), (Hsub c Hc).
    + split; [|done]. intros c Hc. cbn [app]. assert (c ∈ children fs src) as Hin by by apply elem_of_children.
      eapply (cov_sub (merge_child n src dst c)); [intros i Hi; apply list_elem_of_bind; by exists c|].
      rewrite <-(app_nil_r (src ++ [c])). apply (mg_cov _ _ _ (Hch c Hin)); [|by rewrite app_nil_r].
      intros s d Hi. by apply (Hno s d), (Hsub c Hin).
  - rewrite omap_app. cbn [omap list_omap source]. rewrite app_nil_r.
    assert (∀ l, omap source (l ≫= merge_child n src dst) = l ≫= λ c, omap source (merge_child n src dst c)) as ->.
    { intros l. induction l as [|c l IHl]; [done|]. by rewrite !bind_cons, omap_app, IHl. }
    apply pairwise_bind; [intros c Hc; apply (mg_apart _ _ _ (Hch c Hc))|].
    apply pairwise_NoDup; [apply NoDup_children|]. intros c1 c2 H1 H2 Hc a b Ha Hb.
    destruct (merged_source _ _ _ _ (Hch c1 H1) Ha) as [r1 ->], (merged_source _ _ _ _ (Hch c2 H2) Hb) as [r2 ->].
    rewrite <-!app_assoc. by apply apart_names.
  - unfold prunes_of. rewrite omap_app. apply NoDup_app. split_and!; [| |by apply NoDup_singleton].
    + fold (prunes_of (children fs src ≫= merge_child n src dst)). rewrite prunes_bind. apply NoDup_bind.
      * intros c1 c2 p H1 H2 Hp1 Hp2. destruct (merged_prune _ _ _ _ (Hch c1 H1) Hp1) as [r1 ->].
        destruct (merged_prune _ _ _ _ (Hch c2 H2) Hp2) as [r2 Heq]. rewrite <-!app_assoc in Heq. by simplify_list_eq.
      * intros c Hc. apply (mg_once _ _ _ (Hch c Hc)).
      * apply NoDup_children.
    + intros p Hp. fold (prunes_of (children fs src ≫= merge_child n src dst)) in Hp. rewrite prunes_bind in Hp.
      apply list_elem_of_bind in Hp as (c & Hp & Hc). destruct (merged_prune _ _ _ _ (Hch c Hc) Hp) as [r ->].
      cbn [omap list_omap]. rewrite list_elem_of_singleton, <-app_assoc. intros Heq. apply (f_equal length) in Heq. rewrite length_app in Heq.
      cbn in Heq. lia.
Qed.
End merge.

(** ** What the moves leave *)

Section moves.

(** Two moves that do not meet. *)
Definition sep (a b : path * path) : Prop := apart a.1 b.1 ∧ apart a.2 b.2 ∧ apart a.1 b.2 ∧ apart a.2 b.1.

Record movable_all (fs : tree) (M : list (path * path)) : Prop := mk_movable {
  ma_sep : pairwise sep M;
  ma_self : ∀ s d, (s, d) ∈ M → apart s d;
  ma_there : ∀ s d, (s, d) ∈ M → is_Some (fs !! s);
  ma_free : ∀ s d, (s, d) ∈ M → ∀ r, fs !! (d ++ r) = None;
  ma_dirs : ∀ s d, (s, d) ∈ M → dirs_to fs (parent d)
}.

Record moved (M : list (path * path)) (fs T : tree) : Prop := mk_moved {
  mv_new : ∀ s d r, (s, d) ∈ M → T !! (d ++ r) = fs !! (s ++ r);
  mv_gone : ∀ s d r, (s, d) ∈ M → T !! (s ++ r) = None;
  mv_rest : ∀ p, (∀ s d, (s, d) ∈ M → ¬ s `prefix_of` p ∧ ¬ d `prefix_of` p) →
    T !! p = fs !! p ∨ (fs !! p = None ∧ T !! p = Some EDir ∧ ∃ s d, (s, d) ∈ M ∧ p `prefix_of` parent d)
}.

Lemma parent_prefix p : parent p `prefix_of` p.
Proof.
  destruct (decide (p = [])) as [->|Hne]; [done|]. unfold parent.
  rewrite (app_removelast_last [] Hne) at 2. by apply prefix_app_r.
Qed.

Lemma apply_move_one fs s d :
  apart s d → is_Some (fs !! s) → (∀ r, fs !! (d ++ r) = None) → dirs_to fs (parent d) →
  ∃ T, apply_move fs (s, d) = Ok T ∧ moved [(s, d)] fs T.
Proof.
  intros Ha Hs Hd Hp. destruct (mkdirs_Some _ _ Hp) as (fs1 & Hfs1 & _ & Hrest). unfold apply_move. cbn [fst snd].
  rewrite Hfs1. cbn [of_option mbind res_bind].
  assert (∀ r, fs1 !! (s ++ r) = fs !! (s ++ r)) as Hsame.
  { intros r. destruct (Hrest (s ++ r)) as [?|(_ & _ & Hpre)]; [done|]. exfalso. destruct Ha as [Ha _]. apply Ha.
    etrans; [|apply parent_prefix]. etrans; [|exact Hpre]. by apply prefix_app_r. }
  pose proof (Hsame []) as Hs0. rewrite !app_nil_r in Hs0. destruct Hs as [e He]. rewrite Hs0, He. cbn [of_option mbind res_bind].
  eexists. split; [done|]. split.
  - intros s' d' r [= -> ->]%list_elem_of_singleton. rewrite rename_lookup, below_app by done. apply Hsame.
  - intros s' d' r [= -> ->]%list_elem_of_singleton. rewrite rename_lookup by done.
    rewrite below_apart by by apply apart_sym. by rewrite below_app.
  - intros p Hp'. destruct (Hp' s d) as [H1 H2]; [by left|]. rewrite rename_lookup by done.
    apply below_None in H1 as ->, H2 as ->. destruct (Hrest p) as [?|(? & ? & ?)]; [by left|right].
    split_and!; [done..|]. exists s, d. split; [by left|done].
Qed.

Lemma moved_dirs M fs T p :
  moved M fs T → (∀ s d, (s, d) ∈ M → apart d p) → dirs_to fs (parent p) → dirs_to T (parent p).
Proof.
  intros Hm Ha Hp q Hq Hne. assert (q `prefix_of` p) as Hqp by (etrans; [exact Hq|apply parent_prefix]).
  destruct (decide (Exists (λ sd : path * path, sd.1 `prefix_of` q) M)) as [([s d] & Hin & r & ->)%Exists_exists|Hno].
  { left. by apply (mv_gone _ _ _ Hm s d). }
  destruct (mv_rest _ _ _ Hm q) as [->|(_ & -> & _)]; [|by apply Hp|by right].
  intros s d Hin. split.
  - intros Hs. apply Hno, Exists_exists. by exists (s, d).
  - intros Hd. destruct (Ha s d Hin) as [Hda _]. apply Hda. by etrans.
Qed.

Lemma moves_apply fs M :
  movable_all fs M → ∃ T, res_foldM apply_move fs M = Ok T ∧ moved M fs T.
Proof.
  revert fs. induction M as [|[s d] M IH]; intros fs [Hsep Hself Hthere Hfree Hdirs].
  { exists fs. split; [done|]. split; [by intros ? ? ? ?%elem_of_nil..|by left]. }
  assert ((s, d) ∈ (s, d) :: M) as Hin0 by by left.
  destruct (apply_move_one fs s d) as (fs1 & H1 & Hm1); [by apply Hself|by eapply Hthere|by eapply Hfree|by eapply Hdirs|].
  destruct Hsep as [Hsd Hsep].
  assert (∀ s' d', (s', d') ∈ M → apart s s' ∧ apart d d' ∧ apart s d' ∧ apart d s') as Hsd' by (intros s' d' Hi; apply (Hsd _ Hi)).
  assert (∀ p, apart s p → apart d p → (¬ p `prefix_of` parent d) → ∀ r, fs1 !! (p ++ r) = fs !! (p ++ r)) as Hkeep.
  { intros p Hs Hd Hpar r. destruct (mv_rest _ _ _ Hm1 (p ++ r)) as [?|(_ & _ & s' & d' & [= -> ->]%list_elem_of_singleton & Hpp)]; [|done|].
    - intros s' d' [= -> ->]%list_elem_of_singleton. split; by apply apart_not_prefix.
    - exfalso. apply Hpar. etrans; [|exact Hpp]. by apply prefix_app_r. }
  assert (∀ p, apart d p → ¬ p `prefix_of` parent d) as Hnp.
  { intros p [_ Hp] Hpd. apply Hp. etrans; [exact Hpd|apply parent_prefix]. }
  destruct (IH fs1) as (T & HT & Hm).
  { split; [done|intros; apply Hself; by right| | |].
    - intros s' d' Hi. destruct (Hsd' s' d' Hi) as (? & ? & ? & ?). rewrite <-(app_nil_r s'), Hkeep, app_nil_r; auto.
      eapply Hthere. by right.
    - intros s' d' Hi r. destruct (Hsd' s' d' Hi) as (? & ? & ? & ?). rewrite Hkeep; auto. eapply Hfree. by right.
    - intros s' d' Hi. eapply moved_dirs; [exact Hm1| |eapply Hdirs; by right].
      intros ? ? [= -> ->]%list_elem_of_singleton. by destruct (Hsd' s' d' Hi) as (_ & ? & _). }
  exists T. split; [cbn [res_foldM]; by rewrite H1|]. split.
  - intros s' d' r [[= -> ->]|Hi]%elem_of_cons.
    + rewrite <-(mv_new _ _ _ Hm1 s d r) by by left.
      destruct (mv_rest _ _ _ Hm (d ++ r)) as [?|(Hn & _ & s' & d' & Hi & Hpp)]; [|done|].
      * intros s' d' Hi. destruct (Hsd' s' d' Hi) as (? & Hdd & ? & Hds). split; by apply apart_not_prefix, apart_sym.
      * exfalso. destruct (Hsd' s' d' Hi) as (_ & [Hdd _] & _). apply Hdd. etrans; [|apply (parent_prefix d')].
        etrans; [|exact Hpp]. by apply prefix_app_r.
    + rewrite (mv_new _ _ _ Hm s' d' r Hi). destruct (Hsd' s' d' Hi) as (? & ? & ? & ?). apply Hkeep; auto.
  - intros s' d' r [[= -> ->]|Hi]%elem_of_cons; [|by eapply mv_gone].
    destruct (mv_rest _ _ _ Hm (s ++ r)) as [->|(_ & _ & s' & d' & Hi & Hpp)]; [|by eapply mv_gone; [done|left]|].
    + intros s' d' Hi. destruct (Hsd' s' d' Hi) as (Hss & _ & Hsd1 & _). split; by apply apart_not_prefix, apart_sym.
    + exfalso. destruct (Hsd' s' d' Hi) as (_ & _ & [Hs1 _] & _). apply Hs1. etrans; [|apply (parent_prefix d')].
      etrans; [|exact Hpp]. by apply prefix_app_r.
  - intros p Hp. destruct (Hp s d Hin0) as [Hps Hpd].
    destruct (mv_rest _ _ _ Hm p) as [->|(Hn & HTp & s' & d' & Hi & Hpp)]; [intros; apply Hp; by right| |].
    + destruct (mv_rest _ _ _ Hm1 p) as [->|(? & ? & s' & d' & [= -> ->]%list_elem_of_singleton & ?)];
        [by intros ? ? [= -> ->]%list_elem_of_singleton|by left|right; split_and!; [done..|]]. exists s, d. by split; [left|].
    + destruct (mv_rest _ _ _ Hm1 p) as [Heq|(? & Hc & _)]; [by intros ? ? [= -> ->]%list_elem_of_singleton| |congruence].
      right. rewrite <-Heq. split_and!; [done..|]. exists s', d'. by split; [right|].
Qed.
End moves.

(** ** What the whole plan leaves *)

Section apply.

Lemma unlinks (T : tree) (U : list (path * path)) :
  NoDup U.*1 → (∀ s, s ∈ U.*1 → ∃ e, e ≠ EDir ∧ T !! s = Some e) →
  ∃ T', res_foldM (λ T sd, unlink T sd.1) T U = Ok T' ∧ ∀ p, T' !! p = if bool_decide (p ∈ U.*1) then None else T !! p.
Proof.
  revert T. induction U as [|[s d] U IH]; intros T Hnd HU.
  { exists T. split; [done|]. intros p. by rewrite bool_decide_eq_false_2 by apply not_elem_of_nil. }
  rewrite fmap_cons in *. cbn [fst] in *. apply NoDup_cons in Hnd as [Hs Hnd].
  destruct (HU s) as (e & He & HTs); [by left|]. cbn [res_foldM fst].
  assert (unlink T s = Ok (delete s T)) as -> by (unfold unlink; rewrite HTs; by destruct e).
  cbn [mbind res_bind]. destruct (IH (delete s T)) as (T' & HT' & Hp); [done| |].
  - intros s' Hs'. destruct (HU s') as (e' & He' & H); [by right|]. exists e'. split; [done|].
    rewrite lookup_delete_ne; [done|]. by intros ->.
  - exists T'. split; [done|]. intros p. rewrite Hp. destruct (decide (p = s)) as [->|Hne].
    + rewrite lookup_delete_eq, (bool_decide_eq_true_2 (s ∈ s :: U.*1)) by by left. by destruct (bool_decide _).
    + rewrite lookup_delete_ne by done. destruct (decide (p ∈ U.*1)) as [H|H].
      * rewrite !bool_decide_eq_true_2; [done|by right|done].
      * rewrite !bool_decide_eq_false_2; [done|by rewrite elem_of_cons; intros [?|?]|done].
Qed.

(** A sequence of directories to remove, each empty once the earlier ones are gone. *)
Fixpoint prunable (T : tree) (gone R : list path) : Prop :=
  match R with
  | [] => True
  | p :: R => T !! p = Some EDir ∧ (p ∉ gone) ∧ (∀ c, is_Some (T !! (p ++ [c])) → p ++ [c] ∈ gone) ∧ prunable T (gone ++ [p]) R
  end.

Lemma rmdirs (T0 T : tree) gone R :
  prunable T0 gone R → (∀ p, T !! p = if bool_decide (p ∈ gone) then None else T0 !! p) →
  ∃ T', res_foldM rmdir T R = Ok T' ∧ ∀ p, T' !! p = if bool_decide (p ∈ gone ++ R) then None else T0 !! p.
Proof.
  revert T gone. induction R as [|p R IH]; intros T gone; [intros _ HT; exists T; rewrite app_nil_r; by split|].
  cbn [prunable]. intros (Hp & Hgone & Hch & HR) HT. cbn [res_foldM].
  assert (rmdir T p = Ok (delete p T)) as ->.
  { unfold rmdir. rewrite HT, (bool_decide_eq_false_2 (p ∈ gone)), Hp by done. rewrite bool_decide_eq_true_2 by done.
    rewrite bool_decide_eq_true_2; [done|]. apply elem_of_nil_inv. intros c [e He]%elem_of_children.
    rewrite HT in He. case_bool_decide as Hc; [done|]. apply Hc, Hch. by exists e. }
  cbn [mbind res_bind]. destruct (IH (delete p T) (gone ++ [p]) HR) as (T' & HT' & Hfin).
  - intros q. destruct (decide (q = p)) as [->|Hne].
    + rewrite lookup_delete_eq, bool_decide_eq_true_2; [done|]. rewrite elem_of_app, list_elem_of_singleton. by right.
    + rewrite lookup_delete_ne, HT by done. destruct (decide (q ∈ gone)) as [H|H].
      * rewrite !bool_decide_eq_true_2; [done|rewrite elem_of_app; by left|done].
      * rewrite !bool_decide_eq_false_2; [done|rewrite elem_of_app, list_elem_of_singleton; by intros [?|?]|done].
  - exists T'. split; [done|]. intros q. rewrite Hfin, <-app_assoc. done.
Qed.

Record applicable (fs : tree) (l : list item) : Prop := mk_applicable {
  ap_moves : movable_all fs (moves_of l);
  ap_dups : ∀ s d, (s, d) ∈ dups_of l → ∃ e, e ≠ EDir ∧ fs !! s = Some e ∧ fs !! d = Some e;
  ap_dups_once : NoDup (dups_of l).*1;
  ap_prunes : ∀ p, p ∈ prunes_of l → fs !! p = Some EDir;
  ap_prunes_once : NoDup (prunes_of l);
  ap_order : ordered fs [] l;
  ap_dups_apart : ∀ s d s' d', (s, d) ∈ dups_of l → (s', d') ∈ moves_of l → apart s' s ∧ apart d' s;
  ap_prunes_apart : ∀ p s' d', p ∈ prunes_of l → (s', d') ∈ moves_of l → (¬ s' `prefix_of` p) ∧ apart d' p
}.

Lemma elem_of_moves l s d : (s, d) ∈ moves_of l ↔ Move s d ∈ l.
Proof.
  unfold moves_of. rewrite list_elem_of_omap. split; [intros ([] & Hi & H); try done; by injection H as -> ->|].
  intros Hi. by exists (Move s d).
Qed.
Lemma elem_of_dups l s d : (s, d) ∈ dups_of l ↔ Dup s d ∈ l.
Proof.
  unfold dups_of. rewrite list_elem_of_omap. split; [intros ([] & Hi & H); try done; by injection H as -> ->|].
  intros Hi. by exists (Dup s d).
Qed.
Lemma elem_of_prunes l p : p ∈ prunes_of l ↔ Prune p ∈ l.
Proof.
  unfold prunes_of. rewrite list_elem_of_omap. split; [intros ([] & Hi & H); try done; by injection H as ->|].
  intros Hi. by exists (Prune p).
Qed.

Lemma apart_not_below p q r : apart p q → q ≠ p ++ r.
Proof. intros [H _] ->. apply H. by apply prefix_app_r. Qed.

Record applied (l : list item) (fs T : tree) : Prop := mk_applied {
  ad_new : ∀ s d r, Move s d ∈ l → T !! (d ++ r) = fs !! (s ++ r);
  ad_gone : ∀ p, (∀ s d, Move s d ∈ l → ¬ d `prefix_of` p) → cov l p → T !! p = None;
  ad_rest : ∀ p, (∀ s d, Move s d ∈ l → ¬ d `prefix_of` p) → ¬ cov l p →
    T !! p = fs !! p ∨
    fs !! p = None ∧ T !! p = Some EDir ∧ ∃ s d, Move s d ∈ l ∧ p `prefix_of` parent d
}.

Lemma plan_prunable fs l T :
  applicable fs l → moved (moves_of l) fs T →
  ∀ before after, l = before ++ after →
  prunable (map_imap (λ p e, if bool_decide (p ∈ (dups_of l).*1) then None else Some e) T) (prunes_of before) (prunes_of after).
Proof.
  intros Hap HT before after. revert before. induction after as [|i after IH]; intros before Hl; [done|].
  specialize (IH (before ++ [i])). rewrite <-app_assoc in IH. specialize (IH Hl).
  assert (prunes_of (before ++ [i]) = prunes_of before ++ prunes_of [i]) as Hpi by (unfold prunes_of; by rewrite omap_app).
  rewrite Hpi in IH. destruct i as [| |p| |]; try (cbn in IH; rewrite app_nil_r in IH; exact IH).
  change (prunes_of (Prune p :: after)) with (p :: prunes_of after). cbn [prunable].
  assert (Prune p ∈ l) as Hp by (rewrite Hl, elem_of_app; right; by left).
  assert (∀ q s d, q = p ∨ (∃ c, q = p ++ [c]) → (s, d) ∈ moves_of l → (∀ r, q ≠ d ++ r) ∧ ¬ q `prefix_of` parent d) as Hfar.
  { intros q s d Hq Hsd. destruct (ap_prunes_apart _ _ Hap p s d) as [_ Ha]; [by apply elem_of_prunes|done|].
    assert (∃ r, q = p ++ r) as [r ->] by (destruct Hq as [->|[c ->]]; [exists []; by rewrite app_nil_r|by exists [c]]).
    split.
    - intros r' Heq. apply (apart_not_prefix d p r Ha). rewrite Heq. by apply prefix_app_r.
    - intros Hpar. apply apart_sym in Ha. destruct Ha as [Ha _]. apply Ha. etrans; [|apply parent_prefix].
      etrans; [|exact Hpar]. by apply prefix_app_r. }
  split_and!; [| | |exact IH].
  - rewrite map_lookup_imap. assert (T !! p = Some EDir) as ->.
    { destruct (mv_rest _ _ _ HT p) as [->|(_ & -> & _)]; [|apply (ap_prunes _ _ Hap); by apply elem_of_prunes|done].
      intros s d Hsd. split; [by apply (ap_prunes_apart _ _ Hap p s d); [apply elem_of_prunes|]|].
      intros [r Hr]. by apply (Hfar p s d (or_introl eq_refl) Hsd) in Hr. }
    cbn [mbind option_bind]. rewrite bool_decide_eq_false_2; [done|]. intros ([s d] & Heq & Hsd)%list_elem_of_fmap.
    cbn [fst] in Heq. subst s. destruct (ap_dups _ _ Hap _ _ Hsd) as (e & He & Hf & _).
    rewrite (ap_prunes _ _ Hap p) in Hf by by apply elem_of_prunes. congruence.
  - pose proof (ap_prunes_once _ _ Hap) as Hnd. rewrite Hl in Hnd. unfold prunes_of in Hnd. rewrite omap_app in Hnd.
    apply NoDup_app in Hnd as (_ & Hnd & _). intros Hpb. apply (Hnd p Hpb). by left.
  - intros c [e He]. rewrite map_lookup_imap in He. destruct (T !! (p ++ [c])) as [e'|] eqn:HTc; [|done].
    cbn [mbind option_bind] in He. case_bool_decide as Hdup; [done|].
    assert (is_Some (fs !! (p ++ [c])) ∧ ∀ s d, (s, d) ∈ moves_of l → ¬ s `prefix_of` p ++ [c]) as [Hfs Hnos].
    { assert (∀ s d, (s, d) ∈ moves_of l → ¬ s `prefix_of` p ++ [c]) as Hno.
      { intros s d Hsd [r Hr]. by rewrite Hr, (mv_gone _ _ _ HT s d r Hsd) in HTc. }
      split; [|done]. destruct (mv_rest _ _ _ HT (p ++ [c])) as [Heq|(_ & _ & s & d & Hsd & Hpar)].
      - intros s d Hsd. split; [by eapply Hno|]. intros [r Hr]. by apply (Hfar (p ++ [c]) s d (or_intror (ex_intro _ c eq_refl)) Hsd) in Hr.
      - rewrite <-Heq, HTc. by eexists.
      - exfalso. by apply (Hfar (p ++ [c]) s d (or_intror (ex_intro _ c eq_refl)) Hsd). }
    pose proof (ap_order _ _ Hap) as Hord. rewrite Hl, ordered_app in Hord. destruct Hord as [_ [Hord _]].
    destruct (Hord c Hfs) as [(s & d & Hm & Hs)|[(d & Hd)|Hq]].
    + exfalso. apply (Hnos s d); [|done]. apply elem_of_moves. rewrite Hl. apply elem_of_app. by left.
    + exfalso. apply Hdup. apply list_elem_of_fmap. exists (p ++ [c], d). split; [done|]. apply elem_of_dups. rewrite Hl.
      apply elem_of_app. by left.
    + by apply elem_of_prunes.
Qed.

Lemma apply_applicable fs l :
  applicable fs l → ∃ T, apply_plan (plan_of l) fs = Ok T ∧ applied l fs T.
Proof.
  intros Hap. destruct (moves_apply fs (moves_of l) (ap_moves _ _ Hap)) as (T1 & HT1 & Hm).
  assert (∀ s, s ∈ (dups_of l).*1 → ∃ e, e ≠ EDir ∧ T1 !! s = Some e) as Hdup.
  { intros s ([s' d] & -> & Hsd)%list_elem_of_fmap. cbn [fst]. destruct (ap_dups _ _ Hap _ _ Hsd) as (e & He & Hs & _).
    exists e. split; [done|]. destruct (mv_rest _ _ _ Hm s') as [->|(Hn & _)]; [|done|congruence].
    intros s2 d2 Hi. destruct (ap_dups_apart _ _ Hap _ _ _ _ Hsd Hi) as [[? _] [? _]]. done. }
  destruct (unlinks T1 (dups_of l) (ap_dups_once _ _ Hap) Hdup) as (T2 & HT2 & H2).
  destruct (rmdirs (map_imap (λ p e, if bool_decide (p ∈ (dups_of l).*1) then None else Some e) T1) T2 [] (prunes_of l))
    as (T3 & HT3 & H3).
  { by apply (plan_prunable fs l T1 Hap Hm [] l). }
  { intros p. rewrite H2, map_lookup_imap. rewrite (bool_decide_eq_false_2 (p ∈ [])) by apply not_elem_of_nil.
    destruct (T1 !! p); cbn [mbind option_bind]; by destruct (bool_decide _). }
  exists T3. split; [unfold apply_plan; cbn [plan_of mp_moves mp_duplicates mp_prune]; rewrite HT1; cbn [mbind res_bind];
    rewrite HT2; exact HT3|].
  assert (∀ p, T3 !! p = if bool_decide (p ∈ prunes_of l) then None else if bool_decide (p ∈ (dups_of l).*1) then None else T1 !! p) as H.
  { intros p. rewrite H3, map_lookup_imap. cbn [app]. case_bool_decide; [done|]. destruct (T1 !! p); cbn [mbind option_bind]; by destruct (bool_decide _). }
  split.
  - intros s d r Hsd%elem_of_moves. rewrite H. rewrite !bool_decide_eq_false_2; [by apply (mv_new _ _ _ Hm)| |].
    + intros ([s' d'] & Heq & Hi)%list_elem_of_fmap. cbn [fst] in Heq.
      destruct (ap_dups_apart _ _ Hap _ _ _ _ Hi Hsd) as [_ Ha]. by apply (apart_not_below d s' r Ha).
    + intros Hp. destruct (ap_prunes_apart _ _ Hap _ _ _ Hp Hsd) as [_ Ha]. by apply (apart_not_below d _ r Ha).
  - intros p Hno [(s & d & Hi & r & ->)|[(d & Hi)|Hi]]; rewrite H.
    + apply elem_of_moves in Hi. rewrite (mv_gone _ _ _ Hm s d r Hi). case_bool_decide; [done|]. by destruct (bool_decide _).
    + rewrite (bool_decide_eq_true_2 (p ∈ (dups_of l).*1)); [by case_bool_decide|]. apply list_elem_of_fmap.
      exists (p, d). split; [done|by apply elem_of_dups].
    + by rewrite bool_decide_eq_true_2 by by apply elem_of_prunes.
  - intros p Hno Hnc. rewrite H. rewrite !bool_decide_eq_false_2; cycle 1.
    { intros ([s' d'] & -> & Hi)%list_elem_of_fmap. apply Hnc. right; left. exists d'. by apply elem_of_dups. }
    { intros Hp. apply Hnc. right; right. by apply elem_of_prunes. }
    destruct (mv_rest _ _ _ Hm p) as [?|(? & ? & s & d & Hsd%elem_of_moves & ?)];
      [|by left|right; split_and!; [done..|by exists s, d]].
    intros s d Hsd%elem_of_moves. split; [|by eapply Hno]. intros Hs. apply Hnc. left. by exists s, d.
Qed.
End apply.

(** ** Groups of items

    A plan is a list of groups, each what is to be done with one legacy path and its new
    place. *)

Abbreviation group := (path * path * list item)%type.

Fixpoint place (G : list group) (q : path) : path :=
  match G with
  | [] => q
  | (s, d, _) :: G => match below s q with Some r => d ++ r | None => place G q end
  end.

Lemma pairwise_elem {A} (R : A → A → Prop) l x y :
  (∀ x y, R x y → R y x) → pairwise R l → x ∈ l → y ∈ l → x = y ∨ R x y.
Proof.
  intros Hsym. induction l as [|z l IH]; [by intros _ ?%elem_of_nil|]. intros [Hz Hl] [->|Hx]%elem_of_cons [->|Hy]%elem_of_cons.
  - by left.
  - right. by apply Hz.
  - right. by apply Hsym, Hz.
  - by apply IH.
Qed.

Lemma pairwise_irrefl_NoDup {A} (R : A → A → Prop) l : (∀ x, ¬ R x x) → pairwise R l → NoDup l.
Proof.
  intros HR. induction l as [|x l IH]; [constructor|]. intros [Hx Hl]. apply NoDup_cons.
  split; [intros Hin; by apply (HR x), Hx|by apply IH].
Qed.

Lemma pairwise_omap {A B} (R : B → B → Prop) (S : A → A → Prop) (f : A → option B) l :
  (∀ x y a b, x ∈ l → y ∈ l → S x y → f x = Some a → f y = Some b → R a b) → pairwise S l → pairwise R (omap f l).
Proof.
  induction l as [|x l IH]; [done|]. intros HR [Hx Hl]. cbn [omap list_omap].
  assert (pairwise R (omap f l)) as Hom by (apply IH; [intros y z a b Hy Hz; apply HR; by right|done]).
  destruct (f x) as [a|] eqn:Hf; [|exact Hom]. split; [|exact Hom].
  intros b (y & Hy & Hfy)%list_elem_of_omap. eapply (HR x y a b); [by left|by right|by apply Hx|done|done].
Qed.

Lemma pairwise_of_omap {A B} (R : B → B → Prop) (f : A → option B) l :
  pairwise R (omap f l) → pairwise (λ x y, ∀ a b, f x = Some a → f y = Some b → R a b) l.
Proof.
  induction l as [|x l IH]; [done|]. cbn [omap list_omap]. intros H.
  assert (pairwise R (omap f l)) as Hl by (destruct (f x); [apply H|done]). split; [|by apply IH].
  intros y Hy a b Ha Hb. rewrite Ha in H. destruct H as [H _]. apply H. apply list_elem_of_omap. by exists y.
Qed.

Lemma apart_irrefl p : ¬ apart p p.
Proof. by intros [[] _]. Qed.

Lemma apart_app_inv p r1 r2 q : apart (p ++ r1) (p ++ r2) → apart (q ++ r1) (q ++ r2).
Proof. intros [H1 H2]. split; intros H%prefix_app_inv; [apply H1|apply H2]; by apply prefix_app. Qed.

Lemma place_in (G : list group) s d l r :
  pairwise (λ g h : group, sep g.1 h.1) G → (s, d, l) ∈ G → place G (s ++ r) = d ++ r.
Proof.
  induction G as [|[[s' d'] l'] G IH]; intros Hsep Hin; [by apply elem_of_nil in Hin|].
  destruct Hsep as [Hx Hsep]. cbn [place]. apply elem_of_cons in Hin as [[= -> -> ->]|Hin]; [by rewrite below_app|].
  destruct (Hx _ Hin) as (Ha & _). cbn [fst] in Ha. rewrite (below_apart _ _ _ Ha). by apply IH.
Qed.

Lemma place_out (G : list group) q : (∀ s d l, (s, d, l) ∈ G → ¬ s `prefix_of` q) → place G q = q.
Proof.
  induction G as [|[[s d] l] G IH]; intros H; [done|]. cbn [place].
  rewrite (proj2 (below_None s q)) by (eapply H; by left). apply IH. intros; eapply H; by right.
Qed.

Lemma group_sources (G : list group) : omap source (G ≫= snd) = G ≫= λ g, omap source g.2.
Proof. induction G as [|g G IH]; [done|]. by rewrite !bind_cons, omap_app, IH. Qed.

Section groups.
Context (fs : tree) (G : list group).

Record grouped : Prop := mk_grouped {
  gr_wf : tree_wf fs;
  gr_merged : ∀ s d l, (s, d, l) ∈ G → merged fs l s d;
  gr_self : ∀ s d l, (s, d, l) ∈ G → apart s d;
  gr_sep : pairwise (λ g h : group, sep g.1 h.1) G;
  gr_ok : no_conflict (G ≫= snd)
}.
Context (Hg : grouped).

Abbreviation items := (G ≫= snd).

Lemma in_group i : i ∈ items ↔ ∃ s d l, (s, d, l) ∈ G ∧ i ∈ l.
Proof.
  rewrite list_elem_of_bind. split; [intros ([[s d] l] & Hi & Hin); by exists s, d, l|intros (s & d & l & Hin & Hi); by exists (s, d, l)].
Qed.

Lemma sep_sym a b : sep a b → sep b a.
Proof. intros (? & ? & ? & ?). split_and!; by apply apart_sym. Qed.

Lemma group_sep s d l s' d' l' : (s, d, l) ∈ G → (s', d', l') ∈ G → (s, d, l) = (s', d', l') ∨ sep (s, d) (s', d').
Proof.
  intros H1 H2. destruct (pairwise_elem _ G (s, d, l) (s', d', l') (λ g h, sep_sym g.1 h.1) (gr_sep Hg) H1 H2) as [?|?]; auto.
Qed.

Lemma group_cross s d l s' d' l' r r' : (s, d, l) ∈ G → (s', d', l') ∈ G → apart (d' ++ r') (s ++ r).
Proof.
  intros H1 H2. apply apart_app. destruct (group_sep _ _ _ _ _ _ H1 H2) as [[= <- <- <-]|(_ & _ & H & _)]; apply apart_sym; [|done].
  by eapply gr_self.
Qed.

Lemma move_group s d :
  Move s d ∈ items → ∃ s0 d0 l r, (s0, d0, l) ∈ G ∧ s = s0 ++ r ∧ d = d0 ++ r ∧ is_Some (fs !! s) ∧ fs !! d = None ∧
    dirs_to fs (parent d).
Proof.
  intros (s0 & d0 & l & Hin & Hi)%in_group. destruct (mg_moves _ _ _ _ (gr_merged Hg _ _ _ Hin) _ _ Hi) as (r & ?).
  exists s0, d0, l, r. by split.
Qed.
Lemma dup_group s d :
  Dup s d ∈ items → ∃ s0 d0 l r e, (s0, d0, l) ∈ G ∧ s = s0 ++ r ∧ d = d0 ++ r ∧ e ≠ EDir ∧ fs !! s = Some e ∧ fs !! d = Some e.
Proof.
  intros (s0 & d0 & l & Hin & Hi)%in_group. destruct (mg_dups _ _ _ _ (gr_merged Hg _ _ _ Hin) _ _ Hi) as (r & e & ?).
  exists s0, d0, l, r, e. by split.
Qed.
Lemma prune_group p :
  Prune p ∈ items → ∃ s0 d0 l r, (s0, d0, l) ∈ G ∧ p = s0 ++ r ∧ fs !! p = Some EDir ∧ fs !! (d0 ++ r) = Some EDir.
Proof.
  intros (s0 & d0 & l & Hin & Hi)%in_group. destruct (mg_prunes _ _ _ _ (gr_merged Hg _ _ _ Hin) _ Hi) as (r & ?).
  exists s0, d0, l, r. by split.
Qed.

Lemma move_place s d r : Move s d ∈ items → place G (s ++ r) = d ++ r.
Proof.
  intros (s0 & d0 & l & r0 & Hin & -> & -> & _)%move_group. rewrite <-!app_assoc. eapply place_in; [apply (gr_sep Hg)|done].
Qed.

Lemma move_free s d r : Move s d ∈ items → fs !! (d ++ r) = None.
Proof.
  intros (s0 & d0 & l & r0 & Hin & -> & -> & _ & Hd & _)%move_group. destruct (decide (r = [])) as [->|Hr]; [by rewrite app_nil_r|].
  destruct (fs !! ((d0 ++ r0) ++ r)) eqn:Hf; [|done]. exfalso.
  destruct (gr_wf Hg (d0 ++ r0) r Hr) as [[-> _]%app_nil|?]; [by eexists| |congruence].
  destruct (gr_self Hg _ _ _ Hin) as [_ Hno]. apply Hno. by apply prefix_nil.
Qed.

Lemma sources_pairwise : pairwise apart (omap source items).
Proof.
  rewrite group_sources.
  apply pairwise_bind; [intros [[s d] l] Hin; apply (mg_apart _ _ _ _ (gr_merged Hg _ _ _ Hin))|].
  assert (∀ L : list group, (∀ g, g ∈ L → g ∈ G) → pairwise (λ g h : group, sep g.1 h.1) L →
    pairwise (λ g h : group, ∀ a b, a ∈ omap source g.2 → b ∈ omap source h.2 → apart a b) L) as Hgen; [|by apply Hgen, (gr_sep Hg)].
  induction L as [|g L IH]; [done|]. intros HL [Hx Hs]. split; [|apply IH; [intros; apply HL; by right|done]].
  intros h Hh a b Ha Hb. destruct (Hx h Hh) as (Hap & _). destruct g as [[s d] l], h as [[s' d'] l']. cbn [fst snd] in *.
  destruct (merged_source _ _ _ _ _ (gr_merged Hg s d l (HL _ (list_elem_of_here _ _))) Ha) as [r ->].
  assert ((s', d', l') ∈ G) as Hin' by (apply HL; by right).
  destruct (merged_source _ _ _ _ _ (gr_merged Hg _ _ _ Hin') Hb) as [r' ->]. by apply apart_app.
Qed.

Lemma sources_apart i j s s' : i ∈ items → j ∈ items → source i = Some s → source j = Some s' → s = s' ∨ apart s s'.
Proof.
  intros Hi Hj Hs Hs'. apply (pairwise_elem _ (omap source items) s s' apart_sym sources_pairwise);
    apply list_elem_of_omap; [by exists i|by exists j].
Qed.
Lemma dup_place s d : Dup s d ∈ items → place G s = d.
Proof.
  intros (s0 & d0 & l & r & e & Hin & -> & -> & _)%dup_group. eapply place_in; [apply (gr_sep Hg)|done].
Qed.

Lemma moves_movable : movable_all fs (moves_of items).
Proof.
  split.
  - unfold moves_of. apply (pairwise_omap sep (λ i j, ∀ a b, source i = Some a → source j = Some b → apart a b));
      [|apply pairwise_of_omap, sources_pairwise].
    intros [] [] a b Hi Hj Hap; try done. intros [= <-] [= <-]. unfold sep. cbn [fst snd].
    specialize (Hap _ _ eq_refl eq_refl).
    destruct (move_group _ _ Hi) as (s1 & d1 & l1 & r1 & H1 & -> & -> & _), (move_group _ _ Hj) as (s2 & d2 & l2 & r2 & H2 & -> & -> & _).
    split_and!; [done| |by apply apart_sym; eapply group_cross|by eapply group_cross].
    destruct (group_sep _ _ _ _ _ _ H1 H2) as [[= <- <- <-]|(_ & Hd & _)]; [by eapply apart_app_inv|by apply apart_app].
  - intros s d (s0 & d0 & l & r & Hin & -> & -> & _)%elem_of_moves%move_group. apply apart_sym. by eapply group_cross.
  - by intros s d (s0 & d0 & l & r & Hin & -> & -> & ? & _)%elem_of_moves%move_group.
  - intros s d Hi%elem_of_moves r. by eapply move_free.
  - by intros s d (s0 & d0 & l & r & Hin & -> & -> & _ & _ & ?)%elem_of_moves%move_group.
Qed.

Lemma groups_applicable : applicable fs items.
Proof.
  split.
  - apply moves_movable.
  - intros s d (s0 & d0 & l & r & e & _ & _ & _ & ?)%elem_of_dups%dup_group. by exists e.
  - apply (pairwise_irrefl_NoDup apart); [apply apart_irrefl|]. unfold dups_of. rewrite list_fmap_omap.
    apply (pairwise_omap apart (λ i j, ∀ a b, source i = Some a → source j = Some b → apart a b));
      [|apply pairwise_of_omap, sources_pairwise].
    intros [] [] a b _ _ Hap; try done. intros [= <-] [= <-]. by apply Hap.
  - by intros p (s0 & d0 & l & r & _ & _ & ? & _)%elem_of_prunes%prune_group.
  - rewrite prunes_bind. apply NoDup_bind.
    + intros [[s1 d1] l1] [[s2 d2] l2] p H1 H2 Hp1 Hp2. cbn [snd] in *.
      destruct (merged_prune _ _ _ _ _ (gr_merged Hg _ _ _ H1) Hp1) as [r1 ->].
      destruct (merged_prune _ _ _ _ _ (gr_merged Hg _ _ _ H2) Hp2) as [r2 Heq].
      destruct (group_sep _ _ _ _ _ _ H1 H2) as [?|(Ha & _)]; [done|]. cbn [fst] in Ha.
      destruct (apart_app _ _ r1 r2 Ha) as [Hno _]. rewrite <-Heq in Hno. by destruct Hno.
    + intros [[s d] l] Hin. apply (mg_once _ _ _ _ (gr_merged Hg _ _ _ Hin)).
    + eapply pairwise_irrefl_NoDup, (gr_sep Hg). intros [[s d] l] (Ha & _). by apply (apart_irrefl s).
  - apply ordered_bind. intros [[s d] l] Hin. apply (mg_order _ _ _ _ (gr_merged Hg _ _ _ Hin)).
    intros a b Hi. apply (gr_ok Hg a b), in_group. by exists s, d, l.
  - intros s d s' d' Hd%elem_of_dups Hm%elem_of_moves.
    destruct (dup_group _ _ Hd) as (s0 & d0 & l & r & e & Hin & Hs0 & Hd0 & _ & _ & Hfd).
    destruct (move_group _ _ Hm) as (s1 & d1 & l1 & r1 & Hin1 & Hs1 & Hd1 & _ & Hfree & _). split; [|subst; by eapply group_cross].
    destruct (sources_apart _ _ s' s Hm Hd eq_refl eq_refl) as [->|?]; [|done]. exfalso.
    pose proof (move_place _ _ [] Hm) as Hp. rewrite !app_nil_r, (dup_place _ _ Hd) in Hp. congruence.
  - intros p s' d' Hp%elem_of_prunes Hm%elem_of_moves.
    destruct (prune_group _ Hp) as (s0 & d0 & l & r & Hin & Hp0 & _ & Hfd).
    destruct (move_group _ _ Hm) as (s1 & d1 & l1 & r1 & Hin1 & Hs1 & Hd1 & _). split; [|subst; by eapply group_cross].
    intros [r2 ->]. pose proof (move_place _ _ r2 Hm) as Hpl. rewrite Hp0, (place_in _ _ _ _ _ (gr_sep Hg) Hin) in Hpl.
    rewrite Hpl, (move_free _ _ _ Hm) in Hfd. done.
Qed.

Lemma cov_below p : cov items p → ∃ s d l, (s, d, l) ∈ G ∧ s `prefix_of` p.
Proof.
  intros [(s & d & Hm & Hp)|[(d & Hd)|Hp]].
  - destruct (move_group _ _ Hm) as (s0 & d0 & l & r & Hin & -> & _). exists s0, d0, l. split; [done|].
    by eapply prefix_app_l.
  - destruct (dup_group _ _ Hd) as (s0 & d0 & l & r & e & Hin & -> & _). exists s0, d0, l. split; [done|by apply prefix_app_r].
  - destruct (prune_group _ Hp) as (s0 & d0 & l & r & Hin & -> & _). exists s0, d0, l. split; [done|by apply prefix_app_r].
Qed.

Lemma below_cov s d l r : (s, d, l) ∈ G → is_Some (fs !! (s ++ r)) → cov items (s ++ r).
Proof.
  intros Hin Hr. eapply (cov_sub l); [intros i Hi; apply in_group; by exists s, d, l|].
  apply (mg_cov _ _ _ _ (gr_merged Hg _ _ _ Hin)); [|done].
  intros a b Hi. apply (gr_ok Hg a b), in_group. by exists s, d, l.
Qed.

(** Nothing is lost, nothing is made up: what is not a directory is found at its place. *)
Lemma applied_place T p e :
  applied items fs T → e ≠ EDir → T !! p = Some e ↔ ∃ q, fs !! q = Some e ∧ place G q = p.
Proof.
  intros HT He.
  assert (∀ q e', fs !! q = Some e' → ∀ s d, Move s d ∈ items → ¬ d `prefix_of` q) as Hfar.
  { intros q e' Hq s d Hm [r ->]. by rewrite (move_free _ _ _ Hm) in Hq. }
  split.
  - intros Hp. destruct (decide (Exists (λ sd : path * path, sd.2 `prefix_of` p) (moves_of items)))
      as [([s d] & Hi%elem_of_moves & r & ->)%Exists_exists|Hno].
    + exists (s ++ r).
      cbn [snd] in *. rewrite (ad_new _ _ _ HT s d r Hi) in Hp. split; [done|by apply move_place].
    + assert (∀ s d, Move s d ∈ items → ¬ d `prefix_of` p) as Hno' by (intros s d Hi Hd; apply Hno, Exists_exists; exists (s, d); by split; [apply elem_of_moves|]).
      assert (¬ cov items p) as Hnc by (intros Hc; by rewrite (ad_gone _ _ _ HT p Hno' Hc) in Hp).
      destruct (ad_rest _ _ _ HT p Hno' Hnc) as [Heq|(_ & Heq & _)]; [|congruence]. exists p. split; [congruence|].
      apply place_out. intros s d l Hin [r ->]. apply Hnc. eapply below_cov; [done|]. rewrite <-Heq, Hp. by eexists.
  - intros (q & Hq & <-). destruct (decide (Exists (λ g : group, g.1.1 `prefix_of` q) G)) as [([[s d] l] & Hin & r & ->)%Exists_exists|Hno].
    + cbn [fst] in *. rewrite (place_in _ _ _ _ _ (gr_sep Hg) Hin).
      destruct (below_cov s d l r Hin) as [(s1 & d1 & Hm & [r1 Heq])|[(d1 & Hd)|Hp]]; [by eexists|..].
      * rewrite <-(place_in _ _ _ _ _ (gr_sep Hg) Hin), Heq, (move_place _ _ _ Hm), (ad_new _ _ _ HT _ _ _ Hm). by rewrite <-Heq.
      * pose proof (dup_place _ _ Hd) as Hpl. rewrite (place_in _ _ _ _ _ (gr_sep Hg) Hin) in Hpl. subst d1.
        destruct (dup_group _ _ Hd) as (s0 & d0 & l0 & r0 & e0 & _ & _ & _ & _ & Hs & Hde).
        destruct (ad_rest _ _ _ HT (d ++ r)) as [->|(? & _)]; [by eapply Hfar| |rewrite Hde, <-Hs; exact Hq|by rewrite Hde in *].
        intros (s2 & d2 & l2 & Hin2 & [r2 Heq2])%cov_below.
        destruct (group_cross s2 d2 l2 s d l r2 r Hin2 Hin) as [Hno _]. apply Hno. by rewrite Heq2.
      * destruct (prune_group _ Hp) as (s0 & d0 & l0 & r0 & _ & _ & Hdir & _).
        rewrite Hq in Hdir. by injection Hdir.
    + assert (∀ s d l, (s, d, l) ∈ G → ¬ s `prefix_of` q) as Hout.
      { intros s d l Hin Hs. apply Hno, Exists_exists. by exists (s, d, l). }
      rewrite (place_out _ _ Hout). destruct (ad_rest _ _ _ HT q) as [->|(? & _)]; [by eapply Hfar| |done|congruence].
      intros (s & d & l & Hin & Hs)%cov_below. by apply (Hout s d l).
Qed.
End groups.

(** ** The migration *)

(** Where the migration takes a path. *)
Definition vagrant_moves (alive : text → bool) (fs : tree) : bool :=
  is_real_dir fs vagrant_src && negb (exists_at alive fs vagrant_dst).
Definition relocated (alive : text → bool) (fs : tree) (q : path) : path :=
  match q with
  | b :: n :: r =>
      if decide (b = BUILD) then
        match dget (migration_entries fs) n with
        | Some k => if exists_at alive fs (legacy n) then bucketed n k ++ r else q
        | None => q
        end
      else if bool_decide ([b; n] = vagrant_src) && vagrant_moves alive fs then vagrant_dst ++ r else q
  | _ => q
  end.

Section migration.
Context (alive : text → bool) (fs : tree).

(** A main checkout: its buckets are directories or missing, and no destination is a link
    that leads nowhere. *)
Record main_checkout : Prop := mk_checkout {
  mc_wf : tree_wf fs;
  mc_build : fs !! [BUILD] = None ∨ fs !! [BUILD] = Some EDir;
  mc_buckets : ∀ b, b ∈ BUCKETS → fs !! [BUILD; b] = None ∨ fs !! [BUILD; b] = Some EDir;
  mc_links : ∀ n b, (n, b) ∈ migration_entries fs → exists_at alive fs (bucketed n b) = false → fs !! bucketed n b = None;
  mc_vagrant : exists_at alive fs vagrant_dst = false → fs !! vagrant_dst = None
}.

Abbreviation entry_items := (migration_entries fs ≫= plan_entry alive fs).
Abbreviation all_items := (entry_items ++ plan_vagrant alive fs).

Lemma entries_spec n b : (n, b) ∈ migration_entries fs → (n ∉ BUCKETS) ∧ n ≠ u "vagrant" ∧ b ∈ BUCKETS.
Proof.
  unfold migration_entries. intros [Hin|Hin]%elem_of_app.
  - assert (Forall (λ nb, (nb.1 ∉ BUCKETS) ∧ nb.1 ≠ u "vagrant" ∧ nb.2 ∈ BUCKETS) MIGRATION) as Hall
      by (apply (bool_decide_unpack _); by vm_compute).
    by apply (proj1 (Forall_forall _ _) Hall) in Hin.
  - apply list_elem_of_fmap in Hin as (n' & [= <- ->] & [Hs _]%list_elem_of_filter).
    assert (Forall (λ b, endswith b DVD_SUFFIX = false) (u "vagrant" :: BUCKETS)) as Hall
      by (apply (bool_decide_unpack _); by vm_compute).
    assert (∀ b, b ∈ u "vagrant" :: BUCKETS → n ≠ b) as Hne.
    { intros b Hb ->. apply (proj1 (Forall_forall _ _) Hall) in Hb. congruence. }
    split_and!; [intros H; by apply (Hne n); [right|]|apply Hne; by left|apply (bool_decide_unpack _); by vm_compute].
Qed.

Lemma entries_names : NoDup (migration_entries fs).*1.
Proof.
  unfold migration_entries. rewrite fmap_app, <-list_fmap_compose. apply NoDup_app. split_and!.
  - apply (bool_decide_unpack _). by vm_compute.
  - intros n Hn Hin. apply list_elem_of_fmap in Hin as (n' & -> & [Hs _]%list_elem_of_filter). cbn in Hn.
    assert (Forall (λ n, endswith n DVD_SUFFIX = false) MIGRATION.*1) as Hall by (apply (bool_decide_unpack _); by vm_compute).
    apply (proj1 (Forall_forall _ _) Hall) in Hn. cbn beta in Hn. congruence.
  - assert (∀ l : list text, (fst ∘ λ name, (name, u "state")) <$> l = l) as -> by
      (intros l; induction l as [|x l IH]; [done|by rewrite fmap_cons, IH]).
    apply NoDup_filter, NoDup_children.
Qed.

Lemma entries_bucket n b1 b2 : (n, b1) ∈ migration_entries fs → (n, b2) ∈ migration_entries fs → b1 = b2.
Proof.
  intros H1 H2. apply list_elem_of_lookup_1 in H1 as [i Hi], H2 as [j Hj].
  assert (i = j) as <-; [|congruence].
  eapply (NoDup_lookup _ i j n entries_names); by rewrite list_lookup_fmap, ?Hi, ?Hj.
Qed.

Lemma depth_bound p r : is_Some (fs !! (p ++ r)) → length r < depth fs.
Proof.
  intros [e He%elem_of_map_to_list]. unfold depth.
  assert (length (p ++ r) ≤ foldr (λ kv m, Nat.max (length kv.1) m) 0 (map_to_list fs)) as H.
  { induction (map_to_list fs) as [|kv l IH]; [by apply elem_of_nil in He|]. cbn [foldr].
    apply elem_of_cons in He as [<-|He]; [cbn [fst]; lia|]. specialize (IH He). lia. }
  rewrite length_app in H. lia.
Qed.

Context (Hmc : main_checkout).

Lemma exists_is_Some p : exists_at alive fs p = true → is_Some (fs !! p).
Proof. unfold exists_at. destruct (fs !! p); [by eexists|done]. Qed.

Lemma dirs_to_bucket b : b ∈ BUCKETS → dirs_to fs [BUILD; b].
Proof.
  intros Hb q [r Hr] Hne. destruct q as [|x q]; [done|]. injection Hr as <- Hr. destruct q as [|y q]; [apply (mc_build Hmc)|].
  injection Hr as <- Hr. destruct q; [|done]. by apply (mc_buckets Hmc).
Qed.

Lemma plan_entry_merged n b :
  (n, b) ∈ migration_entries fs → exists_at alive fs (legacy n) = true →
  merged fs (plan_entry alive fs (n, b)) (legacy n) (bucketed n b).
Proof.
  intros Hin Hex. destruct (entries_spec n b Hin) as (_ & _ & Hb). unfold plan_entry. rewrite Hex. cbn [negb].
  destruct (exists_at alive fs (bucketed n b)) eqn:Hd; cbn [negb].
  - destruct (bool_decide (n ∈ MERGEABLE) && is_real_dir fs (legacy n) && is_real_dir fs (bucketed n b)) eqn:Hm;
      [|apply merged_conflict].
    apply andb_true_iff in Hm as [[_ Hs%bool_decide_eq_true]%andb_true_iff Hd'%bool_decide_eq_true].
    apply plan_merge_merged; [apply (mc_wf Hmc)|done..|]. intros r. apply depth_bound.
  - apply merged_move; [by apply exists_is_Some|by apply (mc_links Hmc)|]. apply (dirs_to_bucket b Hb).
Qed.

Lemma plan_entry_nil n b : exists_at alive fs (legacy n) = false → plan_entry alive fs (n, b) = [].
Proof. intros Hex. unfold plan_entry. by rewrite Hex. Qed.

(** The plan in groups. *)
Definition entry_groups : list group :=
  (λ nb, (legacy nb.1, bucketed nb.1 nb.2, plan_entry alive fs nb)) <$>
  filter (λ nb, exists_at alive fs (legacy nb.1) = true) (migration_entries fs).
Definition vagrant_groups : list group :=
  if vagrant_moves alive fs then [(vagrant_src, vagrant_dst, [Move vagrant_src vagrant_dst])] else [].
Definition repo_groups : list group := entry_groups ++ vagrant_groups.

Lemma elem_of_repo_groups s d l :
  (s, d, l) ∈ repo_groups →
  (∃ n b, (n, b) ∈ migration_entries fs ∧ exists_at alive fs (legacy n) = true ∧
     s = legacy n ∧ d = bucketed n b ∧ l = plan_entry alive fs (n, b)) ∨
  (vagrant_moves alive fs = true ∧ s = vagrant_src ∧ d = vagrant_dst ∧ l = [Move s d]).
Proof.
  unfold repo_groups, entry_groups, vagrant_groups. intros [Hin|Hin]%elem_of_app.
  - apply list_elem_of_fmap in Hin as ([n b] & [= -> -> ->] & [Hex Hin]%list_elem_of_filter). left. by exists n, b.
  - right. destruct (vagrant_moves alive fs); [|by apply elem_of_nil in Hin].
    apply list_elem_of_singleton in Hin. by injection Hin as -> -> ->.
Qed.

Lemma entry_group n b :
  (n, b) ∈ migration_entries fs → exists_at alive fs (legacy n) = true →
  (legacy n, bucketed n b, plan_entry alive fs (n, b)) ∈ repo_groups.
Proof.
  intros Hin Hex. apply elem_of_app. left. apply list_elem_of_fmap. exists (n, b). split; [done|].
  by apply list_elem_of_filter.
Qed.

Lemma entry_items_groups : entry_items = entry_groups ≫= snd.
Proof.
  unfold entry_groups. generalize (migration_entries fs). intros l. induction l as [|[n b] l IH]; [done|].
  rewrite bind_cons, IH, filter_cons. cbn [fst]. destruct (decide (exists_at alive fs (legacy n) = true)) as [Hex|Hex].
  - by rewrite fmap_cons, bind_cons.
  - by rewrite plan_entry_nil by by apply not_true_is_false.
Qed.

Lemma vagrant_items : plan_vagrant alive fs = vagrant_groups ≫= snd ∨
  (plan_vagrant alive fs = [Stale vagrant_src vagrant_dst] ∧ vagrant_groups = []).
Proof.
  unfold plan_vagrant, vagrant_groups, vagrant_moves. destruct (is_real_dir fs vagrant_src); [|by left].
  destruct (exists_at alive fs vagrant_dst); [by right|by left].
Qed.

Lemma apply_groups : apply_plan (plan_of all_items) fs = apply_plan (plan_of (repo_groups ≫= snd)) fs.
Proof.
  unfold repo_groups. rewrite bind_app, entry_items_groups. destruct vagrant_items as [->|[-> ->]]; [done|].
  unfold apply_plan, plan_of, moves_of, dups_of, prunes_of. cbn [mp_moves mp_duplicates mp_prune]. by rewrite !omap_app.
Qed.

Lemma vagrant_there : vagrant_moves alive fs = true → fs !! vagrant_src = Some EDir ∧ fs !! vagrant_dst = None.
Proof.
  unfold vagrant_moves. intros [Hs%bool_decide_eq_true Hd%negb_true_iff]%andb_true_iff. split; [done|]. by apply (mc_vagrant Hmc).
Qed.

Lemma entry_sep n b n' b' :
  (n, b) ∈ migration_entries fs → (n', b') ∈ migration_entries fs → n ≠ n' →
  sep (legacy n, bucketed n b) (legacy n', bucketed n' b').
Proof.
  intros (Hn & _ & Hb)%entries_spec (Hn' & _ & Hb')%entries_spec Hne. split_and!; cbn [fst snd].
  - by apply (apart_names [BUILD] n n' [] []).
  - destruct (decide (b = b')) as [->|Hbb]; [by apply (apart_names [BUILD; b'] n n' [] [])|by apply (apart_names [BUILD] b b' [n] [n'])].
  - apply (apart_names [BUILD] n b' [] [n']). by intros ->.
  - apply (apart_names [BUILD] b n' [n] []). by intros ->.
Qed.

Lemma vagrant_sep n b :
  (n, b) ∈ migration_entries fs → sep (legacy n, bucketed n b) (vagrant_src, vagrant_dst).
Proof.
  intros (Hn & Hv & Hb)%entries_spec. split_and!; cbn [fst snd].
  - by apply (apart_names [] BUILD (u "lab") [n] [u ".vagrant"]).
  - destruct (decide (b = u "state")) as [->|Hbb]; [by apply (apart_names [BUILD; u "state"] n (u "vagrant") [] [])|].
    by apply (apart_names [BUILD] b (u "state") [n] [u "vagrant"]).
  - apply (apart_names [BUILD] n (u "state") [] [u "vagrant"]). intros ->. apply Hn. apply (bool_decide_unpack _). by vm_compute.
  - by apply (apart_names [] BUILD (u "lab") [b; n] [u ".vagrant"]).
Qed.

Lemma repo_grouped : no_conflict entry_items → grouped fs repo_groups.
Proof.
  intros Hok. split.
  - apply (mc_wf Hmc).
  - intros s d l [(n & b & Hin & Hex & -> & -> & ->)|(Hv & -> & -> & ->)]%elem_of_repo_groups; [by apply plan_entry_merged|].
    apply vagrant_there in Hv as [Hs Hd]. apply merged_move; [by eexists|done|].
    apply (dirs_to_bucket (u "state")). apply (bool_decide_unpack _). by vm_compute.
  - intros s d l [(n & b & Hin & Hex & -> & -> & ->)|(Hv & -> & -> & ->)]%elem_of_repo_groups.
    + apply entries_spec in Hin as (Hn & _ & Hb). apply (apart_names [BUILD] n b [] [n]). by intros ->.
    + by apply (apart_names [] (u "lab") BUILD [u ".vagrant"] [u "state"; u "vagrant"]).
  - apply pairwise_app. split_and!.
    + unfold entry_groups. pose proof entries_names as Hnd. revert Hnd.
      assert (∀ nb, nb ∈ migration_entries fs → nb ∈ migration_entries fs) as Hsub by done. revert Hsub.
      generalize (migration_entries fs) at 1 3 4. intros L. induction L as [|[n b] L IH]; [done|]. intros Hsub Hnd.
      rewrite fmap_cons in Hnd. cbn [fst] in Hnd. apply NoDup_cons in Hnd as [Hn Hnd]. rewrite filter_cons.
      assert (pairwise (λ g h : group, sep g.1 h.1) ((λ nb, (legacy nb.1, bucketed nb.1 nb.2, plan_entry alive fs nb)) <$>
        filter (λ nb, exists_at alive fs (legacy nb.1) = true) L)) as HL by (apply IH; [intros; apply Hsub; by right|done]).
      case_decide; [|exact HL]. rewrite fmap_cons. split; [|exact HL].
      intros g ([n' b'] & -> & [_ Hin]%list_elem_of_filter)%list_elem_of_fmap. cbn [fst snd].
      apply entry_sep; [apply Hsub; by left|apply Hsub; by right|]. intros ->. apply Hn. by apply (list_elem_of_fmap_2 fst) in Hin.
    + unfold vagrant_groups. destruct (vagrant_moves alive fs); [split; [by intros ? ?%elem_of_nil|done]|done].
    + intros g h Hgi Hhi. apply list_elem_of_fmap in Hgi as ([n b] & -> & [_ Hin]%list_elem_of_filter).
      unfold vagrant_groups in Hhi. destruct (vagrant_moves alive fs); [|by apply elem_of_nil in Hhi].
      apply list_elem_of_singleton in Hhi as ->. by apply vagrant_sep.
  - unfold repo_groups. rewrite bind_app, <-entry_items_groups. intros s d [Hi|Hi]%elem_of_app; [by apply (Hok s d)|].
    unfold vagrant_groups in Hi. destruct (vagrant_moves alive fs); [|by apply elem_of_nil in Hi].
    cbn in Hi. apply list_elem_of_singleton in Hi. done.
Qed.

Lemma relocated_place q : no_conflict entry_items → relocated alive fs q = place repo_groups q.
Proof.
  intros Hok. pose proof (gr_sep _ _ (repo_grouped Hok)) as Hsep.
  assert (∀ q, (∀ n b r, (n, b) ∈ migration_entries fs → exists_at alive fs (legacy n) = true → q ≠ BUILD :: n :: r) →
    (∀ r, vagrant_moves alive fs = true → q ≠ vagrant_src ++ r) → place repo_groups q = q) as Hout.
  { intros q' He Hv. apply place_out. intros s d l [(n & b & Hin & Hex & -> & _)|(Hv' & -> & _)]%elem_of_repo_groups [r Hr].
    - by apply (He n b r Hin Hex).
    - by apply (Hv r Hv'). }
  unfold relocated. destruct q as [|b [|n r]]; [by rewrite Hout..|].
  destruct (decide (b = BUILD)) as [->|Hb].
  - destruct (dget (migration_entries fs) n) as [k|] eqn:Hk.
    + destruct (exists_at alive fs (legacy n)) eqn:Hex.
      * apply dget_elem in Hk. by rewrite <-(place_in _ _ _ _ r Hsep (entry_group n k Hk Hex)).
      * rewrite Hout; [done| |done]. intros n' b' r' _ Hex' [= -> ->]. congruence.
    + rewrite Hout; [done| |done]. intros n' b' r' Hin _ [= -> ->]. apply dget_None in Hk. apply Hk.
      by apply (list_elem_of_fmap_2 fst) in Hin.
  - destruct (bool_decide ([b; n] = vagrant_src) && vagrant_moves alive fs) eqn:Hv.
    + apply andb_true_iff in Hv as [Hs%bool_decide_eq_true Hv]. change (b :: n :: r) with ([b; n] ++ r). rewrite Hs.
      symmetry. apply (place_in _ _ _ [Move vagrant_src vagrant_dst]); [done|]. unfold repo_groups, vagrant_groups. rewrite Hv.
      apply elem_of_app. right. by left.
    + rewrite Hout; [done|by intros n' b' r' _ _ [= -> _]|]. intros r' Hv' [= -> -> ->].
      rewrite Hv', bool_decide_eq_true_2 in Hv; done.
Qed.

(** The migration of a main checkout: a refusal that touches nothing, or a plan applied to
    the end. *)
Lemma migrate_cases :
  (conflicts_of entry_items ≠ [] ∧ ∀ dry, migrate alive dry fs = Err (Collision (conflicts_of entry_items))) ∨
  (no_conflict entry_items ∧ ∃ T, migrate alive false fs = Ok (plan_of all_items, T) ∧
     migrate alive true fs = Ok (plan_of all_items, fs) ∧ applied (repo_groups ≫= snd) fs T).
Proof.
  unfold migrate. destruct (decide (conflicts_of entry_items = [])) as [Hc|Hc].
  - right. rewrite (bool_decide_eq_true_2 _ Hc).
    assert (no_conflict entry_items) as Hok.
    { intros s d Hi. assert ((s, d) ∈ conflicts_of entry_items) as H by (apply list_elem_of_omap; by exists (Conflict s d)).
      rewrite Hc in H. by apply elem_of_nil in H. }
    split; [done|]. destruct (apply_applicable _ _ (groups_applicable _ _ (repo_grouped Hok))) as (T & HT & Ha).
    exists T. cbn [negb raise_if mbind res_bind]. by rewrite apply_groups, HT.
  - left. split; [done|]. intros dry. by rewrite (bool_decide_eq_false_2 _ Hc).
Qed.
End migration.

Section again.
Context (alive : text → bool) (fs T : tree).
Context (Hmc : main_checkout alive fs).
Context (Hok : no_conflict (migration_entries fs ≫= plan_entry alive fs)).
Context (HT : applied (repo_groups alive fs ≫= snd) fs T).

Lemma migrated_far p s d r :
  (∃ n, p = legacy n ∧ (n ∉ BUCKETS)) ∨ p = vagrant_src → (s, d, r) ∈ repo_groups alive fs → apart d p.
Proof.
  intros Hp [(n' & b' & Hin & _ & _ & -> & _)|(_ & _ & -> & _)]%elem_of_repo_groups.
  - apply entries_spec in Hin as (_ & _ & Hb'). destruct Hp as [(n & -> & Hn)| ->].
    + apply (apart_names [BUILD] b' n [n'] []). by intros ->.
    + by apply (apart_names [] BUILD (u "lab") [b'; n'] [u ".vagrant"]).
  - destruct Hp as [(n & -> & Hn)| ->].
    + apply (apart_names [BUILD] (u "state") n [u "vagrant"] []). intros <-. apply Hn.
      apply (bool_decide_unpack _). by vm_compute.
    + by apply (apart_names [] BUILD (u "lab") [u "state"; u "vagrant"] [u ".vagrant"]).
Qed.

(** What is still at a legacy path was there before, and is no source of the plan. *)
Lemma migrated_legacy p e :
  (∃ n, p = legacy n ∧ (n ∉ BUCKETS)) ∨ p = vagrant_src → T !! p = Some e →
  fs !! p = Some e ∧ ∀ s d l, (s, d, l) ∈ repo_groups alive fs → s ≠ p.
Proof.
  intros Hp He. pose proof (repo_grouped alive fs Hmc Hok) as Hg.
  assert (∀ s d, Move s d ∈ repo_groups alive fs ≫= snd → apart d p) as Hfar.
  { intros s d Hm. destruct (move_group _ _ Hg _ _ Hm) as (s0 & d0 & l & r & Hin & _ & -> & _).
    rewrite <-(app_nil_r p). apply apart_app. by eapply migrated_far. }
  assert (¬ cov (repo_groups alive fs ≫= snd) p) as Hnc.
  { intros Hc. rewrite (ad_gone _ _ _ HT p) in He; [done| |done]. intros s d Hm. by apply (Hfar s d Hm). }
  assert (fs !! p = Some e) as Hfs.
  { destruct (ad_rest _ _ _ HT p) as [<-|(_ & _ & s & d & Hm & Hpre)]; [by intros s d Hm; apply (Hfar s d Hm)|done|done|].
    exfalso. destruct (Hfar s d Hm) as [_ Hno]. apply Hno. etrans; [exact Hpre|apply parent_prefix]. }
  split; [done|]. intros s d l Hin ->. apply Hnc. rewrite <-(app_nil_r p).
  eapply below_cov; [done..|]. rewrite app_nil_r. by eexists.
Qed.

Lemma migrated_entries n b :
  (n, b) ∈ migration_entries T → exists_at alive T (legacy n) = false.
Proof.
  intros Hin. destruct (entries_spec T n b Hin) as (Hn & _). destruct (exists_at alive T (legacy n)) eqn:Hex; [|done].
  destruct (exists_is_Some _ _ _ Hex) as [e He]. exfalso.
  destruct (migrated_legacy (legacy n) e) as [Hfs Hno]; [left; by exists n|done|].
  apply (Hno (legacy n) (bucketed n b) (plan_entry alive fs (n, b))); [|done]. apply entry_group.
  - unfold migration_entries in *. apply elem_of_app in Hin as [Hin|Hin]; apply elem_of_app; [by left|right].
    apply list_elem_of_fmap in Hin as (n' & [= <- ->] & [Hs _]%list_elem_of_filter). apply list_elem_of_fmap.
    exists n. split; [done|]. apply list_elem_of_filter. split; [done|]. apply elem_of_children. by exists e.
  - unfold exists_at in *. by rewrite He in Hex; rewrite Hfs.
Qed.

Lemma migrated_vagrant : vagrant_moves alive T = false.
Proof.
  destruct (vagrant_moves alive T) eqn:Hv; [|done]. exfalso. unfold vagrant_moves in Hv.
  apply andb_true_iff in Hv as [Hs%bool_decide_eq_true Hd%negb_true_iff].
  destruct (migrated_legacy vagrant_src EDir) as (Hfs & Hno); [by right|done|].
  apply (Hno vagrant_src vagrant_dst [Move vagrant_src vagrant_dst]); [|done].
  unfold repo_groups, vagrant_groups. apply elem_of_app. right.
  assert (vagrant_moves alive fs = true) as ->; [|by left]. unfold vagrant_moves.
  apply andb_true_iff. split; [by apply bool_decide_eq_true|]. apply negb_true_iff.
  destruct (exists_at alive fs vagrant_dst) eqn:Hex; [|done]. exfalso.
  assert (T !! vagrant_dst = fs !! vagrant_dst) as Heq; [|unfold exists_at in *; rewrite Heq in Hd; congruence].
  assert (u "state" ∈ BUCKETS) as Hst by (apply (bool_decide_unpack _); by vm_compute).
  pose proof (repo_grouped alive fs Hmc Hok) as Hg. destruct (exists_is_Some _ _ _ Hex) as [e He].
  destruct (ad_rest _ _ _ HT vagrant_dst) as [?|(Hn & _)]; [| |done|congruence].
  - intros s d Hm [r Hr]. pose proof (move_free _ _ Hg s d r Hm) as Hf. rewrite <-Hr in Hf. congruence.
  - intros (s & d & l & [(n & b & (Hn & _)%entries_spec & _ & -> & _)|(Hv & _)]%elem_of_repo_groups & Hpre)%(cov_below _ _ Hg).
    + destruct Hpre as [r [= <-]]. done.
    + apply andb_true_iff in Hv as [_ Hv%negb_true_iff]. congruence.
Qed.
End again.

(** C30. [buildenv.migrate] is all or nothing and loses nothing: on a main checkout it
    refuses with the conflicts it found, or succeeds, never failing part way; after it,
    every file and link of the old tree is at its place (the entry's bucket for a legacy
    entry that exists, [build/state/vagrant] for a legacy dotfile, otherwise where it was)
    and there is nothing else, a merged duplicate standing for both copies. A dry run
    gives the same plan or refusal and leaves the tree alone. *)
Theorem migrate_lossless alive fs :
  main_checkout alive fs →
  match migrate alive false fs with
  | Ok (plan, T) =>
      migrate alive true fs = Ok (plan, fs) ∧
      ∀ p e, e ≠ EDir → T !! p = Some e ↔ ∃ q, fs !! q = Some e ∧ relocated alive fs q = p
  | Err x => migrate alive true fs = Err x ∧ ∃ c, c ≠ [] ∧ x = Collision c
  end.
Proof.
  intros Hmc. destruct (migrate_cases _ _ Hmc) as [[Hne Hc]|(Hok & T & HT & Hdry & Ha)].
  - rewrite !Hc. split; [done|]. by eexists.
  - rewrite HT. split; [done|]. intros p e He. rewrite (applied_place _ _ (repo_grouped _ _ Hmc Hok) T p e Ha He).
    by setoid_rewrite (λ q, relocated_place alive fs Hmc q Hok).
Qed.

(** [buildenv.migrate] is idempotent, as it says: after a migration of a main checkout
    a second one finds nothing to move, to drop or to remove and leaves the tree as it is
    (a legacy dotfile beside the one in use is only reported again). *)
Theorem migrate_idempotent alive fs plan T :
  main_checkout alive fs → migrate alive false fs = Ok (plan, T) →
  ∃ stale, migrate alive false T = Ok (mk_plan [] [] stale [], T).
Proof.
  intros Hmc H. destruct (migrate_cases _ _ Hmc) as [[_ Hc]|(Hok & T' & HT & _ & Ha)]; [by rewrite Hc in H|].
  rewrite HT in H. injection H as _ ->. unfold migrate.
  assert (migration_entries T ≫= plan_entry alive T = []) as ->.
  { apply elem_of_nil_inv. intros i ([n b] & Hi & Hin)%list_elem_of_bind.
    rewrite plan_entry_nil in Hi by (by eapply migrated_entries). by apply elem_of_nil in Hi. }
  pose proof (migrated_vagrant _ _ _ Hmc Hok Ha) as Hv. unfold vagrant_moves in Hv.
  assert (plan_vagrant alive T = [] ∨ plan_vagrant alive T = [Stale vagrant_src vagrant_dst]) as [-> | ->]; [|by eexists..].
  unfold plan_vagrant. destruct (is_real_dir T vagrant_src); [|by left]. destruct (exists_at alive T vagrant_dst); [by right|done].
Qed.

(** ** A checkout with a legacy entry, a duplicated reference and a dotfile *)

Definition demo_tree : tree := list_to_map
  [([BUILD], EDir); ([BUILD; u "cache"], EDir); ([BUILD; u "state"], EDir); ([BUILD; u "work"], EDir);
   ([BUILD; u "mq"], EDir); ([BUILD; u "mq"; u "mq.tar"], EFile (u "tarball"));
   ([BUILD; u "refs"], EDir); ([BUILD; u "refs"; u "a"], EFile (u "A")); ([BUILD; u "refs"; u "b"], EFile (u "B"));
   ([BUILD; u "cache"; u "refs"], EDir); ([BUILD; u "cache"; u "refs"; u "a"], EFile (u "A"));
   ([BUILD; u "rhel-dvd.iso"], EFile (u "iso"));
   ([u "lab"], EDir); ([u "lab"; u ".vagrant"], EDir); ([u "lab"; u ".vagrant"; u "id"], EFile (u "7"))].

Lemma all_keys (P : path → Prop) (m : tree) : Forall P (map_to_list m).*1 → ∀ p, is_Some (m !! p) → P p.
Proof.
  intros H p [e He%elem_of_map_to_list]. apply (list_elem_of_fmap_2 fst) in He. by apply (proj1 (Forall_forall _ _) H) in He.
Qed.

Lemma demo_checkout alive : main_checkout alive demo_tree.
Proof.
  split.
  - intros p r Hr Hp. revert r Hr Hp.
    assert (∀ k, is_Some (demo_tree !! k) → Forall (λ n, take n k = [] ∨ length k ≤ n ∨ demo_tree !! take n k = Some EDir) (seq 0 (length k))) as Hk.
    { apply all_keys. apply (bool_decide_unpack _). by vm_compute. }
    intros r Hr Hp. specialize (Hk _ Hp). rewrite Forall_forall in Hk.
    destruct (Hk (length p)) as [H|[H|H]].
    + apply elem_of_seq. rewrite length_app. destruct r; [done|cbn; lia].
    + left. by rewrite take_app_length in H.
    + rewrite length_app in H. destruct r; [done|cbn in H; lia].
    + right. by rewrite take_app_length in H.
  - right. by vm_compute.
  - assert (Forall (λ b, demo_tree !! [BUILD; b] = None ∨ demo_tree !! [BUILD; b] = Some EDir) BUCKETS) as H
      by (apply (bool_decide_unpack _); by vm_compute).
    by apply Forall_forall.
  - intros n b _. unfold exists_at. destruct (demo_tree !! bucketed n b) as [[|t|]|] eqn:H; try done. exfalso.
    assert (∀ k, is_Some (demo_tree !! k) → match demo_tree !! k with Some (ELink _) => False | _ => True end) as Hl.
    { apply all_keys. rewrite Forall_forall. intros k. assert (Forall (λ k, match demo_tree !! k with Some (ELink _) => false | _ => true end = true) (map_to_list demo_tree).*1) as Ha
      by (apply (bool_decide_unpack _); by vm_compute).
      intros Hin. apply (proj1 (Forall_forall _ _) Ha) in Hin. by destruct (demo_tree !! k) as [[]|]. }
    specialize (Hl (bucketed n b)). rewrite H in Hl. apply Hl. by eexists.
  - by vm_compute.
Qed.

Lemma demo_migrates : (if migrate (λ _, false) false demo_tree is Ok _ then true else false) = true.
Proof. vm_compute. exact eq_refl. Qed.

Lemma migrate_lossless_witness :
  ∃ plan T, migrate (λ _, false) false demo_tree = Ok (plan, T) ∧
    T !! [BUILD; u "cache"; u "refs"; u "b"] = Some (EFile (u "B")).
Proof.
  pose proof (migrate_lossless (λ _, false) demo_tree (demo_checkout _)) as H. pose proof demo_migrates as Hok.
  destruct (migrate (λ _, false) false demo_tree) as [[plan T]|x] eqn:Hm; [|discriminate Hok].
  exists plan, T. split; [exact eq_refl|]. destruct H as [_ H].
  assert (EFile (u "B") ≠ EDir) as Hne by discriminate.
  destruct (H [BUILD; u "cache"; u "refs"; u "b"] (EFile (u "B")) Hne) as [_ Hto]. apply Hto.
  exists [BUILD; u "refs"; u "b"]. split; vm_compute; exact eq_refl.
Defined.

Lemma migrate_idempotent_witness :
  ∃ plan T stale, migrate (λ _, false) false demo_tree = Ok (plan, T) ∧
    migrate (λ _, false) false T = Ok (mk_plan [] [] stale [], T).
Proof.
  pose proof demo_migrates as Hok.
  destruct (migrate (λ _, false) false demo_tree) as [[plan T]|x] eqn:Hm; [|discriminate Hok].
  destruct (migrate_idempotent (λ _, false) demo_tree plan T (demo_checkout _) Hm) as [stale Hs].
  exists plan, T, stale. split; [exact eq_refl|exact Hs].
Defined.
