(* ===== verification/Inventory.v ===== *)
(** * The inventory and the roster

    Models mqlab/inventory.py and mqlab/roster.py: the two renderings of the topology that
    Ansible and salt-ssh read, and a reader of the INI format against which the theorems say
    what the inventory means. The YAML writer behind the roster is a parameter. *)

From S2P Require Import Prelude PyText PyCodec PyDict Hostfacts Versions VersionsLoad Stacks.

(** InventoryError, RosterError and ScrapeError. *)
Inductive RenderError :=
  | UndefinedHost (host : text) | NoMgmtIp (host : text) | UndefinedGroup (stack group : text).

Definition NET_MGMT : text := u "net-mgmt".

Definition nic_ip (spec : NodeSpec) (net : text) : option text := or_none (dget (ns_nics spec) net).

(** [_mgmt_ip], the same in both modules. *)
Definition mgmt_ip (t : Topo) (host : text) : res RenderError text :=
  spec ← of_option (UndefinedHost host) (dget (t_nodes t) host);
  of_option (NoMgmtIp host) (nic_ip spec NET_MGMT).

(** Every group of a stack is defined. *)
Definition check_stack (t : Topo) (sc : text * StackCfg) : res RenderError unit :=
  _ ← res_mapM (λ g, raise_if (negb (dmem g (t_groups t))) (UndefinedGroup sc.1 g)) (sc_groups sc.2);
  Ok ().

(** ** inventory.py *)

Definition INSECURE_KEY : text := u "~/.vagrant.d/insecure_private_key".
Definition SSH_USER : text := u "vagrant".
Definition SSH_COMMON_ARGS : list text := [u "-o"; u "StrictHostKeyChecking=no"].

Definition stack_group (stack : text) : text := replace_char 45 (u "_") stack.

Definition ANSIBLE_HOST : text := u "ansible_host=".
Definition header (section : text) : text := u "[" ++ section ++ u "]".

Definition group_lines (t : Topo) (gh : text * list text) : res RenderError (list text) :=
  ls ← res_mapM (λ h, ip ← mgmt_ip t h; Ok (h ++ u " " ++ ANSIBLE_HOST ++ ip)) gh.2;
  Ok (header gh.1 :: ls).

Definition CHILDREN : text := u ":children".

Definition stack_lines (t : Topo) (sc : text * StackCfg) : res RenderError (list text) :=
  _ ← check_stack t sc;
  Ok (match sc_groups sc.2 with [] => [] | members => header (stack_group sc.1 ++ CHILDREN) :: members end).

Definition all_vars : list text :=
  [header (u "all:vars"); u "ansible_user=" ++ SSH_USER; u "ansible_ssh_private_key_file=" ++ INSECURE_KEY;
   u "ansible_ssh_common_args=" ++ str_join (u " ") SSH_COMMON_ARGS; u "ansible_python_interpreter=/usr/bin/python3"].

Definition render_inventory (t : Topo) : res RenderError text :=
  gs ← res_mapM (group_lines t) (t_groups t);
  ss ← res_mapM (stack_lines t) (t_stacks t);
  Ok (str_join [10%N] (mjoin gs ++ mjoin ss ++ all_vars) ++ [10%N]).

(** ** roster.py *)

Record RosterEntry := mk_entry { re_host : text; re_groups : list text; re_stacks : list text }.

Definition add_group (g : text) (d : list (text * list text)) (h : text) : list (text * list text) :=
  dset d h (dget_or d h [] ++ [g]).
Definition host_groups (t : Topo) : list (text * list text) :=
  foldl (λ d gh, foldl (add_group gh.1) d gh.2) [] (t_groups t).

Definition mark_stack (hg : list (text * list text)) (out : list (text * list text)) (sc : text * StackCfg) :
    list (text * list text) :=
  (λ hs, (hs.1, if bool_decide (Exists (λ g, g ∈ sc_groups sc.2) (dget_or hg hs.1 [])) then hs.2 ++ [sc.1] else hs.2)) <$> out.
Definition host_stacks (t : Topo) (hg : list (text * list text)) : list (text * list text) :=
  foldl (mark_stack hg) ((λ h, (h, [])) <$> hg.*1) (t_stacks t).

Definition roster_entry (t : Topo) (hg hs : list (text * list text)) (h : text) : res RenderError (text * RosterEntry) :=
  ip ← mgmt_ip t h;
  Ok (h, mk_entry ip (dget_or hg h []) (dget_or hs h [])).

Definition roster (t : Topo) : res RenderError (list (text * RosterEntry)) :=
  _ ← res_mapM (check_stack t) (t_stacks t);
  let hg := host_groups t in
  res_mapM (roster_entry t hg (host_stacks t hg)) hg.*1.

Definition entry_value (priv : text) (e : RosterEntry) : pyval :=
  let names l := PyList (PyStr <$> l) in
  PyDict [(PyStr (u "host"), PyStr (re_host e)); (PyStr (u "user"), PyStr (u "vagrant")); (PyStr (u "priv"), PyStr priv);
          (PyStr (u "sudo"), PyBool true);
          (PyStr (u "minion_opts"), PyDict [(PyStr (u "grains"),
             PyDict [(PyStr (u "roster_groups"), names (re_groups e)); (PyStr (u "roster_stacks"), names (re_stacks e))])])].

Definition ROSTER_HEADER : text :=
  u "# salt-ssh roster " ++ [8212%N] ++ u " generated from lab/topology.yaml. Do not edit by hand." ++ [10%N].

(** [dump] is [yaml.safe_dump], [priv] the key's path with the home directory in it. *)
Definition render_roster (dump : pyval → text) (priv : text) (t : Topo) : res RenderError text :=
  entries ← roster t;
  Ok (ROSTER_HEADER ++ dump (PyDict ((λ he, (PyStr he.1, entry_value priv he.2)) <$> entries))).

(** ** What Ansible reads *)

Definition header_of (l : text) : option text :=
  match l with
  | 91%N :: rest => match rev rest with 93%N :: name => Some (rev name) | _ => None end
  | _ => None
  end.

(** The lines before the first header, and the sections. *)
Fixpoint sections (ls : list text) : list text * list (text * list text) :=
  match ls with
  | [] => ([], [])
  | l :: ls =>
      let '(before, secs) := sections ls in
      match header_of l with Some h => ([], (h, before) :: secs) | None => (l :: before, secs) end
  end.
Definition read_ini (s : text) : list (text * list text) := (sections (splitlines s)).2.

Definition host_line (l : text) : option (text * text) :=
  match cut 32 l with
  | Some (h, r) => if startswith r ANSIBLE_HOST then Some (h, drop (length ANSIBLE_HOST) r) else None
  | None => None
  end.

(** The hosts of a group with their addresses, and the hosts of an aggregate group. *)
Definition ini_hosts (secs : list (text * list text)) (g : text) : list (text * text) := omap host_line (dget_or secs g []).
Definition ini_members (secs : list (text * list text)) (s : text) : list text :=
  dget_or secs (s ++ CHILDREN) [] ≫= λ g, (ini_hosts secs g).*1.

(** ** Reading the inventory back *)

Definition name_char (c : N) : bool := negb (is_space c || (c =? 91)%N || (c =? 93)%N || (c =? 58)%N).
Definition name_ok (s : text) : Prop := Forall (λ c, name_char c = true) s.
Definition no_blank (s : text) : Prop := Forall (λ c, is_space c = false) s.

(** The topology's names have none of the characters the INI format gives a meaning, and no
    two stacks give the same aggregate group. *)
Record names_ok (t : Topo) : Prop := mk_names {
  no_groups : Forall (λ gh, name_ok gh.1 ∧ Forall name_ok gh.2) (t_groups t);
  no_stacks : Forall (λ sc, name_ok sc.1 ∧ Forall name_ok (sc_groups sc.2)) (t_stacks t);
  no_ips : Forall (λ nc, Forall (λ ni, no_blank ni.2) (ns_nics nc.2)) (t_nodes t);
  no_twice : NoDup (t_groups t).*1;
  no_clash : NoDup (stack_group <$> (t_stacks t).*1)
}.

Lemma name_blank s : name_ok s → no_blank s.
Proof.
  apply List.Forall_impl. intros c Hc. unfold name_char in Hc. destruct (is_space c); [done|done].
Qed.

Lemma header_of_header s : header_of (header s) = Some s.
Proof.
  change (header_of (header s)) with (match rev (s ++ [93%N]) with 93%N :: name => Some (rev name) | _ => None end).
  rewrite rev_app_distr. change (Some (rev (rev s)) = Some s). by rewrite rev_involutive.
Qed.

Lemma name_no_header c s l : name_char c = true → header_of (c :: s ++ l) = None.
Proof.
  unfold name_char. rewrite negb_true_iff, !orb_false_iff. intros [[[_ Hc] _] _].
  cbn [header_of app]. apply N.eqb_neq in Hc. destruct c as [|[]]; try done.
  repeat match goal with |- context [match ?p with _ => _ end] => destruct p; try done end.
Qed.

(** Sections laid out one after the other are read back. *)
Definition lay_out (secs : list (text * list text)) : list text := secs ≫= λ s, header s.1 :: s.2.
Definition plain (l : text) : Prop := header_of l = None.

Lemma sections_lay_out secs :
  Forall (λ s, Forall plain s.2) secs → sections (lay_out secs) = ([], secs).
Proof.
  induction 1 as [|[h body] secs Hbody _ IH]; [done|].
  assert (lay_out ((h, body) :: secs) = header h :: body ++ lay_out secs) as -> by done. cbn [sections].
  assert (∀ rest, sections rest = ([], secs) → sections (body ++ rest) = (body, secs)) as Hb.
  { intros rest Hr. cbn [snd] in Hbody. induction Hbody as [|l body Hl _ IHb]; [exact Hr|].
    cbn [app sections]. rewrite IHb. by rewrite Hl. }
  rewrite (Hb _ IH). by rewrite header_of_header.
Qed.

Lemma read_lay_out secs :
  secs ≠ [] → Forall (λ s, no_blank s.1 ∧ Forall (λ l, Forall (λ c, is_linebreak c = false) l ∧ plain l) s.2) secs →
  read_ini (str_join [10%N] (lay_out secs) ++ [10%N]) = secs.
Proof.
  intros Hne Hs. unfold read_ini. rewrite str_join_lines, splitlines_concat.
  - rewrite sections_lay_out; [done|]. eapply List.Forall_impl, Hs. intros s [_ H]. eapply List.Forall_impl, H. by intros l [].
  - unfold lay_out. apply Forall_forall. intros l (s & Hl & Hin)%list_elem_of_bind. rewrite Forall_forall in Hs.
    destruct (Hs s Hin) as [Hh Hb]. apply elem_of_cons in Hl as [->|Hl].
    + unfold header. rewrite !Forall_app. split_and!; [by repeat constructor| |by repeat constructor]. by apply word_line.
    + rewrite Forall_forall in Hb. by apply (Hb l).
  - destruct secs as [|s secs]; [done|]. by unfold lay_out.
Qed.

Definition host_text (h ip : text) : text := h ++ u " " ++ ANSIBLE_HOST ++ ip.

Lemma not_blank s c : no_blank s → is_space c = true → c ∉ s.
Proof. unfold no_blank. intros Hs Hc Hin. rewrite Forall_forall in Hs. specialize (Hs c Hin). cbn beta in Hs. congruence. Qed.

Lemma host_line_text h ip : name_ok h → host_line (host_text h ip) = Some (h, ip).
Proof.
  intros Hh. unfold host_line, host_text. change (u " ") with [32%N]. cbn [app].
  rewrite cut_app by (by apply not_blank; [apply name_blank|]).
  assert (startswith (ANSIBLE_HOST ++ ip) ANSIBLE_HOST = true) as -> by (apply bool_decide_eq_true; by apply prefix_app_r).
  by rewrite drop_app_length.
Qed.

Lemma host_line_name l : no_blank l → host_line l = None.
Proof.
  intros Hl. unfold host_line. rewrite (proj2 (cut_None 32 l)); [done|]. by apply not_blank.
Qed.

Lemma plain_name l : name_ok l → plain l.
Proof. destruct 1 as [|c s Hc _]; [done|]. rewrite <-(app_nil_r s). by apply name_no_header. Qed.

Lemma plain_host h ip : name_ok h → plain (host_text h ip).
Proof. destruct 1 as [|c s Hc _]; [done|]. unfold host_text. cbn [app]. by apply name_no_header. Qed.

(** ** When both render, and what they say *)

Lemma res_mapM_fmap {E A B} (f : A → res E B) (g : A → B) l : (∀ x, x ∈ l → f x = Ok (g x)) → res_mapM f l = Ok (g <$> l).
Proof.
  intros Hf. apply res_mapM_Ok. induction l as [|x l IH]; [constructor|]. rewrite fmap_cons.
  constructor; [apply Hf; by left|]. apply IH. intros; apply Hf. by right.
Qed.

(** Every host of a group has an address, and every group of a stack is there. *)
Definition resolvable (t : Topo) : Prop :=
  (∀ g hs h, (g, hs) ∈ t_groups t → h ∈ hs → ∃ ip, mgmt_ip t h = Ok ip) ∧
  (∀ sc, sc ∈ t_stacks t → check_stack t sc = Ok ()).

Definition ip_of (t : Topo) (h : text) : text := match mgmt_ip t h with Ok ip => ip | Err _ => [] end.

Definition group_section (t : Topo) (gh : text * list text) : text * list text :=
  (gh.1, (λ h, host_text h (ip_of t h)) <$> gh.2).
Definition stack_section (sc : text * StackCfg) : list (text * list text) :=
  match sc_groups sc.2 with [] => [] | members => [(stack_group sc.1 ++ CHILDREN, members)] end.
Definition inv_sections (t : Topo) : list (text * list text) :=
  (group_section t <$> t_groups t) ++ (t_stacks t ≫= stack_section) ++ [(u "all:vars", tail all_vars)].

Lemma ip_of_Ok t h ip : mgmt_ip t h = Ok ip → ip_of t h = ip.
Proof. unfold ip_of. by intros ->. Qed.

Lemma group_lines_Ok t gh ls :
  group_lines t gh = Ok ls ↔ (∀ h, h ∈ gh.2 → ∃ ip, mgmt_ip t h = Ok ip) ∧ ls = lay_out [group_section t gh].
Proof.
  unfold group_lines. split.
  - intros (k & Hk & [= <-])%bind_Ok. assert (∀ h, h ∈ gh.2 → ∃ ip, mgmt_ip t h = Ok ip) as Hall.
    { intros h Hh. destruct (res_mapM_image _ _ _ _ Hk Hh) as (y & _ & (ip & Hip & _)%bind_Ok). by exists ip. }
    split; [done|]. rewrite (res_mapM_fmap _ (λ h, host_text h (ip_of t h))) in Hk.
    + injection Hk as <-. unfold lay_out. rewrite bind_cons. cbn [mbind list_bind]. by rewrite app_nil_r.
    + intros h Hh. destruct (Hall h Hh) as [ip Hip]. unfold ip_of. by rewrite Hip.
  - intros [Hall ->]. rewrite (res_mapM_fmap _ (λ h, host_text h (ip_of t h))).
    + unfold lay_out. rewrite bind_cons. cbn [mbind list_bind res_bind]. by rewrite app_nil_r.
    + intros h Hh. destruct (Hall h Hh) as [ip Hip]. unfold ip_of. by rewrite Hip.
Qed.

Lemma stack_lines_Ok t sc ls :
  stack_lines t sc = Ok ls ↔ check_stack t sc = Ok () ∧ ls = lay_out (stack_section sc).
Proof.
  unfold stack_lines, stack_section, lay_out. destruct (check_stack t sc) as [[]|e]; cbn [mbind res_bind]; [|naive_solver].
  destruct (sc_groups sc.2) as [|g gs]; [naive_solver|]. rewrite bind_cons. cbn [mbind list_bind fst snd]. rewrite app_nil_r. naive_solver.
Qed.

Lemma mapM_lines {A} (f : A → res RenderError (list text)) (sec : A → list (text * list text)) (P : A → Prop) l k :
  (∀ x ls, f x = Ok ls ↔ P x ∧ ls = lay_out (sec x)) →
  res_mapM f l = Ok k ↔ (∀ x, x ∈ l → P x) ∧ k = (λ x, lay_out (sec x)) <$> l.
Proof.
  intros Hf. split.
  - intros Hk. assert (∀ x, x ∈ l → P x) as Hall.
    { intros x Hx. destruct (res_mapM_image _ _ _ _ Hk Hx) as (y & _ & [? _]%Hf). done. }
    split; [done|]. rewrite (res_mapM_fmap _ (λ x, lay_out (sec x))) in Hk by (intros x Hx; apply Hf; auto). by injection Hk as <-.
  - intros [Hall ->]. apply res_mapM_fmap. intros x Hx. apply Hf. auto.
Qed.

Lemma lay_out_app a b : lay_out (a ++ b) = lay_out a ++ lay_out b.
Proof. unfold lay_out. by rewrite bind_app. Qed.

Lemma lay_out_bind {A} (sec : A → list (text * list text)) l : mjoin ((λ x, lay_out (sec x)) <$> l) = lay_out (l ≫= sec).
Proof.
  induction l as [|x l IH]; [done|]. rewrite fmap_cons, bind_cons.
  change (mjoin (lay_out (sec x) :: ((λ x, lay_out (sec x)) <$> l))) with (lay_out (sec x) ++ mjoin ((λ x, lay_out (sec x)) <$> l)).
  by rewrite IH, lay_out_app.
Qed.

Lemma render_inventory_Ok t inv :
  render_inventory t = Ok inv ↔ resolvable t ∧ inv = str_join [10%N] (lay_out (inv_sections t)) ++ [10%N].
Proof.
  unfold render_inventory. rewrite bind_Ok. setoid_rewrite bind_Ok.
  setoid_rewrite (mapM_lines (group_lines t) (λ gh, [group_section t gh]) (λ gh, ∀ h, h ∈ gh.2 → ∃ ip, mgmt_ip t h = Ok ip) _ _ (group_lines_Ok t)).
  setoid_rewrite (mapM_lines (stack_lines t) stack_section (λ sc, check_stack t sc = Ok ()) _ _ (stack_lines_Ok t)).
  assert (inv_sections t = (t_groups t ≫= λ gh, [group_section t gh]) ++ (t_stacks t ≫= stack_section) ++ [(u "all:vars", tail all_vars)]) as ->.
  { unfold inv_sections. f_equal. }
  split.
  - intros (gs & [Hg ->] & ss & [Hs ->] & [= <-]).
    rewrite (lay_out_bind (λ gh, [group_section t gh])), (lay_out_bind stack_section). split.
    + split; [intros g hs h Hin Hh; by apply (Hg (g, hs) Hin)|done].
    + by rewrite !lay_out_app.
  - intros [[Hg Hs] ->]. exists ((λ gh, lay_out [group_section t gh]) <$> t_groups t).
    split; [split; [by intros [g hs] Hin h Hh; eapply Hg|done]|].
    exists ((λ sc, lay_out (stack_section sc)) <$> t_stacks t). split; [by split|].
    by rewrite (lay_out_bind (λ gh, [group_section t gh])), (lay_out_bind stack_section), !lay_out_app.
Qed.

Section reading.
Context (t : Topo) (Hn : names_ok t) (Hr : resolvable t).

Lemma nic_blank h ip : mgmt_ip t h = Ok ip → no_blank ip.
Proof.
  unfold mgmt_ip, nic_ip. intros (spec & Hs%of_option_Ok%dget_elem & H%of_option_Ok)%bind_Ok.
  pose proof (no_ips _ Hn) as Hi. rewrite Forall_forall in Hi. specialize (Hi _ Hs). cbn [snd] in Hi. rewrite Forall_forall in Hi.
  destruct (dget (ns_nics spec) NET_MGMT) as [v|] eqn:Hv; [|done]. apply dget_elem in Hv. specialize (Hi _ Hv). cbn [snd] in Hi.
  destruct v; [done|]. by injection H as <-.
Qed.

Lemma listed_names g hs : (g, hs) ∈ t_groups t → name_ok g ∧ Forall name_ok hs.
Proof. intros Hin. pose proof (no_groups _ Hn) as H. rewrite Forall_forall in H. apply (H _ Hin). Qed.

Lemma stack_names s cfg : (s, cfg) ∈ t_stacks t → name_ok s ∧ Forall name_ok (sc_groups cfg).
Proof. intros Hin. pose proof (no_stacks _ Hn) as H. rewrite Forall_forall in H. apply (H _ Hin). Qed.

Lemma stack_group_ok s : name_ok s → name_ok (stack_group s).
Proof.
  unfold stack_group, replace_char, name_ok. intros H. apply Forall_forall. intros c (x & Hc & Hx)%list_elem_of_bind.
  rewrite Forall_forall in H. specialize (H _ Hx). destruct (x =? 45)%N; apply list_elem_of_singleton in Hc; by subst.
Qed.

Lemma elem_of_stack_section secs name ls :
  (name, ls) ∈ secs ≫= stack_section ↔
  ∃ s cfg, (s, cfg) ∈ secs ∧ name = stack_group s ++ CHILDREN ∧ ls = sc_groups cfg ∧ ls ≠ [].
Proof.
  rewrite list_elem_of_bind. unfold stack_section. split.
  - intros ([s cfg] & Hin & Hsc). cbn [fst snd] in Hin. destruct (sc_groups cfg) as [|g gs] eqn:Hg; [by apply elem_of_nil in Hin|].
    apply list_elem_of_singleton in Hin. injection Hin as -> ->. exists s, cfg. by rewrite Hg.
  - intros (s & cfg & Hin & -> & -> & Hne). exists (s, cfg). split; [|done]. cbn [fst snd].
    destruct (sc_groups cfg); [done|by left].
Qed.

Lemma sections_read : read_ini (str_join [10%N] (lay_out (inv_sections t)) ++ [10%N]) = inv_sections t.
Proof.
  apply read_lay_out; [unfold inv_sections; by destruct (group_section t <$> t_groups t), (t_stacks t ≫= stack_section)|].
  unfold inv_sections. rewrite !Forall_app. split_and!.
  - apply Forall_forall. intros s ([g hs] & -> & Hin)%list_elem_of_fmap. destruct (listed_names g hs Hin) as [Hg Hhs].
    split; [by apply name_blank|]. cbn [group_section snd]. apply Forall_forall. intros l (h & -> & Hh)%list_elem_of_fmap.
    rewrite Forall_forall in Hhs. specialize (Hhs h Hh). split; [|by apply plain_host].
    destruct (proj1 Hr g hs h Hin Hh) as [ip Hip]. rewrite (ip_of_Ok _ _ _ Hip). unfold host_text.
    rewrite !Forall_app. split_and!; [by apply word_line, name_blank| |..|by eapply word_line, nic_blank];
      apply (bool_decide_unpack _); by vm_compute.
  - apply Forall_forall. intros [name ls] (s & cfg & Hin & -> & -> & _)%elem_of_stack_section.
    destruct (stack_names s cfg Hin) as [Hs Hgs]. cbn [fst snd]. split.
    + apply Forall_app. split; [by apply name_blank, stack_group_ok|]. apply (bool_decide_unpack _); by vm_compute.
    + eapply List.Forall_impl, Hgs. intros l Hl. split; [by apply word_line, name_blank|by apply plain_name].
  - apply (bool_decide_unpack _). by vm_compute.
Qed.

Lemma colon_name s x : name_ok s → s ≠ x ++ CHILDREN.
Proof.
  intros Hs ->. apply Forall_app in Hs as [_ Hc]. unfold CHILDREN in Hc. by apply Forall_cons in Hc as [Hc _].
Qed.

Lemma sections_wf : dict_wf (inv_sections t).
Proof.
  unfold dict_wf, inv_sections. rewrite !fmap_app. apply NoDup_app. split_and!; [|intros g|apply NoDup_app; split_and!].
  - rewrite <-list_fmap_compose. apply (no_twice _ Hn).
  - intros Hg. rewrite <-list_fmap_compose in Hg. apply list_elem_of_fmap in Hg as ([g' hs] & -> & Hin). cbn.
    destruct (listed_names _ _ Hin) as [Hok _]. rewrite elem_of_app. intros [Hin'|Hin'].
    + apply list_elem_of_fmap in Hin' as ([name ls] & -> & (s & cfg & _ & -> & _)%elem_of_stack_section). cbn [fst] in Hok.
      by eapply colon_name.
    + apply list_elem_of_singleton in Hin' as ->.
      assert (¬ Forall (λ c, name_char c = true) (u "all:vars")) as Hnot by (apply (bool_decide_unpack _); by vm_compute). by apply Hnot.
  - pose proof (no_clash _ Hn) as Hc. revert Hc. induction (t_stacks t) as [|[s cfg] l IH]; intros Hc; [constructor|].
    rewrite !fmap_cons in Hc. cbn [fst] in Hc. apply NoDup_cons in Hc as [Hs Hc]. rewrite bind_cons, fmap_app.
    unfold stack_section at 1. cbn [fst snd]. destruct (sc_groups cfg) as [|g gs]; [by apply IH|]. cbn [fmap list_fmap fst app].
    apply NoDup_cons. split; [|by apply IH]. intros Hin. apply list_elem_of_fmap in Hin as ([n ls] & Heq & (s' & cfg' & Hin & -> & _)%elem_of_stack_section).
    cbn [fst] in Heq. apply app_inj_2 in Heq as [Heq _]; [|done]. apply Hs. rewrite Heq.
    apply list_elem_of_fmap. exists s'. split; [done|]. by apply (list_elem_of_fmap_2 fst) in Hin.
  - intros n Hin Hv. apply list_elem_of_singleton in Hv as ->.
    apply list_elem_of_fmap in Hin as ([n ls] & Heq & (s' & cfg' & Hin & -> & _)%elem_of_stack_section). cbn [fst] in Heq.
    apply (f_equal (last)) in Heq. rewrite last_app in Heq. by vm_compute in Heq.
  - apply NoDup_singleton.
Qed.

(** The groups' sections give the hosts with their addresses, and no other section does. *)
Lemma ini_hosts_spec g h ip :
  (h, ip) ∈ ini_hosts (inv_sections t) g ↔ h ∈ hosts_of t g ∧ mgmt_ip t h = Ok ip.
Proof.
  unfold ini_hosts. rewrite list_elem_of_omap. split.
  - intros (l & Hl & Hline). unfold dget_or in Hl. destruct (dget (inv_sections t) g) as [ls|] eqn:Hg; [|by apply elem_of_nil in Hl].
    cbn [default] in Hl. apply dget_elem in Hg. unfold inv_sections in Hg. rewrite !elem_of_app in Hg. destruct Hg as [Hg|[Hg|Hg]].
    + apply list_elem_of_fmap in Hg as ([g' hs] & [= -> ->] & Hin). apply list_elem_of_fmap in Hl as (h' & -> & Hh).
      destruct (listed_names _ _ Hin) as [_ Hhs]. rewrite Forall_forall in Hhs. rewrite host_line_text in Hline by auto.
      injection Hline as -> <-. destruct (proj1 Hr _ _ _ Hin Hh) as [ip' Hip]. rewrite (ip_of_Ok _ _ _ Hip). split; [|done].
      unfold hosts_of, dget_or. by rewrite (elem_dget _ _ _ (no_twice _ Hn) Hin).
    + apply elem_of_stack_section in Hg as (s & cfg & Hin & -> & -> & _). destruct (stack_names _ _ Hin) as [_ Hgs].
      rewrite Forall_forall in Hgs. by rewrite host_line_name in Hline by by apply name_blank, Hgs.
    + apply list_elem_of_singleton in Hg. injection Hg as _ ->. assert (Forall (λ l, host_line l = None) (tail all_vars)) as Hall
        by (apply (bool_decide_unpack _); by vm_compute). rewrite Forall_forall in Hall. specialize (Hall _ Hl). cbn beta in Hall. congruence.
  - intros [Hh Hip]. unfold hosts_of, dget_or in Hh. destruct (dget (t_groups t) g) as [hs|] eqn:Hg; [|by apply elem_of_nil in Hh].
    cbn [default] in Hh. apply dget_elem in Hg. exists (host_text h ip). destruct (listed_names _ _ Hg) as [_ Hhs].
    rewrite Forall_forall in Hhs. split; [|by apply host_line_text, Hhs]. unfold dget_or.
    rewrite (elem_dget _ g ((λ h, host_text h (ip_of t h)) <$> hs) sections_wf).
    + cbn [default]. apply list_elem_of_fmap. exists h. by rewrite (ip_of_Ok _ _ _ Hip).
    + unfold inv_sections. apply elem_of_app. left. apply list_elem_of_fmap. by exists (g, hs).
Qed.

(** The hosts of a stack's aggregate group are its members. *)
Lemma ini_members_spec s cfg h :
  (s, cfg) ∈ t_stacks t →
  h ∈ ini_members (inv_sections t) (stack_group s) ↔ ∃ g, g ∈ sc_groups cfg ∧ h ∈ hosts_of t g.
Proof.
  intros Hin. unfold ini_members. rewrite list_elem_of_bind.
  assert (dget_or (inv_sections t) (stack_group s ++ CHILDREN) [] = sc_groups cfg) as ->.
  { destruct (sc_groups cfg) as [|g0 gs] eqn:Hg.
    - unfold dget_or. destruct (dget (inv_sections t) (stack_group s ++ CHILDREN)) as [ls|] eqn:Hd; [|done]. exfalso.
      apply dget_elem in Hd. unfold inv_sections in Hd. rewrite !elem_of_app in Hd. destruct Hd as [Hd|[Hd|Hd]].
      + apply list_elem_of_fmap in Hd as ([g' hs] & [= Heq ->] & Hgi). destruct (listed_names _ _ Hgi) as [Hok _].
        cbn [fst] in Heq. subst g'. by apply (colon_name _ (stack_group s) Hok).
      + apply elem_of_stack_section in Hd as (s' & cfg' & Hin' & Heq & -> & Hne).
        apply app_inj_2 in Heq as [Heq _]; [|done]. pose proof (no_clash _ Hn) as Hc.
        apply list_elem_of_lookup in Hin as [i Hi], Hin' as [j Hj].
        assert (i = j) as <-; [|rewrite Hi in Hj; injection Hj as -> ->; by rewrite Hg in Hne].
        eapply (NoDup_lookup _ i j (stack_group s) Hc); rewrite !list_lookup_fmap, ?Hi, ?Hj; cbn [fmap option_fmap option_map fst]; congruence.
      + apply list_elem_of_singleton in Hd. injection Hd as Heq _. apply (f_equal last) in Heq. rewrite last_app in Heq. by vm_compute in Heq.
    - unfold dget_or. rewrite (elem_dget _ _ (g0 :: gs) sections_wf); [done|]. unfold inv_sections. rewrite !elem_of_app. right; left.
      apply elem_of_stack_section. exists s, cfg. by rewrite Hg. }
  split.
  - intros (g & Hh & Hg). apply list_elem_of_fmap in Hh as ([h' ip] & -> & [Hh _]%ini_hosts_spec). by exists g.
  - intros (g & Hg & Hh). exists g. split; [|done]. unfold hosts_of, dget_or in Hh.
    destruct (dget (t_groups t) g) as [hs|] eqn:Hd; [|by apply elem_of_nil in Hh]. apply dget_elem in Hd.
    destruct (proj1 Hr g hs h Hd Hh) as [ip Hip]. apply list_elem_of_fmap. exists (h, ip). split; [done|].
    apply ini_hosts_spec. split; [|done]. unfold hosts_of, dget_or. by rewrite (elem_dget _ _ _ (no_twice _ Hn) Hd).
Qed.
End reading.

(** ** The roster *)

Lemma add_group_spec g hs d h x :
  x ∈ dget_or (foldl (add_group g) d hs) h [] ↔ x ∈ dget_or d h [] ∨ (x = g ∧ h ∈ hs).
Proof.
  revert d. induction hs as [|y hs IH]; intros d; cbn [foldl]; [split; [by left|by intros [?|[_ ?%elem_of_nil]]]|].
  rewrite IH, elem_of_cons.
  assert (dget_or (add_group g d y) h [] = if decide (y = h) then dget_or d h [] ++ [g] else dget_or d h []) as ->.
  { unfold add_group, dget_or. rewrite dget_dset. case_decide; [by subst|done]. }
  case_decide as Hy; [|naive_solver]. subst y. rewrite elem_of_app, list_elem_of_singleton. naive_solver.
Qed.

Lemma host_groups_spec t h g :
  g ∈ dget_or (host_groups t) h [] ↔ ∃ hs, (g, hs) ∈ t_groups t ∧ h ∈ hs.
Proof.
  unfold host_groups. assert (∀ l d, g ∈ dget_or (foldl (λ d gh, foldl (add_group gh.1) d gh.2) d l) h [] ↔
    g ∈ dget_or d h [] ∨ ∃ hs, (g, hs) ∈ l ∧ h ∈ hs) as ->; [|split; [by intros [?%elem_of_nil|?]|by right]].
  induction l as [|[g' hs'] l IH]; intros d; cbn [foldl].
  - split; [by left|]. intros [?|(hs & ?%elem_of_nil & _)]; done.
  - rewrite IH, add_group_spec. cbn [fst snd]. setoid_rewrite elem_of_cons. naive_solver.
Qed.

Lemma host_groups_keys t h : h ∈ (host_groups t).*1 ↔ ∃ g hs, (g, hs) ∈ t_groups t ∧ h ∈ hs.
Proof.
  unfold host_groups.
  assert (∀ g hs d, h ∈ (foldl (add_group g) d hs).*1 ↔ h ∈ d.*1 ∨ h ∈ hs) as Hin.
  { intros g hs. induction hs as [|y hs IH]; intros d; cbn [foldl]; [split; [by left|by intros [?|?%elem_of_nil]]|].
    rewrite IH, elem_of_cons. unfold add_group. rewrite elem_of_dset_keys. naive_solver. }
  assert (∀ l d, h ∈ (foldl (λ d gh, foldl (add_group gh.1) d gh.2) d l).*1 ↔ h ∈ d.*1 ∨ ∃ g hs, (g, hs) ∈ l ∧ h ∈ hs) as ->;
    [|split; [by intros [?%elem_of_nil|?]|by right]].
  induction l as [|[g hs] l IH]; intros d; cbn [foldl].
  - split; [by left|]. intros [?|(g & hs & ?%elem_of_nil & _)]; done.
  - rewrite IH, Hin. cbn [fst snd]. setoid_rewrite elem_of_cons. naive_solver.
Qed.

Lemma host_groups_wf t : dict_wf (host_groups t).
Proof.
  unfold host_groups. assert (∀ g hs d, dict_wf d → dict_wf (foldl (add_group g) d hs)) as Hg.
  { intros g hs. induction hs as [|y hs IH]; intros d Hd; [done|]. by apply IH, dset_wf. }
  assert (∀ l d, dict_wf d → dict_wf (foldl (λ d gh, foldl (add_group gh.1) d gh.2) d l)) as H; [|apply H; constructor].
  induction l as [|gh l IH]; intros d Hd; [done|]. by apply IH, Hg.
Qed.

Definition in_stack (hg : list (text * list text)) (h : text) (sc : text * StackCfg) : Prop :=
  Exists (λ g, g ∈ sc_groups sc.2) (dget_or hg h []).

Lemma host_stacks_eq t hg :
  host_stacks t hg = (λ h, (h, (filter (in_stack hg h) (t_stacks t)).*1)) <$> hg.*1.
Proof.
  unfold host_stacks. assert (∀ l (F : text → list text),
    foldl (mark_stack hg) ((λ h, (h, F h)) <$> hg.*1) l = (λ h, (h, F h ++ (filter (in_stack hg h) l).*1)) <$> hg.*1) as Hgen.
  { induction l as [|sc l IH]; intros F; cbn [foldl].
    - apply list_fmap_ext. intros _ h _. by rewrite app_nil_r.
    - assert (mark_stack hg ((λ h, (h, F h)) <$> hg.*1) sc = (λ h, (h, F h ++ (filter (in_stack hg h) [sc]).*1)) <$> hg.*1) as ->.
      { unfold mark_stack. rewrite <-list_fmap_compose. apply list_fmap_ext. intros _ h _. cbn [compose fst snd].
        rewrite filter_cons, filter_nil. unfold in_stack. destruct (decide (Exists _ _)) as [H|H]; [by rewrite bool_decide_eq_true_2|].
        rewrite bool_decide_eq_false_2 by done. by rewrite app_nil_r. }
      rewrite (IH (λ h, F h ++ (filter (in_stack hg h) [sc]).*1)). apply list_fmap_ext. intros _ h _.
      change (sc :: l) with ([sc] ++ l). by rewrite filter_app, fmap_app, <-app_assoc. }
  apply (Hgen (t_stacks t) (λ _, [])).
Qed.

Lemma dget_by_key {V} (F : text → V) ks h : h ∈ ks → dget ((λ h, (h, F h)) <$> ks) h = Some (F h).
Proof.
  induction ks as [|k ks IH]; [by intros ?%elem_of_nil|]. intros Hin. cbn [fmap list_fmap dget]. case_decide as Hk; [by subst|].
  apply elem_of_cons in Hin as [?|?]; [by subst|by apply IH].
Qed.

Lemma roster_Ok t ros :
  roster t = Ok ros ↔ resolvable t ∧
  ros = (λ h, (h, mk_entry (ip_of t h) (dget_or (host_groups t) h [])
                   (filter (in_stack (host_groups t) h) (t_stacks t)).*1)) <$> (host_groups t).*1.
Proof.
  unfold roster. rewrite bind_Ok.
  assert ((∃ k, res_mapM (check_stack t) (t_stacks t) = Ok k) ↔ ∀ sc, sc ∈ t_stacks t → check_stack t sc = Ok ()) as Hst.
  { split.
    - intros [k Hk] sc Hin. destruct (res_mapM_image _ _ _ _ Hk Hin) as ([] & _ & H). exact H.
    - intros H. eexists. by apply (res_mapM_fmap _ (λ _, ())). }
  assert ((∀ h, h ∈ (host_groups t).*1 → ∃ ip, mgmt_ip t h = Ok ip) ↔
    ∀ g hs h, (g, hs) ∈ t_groups t → h ∈ hs → ∃ ip, mgmt_ip t h = Ok ip) as Hips.
  { setoid_rewrite host_groups_keys. naive_solver. }
  assert ((∀ h, h ∈ (host_groups t).*1 → ∃ ip, mgmt_ip t h = Ok ip) →
    res_mapM (roster_entry t (host_groups t) (host_stacks t (host_groups t))) (host_groups t).*1 =
    Ok ((λ h, (h, mk_entry (ip_of t h) (dget_or (host_groups t) h []) (filter (in_stack (host_groups t) h) (t_stacks t)).*1)) <$>
      (host_groups t).*1)) as Hent.
  { intros Hall. apply res_mapM_fmap. intros h Hh. destruct (Hall h Hh) as [ip Hip]. unfold roster_entry.
    rewrite Hip, (ip_of_Ok _ _ _ Hip). cbn [mbind res_bind]. rewrite host_stacks_eq. unfold dget_or at 2.
    by rewrite (dget_by_key (λ h, (filter (in_stack (host_groups t) h) (t_stacks t)).*1)). }
  split.
  - intros (k & Hk & Hros). assert (∀ h, h ∈ (host_groups t).*1 → ∃ ip, mgmt_ip t h = Ok ip) as Hall.
    { intros h Hh. destruct (res_mapM_image _ _ _ _ Hros Hh) as (y & _ & (ip & Hip & _)%bind_Ok). by exists ip. }
    split; [split; [by apply Hips|apply Hst; by exists k]|]. rewrite (Hent Hall) in Hros. by injection Hros.
  - intros [[Hg Hs] ->]. destruct (proj2 Hst Hs) as [k Hk]. exists k. split; [done|]. by apply Hent, Hips.
Qed.

(** The groups that list a host, and the stacks that reach it. *)
Lemma host_groups_of t (Hn : names_ok t) h g : g ∈ dget_or (host_groups t) h [] ↔ h ∈ hosts_of t g.
Proof.
  rewrite host_groups_spec. unfold hosts_of, dget_or. split.
  - intros (hs & Hg & Hin). by rewrite (elem_dget _ _ _ (no_twice _ Hn) Hg).
  - destruct (dget (t_groups t) g) as [hs|] eqn:Hd; [|by intros ?%elem_of_nil]. intros Hin. exists hs. by apply dget_elem in Hd.
Qed.

Lemma stacks_of_host t (Hn : names_ok t) h s cfg :
  (s, cfg) ∈ t_stacks t →
  s ∈ (filter (in_stack (host_groups t) h) (t_stacks t)).*1 ↔ ∃ g, g ∈ sc_groups cfg ∧ h ∈ hosts_of t g.
Proof.
  intros Hin. rewrite list_elem_of_fmap. unfold in_stack. split.
  - intros ([s' cfg'] & -> & [(g & Hg & Hgc)%Exists_exists Hin']%list_elem_of_filter). cbn [fst snd] in *.
    assert (NoDup (t_stacks t).*1) as Hnd by (eapply NoDup_fmap_1, (no_clash _ Hn)).
    pose proof (elem_dget _ _ _ Hnd Hin) as H1. pose proof (elem_dget _ _ _ Hnd Hin') as H2.
    assert (cfg = cfg') as -> by congruence. exists g. by rewrite <-(host_groups_of t Hn).
  - intros (g & Hg & Hh). exists (s, cfg). split; [done|]. apply list_elem_of_filter. split; [|done].
    apply Exists_exists. exists g. by rewrite (host_groups_of t Hn).
Qed.

(** C32. The inventory and the salt-ssh roster are two renderings of one map: both fail or
    both succeed (a host without an address, an undefined host or group fails both), and
    then Ansible, reading the inventory back, and salt-ssh see the same: the roster's hosts
    are the hosts of the inventory's groups, each once and at the same address; the groups
    of a host are those that list it, and its stacks are those whose aggregate group reaches
    it, which is what the stack's members are. *)
Theorem inventory_roster_agree t :
  names_ok t →
  match render_inventory t, roster t with
  | Ok inv, Ok ros =>
      NoDup ros.*1 ∧
      (∀ h, h ∈ ros.*1 ↔ ∃ g ip, (h, ip) ∈ ini_hosts (read_ini inv) g) ∧
      ∀ h e, (h, e) ∈ ros → mgmt_ip t h = Ok (re_host e) ∧
        (∀ g, g ∈ re_groups e ↔ (h, re_host e) ∈ ini_hosts (read_ini inv) g) ∧
        (∀ s, s ∈ re_stacks e ↔ s ∈ (t_stacks t).*1 ∧ h ∈ ini_members (read_ini inv) (stack_group s)) ∧
        (∀ s ms, stack_members t s = Some ms → s ∈ re_stacks e ↔ h ∈ ms)
  | Err _, Err _ => True
  | _, _ => False
  end.
Proof.
  intros Hn. destruct (render_inventory t) as [inv|x] eqn:Hinv, (roster t) as [ros|y] eqn:Hros; [| | |done].
  2:{ apply render_inventory_Ok in Hinv as [Hr _]. pose proof (proj2 (roster_Ok t _) (conj Hr eq_refl)) as H. congruence. }
  2:{ apply roster_Ok in Hros as [Hr _]. pose proof (proj2 (render_inventory_Ok t _) (conj Hr eq_refl)) as H. congruence. }
  apply render_inventory_Ok in Hinv as [Hr ->]. apply roster_Ok in Hros as [_ ->].
  rewrite (sections_read t Hn Hr). split_and!.
  - rewrite <-list_fmap_compose. assert (∀ l : list text, fst ∘ (λ h, (h, mk_entry (ip_of t h) (dget_or (host_groups t) h [])
      (filter (in_stack (host_groups t) h) (t_stacks t)).*1)) <$> l = l) as -> by (intros l; induction l; csimpl; congruence).
    apply host_groups_wf.
  - intros h. setoid_rewrite (ini_hosts_spec t Hn Hr). rewrite <-list_fmap_compose, list_elem_of_fmap. split.
    + intros (h' & -> & (g & hs & Hg & Hh)%host_groups_keys). destruct (proj1 Hr _ _ _ Hg Hh) as [ip Hip]. exists g, ip.
      split; [|done]. unfold hosts_of, dget_or. by rewrite (elem_dget _ _ _ (no_twice _ Hn) Hg).
    + intros (g & ip & Hh & _). exists h. split; [done|]. apply host_groups_keys. unfold hosts_of, dget_or in Hh.
      destruct (dget (t_groups t) g) as [hs|] eqn:Hd; [|by apply elem_of_nil in Hh]. apply dget_elem in Hd. by exists g, hs.
  - intros h e (h' & [= <- ->] & Hh)%list_elem_of_fmap. cbn [re_host re_groups re_stacks].
    assert (mgmt_ip t h = Ok (ip_of t h)) as Hip.
    { apply host_groups_keys in Hh as (g & hs & Hg & Hh). destruct (proj1 Hr _ _ _ Hg Hh) as [ip Hip]. by rewrite (ip_of_Ok _ _ _ Hip). }
    split_and!; [done|by intros g; rewrite (host_groups_of t Hn), (ini_hosts_spec t Hn Hr); naive_solver| |].
    + intros s. split.
      * intros Hs. pose proof Hs as ([s' cfg] & -> & [_ Hin]%list_elem_of_filter)%list_elem_of_fmap. cbn [fst] in *. split; [by apply (list_elem_of_fmap_2 fst) in Hin|].
        rewrite (ini_members_spec t Hn Hr s' cfg h Hin). by apply (stacks_of_host t Hn h s' cfg Hin).
      * intros [([s' cfg] & -> & Hin)%list_elem_of_fmap Hm]. cbn [fst] in *. apply (stacks_of_host t Hn h s' cfg Hin).
        by rewrite <-(ini_members_spec t Hn Hr s' cfg h Hin).
    + intros s ms Hm. unfold stack_members in Hm. destruct (dget (t_stacks t) s) as [cfg|] eqn:Hd; [|done]. injection Hm as <-.
      apply dget_elem in Hd. rewrite (stacks_of_host t Hn h s cfg Hd). unfold flatten_groups. rewrite elem_of_uniq, list_elem_of_bind. naive_solver.
Qed.

(** ** A lab of two stacks, one of them reserved *)

Definition demo_host (ip : string) : NodeSpec := mk_node (PyStr (u "mq")) None None None [(NET_MGMT, u ip)] None.
Definition demo_lab : Topo :=
  mk_topo [(u "mq-a1", demo_host "10.50.0.11"); (u "mq-b1", demo_host "10.50.0.21"); (u "svc-sim", demo_host "10.50.0.9")]
    [(u "mq_a", [u "mq-a1"]); (u "mq_b", [u "mq-b1"]); (u "mq_all", [u "mq-a1"; u "mq-b1"]); (u "svc", [u "svc-sim"])]
    [(u "pcmk-ubuntu", demo_cfg "ubuntu" "PU" [u "mq_a"; u "mq_b"] [u "mq_b"]); (u "nativeha-ubuntu", demo_cfg "ubuntu" "NU" [] [])]
    [u "svc"] (Some (u "SVC"), Some (u "svc")) None (None, None) None.

Lemma demo_names : names_ok demo_lab.
Proof. split; apply (bool_decide_unpack _); by vm_compute. Qed.

Lemma inventory_roster_agree_witness :
  ∃ inv ros, render_inventory demo_lab = Ok inv ∧ roster demo_lab = Ok ros ∧
    ∀ h e, (h, e) ∈ ros → ∀ g, g ∈ re_groups e ↔ (h, re_host e) ∈ ini_hosts (read_ini inv) g.
Proof.
  pose proof (inventory_roster_agree demo_lab demo_names) as H.
  destruct (render_inventory demo_lab) as [inv|x] eqn:Hi; [|by vm_compute in Hi].
  destruct (roster demo_lab) as [ros|y] eqn:Hr; [|by destruct H].
  exists inv, ros. split_and!; [done..|]. intros h e Hin. apply (proj2 (proj2 H) h e Hin).
Defined.
