(* ===== verification/Scrape.v ===== *)
(** * Scrape targets and exporters

    Models mqlab/scrape.py: the targets Prometheus scrapes and the exporters a provision
    deploys, both projected from the topology, with the addresses an exporter connects to.
    The svc block's port, which no other module reads, is an argument; a port is an integer,
    as the topology has it; [str.lower] is a parameter. *)

From S2P Require Import Prelude PyText PyCodec PyDict PyFloat PyJson JsonRoundTrip Hostfacts Versions VersionsLoad Stacks Inventory.

Inductive ScrapeError :=
  | NoMgmt (host : text) | NoProbe | NoVipNoGroup (stack : text) | NoGroupHosts (stack group : text)
  | NoConnIp (host : text) | BadSvc | BadJson (e : JsonError).

Definition NODE_EXPORTER_PORT : Z := 9100.
Definition HYPERVISOR_MGMT_IP : text := u "10.50.0.1".
Definition MQ_LISTENER_PORT : Z := 1414.
Definition MON_CHANNEL : text := u "MON.SVRCONN".
Definition PROBE_GROUP : text := u "probe".
Definition EXPORTER_CONN_NET : text := u "net-mgmt".

Section scrape.
Context `{FT : FloatText} (lower : text → text) (t : Topo) (svc_port : option Z).

(** ** The node job *)

Record Target := mk_target { tg_address : text; tg_labels : list (text * text) }.

Definition target_json (g : Target) : json :=
  JObj [(u "targets", JArr [JStr (tg_address g)]); (u "labels", JObj ((λ kv, (kv.1, JStr kv.2)) <$> tg_labels g))].

Definition at_port (ip : text) (port : Z) : text := ip ++ u ":" ++ Z_text port.

Definition groups_of (host : text) : text :=
  str_join (u ",") (sorted_text (filter (λ gh, host ∈ gh.2) (t_groups t)).*1).

Definition node_target (hs : text * NodeSpec) : res ScrapeError Target :=
  ip ← of_option (NoMgmt hs.1) (nic_ip hs.2 NET_MGMT);
  Ok (mk_target (at_port ip NODE_EXPORTER_PORT) [(u "host", hs.1); (u "groups", groups_of hs.1)]).

Definition node_targets : res ScrapeError (list Target) :=
  ts ← res_mapM node_target (t_nodes t);
  Ok (ts ++ [mk_target (at_port HYPERVISOR_MGMT_IP NODE_EXPORTER_PORT)
               [(u "host", u "hypervisor"); (u "groups", u "hypervisor")]]).

Definition write_json (v : json) : res ScrapeError text :=
  s ← map_err BadJson (dumps (Some 2) v);
  Ok (s ++ [10%N]).

Definition render_scrape_targets : res ScrapeError text :=
  ts ← node_targets;
  write_json (JArr (target_json <$> ts)).

(** ** The exporters *)

Definition probe_mgmt_ip : res ScrapeError text :=
  match hosts_of t PROBE_GROUP with
  | [] => Err NoProbe
  | host :: _ => of_option (NoMgmt host) (spec ← dget (t_nodes t) host; nic_ip spec NET_MGMT)
  end.

Definition conn_name (address : text) : text := address ++ u "(" ++ Z_text MQ_LISTENER_PORT ++ u ")".

Definition host_conn (h : text) : res ScrapeError text :=
  ip ← of_option (NoConnIp h) (spec ← dget (t_nodes t) h; nic_ip spec EXPORTER_CONN_NET);
  Ok (conn_name ip).

Definition app_qm_conn (name : text) (cfg : StackCfg) : res ScrapeError text :=
  match or_none (dget (sc_qm cfg) (u "vip")) with
  | Some vip => Ok (conn_name vip)
  | None =>
      group ← of_option (NoVipNoGroup name) (or_none (sc_cluster_group cfg));
      match hosts_of t group with
      | [] => Err (NoGroupHosts name group)
      | hosts => conns ← res_mapM host_conn hosts; Ok (str_join (u ",") conns)
      end
  end.

Record Exporter := mk_exporter {
  ex_instance : text; ex_stack : text; ex_role : text; ex_qm : text; ex_conn : text; ex_channel : text; ex_port : Z
}.

(** A truthy port. *)
Definition port_of (v : option pyval) : option Z :=
  match v with Some (PyInt z) => if (z =? 0)%Z then None else Some z | _ => None end.

Definition COMMONS : text := u "commons".

Definition svc_exporter_instance : res ScrapeError Exporter :=
  match or_none (t_svc t).1, or_none (t_svc t).2, port_of (PyInt <$> svc_port) with
  | Some short, Some conn, Some port =>
      let qm := short ++ u "QM" in
      Ok (mk_exporter (lower qm) COMMONS (u "svc") qm (conn_name conn) MON_CHANNEL port)
  | _, _, _ => Err BadSvc
  end.

Definition app_exporter (nc : text * StackCfg) : res ScrapeError (list Exporter) :=
  let '(name, cfg) := nc in
  match or_none (sc_short cfg), port_of (dget (sc_alloc cfg) (u "exporter_app_port")) with
  | Some short, Some port =>
      let qm := short ++ u "APP" in
      conn ← app_qm_conn name cfg;
      Ok [mk_exporter (lower qm) name (u "app") qm conn MON_CHANNEL port]
  | _, _ => Ok []                              (* reserved, not observable *)
  end.

Definition in_scope (stack : option text) (e : Exporter) : bool :=
  match stack with Some s => bool_decide (ex_stack e = s ∨ ex_stack e = COMMONS) | None => true end.

Definition mq_exporter_instances (stack : option text) : res ScrapeError (list Exporter) :=
  apps ← res_mapM app_exporter (t_stacks t);
  svc ← svc_exporter_instance;
  Ok (filter (λ e, in_scope stack e = true) (mjoin apps ++ [svc])).

Definition mq_target (probe : text) (e : Exporter) : Target :=
  mk_target (at_port probe (ex_port e)) [(u "host", u "mon-probe"); (u "stack", ex_stack e); (u "role", ex_role e)].

Definition mq_targets : res ScrapeError (list Target) :=
  probe ← probe_mgmt_ip;
  insts ← mq_exporter_instances None;
  Ok (fmap (M := list) (mq_target probe) insts).

Definition render_mq_scrape_targets : res ScrapeError text :=
  ts ← mq_targets;
  write_json (JArr (target_json <$> ts)).

Definition exporter_json (e : Exporter) : json :=
  JObj [(u "instance", JStr (ex_instance e)); (u "stack", JStr (ex_stack e)); (u "role", JStr (ex_role e));
        (u "qm", JStr (ex_qm e)); (u "conn", JStr (ex_conn e)); (u "channel", JStr (ex_channel e)); (u "port", JInt (ex_port e))].

Definition render_mq_exporters (stack : option text) : res ScrapeError text :=
  insts ← mq_exporter_instances stack;
  write_json (JObj [(u "mq_exporters", JArr (exporter_json <$> insts))]).
End scrape.

(** ** What is deployed is scraped *)

Section laws.
Context `{FTL : FloatTextLaws} (lower : text → text) (t : Topo) (svc_port : option Z).

(** A stack an exporter is derived for. *)
Definition observable (cfg : StackCfg) : Prop :=
  is_Some (or_none (sc_short cfg)) ∧ is_Some (port_of (dget (sc_alloc cfg) (u "exporter_app_port"))).

Lemma app_exporter_Ok nc es :
  app_exporter lower t nc = Ok es →
  (observable nc.2 ∧ ∃ e, es = [e] ∧ ex_stack e = nc.1 ∧ ex_role e = u "app" ∧
     app_qm_conn t nc.1 nc.2 = Ok (ex_conn e) ∧ port_of (dget (sc_alloc nc.2) (u "exporter_app_port")) = Some (ex_port e)) ∨
  (¬ observable nc.2 ∧ es = []).
Proof.
  destruct nc as [name cfg]. unfold app_exporter, observable. cbn [fst snd].
  destruct (or_none (sc_short cfg)) as [short|], (port_of _) as [port|] eqn:Hp;
    try (intros [= <-]; right; split; [by intros [[] []]|done]).
  intros (conn & Hc & [= <-])%bind_Ok. left. split; [split; by eexists|]. eexists. by split_and!.
Qed.

Lemma app_exporters_spec apps :
  res_mapM (app_exporter lower t) (t_stacks t) = Ok apps →
  (∀ e, e ∈ mjoin apps → ex_role e = u "app" ∧ ∃ cfg, (ex_stack e, cfg) ∈ t_stacks t ∧ observable cfg ∧
     app_qm_conn t (ex_stack e) cfg = Ok (ex_conn e) ∧
     port_of (dget (sc_alloc cfg) (u "exporter_app_port")) = Some (ex_port e)) ∧
  (∀ s cfg, (s, cfg) ∈ t_stacks t → observable cfg → ∃ e, e ∈ mjoin apps ∧ ex_stack e = s) ∧
  (ex_stack <$> mjoin apps) `sublist_of` (t_stacks t).*1.
Proof.
  intros Happs. split_and!.
  - intros e (es & He & Hes)%list_elem_of_join. destruct (res_mapM_elem _ _ _ _ Happs Hes) as ([s cfg] & Hin & Hf).
    destruct (app_exporter_Ok _ _ Hf) as [(Ho & e' & -> & Hs & ? & ? & ?)|[_ ->]]; [|by apply elem_of_nil in He].
    apply list_elem_of_singleton in He as ->. cbn [fst snd] in *. subst s. split; [done|]. by exists cfg.
  - intros s cfg Hin Ho. destruct (res_mapM_image _ _ _ _ Happs Hin) as (es & Hes & Hf).
    destruct (app_exporter_Ok _ _ Hf) as [(_ & e & -> & Hs & _)|[Hno _]]; [|done]. exists e. split; [|done].
    apply list_elem_of_join. exists [e]. split; [by left|done].
  - apply res_mapM_Ok in Happs. induction Happs as [|nc es l apps Hf _ IH]; [constructor|]. rewrite fmap_cons.
    change (mjoin (es :: apps)) with (es ++ mjoin apps). rewrite fmap_app.
    destruct (app_exporter_Ok _ _ Hf) as [(_ & e & -> & Hs & _)|[_ ->]].
    + cbn [fmap list_fmap app]. rewrite Hs. by constructor.
    + by constructor.
Qed.

Lemma instances_Ok stack l :
  mq_exporter_instances lower t svc_port stack = Ok l →
  ∃ apps svc, res_mapM (app_exporter lower t) (t_stacks t) = Ok apps ∧
    svc_exporter_instance lower t svc_port = Ok svc ∧ l = filter (λ e, in_scope stack e = true) (mjoin apps ++ [svc]) ∧
    ex_stack svc = COMMONS ∧ ex_role svc = u "svc".
Proof.
  intros (apps & Ha & (svc & Hs & [= <-])%bind_Ok)%bind_Ok. exists apps, svc. split_and!; [done..| |];
    revert Hs; unfold svc_exporter_instance; repeat case_match; try done; by intros [= <-].
Qed.

Lemma scope_all (l : list Exporter) : filter (λ e, in_scope None e = true) l = l.
Proof. induction l as [|e l IH]; [done|]. rewrite filter_cons_True by done. by rewrite IH. Qed.

Lemma Z_text_inj a b : Z_text a = Z_text b → a = b.
Proof.
  assert (∀ n m, N_text n = N_text m → n = m) as HN by (intros n m Hnm; by rewrite <-(digits_value_text n), Hnm, digits_value_text).
  assert (∀ n m, 45%N :: N_text n ≠ N_text m) as Hs.
  { intros n m Heq. pose proof (N_text_digits m) as Hd. rewrite <-Heq in Hd. apply Forall_cons in Hd as [Hd _]. lia. }
  unfold Z_text. destruct (Z.ltb_spec a 0), (Z.ltb_spec b 0).
  - intros [= Heq%HN]. lia.
  - by intros ?%Hs.
  - intros Heq. symmetry in Heq. by apply Hs in Heq.
  - intros Heq%HN. lia.
Qed.

Lemma write_json_loads v out : write_json v = Ok out → json_ok v = true → loads out = Ok v.
Proof.
  unfold write_json. intros (s & Hs%map_err_Ok & [= <-])%bind_Ok Hok. eapply loads_dumps; [done| |done]. by repeat constructor.
Qed.

(** What is deployed is scraped, and nothing else: over a topology whose stacks have
    different names (none of them commons), when the exporters can be derived at all they
    can be for every stack, and then a stack's provision deploys the shared svc exporter
    and, if the stack is observable, the one app exporter of that stack, at its own port
    and with a connection to its own queue manager; Prometheus reads back from the target
    file exactly one target for each exporter of the lab, with its stack, its role and its
    port on the probe host; and different ports give different targets. *)
Theorem exporters_scraped all ts :
  NoDup (t_stacks t).*1 → (COMMONS ∉ (t_stacks t).*1) →
  mq_exporter_instances lower t svc_port None = Ok all → mq_targets lower t svc_port = Ok ts →
  (∀ s, ∃ l svc, mq_exporter_instances lower t svc_port (Some s) = Ok l ∧ svc ∈ l ∧ ex_stack svc = COMMONS ∧ ex_role svc = u "svc" ∧
     (∀ e, e ∈ l → e ∈ all ∧ (e = svc ∨ ∃ cfg, (s, cfg) ∈ t_stacks t ∧ observable cfg ∧ ex_stack e = s ∧ ex_role e = u "app" ∧
        app_qm_conn t s cfg = Ok (ex_conn e) ∧ port_of (dget (sc_alloc cfg) (u "exporter_app_port")) = Some (ex_port e))) ∧
     ∀ cfg, (s, cfg) ∈ t_stacks t → observable cfg → ∃ e, (e ∈ l ∧ ex_stack e = s) ∧ ∀ e', e' ∈ l → ex_stack e' = s → e' = e) ∧
  NoDup (ex_stack <$> all) ∧
  (∃ probe, probe_mgmt_ip t = Ok probe ∧ ts = mq_target probe <$> all) ∧
  (NoDup (ex_port <$> all) → NoDup (tg_address <$> ts)) ∧
  ∀ out, render_mq_scrape_targets lower t svc_port = Ok out → json_ok (JArr (target_json <$> ts)) = true →
    loads out = Ok (JArr (target_json <$> ts)).
Proof.
  intros Hnd Hcom Hall Hts. destruct (instances_Ok _ _ Hall) as (apps & svc & Ha & Hsvc & -> & Hsc & Hsr).
  destruct (app_exporters_spec _ Ha) as (Happ & Hobs & Hsub). rewrite scope_all in *.
  assert (NoDup (ex_stack <$> mjoin apps ++ [svc])) as Hone.
  { rewrite fmap_app. apply NoDup_app. split_and!; [by eapply sublist_NoDup| |by apply NoDup_singleton].
    intros s Hs Hin. cbn [fmap list_fmap] in Hin. apply list_elem_of_singleton in Hin as ->. rewrite Hsc in Hs.
    apply Hcom. by eapply elem_of_sublist. }
  split_and!; [|exact Hone| | |].
  - intros s. exists (filter (λ e, in_scope (Some s) e = true) (mjoin apps ++ [svc])), svc.
    assert (∀ e, e ∈ filter (λ e, in_scope (Some s) e = true) (mjoin apps ++ [svc]) ↔
      (ex_stack e = s ∨ ex_stack e = COMMONS) ∧ e ∈ mjoin apps ++ [svc]) as Hin.
    { intros e. rewrite list_elem_of_filter. cbn [in_scope]. by rewrite bool_decide_eq_true. }
    assert (svc ∈ mjoin apps ++ [svc]) as Hin0 by (apply elem_of_app; right; by left).
    split_and!; [unfold mq_exporter_instances; by rewrite Ha, Hsvc|apply Hin; by split; [right|]|done|done| |].
    + intros e He. apply Hin in He as [Hs He]. split; [done|]. apply elem_of_app in He as [He|He%list_elem_of_singleton]; [right|by left].
      destruct (Happ e He) as (Hr & cfg & Hc & Ho & Hconn & Hport). destruct Hs as [<-|Hs]; [by exists cfg|].
      exfalso. apply Hcom. rewrite <-Hs. by apply (list_elem_of_fmap_2 fst) in Hc.
    + intros cfg Hc Ho. destruct (Hobs s cfg Hc Ho) as (e & He & Hs). exists e. split.
      * split; [|done]. apply Hin. split; [by left|]. apply elem_of_app. by left.
      * intros e' [_ He']%Hin Hs'. apply list_elem_of_lookup in He' as [j Hj].
        assert (e ∈ mjoin apps ++ [svc]) as Hi by (apply elem_of_app; by left). apply list_elem_of_lookup in Hi as [i Hi].
        assert (i = j) as <-; [|congruence].
        eapply (NoDup_lookup _ i j s Hone); rewrite list_lookup_fmap, ?Hi, ?Hj; cbn [fmap option_fmap option_map]; congruence.
  - unfold mq_targets in Hts. apply bind_Ok in Hts as (probe & Hp & (l & Hl & [= <-])%bind_Ok). exists probe. split; [done|].
    rewrite Hall in Hl. by injection Hl as <-.
  - unfold mq_targets in Hts. apply bind_Ok in Hts as (probe & Hp & (l & Hl & [= <-])%bind_Ok).
    rewrite Hall in Hl. injection Hl as <-. intros Hports.
    assert (tg_address <$> (mq_target probe <$> mjoin apps ++ [svc]) = at_port probe <$> (ex_port <$> mjoin apps ++ [svc])) as ->
      by (rewrite <-!list_fmap_compose; done).
    apply NoDup_fmap_2; [|done]. intros a b Hab. unfold at_port in Hab. apply app_inv_head, app_inv_head in Hab. by apply Z_text_inj.
  - intros out Hout Hok. unfold render_mq_scrape_targets in Hout. rewrite Hts in Hout. cbn [mbind res_bind] in Hout.
    by eapply write_json_loads.
Qed.
End laws.

(** ** A lab with one stack behind an address and one without *)

Definition demo_mq_cfg (short : string) (vip : list (text * text)) (cluster : option text) (groups : list text) (port : Z) : StackCfg :=
  mk_cfg (Some (u "rdqm")) (Some (u "ubuntu")) (Some (u short)) [] cluster groups [] vip None [] [(u "exporter_app_port", PyInt port)].
Definition demo_scrape : Topo :=
  mk_topo [(u "mq-a1", demo_host "10.50.0.11"); (u "mq-a2", demo_host "10.50.0.12"); (u "mon-probe", demo_host "10.50.0.3")]
    [(u "mq_a", [u "mq-a1"; u "mq-a2"]); (u "probe", [u "mon-probe"])]
    [(u "pcmk", demo_mq_cfg "PU" [(u "vip", u "10.2.0.1")] None [u "mq_a"] 9157);
     (u "nativeha", demo_mq_cfg "NU" [] (Some (u "mq_a")) [u "mq_a"] 9158);
     (u "reserved", demo_cfg "ubuntu" "RU" [] [])]
    [u "probe"] (Some (u "SVC"), Some (u "svc")) None (None, None) None.

Lemma exporters_scraped_witness :
  ∃ all ts, mq_exporter_instances lower_ascii demo_scrape (Some 9159%Z) None = Ok all ∧
    mq_targets lower_ascii demo_scrape (Some 9159%Z) = Ok ts ∧
    ex_conn <$> all = [u "10.2.0.1(1414)"; u "10.50.0.11(1414),10.50.0.12(1414)"; u "svc(1414)"] ∧
    tg_address <$> ts = [u "10.50.0.3:9157"; u "10.50.0.3:9158"; u "10.50.0.3:9159"] ∧ NoDup (tg_address <$> ts).
Proof.
  destruct (mq_exporter_instances lower_ascii demo_scrape (Some 9159%Z) None) as [all|e] eqn:Ha; [|by vm_compute in Ha].
  destruct (mq_targets lower_ascii demo_scrape (Some 9159%Z)) as [ts|e] eqn:Ht; [|by vm_compute in Ht].
  exists all, ts. split; [done|]. split; [done|].
  pose proof (exporters_scraped lower_ascii demo_scrape (Some 9159%Z) all ts) as (_ & _ & _ & Hnd & _); [..|exact Ha|exact Ht|].
  - apply (bool_decide_unpack _). by vm_compute.
  - apply (bool_decide_unpack _). by vm_compute.
  - vm_compute in Ha. injection Ha as <-. vm_compute in Ht. injection Ht as <-.
    split_and!; [done|done|]. apply Hnd. apply (bool_decide_unpack _). by vm_compute.
Defined.
