(* ===== verification/Artifacts.v ===== *)
(** * The cache of MQ tarballs

    Models mqlab/artifact.py and tarball_name of mqlab/manifest.py: the tarballs a set of
    boxes needs, and the cache that fetches each once, records its digest beside it and
    verifies it on every use. A run is the sequence of its file operations, a download being
    written in pieces; the digest, the download and [str.lower] are parameters. *)

From S2P Require Import Prelude PyText PyDict PyCodec Trace Trees Hostfacts Versions VersionsLoad Platforms Runtime.

#[local] Open Scope trace_scope.

Inductive ArtError :=
  | NoFamily (family : text)                      (* ValueError *)
  | NoArchToken (arch : text)                     (* KeyError *)
  | FetchFailed | NoFile (name : text)            (* OSError *)
  | EmptySidecar (name : text)                    (* IndexError *)
  | Mismatch (name actual expected : text).       (* ValueError *)

(** ** manifest.py: the name of a tarball *)

Definition FAMILY_PREFIX : list (text * text) := [(u "ubuntu", u "UbuntuLinux"); (u "rhel", u "Linux")].
Definition MQ_ARCH_TOKEN : list (text * text) := [(arch_name AARCH64, u "ARM64"); (arch_name X86_64, u "X64")].
Definition TARBALL_SUFFIX : text := u ".tar.gz".

Definition tarball_name (mq_version : text) (entry : BoxEntry) (facts : HostFacts) : res ArtError text :=
  let family := ref_family (oe_ref (be_os entry)) in
  prefix ← of_option (NoFamily family) (dget FAMILY_PREFIX family);
  let arch := box_build_arch (oe_arch_pin (be_os entry)) facts in
  token ← of_option (NoArchToken arch) (dget MQ_ARCH_TOKEN arch);
  Ok (mq_version ++ u "-IBM-MQ-Advanced-for-Developers-" ++ prefix ++ token ++ TARBALL_SUFFIX).

(** ** artifact.py *)

Definition MQ_CDN_BASE : text :=
  u "https://public.dhe.ibm.com/ibmdl/export/pub/software/websphere/messaging/mqadv".
Definition mq_tarball_url (name : text) : text := MQ_CDN_BASE ++ u "/" ++ name.

(** The cache: file names and contents. *)
Abbreviation mq_cache := (gmap text text).

Inductive ArtOp :=
  | Create (n : text) | Append (n chunk : text) | Rename (a b : text) | Write (n content : text)
  | Notice (name digest : text).                  (* on stderr *)

Definition art_apply (m : mq_cache) (o : ArtOp) : mq_cache :=
  match o with
  | Create n => <[n := []]> m
  | Append n c => alter (.++ c) n m
  | Rename a b => match m !! a with Some c => <[b := c]> (delete a m) | None => m end
  | Write n c => <[n := c]> m
  | Notice _ _ => m
  end.
Definition art_play (m : mq_cache) (l : list ArtOp) : mq_cache := foldl art_apply m l.

Definition part (name : text) : text := name ++ u ".part".
Definition sidecar (name : text) : text := name ++ u ".sha256".

Section artifact.
Context (sha256 : text → text) (lower : text → text) (download : text → Download).

(** The line of a sidecar. *)
Definition digest_line (name content : text) : text := sha256 content ++ u "  " ++ name ++ [10%N].

Definition download_mq_tarball (name : text) (m : mq_cache) : traced ArtOp ArtError () :=
  let dl := download (mq_tarball_url name) in
  let* _ := (Create (part name) :: (Append (part name) <$> dl_chunks dl), if dl_ok dl then Ok () else Err FetchFailed) in
  let* _ := emit (Rename (part name) name) (Ok ()) in
  match m !! sidecar name with
  | Some _ => quiet (Ok ())
  | None => emit (Write (sidecar name) (digest_line name (mjoin (dl_chunks dl)))) (Ok ())
  end.

Definition verify_sha256 (name : text) (m : mq_cache) : traced ArtOp ArtError () :=
  let* content := quiet (of_option (NoFile name) (m !! name)) in
  match m !! sidecar name with
  | None => ([Write (sidecar name) (digest_line name content); Notice name (sha256 content)], Ok ())
  | Some s =>
      match split_ws s with
      | [] => quiet (Err (EmptySidecar name))
      | w :: _ =>
          let expected := lower (strip w) in
          quiet (if bool_decide (sha256 content = expected) then Ok () else Err (Mismatch name (sha256 content) expected))
      end
  end.

(** One tarball, with the cache it leaves. *)
Definition ensure_one (m : mq_cache) (name : text) : traced ArtOp ArtError mq_cache :=
  let fetched := match m !! name with Some _ => quiet (Ok ()) | None => download_mq_tarball name m end in
  let* _ := fetched in
  let m1 := art_play m fetched.1 in
  let verified := verify_sha256 name m1 in
  let* _ := verified in
  quiet (Ok (art_play m1 verified.1)).

Definition ensure_names (names : list text) (m : mq_cache) : traced ArtOp ArtError (list text) :=
  let* _ := fold_trace ensure_one m names in
  quiet (Ok names).

Definition ensure_mq_tarballs_for_boxes (facts : HostFacts) (boxes : list BoxEntry) (mq_version : text) (m : mq_cache) :
    traced ArtOp ArtError (list text) :=
  let* names := quiet (res_mapM (λ b, tarball_name mq_version b facts) boxes) in
  ensure_names (sorted_text (uniq names)) m.
End artifact.

(** ** What a run does to the cache *)

(** Tarballs, sidecars and downloads in progress have names of different kinds. *)
Definition is_tar (n : text) : Prop := last n = Some 122%N.

Lemma last_kind (a : text) s c : last s = Some c → last (a ++ s) = Some c.
Proof. intros Hs. rewrite last_app. by rewrite Hs. Qed.

Lemma tar_not_part n k : is_tar n → n ≠ part k.
Proof. intros Hn ->. unfold is_tar, part in Hn. rewrite (last_kind k (u ".part") 116%N eq_refl) in Hn. discriminate Hn. Qed.
Lemma tar_not_sidecar n k : is_tar n → n ≠ sidecar k.
Proof. intros Hn ->. unfold is_tar, sidecar in Hn. rewrite (last_kind k (u ".sha256") 54%N eq_refl) in Hn. discriminate Hn. Qed.
Lemma sidecar_not_part n k : sidecar n ≠ part k.
Proof. intros H%(f_equal last). unfold sidecar, part in H. rewrite (last_kind n (u ".sha256") 54%N eq_refl), (last_kind k (u ".part") 116%N eq_refl) in H; discriminate H. Qed.

Lemma tarball_name_tar v b facts n : tarball_name v b facts = Ok n → is_tar n.
Proof.
  unfold tarball_name. intros (p & _ & (a & _ & H)%bind_Ok)%bind_Ok.
  assert (n = ((v ++ u "-IBM-MQ-Advanced-for-Developers-") ++ p ++ a) ++ TARBALL_SUFFIX) as ->
    by (rewrite <-!app_assoc; congruence).
  by apply last_kind.
Qed.

Lemma art_play_app m l k : art_play m (l ++ k) = art_play (art_play m l) k.
Proof. apply foldl_app. Qed.

Lemma art_appends m p c chunks :
  art_play (<[p := c]> m) (Append p <$> chunks) = <[p := c ++ mjoin chunks]> m.
Proof.
  revert c. induction chunks as [|x chunks IH]; intros c; [cbn; by rewrite app_nil_r|].
  rewrite fmap_cons. change (art_play ?m0 (Append p x :: ?l)) with (art_play (art_apply m0 (Append p x)) l).
  cbn [art_apply]. rewrite alter_insert_eq, IH. cbn [mjoin list_join]. by rewrite <-app_assoc.
Qed.

Section correct.
Context (sha256 : text → text) (lower : text → text) (download : text → Download).

(** Whole downloads. *)
Definition whole (n c : text) : Prop :=
  dl_ok (download (mq_tarball_url n)) = true ∧ c = mjoin (dl_chunks (download (mq_tarball_url n))).

(** What a run may change: no file that was there, downloads in progress aside; and a tarball
    that appears is a whole download. *)
Record grows (m m' : mq_cache) : Prop := mk_grows {
  gr_kept : ∀ k c, (∀ n, k ≠ part n) → m !! k = Some c → m' !! k = Some c;
  gr_new : ∀ k, is_tar k → m !! k = None → m' !! k = None ∨ ∃ c, m' !! k = Some c ∧ whole k c
}.

Lemma grows_refl m : grows m m.
Proof. split; [done|by left]. Qed.

Lemma grows_trans m1 m2 m3 : grows m1 m2 → grows m2 m3 → grows m1 m3.
Proof.
  intros [Hk1 Hn1] [Hk2 Hn2]. split; [by eauto|]. intros k Hk Hm.
  destruct (Hn1 k Hk Hm) as [H|(c & H & Hw)]; [by apply Hn2|]. right. exists c. split; [|done].
  apply Hk2; [|done]. intros n. by apply tar_not_part.
Qed.

(** Cut anywhere, a list of operations only makes the cache grow. *)
Definition safe (m : mq_cache) (l : list ArtOp) : Prop := ∀ pre, pre `prefix_of` l → grows m (art_play m pre).

Lemma safe_nil m : safe m [].
Proof. intros pre ->%prefix_nil_inv. apply grows_refl. Qed.

Lemma safe_app m l k : safe m l → safe (art_play m l) k → safe m (l ++ k).
Proof.
  intros Hl Hk pre [Hpre|(q & -> & Hq)]%prefix_app_cases; [by apply Hl|]. rewrite art_play_app.
  eapply grows_trans; [apply (Hl l); done|by apply Hk].
Qed.

Lemma safe_one m o : grows m (art_apply m o) → safe m [o].
Proof.
  intros Ho pre Hpre. destruct pre as [|o' pre]; [apply grows_refl|]. apply prefix_cons_inv_1 in Hpre as Heq.
  apply prefix_cons_inv_2, prefix_nil_inv in Hpre as ->. by subst.
Qed.

Lemma grows_insert_new m k c : m !! k = None → ¬ is_tar k → grows m (<[k := c]> m).
Proof.
  intros Hk Ht. split.
  - intros k' c' _ Hk'. rewrite lookup_insert_ne; [done|]. intros ->. congruence.
  - intros k' Ht' Hk'. left. rewrite lookup_insert_ne; [done|]. by intros ->.
Qed.

Lemma grows_touch m m' n : (∀ k, k ≠ part n → m' !! k = m !! k) → grows m m'.
Proof.
  intros H. split.
  - intros k c Hk Hm. by rewrite H.
  - intros k Ht Hm. left. rewrite H; [done|by apply tar_not_part].
Qed.

Lemma safe_touch m n l : Forall (λ o, o = Create (part n) ∨ ∃ c, o = Append (part n) c) l → safe m l.
Proof.
  intros Hl. revert m. induction Hl as [|o l Ho _ IH]; intros m; [apply safe_nil|].
  apply (safe_app m [o] l); [|apply IH]. apply safe_one, (grows_touch _ _ n). intros k Hk.
  destruct Ho as [->|[c ->]]; cbn [art_apply]; [by rewrite lookup_insert_ne|by rewrite lookup_alter_ne].
Qed.

(** A rename of a whole download onto a free name. *)
Lemma grows_rename m n c : is_tar n → m !! n = None → m !! part n = Some c → whole n c → grows m (art_apply m (Rename (part n) n)).
Proof.
  intros Ht Hn Hp Hw. cbn [art_apply]. rewrite Hp. split.
  - intros k c' Hk Hm. rewrite lookup_insert_ne by (intros ->; congruence). rewrite lookup_delete_ne; [done|].
    intros <-. by apply (Hk n).
  - intros k Hk Hm. destruct (decide (k = n)) as [->|Hne].
    + right. exists c. by rewrite lookup_insert_eq.
    + left. rewrite lookup_insert_ne by done. by rewrite lookup_delete_None; right.
Qed.

Lemma sidecar_not_tar n : ¬ is_tar (sidecar n).
Proof. intros H. by apply (tar_not_sidecar (sidecar n) n H). Qed.

Abbreviation downloaded := (download_mq_tarball sha256 download).
Abbreviation verified := (verify_sha256 sha256 lower).
Abbreviation ensured := (ensure_one sha256 lower download).

(** The state after the pieces of a download, and after its rename. *)
Lemma play_download m n :
  art_play m (Create (part n) :: (Append (part n) <$> dl_chunks (download (mq_tarball_url n)))) =
  <[part n := mjoin (dl_chunks (download (mq_tarball_url n)))]> m.
Proof.
  change (art_play m (Create (part n) :: ?l)) with (art_play (<[part n := []]> m) l). by rewrite art_appends.
Qed.

Lemma safe_downloaded m n : is_tar n → m !! n = None → safe m (downloaded n m).1.
Proof.
  intros Ht Hn. unfold download_mq_tarball. set (dl := download _). rewrite then_trace. cbn [fst snd].
  apply safe_app.
  { apply (safe_touch m n). constructor; [by left|]. apply Forall_fmap, Forall_forall. intros c _. right. by exists c. }
  subst dl. rewrite play_download. destruct (dl_ok (download (mq_tarball_url n))) eqn:Hok; cbn [then_ emit quiet fst snd]; [|apply safe_nil].
  set (m1 := <[part n := _]> m).
  assert (grows m1 (art_apply m1 (Rename (part n) n))) as Hr.
  { apply (grows_rename m1 n (mjoin (dl_chunks (download (mq_tarball_url n))))); [done| |by apply lookup_insert_eq|by split].
    unfold m1. rewrite lookup_insert_ne; [done|]. intros Heq. symmetry in Heq. by eapply tar_not_part. }
  apply (safe_app m1 [Rename (part n) n]); [by apply safe_one|].
  destruct (m !! sidecar n) as [s|] eqn:Hs; cbn [fst]; [apply safe_nil|]. apply safe_one, grows_insert_new; [|apply sidecar_not_tar].
  cbn [art_play foldl art_apply]. unfold m1. rewrite lookup_insert_eq.
  rewrite lookup_insert_ne by (intros Heq; by apply (tar_not_sidecar n n)).
  rewrite lookup_delete_ne by (intros Heq; by apply (sidecar_not_part n n)).
  rewrite lookup_insert_ne; [done|]. intros Heq. by apply (sidecar_not_part n n).
Qed.

Lemma safe_verified m n : safe m (verified n m).1.
Proof.
  unfold verify_sha256. destruct (m !! n) as [c|] eqn:Hn; cbn [of_option quiet then_ fst snd]; [|apply safe_nil].
  unfold then_. cbn [fst snd app]. destruct (m !! sidecar n) as [s|] eqn:Hs; cbn [fst].
  - destruct (split_ws s); apply safe_nil.
  - apply (safe_app m [Write (sidecar n) (digest_line sha256 n c)]); apply safe_one; [|apply grows_refl].
    apply grows_insert_new; [done|apply sidecar_not_tar].
Qed.

Lemma safe_ensured m n : is_tar n → safe m (ensured m n).1.
Proof.
  intros Ht. unfold ensure_one. set (f := match m !! n with Some _ => _ | None => _ end).
  assert (safe m f.1) as Hf by (unfold f; destruct (m !! n) eqn:Hn; [apply safe_nil|by apply safe_downloaded]).
  rewrite then_trace. apply safe_app; [done|]. destruct f.2 as [[]|e]; [|apply safe_nil].
  rewrite then_trace. apply safe_app; [apply safe_verified|]. destruct (verified n (art_play m f.1)).2 as [[]|e]; apply safe_nil.
Qed.

Lemma ensured_play m n m' : (ensured m n).2 = Ok m' → m' = art_play m (ensured m n).1.
Proof.
  unfold ensure_one. set (f := match m !! n with Some _ => _ | None => _ end). intros ([] & Hf & ([] & Hv & [= <-])%then_Ok)%then_Ok.
  rewrite (then_trace_Ok _ _ _ Hf), (then_trace_Ok _ _ _ Hv). cbn [quiet fst]. by rewrite app_nil_r, art_play_app.
Qed.

Lemma safe_names names m : Forall is_tar names → safe m (fold_trace ensured m names).1.
Proof.
  intros Hn. revert m. induction Hn as [|n names Ht _ IH]; intros m; [apply safe_nil|]. cbn [fold_trace]. rewrite then_trace.
  apply safe_app; [by apply safe_ensured|]. destruct (ensured m n).2 as [m'|e] eqn:Hm; [|apply safe_nil].
  rewrite <-(ensured_play _ _ _ Hm). apply IH.
Qed.

(** ** What a run that succeeds has verified *)

(** What [hexdigest] documents: a word of lower-case hexadecimal digits. *)
Context (Hhex : ∀ c, word_ok (sha256 c) ∧ lower (sha256 c) = sha256 c).

(** A tarball that is there, with the digest its sidecar records. *)
Definition trusted (m : mq_cache) (n : text) : Prop :=
  ∃ c s w ws, m !! n = Some c ∧ m !! sidecar n = Some s ∧ split_ws s = w :: ws ∧ lower (strip w) = sha256 c.

Lemma lstrip_word (w : text) : Forall (λ c, is_space c = false) w → lstrip_by is_space w = w.
Proof. by destruct 1 as [|c w Hc _]; [|cbn [lstrip_by]; rewrite Hc]. Qed.

Lemma strip_word w : word_ok w → strip w = w.
Proof.
  intros [_ Hw]. unfold strip, rstrip, rstrip_by, lstrip. rewrite (lstrip_word w) by done.
  rewrite (lstrip_word (rev w)) by by apply Forall_rev. apply rev_involutive.
Qed.

Lemma digest_line_reads n c : ∃ ws, split_ws (digest_line sha256 n c) = sha256 c :: ws.
Proof.
  unfold digest_line. change (u "  ") with [32%N; 32%N]. cbn [app]. destruct (Hhex c) as [Hw _]. rewrite split_ws_word by done. by eexists.
Qed.

Lemma trusted_line m n c : m !! n = Some c → m !! sidecar n = Some (digest_line sha256 n c) → trusted m n.
Proof.
  intros Hn Hs. destruct (digest_line_reads n c) as [ws Hws]. exists c, (digest_line sha256 n c), (sha256 c), ws.
  destruct (Hhex c) as [Hw Hl]. by rewrite strip_word.
Qed.

Lemma verified_trusted m n : is_tar n → (verified n m).2 = Ok () → trusted (art_play m (verified n m).1) n.
Proof.
  intros Ht. unfold verify_sha256. destruct (m !! n) as [c|] eqn:Hn; cbn [of_option quiet then_ fst snd]; [|done].
  unfold then_. cbn [fst snd app]. destruct (m !! sidecar n) as [s|] eqn:Hs; cbn [fst snd].
  - destruct (split_ws s) as [|w ws] eqn:Hws; cbn [quiet fst snd]; [done|]. case_bool_decide as Heq; [|done]. intros _.
    by exists c, s, w, ws.
  - intros _. cbn [art_play foldl art_apply]. apply (trusted_line _ _ c); [|apply lookup_insert_eq].
    rewrite lookup_insert_ne; [done|]. intros Heq. by apply (tar_not_sidecar n n Ht).
Qed.

Lemma trusted_grows m m' n : is_tar n → grows m m' → trusted m n → trusted m' n.
Proof.
  intros Ht [Hk _] (c & s & w & ws & Hn & Hs & Hws & Hw). exists c, s, w, ws.
  split_and!; [apply Hk; [intros k; by apply tar_not_part|done]|apply Hk; [intros k; apply sidecar_not_part|done]|done..].
Qed.

Lemma ensured_trusted m n m' : is_tar n → (ensured m n).2 = Ok m' → trusted m' n.
Proof.
  intros Ht. unfold ensure_one. set (f := match m !! n with Some _ => _ | None => _ end).
  intros ([] & Hf & ([] & Hv & [= <-])%then_Ok)%then_Ok. by apply verified_trusted.
Qed.

Lemma trusted_again m n : trusted m n → ensured m n = ([], Ok m).
Proof.
  intros (c & s & w & ws & Hn & Hs & Hws & Hw). unfold ensure_one, then_, quiet. rewrite Hn. cbn [fst snd art_play foldl app].
  unfold verify_sha256, then_, quiet. rewrite Hn. cbn [of_option fst snd]. rewrite Hs, Hws, Hw, bool_decide_eq_true_2 by done. done.
Qed.

Lemma names_trusted names m m' :
  Forall is_tar names → (fold_trace ensured m names).2 = Ok m' →
  m' = art_play m (fold_trace ensured m names).1 ∧ Forall (trusted m') names.
Proof.
  intros Hn. revert m. induction Hn as [|n names Ht Hns IH]; intros m; [by intros [= <-]|]. cbn [fold_trace].
  intros (m1 & H1 & H2)%then_Ok. destruct (IH _ H2) as [Heq Htr]. rewrite (then_trace_Ok _ _ _ H1), art_play_app.
  rewrite <-(ensured_play _ _ _ H1). split; [done|]. constructor; [|done].
  eapply trusted_grows; [done| |by eapply ensured_trusted]. rewrite Heq. by apply (safe_names names m1 Hns).
Qed.

Lemma names_again names m : Forall (trusted m) names → fold_trace ensured m names = ([], Ok m).
Proof.
  induction 1 as [|n names Hn _ IH]; [done|]. cbn [fold_trace]. unfold then_. rewrite (trusted_again _ _ Hn). cbn [fst snd]. by rewrite IH.
Qed.

(** C31. The cache of MQ tarballs can be trusted. Cut a run anywhere, whatever the downloads
    do: no file of the cache that was there is changed (what is being downloaded aside), and
    a tarball that appears is a download that ended well, whole. A run that succeeds gives
    the boxes' tarballs, each once and in order, each in the cache with the digest its
    sidecar records; asking again fetches, writes and says nothing, and gives the same. A
    tarball whose sidecar records another digest is refused. *)
Theorem tarballs_trusted facts boxes v m names :
  res_mapM (λ b, tarball_name v b facts) boxes = Ok names →
  let run := ensure_mq_tarballs_for_boxes sha256 lower download facts boxes v in
  (∀ pre, pre `prefix_of` (run m).1 → grows m (art_play m pre)) ∧
  (∀ paths, (run m).2 = Ok paths →
     let m' := art_play m (run m).1 in
     paths = sorted_text (uniq names) ∧ Forall (trusted m') paths ∧ run m' = ([], Ok paths)) ∧
  (∀ n c s w ws, n ∈ names → m !! n = Some c → m !! sidecar n = Some s → split_ws s = w :: ws →
     lower (strip w) ≠ sha256 c → ∃ e, (run m).2 = Err e).
Proof.
  intros Hnames run. assert (∀ m, run m = ensure_names sha256 lower download (sorted_text (uniq names)) m) as Hrun.
  { intros m0. unfold run, ensure_mq_tarballs_for_boxes, then_, quiet. rewrite Hnames. cbn [fst snd app].
    by destruct (ensure_names sha256 lower download (sorted_text (uniq names)) m0). }
  assert (∀ n, n ∈ sorted_text (uniq names) ↔ n ∈ names) as Hin.
  { intros n. unfold sorted_text. by rewrite elem_of_isort, elem_of_uniq. }
  assert (Forall is_tar (sorted_text (uniq names))) as Htar.
  { apply Forall_forall. intros n Hn%Hin. destruct (res_mapM_elem _ _ _ _ Hnames Hn) as (b & _ & Hb). by eapply tarball_name_tar. }
  assert (∀ m, (run m).1 = (fold_trace ensured m (sorted_text (uniq names))).1 ∧
    ∀ paths, (run m).2 = Ok paths → paths = sorted_text (uniq names) ∧ ∃ m', (fold_trace ensured m (sorted_text (uniq names))).2 = Ok m') as Hcases.
  { intros m0. rewrite Hrun. unfold ensure_names, then_, quiet. destruct (fold_trace _ m0 _) as [tr [m'|e]]; cbn [fst snd];
      [rewrite app_nil_r|]; (split; [done|]); [intros paths [= <-]; by split; [|exists m']|done]. }
  destruct (Hcases m) as [Htr Hok].
  assert (∀ paths, (run m).2 = Ok paths → Forall (trusted (art_play m (run m).1)) (sorted_text (uniq names))) as Htrust.
  { intros paths Hp. destruct (Hok paths Hp) as (_ & m' & Hm'). destruct (names_trusted _ _ _ Htar Hm') as [Heq Hall].
    by rewrite Htr, <-Heq. }
  split_and!.
  - rewrite Htr. by apply safe_names.
  - intros paths Hp m'. destruct (Hok paths Hp) as [-> _]. split; [done|]. pose proof (Htrust _ Hp) as Hall. split; [done|].
    subst m'. rewrite (Hrun (art_play m (run m).1)). unfold ensure_names, then_, quiet. by rewrite (names_again _ _ Hall).
  - intros n c s w ws Hn Hc Hs Hws Hne. destruct (run m).2 as [paths|e] eqn:Hr; [|by exists e]. exfalso.
    pose proof (Htrust _ eq_refl) as Hall. rewrite Forall_forall in Hall.
    destruct (Hall n (proj2 (Hin n) Hn)) as (c' & s' & w' & ws' & Hc' & Hs' & Hws' & Hw').
    assert (grows m (art_play m (run m).1)) as [Hkept _] by (rewrite Htr; by apply (safe_names _ m Htar)).
    assert (is_tar n) as Ht by (rewrite Forall_forall in Htar; by apply Htar, Hin).
    rewrite (Hkept n c (λ k, tar_not_part n k Ht) Hc) in Hc'. rewrite (Hkept _ s (sidecar_not_part n) Hs) in Hs'. congruence.
Qed.
End correct.

(** ** Two boxes that share a tarball, on an empty cache *)

Definition demo_os (family : string) (pin : option text) : OsEntry :=
  mk_os (mk_ref (u family) 24) (u "base") None None None pin [] None None.
Definition demo_box (name family : string) (pin : option text) : BoxEntry :=
  mk_box (u name) (u "mq") (demo_os family pin) (u name) true [].
Definition demo_mq_fetch (src : text) : Download := mk_download [u "mq "; u "bytes"] true.


Lemma demo_hex c : word_ok (demo_sha c) ∧ lower_ascii (demo_sha c) = demo_sha c.
Proof.
  unfold demo_sha. set (n := N.of_nat (length c)). pose proof (N_text_digits n) as Hd. split; [split|].
  - destruct (N_text_cons n) as (d & s & -> & _). done.
  - eapply List.Forall_impl, Hd. cbn beta. intros d Hdig. unfold is_space.
    rewrite !orb_false_iff, !andb_false_iff, !N.leb_gt, !N.eqb_neq. lia.
  - unfold lower_ascii. induction Hd as [|d s Hdig _ IH]; [done|]. rewrite fmap_cons, IH.
    assert (((65 <=? d) && (d <=? 90))%N = false) as -> by (apply andb_false_iff; left; apply N.leb_gt; lia). done.
Qed.

Definition demo_boxes : list BoxEntry :=
  [demo_box "b1" "ubuntu" None; demo_box "b2" "rhel" (Some (u "x86_64")); demo_box "b3" "ubuntu" None].

Lemma tarballs_trusted_witness :
  ∃ names, res_mapM (λ b, tarball_name (u "9.4.0.0") b demo_x86) demo_boxes = Ok names ∧
    let run := ensure_mq_tarballs_for_boxes demo_sha lower_ascii demo_mq_fetch demo_x86 demo_boxes (u "9.4.0.0") in
    length (sorted_text (uniq names)) = 2 ∧
    ∃ paths, (run ∅).2 = Ok paths ∧ run (art_play ∅ (run ∅).1) = ([], Ok paths).
Proof.
  destruct (res_mapM (λ b, tarball_name (u "9.4.0.0") b demo_x86) demo_boxes) as [names|e] eqn:Hn; [|by vm_compute in Hn].
  pose proof (tarballs_trusted demo_sha lower_ascii demo_mq_fetch demo_hex demo_x86 demo_boxes (u "9.4.0.0") ∅ names Hn) as (_ & Hok & _).
  exists names. split; [exact eq_refl|]. split; [vm_compute in Hn; injection Hn as <-; vm_compute; exact eq_refl|].
  destruct (ensure_mq_tarballs_for_boxes demo_sha lower_ascii demo_mq_fetch demo_x86 demo_boxes (u "9.4.0.0") ∅).2 as [paths|e] eqn:Hr.
  - exists paths. split; [exact eq_refl|]. apply (Hok paths eq_refl).
  - exfalso. clear Hok. vm_compute in Hr. discriminate Hr.
Defined.
