(* ===== verification/Shell.v ===== *)
(** * Command lines as a shell reads them

    Models shlex.quote and shlex.join, which build the command lines mqlab sends through a
    shell, and gives a reader of the words of a POSIX command line, which refuses any
    unquoted character the shell would interpret. *)

From S2P Require Import Prelude PyText.

(** ** shlex *)

(** [[^\w@%+=:,./-]], ASCII. *)
Definition is_word_ascii (c : N) : bool :=
  (((48 <=? c) && (c <=? 57)) || ((65 <=? c) && (c <=? 90)) || (c =? 95) || ((97 <=? c) && (c <=? 122)))%N.
Definition shell_safe (c : N) : bool := is_word_ascii c || bool_decide (c ∈ u "@%+=:,./-").

Definition SQ : N := 39.
Definition DQ : N := 34.

Definition quote (s : text) : text :=
  match s with
  | [] => u "''"
  | _ => if forallb shell_safe s then s else SQ :: replace_char SQ [SQ; DQ; SQ; DQ; SQ] s ++ [SQ]
  end.

Definition join (argv : list text) : text := str_join (u " ") (quote <$> argv).

(** ** A reader *)

(** What an unquoted character may be: one the shell takes as it is. *)
Definition literal (c : N) : bool :=
  negb (bool_decide (c ∈ u "|&;<>()$`\*?[]#~{}!^" ++ [SQ; DQ]) || is_space c).

Inductive mode := Plain | Single | Double.

(** The word being read, reversed; [None] between words. *)
Fixpoint words (m : mode) (cur : option text) (s : text) : option (list text) :=
  match s with
  | [] => match m, cur with
          | Plain, None => Some []
          | Plain, Some w => Some [rev w]
          | _, _ => None                          (* an open quote *)
          end
  | c :: s =>
      let add := c :: default [] cur in
      match m with
      | Plain =>
          if (c =? 32)%N || (c =? 9)%N then
            ws ← words Plain None s;
            Some (match cur with Some w => rev w :: ws | None => ws end)
          else if (c =? SQ)%N then words Single (Some (default [] cur)) s
          else if (c =? DQ)%N then words Double (Some (default [] cur)) s
          else if literal c then words Plain (Some add) s else None
      | Single => if (c =? SQ)%N then words Plain cur s else words Single (Some add) s
      | Double =>
          if (c =? DQ)%N then words Plain cur s
          else if bool_decide (c ∈ u "$`\!") then None else words Double (Some add) s
      end
  end.
Definition shell_words (s : text) : option (list text) := words Plain None s.

(** ** What was joined is read back *)

Lemma safe_literal c : shell_safe c = true → literal c = true ∧ (c ≠ 32)%N ∧ (c ≠ 9)%N ∧ c ≠ SQ ∧ c ≠ DQ.
Proof.
  unfold shell_safe, is_word_ascii. intros Hc.
  assert ((48 ≤ c ≤ 57 ∨ 65 ≤ c ≤ 90 ∨ c = 95 ∨ 97 ≤ c ≤ 122)%N ∨ c ∈ u "@%+=:,./-") as Hcase.
  { rewrite !orb_true_iff, !andb_true_iff, !N.leb_le, N.eqb_eq, bool_decide_eq_true in Hc. tauto. }
  assert (Forall (λ c, literal c = true ∧ (c ≠ 32)%N ∧ (c ≠ 9)%N ∧ c ≠ SQ ∧ c ≠ DQ)
    (filter (λ c, shell_safe c = true) (N.of_nat <$> seq 0 128))) as Hall by (apply (bool_decide_unpack _); by vm_compute).
  rewrite Forall_forall in Hall. apply Hall. apply list_elem_of_filter. split.
  - unfold shell_safe, is_word_ascii. exact Hc.
  - assert (c < 128)%N as Hlt.
    { destruct Hcase as [H|H]; [lia|]. assert (Forall (λ c, (c < 128)%N) (u "@%+=:,./-")) as Hs by (apply (bool_decide_unpack _); by vm_compute).
      rewrite Forall_forall in Hs. by apply Hs. }
    apply list_elem_of_fmap. exists (N.to_nat c). split; [by rewrite N2Nat.id|]. apply elem_of_seq. lia.
Qed.

Lemma words_safe s cur rest :
  forallb shell_safe s = true → s ≠ [] →
  words Plain cur (s ++ rest) = words Plain (Some (rev s ++ default [] cur)) rest.
Proof.
  revert cur. induction s as [|c s IH]; intros cur; [done|]. cbn [forallb app words]. rewrite andb_true_iff. intros [Hc Hs] _.
  destruct (safe_literal c Hc) as (Hl & H32 & H9 & Hsq & Hdq).
  rewrite (proj2 (N.eqb_neq c 32) H32), (proj2 (N.eqb_neq c 9) H9), (proj2 (N.eqb_neq c SQ) Hsq), (proj2 (N.eqb_neq c DQ) Hdq).
  cbn [orb]. rewrite Hl. destruct s as [|d s]; [done|]. rewrite IH by done. cbn [default rev]. by rewrite <-!app_assoc.
Qed.

(** Inside single quotes. *)
Lemma words_single s cur rest :
  words Single (Some cur) (replace_char SQ [SQ; DQ; SQ; DQ; SQ] s ++ SQ :: rest) = words Plain (Some (rev s ++ cur)) rest.
Proof.
  revert cur. induction s as [|c s IH]; intros cur; [done|].
  assert (replace_char SQ [SQ; DQ; SQ; DQ; SQ] (c :: s) =
    (if (c =? SQ)%N then [SQ; DQ; SQ; DQ; SQ] else [c]) ++ replace_char SQ [SQ; DQ; SQ; DQ; SQ] s) as -> by done.
  rewrite <-app_assoc. destruct (N.eqb_spec c SQ) as [->|Hc].
  - cbn. rewrite IH. by rewrite <-app_assoc.
  - cbn [app words]. rewrite (proj2 (N.eqb_neq c SQ) Hc). cbn [default]. rewrite IH. cbn [rev]. by rewrite <-app_assoc.
Qed.

Lemma words_quote s rest : words Plain None (quote s ++ rest) = words Plain (Some (rev s)) rest.
Proof.
  destruct s as [|c s]; [done|]. unfold quote. destruct (forallb shell_safe (c :: s)) eqn:Hs.
  - by rewrite words_safe, app_nil_r.
  - assert (∀ q, words Plain None ((SQ :: q ++ [SQ]) ++ rest) = words Single (Some []) (q ++ SQ :: rest)) as ->
      by (intros q; cbn; by rewrite <-app_assoc).
    rewrite words_single. by rewrite app_nil_r.
Qed.

(** The words of joined arguments are the arguments, whatever is in them. *)
Lemma words_join argv : shell_words (join argv) = Some argv.
Proof.
  unfold shell_words, join. induction argv as [|a argv IH]; [done|]. rewrite fmap_cons. destruct argv as [|b argv].
  - cbn [fmap list_fmap str_join]. rewrite <-(app_nil_r (quote a)), words_quote. cbn. by rewrite rev_involutive.
  - rewrite str_join_cons by done. rewrite words_quote. change (u " ") with [32%N] in *. cbn [app words N.eqb Pos.eqb orb].
    rewrite IH. cbn [mbind option_bind]. by rewrite rev_involutive.
Qed.
