(* ===== verification/E2e.v ===== *)
(** * The end-to-end burst

    Models mqlab/e2e.py: the parameters of a bounded request/reply burst, derived from the
    stack, its provision playbook and a role's defaults, and the command line run on the
    application host. What reading and parsing a YAML file gives is an input. *)

From S2P Require Import Prelude PyText PyCodec PyDict Hostfacts Versions VersionsLoad Stacks Shell Orchestrator.

Inductive E2EError :=
  | NoProvision (stack : text) | CannotRead (path : text) | BadYaml (path : text)
  | NotAPlaybook (path : text) | NotImportedOnce (path : text) (found : nat) | VarsNotMapping (path : text)
  | NotAString (what path : text) | Templated (what path : text) | TlsNotBoolean (path : text)
  | DefaultsNotMapping (path : text) | NoAppHosts.

Definition SHARED_PLAYBOOK : text := u "site-distributed-shared.yml".
Definition DEFAULTS_PATH : text := u "ansible/roles/app-requester/defaults/main.yml".
Definition APP_GROUP : text := u "app".
Definition REQUESTER_BIN : text := u "/opt/logical-minds-foundry/mq-resiliency-clients/venv/bin/mq-app-requester".
Definition MQ_LIB_PATH : text := u "/opt/mqm/lib64".

Record E2EParams := mk_e2e {
  e2_host : text; e2_qm : text; e2_conn : text; e2_channel : text; e2_tls : bool; e2_keyrepo : text; e2_certlabel : text
}.

(** [p in s] of two strings. *)
Definition contains_text (p s : text) : bool := bool_decide (is_Some (find_sub p s)).

(** [_literal]. *)
Definition literal_text (v : option pyval) (what source : text) : res E2EError text :=
  match v with
  | Some (PyStr s) =>
      if bool_decide (strip s = []) then Err (NotAString what source)
      else if contains_text (u "{{") s || contains_text (u "{%") s then Err (Templated what source)
      else Ok (strip s)
  | _ => Err (NotAString what source)
  end.

(** A play that imports the shared playbook. *)
Definition shared_import (p : pyval) : option (list (pyval * pyval)) :=
  match p with
  | PyDict d => match yget d (u "import_playbook") with
                | Some (PyStr s) => if decide (s = SHARED_PLAYBOOK) then Some d else None
                | _ => None
                end
  | _ => None
  end.

Section e2e.
(** [_load_yaml] of a path below the repository. *)
Context (load : text → res E2EError pyval).

Definition shared_import_vars (playbook : text) : res E2EError (list (pyval * pyval)) :=
  plays ← load playbook;
  match plays with
  | PyList l =>
      match omap shared_import l with
      | [d] => of_option (VarsNotMapping playbook) (or_dict (yget d (u "vars")))
      | ds => Err (NotImportedOnce playbook (length ds))
      end
  | _ => Err (NotAPlaybook playbook)
  end.

Definition tls_of (v : option pyval) (playbook : text) : res E2EError bool :=
  match v with
  | None | Some PyNone => Ok true
  | Some (PyBool b) => Ok b
  | Some _ => Err (TlsNotBoolean playbook)
  end.

Definition derive (s : Stack) (t : Topo) : res E2EError E2EParams :=
  playbook ← of_option (NoProvision (s_name s)) (or_none (s_provision s));
  found ← shared_import_vars playbook;
  conn ← literal_text (yget found (u "app_conn")) (u "app_conn") playbook;
  tls ← tls_of (yget found (u "app_tls")) playbook;
  defaults ← load DEFAULTS_PATH;
  match defaults with
  | PyDict d =>
      let get key := literal_text (yget d key) key DEFAULTS_PATH in
      channel ← get (u "app_requester_channel");
      keyrepo ← get (u "app_requester_keyrepo");
      certlabel ← get (u "app_requester_certlabel");
      match hosts_of t APP_GROUP with
      | [] => Err NoAppHosts
      | host :: _ => Ok (mk_e2e host (qm_app (s_qm s)) conn channel tls keyrepo certlabel)
      end
  | _ => Err (DefaultsNotMapping DEFAULTS_PATH)
  end.
End e2e.

(** The requester's arguments. *)
Definition requester_argv (p : E2EParams) (count : Z) : list text :=
  [REQUESTER_BIN; u "--qm"; e2_qm p; u "--conn"; e2_conn p; u "--channel"; e2_channel p; u "--count"; Z_text count] ++
  if e2_tls p then [u "--keyrepo"; e2_keyrepo p; u "--certlabel"; e2_certlabel p] else [].

Definition LIBRARY_PATH : text := u "LD_LIBRARY_PATH=" ++ MQ_LIB_PATH.

Definition remote_command (p : E2EParams) (count : Z) : text := LIBRARY_PATH ++ u " " ++ join (requester_argv p count).

(** ** What the host runs *)

(** A string the playbook or the role's defaults give as it is: not blank, not templated. *)
Definition given (v : option pyval) (x : text) : Prop :=
  ∃ s, v = Some (PyStr s) ∧ x = strip s ∧ x ≠ [] ∧ find_sub (u "{{") s = None ∧ find_sub (u "{%") s = None.

Lemma literal_given v what source x : literal_text v what source = Ok x → given v x.
Proof.
  unfold literal_text, contains_text. destruct v as [[]|]; try done. case_bool_decide as Hs; [done|].
  destruct (find_sub (u "{{") s) as [i|] eqn:H1; [done|]. destruct (find_sub (u "{%") s) as [i|] eqn:H2; [done|].
  intros [= <-]. by exists s.
Qed.

(** The burst runs what the lab deploys: when the parameters can be derived, the queue
    manager is the stack's, the host the first of the app group, the connection and the
    requester's settings are strings the one import of the shared playbook and the role's
    defaults give, none blank or templated; and the shell of the host, reading the command
    line, runs the requester with exactly these arguments, whatever characters they have,
    the keystore only with TLS. *)
Theorem e2e_command load s t p :
  derive load s t = Ok p →
  e2_qm p = qm_app (s_qm s) ∧ head (hosts_of t APP_GROUP) = Some (e2_host p) ∧
  (∃ playbook l d vars defaults, s_provision s = Some playbook ∧ load playbook = Ok (PyList l) ∧
     omap shared_import l = [d] ∧ or_dict (yget d (u "vars")) = Some vars ∧ load DEFAULTS_PATH = Ok (PyDict defaults) ∧
     given (yget vars (u "app_conn")) (e2_conn p) ∧
     (e2_tls p = false ↔ yget vars (u "app_tls") = Some (PyBool false)) ∧
     given (yget defaults (u "app_requester_channel")) (e2_channel p) ∧
     given (yget defaults (u "app_requester_keyrepo")) (e2_keyrepo p) ∧
     given (yget defaults (u "app_requester_certlabel")) (e2_certlabel p)) ∧
  ∀ count, shell_words (remote_command p count) = Some (LIBRARY_PATH :: requester_argv p count).
Proof.
  unfold derive. intros (playbook & Hp%of_option_Ok & H)%bind_Ok. apply bind_Ok in H as (vars & Hvars & H).
  apply bind_Ok in H as (conn & Hconn%literal_given & H). apply bind_Ok in H as (tls & Htls & H).
  apply bind_Ok in H as (defs & Hdefs & H). destruct defs as [| | | | |d| ]; try done.
  apply bind_Ok in H as (ch & Hch%literal_given & H). apply bind_Ok in H as (kr & Hkr%literal_given & H).
  apply bind_Ok in H as (cl & Hcl%literal_given & H). destruct (hosts_of t APP_GROUP) as [|h hosts]; [done|].
  injection H as <-. cbn [e2_qm e2_host e2_conn e2_tls e2_channel e2_keyrepo e2_certlabel].
  split; [done|]. split; [done|]. split.
  - unfold shared_import_vars in Hvars. apply bind_Ok in Hvars as (plays & Hplays & Hvars).
    destruct plays as [| | | |l| | ]; try done. destruct (omap shared_import l) as [|d0 [|]] eqn:Hl; try done.
    apply of_option_Ok in Hvars. exists playbook, l, d0, vars, d. split_and!; try done.
    + unfold or_none in Hp. by destruct (s_provision s) as [[]|].
    + unfold tls_of in Htls. destruct (yget vars (u "app_tls")) as [[]|]; try done; injection Htls as <-; split; congruence.
  - intros count. unfold remote_command, shell_words. rewrite <-(app_nil_r LIBRARY_PATH) at 2.
    rewrite words_safe by (by vm_compute). change (u " ") with [32%N]. cbn [app words N.eqb Pos.eqb orb].
    pose proof (words_join (requester_argv (mk_e2e h (qm_app (s_qm s)) conn ch tls kr cl) count)) as Hw.
    unfold shell_words in Hw. rewrite Hw. cbn [mbind option_bind default]. by rewrite !app_nil_r, rev_involutive.
Qed.

(** [Command.display] only joins the arguments: the line read back by a shell is the command
    when every argument is a plain word, and another one when an argument has a blank. *)
Lemma display_plain c :
  Forall (λ a, a ≠ [] ∧ forallb shell_safe a = true) (cmd_argv c) → shell_words (display c) = Some (cmd_argv c).
Proof.
  intros Hall. rewrite <-(words_join (cmd_argv c)). unfold display, join. do 2 f_equal.
  induction Hall as [|a l [Hne Ha] _ IH]; [done|]. rewrite fmap_cons, <-IH. f_equal. unfold quote. destruct a; [done|]. by rewrite Ha.
Qed.

Lemma display_not_copyable :
  ∃ c, shell_words (display c) ≠ Some (cmd_argv c) ∧ cmd_argv c = [u "vagrant"; u "ssh"; u "app"; u "-c"; u "uptime -p"].
Proof.
  exists (mk_command [u "vagrant"; u "ssh"; u "app"; u "-c"; u "uptime -p"] None None). split; [|exact eq_refl].
  by vm_compute.
Qed.

(** ** A stack with a literal connection *)

Definition demo_load (path : text) : res E2EError pyval :=
  if bool_decide (path = DEFAULTS_PATH) then
    Ok (PyDict [(PyStr (u "app_requester_channel"), PyStr (u "APP.SVRCONN"));
                (PyStr (u "app_requester_keyrepo"), PyStr (u "/etc/mq keys/key"));
                (PyStr (u "app_requester_certlabel"), PyStr (u "app's"))])
  else Ok (PyList [PyDict [(PyStr (u "import_playbook"), PyStr SHARED_PLAYBOOK);
                           (PyStr (u "vars"), PyDict [(PyStr (u "app_conn"), PyStr (u "vip.a(1414),vip.b(1414)"))])]]).
Definition demo_qm : QmConfig := qm_from_stack (u "PU") [] (u "SVCQM") (u "svc(1414)").
Definition demo_stack : Stack :=
  mk_stack (u "pcmk-ubuntu") (u "pacemaker-san") (u "ubuntu") (u "PU") [] None [] [] demo_qm (Some (u "site.yml")) [] [].
Definition demo_app : Topo := mk_topo [] [(u "app", [u "app-client"])] [] [] (None, None) None (None, None) None.

Lemma e2e_command_witness :
  ∃ p, derive demo_load demo_stack demo_app = Ok p ∧ e2_qm p = u "PUAPP" ∧
    shell_words (remote_command p 5) = Some (LIBRARY_PATH :: requester_argv p 5).
Proof.
  destruct (derive demo_load demo_stack demo_app) as [p|e] eqn:Hd; [|by vm_compute in Hd].
  pose proof (e2e_command demo_load demo_stack demo_app p Hd) as (Hq & _ & _ & Hw).
  exists p. split; [exact eq_refl|]. split; [by rewrite Hq|apply Hw].
Defined.
