(* ===== verification/Operator.v ===== *)
(** * Relays, host checks and the age of the box

    Models mqlab/relay.py, mqlab/doctor.py and the messages of mqlab/coldboot.py: the reader
    of systemd's listing of port-forward relays, the preflight of a host, and the nudge to
    provision a stale box again. What systemctl prints, which tools are found and the age
    of the box are inputs. *)

From S2P Require Import Prelude PyText PyCodec PyDict Hostfacts.

(** ** relay.py *)

Inductive RelayError := Unreadable (unit line : text) | PortTooLong (line : text) | NoRelay (backend : text).

Record Relay := mk_relay { rl_unit : text; rl_port : Z; rl_target : text }.

Definition GRAFANA_BACKEND : text := u "10.50.0.2:3000".

Definition workstation_url (r : Relay) : text := u "http://localhost:" ++ Z_text (rl_port r).

(** [_DESCRIPTION] matched at the start of a text: the port's digits and the target. *)
Definition forward_here (s : text) : option (text * text) :=
  if startswith s (u "(:") then
    let '(port, r) := span re_digit (drop 2 s) in
    if bool_decide (port = []) || negb (startswith r (u " -> ")) then None
    else
      let body := rstrip (drop 4 r) in
      match rev body with
      | 41%N :: target =>
          if bool_decide (target = []) || existsb is_space target then None else Some (port, rev target)
      | _ => None
      end
  else None.

(** [_DESCRIPTION.search]. *)
Fixpoint forward_of (s : text) : option (text * text) :=
  match forward_here s with
  | Some f => Some f
  | None => match s with [] => None | _ :: s => forward_of s end
  end.

Definition read_relay (line : text) : res RelayError Relay :=
  let unit := default [] (head (split_ws line)) in
  pt ← of_option (Unreadable unit line) (forward_of line);
  port ← of_option (PortTooLong line) (int_of_text pt.1);
  Ok (mk_relay unit port pt.2).

Definition by_port (a b : Relay) : bool := (rl_port a <=? rl_port b)%Z.

Definition parse_relays (listing : text) : res RelayError (list Relay) :=
  rs ← res_mapM read_relay (filter (λ l, strip l ≠ []) (splitlines listing));
  Ok (isort by_port rs).

Definition relays_to (target : text) (listing : text) : res RelayError (list Relay) :=
  rs ← parse_relays listing;
  Ok (isort by_port (filter (λ r, rl_target r = target) rs)).

Definition grafana_relays (listing : text) : res RelayError (list Relay) :=
  rs ← relays_to GRAFANA_BACKEND listing;
  match rs with [] => Err (NoRelay GRAFANA_BACKEND) | _ => Ok rs end.

(** ** doctor.py *)

Record Check := mk_check { ck_name : text; ck_ok : bool; ck_detail : text; ck_fix : option text }.

Definition PACKAGES : list (text * (text * text)) :=
  [(u "qemu-system-x86_64", (u "qemu-system-x86", u "qemu-kvm"));
   (u "qemu-system-aarch64", (u "qemu-system-arm", u "qemu-kvm"));
   (u "virsh", (u "libvirt-clients", u "libvirt-client")); (u "vagrant", (u "vagrant", u "vagrant"));
   (u "ansible", (u "ansible", u "ansible-core")); (u "genisoimage", (u "genisoimage", u "genisoimage"))].

Definition rhel_capability (facts : HostFacts) : Check :=
  mk_check (u "rhel-stacks") true
    (if bool_decide (hf_arch facts = AARCH64) then
       u "unsupported on this aarch64 host " ++ [8212%N] ++
       u " only the Ubuntu stacks run here (the RHEL arms require an x86_64 host; #847)"
     else u "supported on this x86_64 host") None.

Definition gap_text (g : gap) : text :=
  match g with
  | LacksFlags flags => u "this host's CPU lacks " ++ str_join (u ", ") flags
  | NotX86 a => u "this host is " ++ arch_name a ++ u ", not x86_64"
  | NoKvm => u "this host has no usable KVM, and x86-64-v3 is not measured under TCG emulation, so it counts as absent"
  end.

Definition x86_64_v3_capability (facts : HostFacts) : Check :=
  mk_check (u "x86-64-v3") true
    (if hf_v3 facts then u "yes"
     else u "no " ++ [8212%N] ++ u " " ++ gap_text (x86_64_v3_gap facts) ++
          u "; OS versions that require x86-64-v3 (os.*.requires in lab/versions.yaml) are refused on this host") None.

Definition required_tools (facts : HostFacts) : list text :=
  u "qemu-system-x86_64" :: (if bool_decide (hf_arch facts = AARCH64) then [u "qemu-system-aarch64"] else []) ++
  [u "virsh"; u "vagrant"; u "ansible"; u "genisoimage"].

(** [_PACKAGES[tool]] is there for every tool that is required. *)
Definition install_hint (tool : text) (family : distro) : option text :=
  p ← dget PACKAGES tool;
  match family with
  | APT_FAMILY => Some (u "sudo apt install -y " ++ p.1)
  | DNF_FAMILY => Some (u "sudo dnf install -y " ++ p.2)
  | UNKNOWN_FAMILY => None
  end.

Definition tool_check (facts : HostFacts) (which : text → bool) (tool : text) : Check :=
  if which tool then mk_check tool true (u "found") None
  else mk_check tool false (u "missing") (install_hint tool (hf_distro facts)).

Definition kvm_check (facts : HostFacts) : Check :=
  if hf_kvm facts then mk_check (u "kvm") true (u "native /dev/kvm usable") None
  else mk_check (u "kvm") false (u "native KVM unavailable") (Some (u "enable nested virtualization / KVM for this host")).

Definition run_checks (facts : HostFacts) (which : text → bool) : list Check :=
  [rhel_capability facts; x86_64_v3_capability facts] ++
  if hf_in_vergil facts then
    [mk_check (u "vergil") true (u "Vergil-managed; prerequisites guaranteed by the profile") None]
  else kvm_check facts :: (tool_check facts which <$> required_tools facts).

Definition check_line (c : Check) : text :=
  u "[" ++ (if ck_ok c then u "ok  " else u "FAIL") ++ u "] " ++ ck_name c ++ u ": " ++ ck_detail c ++
  match ck_fix c with Some ((_ :: _) as fix_) => u "  -> " ++ fix_ | _ => [] end.

Definition summarise (checks : list Check) : bool * text :=
  (forallb ck_ok checks, str_join [10%N] (check_line <$> checks)).

(** ** coldboot.py *)

Definition QUIET_DAYS : Z := 7.
Definition LOUD_DAYS : Z := 30.

Inductive Nudge := Note (days : Z) | Loud (days : Z) | Undetermined (why : text).

(** [nudge]; the age is [None] outside a Vergil box, an [OSError]'s text when the marker
    cannot be read. *)
Definition nudge (age : res text (option Z)) : option Nudge :=
  match age with
  | Err why => Some (Undetermined why)
  | Ok None => None
  | Ok (Some days) =>
      if (days <? QUIET_DAYS)%Z then None else if (LOUD_DAYS <=? days)%Z then Some (Loud days) else Some (Note days)
  end.

(** ** What the listing says is read *)

(** A line as systemd prints it for a relay. *)
Definition relay_line (r : Relay) : text :=
  rl_unit r ++ u " loaded active running Vergil port-forward relay (:" ++ Z_text (rl_port r) ++ u " -> " ++ rl_target r ++ u ")".

Record relay_ok (r : Relay) : Prop := mk_relay_ok {
  ro_unit : word_ok (rl_unit r); ro_paren : 40%N ∉ rl_unit r;
  ro_port : (0 ≤ rl_port r)%Z; ro_short : is_Some (str_int (rl_port r));
  ro_target : word_ok (rl_target r)
}.

Lemma Z_text_re_digits z : (0 ≤ z)%Z → Forall (λ c, re_digit c = true) (Z_text z).
Proof.
  intros Hz. unfold Z_text. destruct (Z.ltb_spec z 0); [lia|]. eapply List.Forall_impl, N_text_digits. cbn beta. intros c Hc.
  assert (Forall (λ c, re_digit c = true) (N.of_nat <$> seq 48 10)) as Hall by (apply (bool_decide_unpack _); by vm_compute).
  rewrite Forall_forall in Hall. apply Hall. apply list_elem_of_fmap. exists (N.to_nat c). split; [by rewrite N2Nat.id|].
  apply elem_of_seq. lia.
Qed.

Lemma relay_line_plain r : relay_ok r → Forall (λ c, is_linebreak c = false) (relay_line r).
Proof.
  intros [[_ Hu] _ _ _ [_ Ht]]. unfold relay_line. rewrite !Forall_app.
  split_and!; [by apply word_line| |apply word_line, (Z_text_word (rl_port r))| |by apply word_line|];
    apply (bool_decide_unpack _); by vm_compute.
Qed.

Lemma forward_here_line z target :
  (0 ≤ z)%Z → word_ok target → forward_here (u "(:" ++ Z_text z ++ u " -> " ++ target ++ u ")") = Some (Z_text z, target).
Proof.
  intros Hz [Hne Ht]. unfold forward_here.
  assert (startswith (u "(:" ++ Z_text z ++ u " -> " ++ target ++ u ")") (u "(:") = true) as -> by (apply bool_decide_eq_true; by apply prefix_app_r).
  assert (drop 2 (u "(:" ++ Z_text z ++ u " -> " ++ target ++ u ")") = Z_text z ++ u " -> " ++ target ++ u ")") as -> by done.
  rewrite span_app; [| |done].
  - assert (Z_text z ≠ []) as Hz0 by (unfold Z_text; destruct (N_text_cons (Z.abs_N z)) as (c & s & -> & _); by case_match).
    rewrite bool_decide_eq_false_2 by done.
    assert (startswith (u " -> " ++ target ++ u ")") (u " -> ") = true) as -> by (apply bool_decide_eq_true; by apply prefix_app_r).
    cbn [negb orb]. assert (drop 4 (u " -> " ++ target ++ u ")") = target ++ [41%N]) as -> by done.
    assert (rstrip (target ++ [41%N]) = target ++ [41%N]) as ->.
    { by apply rstrip_by_app. }
    rewrite rev_app_distr. cbn [rev app]. rewrite bool_decide_eq_false_2 by by apply rev_ne. cbn [orb].
    assert (existsb is_space (rev target) = false) as ->; [|by rewrite rev_involutive].
    apply not_true_iff_false. intros (c & Hc%in_rev%list_elem_of_In & Hs)%existsb_exists.
    rewrite Forall_forall in Ht. specialize (Ht c Hc). cbn beta in Ht. congruence.
  - by apply Z_text_re_digits.
Qed.

Lemma forward_skip p s : (40%N ∉ p) → forward_of (p ++ s) = forward_of s.
Proof.
  induction p as [|c p IH]; intros Hp; [done|]. rewrite not_elem_of_cons in Hp. destruct Hp as [Hc Hp].
  cbn [app forward_of]. assert (forward_here (c :: p ++ s) = None) as ->; [|by apply IH].
  unfold forward_here. assert (startswith (c :: p ++ s) (u "(:") = false) as ->; [|done].
  apply bool_decide_eq_false. intros [r Hr]. change (u "(:") with [40%N; 58%N] in Hr. injection Hr as -> _. by apply Hc.
Qed.

Lemma read_relay_line r : relay_ok r → read_relay (relay_line r) = Ok r.
Proof.
  intros [Hunit Hparen Hport Hshort Htarget]. unfold read_relay, relay_line.
  assert (head (split_ws (rl_unit r ++ u " loaded active running Vergil port-forward relay (:" ++ Z_text (rl_port r) ++ u " -> " ++
    rl_target r ++ u ")")) = Some (rl_unit r)) as ->.
  { change (u " loaded active running Vergil port-forward relay (:") with (32%N :: u "loaded active running Vergil port-forward relay (:").
    cbn [app]. by rewrite split_ws_word. }
  assert (u " loaded active running Vergil port-forward relay (:" = u " loaded active running Vergil port-forward relay " ++ u "(:") as -> by done.
  rewrite <-app_assoc, app_assoc, forward_skip.
  - assert (∀ s, forward_of s = match forward_here s with Some f => Some f | None => match s with [] => None | _ :: s => forward_of s end end) as Heq
      by (by intros []).
    rewrite Heq, forward_here_line by done. cbn [of_option mbind res_bind fst snd]. rewrite int_of_Z_text by done. by destruct r.
  - rewrite not_elem_of_app. split; [done|]. apply (bool_decide_unpack _). by vm_compute.
Qed.

(** What is listed is read: a listing of relays gives exactly these, by port, and the
    relays to Grafana are those with its address, an absence being an error; and a listing
    is read as a whole: one non-blank line that names no forward fails it. *)
Theorem relays_read_back rs :
  Forall relay_ok rs →
  parse_relays (concat ((λ r, relay_line r ++ [10%N]) <$> rs)) = Ok (isort by_port rs) ∧
  (∀ listing l, l ∈ splitlines listing → strip l ≠ [] → forward_of l = None → ∃ e, grafana_relays listing = Err e) ∧
  (∀ listing gs, grafana_relays listing = Ok gs → gs ≠ [] ∧ ∀ r, r ∈ gs → rl_target r = GRAFANA_BACKEND).
Proof.
  intros Hok. split_and!.
  - unfold parse_relays. assert (splitlines (concat ((λ r, relay_line r ++ [10%N]) <$> rs)) = relay_line <$> rs) as ->.
    { rewrite <-(splitlines_concat (relay_line <$> rs)); [by rewrite <-list_fmap_compose|].
      apply Forall_fmap. eapply List.Forall_impl, Hok. intros r Hr. by apply relay_line_plain. }
    assert (filter (λ l, strip l ≠ []) (relay_line <$> rs) = relay_line <$> rs) as ->.
    { induction Hok as [|r rs Hr _ IH]; [done|]. rewrite fmap_cons, filter_cons_True, IH; [done|]. apply strip_ne_word, Hr. }
    rewrite (proj2 (res_mapM_Ok _ _ rs)); [done|].
    induction Hok as [|r rs Hr _ IH]; [constructor|]. rewrite fmap_cons. constructor; [by apply read_relay_line|done].
  - intros listing l Hl Hs Hf. unfold grafana_relays, relays_to, parse_relays.
    destruct (res_mapM read_relay (filter (λ l, strip l ≠ []) (splitlines listing))) as [rs'|e] eqn:Hm; [|by exists e].
    exfalso. destruct (res_mapM_image _ _ _ l Hm) as (r & _ & Hr); [by apply list_elem_of_filter|].
    unfold read_relay in Hr. by rewrite Hf in Hr.
  - intros listing gs. unfold grafana_relays, relays_to. intros (rs' & (rs0 & _ & [= <-])%bind_Ok & H)%bind_Ok.
    destruct (isort by_port (filter _ rs0)) as [|g gs'] eqn:Hs; [done|]. injection H as <-. split; [done|]. rewrite <-Hs.
    intros r Hr. rewrite elem_of_isort in Hr. by apply list_elem_of_filter in Hr as [? _].
Qed.

(** The preflight passes exactly on a host that can run the lab: inside Vergil, or with KVM
    and every tool its architecture needs; and on a known distribution every missing tool
    comes with its remedy. *)
Theorem doctor_exact facts which :
  ((summarise (run_checks facts which)).1 = true ↔
     hf_in_vergil facts = true ∨ (hf_kvm facts = true ∧ ∀ tool, tool ∈ required_tools facts → which tool = true)) ∧
  (hf_distro facts ≠ UNKNOWN_FAMILY → ∀ c, c ∈ run_checks facts which → ck_ok c = false → is_Some (ck_fix c)).
Proof.
  split.
  - unfold summarise, run_checks. cbn [fst]. rewrite forallb_app. cbn [forallb rhel_capability x86_64_v3_capability ck_ok andb].
    destruct (hf_in_vergil facts) eqn:Hv; [cbn; tauto|]. cbn [forallb]. rewrite andb_true_iff, forallb_forall.
    assert (ck_ok (kvm_check facts) = true ↔ hf_kvm facts = true) as -> by (unfold kvm_check; by destruct (hf_kvm facts)).
    setoid_rewrite <-list_elem_of_In. setoid_rewrite list_elem_of_fmap. split.
    + intros [Hk Ht]. right. split; [done|]. intros tool Hin. specialize (Ht (tool_check facts which tool) (ex_intro _ tool (conj eq_refl Hin))).
      unfold tool_check in Ht. by destruct (which tool).
    + intros [?|[Hk Ht]]; [done|]. split; [done|]. intros c (tool & -> & Hin). unfold tool_check. by rewrite (Ht tool Hin).
  - intros Hd c Hc Hok. unfold run_checks in Hc. cbn [app] in Hc. rewrite !elem_of_cons in Hc. destruct Hc as [->|[->|Hc]]; [done|done|].
    destruct (hf_in_vergil facts); [by apply list_elem_of_singleton in Hc as ->|].
    apply elem_of_cons in Hc as [->|(tool & -> & Hin)%list_elem_of_fmap].
    + unfold kvm_check in *. destruct (hf_kvm facts); [done|by eexists].
    + unfold tool_check in *. destruct (which tool); [done|]. cbn [ck_fix]. unfold install_hint.
      assert (is_Some (dget PACKAGES tool)) as [p ->].
      { assert (Forall (λ t, is_Some (dget PACKAGES t)) (u "qemu-system-aarch64" :: u "qemu-system-x86_64" :: [u "virsh"; u "vagrant"; u "ansible"; u "genisoimage"])) as Hall
          by (apply (bool_decide_unpack _); by vm_compute).
        rewrite Forall_forall in Hall. apply Hall. unfold required_tools in Hin. revert Hin. case_bool_decide; cbn [app]; rewrite !elem_of_cons; tauto. }
      cbn [mbind option_bind]. destruct (hf_distro facts); [by eexists..|done].
Qed.
