(* ===== verification/Prereqs.v ===== *)
(** * The prerequisites of a bootstrap's phases

    Models _ensure_prereqs_for_stack of mqlab/cli.py, which ensures what a phase declares
    before its steps run, and the record, kept over one bootstrap run, of the kinds that are
    ensured once. What each ensure does is an input: it succeeds or raises. *)

From S2P Require Import Prelude PyText Trace Orchestrator Stacks Phases.

#[local] Open Scope trace_scope.

Definition BOXES : text := u "boxes".
Definition MQ : text := u "mq".
Definition GALAXY : text := u "galaxy".
Definition PKI : text := u "pki".
Definition ONCE_PER_RUN_KINDS : list text := [GALAXY; PKI].

Inductive PrereqOp :=
  | EnsureBoxes (phase : text) | EnsureMq (phase : text)
  | SkippedKind (phase kind : text)               (* the note of a kind already ensured *)
  | RunSteps (phase : text) (kinds : list text)   (* one run of their steps, in order *)
  | VerifyCollections (phase : text).

(** How the ensures end; an exception is its exit code. *)
Record PrereqWorld := mk_pworld {
  pw_boxes : res Z (); pw_mq : res Z (); pw_steps : list text → res Z (); pw_collections : res Z ()
}.

Definition when {E A} (b : bool) (m : traced PrereqOp E A) (a : A) : traced PrereqOp E A := if b then m else quiet (Ok a).

(** [done] is the record of the run; the result is the record after. *)
Definition ensure_prereqs (w : PrereqWorld) (phase : text) (kinds done : list text) : traced PrereqOp Z (list text) :=
  let has k := bool_decide (k ∈ kinds) in
  let* _ := when (has BOXES) (emit (EnsureBoxes phase) (pw_boxes w)) () in
  let* _ := when (has MQ) (emit (EnsureMq phase) (pw_mq w)) () in
  let once := filter (λ k, k ∈ kinds) ONCE_PER_RUN_KINDS in
  let todo := filter (λ k, k ∉ done) once in
  let* _ := (SkippedKind phase <$> filter (λ k, k ∈ done) once, Ok ()) in
  let* _ := when (negb (bool_decide (todo = []))) (emit (RunSteps phase todo) (pw_steps w todo)) () in
  let* _ := when (bool_decide (GALAXY ∈ todo)) (emit (VerifyCollections phase) (pw_collections w)) () in
  quiet (Ok (done ++ todo)).

(** A run's phases, as far as their prerequisites let it come. *)
Definition ensure_run (w : text → PrereqWorld) (phases : list (text * list text)) : traced PrereqOp Z (list text) :=
  fold_trace (λ done pk, ensure_prereqs (w pk.1) pk.1 pk.2 done) [] phases.

(** The once-per-run kinds a trace runs, one entry for each time. *)
Definition kinds_run (l : list PrereqOp) : list text :=
  l ≫= λ o, match o with RunSteps _ ks => ks | _ => [] end.

Lemma kinds_run_app l k : kinds_run (l ++ k) = kinds_run l ++ kinds_run k.
Proof. apply bind_app. Qed.

Lemma kinds_run_skipped phase l : kinds_run (SkippedKind phase <$> l) = [].
Proof. induction l as [|x l IH]; [done|exact IH]. Qed.

Definition todo_of (kinds done : list text) : list text :=
  filter (λ k, k ∉ done) (filter (λ k, k ∈ kinds) ONCE_PER_RUN_KINDS).

Lemma when_emit b o r t (x : res Z ()) :
  when b (emit o r) () = (t, x) → (b = true ∧ t = [o] ∧ r = x) ∨ (b = false ∧ t = [] ∧ x = Ok ()).
Proof. destruct b; intros [= <- <-]; [by left|by right]. Qed.

(** What one phase runs: at most what is left to do, and all of it when it succeeds. *)
Lemma ensure_prereqs_spec w phase kinds done :
  (kinds_run (ensure_prereqs w phase kinds done).1 = [] ∨ kinds_run (ensure_prereqs w phase kinds done).1 = todo_of kinds done) ∧
  ∀ done', (ensure_prereqs w phase kinds done).2 = Ok done' →
    done' = done ++ todo_of kinds done ∧ kinds_run (ensure_prereqs w phase kinds done).1 = todo_of kinds done ∧
    (BOXES ∈ kinds → EnsureBoxes phase ∈ (ensure_prereqs w phase kinds done).1) ∧
    (MQ ∈ kinds → EnsureMq phase ∈ (ensure_prereqs w phase kinds done).1) ∧
    (GALAXY ∈ todo_of kinds done → VerifyCollections phase ∈ (ensure_prereqs w phase kinds done).1 ∧ pw_collections w = Ok ()).
Proof.
  unfold ensure_prereqs. fold (todo_of kinds done). set (todo := todo_of kinds done).
  destruct (when _ (emit (EnsureBoxes phase) _) ()) as [t1 r1] eqn:H1. apply when_emit in H1.
  destruct (when _ (emit (EnsureMq phase) _) ()) as [t2 r2] eqn:H2. apply when_emit in H2.
  destruct (when _ (emit (RunSteps phase todo) _) ()) as [t3 r3] eqn:H3. apply when_emit in H3.
  destruct (when _ (emit (VerifyCollections phase) _) ()) as [t4 r4] eqn:H4. apply when_emit in H4.
  assert (kinds_run t1 = [] ∧ kinds_run t2 = [] ∧ kinds_run t4 = []) as (K1 & K2 & K4)
    by (destruct H1 as [(_ & -> & _)|(_ & -> & _)], H2 as [(_ & -> & _)|(_ & -> & _)], H4 as [(_ & -> & _)|(_ & -> & _)]; done).
  assert (kinds_run t3 = todo) as K3.
  { destruct H3 as [(_ & -> & _)|(Ht%negb_false_iff%bool_decide_eq_true & -> & _)]; [cbn; by rewrite app_nil_r|by rewrite Ht]. }
  unfold then_, quiet. cbn [fst snd].
  destruct r1 as [[]|e]; cbn [fst snd]; [|rewrite K1; split; [by left|done]].
  destruct r2 as [[]|e]; cbn [fst snd]; [|rewrite kinds_run_app, K1, K2; split; [by left|done]].
  destruct r3 as [[]|e]; cbn [fst snd]; [|rewrite !kinds_run_app, K1, K2, kinds_run_skipped, K3; split; [by right|done]].
  destruct r4 as [[]|e]; cbn [fst snd]; rewrite !kinds_run_app, K1, K2, kinds_run_skipped, K3, K4; cbn [app kinds_run mbind list_bind];
    rewrite app_nil_r; (split; [by right|]); [|done].
  intros done' [= <-]. split_and!; [done|done| | |].
  - intros Hb. destruct H1 as [(_ & -> & _)|(Hb'%bool_decide_eq_false & _)]; [|done]. by left.
  - intros Hm. destruct H2 as [(_ & -> & _)|(Hm'%bool_decide_eq_false & _)]; [|done]. rewrite !elem_of_app. right; left. by left.
  - intros Hg. destruct H4 as [(_ & -> & Hc)|(Hg'%bool_decide_eq_false & _)]; [|done]. split; [|done].
    rewrite !elem_of_app. right; right; right; right; left. by left.
Qed.

Lemma todo_spec kinds done k : k ∈ todo_of kinds done ↔ k ∈ ONCE_PER_RUN_KINDS ∧ k ∈ kinds ∧ (k ∉ done).
Proof. unfold todo_of. rewrite !list_elem_of_filter. tauto. Qed.

Lemma NoDup_todo kinds done : NoDup (todo_of kinds done).
Proof. unfold todo_of. apply NoDup_filter, NoDup_filter. apply (bool_decide_unpack _). by vm_compute. Qed.

Lemma ensure_run_snoc w phases p ks :
  ensure_run w (phases ++ [(p, ks)]) =
  then_ (ensure_run w phases) (λ done, ensure_prereqs (w p) p ks done).
Proof.
  unfold ensure_run. rewrite fold_trace_app. cbn [fold_trace fst snd]. unfold then_, quiet.
  destruct (fold_trace _ [] phases) as [tr [d0|e]]; cbn [fst snd]; [|done].
  destruct (ensure_prereqs (w p) p ks d0) as [t [d|e]]; cbn [fst snd]; [by rewrite app_nil_r|done].
Qed.

(** What holds after each phase of a run. *)
Lemma ensure_run_inv w phases :
  NoDup (kinds_run (ensure_run w phases).1) ∧
  ∀ done, (ensure_run w phases).2 = Ok done →
    done = kinds_run (ensure_run w phases).1 ∧
    (∀ p ks, (p, ks) ∈ phases →
      (BOXES ∈ ks → EnsureBoxes p ∈ (ensure_run w phases).1) ∧ (MQ ∈ ks → EnsureMq p ∈ (ensure_run w phases).1) ∧
      ∀ k, k ∈ ONCE_PER_RUN_KINDS → k ∈ ks → k ∈ done) ∧
    (GALAXY ∈ done → ∃ q, VerifyCollections q ∈ (ensure_run w phases).1 ∧ pw_collections (w q) = Ok ()).
Proof.
  induction phases as [|[p ks] phases [IHnd IH]] using rev_ind.
  { split; [constructor|]. intros d0 [= <-]. split_and!; [done|by intros ? ? ?%elem_of_nil|by intros ?%elem_of_nil]. }
  rewrite ensure_run_snoc, then_trace. destruct (ensure_run w phases).2 as [done0|e] eqn:Hr; cycle 1.
  { rewrite app_nil_r. split; [done|]. intros d. unfold then_. by rewrite Hr. }
  destruct (IH done0 eq_refl) as (Hd & Hph & Hg). destruct (ensure_prereqs_spec (w p) p ks done0) as [Hk Hok].
  rewrite kinds_run_app, <-Hd. split.
  - apply NoDup_app. rewrite Hd. split; [done|]. rewrite <-Hd. destruct Hk as [->| ->].
    + split; [by intros ? _ ?%elem_of_nil|constructor].
    + split; [|apply NoDup_todo]. intros k Hin [_ [_ Hno]]%todo_spec. done.
  - intros d1 (d & Hd0 & H)%then_Ok. rewrite Hr in Hd0. injection Hd0 as <-. destruct (Hok d1 H) as (-> & Hks & Hb & Hm & Hgal).
    rewrite Hks. split; [done|]. split.
    + intros p' ks' [Hin|Hin%list_elem_of_singleton]%elem_of_app.
      * destruct (Hph p' ks' Hin) as (Hb' & Hm' & Hk'). setoid_rewrite elem_of_app. split_and!; [auto..|]. intros k Hk1 Hk2. left. by apply Hk'.
      * injection Hin as -> ->. setoid_rewrite elem_of_app. split_and!; [auto..|]. intros k Hk1 Hk2. rewrite todo_spec.
        destruct (decide (k ∈ done0)); [by left|by right].
    + intros [Hin|Hin]%elem_of_app.
      * destruct (Hg Hin) as (q & Hq & Hc). exists q. split; [|done]. apply elem_of_app. by left.
      * destruct (Hgal Hin) as [Hq Hc]. exists p. split; [|done]. apply elem_of_app. by right.
Qed.

(** The prerequisites of a run: whichever phases are selected and whatever fails, the
    galaxy install and the PKI play are each run at most once. When every ensure succeeds,
    each phase has had its boxes and its MQ tarballs ensured in its own turn, and every
    once-per-run kind that a phase declares has been run, no later than in that phase; a
    phase that runs the galaxy install verifies the collections. *)
Theorem prereqs_once w phases :
  NoDup (kinds_run (ensure_run w phases).1) ∧
  ∀ done, (ensure_run w phases).2 = Ok done →
    done = kinds_run (ensure_run w phases).1 ∧
    ∀ before p ks after, phases = before ++ (p, ks) :: after →
      (BOXES ∈ ks → EnsureBoxes p ∈ (ensure_run w phases).1) ∧ (MQ ∈ ks → EnsureMq p ∈ (ensure_run w phases).1) ∧
      (∀ k, k ∈ ONCE_PER_RUN_KINDS → k ∈ ks → k ∈ kinds_run (ensure_run w (before ++ [(p, ks)])).1) ∧
      (GALAXY ∈ ks → ∃ q, VerifyCollections q ∈ (ensure_run w phases).1 ∧ pw_collections (w q) = Ok ()).
Proof.
  destruct (ensure_run_inv w phases) as [Hnd Hok]. split; [done|]. intros d0 Hd. destruct (Hok d0 Hd) as (Heq & Hph & Hg).
  split; [done|]. intros before p ks after Hphases.
  assert ((p, ks) ∈ phases) as Hin by (rewrite Hphases, elem_of_app; right; by left). destruct (Hph p ks Hin) as (Hb & Hm & Hk).
  split_and!; [done|done| |].
  - intros k Hk1 Hk2. assert (∃ d, (ensure_run w (before ++ [(p, ks)])).2 = Ok d) as [d Hd'].
    { rewrite Hphases in Hd. replace (before ++ (p, ks) :: after) with ((before ++ [(p, ks)]) ++ after) in Hd by by rewrite <-app_assoc.
      unfold ensure_run in Hd at 1. rewrite fold_trace_app in Hd. apply then_Ok in Hd as (d & Hd & _). by exists d. }
    destruct (ensure_run_inv w (before ++ [(p, ks)])) as [_ Hpre]. destruct (Hpre d Hd') as (<- & Hph' & _).
    apply (Hph' p ks); [|done..]. apply elem_of_app. right. by left.
  - intros Hgal. apply Hg, (Hk GALAXY); [|done]. by left.
Qed.

(** A bootstrap of every phase, in which nothing fails. *)
Definition demo_pworld : PrereqWorld := mk_pworld (Ok ()) (Ok ()) (λ _, Ok ()) (Ok ()).

(** The phases of a bootstrap run the PKI play once, for the provision phase. *)
Lemma prereqs_of_phases root nets t c rec :
  (ensure_run (λ _, demo_pworld) ((λ p, (p_name p, p_ensure p)) <$> PHASES root nets t c rec)).1 =
  [EnsureBoxes VMS; EnsureMq VMS; EnsureMq PROVISION; RunSteps PROVISION [GALAXY; PKI]; VerifyCollections PROVISION;
   SkippedKind OBSERVE PKI].
Proof. exact eq_refl. Qed.

Lemma prereqs_once_witness :
  ∃ d, (ensure_run (λ _, demo_pworld) [(u "provision", [GALAXY; PKI]); (u "observe", [PKI])]).2 = Ok d ∧
    NoDup (kinds_run (ensure_run (λ _, demo_pworld) [(u "provision", [GALAXY; PKI]); (u "observe", [PKI])]).1) ∧ d = [GALAXY; PKI].
Proof.
  destruct (prereqs_once (λ _, demo_pworld) [(u "provision", [GALAXY; PKI]); (u "observe", [PKI])]) as [Hnd _].
  exists [GALAXY; PKI]. split; [exact eq_refl|]. split; [exact Hnd|exact eq_refl].
Defined.
