(* ===== verification/SvcResponder.v ===== *)
(** * The counterparty's service responder

    Models [mqrc/svc_responder.py]: [serve], the get/reply/commit loop that answers each
    request on the queue it names and moves an unanswerable one to the dead-letter queue,
    and [main]'s exit code. What the queue manager and the clock answer is input; a trace
    is replayed against the documented meaning of a unit of work to say what can become
    permanent. *)

From S2P Require Import Prelude Trace PyText Mqi.

Open Scope trace_scope.

(** A request as [qin.get] delivers it: its body, and what [serve] reads of its MQMD. *)
Record Request := mk_request {
    rq_body : bytes; rq_md : MD; rq_reply_q : bytes; rq_reply_qmgr : bytes
  }.

(** A reply: where it goes, its MQMD fields, its payload. *)
Record SvcReply := mk_svc_reply {
    rp_q : bytes; rp_qmgr : bytes; rp_correl_id : bytes; rp_persistence : Z;
    rp_format : bytes; rp_payload : bytes
  }.

(** The calls of the service, with their outcome. *)
Inductive op :=
  | MQ (c : call)
  | Get (r : res reason Request)
  | OpenReply (q qmgr : bytes) (r : option reason)
  | PutReply (rp : SvcReply) (r : option reason).

(** A call that raises MQMIError when its outcome is a reason. *)
Definition mqi (o : option reason → op) (r : option reason) : traced op exn () :=
  emit (o r) (match r with Some e => Err (MQMIError e) | None => Ok tt end).

(** The arguments of [serve] the model reads. *)
Record SvcArgs := mk_svc_args { sa_qmgr : text; sa_in_queue : text }.

(** What the world answers during one turn of the loop: the deadline test, then the calls. *)
Record Turn := mk_turn {
    tn_keep : bool; tn_get : res reason Request; tn_dl : DlAnswers;
    tn_open : option reason; tn_put : option reason; tn_close : option reason;
    tn_commit : option reason
  }.

(** One run: the connection, the input queue, the turns, and the two cleaning calls. *)
Record SvcRun := mk_svc_run {
    sr_connect : option reason; sr_open_in : option reason; sr_turns : list Turn;
    sr_backout : option reason; sr_disc : option reason
  }.

(** The loop reached its deadline, or its inputs ran out (it is observed up to there). *)
Inductive ended := Deadline | Observed.

Section service.
(** Constants of [ibmmq.CMQC], and the packing of a header. *)
Context (NO_MSG_AVAILABLE MISSING_REPLY_TO_Q PER_PERSISTENT : Z) (dlh_pack : Dlh → bytes).

(** The reply to a request: the correlation contract. *)
Definition reply_to (rq : Request) : SvcReply :=
  mk_svc_reply (rq_reply_q rq) (rq_reply_qmgr rq) (md_msg_id (rq_md rq)) PER_PERSISTENT
    (md_format (rq_md rq)) (u "REPLY:" ++ rq_body rq).

(** A blank ReplyToQ: nowhere to reply. *)
Definition unanswerable (rq : Request) : bool := bool_decide (mqchar (rq_reply_q rq) = []).

Definition commit (t : Turn) : traced op exn () := mqi (MQ ∘ CCommit) (tn_commit t).

Definition answer (t : Turn) (rq : Request) : traced op exn () :=
  let* _ := mqi (OpenReply (rq_reply_q rq) (rq_reply_qmgr rq)) (tn_open t) in
  let* _ := mqi (PutReply (reply_to rq)) (tn_put t) in
  let* _ := mqi (MQ ∘ CClose) (tn_close t) in
  commit t.

Definition move_aside (a : SvcArgs) (t : Turn) (rq : Request) : traced op exn () :=
  let* _ := lift MQ (dead_letter dlh_pack (sa_qmgr a) (sa_in_queue a) (rq_md rq) (rq_body rq)
                       MISSING_REPLY_TO_Q (u "svc-responder") (Because (u "blank ReplyToQ"))
                       (tn_dl t)) in
  commit t.

(** The body of the loop. *)
Definition svc_turn (a : SvcArgs) (t : Turn) : traced op exn () :=
  match tn_get t with
  | Err r => emit (Get (Err r))
               (if bool_decide (r = NO_MSG_AVAILABLE) then Ok tt else Err (MQMIError r))
  | Ok rq =>
      let* _ := emit (Get (Ok rq)) (Ok tt) in
      if unanswerable rq then move_aside a t rq else answer t rq
  end.

(** [while deadline is None or time.monotonic() < deadline]. *)
Fixpoint svc_loop (a : SvcArgs) (ts : list Turn) : traced op exn ended :=
  match ts with
  | [] => quiet (Ok Observed)
  | t :: ts =>
      if tn_keep t then let* _ := svc_turn a t in svc_loop a ts else quiet (Ok Deadline)
  end.

(** The [except BaseException] and [finally] clauses around the loop: an error of the
    disconnect replaces the one that propagates. *)
Definition cleanup (r : SvcRun) (m : traced op exn ended) : traced op exn ended :=
  let disc := mqi (MQ ∘ CDisconnect) (sr_disc r) in
  match m.2 with
  | Ok Observed => m
  | Ok Deadline => let* x := m in let* _ := disc in quiet (Ok x)
  | Err e =>
      (m.1 ++ [MQ (CBackout (sr_backout r)); MQ (CDisconnect (sr_disc r))],
       Err (match disc.2 with Err e' => e' | Ok _ => e end))
  end.

Definition svc_serve (a : SvcArgs) (r : SvcRun) : traced op exn ended :=
  let* _ := mqi (MQ ∘ CConnect) (sr_connect r) in
  let* _ := mqi (MQ ∘ COpen (sa_in_queue a)) (sr_open_in r) in
  cleanup r (svc_loop a (sr_turns r)).

(** [main]: the exit code of a run that ended, or the exception that escapes. *)
Definition svc_main (a : SvcArgs) (r : SvcRun) : option (res exn Z) :=
  match (svc_serve a r).2 with
  | Ok Observed => None
  | Ok Deadline => Some (Ok 0%Z)
  | Err (MQMIError _) | Err (NoDeadLetterQueueError _ _) => Some (Ok 1%Z)
  | Err e => Some (Err e)
  end.

(** ** The unit of work of a trace *)

(** The documented MQI: a get and a put under syncpoint join the open unit of work, a
    commit and a backout end it. *)
Definition unit_step (w : list op) (o : op) : list op :=
  match o with
  | Get (Ok _) | PutReply _ None | MQ (CPut _ _ _ None) => w ++ [o]
  | MQ (CCommit None) | MQ (CBackout None) => []
  | _ => w
  end.

Definition open_work (tr : list op) : list op := foldl unit_step [] tr.

(** A unit of work that may become permanent: one request with its reply, or one
    unanswerable request with its body behind an MQDLH of the reason 2027 names. *)
Definition whole (a : SvcArgs) (w : list op) : Prop :=
  ∃ rq, (unanswerable rq = false ∧ w = [Get (Ok rq); PutReply (reply_to rq) None]) ∨
        (unanswerable rq = true ∧ ∃ dlq h, dlq ≠ [] ∧ dlh_reason h = MISSING_REPLY_TO_Q ∧
           dlh_dest_queue h = sa_in_queue a ∧ dlh_format h = md_format (rq_md rq) ∧
           w = [Get (Ok rq); MQ (CPut dlq (dlh_pack h ++ rq_body rq) (md_correl_id (rq_md rq)) None)]).

Definition is_commit (o : op) : Prop := match o with MQ (CCommit _) => True | _ => False end.
Definition is_ending (o : op) : Prop :=
  match o with MQ (CBackout _) | MQ (CDisconnect _) => True | _ => False end.

(** From the open unit [w], every commit of [tr] is of a whole unit. *)
Fixpoint commits_whole (a : SvcArgs) (w : list op) (tr : list op) : Prop :=
  match tr with
  | [] => True
  | o :: tr => (is_commit o → whole a w) ∧ commits_whole a (unit_step w o) tr
  end.

Lemma commits_whole_app a w t1 t2 :
  commits_whole a w (t1 ++ t2) ↔ commits_whole a w t1 ∧ commits_whole a (foldl unit_step w t1) t2.
Proof. revert w. induction t1 as [|o t1 IH]; intros w; simpl; [tauto|]. rewrite IH. tauto. Qed.

(** Such a trace that neither backs out nor disconnects. *)
Definition orderly (a : SvcArgs) (w tr : list op) : Prop :=
  commits_whole a w tr ∧ Forall (λ o, ¬ is_ending o) tr.

Lemma orderly_app a w t1 t2 :
  orderly a w (t1 ++ t2) ↔ orderly a w t1 ∧ orderly a (foldl unit_step w t1) t2.
Proof. unfold orderly. rewrite commits_whole_app, Forall_app. tauto. Qed.

Lemma orderly_cons a w o tr :
  (is_commit o → whole a w) → ¬ is_ending o → orderly a (unit_step w o) tr → orderly a w (o :: tr).
Proof. intros Hc He [Ht Hf]. split; [done|by constructor]. Qed.

Lemma orderly_nil a w : orderly a w [].
Proof. by split. Qed.

Lemma commits_whole_at a w pre c post :
  commits_whole a w (pre ++ MQ (CCommit c) :: post) → whole a (foldl unit_step w pre).
Proof. intros [_ [H _]]%commits_whole_app. by apply H. Qed.

Lemma orderly_commit a w pre c post :
  orderly a w (pre ++ MQ (CCommit c) :: post) → whole a (foldl unit_step w pre).
Proof. intros [H _]. by apply commits_whole_at in H. Qed.

Lemma orderly_disconnect a w pre d post : ¬ orderly a w (pre ++ MQ (CDisconnect d) :: post).
Proof. intros [_ [_ H]%Forall_app]. inversion H. naive_solver. Qed.

(** Calls that neither commit nor end the unit. *)
Ltac orderly_calls := repeat (apply orderly_cons; [done|by intros []|]); apply orderly_nil.

(** A dead-letter move puts at most the message, and when it succeeds exactly that. *)
Lemma dead_letter_work a md body why who ans w :
  let m := dead_letter dlh_pack (sa_qmgr a) (sa_in_queue a) md body MISSING_REPLY_TO_Q who why ans in
  orderly a w (MQ <$> m.1) ∧
  (m.2 = Ok tt → ∃ dlq h, dlq ≠ [] ∧ dlh_reason h = MISSING_REPLY_TO_Q ∧
     dlh_dest_queue h = sa_in_queue a ∧ dlh_format h = md_format md ∧
     foldl unit_step w (MQ <$> m.1) = w ++ [MQ (CPut dlq (dlh_pack h ++ body) (md_correl_id md) None)]) ∧
  (∀ e, m.2 = Err e → (∃ r, e = MQMIError r) ∨ e = NoDeadLetterQueueError (sa_qmgr a) why).
Proof.
  unfold dead_letter. destruct (dl_inquire ans) as [name|r];
    [|split_and!; [orderly_calls|done|simpl; naive_solver]].
  cbv zeta. case_bool_decide as Hn; [split_and!; [orderly_calls|done|simpl; naive_solver]|].
  destruct (dl_open ans); [split_and!; [orderly_calls|done|simpl; naive_solver]|].
  destruct (dl_put ans); [split_and!; [orderly_calls|done|simpl; naive_solver]|].
  destruct (dl_close ans); (split_and!; [orderly_calls| |simpl; naive_solver]); [done|intros _].
  eexists (mqchar name), _. split_and!; [done| | | |reflexivity]; done.
Qed.

Lemma mqi_Err o r e : (mqi o r).2 = Err e → ∃ r', e = MQMIError r'.
Proof. destruct r; simpl; naive_solver. Qed.

(** A turn begun with no open unit: orderly, and it leaves none when it does not raise. *)
Definition stops_with (a : SvcArgs) (e : exn) : Prop :=
  (∃ r, e = MQMIError r) ∨ ∃ why, e = NoDeadLetterQueueError (sa_qmgr a) why.

Definition clean_turn (a : SvcArgs) {A} (m : traced op exn A) : Prop :=
  orderly a [] m.1 ∧
  match m.2 with Ok _ => open_work m.1 = [] | Err e => stops_with a e end.

Lemma answer_work a t rq :
  unanswerable rq = false → clean_turn a (let* _ := emit (Get (Ok rq)) (Ok tt) in answer t rq).
Proof.
  intros Hu. assert (whole a [Get (Ok rq); PutReply (reply_to rq) None]) as Hwhole by (exists rq; by left).
  unfold clean_turn, answer, commit, then_, mqi, emit. cbn [fst snd].
  destruct (tn_open t), (tn_put t), (tn_close t), (tn_commit t); cbn;
    (split; [|done || (left; eauto)]); repeat (apply orderly_cons; [done|by intros []|]); apply orderly_nil.
Qed.

Lemma move_aside_work a t rq :
  unanswerable rq = true → clean_turn a (let* _ := emit (Get (Ok rq)) (Ok tt) in move_aside a t rq).
Proof.
  intros Hu. unfold clean_turn, move_aside, lift. set (m := dead_letter _ _ _ _ _ _ _ _ _).
  pose proof (dead_letter_work a (rq_md rq) (rq_body rq) (Because (u "blank ReplyToQ"))
    (u "svc-responder") (tn_dl t) [Get (Ok rq)]) as (Ho & Hok & He). fold m in Ho, Hok, He.
  unfold then_, emit. cbn [fst snd]. destruct (m.2) as [[]|e] eqn:Hm; cbn [fst snd].
  2:{ split; [apply orderly_cons; [done|by intros []|exact Ho]|].
      destruct (He e eq_refl) as [?| ->]; [by left|right; eauto]. }
  destruct (Hok eq_refl) as (dlq & h & Hq & Hr & Hd & Hf & Hw).
  assert (whole a (foldl unit_step [Get (Ok rq)] (MQ <$> m.1))) as Hwhole.
  { rewrite Hw. exists rq. right. split; [done|]. exists dlq, h. done. }
  split.
  - apply orderly_cons; [done|by intros []|]. apply orderly_app. split; [exact Ho|].
    apply orderly_cons; [done|by intros []|apply orderly_nil].
  - unfold open_work, commit, mqi, emit. destruct (tn_commit t) as [r|]; [left; by exists r|].
    cbn [app snd foldl]. by rewrite foldl_app.
Qed.

Lemma svc_turn_work a t : clean_turn a (svc_turn a t).
Proof.
  unfold svc_turn. destruct (tn_get t) as [rq|r].
  - destruct (unanswerable rq) eqn:Hu; [by apply move_aside_work|by apply answer_work].
  - split; [orderly_calls|]. cbn. case_bool_decide; [done|left; eauto].
Qed.

Lemma svc_loop_work a ts : clean_turn a (svc_loop a ts).
Proof.
  induction ts as [|t ts IH]; simpl; [split; [apply orderly_nil|done]|].
  destruct (tn_keep t); [|split; [apply orderly_nil|done]].
  pose proof (svc_turn_work a t) as [Ho Hw]. unfold then_, clean_turn in *.
  destruct (svc_turn a t).2 as [[]|e] eqn:Ht; cbn [fst snd]; [|by split].
  unfold open_work in *. rewrite orderly_app, foldl_app, Hw. tauto.
Qed.

(** The parts of a run's trace: the two opening calls, the loop, the cleaning calls. *)
Lemma svc_serve_trace a r :
  let loop := svc_loop a (sr_turns r) in
  let opening := [MQ (CConnect None); MQ (COpen (sa_in_queue a) None)] in
  let disc := MQ (CDisconnect (sr_disc r)) in
  ((∃ e, (svc_serve a r).2 = Err (MQMIError e)) ∧
   ∃ pre, (svc_serve a r).1 = pre ∧ orderly a [] pre) ∨
  ∃ tail, (svc_serve a r).1 = opening ++ loop.1 ++ tail ∧
    match loop.2 with
    | Ok Observed => tail = [] ∧ (svc_serve a r).2 = Ok Observed
    | Ok Deadline => tail = [disc] ∧ (svc_serve a r).2 =
        match sr_disc r with Some e => Err (MQMIError e) | None => Ok Deadline end
    | Err e => tail = [MQ (CBackout (sr_backout r)); disc] ∧ (svc_serve a r).2 =
        Err (match sr_disc r with Some e' => MQMIError e' | None => e end)
    end.
Proof.
  intros loop opening disc. unfold svc_serve, then_ at 1. unfold mqi at 1 2 3, emit, compose. cbn [fst snd].
  destruct (sr_connect r) as [e|].
  { left. split; [by exists e|]. eexists. split; [done|orderly_calls]. }
  unfold then_ at 1 2, mqi at 1 2 3 4, emit, compose. cbn [fst snd].
  destruct (sr_open_in r) as [e|].
  { left. split; [by exists e|]. eexists. split; [done|orderly_calls]. }
  right. fold loop. cbn [fst snd]. unfold cleanup, then_, mqi, emit, quiet, compose.
  destruct loop as [t [[]|e]]; cbn [fst snd].
  - exists [disc]. unfold disc. by destruct (sr_disc r); cbn [fst snd]; rewrite ?app_nil_r.
  - exists []. cbn [fst snd]. by rewrite ?app_nil_r.
  - exists [MQ (CBackout (sr_backout r)); disc]. by destruct (sr_disc r).
Qed.
End service.

(** ** Properties *)

(** C5. The SVC responder never consumes a request without its answer, nor answers one
    without consuming it: whatever the queue manager does, every unit of work it commits
    holds one request with exactly its reply (to the queue the request names, under the
    request's MsgId) or, with nowhere to reply, its dead letter; and it disconnects with
    nothing in the open unit, unless an error left one and the backout of it failed. *)
Theorem svc_units_whole nomsg missing persistent pack a r tr o :
  svc_serve nomsg missing persistent pack a r = (tr, o) →
  (∀ pre c post, tr = pre ++ MQ (CCommit c) :: post →
     whole missing persistent pack a (open_work pre)) ∧
  (∀ pre d post, tr = pre ++ MQ (CDisconnect d) :: post →
     open_work pre = [] ∨ ∃ pre' b, pre = pre' ++ [MQ (CBackout (Some b))]).
Proof.
  intros H. destruct (svc_loop_work nomsg missing persistent pack a (sr_turns r)) as [Ho Hw].
  destruct (svc_serve_trace nomsg missing persistent pack a r) as [(_ & t & Ht & Hto)|(tail & Ht & Htail)];
    rewrite H in Ht; cbn [fst] in Ht.
  { subst t. split; [intros pre c post Htr; subst tr; apply orderly_commit in Hto; exact Hto|].
    intros pre d post Htr; subst tr; by apply orderly_disconnect in Hto. }
  set (loop := svc_loop nomsg missing persistent pack a (sr_turns r)) in *.
  assert (orderly missing persistent pack a [] ([MQ (CConnect None); MQ (COpen (sa_in_queue a) None)] ++ loop.1))
    as Ho' by (repeat (apply orderly_cons; [done|by intros []|]); exact Ho).
  rewrite app_assoc in Ht. set (head := _ ++ loop.1) in *.
  assert (open_work head = open_work loop.1) as Hhead by done.
  assert (Forall (λ o, ¬ is_commit o) tail ∧
    ∀ pre' d post, tail = pre' ++ MQ (CDisconnect d) :: post →
      open_work (head ++ pre') = [] ∨ ∃ pre b, head ++ pre' = pre ++ [MQ (CBackout (Some b))]) as [Hnc Hdisc].
  { destruct loop.2 as [[]|e]; destruct Htail as [-> _].
    - split; [constructor; [by intros []|constructor]|]. intros [|? []] d post; [|done..]. intros _.
      left. by rewrite app_nil_r, Hhead.
    - split; [constructor|]. by intros [] d post.
    - split; [do 2 (constructor; [by intros []|]); constructor|]. intros [|? [|? []]] d post; try done.
      intros [= <- _ _]. destruct (sr_backout r) as [b|]; [right; by exists head, b|].
      left. unfold open_work. by rewrite foldl_app. }
  split.
  - intros pre c post Htr. apply (commits_whole_at missing persistent pack a [] pre c post).
    rewrite <-Htr, Ht. apply commits_whole_app. split; [apply Ho'|].
    generalize (foldl unit_step [] head). clear -Hnc. induction Hnc; simpl; [done|]. by split; [|eauto].
  - intros pre d post Htr. rewrite Htr in Ht.
    apply app_eq_inv in Ht as [(k & -> & Hk)|(k & Hh & Hk)]; [by apply (Hdisc k d post)|].
    destruct k as [|o' k].
    + rewrite app_nil_r in Hh. subst pre. rewrite <-(app_nil_r head). by apply (Hdisc [] d post).
    + injection Hk as <- _. rewrite Hh in Ho'. by apply orderly_disconnect in Ho'.
Qed.

(** How a run of the service ends: it never lets an exception escape; the exit code is 0
    exactly when it reached its deadline and disconnected cleanly, and 1 after any error;
    and once its loop has begun it always ends by disconnecting, an error backing out
    first. *)
Theorem svc_exit_code nomsg missing persistent pack a r :
  match svc_main nomsg missing persistent pack a r with
  | None => svc_loop nomsg missing persistent pack a (sr_turns r) =
      ((svc_loop nomsg missing persistent pack a (sr_turns r)).1, Ok Observed)
  | Some (Ok 0%Z) => sr_disc r = None ∧ ∃ pre,
      (svc_serve nomsg missing persistent pack a r).1 = pre ++ [MQ (CDisconnect None)]
  | Some (Ok c) => c = 1%Z
  | Some (Err _) => False
  end.
Proof.
  unfold svc_main.
  destruct (svc_loop_work nomsg missing persistent pack a (sr_turns r)) as [_ Hw].
  destruct (svc_serve_trace nomsg missing persistent pack a r) as [([e ->] & _)|(tail & Ht & Htail)]; [done|].
  destruct (svc_loop nomsg missing persistent pack a (sr_turns r)) as [t [[]|e]]; cbn [fst snd] in *.
  - destruct Htail as [-> ->]. destruct (sr_disc r); [done|]. split; [done|].
    rewrite Ht. eexists. by rewrite app_assoc.
  - by destruct Htail as [_ ->].
  - destruct Htail as [_ ->]. destruct (sr_disc r); [done|]. by destruct Hw as [[? ->]|[? ->]].
Qed.

(** ** Witnesses *)

Definition demo_request (reply_q : bytes) : Request :=
  mk_request (u "hello") (mk_md [1%N] [2%N] 546 1208 (u "MQSTR") 8 1 0) reply_q (u "PCMKAPP").

Definition demo_turn (g : res reason Request) (put : option reason) : Turn :=
  mk_turn true g (mk_dl (Ok (u "DLQ ")) None None None (u "20260608") (u "12000000")) None put None None.

(** A reply, a message moved aside, no message, then a put that fails. *)
Definition demo_svc : SvcRun :=
  mk_svc_run None None
    [demo_turn (Ok (demo_request (u "APP.REPLY"))) None; demo_turn (Ok (demo_request (u "   "))) None;
     demo_turn (Err 2033%Z) None; demo_turn (Ok (demo_request (u "APP.REPLY"))) (Some 2053%Z)]
    None None.

Definition demo_svc_args : SvcArgs := mk_svc_args (u "PCMKSVC") (u "SVC.REQUEST").

Lemma svc_units_whole_witness :
  let tr := (svc_serve 2033 2027 1 (λ _, [0%N]) demo_svc_args demo_svc).1 in
  length tr = 19 ∧
  ∃ rest, tr = take 17 tr ++ [MQ (CBackout None); MQ (CDisconnect None)] ++ rest ∧
    (open_work (take 18 tr) = [] ∨ ∃ pre' b, take 18 tr = pre' ++ [MQ (CBackout (Some b))]).
Proof.
  intros tr. split; [by vm_compute|]. exists []. split; [by vm_compute|].
  destruct (svc_units_whole 2033 2027 1 (λ _, [0%N]) demo_svc_args demo_svc tr
    (svc_serve 2033 2027 1 (λ _, [0%N]) demo_svc_args demo_svc).2 eq_refl) as [_ H].
  apply (H _ None []). by vm_compute.
Defined.
