(* ===== verification/AppRequester.v ===== *)
(** * The application requester

    Models [mqrc/app_requester.py]: the round-trip statistics and their metric text, the
    atomic publication of the metric file, and [run], the request/reply stream that
    rebuilds a dead connection. What the queue manager, the clock and the file system
    answer is input. *)

From S2P Require Import Prelude Trace PyText PyCodec PyFloat Mqi.
From stdpp Require Import gmap.

Open Scope trace_scope.

(** ** The statistics *)

Definition BUCKETS_MS : list float :=
  float_of_Z <$> [1; 2; 5; 10; 20; 50; 100; 200; 500; 1000; 2000; 5000]%Z.

Definition RECONNECT_REASONS : list reason := [2009; 2018; 2019; 2059; 2161; 2162; 2202; 2203]%Z.
Definition is_reconnectable (r : reason) : bool := bool_decide (r ∈ RECONNECT_REASONS).

(** [RoundTripStats]; the hits of a bucket are the successes at most its edge. *)
Record RoundTripStats := mk_stats {
    rs_buckets : list float; rs_total : nat; rs_failures : nat; rs_sum_ms : float;
    rs_hits : list nat
  }.

Definition new_stats (buckets : list float) : RoundTripStats :=
  mk_stats buckets 0 0 fzero ((λ _, 0) <$> buckets).

Definition successes (s : RoundTripStats) : nat := rs_total s - rs_failures s.

Definition hit (ms edge : float) (n : nat) : nat := if fleb ms edge then S n else n.

Definition record_success (s : RoundTripStats) (ms : float) : RoundTripStats :=
  mk_stats (rs_buckets s) (S (rs_total s)) (rs_failures s) (fadd (rs_sum_ms s) ms)
    (zip_with (hit ms) (rs_buckets s) (rs_hits s)).

Definition record_failure (s : RoundTripStats) : RoundTripStats :=
  mk_stats (rs_buckets s) (S (rs_total s)) (S (rs_failures s)) (rs_sum_ms s) (rs_hits s).

Section render.
(** The format [:g] of a number. *)
Context (fmt_g : float → text).

Definition quoted (s : text) : text := [34%N] ++ s ++ [34%N].
Definition nat_str (n : nat) : text := N_text (N.of_nat n).

(** The HELP and TYPE lines of a metric of [_TEXTFILE_HELP]. *)
Definition help_lines (name kind desc : text) : list text :=
  [u "# HELP " ++ name ++ u " " ++ desc; u "# TYPE " ++ name ++ u " " ++ kind].

Definition counter_lines (name desc : text) (value : nat) : list text :=
  help_lines name (u "counter") desc ++ [name ++ u " " ++ nat_str value].

Definition bucket_line (edge : text) (hits : nat) : text :=
  u "app_roundtrip_latency_ms_bucket{le=" ++ quoted edge ++ u "} " ++ nat_str hits.

(** [render_prom]; [None] is the ValueError of [zip(strict=True)]. *)
Definition render_prom (s : RoundTripStats) : option text :=
  if length (rs_buckets s) =? length (rs_hits s) then
    Some (str_join [10%N]
      (counter_lines (u "app_roundtrip_total") (u "Total app round-trips attempted.") (rs_total s) ++
       counter_lines (u "app_roundtrip_failures_total")
         (u "App round-trips that failed (no reply / error).") (rs_failures s) ++
       help_lines (u "app_roundtrip_latency_ms") (u "histogram")
         (u "Successful round-trip latency (ms).") ++
       zip_with (λ edge, bucket_line (fmt_g edge)) (rs_buckets s) (rs_hits s) ++
       [bucket_line (u "+Inf") (successes s);
        u "app_roundtrip_latency_ms_sum " ++ fmt_g (rs_sum_ms s);
        u "app_roundtrip_latency_ms_count " ++ nat_str (successes s)]) ++ [10%N])
  else None.
End render.

(** What a run records, oldest first: a latency, or a failure. *)
Definition record (s : RoundTripStats) (o : option float) : RoundTripStats :=
  match o with Some ms => record_success s ms | None => record_failure s end.

Definition latencies (os : list (option float)) : list float := omap id os.

Definition le_count (os : list (option float)) (edge : float) : nat :=
  length (filter (λ ms, fleb ms edge = true) (latencies os)).

(** The statistics are what the outcomes say. *)
Record accounts (buckets : list float) (os : list (option float)) (s : RoundTripStats) : Prop := {
    acc_buckets : rs_buckets s = buckets;
    acc_total : rs_total s = length os;
    acc_failures : rs_failures s = length (filter (λ o, o = None) os);
    acc_sum : rs_sum_ms s = foldl fadd fzero (latencies os);
    acc_hits : rs_hits s = le_count os <$> buckets
  }.

Lemma accounts_new buckets : accounts buckets [] (new_stats buckets).
Proof. by split. Qed.

Lemma latencies_app os o : latencies (os ++ [o]) = latencies os ++ (if o is Some ms then [ms] else []).
Proof. unfold latencies. rewrite omap_app. by destruct o. Qed.

Lemma le_count_snoc os o edge :
  le_count (os ++ [o]) edge = if o is Some ms then hit ms edge (le_count os edge) else le_count os edge.
Proof.
  unfold le_count. rewrite latencies_app. destruct o as [ms|]; [|by rewrite app_nil_r].
  rewrite filter_app, length_app, filter_cons, filter_nil. unfold hit.
  destruct (fleb ms edge); case_decide; simpl; (lia || done).
Qed.

Lemma accounts_record buckets os s o : accounts buckets os s → accounts buckets (os ++ [o]) (record s o).
Proof.
  intros [Hb Ht Hf Hs Hh]. split.
  - by destruct o.
  - rewrite length_app. destruct o; simpl; lia.
  - rewrite filter_app, length_app. destruct o; simpl; lia.
  - rewrite latencies_app, foldl_app, <-Hs. by destruct o.
  - destruct o as [ms|]; simpl; rewrite ?Hb, Hh.
    + clear. induction buckets as [|e b IH]; [done|]. cbn. by rewrite le_count_snoc, <-IH.
    + apply list_fmap_ext. intros i e _. by rewrite le_count_snoc.
Qed.

Lemma accounts_records buckets os : accounts buckets os (foldl record (new_stats buckets) os).
Proof.
  induction os as [|o os IH] using rev_ind; [apply accounts_new|].
  rewrite foldl_app. by apply accounts_record.
Qed.

Lemma le_count_mono os e1 e2 :
  is_nan e1 = false → is_nan e2 = false → fleb e1 e2 = true → le_count os e1 ≤ le_count os e2.
Proof.
  intros H1 H2 Hle. unfold le_count. induction (latencies os) as [|ms l IH]; [done|].
  rewrite !filter_cons. case_decide as Ha; case_decide as Hb; simpl; try lia.
  exfalso. apply Hb. pose proof (fleb_true_not_nan _ _ Ha) as [? ?]. by apply (fleb_trans ms e1 e2).
Qed.

Lemma le_count_successes os e : le_count os e ≤ length os - length (filter (λ o, o = None) os).
Proof.
  unfold le_count. transitivity (length (latencies os)).
  { generalize (latencies os). intros l. apply length_filter. }
  clear e. induction os as [|[ms|] os IH]; [done| |].
  - change (latencies (Some ms :: os)) with (ms :: latencies os).
    pose proof (length_filter (λ o : option float, o = None) os). rewrite filter_cons_False by done. simpl. lia.
  - change (latencies (None :: os)) with (latencies os). rewrite filter_cons_True by done. simpl. lia.
Qed.

(** The histogram is cumulative: a bucket holds no more than a later one, and none more
    than the [+Inf] bucket. *)
Lemma hits_cumulative os e1 e2 :
  is_nan e1 = false → is_nan e2 = false → fleb e1 e2 = true →
  le_count os e1 ≤ le_count os e2 ∧
  le_count os e2 ≤ successes (foldl record (new_stats BUCKETS_MS) os).
Proof.
  intros H1 H2 Hle. split; [by apply le_count_mono|].
  destruct (accounts_records BUCKETS_MS os) as [_ Ht Hf _ _].
  unfold successes. rewrite Ht, Hf. apply le_count_successes.
Qed.

(** ** The metric file *)

(** [os.path.split]'s two parts, and [os.path.dirname]. *)
Definition path_split (p : text) : text * text :=
  let '(t, h) := span (λ c, negb (c =? 47)%N) (rev p) in (rev h, rev t).

Definition dirname (p : text) : text :=
  let head := (path_split p).1 in
  if forallb (λ c, (c =? 47)%N) head then head else rstrip_by (λ c, (c =? 47)%N) head.

(** [os.path.join] of a directory and a name that does not start with a slash. *)
Definition path_join (d name : text) : text := if endswith d (u "/") then d ++ name else d ++ u "/" ++ name.

Abbreviation Files := (gmap text text) (only parsing).

(** What the system answers while the file is written: the process and the random token of
    the temporary name, and the OSError of each call, a failed write having written a prefix. *)
Record WriteIO := mk_wio {
    wi_pid : nat; wi_token : text; wi_open : option text; wi_write : option (nat * text);
    wi_replace : option text; wi_unlink : option text
  }.

Definition tmp_name (path : text) (w : WriteIO) : text :=
  let d := dirname path in
  path_join (if bool_decide (d = []) then u "." else d)
    (u "." ++ (path_split path).2 ++ u "." ++ nat_str (wi_pid w) ++ u "." ++ wi_token w ++ u ".tmp").

(** The [except BaseException] clause: the temporary file is removed and the error raised again,
    unless the removal raises its own. *)
Definition remove_tmp (tmp : text) (w : WriteIO) (m : Files) (e : text) : traced Files text Files :=
  match m !! tmp with
  | None => quiet (Err e)
  | Some _ => match wi_unlink w with
    | Some e' => quiet (Err e')
    | None => emit (delete tmp m) (Err e)
    end
  end.

(** [write_textfile]: the state of the files after each call that changes them. *)
Definition write_textfile (path body : text) (w : WriteIO) (m : Files) : traced Files text Files :=
  let tmp := tmp_name path w in
  match (match m !! tmp with Some _ => Some (u "File exists") | None => wi_open w end) with
  | Some e => remove_tmp tmp w m e
  | None =>
      let* m1 := emit (<[tmp := []]> m) (Ok (<[tmp := []]> m)) in
      match wi_write w with
      | Some (n, e) =>
          let* m2 := emit (<[tmp := take n body]> m1) (Ok (<[tmp := take n body]> m1)) in
          remove_tmp tmp w m2 e
      | None =>
          let* m2 := emit (<[tmp := body]> m1) (Ok (<[tmp := body]> m1)) in
          match wi_replace w with
          | Some e => remove_tmp tmp w m2 e
          | None => let m3 := <[path := body]> (delete tmp m2) in emit m3 (Ok m3)
          end
      end
  end.

Lemma path_split_join d n : 47%N ∉ n → (path_split (path_join d n)).2 = n.
Proof.
  intros Hn. assert (∀ a, (path_split (a ++ 47%N :: n)).2 = n) as H.
  { intros a. unfold path_split. rewrite rev_app_distr. cbn [rev]. rewrite <-app_assoc. cbn [app].
    rewrite span_app; [cbn; by rewrite rev_involutive| |done].
    apply Forall_rev, Forall_forall. intros c Hc. apply negb_true_iff, N.eqb_neq. by intros ->. }
  unfold path_join, endswith, startswith. case_bool_decide as Hs; [|apply H].
  destruct Hs as [k Hk]. apply (f_equal (@rev N)) in Hk. rewrite rev_involutive, rev_app_distr in Hk.
  cbn in Hk. rewrite Hk, <-app_assoc. apply H.
Qed.

Lemma path_split_tail p : 47%N ∉ (path_split p).2.
Proof.
  unfold path_split.
  assert (∀ s, Forall (λ c, negb (c =? 47)%N = true) (span (λ c, negb (c =? 47)%N) s).1) as H.
  { induction s as [|c s IH]; simpl; [constructor|].
    destruct (negb (c =? 47)%N) eqn:Hc; [|constructor]. destruct (span _ s). by constructor. }
  specialize (H (rev p)). destruct (span _ (rev p)) as [t h]. cbn [fst snd] in *.
  rewrite Forall_forall in H. intros Hin%list_elem_of_In%in_rev%list_elem_of_In. by specialize (H _ Hin).
Qed.

(** The temporary name is not the published one, and no [*.prom] reader takes it. *)
Lemma tmp_name_other path w :
  47%N ∉ wi_token w → tmp_name path w ≠ path ∧ endswith (tmp_name path w) (u ".prom") = false.
Proof.
  intros Ht. unfold tmp_name. set (d := if bool_decide (dirname path = []) then _ else _).
  set (n := u "." ++ _).
  assert (47%N ∉ n) as Hn.
  { assert (∀ s, forallb (λ c, negb (c =? 47)%N) s = true → 47%N ∉ s) as Hlit.
    { intros s Hs Hin%list_elem_of_In. rewrite forallb_forall in Hs. by specialize (Hs _ Hin). }
    unfold n. rewrite !not_elem_of_app. split_and!; try (by apply Hlit); [apply path_split_tail| |done].
    intros Hin. pose proof (N_text_digits (N.of_nat (wi_pid w))) as Hd. rewrite Forall_forall in Hd.
    specialize (Hd _ Hin). lia. }
  split.
  - intros Heq. pose proof (path_split_join d n Hn) as Hs. rewrite Heq in Hs.
    apply (f_equal length) in Hs. unfold n in Hs. rewrite !length_app in Hs. simpl in Hs. lia.
  - unfold endswith, startswith. apply bool_decide_eq_false. intros [k Hk].
    assert (∃ r, rev (path_join d n) = rev (u ".tmp") ++ r) as [r Hr].
    { unfold path_join, n. case_match; rewrite !rev_app_distr, <-!app_assoc; by eexists. }
    rewrite Hr in Hk. vm_compute in Hk. done.
Qed.

(** ** The stream *)

(** The arguments [run] reads. *)
Record AppArgs := mk_app_args {
    aa_request : text; aa_reply : text; aa_count : Z; aa_rate : float; aa_msg_size : nat;
    aa_textfile : text
  }.

(** The calls of the stream, with their outcome: a put answers the MsgId the queue manager
    gave the request, a get the body of the reply. *)
Inductive aop :=
  | ConnectA (r : option reason)
  | OpenA (queue : text) (r : option reason)
  | PutA (queue : text) (payload : bytes) (r : res reason bytes)
  | GetA (queue : text) (correl_id : bytes) (r : res reason bytes)
  | DisconnectA (r : option reason)
  | Report (i : nat) (r : res reason (float * bytes))
  | Publish (path : text) (s : RoundTripStats) (failed : option text)
  | Sleep (seconds : float).

(** What the world answers during one turn. *)
Record AppTurn := mk_aturn {
    at_connect : option reason; at_open_request : option reason; at_open_reply : option reason;
    at_put : res reason bytes; at_get : res reason bytes; at_t0 : float; at_t1 : float;
    at_disc : option reason; at_publish : option text
  }.

Definition asked (o : option reason → aop) (r : option reason) : traced aop reason () :=
  emit (o r) (match r with Some e => Err e | None => Ok tt end).

Section stream.
Context (a : AppArgs).

(** [_connect]. *)
Definition connect (t : AppTurn) : traced aop reason () :=
  let* _ := asked ConnectA (at_connect t) in
  let* _ := asked (OpenA (aa_request a)) (at_open_request t) in
  asked (OpenA (aa_reply a)) (at_open_reply t).

(** The request, and the reply that carries its MsgId as CorrelId, with its latency. *)
Definition round_trip (t : AppTurn) : traced aop reason (float * bytes) :=
  let payload := replicate (Nat.max 1 (aa_msg_size a)) 120%N in
  let* msg_id := emit (PutA (aa_request a) payload (at_put t)) (at_put t) in
  let* reply := emit (GetA (aa_reply a) msg_id (at_get t)) (at_get t) in
  quiet (Ok (fmul (fsub (at_t1 t) (at_t0 t)) (float_of_Z 1000), reply)).

(** The [try] body: its calls, whether the connection is held, its outcome. *)
Definition attempt (t : AppTurn) (held : bool) : list aop * bool * res reason (float * bytes) :=
  if held then let '(tr, o) := round_trip t in (tr, true, o)
  else match connect t with
       | (tr, Err r) => (tr, false, Err r)
       | (tr, Ok _) => let '(tr2, o) := round_trip t in (tr ++ tr2, true, o)
       end.

Definition interval : float := if fltb fzero (aa_rate a) then fdiv (float_of_Z 1) (aa_rate a) else fzero.

(** What follows the round trip: its record and report, the teardown of a dead connection. *)
Definition settle (t : AppTurn) (i : nat) (held : bool) (st : RoundTripStats)
  (o : res reason (float * bytes)) : list aop * bool * RoundTripStats :=
  match o with
  | Ok (dt, _) => ([Report i o], held, record_success st dt)
  | Err r =>
      let dead := is_reconnectable r in
      (Report i o :: (if dead && held then [DisconnectA (at_disc t)] else []),
       negb dead && held, record_failure st)
  end.

(** The end of a turn: the metrics, whose failure is only printed, and the pace. *)
Definition finish_turn (t : AppTurn) (st : RoundTripStats) : list aop :=
  (if bool_decide (aa_textfile a = []) then [] else [Publish (aa_textfile a) st (at_publish t)]) ++
  (if feqb interval fzero then [] else [Sleep interval]).

Definition app_turn (t : AppTurn) (i : nat) (held : bool) (st : RoundTripStats) :
  list aop * bool * RoundTripStats :=
  let '(tr1, held1, o) := attempt t held in
  let '(tr2, held2, st2) := settle t i held1 st o in
  (tr1 ++ tr2 ++ finish_turn t st2, held2, st2).

(** [while args.count == 0 or i < args.count]; the last component tells whether the loop was
    left, or its inputs ran out (the stream is observed up to there). *)
Fixpoint app_loop (ts : list AppTurn) (i : nat) (held : bool) (st : RoundTripStats) :
  list aop * bool * RoundTripStats * bool :=
  if (aa_count a =? 0)%Z || (Z.of_nat i <? aa_count a)%Z then
    match ts with
    | [] => ([], held, st, false)
    | t :: ts =>
        let '(tr1, held1, st1) := app_turn t i held st in
        let '(tr2, held2, st2, over) := app_loop ts (S i) held1 st1 in
        (tr1 ++ tr2, held2, st2, over)
    end
  else ([], held, st, true).

(** [run], with the answer to the [finally] clause's disconnect: the calls, the statistics and
    the exit code. *)
Definition app_run (ts : list AppTurn) (disc : option reason) :
  list aop * RoundTripStats * option Z :=
  let '(tr, held, st, over) := app_loop ts 0 false (new_stats BUCKETS_MS) in
  if over then
    (tr ++ (if held then [DisconnectA disc] else []), st,
     Some (if bool_decide (rs_failures st = 0) then 0%Z else 1%Z))
  else (tr, st, None).
End stream.

(** ** The state of the connection over a trace *)

(** No connection, a usable one, or one that has reported a dead-connection reason. *)
Inductive conn := Down | Up | Dead.

Definition used {A} (r : res reason A) : conn :=
  match r with Err e => if is_reconnectable e then Dead else Up | Ok _ => Up end.

(** The calls a careful client may make, and what they leave: it connects only without a
    connection, uses only a usable one, and disconnects one it has. A [Queue] that fails to open
    makes [_connect] raise, and the connection is out of the client's hands. *)
Definition conn_step (c : conn) (o : aop) : option conn :=
  match o, c with
  | ConnectA None, Down => Some Up
  | ConnectA (Some _), Down => Some Down
  | ConnectA _, _ => None
  | OpenA _ r, Up => Some (match r with Some _ => Down | None => Up end)
  | OpenA _ _, _ => None
  | PutA _ _ r, Up => Some (used r)
  | GetA _ _ r, Up => Some (used r)
  | PutA _ _ _, _ | GetA _ _ _, _ => None
  | DisconnectA _, Down => None
  | DisconnectA _, _ => Some Down
  | _, _ => Some c
  end.

Fixpoint conn_run (c : conn) (tr : list aop) : option conn :=
  match tr with [] => Some c | o :: tr => c' ← conn_step c o; conn_run c' tr end.

Lemma conn_run_app c t1 t2 : conn_run c (t1 ++ t2) = c' ← conn_run c t1; conn_run c' t2.
Proof. revert c. induction t1 as [|o t1 IH]; intros c; simpl; [done|]. destruct (conn_step c o); [apply IH|done]. Qed.

Definition held_conn (held : bool) : conn := if held then Up else Down.

(** The connections made, those given back, and those dropped because a queue did not open. *)
Definition connected (o : aop) : bool := match o with ConnectA None => true | _ => false end.
Definition disconnected (o : aop) : bool := match o with DisconnectA _ => true | _ => false end.
Definition open_failed (o : aop) : bool := match o with OpenA _ (Some _) => true | _ => false end.

Definition count_calls (f : aop → bool) (tr : list aop) : nat := length (List.filter f tr).

Lemma count_calls_app f a b : count_calls f (a ++ b) = count_calls f a + count_calls f b.
Proof. unfold count_calls. by rewrite List.filter_app, length_app. Qed.

Definition is_held (c : conn) : nat := match c with Down => 0 | _ => 1 end.

(** Every connection is held, given back or dropped. *)
Lemma conn_run_counts c tr c' :
  conn_run c tr = Some c' →
  is_held c + count_calls connected tr =
  is_held c' + count_calls disconnected tr + count_calls open_failed tr.
Proof.
  revert c. induction tr as [|o tr IH]; intros c; [intros [= <-]; cbn; lia|]. intros H.
  change (o :: tr) with ([o] ++ tr). rewrite !count_calls_app. simpl in H.
  destruct (conn_step c o) as [c1|] eqn:Hs; [|done]. specialize (IH _ H).
  destruct o as [[]|? []|? ? []|? ? []| | | |], c; cbn in *; simplify_eq; cbn in *;
    unfold used in *; repeat case_match; cbn in *; simplify_eq; lia.
Qed.

Lemma attempt_conn a t held :
  let '(tr, held1, o) := attempt a t held in
  conn_run (held_conn held) tr =
    Some (match o with
          | Err r => if held1 && is_reconnectable r then Dead else held_conn held1
          | Ok _ => Up
          end) ∧ (∀ x, o = Ok x → held1 = true).
Proof.
  unfold attempt, connect, round_trip, asked, then_, emit, quiet.
  destruct held, (at_connect t), (at_open_request t), (at_open_reply t), (at_put t), (at_get t);
    cbn; try done; repeat case_match; done.
Qed.

Lemma app_turn_conn a t i held st :
  let '(tr, held1, st1) := app_turn a t i held st in
  conn_run (held_conn held) tr = Some (held_conn held1) ∧
  ∃ o : option float, st1 = record st o.
Proof.
  unfold app_turn. pose proof (attempt_conn a t held) as Ha.
  destruct (attempt a t held) as [[tr1 held1] o]. destruct Ha as [Ha Hh].
  assert (∀ c st', conn_run c (finish_turn a t st') = Some c) as Hf.
  { intros [] st'; unfold finish_turn; case_bool_decide; by destruct (feqb (interval a) fzero). }
  unfold settle. destruct o as [[dt reply]|r].
  - rewrite (Hh _ eq_refl) in *. split; [|by exists (Some dt)].
    rewrite conn_run_app, Ha. cbn. apply Hf.
  - split; [|by exists None]. rewrite conn_run_app, Ha.
    destruct held1, (is_reconnectable r); cbn; apply Hf.
Qed.

Lemma app_loop_conn a ts i held st :
  let '(tr, held1, st1, over) := app_loop a ts i held st in
  conn_run (held_conn held) tr = Some (held_conn held1).
Proof.
  revert i held st. induction ts as [|t ts IH]; intros i held st; cbn [app_loop];
    destruct ((aa_count a =? 0)%Z || (Z.of_nat i <? aa_count a)%Z); try done.
  pose proof (app_turn_conn a t i held st) as Hturn.
  destruct (app_turn a t i held st) as [[tr1 held1] st1]. destruct Hturn as [Hturn _].
  specialize (IH (S i) held1 st1). destruct (app_loop a ts (S i) held1 st1) as [[[tr2 held2] st2] over].
  by rewrite conn_run_app, Hturn.
Qed.

(** The outcome of a turn, as its report gives it. *)
Definition outcomes (tr : list aop) : list (option float) :=
  omap (λ o, match o with
             | Report _ (Ok (dt, _)) => Some (Some dt)
             | Report _ (Err _) => Some None
             | _ => None
             end) tr.

Lemma app_turn_outcome a t i held st :
  let '(tr, _, st1) := app_turn a t i held st in
  ∃ o, outcomes tr = [o] ∧ st1 = record st o.
Proof.
  unfold app_turn.
  assert (∀ tr1 held1 o, attempt a t held = (tr1, held1, o) → outcomes tr1 = []) as Ha.
  { intros tr1 held1 o. unfold attempt, connect, round_trip, asked, then_, emit, quiet.
    destruct held, (at_connect t), (at_open_request t), (at_open_reply t), (at_put t), (at_get t); cbn; by intros [= <- <- <-]. }
  destruct (attempt a t held) as [[tr1 held1] o] eqn:Hat. specialize (Ha _ _ _ eq_refl).
  assert (∀ st', outcomes (finish_turn a t st') = []) as Hf.
  { intros st'. unfold finish_turn. case_bool_decide; by destruct (feqb (interval a) fzero). }
  unfold settle. destruct o as [[dt reply]|r].
  - exists (Some dt). split; [|done]. unfold outcomes in *. by rewrite !omap_app, Ha, Hf.
  - exists None. split; [|done]. unfold outcomes in *. rewrite !omap_app, Ha, Hf. by case_match.
Qed.

(** The statistics a stream ends with, and how many turns it took. *)
Lemma app_loop_outcomes a ts i held st :
  let '(tr, _, st1, over) := app_loop a ts i held st in
  st1 = foldl record st (outcomes tr) ∧
  length (outcomes tr) ≤ length ts ∧
  (over = true → (aa_count a ≠ 0 ∧ Z.of_nat (i + length (outcomes tr)) = Z.max (Z.of_nat i) (aa_count a))%Z) ∧
  (over = false → length (outcomes tr) = length ts ∧
     (aa_count a = 0 ∨ Z.of_nat (i + length ts) < aa_count a)%Z).
Proof.
  revert i held st. induction ts as [|t ts IH]; intros i held st; cbn [app_loop].
  - destruct ((aa_count a =? 0)%Z || _)%Z eqn:Hc; (split; [done|]); simpl; split_and!; intros; try done; lia.
  - destruct ((aa_count a =? 0)%Z || (Z.of_nat i <? aa_count a)%Z) eqn:Hc.
    2:{ split; [done|]. simpl. split_and!; intros; [lia|lia|done]. }
    pose proof (app_turn_outcome a t i held st) as Hturn.
    destruct (app_turn a t i held st) as [[tr1 held1] st1]. destruct Hturn as (o & Ho & ->).
    specialize (IH (S i) held1 (record st o)).
    destruct (app_loop a ts (S i) held1 (record st o)) as [[[tr2 held2] st2] over].
    destruct IH as (-> & Hn & Hl & Hr). unfold outcomes in *. rewrite omap_app, Ho. cbn [app foldl length].
    split; [done|]. split; [simpl; lia|]. split; intros Hover; [specialize (Hl Hover)|specialize (Hr Hover)]; simpl; lia.
Qed.

(** ** Properties *)

(** The requester's stream survives every failure of a round trip and accounts for each:
    a bounded run ends after exactly the asked number of attempts, whatever they met; its
    statistics are those of the attempts it reported, each bucket of the histogram counting
    the round trips at most its edge; and the exit code is 0 exactly when none failed. *)
Theorem requester_accounts a ts disc :
  let '(tr, st, code) := app_run a ts disc in
  accounts BUCKETS_MS (outcomes tr) st ∧
  (code = None ↔ aa_count a = 0 ∨ Z.of_nat (length ts) < aa_count a)%Z ∧
  (∀ c, code = Some c → Z.of_nat (length (outcomes tr)) = Z.max 0 (aa_count a) ∧
     (c = 0 ↔ None ∉ outcomes tr)%Z).
Proof.
  unfold app_run. pose proof (app_loop_outcomes a ts 0 false (new_stats BUCKETS_MS)) as H.
  destruct (app_loop a ts 0 false (new_stats BUCKETS_MS)) as [[[tr held] st] over].
  destruct H as (-> & Hn & Hl & Hr).
  pose proof (accounts_records BUCKETS_MS (outcomes tr)) as Hacc.
  destruct over.
  2:{ split; [done|]. split; [|done]. specialize (Hr eq_refl). split; [intros _|done]. lia. }
  assert (outcomes (tr ++ (if held then [DisconnectA disc] else [])) = outcomes tr) as ->.
  { unfold outcomes. rewrite omap_app. destruct held; apply app_nil_r. }
  specialize (Hl eq_refl). split; [done|]. split; [split; [done|lia]|].
  intros c [= <-]. split; [lia|]. rewrite (acc_failures _ _ _ Hacc).
  destruct (filter (λ o, o = None) (outcomes tr)) as [|x l] eqn:Hf; cbn [length Nat.eqb].
  - split; [intros _|done]. intros Hin. assert (None ∈ filter (λ o : option float, o = None) (outcomes tr)) as Hx
      by (by apply list_elem_of_filter). rewrite Hf in Hx. by apply elem_of_nil in Hx.
  - split; [done|]. intros Hnot. assert (x ∈ filter (λ o : option float, o = None) (outcomes tr)) as [-> Hx]%list_elem_of_filter
      by (rewrite Hf; by left). done.
Qed.

(** C7. Whatever fails and whenever, the requester never uses a connection that has reported
    a dead-connection reason, never connects while it holds one, and disconnects only one it
    holds: every call is one a connection in that state allows. When the stream ends it holds
    none, and the connections it made are those it disconnected and one for each failed open of
    a queue: such a connection is not disconnected by the requester, which connects again. *)
Theorem requester_connection a ts disc :
  let '(tr, _, code) := app_run a ts disc in
  ∃ c, conn_run Down tr = Some c ∧
    count_calls connected tr =
      count_calls disconnected tr + count_calls open_failed tr + is_held c ∧
    (code ≠ None → c = Down).
Proof.
  unfold app_run. pose proof (app_loop_conn a ts 0 false (new_stats BUCKETS_MS)) as H.
  destruct (app_loop a ts 0 false (new_stats BUCKETS_MS)) as [[[tr held] st] over].
  cbn [held_conn] in H. destruct over.
  - assert (conn_run Down (tr ++ (if held then [DisconnectA disc] else [])) = Some Down) as Hr
      by (rewrite conn_run_app, H; by destruct held).
    exists Down. split_and!; [done| |done]. apply conn_run_counts in Hr. cbn in *. lia.
  - exists (held_conn held). split_and!; [done| |done]. apply conn_run_counts in H. cbn in *. lia.
Qed.

(** No file but [tmp] changes, and [path] only to the whole of [body]. *)
Definition only_publishes (path body tmp : text) (m s : Files) : Prop :=
  ∀ p, p ≠ tmp → s !! p = m !! p ∨ p = path ∧ s !! p = Some body.

Lemma only_publishes_insert path body tmp m s t :
  only_publishes path body tmp m s → only_publishes path body tmp m (<[tmp := t]> s).
Proof. intros H p Hp. rewrite lookup_insert_ne by done. by apply H. Qed.

Lemma only_publishes_delete path body tmp m s :
  only_publishes path body tmp m s → only_publishes path body tmp m (delete tmp s).
Proof. intros H p Hp. rewrite lookup_delete_ne by done. by apply H. Qed.

Lemma remove_tmp_only path body tmp m s w e :
  only_publishes path body tmp m s →
  Forall (only_publishes path body tmp m) (remove_tmp tmp w s e).1.
Proof.
  intros H. unfold remove_tmp. destruct (s !! tmp); [|constructor]. destruct (wi_unlink w); [constructor|].
  constructor; [by apply only_publishes_delete|constructor].
Qed.

(** After a failure the temporary file is gone, if its removal succeeded. *)
Lemma remove_tmp_end tmp w s e :
  wi_unlink w ≠ None ∨ default s (last (remove_tmp tmp w s e).1) = delete tmp s ∧ (remove_tmp tmp w s e).2 = Err e.
Proof.
  unfold remove_tmp. destruct (s !! tmp) eqn:Hs.
  - destruct (wi_unlink w); [by left|by right].
  - right. cbn. by rewrite delete_id.
Qed.

(** Publishing the metrics is atomic: whatever fails, at every moment the published file is
    the old one or the whole new text and no other file but the temporary one changes; the
    temporary one is never taken for a metric file; and at the end the new text is in place,
    or the files are as before without the temporary one (unless its removal failed). *)
Theorem textfile_atomic path body w m tr o :
  47%N ∉ wi_token w → write_textfile path body w m = (tr, o) →
  let tmp := tmp_name path w in
  endswith tmp (u ".prom") = false ∧
  Forall (only_publishes path body tmp m) tr ∧
  match o with
  | Ok m' => m' = <[path := body]> m ∧ last tr = Some m'
  | Err _ => wi_unlink w ≠ None ∨ default m (last tr) = delete tmp m
  end.
Proof.
  intros Htok H tmp. destruct (tmp_name_other path w Htok) as [Hne Hprom]. fold tmp in Hne, Hprom.
  split; [done|]. unfold write_textfile in H. fold tmp in H.
  assert (only_publishes path body tmp m m) as Hm0 by (by intros p _; left).
  assert (∀ t, only_publishes path body tmp m (<[tmp := t]> m)) as Hm1 by (intros; by apply only_publishes_insert).
  destruct (m !! tmp) as [old|] eqn:Hm; [|destruct (wi_open w) as [e|]].
  1,2: pose proof (remove_tmp_only path body tmp m m w) as Hr; pose proof (remove_tmp_end tmp w m) as He.
  - specialize (Hr (u "File exists") Hm0). specialize (He (u "File exists")). rewrite H in Hr, He. cbn [fst snd] in Hr, He.
    split; [done|]. destruct He as [?|[? ->]]; [|by right]. destruct o; [|by left].
    exfalso. revert H. unfold remove_tmp. rewrite Hm. by destruct (wi_unlink w).
  - specialize (Hr e Hm0). specialize (He e). rewrite H in Hr, He. cbn [fst snd] in Hr, He.
    split; [done|]. destruct He as [?|[? ->]]; [|by right]. destruct o; [|by left].
    exfalso. revert H. unfold remove_tmp. by rewrite Hm.
  - unfold then_, emit in H. cbn [fst snd app] in H.
    assert (∀ t e, (<[tmp := []]> m :: <[tmp := t]> (<[tmp := []]> m) ::
        (remove_tmp tmp w (<[tmp := t]> (<[tmp := []]> m)) e).1,
        (remove_tmp tmp w (<[tmp := t]> (<[tmp := []]> m)) e).2) = (tr, o) →
      Forall (only_publishes path body tmp m) tr ∧
      match o with
      | Ok m' => m' = <[path := body]> m ∧ last tr = Some m'
      | Err _ => wi_unlink w ≠ None ∨ default m (last tr) = delete tmp m
      end) as Hfail.
    { intros t e. rewrite !insert_insert_eq. intros [= <- <-].
      split; [do 2 (constructor; [done|]); by apply remove_tmp_only|].
      unfold remove_tmp. rewrite lookup_insert_eq. destruct (wi_unlink w); cbn [fst snd]; [by left|right].
      cbn. by rewrite delete_insert_eq. }
    destruct (wi_write w) as [[n e]|]; [by apply (Hfail (take n body) e)|].
    destruct (wi_replace w) as [e|]; cbn [fst snd app] in H; [by apply (Hfail body e)|].
    rewrite !insert_insert_eq, delete_insert_id in H by done. injection H as <- <-. split; [|done].
    repeat (constructor; [done|]). constructor; [|constructor].
    intros p Hp. destruct (decide (p = path)) as [->|Hpp]; [right; by rewrite lookup_insert_eq|].
    left. by rewrite lookup_insert_ne.
Qed.

(** ** Witnesses *)

Definition demo_app_args (count : Z) : AppArgs :=
  mk_app_args (u "SVC.REQUEST") (u "APP.REPLY") count (float_of_Z 1) 4 (u "/var/app.prom").

Definition demo_app_turn (put : res reason bytes) (get : res reason bytes) : AppTurn :=
  mk_aturn None None None put get (float_of_Z 1) (float_of_Z 2) None (Some (u "denied")).

(** A round trip, a missed reply, a failover, and the round trip on the new connection. *)
Definition demo_stream : list AppTurn :=
  [demo_app_turn (Ok [7%N]) (Ok (u "REPLY")); demo_app_turn (Ok [8%N]) (Err 2033%Z);
   demo_app_turn (Err 2009%Z) (Err 2009%Z); demo_app_turn (Ok [9%N]) (Ok (u "REPLY"))].

Example demo_stream_connections :
  let tr := (app_run (demo_app_args 4) demo_stream None).1.1 in
  count_calls connected tr = 2 ∧ count_calls disconnected tr = 2 ∧ conn_run Down tr = Some Down.
Proof. by vm_compute. Qed.

(** The reply queue does not open on the first connection: it is left behind. *)
Example dropped_connection :
  let t := mk_aturn None None (Some 2042%Z) (Ok [7%N]) (Ok (u "REPLY")) (float_of_Z 1) (float_of_Z 2) None None in
  let tr := (app_run (demo_app_args 2) (t :: demo_stream) None).1.1 in
  count_calls connected tr = 2 ∧ count_calls disconnected tr = 1 ∧ conn_run Down tr = Some Down.
Proof. by vm_compute. Qed.

Lemma textfile_atomic_witness :
  let w := mk_wio 42 (u "0badcafe") None (Some (3, u "disk full")) None None in
  let path := u "/var/app.prom" in
  tmp_name path w = u "/var/.app.prom.42.0badcafe.tmp" ∧
  default ({[path := u "old"]} : Files) (last (write_textfile path (u "new text") w {[path := u "old"]}).1)
    = {[path := u "old"]}.
Proof.
  intros w path. split; [by vm_compute|].
  destruct (textfile_atomic path (u "new text") w {[path := u "old"]} _ _
    ltac:(apply (bool_decide_unpack _); by vm_compute) (surjective_pairing _)) as (_ & _ & H).
  assert (∃ e, (write_textfile path (u "new text") w {[path := u "old"]}).2 = Err e) as [e He]
    by (eexists; by vm_compute).
  rewrite He in H. destruct H as [?| ->]; [done|]. by vm_compute.
Defined.
