(* ===== verification/FloatRank.v ===== *)
(** * Products of binary64 numbers, rounded

    The product of two positive floats is the grid point just below or just above the exact
    product, and the exact product when that is on the grid. From this, the ceiling of
    [p / 100 * n], the nearest rank of a percentile, is the exact one for the percentiles the
    benchmark reports and every number of samples below 2 ** 40. *)

From S2P Require Import Prelude PyFloat.

Local Open Scope Z_scope.

(** [math.ceil] of a finite float; [None] is its error on an infinity or NaN. *)
Definition fceil (f : float) : option Z :=
  match f with
  | S754_zero _ => Some 0
  | S754_finite s m e =>
      let z := if s then Z.neg m else Z.pos m in
      Some (if 0 <=? e then z * 2 ^ e else - ((- z) / 2 ^ (- e)))
  | _ => None
  end.

(** ** Digits *)

Lemma digits2_bounds p :
  2 ^ (Z.pos (digits2_pos p) - 1) ≤ Z.pos p < 2 ^ Z.pos (digits2_pos p).
Proof.
  induction p as [p IH|p IH|]; cbn [digits2_pos]; [| |lia];
    rewrite Pos2Z.inj_succ, Z.pow_succ_r by lia;
    replace (Z.succ (Z.pos (digits2_pos p)) - 1) with (Z.succ (Z.pos (digits2_pos p) - 1)) by lia;
    rewrite Z.pow_succ_r by lia; lia.
Qed.

Lemma digits2_unique p d : 2 ^ (d - 1) ≤ Z.pos p < 2 ^ d → 0 < d → Z.pos (digits2_pos p) = d.
Proof.
  intros [Hl Hu] Hd. pose proof (digits2_bounds p) as [Hl' Hu'].
  assert (d - 1 < Z.pos (digits2_pos p)) by (apply (Z.pow_lt_mono_r_iff 2); lia).
  assert (Z.pos (digits2_pos p) - 1 < d) by (apply (Z.pow_lt_mono_r_iff 2); lia).
  lia.
Qed.

(** ** The shift *)

(** [mrs] is [m] shifted right by [k], with whether bits were lost. *)
Definition shifted (m k : Z) (mrs : shr_record) : Prop :=
  shr_m mrs = m / 2 ^ k ∧ (shr_r mrs = false ∧ shr_s mrs = false ↔ m mod 2 ^ k = 0).

Lemma shifted_0 m : shifted m 0 (Build_shr_record m false false).
Proof. split; cbn; [by rewrite Z.div_1_r|]. by rewrite Z.mod_1_r. Qed.

Lemma shr_1_spec mrs :
  0 ≤ shr_m mrs → shr_m (shr_1 mrs) = shr_m mrs / 2 ∧
  shr_r (shr_1 mrs) = Z.odd (shr_m mrs) ∧ shr_s (shr_1 mrs) = shr_r mrs || shr_s mrs.
Proof.
  destruct mrs as [m r s]. cbn. intros Hm.
  destruct m as [|[p|p|]|p]; [done| | |done|lia]; (split_and!; [|done..]); cbn.
  - change (Z.pos p~1) with (2 * Z.pos p + 1). apply Z.div_unique with 1; lia.
  - change (Z.pos p~0) with (2 * Z.pos p). apply Z.div_unique with 0; lia.
Qed.

Lemma shifted_step m k mrs : 0 ≤ m → 0 ≤ k → shifted m k mrs → shifted m (k + 1) (shr_1 mrs).
Proof.
  intros Hm Hk [Hq Hr]. assert (0 < 2 ^ k) by lia.
  assert (0 ≤ shr_m mrs) as H0 by (rewrite Hq; by apply Z.div_pos).
  destruct (shr_1_spec mrs H0) as (Hm1 & Hr1 & Hs1). unfold shifted. rewrite Hm1, Hr1, Hs1, Hq.
  rewrite Z.pow_add_r, Z.pow_1_r by lia. split; [by rewrite Z.div_div by lia|].
  rewrite orb_false_iff, Hr, <-Z.negb_even, negb_false_iff, Z.even_spec.
  rewrite Z.rem_mul_r by lia.
  pose proof (Z.mod_pos_bound m (2 ^ k)). pose proof (Z.mod_pos_bound (m / 2 ^ k) 2).
  split.
  - intros [[h ->] ->]. rewrite (Z.mul_comm 2), Z.mod_mul by lia. lia.
  - intros Heq. split; [|nia]. exists (m / 2 ^ k / 2). pose proof (Z.div_mod (m / 2 ^ k) 2). nia.
Qed.

Lemma shifted_iter m p k mrs :
  0 ≤ m → 0 ≤ k → shifted m k mrs → shifted m (k + Z.pos p) (iter_pos shr_1 p mrs).
Proof.
  intros Hm. revert k mrs. induction p as [p IH|p IH|]; intros k mrs Hk H; cbn [iter_pos].
  - replace (k + Z.pos p~1) with (k + 1 + Z.pos p + Z.pos p) by lia.
    apply IH; [lia|]. apply IH; [lia|]. by apply shifted_step.
  - replace (k + Z.pos p~0) with (k + Z.pos p + Z.pos p) by lia. apply IH; [lia|]. by apply IH.
  - by apply shifted_step.
Qed.

Lemma shr_spec m e n :
  0 ≤ m → 0 ≤ n → ∃ mrs, shr (Build_shr_record m false false) e n = (mrs, e + n) ∧ shifted m n mrs.
Proof.
  intros Hm Hn. destruct n as [|p|p]; [|eexists; split; [done|]|lia].
  - exists (Build_shr_record m false false). cbn. rewrite Z.add_0_r. split; [done|apply shifted_0].
  - change (Z.pos p) with (0 + Z.pos p). apply shifted_iter; [done|lia|apply shifted_0].
Qed.

(** ** Rounding *)

(** To nearest: the quotient or the next, the quotient when nothing was lost. *)
Lemma round_between m k mrs :
  shifted m k mrs →
  let q := round_nearest_even (shr_m mrs) (loc_of_shr_record mrs) in
  m / 2 ^ k ≤ q ≤ m / 2 ^ k + 1 ∧ (m mod 2 ^ k = 0 → q = m / 2 ^ k).
Proof.
  intros [Hm Hr]. destruct mrs as [x r s]. cbn in *. subst x.
  destruct r, s; cbn; try case_match; (split; [lia|]); intros H0%Hr; naive_solver.
Qed.

(** The rounded value of [P * 2 ^ E], [P] of at least 53 digits and the exponent in range:
    [q] grid steps [2 ^ (E + k)]. *)
Lemma round_aux_spec s P E :
  let k := Z.pos (digits2_pos P) - 53 in
  0 ≤ k → -1074 ≤ E + k ≤ 900 →
  ∃ q m e, binary_round_aux prec emax s (Z.pos P) E loc_Exact = S754_finite s m e ∧
    2 ^ 52 ≤ Z.pos m < 2 ^ 53 ∧ E + k ≤ e ≤ E + k + 1 ∧ Z.pos m * 2 ^ (e - (E + k)) = q ∧
    Z.pos P / 2 ^ k ≤ q ≤ Z.pos P / 2 ^ k + 1 ∧ (Z.pos P mod 2 ^ k = 0 → q = Z.pos P / 2 ^ k).
Proof.
  intros k Hk HE. pose proof (digits2_bounds P) as [Hl Hu].
  assert (∀ d e, -1074 ≤ d + e - 53 → fexp prec emax (d + e) = d + e - 53) as Hfexp.
  { intros d e H. unfold fexp, emin, prec, emax. lia. }
  unfold binary_round_aux, shr_fexp. cbn [shr_record_of_loc Zdigits2].
  rewrite Hfexp by (unfold k in HE; lia).
  replace (Z.pos (digits2_pos P) + E - 53 - E) with k by (unfold k; lia).
  destruct (shr_spec (Z.pos P) E k) as (mrs & -> & Hsh); [lia|done|].
  destruct (round_between _ _ _ Hsh) as [Hq Hexact].
  set (q := round_nearest_even (shr_m mrs) (loc_of_shr_record mrs)) in *.
  assert (2 ^ 52 ≤ Z.pos P / 2 ^ k < 2 ^ 53) as [Hq1 Hq2].
  { split.
    - apply Z.div_le_lower_bound; [lia|]. rewrite <-Z.pow_add_r by lia.
      by replace (k + 52) with (Z.pos (digits2_pos P) - 1) by (unfold k; lia).
    - apply Z.div_lt_upper_bound; [lia|]. rewrite <-Z.pow_add_r by lia.
      by replace (k + 53) with (Z.pos (digits2_pos P)) by (unfold k; lia). }
  destruct q as [|qp|] eqn:Hqe; [lia| |lia]. cbn [Zdigits2].
  destruct (decide (Z.pos qp = 2 ^ 53)) as [Hc|Hc].
  - assert (qp = (2 ^ 53)%positive) as -> by lia.
    replace (fexp prec emax (Z.pos (digits2_pos (2 ^ 53)) + (E + k)) - (E + k)) with 1
      by (rewrite Hfexp; change (Z.pos (digits2_pos (2 ^ 53))) with 54; lia).
    destruct (shr_spec (Z.pos (2 ^ 53)) (E + k) 1) as (mrs2 & -> & [Hm2 _]); [lia|lia|].
    rewrite Hm2. change (Z.pos (2 ^ 53) / 2 ^ 1) with (Z.pos (2 ^ 52)).
    rewrite (proj2 (Z.leb_le _ _)) by (unfold emax, prec; lia).
    exists (2 ^ 53), (2 ^ 52)%positive, (E + k + 1). split_and!; try done; try lia.
    replace (E + k + 1 - (E + k)) with 1 by lia. done.
  - assert (Z.pos (digits2_pos qp) = 53) as Hd by (apply digits2_unique; lia).
    replace (fexp prec emax (Z.pos (digits2_pos qp) + (E + k)) - (E + k)) with 0
      by (rewrite Hd, Hfexp; lia).
    destruct (shr_spec (Z.pos qp) (E + k) 0) as (mrs2 & -> & [Hm2 _]); [lia|lia|].
    rewrite Hm2, Z.div_1_r, Z.add_0_r.
    rewrite (proj2 (Z.leb_le _ _)) by (unfold emax, prec; lia).
    exists (Z.pos qp), qp, (E + k). split_and!; try done; try lia.
    by rewrite Z.sub_diag, Z.mul_1_r.
Qed.

(** ** Integers and hundredths *)

(** An integer below 2 ** 40 is exact: a 53-digit mantissa. *)
Lemma float_of_Z_pos n :
  0 < n < 2 ^ 40 → ∃ m t, float_of_Z n = S754_finite false m (- t) ∧
    Z.pos m = n * 2 ^ t ∧ 2 ^ 52 ≤ Z.pos m < 2 ^ 53 ∧ 13 ≤ t ≤ 52.
Proof.
  intros Hn. destruct n as [|p|p]; [lia| |lia]. unfold float_of_Z, float_of, binary_normalize, binary_round.
  pose proof (digits2_bounds p) as [Hl Hu]. set (d := Z.pos (digits2_pos p)) in *.
  assert (1 ≤ d ≤ 40) as Hd.
  { split; [lia|]. assert (d - 1 < 40) by (apply (Z.pow_lt_mono_r_iff 2); lia). lia. }
  assert (fexp prec emax (d + 0) = d - 53) as -> by (unfold fexp, emin, prec, emax; lia).
  unfold shl_align. destruct (d - 53 - 0) as [|x|x] eqn:Hx; [lia|lia|].
  set (mz := Pos.iter xO p x).
  assert (Z.pos mz = Z.pos p * 2 ^ (53 - d)) as Hmz.
  { unfold mz. replace (53 - d) with (Z.pos x) by lia. clear. rewrite <-Z.shiftl_mul_pow2 by lia.
    cbn. induction x as [|x IH] using Pos.peano_ind; [done|]. rewrite Pos.iter_succ, Pos2Z.inj_xO, IH.
    rewrite !Z.shiftl_mul_pow2, Pos2Z.inj_succ, Z.pow_succ_r by lia. lia. }
  assert (2 ^ 52 ≤ Z.pos mz < 2 ^ 53) as Hb.
  { rewrite Hmz. replace (2 ^ 52) with (2 ^ (d - 1) * 2 ^ (53 - d)) by (rewrite <-Z.pow_add_r by lia; f_equal; lia).
    replace (2 ^ 53) with (2 ^ d * 2 ^ (53 - d)) by (rewrite <-Z.pow_add_r by lia; f_equal; lia). nia. }
  assert (Z.pos (digits2_pos mz) = 53) as Hdig by (apply digits2_unique; lia).
  destruct (round_aux_spec false mz (d - 53)) as (q & m & e & -> & Hm & He & Hq & _ & Hex);
    rewrite Hdig in *; [lia|lia|].
  rewrite Z.sub_diag, Z.add_0_r, Z.pow_0_r, Z.mod_1_r, Z.div_1_r in *. rewrite (Hex eq_refl) in Hq.
  destruct (decide (e = d - 53)) as [->|Hne].
  - rewrite Z.sub_diag, Z.mul_1_r in Hq. exists m, (53 - d). split_and!; try lia.
    by replace (- (53 - d)) with (d - 53) by lia.
  - replace (e - (d - 53)) with 1 in Hq by lia. lia.
Qed.

(** The ceiling of a positive float with a non-positive exponent. *)
Lemma fceil_spec m t j :
  0 ≤ t → (j - 1) * 2 ^ t < Z.pos m ≤ j * 2 ^ t → fceil (S754_finite false m (- t)) = Some j.
Proof.
  intros Ht [Hl Hu]. unfold fceil. f_equal. destruct (Z.leb_spec 0 (- t)) as [H0|H0].
  - assert (t = 0) as -> by lia. rewrite Z.mul_1_r in *. lia.
  - rewrite Z.opp_involutive. assert (- Z.pos m / 2 ^ t = - j); [|lia].
    symmetry. apply Z.div_unique with (j * 2 ^ t - Z.pos m); lia.
Qed.

(** The product of a float just below [p / 100] with an integer rounds up to the exact
    ceiling of [p * n / 100]. *)
Lemma ceil_product mc p n j :
  2 ^ 52 ≤ Z.pos mc < 2 ^ 53 → p * 2 ^ 53 - 100 ≤ 100 * Z.pos mc ≤ p * 2 ^ 53 →
  0 < n < 2 ^ 40 → 100 * (j - 1) < p * n ≤ 100 * j →
  fceil (fmul (S754_finite false mc (-53)) (float_of_Z n)) = Some j.
Proof.
  intros Hmc Hp Hn Hj. destruct (float_of_Z_pos n Hn) as (mn & t & -> & Hmn & Hmn2 & Ht).
  unfold fmul, SFmul. cbn [xorb]. set (P := (mc * mn)%positive).
  assert (Z.pos P = Z.pos mc * n * 2 ^ t) as HP by (unfold P; rewrite Pos2Z.inj_mul, Hmn; lia).
  assert (105 ≤ Z.pos (digits2_pos P) ≤ 106) as HD.
  { pose proof (digits2_bounds P) as [Hl Hu].
    assert (2 ^ 104 ≤ Z.pos P < 2 ^ 106) as [H1 H2] by (unfold P; rewrite Pos2Z.inj_mul; nia).
    split.
    - assert (104 < Z.pos (digits2_pos P)); [|lia]. apply (Z.pow_lt_mono_r_iff 2); lia.
    - assert (Z.pos (digits2_pos P) - 1 < 106); [|lia]. apply (Z.pow_lt_mono_r_iff 2); lia. }
  destruct (round_aux_spec false P (-53 + - t)) as (q & m & e & -> & Hm & He & Hq & Hqb & Hex); [lia|lia|].
  set (k := Z.pos (digits2_pos P) - 53) in *.
  set (g := 53 + t - k) in *. assert (0 < g) as Hg by lia.
  (* [q] is between the grid values of [j - 1] and [j]. *)
  assert (2 ^ (53 + t) = 2 ^ g * 2 ^ k) as Hpow by (rewrite <-Z.pow_add_r by lia; f_equal; lia).
  assert (Z.pos P ≤ j * 2 ^ (53 + t)) as Hup.
  { rewrite HP, Z.pow_add_r by lia. assert (Z.pos mc * n ≤ j * 2 ^ 53); nia. }
  assert (((j - 1) * 2 ^ g + 1) * 2 ^ k ≤ Z.pos P) as Hlow.
  { replace (((j - 1) * 2 ^ g + 1) * 2 ^ k) with ((j - 1) * 2 ^ (53 + t) + 2 ^ k) by (rewrite Hpow; ring).
    replace (2 ^ k) with (2 ^ (k - t) * 2 ^ t) by (rewrite <-Z.pow_add_r by lia; f_equal; lia).
    rewrite HP, Z.pow_add_r by lia.
    assert (2 ^ (k - t) ≤ 2 ^ 40) by (apply Z.pow_le_mono_r; lia).
    assert ((j - 1) * 2 ^ 53 + 2 ^ (k - t) ≤ Z.pos mc * n); nia. }
  assert (0 < 2 ^ k) as Hk by lia.
  assert ((j - 1) * 2 ^ g < q ≤ j * 2 ^ g) as Hrange.
  { pose proof (Z.div_mod (Z.pos P) (2 ^ k)) as Hdm. pose proof (Z.mod_pos_bound (Z.pos P) (2 ^ k) Hk) as Hmod.
    split; [assert ((j - 1) * 2 ^ g + 1 ≤ Z.pos P / 2 ^ k); [apply Z.div_le_lower_bound; lia|lia]|].
    destruct (decide (Z.pos P mod 2 ^ k = 0)) as [H0|H0].
    - rewrite (Hex H0). apply Z.div_le_upper_bound; lia.
    - assert (Z.pos P / 2 ^ k < j * 2 ^ g); [|lia]. nia. }
  clear Hup Hlow. rewrite <-Hq in Hrange.
  replace e with (- - e) by lia. apply fceil_spec; [lia|].
  replace (2 ^ g) with (2 ^ (- e) * 2 ^ (e - (-53 + - t + k))) in Hrange
    by (rewrite <-Z.pow_add_r by lia; f_equal; lia).
  assert (0 < 2 ^ (e - (-53 + - t + k))) by lia. nia.
Qed.

(** The nearest rank [math.ceil(p / 100 * n)] of the percentiles 50, 95 and 99. *)
Lemma rank_exact p n :
  p ∈ [50; 95; 99] → 0 < n < 2 ^ 40 →
  ∃ r, fceil (fmul (fdiv (float_of_Z p) (float_of_Z 100)) (float_of_Z n)) = Some r ∧
    100 * (r - 1) < p * n ≤ 100 * r.
Proof.
  intros Hp Hn. exists (- (- (p * n) / 100)).
  assert (100 * (- (- (p * n) / 100) - 1) < p * n ≤ 100 * - (- (p * n) / 100)) as Hj.
  { pose proof (Z.div_mod (- (p * n)) 100). pose proof (Z.mod_pos_bound (- (p * n)) 100). lia. }
  split; [|done].
  assert (∃ mc, fdiv (float_of_Z p) (float_of_Z 100) = S754_finite false mc (-53) ∧
    2 ^ 52 ≤ Z.pos mc < 2 ^ 53 ∧ p * 2 ^ 53 - 100 ≤ 100 * Z.pos mc ≤ p * 2 ^ 53) as (mc & -> & Hmc & Hp2).
  { rewrite !elem_of_cons, elem_of_nil in Hp.
    destruct Hp as [->|[->|[->|[]]]]; (eexists; split; [by vm_compute|lia]). }
  by apply (ceil_product mc p).
Qed.
