(* ===== verification/Bench.v ===== *)
(** * The commit-latency benchmark client

    Models [mqrc/bench_client.py]: the nearest-rank percentiles in binary64, the
    depth-trend flag, the results record, the diagnosis of a window without commits, and
    the warmup and measure loop over what the queue manager and the clock answer. *)

From S2P Require Import Prelude Trace PyText PyCodec PyDict PyFloat FloatRank Mqi AppRequester.

Open Scope trace_scope.

(** ** Percentiles *)

(** [l[i]], a negative index counting from the end. *)
Definition index {A} (l : list A) (i : Z) : option A :=
  if (0 <=? i)%Z then l !! Z.to_nat i
  else if (- Z.of_nat (length l) <=? i)%Z then l !! Z.to_nat (Z.of_nat (length l) + i) else None.

Inductive bench_error := NoSamples | OutOfRange (p : float) | NotFinite | IndexError.

(** [math.ceil(p / 100 * n)]. *)
Definition rank (p : float) (n : nat) : option Z :=
  fceil (fmul (fdiv p (float_of_Z 100)) (float_of_Z (Z.of_nat n))).

Definition sorted_floats (l : list float) : list float := isort fleb l.

Definition percentile (ordered : list float) (p : float) : res bench_error (float * float) :=
  if fltb fzero p && fleb p (float_of_Z 100) then
    r ← of_option NotFinite (rank p (length ordered));
    v ← of_option IndexError (index ordered (r - 1));
    Ok (p, v)
  else Err (OutOfRange p).

Definition percentiles (samples pcts : list float) : res bench_error (list (float * float)) :=
  if bool_decide (samples = []) then Err NoSamples
  else res_mapM (percentile (sorted_floats samples)) pcts.

(** [max(samples)]. *)
Definition max_float (samples : list float) : float :=
  match samples with [] => fzero | x :: l => foldl fmax x l end.

Record LatencySummary := mk_summary { lt_p50 : float; lt_p95 : float; lt_p99 : float; lt_max : float }.

(** [latency_summary]. *)
Definition latency_summary (samples : list float) : res bench_error LatencySummary :=
  pcts ← percentiles samples [float_of_Z 50; float_of_Z 95; float_of_Z 99];
  match pcts with
  | [(_, a); (_, b); (_, c)] => Ok (mk_summary a b c (max_float samples))
  | _ => Err IndexError
  end.

(** ** The record of a run *)

(** [sum(l) / len(l)]. *)
Definition mean (l : list float) : float :=
  fdiv (foldl fadd fzero l) (float_of_Z (Z.of_nat (length l))).

Definition depth_is_bounded (depths : list float) (tolerance abs_slack : float) : bool :=
  if length depths <? 2 then true else
    let mid := length depths / 2 in
    fleb (mean (drop mid depths))
      (fadd (fmul (mean (take mid depths)) (fadd (float_of_Z 1) tolerance)) abs_slack).

(** The defaults 0.10 and 1.0: 0.1 is the double 3602879701896397 * 2 ** -55. *)
Definition TOLERANCE : float := float_of 3602879701896397 (-55).
Definition ABS_SLACK : float := float_of_Z 1.

(** The labels of a sweep point, recorded as they are given. *)
Record SweepPoint := mk_point {
    sp_mode : text; sp_delay_ms : float; sp_msg_size : Z; sp_offered_rate : float;
    sp_warmup : float; sp_measure : float
  }.

Record BenchRecord := mk_brecord {
    br_point : SweepPoint; br_achieved : float; br_count : nat; br_depth_bounded : bool;
    br_latency : LatencySummary; br_timestamp : text
  }.

(** [results_record]; the timestamp is the one given or the clock's. *)
Definition results_record (pt : SweepPoint) (lats depths : list float) (elapsed : float)
  (timestamp : text) : res bench_error BenchRecord :=
  let achieved := if fltb fzero elapsed then fdiv (float_of_Z (Z.of_nat (length lats))) elapsed else fzero in
  summary ← latency_summary lats;
  Ok (mk_brecord pt achieved (length lats) (depth_is_bounded depths TOLERANCE ABS_SLACK) summary timestamp).

(** ** The diagnosis of a window without commits *)

Definition UNREACHABLE_REASONS : list reason := RECONNECT_REASONS ++ [2537; 2538]%Z.

(** [Counter(reasons)]: the counts in the order of first occurrence; [most_common()], by
    decreasing count, ties in that order. *)
Definition tally (rs : list reason) : list (reason * nat) :=
  foldl (λ d r, dset d r (S (dget_or d r 0))) [] rs.

Definition most_common (rs : list reason) : list (reason * nat) :=
  isort (λ x y, (y.2 <=? x.2)%nat) (tally rs).

Section diagnosis.
(** [reason_names(ibmmq.CMQC)]. *)
Context (names : reason → option text).

Definition fmt_reason (r : reason) : text := Z_text r ++ u " " ++ default (u "MQRC_UNKNOWN") (names r).

Definition no_commits_message (rs : list reason) : text :=
  let head := u "bench produced NO measured commits" in
  match most_common rs with
  | [] => head ++ u " -- no commit was attempted in the measure window"
  | (common, common_n) :: _ =>
      let seen := str_join (u ", ")
        ((λ '(r, n), fmt_reason r ++ u " x" ++ nat_str n) <$> most_common rs) in
      if forallb (λ r, bool_decide (r ∈ UNREACHABLE_REASONS)) (tally rs).*1 then
        head ++ u " -- QM unreachable the whole window (connection failures: " ++ seen ++ u ")"
      else
        head ++ u " -- the QM refused every commit: most common MQRC " ++ fmt_reason common ++
        u " (x" ++ nat_str common_n ++ u " of " ++ nat_str (length rs) ++ u "), last MQRC " ++
        fmt_reason (default common (last rs)) ++ u "; seen: " ++ seen
  end.
End diagnosis.

(** ** The warmup and measure loop *)

Inductive bop :=
  | ConnectB (r : option reason)
  | OpenB (r : option reason)
  | PutB (r : option reason)
  | CommitB (r : option reason)
  | OpenInqB (r : option reason)
  | InquireB (r : res reason Z)
  | CloseInqB (r : option reason)
  | DisconnectB (r : option reason)
  | CommitFailed (r : reason)
  | PublishB (s : RoundTripStats)
  | SleepB (seconds : float).

(** What the world answers during one turn: whether [duration_s] has not elapsed, the calls of
    [_commit_once] with the two clock readings, those of [_current_depth], and a disconnect. *)
Record BTurn := mk_bturn {
    bt_time : bool; bt_connect : option reason; bt_open : option reason; bt_put : option reason;
    bt_commit : option reason; bt_t0 : float; bt_t1 : float; bt_open_inq : option reason;
    bt_inquire : res reason Z; bt_close_inq : option reason; bt_disc : option reason
  }.

Definition callb (o : option reason → bop) (r : option reason) : traced bop reason () :=
  emit (o r) (match r with Some e => Err e | None => Ok tt end).

(** [_connect]. *)
Definition connectb (t : BTurn) : traced bop reason () :=
  let* _ := callb ConnectB (bt_connect t) in callb OpenB (bt_open t).

Definition put_commit (t : BTurn) : traced bop reason float :=
  let* _ := callb PutB (bt_put t) in
  let* _ := callb CommitB (bt_commit t) in
  quiet (Ok (fmul (fsub (bt_t1 t) (bt_t0 t)) (float_of_Z 1000))).

(** [_commit_once]: the calls, whether the connection is held, the latency. *)
Definition commit_once (t : BTurn) (held : bool) : list bop * bool * res reason float :=
  if held then let '(tr, o) := put_commit t in (tr, true, o)
  else match connectb t with
       | (tr, Err r) => (tr, false, Err r)
       | (tr, Ok _) => let '(tr2, o) := put_commit t in (tr ++ tr2, true, o)
       end.

(** [_current_depth] on the held connection; the close of the [finally] clause may raise. *)
Definition current_depth (t : BTurn) : traced bop reason float :=
  let* _ := callb OpenInqB (bt_open_inq t) in
  let d := emit (InquireB (bt_inquire t)) (float_of_Z <$> bt_inquire t) in
  let close := callb CloseInqB (bt_close_inq t) in
  (d.1 ++ close.1, match close.2 with Err e => Err e | Ok _ => d.2 end).

(** The variables of a phase. *)
Record Phase := mk_phase {
    ph_held : bool; ph_latencies : list float; ph_depths : list float; ph_stats : RoundTripStats;
    ph_reasons : list reason
  }.

(** The arguments [run] reads. *)
Record BenchArgs := mk_bargs { ba_count : Z; ba_rate : float; ba_textfile : bool; ba_point : SweepPoint }.

Definition bench_interval (a : BenchArgs) : float :=
  if fltb fzero (ba_rate a) then fdiv (float_of_Z 1) (ba_rate a) else fzero.

(** The [try] body of a turn: its calls, the variables, the reason it raised. *)
Definition bench_attempt (record : bool) (t : BTurn) (i : nat) (p : Phase) :
  list bop * Phase * option reason :=
  let '(tr, held, o) := commit_once t (ph_held p) in
  match o with
  | Err r => (tr, mk_phase held (ph_latencies p) (ph_depths p) (ph_stats p) (ph_reasons p), Some r)
  | Ok dt =>
      if record then
        let p1 := mk_phase held (ph_latencies p ++ [dt]) (ph_depths p) (record_success (ph_stats p) dt)
                    (ph_reasons p) in
        if bool_decide (i mod 100 = 0) then
          match current_depth t with
          | (tr2, Ok d) => (tr ++ tr2, mk_phase held (ph_latencies p1) (ph_depths p ++ [d]) (ph_stats p1) (ph_reasons p), None)
          | (tr2, Err r) => (tr ++ tr2, p1, Some r)
          end
        else (tr, p1, None)
      else (tr, mk_phase held (ph_latencies p) (ph_depths p) (ph_stats p) (ph_reasons p), None)
  end.

(** The [except] clause. *)
Definition bench_failed (record : bool) (t : BTurn) (p : Phase) (r : reason) : list bop * Phase :=
  let dead := is_reconnectable r in
  (CommitFailed r :: (if dead && ph_held p then [DisconnectB (bt_disc t)] else []),
   mk_phase (negb dead && ph_held p) (ph_latencies p) (ph_depths p)
     (if record then record_failure (ph_stats p) else ph_stats p)
     (if record then ph_reasons p ++ [r] else ph_reasons p)).

Definition bench_turn (a : BenchArgs) (record : bool) (t : BTurn) (i : nat) (p : Phase) : list bop * Phase :=
  let '(tr, p1, o) := bench_attempt record t i p in
  let '(tr2, p2) := match o with Some r => bench_failed record t p1 r | None => ([], p1) end in
  (tr ++ tr2 ++ (if record && ba_textfile a then [PublishB (ph_stats p2)] else []) ++
   (if feqb (bench_interval a) fzero then [] else [SleepB (bench_interval a)]), p2).

(** [_phase]: [count] attempts, or attempts while the duration lasts when [count] is 0; the
    flag tells that the loop was left, not that the inputs ran out. *)
Fixpoint phase (a : BenchArgs) (record : bool) (count : Z) (ts : list BTurn) (i : nat) (p : Phase) :
  list bop * Phase * bool :=
  match ts with
  | [] => ([], p, (if 0 <? count then count <=? Z.of_nat i else negb (count =? 0))%Z)
  | t :: ts =>
      if ((0 <? count) && (Z.of_nat i <? count) || (count =? 0) && bt_time t)%Z then
        let '(tr, p1) := bench_turn a record t i p in
        let '(tr2, p2, over) := phase a record count ts (S i) p1 in
        (tr ++ tr2, p2, over)
      else ([], p, true)
  end.

(** How a run ends: a window without commits, a record with its exit code, an error of the
    percentiles; or it is observed up to where its inputs end. *)
Inductive bench_end :=
  | NoCommits (reasons : list reason) | Measured (r : BenchRecord) (code : Z) | Bug (e : bench_error)
  | StillRunning.

(** [run]. *)
Definition bench_run (a : BenchArgs) (warm measure : list BTurn) (elapsed : float) (timestamp : text)
  (disc : option reason) : list bop * Phase * bench_end :=
  let '(tr1, p1, over1) := phase a false 0 warm 0 (mk_phase false [] [] (new_stats BUCKETS_MS) []) in
  if negb over1 then (tr1, p1, StillRunning) else
  let '(tr2, p2, over2) := phase a true (ba_count a) measure 0
    (mk_phase (ph_held p1) [] [] (ph_stats p1) (ph_reasons p1)) in
  if negb over2 then (tr1 ++ tr2, p2, StillRunning) else
  let tr := tr1 ++ tr2 ++ (if ph_held p2 then [DisconnectB disc] else []) in
  (tr, p2,
   if bool_decide (ph_latencies p2 = []) then NoCommits (ph_reasons p2) else
   match results_record (ba_point a) (ph_latencies p2) (ph_depths p2) elapsed timestamp with
   | Err e => Bug e
   | Ok r => Measured r (if bool_decide (rs_failures (ph_stats p2) = 0) then 0 else 1)
   end).

(** [main]'s exit code: 1 without commits, else whether anything failed. *)
Definition bench_code (e : bench_end) : option Z :=
  match e with NoCommits _ => Some 1%Z | Measured _ c => Some c | _ => None end.

(** ** The percentiles are the nearest-rank ones *)

Definition at_most (v : float) (l : list float) : nat := length (List.filter (λ x, fleb x v) l).
Definition below (v : float) (l : list float) : nat := length (List.filter (λ x, fltb x v) l).

Lemma filter_length_Permutation (p : float → bool) l k :
  l ≡ₚ k → length (List.filter p l) = length (List.filter p k).
Proof. intros H. by rewrite (bfilter_Permutation p l k H). Qed.

Lemma sorted_counts l i v :
  Forall (λ x, is_nan x = false) l → StronglySorted fleb l → l !! i = Some v →
  i < at_most v l ∧ below v l ≤ i.
Proof.
  intros Hn Hs. revert i. induction Hs as [|x l Hs IH Hx]; intros i Hi; [done|].
  apply Forall_cons in Hn as [Hxn Hn]. unfold at_most, below in *. destruct i as [|i]; simpl in Hi.
  - injection Hi as <-. cbn [List.filter].
    destruct (fleb_total x x Hxn Hxn) as [Hxx|Hxx]; rewrite Hxx, fltb_fleb, Hxx by done; cbn [negb];
      (split; [simpl; lia|]); (assert (List.filter (λ y, fltb y x) l = []) as ->; [|done]);
      clear IH Hs Hxx; induction l as [|y l IHl]; [done| |done|];
      apply Forall_cons in Hx as [Hxy Hx]; apply Forall_cons in Hn as [Hyn Hn]; cbn [List.filter];
      rewrite (fltb_fleb y x), (Is_true_true_1 _ Hxy) by done; cbn [negb]; by apply IHl.
  - destruct (IH Hn i Hi) as [H1 H2].
    assert (fleb x v = true) as Hxv.
    { apply list_elem_of_lookup_2 in Hi. rewrite Forall_forall in Hx. by apply Is_true_true, Hx. }
    cbn [List.filter]. rewrite Hxv. destruct (fltb x v); simpl; lia.
Qed.

(** A percentile the record reports is always found: its rank is that of a sample. *)
Lemma percentile_total samples p :
  p ∈ [50; 95; 99]%Z → samples ≠ [] → (Z.of_nat (length samples) < 2 ^ 40)%Z →
  ∃ r v, percentile (sorted_floats samples) (float_of_Z p) = Ok (float_of_Z p, v) ∧
    sorted_floats samples !! r = Some v ∧
    (100 * Z.of_nat r < p * Z.of_nat (length samples) ≤ 100 * (Z.of_nat r + 1))%Z.
Proof.
  intros Hp Hne Hlen.
  assert (0 < length samples) as Hpos by (destruct samples; [done|simpl; lia]).
  destruct (rank_exact p (Z.of_nat (length samples)) Hp) as (r & Hr & Hrp); [lia|].
  assert (50 ≤ p ≤ 99)%Z as Hp2 by (rewrite !elem_of_cons, elem_of_nil in Hp; lia).
  assert (1 ≤ r ≤ Z.of_nat (length samples))%Z as Hrb by nia.
  assert (length (sorted_floats samples) = length samples) as Hls by apply length_isort.
  destruct (lookup_lt_is_Some_2 (sorted_floats samples) (Z.to_nat (r - 1))) as [v Hv]; [lia|].
  exists (Z.to_nat (r - 1)), v. split_and!; [|done|lia|lia].
  unfold percentile, rank. rewrite Hls, Hr.
  assert (fltb fzero (float_of_Z p) && fleb (float_of_Z p) (float_of_Z 100) = true) as ->.
  { rewrite !elem_of_cons, elem_of_nil in Hp. destruct Hp as [->|[->|[->|[]]]]; by vm_compute. }
  cbn [mbind res_bind of_option]. unfold index. rewrite (proj2 (Z.leb_le _ _)) by lia. by rewrite Hv.
Qed.

(** The summary never fails on a window with commits. *)
Lemma latency_summary_total samples :
  samples ≠ [] → (Z.of_nat (length samples) < 2 ^ 40)%Z → ∃ s, latency_summary samples = Ok s.
Proof.
  intros Hne Hlen. unfold latency_summary, percentiles. rewrite bool_decide_eq_false_2 by done.
  pose proof (λ p Hp, percentile_total samples p Hp Hne Hlen) as Hp.
  destruct (Hp 50%Z ltac:(left)) as (? & ? & Ha & _), (Hp 95%Z ltac:(right; left)) as (? & ? & Hb & _),
    (Hp 99%Z ltac:(right; right; left)) as (? & ? & Hc & _).
  cbn [res_mapM]. rewrite Ha, Hb, Hc. by eexists.
Qed.

(** [v] is the nearest-rank [p]-th percentile: the least sample that at least [p] per cent of
    the samples do not exceed. *)
Definition nearest_rank (p : Z) (samples : list float) (v : float) : Prop :=
  v ∈ samples ∧ (p * Z.of_nat (length samples) ≤ 100 * Z.of_nat (at_most v samples))%Z ∧
  (100 * Z.of_nat (below v samples) < p * Z.of_nat (length samples))%Z.

Lemma percentile_exact samples p :
  p ∈ [50; 95; 99]%Z → Forall (λ x, is_nan x = false) samples → samples ≠ [] →
  (Z.of_nat (length samples) < 2 ^ 40)%Z →
  ∃ v, percentile (sorted_floats samples) (float_of_Z p) = Ok (float_of_Z p, v) ∧ nearest_rank p samples v.
Proof.
  intros Hp Hn Hne Hlen. destruct (percentile_total samples p Hp Hne Hlen) as (r & v & Hv & Hr & Hrange).
  exists v. split; [done|].
  assert (Forall (λ x, is_nan x = false) (sorted_floats samples)) as Hns
    by (unfold sorted_floats; by rewrite isort_Permutation).
  destruct (sorted_counts (sorted_floats samples) r v Hns) as [H1 H2]; [|done|].
  { apply (isort_StronglySorted fleb (λ x, is_nan x = false)); [| |done].
    - intros x y. apply fleb_total.
    - intros x y z. apply fleb_trans. }
  unfold nearest_rank, at_most, below in *.
  pose proof (isort_Permutation fleb samples) as Hperm. fold (sorted_floats samples) in Hperm.
  rewrite (filter_length_Permutation _ _ _ Hperm) in H1. rewrite (filter_length_Permutation _ _ _ Hperm) in H2.
  split_and!; [|nia|nia]. apply list_elem_of_lookup_2 in Hr. by apply elem_of_isort in Hr.
Qed.

Lemma fmax_spec a b :
  is_nan a = false → is_nan b = false →
  fleb a (fmax a b) = true ∧ fleb b (fmax a b) = true ∧ (fmax a b = a ∨ fmax a b = b).
Proof.
  intros Ha Hb. unfold fmax. destruct (fltb a b) eqn:Hlt; rewrite fltb_fleb in Hlt by done.
  - apply negb_true_iff in Hlt. destruct (fleb_total a b Ha Hb) as [H|H]; [|congruence].
    split_and!; [done|by destruct (fleb_total b b Hb Hb)|by right].
  - apply negb_false_iff in Hlt. split_and!; [by destruct (fleb_total a a Ha Ha)|done|by left].
Qed.

(** [max] is a sample that no sample exceeds. *)
Lemma max_float_spec samples :
  Forall (λ x, is_nan x = false) samples → samples ≠ [] →
  max_float samples ∈ samples ∧ Forall (λ x, fleb x (max_float samples) = true) samples.
Proof.
  destruct samples as [|x l]; [done|]. intros [Hx Hl]%Forall_cons _. cbn [max_float].
  revert x Hx. induction Hl as [|y l Hy Hl IH]; intros x Hx; cbn [foldl].
  - split; [by left|]. constructor; [by destruct (fleb_total x x Hx Hx)|constructor].
  - destruct (fmax_spec x y Hx Hy) as (H1 & H2 & H3).
    assert (is_nan (fmax x y) = false) as Hm by (destruct H3 as [-> | ->]; done).
    destruct (IH _ Hm) as [Hin Hall]. apply Forall_cons in Hall as [Htop Hall].
    assert (is_nan (foldl fmax (fmax x y) l) = false) as Hnn by (by apply fleb_true_not_nan in Htop as [_ ?]).
    split.
    + apply elem_of_cons in Hin as [->|Hin]; [|by do 2 right]. destruct H3 as [-> | ->]; [by left|by right; left].
    + constructor; [|constructor; [|done]]; [by apply (fleb_trans x (fmax x y))|by apply (fleb_trans y (fmax x y))].
Qed.

(** C33. The latency block of a benchmark record is right, binary64 rounding of the ranks
    included: p50, p95 and p99 are the nearest-rank percentiles of the measured latencies, and
    max is a latency none exceeds, for every window of fewer than 2 ** 40 commits. *)
Theorem latency_summary_exact samples :
  Forall (λ x, is_nan x = false) samples → samples ≠ [] → (Z.of_nat (length samples) < 2 ^ 40)%Z →
  ∃ s, latency_summary samples = Ok s ∧
    nearest_rank 50 samples (lt_p50 s) ∧ nearest_rank 95 samples (lt_p95 s) ∧
    nearest_rank 99 samples (lt_p99 s) ∧
    lt_max s ∈ samples ∧ Forall (λ x, fleb x (lt_max s) = true) samples.
Proof.
  intros Hn Hne Hlen. unfold latency_summary, percentiles. rewrite bool_decide_eq_false_2 by done.
  assert (∀ p, p ∈ [50; 95; 99]%Z → ∃ v, percentile (sorted_floats samples) (float_of_Z p) = Ok (float_of_Z p, v) ∧
    nearest_rank p samples v) as Hp by (intros p Hp; by apply percentile_exact).
  destruct (Hp 50%Z ltac:(left)) as (a & Ha & ?), (Hp 95%Z ltac:(right; left)) as (b & Hb & ?),
    (Hp 99%Z ltac:(right; right; left)) as (c & Hc & ?).
  destruct (max_float_spec samples Hn Hne). eexists. split.
  - cbn [res_mapM]. by rewrite Ha, Hb, Hc.
  - split_and!; assumption.
Qed.

(** ** The diagnosis *)

Definition occurrences (r : reason) (rs : list reason) : nat := length (List.filter (Z.eqb r) rs).

Lemma occurrences_none r rs : r ∉ rs → occurrences r rs = 0.
Proof.
  unfold occurrences. induction rs as [|y rs IH]; [done|]. intros [Hy Hr]%not_elem_of_cons. cbn.
  rewrite (proj2 (Z.eqb_neq r y)) by done. by apply IH.
Qed.

Lemma occurrences_snoc r rs x : occurrences r (rs ++ [x]) = occurrences r rs + (if (r =? x)%Z then 1 else 0).
Proof. unfold occurrences. rewrite List.filter_app, length_app. cbn. by case_match. Qed.

Lemma tally_spec rs :
  dict_wf (tally rs) ∧
  ∀ r, dget (tally rs) r = if decide (r ∈ rs) then Some (occurrences r rs) else None.
Proof.
  induction rs as [|x rs IH] using rev_ind.
  { split; [constructor|]. intros r. rewrite decide_False; [done|set_solver]. }
  unfold tally in *. rewrite foldl_app. cbn [foldl]. destruct IH as [Hnd Hget].
  split; [by apply dset_wf|]. intros r. rewrite dget_dset. unfold dget_or. rewrite Hget.
  rewrite occurrences_snoc. pose proof (elem_of_app rs [x] r) as Happ. rewrite elem_of_cons in Happ.
  destruct (decide (r ∈ rs ++ [x])) as [Hx|Hx]; destruct (decide (x = r)) as [->|Hne].
  - rewrite Z.eqb_refl. f_equal.
    destruct (decide (r ∈ rs)) as [Hr|Hr]; simpl; [lia|]. by rewrite occurrences_none.
  - rewrite (proj2 (Z.eqb_neq r x)), Hget, Nat.add_0_r by done. rewrite decide_True; [done|].
    apply (proj1 Happ) in Hx as [?|[?|Hn]]; [done|congruence|by apply elem_of_nil in Hn].
  - exfalso. apply Hx, Happ. by right; left.
  - rewrite Hget, decide_False; [done|]. intros Hr. apply Hx, Happ. by left.
Qed.

Lemma elem_of_tally rs r n : (r, n) ∈ tally rs ↔ r ∈ rs ∧ n = occurrences r rs.
Proof.
  destruct (tally_spec rs) as [Hwf Hget]. split.
  - intros H%(elem_dget _ _ _ Hwf). rewrite Hget in H. case_decide; naive_solver.
  - intros [Hr ->]. specialize (Hget r). rewrite decide_True in Hget by done.
    by apply dget_elem in Hget.
Qed.

(** The most common reasons: those that occurred, with how often, the most frequent first. *)
Lemma most_common_spec rs :
  (∀ r n, (r, n) ∈ most_common rs ↔ r ∈ rs ∧ n = occurrences r rs) ∧
  match most_common rs with
  | [] => rs = []
  | (c, n) :: _ => c ∈ rs ∧ n = occurrences c rs ∧ ∀ r, occurrences r rs ≤ n
  end.
Proof.
  assert (∀ r n, (r, n) ∈ most_common rs ↔ r ∈ rs ∧ n = occurrences r rs) as Hel.
  { intros r n. unfold most_common. rewrite elem_of_isort. apply elem_of_tally. }
  split; [done|].
  assert (StronglySorted (λ x y : reason * nat, (y.2 <=? x.2)%nat) (most_common rs)) as Hs.
  { apply (isort_StronglySorted _ (λ _, True)); [| |by apply Forall_true].
    - intros x y _ _. rewrite !Nat.leb_le. lia.
    - intros x y z _ _ _. rewrite !Nat.leb_le. lia. }
  destruct (most_common rs) as [|[c n] l].
  - destruct rs as [|r rs]; [done|]. exfalso.
    by apply (elem_of_nil (r, occurrences r (r :: rs))), Hel; split; [left|].
  - destruct (proj1 (Hel c n) ltac:(by left)) as [Hc ->]. split_and!; [done..|]. intros r.
    destruct (decide (r ∈ rs)) as [Hr|Hr].
    + pose proof (proj2 (Hel r _) (conj Hr eq_refl)) as [Hin|Hin]%elem_of_cons; [apply (f_equal fst) in Hin; cbn in Hin; by subst r|].
      apply StronglySorted_inv in Hs as [_ Hs]. rewrite Forall_forall in Hs.
      specialize (Hs _ Hin). apply Is_true_true, Nat.leb_le in Hs. done.
    + rewrite (occurrences_none r rs Hr). lia.
Qed.

(** The texts that open the three diagnoses. *)
Definition unreachable_text : text :=
  u "bench produced NO measured commits -- QM unreachable the whole window (connection failures: ".
Definition refused_text : text :=
  u "bench produced NO measured commits -- the QM refused every commit: most common MQRC ".

(** The diagnosis of a window without commits is true: it blames the connection exactly when
    every reason seen is a connection failure, otherwise it names a reason that occurred most
    often, and it never blames anything when nothing was attempted. *)
Theorem no_commits_diagnosis names rs :
  let msg := no_commits_message names rs in
  (rs = [] → msg = u "bench produced NO measured commits -- no commit was attempted in the measure window") ∧
  (rs ≠ [] → Forall (λ r, r ∈ UNREACHABLE_REASONS) rs → unreachable_text `prefix_of` msg) ∧
  (rs ≠ [] → ¬ Forall (λ r, r ∈ UNREACHABLE_REASONS) rs → ∃ c rest,
     c ∈ rs ∧ (∀ r, occurrences r rs ≤ occurrences c rs) ∧
     msg = refused_text ++ fmt_reason names c ++ u " (x" ++ nat_str (occurrences c rs) ++ rest).
Proof.
  intros msg. unfold msg, no_commits_message. destruct (most_common_spec rs) as [Hel Htop].
  assert (forallb (λ r, bool_decide (r ∈ UNREACHABLE_REASONS)) (tally rs).*1 = true ↔
    Forall (λ r, r ∈ UNREACHABLE_REASONS) rs) as Hall.
  { rewrite forallb_forall, Forall_forall. split.
    - intros H r Hr. apply (bool_decide_eq_true_1 _), H, list_elem_of_In, list_elem_of_fmap.
      exists (r, occurrences r rs). split; [done|]. by apply elem_of_tally.
    - intros H r Hr%list_elem_of_In%list_elem_of_fmap. destruct Hr as ([r' n] & -> & Hr).
      apply elem_of_tally in Hr as [Hr _]. by apply bool_decide_eq_true_2, H. }
  destruct (most_common rs) as [|[c n] l].
  { split_and!; [done|intros Hne; congruence..]. }
  destruct Htop as (Hc & -> & Hmax).
  split; [intros ->; by apply elem_of_nil in Hc|].
  destruct (forallb _ _); split; intros _ HF.
  - rewrite app_assoc. by eexists.
  - by destruct HF; apply Hall.
  - by apply Hall in HF.
  - exists c. eexists. split_and!; [done..|]. rewrite app_assoc. reflexivity.
Qed.

(** ** The loop *)

Definition commits (tr : list bop) : nat :=
  length (List.filter (λ o, match o with CommitB None => true | _ => false end) tr).
Definition failures (tr : list bop) : nat :=
  length (List.filter (λ o, match o with CommitFailed _ => true | _ => false end) tr).

Lemma commits_app t1 t2 : commits (t1 ++ t2) = commits t1 + commits t2.
Proof. unfold commits. by rewrite List.filter_app, length_app. Qed.
Lemma failures_app t1 t2 : failures (t1 ++ t2) = failures t1 + failures t2.
Proof. unfold failures. by rewrite List.filter_app, length_app. Qed.

(** An attempt commits exactly when it has a latency. *)
Lemma commit_once_counts t held :
  let '(tr, _, o) := commit_once t held in
  failures tr = 0 ∧ commits tr = if o is Ok _ then 1 else 0.
Proof.
  unfold commit_once, connectb, put_commit, callb, then_, emit, quiet.
  destruct held, (bt_connect t), (bt_open t), (bt_put t), (bt_commit t); done.
Qed.

Lemma current_depth_counts t : failures (current_depth t).1 = 0 ∧ commits (current_depth t).1 = 0.
Proof.
  unfold current_depth, callb, then_, emit.
  destruct (bt_open_inq t), (bt_inquire t), (bt_close_inq t); done.
Qed.

(** What a recorded stretch of the loop adds to the variables: a latency and a success for each
    clean commit, a reason and a failure for each failure reported. *)
Definition grows (tr : list bop) (p p2 : Phase) : Prop :=
  (∃ l, ph_latencies p2 = ph_latencies p ++ l ∧ length l = commits tr) ∧
  rs_total (ph_stats p2) = rs_total (ph_stats p) + commits tr + failures tr ∧
  rs_failures (ph_stats p2) = rs_failures (ph_stats p) + failures tr ∧
  length (ph_reasons p2) = length (ph_reasons p) + failures tr.

Lemma phase_grows_trans t1 t2 p p1 p2 : grows t1 p p1 → grows t2 p1 p2 → grows (t1 ++ t2) p p2.
Proof.
  intros [(l1 & Hl1 & Hn1) H1] [(l2 & Hl2 & Hn2) H2]. unfold grows in *.
  rewrite commits_app, failures_app. split; [|lia].
  exists (l1 ++ l2). rewrite Hl2, Hl1, app_assoc, length_app. split; [done|lia].
Qed.

Lemma grows_idle tr p : commits tr = 0 → failures tr = 0 → grows tr p p.
Proof.
  intros Hc Hf. unfold grows. rewrite Hc, Hf, !Nat.add_0_r. split; [|done].
  exists []. by rewrite app_nil_r.
Qed.

Lemma bench_attempt_grows t i p :
  let '(tr, p1, _) := bench_attempt true t i p in grows tr p p1.
Proof.
  unfold bench_attempt. pose proof (commit_once_counts t (ph_held p)) as Hc.
  destruct (commit_once t (ph_held p)) as [[tr held] [dt|r]]; destruct Hc as [Hf Hc].
  2:{ unfold grows. rewrite Hc, Hf, !Nat.add_0_r. split; [|done]. exists []. by rewrite app_nil_r. }
  assert (∀ tr2 ds, commits tr2 = 0 → failures tr2 = 0 →
    grows (tr ++ tr2) p (mk_phase held (ph_latencies p ++ [dt]) ds (record_success (ph_stats p) dt) (ph_reasons p)))
    as Hg.
  { intros tr2 ds H1 H2. unfold grows. rewrite commits_app, failures_app, Hc, Hf, H1, H2.
    split; [by exists [dt]|]. simpl. lia. }
  case_bool_decide; [|specialize (Hg [] (ph_depths p) eq_refl eq_refl); by rewrite app_nil_r in Hg].
  pose proof (current_depth_counts t) as [Hdf Hdc]. destruct (current_depth t) as [tr2 [d|r]]; by apply Hg.
Qed.

Lemma bench_failed_grows t p r : let '(tr, p1) := bench_failed true t p r in grows tr p p1.
Proof.
  unfold bench_failed, grows, commits, failures. destruct (is_reconnectable r && ph_held p); simpl;
    (split; [exists []; by rewrite app_nil_r|]); rewrite length_app; simpl; lia.
Qed.

Lemma bench_turn_grows a t i p : let '(tr, p2) := bench_turn a true t i p in grows tr p p2.
Proof.
  unfold bench_turn. pose proof (bench_attempt_grows t i p) as Ha.
  destruct (bench_attempt true t i p) as [[tr p1] o].
  assert (∀ tr2 p2, grows tr2 p1 p2 →
    grows (tr ++ tr2 ++ (if true && ba_textfile a then [PublishB (ph_stats p2)] else []) ++
      (if feqb (bench_interval a) fzero then [] else [SleepB (bench_interval a)])) p p2) as Htail.
  { intros tr2 p2 H2. eapply phase_grows_trans; [exact Ha|]. eapply phase_grows_trans; [exact H2|].
    apply grows_idle; destruct (true && ba_textfile a), (feqb (bench_interval a) fzero); done. }
  destruct o as [r|]; [|by apply Htail, grows_idle].
  pose proof (bench_failed_grows t p1 r) as Hf. destruct (bench_failed true t p1 r). by apply Htail.
Qed.

Lemma phase_grows a count ts i p :
  let '(tr, p2, _) := phase a true count ts i p in grows tr p p2.
Proof.
  revert i p. induction ts as [|t ts IH]; intros i p; cbn [phase]; [by apply grows_idle|].
  destruct (_ || _); [|by apply grows_idle].
  pose proof (bench_turn_grows a t i p) as Ht. destruct (bench_turn a true t i p) as [tr p1].
  specialize (IH (S i) p1). destruct (phase a true count ts (S i) p1) as [[tr2 p2] over].
  by eapply phase_grows_trans.
Qed.

(** The warmup records nothing. *)
Lemma warmup_silent a count ts i p :
  let '(_, p2, _) := phase a false count ts i p in
  ph_latencies p2 = ph_latencies p ∧ ph_stats p2 = ph_stats p ∧ ph_reasons p2 = ph_reasons p.
Proof.
  revert i p. induction ts as [|t ts IH]; intros i p; cbn [phase]; [done|].
  destruct (_ || _); [|done].
  assert (ph_latencies (bench_turn a false t i p).2 = ph_latencies p ∧
    ph_stats (bench_turn a false t i p).2 = ph_stats p ∧
    ph_reasons (bench_turn a false t i p).2 = ph_reasons p) as Ht.
  { unfold bench_turn, bench_attempt, bench_failed.
    by destruct (commit_once t (ph_held p)) as [[tr held] [dt|r]]. }
  destruct (bench_turn a false t i p) as [tr p1]. specialize (IH (S i) p1).
  destruct (phase a false count ts (S i) p1) as [[tr2 p2] over]. cbn [snd] in Ht.
  by destruct IH as (-> & -> & ->).
Qed.

(** A benchmark run reports exactly its measure window: with the warmup excluded, the
    record counts the clean commits of the window and summarises their latencies, the
    diagnosis of a window without commits has one reason per failure, and the exit code is 0
    exactly when the window has commits and no reported failure; a window with commits
    always yields its record. *)
Theorem bench_accounts a warm measure elapsed ts disc tr p e :
  bench_run a warm measure elapsed ts disc = (tr, p, e) → e ≠ StillRunning →
  (Z.of_nat (length (ph_latencies p)) < 2 ^ 40)%Z →
  ∃ trw pw trm fin,
    phase a false 0 warm 0 (mk_phase false [] [] (new_stats BUCKETS_MS) []) = (trw, pw, true) ∧
    phase a true (ba_count a) measure 0 (mk_phase (ph_held pw) [] [] (new_stats BUCKETS_MS) []) = (trm, p, true) ∧
    tr = trw ++ trm ++ fin ∧
    length (ph_latencies p) = commits trm ∧
    match e with
    | NoCommits reasons => commits trm = 0 ∧ length reasons = failures trm
    | Measured r code => 0 < commits trm ∧ br_count r = commits trm ∧
        latency_summary (ph_latencies p) = Ok (br_latency r) ∧ (code = 0%Z ↔ failures trm = 0)
    | _ => False
    end ∧
    (bench_code e = Some 0%Z ↔ 0 < commits trm ∧ failures trm = 0).
Proof.
  unfold bench_run. pose proof (warmup_silent a 0 warm 0 (mk_phase false [] [] (new_stats BUCKETS_MS) [])) as Hw.
  destruct (phase a false 0 warm 0 _) as [[trw pw] []] eqn:Hwarm; [|by intros [= <- <- <-]].
  destruct Hw as (_ & -> & ->). cbn [negb ph_stats ph_reasons].
  pose proof (phase_grows a (ba_count a) measure 0 (mk_phase (ph_held pw) [] [] (new_stats BUCKETS_MS) [])) as Hg.
  destruct (phase a true (ba_count a) measure 0 _) as [[trm pm] []] eqn:Hmeas; [|by intros [= <- <- <-]].
  destruct Hg as ((l & Hl & Hlen) & _ & Hf & Hr). cbn in Hl, Hf, Hr. cbn [negb].
  intros [= <- <- <-] _ Hbound.
  exists trw, pw, trm. eexists. split; [done|]. split; [exact Hmeas|]. split; [done|].
  clear Hwarm Hmeas. rewrite Hl in Hbound |- *.
  assert (bool_decide (rs_failures (ph_stats pm) = 0) = bool_decide (failures trm = 0)) as -> by (by rewrite Hf).
  split; [done|]. case_bool_decide as Hempty.
  - rewrite <-Hlen, Hempty. cbn. split_and!; [done..|]. split; [done|intros [? _]; lia].
  - assert (0 < length l) as Hpos by (destruct l; [done|simpl; lia]).
    unfold results_record. destruct (latency_summary_total l Hempty Hbound) as [s Hs]. rewrite Hs.
    cbn [mbind res_bind br_count br_latency bench_code].
    case_bool_decide as H0; (split; [split_and!; [lia|done|done|]|]).
    + done.
    + split; [intros _; lia|done].
    + split; [done|intros ?; lia].
    + split; [by intros [=]|intros [_ ?]; lia].
Qed.

(** ** What the model shows *)

Definition demo_point : SweepPoint :=
  mk_point (u "async") fzero 2048 fzero (float_of_Z 0) (float_of_Z 1).
Definition demo_bench (count : Z) : BenchArgs := mk_bargs count fzero false demo_point.

Definition demo_bturn (commit : option reason) (inquire : res reason Z) (t1 : Z) : BTurn :=
  mk_bturn true None None None commit (float_of_Z 0) (float_of_Z t1) None inquire None None.

Definition demo_warm : list BTurn :=
  [demo_bturn None (Ok 0%Z) 9; mk_bturn false None None None None fzero fzero None (Ok 0%Z) None None].

(** A depth inquiry that fails after a clean commit is reported as a failed commit: the one
    commit of this run succeeded, is counted and has its latency, yet a failure is printed,
    the statistics show two attempts with one failure, and the exit code is 1. *)
Theorem depth_failure_fails_run :
  let '(tr, p, e) := bench_run (demo_bench 1) demo_warm [demo_bturn None (Err 2042%Z) 1]
    (float_of_Z 1) (u "now") None in
  bench_code e = Some 1%Z ∧ length (ph_latencies p) = 1 ∧ CommitFailed 2042%Z ∈ tr ∧
  rs_total (ph_stats p) = 2 ∧ rs_failures (ph_stats p) = 1 ∧
  (∀ r, CommitB (Some r) ∉ tr) ∧ ∀ r, PutB (Some r) ∉ tr.
Proof.
  destruct (bench_run _ _ _ _ _ _) as [[tr p] e] eqn:H. vm_compute in H. injection H as <- <- <-.
  split_and!; try done; try (apply list_elem_of_In; vm_compute; tauto);
    intros r Hin%list_elem_of_In; vm_compute in Hin; destruct_or! Hin; done.
Qed.

(** [--count] bounds the attempts, not the measured commits. *)
Theorem count_counts_attempts :
  let '(tr, p, e) := bench_run (demo_bench 2) demo_warm
    [demo_bturn (Some 2003%Z) (Ok 0%Z) 1; demo_bturn None (Ok 0%Z) 1] (float_of_Z 1) (u "now") None in
  bench_code e = Some 1%Z ∧ length (ph_latencies p) = 1.
Proof. by vm_compute. Qed.

(** ** Witnesses *)

Lemma latency_summary_exact_witness :
  ∃ s, latency_summary (float_of_Z <$> [7; 3; 9; 1]%Z) = Ok s ∧ lt_p50 s = float_of_Z 3 ∧ lt_max s = float_of_Z 9 ∧
    nearest_rank 50 (float_of_Z <$> [7; 3; 9; 1]%Z) (lt_p50 s).
Proof.
  destruct (latency_summary_exact (float_of_Z <$> [7; 3; 9; 1]%Z)) as (s & Hs & H50 & _);
    [by repeat constructor|done|by vm_compute|].
  exists s. split; [done|].
  assert (match latency_summary (float_of_Z <$> [7; 3; 9; 1]%Z) with
    | Ok s => lt_p50 s = float_of_Z 3 ∧ lt_max s = float_of_Z 9 | Err _ => False end) as Hv by (vm_compute; split; exact eq_refl).
  rewrite Hs in Hv. tauto.
Defined.

Lemma bench_accounts_witness :
  let r := bench_run (demo_bench 2) demo_warm
    [demo_bturn (Some 2003%Z) (Ok 0%Z) 1; demo_bturn None (Ok 0%Z) 1] (float_of_Z 1) (u "now") None in
  (bench_code r.2 = Some 1%Z) ∧ ∃ trm, commits trm = 1 ∧ failures trm = 1 ∧
    (bench_code r.2 = Some 0%Z ↔ 0 < commits trm ∧ failures trm = 0).
Proof.
  intros r. split; [by vm_compute|].
  destruct (bench_accounts (demo_bench 2) demo_warm
    [demo_bturn (Some 2003%Z) (Ok 0%Z) 1; demo_bturn None (Ok 0%Z) 1] (float_of_Z 1) (u "now") None
    r.1.1 r.1.2 r.2 ltac:(by rewrite <-!surjective_pairing) ltac:(by vm_compute) ltac:(by vm_compute))
    as (trw & pw & trm & fin & Hw & Hm & _ & _ & _ & Hcode).
  apply (f_equal (λ x, x.1.2)) in Hw. apply (f_equal (λ x, x.1.1)) in Hm. cbn [fst snd] in Hw, Hm.
  exists trm. split; [|split; [|exact Hcode]]; rewrite <-Hm, <-Hw; vm_compute; exact eq_refl.
Defined.
