(* ===== verification/Probes.v ===== *)
(** * The diagnostic clients

    Models [mqrc/authz_probe.py], [mqrc/dlq_probe.py] and [mqrc/reconnect_probe.py]: what
    each asks of the queue manager, what it observes, and its exit code. The dead-letter
    header the responders write is packed by ibmmq; [dlh_layout] states the documented
    layout (cmqc.h) the inspector relies on. *)

From S2P Require Import Prelude Trace PyText PyCodec PyFloat Mqi.

Open Scope trace_scope.

(** ** authz_probe.py *)

Inductive authz_op := OpPut | OpGet.
Inductive set_context := CtxNone | CtxIdentity | CtxAll.

(** The open options the probes use. *)
Inductive open_opt := OUTPUT | INPUT_AS_Q_DEF | SET_IDENTITY_CONTEXT | SET_ALL_CONTEXT | FAIL_IF_QUIESCING.

(** Calls with their outcome; a cleanup call only tells whether it raised. *)
Inductive pop :=
  | PConnect (r : option reason)
  | POpen (queue : text) (opts : list open_opt) (r : option reason)
  | PPut (user : option text) (r : option reason)
  | PGet (r : option reason)
  | PGetBody (r : res reason bytes)
  | PCommit (r : option reason)
  | PClose (raised : bool)
  | PDisconnect (raised : bool)
  | PSaid (i : nat) (r : option reason).

Record AuthzArgs := mk_authz {
    az_queue : text; az_op : authz_op; az_expect : Z; az_context : set_context; az_user : text
  }.

(** The answers of the queue manager. *)
Record AuthzIO := mk_azio {
    zi_connect : option reason; zi_open : option reason; zi_op : option reason;
    zi_close : bool; zi_disc : bool
  }.

Definition asks (o : option reason → pop) (r : option reason) : traced pop reason () :=
  emit (o r) (match r with Some e => Err e | None => Ok tt end).

Definition open_opts (a : AuthzArgs) : list open_opt :=
  match az_op a with
  | OpPut => [OUTPUT; FAIL_IF_QUIESCING] ++
      match az_context a with
      | CtxNone => [] | CtxIdentity => [SET_IDENTITY_CONTEXT] | CtxAll => [SET_ALL_CONTEXT]
      end
  | OpGet => [INPUT_AS_Q_DEF; FAIL_IF_QUIESCING]
  end.

(** The UserIdentifier stamped into the MQMD, if any. *)
Definition stamped (a : AuthzArgs) : option text :=
  match az_context a with CtxNone => None | _ => Some (az_user a) end.

(** The [finally] clause: what was obtained is released, errors swallowed. *)
Definition release (held opened close_raised disc_raised : bool) : list pop :=
  (if opened then [PClose close_raised] else []) ++ (if held then [PDisconnect disc_raised] else []).

(** [probe]: the calls and the observed reason. *)
Definition probe (a : AuthzArgs) (io : AuthzIO) : list pop * reason :=
  let m := let* _ := asks PConnect (zi_connect io) in
           let* _ := asks (POpen (az_queue a) (open_opts a)) (zi_open io) in
           asks (match az_op a with OpPut => PPut (stamped a) | OpGet => PGet end) (zi_op io) in
  let held := bool_decide (zi_connect io = None) in
  (m.1 ++ release held (held && bool_decide (zi_open io = None)) (zi_close io) (zi_disc io),
   match m.2 with Ok _ => 0%Z | Err r => r end).

Definition authz_main (a : AuthzArgs) (io : AuthzIO) : Z :=
  if bool_decide ((probe a io).2 = az_expect a) then 0%Z else 1%Z.

(** ** dlq_probe.py *)

(** [b.decode(errors="replace")]: a maximal prefix of a valid sequence, or a byte no sequence
    starts with, becomes one U+FFFD. *)
Definition second_ok (b0 b1 : N) : bool :=
  (if b0 =? 224 then (160 <=? b1) && (b1 <? 192)
   else if b0 =? 237 then (128 <=? b1) && (b1 <? 160)
   else if b0 =? 240 then (144 <=? b1) && (b1 <? 192)
   else if b0 =? 244 then (128 <=? b1) && (b1 <? 144)
   else is_cont b1)%N.

Definition FFFD : N := 65533.

Fixpoint utf8_replace (bs : bytes) : text :=
  match bs with
  | [] => []
  | b0 :: r0 =>
    if (b0 <? 128)%N then b0 :: utf8_replace r0
    else if negb ((194 <=? b0) && (b0 <? 245))%N then FFFD :: utf8_replace r0
    else match r0 with
    | [] => [FFFD]
    | b1 :: r1 =>
      if negb (second_ok b0 b1) then FFFD :: utf8_replace r0
      else if (b0 <? 224)%N then ((b0 - 192) * 64 + (b1 - 128))%N :: utf8_replace r1
      else match r1 with
      | [] => [FFFD]
      | b2 :: r2 =>
        if negb (is_cont b2) then FFFD :: utf8_replace r1
        else if (b0 <? 240)%N then
          ((b0 - 224) * 4096 + (b1 - 128) * 64 + (b2 - 128))%N :: utf8_replace r2
        else match r2 with
        | [] => [FFFD]
        | b3 :: r3 =>
          if negb (is_cont b3) then FFFD :: utf8_replace r2
          else ((b0 - 240) * 262144 + (b1 - 128) * 4096 + (b2 - 128) * 64 + (b3 - 128))%N
               :: utf8_replace r3
        end
      end
    end
  end.

(** [struct.unpack("<i" / ">i")] of four bytes. *)
Definition u32 (little : bool) (b : bytes) : Z :=
  foldr (λ x acc, Z.of_N x + 256 * acc)%Z 0%Z (if little then b else rev b).
Definition i32 (little : bool) (b : bytes) : Z :=
  let n := u32 little b in if (n <? 2147483648)%Z then n else (n - 4294967296)%Z.

(** [body[a:b]]. *)
Definition slice (a b : nat) (body : bytes) : bytes := take (b - a) (drop a body).

Definition strip_pad (b : bytes) : bytes := rstrip_by (λ c, (c =? 32)%N || (c =? 0)%N) b.

Record DlhView := mk_view { dv_reason : Z; dv_dest_q : text; dv_dest_qm : text }.

Definition parse_mqdlh (body : bytes) (little_endian : bool) : option DlhView :=
  if (length body <? 60) || negb (bool_decide (slice 0 4 body = u "DLH ")) then None
  else Some (mk_view (i32 little_endian (slice 8 12 body))
    (utf8_replace (strip_pad (slice 12 60 body)))
    (if 108 <=? length body then utf8_replace (strip_pad (slice 60 108 body)) else [])).

Definition MQRC_NO_MSG_AVAILABLE : reason := 2033%Z.

Record DlqArgs := mk_dlq { dq_queue : text; dq_reason : Z; dq_destq : text; dq_big_endian : bool }.

Record DlqIO := mk_dqio {
    di_connect : option reason; di_open : option reason; di_get : res reason bytes;
    di_close : bool; di_disc : bool
  }.

(** [inspect]: the calls, and the parsed header, None for an empty queue or no header. *)
Definition inspect (a : DlqArgs) (io : DlqIO) : traced pop reason (option DlhView) :=
  let m := let* _ := asks PConnect (di_connect io) in
           let* _ := asks (POpen (dq_queue a) [INPUT_AS_Q_DEF; FAIL_IF_QUIESCING]) (di_open io) in
           emit (PGetBody (di_get io))
             (match di_get io with
              | Ok body => Ok (parse_mqdlh body (negb (dq_big_endian a)))
              | Err r => if bool_decide (r = MQRC_NO_MSG_AVAILABLE) then Ok None else Err r
              end) in
  let held := bool_decide (di_connect io = None) in
  (m.1 ++ release held (held && bool_decide (di_open io = None)) (di_close io) (di_disc io), m.2).

(** [main]: the exit code, or the MQMIError that escapes. *)
Definition dlq_main (a : DlqArgs) (io : DlqIO) : res reason Z :=
  match (inspect a io).2 with
  | Err r => Err r
  | Ok None => Ok 1%Z
  | Ok (Some v) =>
      Ok (if bool_decide (dv_reason v = dq_reason a) && bool_decide (dv_dest_q v = dq_destq a)
          then 0%Z else 1%Z)
  end.

(** ** reconnect_probe.py *)

(** One put under syncpoint, with its outcome: the error of the put, or of the commit. *)
Definition probe_put (i : nat) (put commit : option reason) : list pop :=
  match put with
  | Some r => [PPut None put; PSaid i (Some r)]
  | None => [PPut None None; PCommit commit; PSaid i commit]
  end.

Definition reconnect_probe (connect open : option reason) (puts : list (option reason * option reason))
  (queue : text) : traced pop reason () :=
  let* _ := asks PConnect connect in
  let* _ := asks (POpen queue []) open in
  (concat (imap (λ i '(p, c), probe_put i p c) puts), Ok tt).

(** ** What the authorization probe asserts *)

(** The first refusal of a run of the probe, 0 when there is none. *)
Definition first_refusal (io : AuthzIO) : reason :=
  match zi_connect io, zi_open io, zi_op io with
  | Some r, _, _ | None, Some r, _ | None, None, Some r => r
  | None, None, None => 0%Z
  end.

Lemma probe_observes a io : (probe a io).2 = first_refusal io.
Proof.
  unfold probe, first_refusal, asks, then_, emit.
  by destruct (zi_connect io), (zi_open io), (zi_op io).
Qed.

(** The authorization probe passes exactly when the first call the queue manager refuses, at
    the connect, the open or the operation, is refused with the expected reason (none, for
    0); errors of the cleanup never change the verdict; it opens the queue for the one
    access the operation needs; and whatever it obtained it releases once, the queue before
    the connection. *)
Theorem authz_probe_exact a io :
  (authz_main a io = 0%Z ↔ first_refusal io = az_expect a) ∧
  (∀ q opts r, POpen q opts r ∈ (probe a io).1 → q = az_queue a ∧ opts = open_opts a) ∧
  (zi_connect io = None →
     ∃ pre, (probe a io).1 = pre ++ (if bool_decide (zi_open io = None) then [PClose (zi_close io)] else []) ++
       [PDisconnect (zi_disc io)] ∧ Forall (λ o, ∀ b, o ≠ PClose b ∧ o ≠ PDisconnect b) pre).
Proof.
  split; [|split].
  - unfold authz_main. rewrite probe_observes. case_bool_decide; split; (done || lia).
  - intros q opts r. unfold probe, asks, then_, emit, release.
    destruct (zi_connect io), (zi_open io), (zi_op io), (az_op a); cbn;
      rewrite ?elem_of_cons, ?elem_of_nil; intros Hin; destruct_or? Hin; by simplify_eq.
  - intros Hc. unfold probe, asks, then_, emit, release. rewrite Hc.
    destruct (zi_open io) as [r|], (zi_op io) as [r'|]; cbn.
    1,2: exists [PConnect None; POpen (az_queue a) (open_opts a) (Some r)].
    3,4: eexists [PConnect None; POpen (az_queue a) (open_opts a) None; _].
    all: (split; [done|]); repeat (constructor; [by intros b; destruct (az_op a)|]); constructor.
Qed.

(** ** What the inspector reads back *)

Definition le32 (z : Z) : bytes :=
  let m := (z mod 4294967296)%Z in
  [Z.to_N (m mod 256); Z.to_N (m / 256 mod 256); Z.to_N (m / 65536 mod 256); Z.to_N (m / 16777216)]%Z.

Definition pad48 (t : text) : bytes := t ++ replicate (48 - length t) 32%N.

(** An MQ object name as it is given: ASCII, at most 48 characters, no trailing pad. *)
Definition mq_name (t : text) : Prop :=
  length t ≤ 48 ∧ Forall (λ c, c < 128)%N t ∧ strip_pad t = t.

(** The documented MQDLH (cmqc.h), on a little-endian queue manager, for names it can hold. *)
Definition dlh_layout (pack : Dlh → bytes) : Prop :=
  ∀ h, mq_name (dlh_dest_queue h) → mq_name (dlh_dest_qmgr h) → ∃ version rest, length version = 4 ∧
    pack h = u "DLH " ++ version ++ le32 (dlh_reason h) ++ pad48 (dlh_dest_queue h) ++
             pad48 (dlh_dest_qmgr h) ++ rest.

Lemma utf8_replace_ascii b : Forall (λ c, c < 128)%N b → utf8_replace b = b.
Proof.
  induction 1 as [|c b Hc _ IH]; [done|]. cbn [utf8_replace].
  by rewrite (proj2 (N.ltb_lt _ _) Hc), IH.
Qed.

Lemma strip_pad48 t : strip_pad t = t → strip_pad (pad48 t) = t.
Proof.
  intros Ht. rewrite <-Ht at 2. unfold strip_pad, pad48, rstrip_by.
  rewrite rev_app_distr, lstrip_by_all; [done|]. apply Forall_rev, Forall_replicate. done.
Qed.

Lemma le32_read z : (-2147483648 ≤ z < 2147483648)%Z → i32 true (le32 z) = z.
Proof.
  intros Hz. unfold i32, u32, le32. cbn [foldr].
  assert (0 ≤ z mod 4294967296 < 4294967296)%Z as Hm by (apply Z.mod_pos_bound; lia).
  assert ((z mod 4294967296 = z ∧ 0 ≤ z) ∨ (z mod 4294967296 = z + 4294967296 ∧ z < 0))%Z as Hzm.
  { destruct (decide (0 ≤ z)%Z); [left; split; [apply Z.mod_small; lia|done]|right].
    split; [|lia]. symmetry. apply Z.mod_unique with (-1)%Z; lia. }
  set (m := (z mod 4294967296)%Z) in *.
  assert (∀ k, 0 ≤ m / k mod 256)%Z as H0 by (intros; apply Z.mod_pos_bound; lia).
  rewrite !Z2N.id by (apply H0 || (apply Z.div_pos; lia) || (apply Z.mod_pos_bound; lia)).
  assert (m mod 256 + 256 * (m / 256 mod 256 + 256 * (m / 65536 mod 256 + 256 * (m / 16777216 + 256 * 0))) = m)%Z as ->.
  { change 65536%Z with (256 * 256)%Z. change 16777216%Z with (256 * 256 * 256)%Z.
    rewrite <-!Z.div_div by lia. pose proof (Z.div_mod m 256). pose proof (Z.div_mod (m / 256) 256).
    pose proof (Z.div_mod (m / 256 / 256) 256). lia. }
  destruct (Z.ltb_spec m 2147483648); lia.
Qed.

(** The fields sit at the offsets the inspector slices. *)
Lemma parse_layout version reason q qm rest :
  length version = 4 → mq_name q → mq_name qm → (-2147483648 ≤ reason < 2147483648)%Z →
  parse_mqdlh (u "DLH " ++ version ++ le32 reason ++ pad48 q ++ pad48 qm ++ rest) true
    = Some (mk_view reason q qm).
Proof.
  intros Hv (Hq & Hqa & Hqs) (Hm & Hma & Hms) Hr.
  assert (length (pad48 q) = 48) as Hlq by (unfold pad48; rewrite length_app, length_replicate; lia).
  assert (length (pad48 qm) = 48) as Hlm by (unfold pad48; rewrite length_app, length_replicate; lia).
  destruct version as [|v0 [|v1 [|v2 [|v3 []]]]]; try done. clear Hv.
  set (qs := pad48 q) in *. set (ms := pad48 qm) in *.
  unfold parse_mqdlh. change (u "DLH ") with [68; 76; 72; 32]%N. unfold le32. cbn [app].
  set (a0 := Z.to_N _). set (a1 := Z.to_N _). set (a2 := Z.to_N _). set (a3 := Z.to_N _).
  set (body := 68%N :: _).
  assert (length body = 12 + (48 + (48 + length rest))) as Hlen.
  { unfold body. cbn [length]. rewrite !length_app, Hlq, Hlm. done. }
  rewrite Hlen. rewrite (proj2 (Nat.ltb_ge _ _)) by lia. rewrite (proj2 (Nat.leb_le _ _)) by lia.
  change (slice 0 4 body) with [68; 76; 72; 32]%N. rewrite bool_decide_eq_true_2 by done. cbn [orb negb].
  change (slice 8 12 body) with [a0; a1; a2; a3].
  assert (slice 12 60 body = qs) as ->.
  { unfold slice. change (drop 12 body) with (qs ++ ms ++ rest). change (60 - 12) with 48.
    rewrite <-Hlq. apply take_app_length. }
  assert (slice 60 108 body = ms) as ->.
  { unfold slice. change (drop 60 body) with (drop 48 (qs ++ ms ++ rest)). change (108 - 60) with 48.
    rewrite <-Hlq, drop_app_length, Hlq, <-Hlm. apply take_app_length. }
  unfold qs, ms. rewrite !strip_pad48, !utf8_replace_ascii by done. do 2 f_equal.
  exact (le32_read reason Hr).
Qed.

(** C6. What a responder moves to the dead-letter queue, the inspector reads back: the message
    it puts there parses to the reason it was moved for, the queue it was read from and its
    queue manager; so the inspector, getting it, passes exactly when it expects that reason
    and that queue. *)
Theorem dead_letter_inspected pack qm inq md body reason who why ans tr a io :
  dlh_layout pack → mq_name qm → mq_name inq → (-2147483648 ≤ reason < 2147483648)%Z →
  dead_letter pack qm inq md body reason who why ans = (tr, Ok tt) →
  di_connect io = None → di_open io = None → dq_big_endian a = false →
  ∃ dlq payload, CPut dlq payload (md_correl_id md) None ∈ tr ∧
    parse_mqdlh payload true = Some (mk_view reason inq qm) ∧
    (di_get io = Ok payload →
     dlq_main a io = Ok (if bool_decide (dq_reason a = reason ∧ dq_destq a = inq) then 0%Z else 1%Z)).
Proof.
  intros Hlay Hqm Hinq Hr Hd Hc Ho Hbe. unfold dead_letter in Hd.
  destruct (dl_inquire ans) as [name|]; [|done]. cbv zeta in Hd. case_bool_decide; [done|].
  set (h := mk_dlh _ _ _ _ _ _ _ _ _) in Hd.
  destruct (dl_open ans), (dl_put ans), (dl_close ans); try done. injection Hd as <-.
  destruct (Hlay h Hinq Hqm) as (version & rest & Hv & Hp).
  assert (parse_mqdlh (pack h ++ body) true = Some (mk_view reason inq qm)) as Hparse.
  { rewrite Hp. rewrite <-!app_assoc. by apply parse_layout. }
  exists (mqchar name), (pack h ++ body). split; [by do 2 right; left|]. split; [done|].
  intros Hg. unfold dlq_main, inspect, asks, then_, emit. rewrite Hc, Ho, Hg, Hbe. cbn [negb].
  rewrite Hparse. cbn [fst snd app dv_reason dv_dest_q]. f_equal.
  destruct (decide (reason = dq_reason a)), (decide (inq = dq_destq a));
    repeat case_bool_decide; simpl in *; (done || (exfalso; tauto) || (exfalso; naive_solver)).
Qed.

(** A message that is no MQDLH, or an empty queue, is a failed inspection, never a pass. *)
Lemma inspect_no_header a io :
  (∀ v, (inspect a io).2 ≠ Ok (Some v)) → dlq_main a io ≠ Ok 0%Z.
Proof. intros H. unfold dlq_main. destruct (inspect a io).2 as [[v|]|r] eqn:Hi; [by destruct (H v)|done..]. Qed.

(** ** Witnesses *)

(** A packing with the documented layout. *)
Definition demo_pack (h : Dlh) : bytes :=
  u "DLH " ++ [1; 0; 0; 0]%N ++ le32 (dlh_reason h) ++ pad48 (dlh_dest_queue h) ++
  pad48 (dlh_dest_qmgr h) ++ replicate 64 0%N.

Definition demo_dlq_io (payload : bytes) : DlqIO := mk_dqio None None (Ok payload) false false.

Lemma dead_letter_inspected_witness :
  let md := mk_md [1%N] [2%N] 546 1208 (u "MQSTR") 8 1 0 in
  let ans := mk_dl (Ok (u "DLQ ")) None None None (u "20260608") (u "12000000") in
  ∃ tr payload, dead_letter demo_pack (u "PCMKSVC") (u "SVC.REQUEST") md (u "hi") 2027 (u "svc-responder")
      (Because (u "blank ReplyToQ")) ans = (tr, Ok tt) ∧
    dlq_main (mk_dlq (u "DLQ") 2027 (u "SVC.REQUEST") false) (demo_dlq_io payload) = Ok 0%Z.
Proof.
  intros md ans. eexists. eexists (demo_pack (mk_dlh 2027 (u "SVC.REQUEST") (u "PCMKSVC") 546 1208 (u "MQSTR")
    (u "mq-svc-responder") (u "20260608") (u "12000000")) ++ u "hi"). split; [reflexivity|].
  set (payload := demo_pack _ ++ _).
  assert (dlh_layout demo_pack) as Hlay by (intros h _ _; by eexists [1; 0; 0; 0]%N, _).
  assert (mq_name (u "PCMKSVC") ∧ mq_name (u "SVC.REQUEST")) as [Hq1 Hq2]
    by (unfold mq_name; split_and!; [vm_compute; lia|by repeat constructor|by vm_compute|vm_compute; lia|by repeat constructor|by vm_compute]).
  destruct (dead_letter_inspected demo_pack (u "PCMKSVC") (u "SVC.REQUEST") md (u "hi") 2027 (u "svc-responder")
    (Because (u "blank ReplyToQ")) ans _ (mk_dlq (u "DLQ") 2027 (u "SVC.REQUEST") false) (demo_dlq_io payload)
    Hlay Hq1 Hq2 ltac:(lia) eq_refl eq_refl eq_refl eq_refl) as (dlq & p & Hin & _ & Hmain).
  apply Hmain. repeat (apply elem_of_cons in Hin as [Hin|Hin]; [try discriminate Hin; by injection Hin as _ ->|]).
  by apply elem_of_nil in Hin.
Defined.
