(* ===== verification/IbmmqRefs.v ===== *)
(** * The check of the ibmmq surface

    Models [mqrc/ibmmq_refs.py] and [mqrc/selfcheck.py]: the scan of Python syntax trees
    for the names and members of ibmmq they use and for the calls that connect to a queue
    manager, the comparison with a binding, and the check an installation runs. Parsing a
    source text and importing a module are inputs; the binding is a graph of objects. *)

From S2P Require Import Prelude PyText PyCodec PyDict.

(** ** Syntax trees *)

(** A node of [ast], as far as the scan tells nodes apart: [FunctionDef] stands for the plain
    and the async one, [Other] for every other node; each has its children in field order. *)
Inductive node :=
  | Name (id : text)
  | Attribute (value : node) (attr : text) (line : N)
  | Call (func : node) (args : list node) (keywords : list (option text * node)) (line : N)
  | Keyword (arg : option text) (value : node)
  | Assign (targets : list node) (value : node)
  | FunctionDef (children : list node)
  | NoneConstant
  | Other (children : list node).

(** [ast.iter_child_nodes]. *)
Definition children (n : node) : list node :=
  match n with
  | Name _ | NoneConstant => []
  | Attribute v _ _ | Keyword _ v => [v]
  | Call f args kws _ => f :: args ++ ((λ '(a, v), Keyword a v) <$> kws)
  | Assign ts v => ts ++ [v]
  | FunctionDef l | Other l => l
  end.

Fixpoint nodes (n : node) : nat :=
  match n with
  | Name _ | NoneConstant => 1
  | Attribute v _ _ | Keyword _ v => S (nodes v)
  | Call f args kws _ =>
      S (nodes f + sum_list (nodes <$> args) + sum_list ((λ '(_, v), S (nodes v)) <$> kws))
  | Assign ts v => S (sum_list (nodes <$> ts) + nodes v)
  | FunctionDef l | Other l => S (sum_list (nodes <$> l))
  end.

(** [ast.walk]: the nodes of a tree, breadth first. *)
Fixpoint walk_from (fuel : nat) (todo : list node) : list node :=
  match fuel, todo with
  | S fuel, n :: todo => n :: walk_from fuel (todo ++ children n)
  | _, _ => []
  end.
Definition walk (n : node) : list node := walk_from (nodes n) [n].

(** The nodes of a tree. *)
Inductive within (n : node) : node → Prop :=
  | within_self : within n n
  | within_child c m : within n c → m ∈ children c → within n m.

Lemma sum_list_app l k : sum_list (l ++ k) = sum_list l + sum_list k.
Proof. induction l; simpl; lia. Qed.

Lemma sum_nodes_cons n l : sum_list (nodes <$> n :: l) = nodes n + sum_list (nodes <$> l).
Proof. done. Qed.

Lemma nodes_children n : nodes n = S (sum_list (nodes <$> children n)).
Proof.
  destruct n as [|v ? ?|f args kws ?|? v|ts v|l| |l]; cbn [children]; try (simpl; lia).
  - rewrite sum_nodes_cons, fmap_app, sum_list_app.
    assert (sum_list (nodes <$> ((λ '(a, v), Keyword a v) <$> kws)) =
            sum_list ((λ '(_, v), S (nodes v)) <$> kws)) as ->; [|cbn [nodes]; unfold fmap; lia].
    induction kws as [|[a v] kws IH]; [done|]. rewrite !fmap_cons. simpl in *. lia.
  - rewrite fmap_app, sum_list_app. simpl. unfold fmap. lia.
Qed.

(** A node of a tree is its root, or in the tree of a child. *)
Lemma within_inv n m : within n m → m = n ∨ ∃ c, c ∈ children n ∧ within c m.
Proof.
  induction 1 as [|c m Hw IH Hm]; [by left|]. right. destruct IH as [->|(c' & Hc' & Hw')].
  - exists m. split; [done|constructor].
  - exists c'. split; [done|by econstructor].
Qed.

Lemma within_under n c m : c ∈ children n → within c m → within n m.
Proof. intros Hc. induction 1 as [|c' m Hw IH Hm]; econstructor; (done || constructor). Qed.

(** The walk visits exactly the nodes under the queue: its fuel is enough. *)
Lemma elem_of_walk_from fuel todo m :
  sum_list (nodes <$> todo) ≤ fuel →
  m ∈ walk_from fuel todo ↔ ∃ n, n ∈ todo ∧ within n m.
Proof.
  revert todo. induction fuel as [|fuel IH]; intros todo Hf.
  - destruct todo as [|n todo]; [|rewrite sum_nodes_cons, (nodes_children n) in Hf; lia].
    split; [by intros ?%elem_of_nil|intros (n & Hn & _); by apply elem_of_nil in Hn].
  - destruct todo as [|n todo]; cbn [walk_from].
    { split; [by intros ?%elem_of_nil|intros (n & Hn & _); by apply elem_of_nil in Hn]. }
    rewrite sum_nodes_cons, (nodes_children n) in Hf.
    rewrite elem_of_cons, IH by (rewrite fmap_app, sum_list_app; lia). split.
    + intros [->|(k & Hk & Hw)]; [exists n; split; [by left|constructor]|].
      apply elem_of_app in Hk as [Hk|Hk]; [exists k; split; [by right|done]|].
      exists n. split; [by left|]. by eapply within_under.
    + intros (k & Hk & Hw). apply elem_of_cons in Hk as [->|Hk].
      * apply within_inv in Hw as [->|(c & Hc & Hw)]; [by left|right].
        exists c. split; [apply elem_of_app; by right|done].
      * right. exists k. split; [apply elem_of_app; by left|done].
Qed.

Lemma elem_of_walk n m : m ∈ walk n ↔ within n m.
Proof.
  unfold walk. rewrite elem_of_walk_from by (simpl; lia). split.
  - by intros (k & ->%list_elem_of_singleton & Hw).
  - intros Hw. exists n. split; [by left|done].
Qed.

(** ** The scan *)

Definition BINDING : text := u "ibmmq".

(** [_chain]: the attributes from the bare name on, outermost pushed first. *)
Fixpoint chain_from (parts : list text) (n : node) : option (list text) :=
  match n with
  | Attribute v a _ => chain_from (a :: parts) v
  | Name id => if bool_decide (id = BINDING) && negb (bool_decide (parts = [])) then Some parts else None
  | _ => None
  end.
Definition chain (n : node) : option (list text) := chain_from [] n.

(** [_class_call]. *)
Definition class_call (n : node) : option text :=
  match n with
  | Call f _ _ _ => match chain f with Some [c] => Some c | _ => None end
  | _ => None
  end.

Record Ref := mk_ref { rf_path : list text; rf_where : text }.
Record MemberRef := mk_member { mr_cls : text; mr_member : text; mr_where : text }.

#[export] Instance Ref_eq_dec : EqDecision Ref.
Proof. solve_decision. Defined.
#[export] Instance MemberRef_eq_dec : EqDecision MemberRef.
Proof. solve_decision. Defined.

Definition where_ (rel : text) (line : N) : text := rel ++ u ":" ++ N_text line.

(** [bound] of [_local_members]: the local names assigned from a class call, the last
    assignment of the walk winning. *)
Definition bind_targets (d : list (text * text)) (n : node) : list (text * text) :=
  match n with
  | Assign ts v =>
      match class_call v with
      | Some cls => foldl (λ d t, match t with Name id => dset d id cls | _ => d end) d ts
      | None => d
      end
  | _ => d
  end.

Definition bound (func : node) : list (text * text) := foldl bind_targets [] (walk func).

Definition member_of (d : list (text * text)) (rel : text) (n : node) : option MemberRef :=
  match n with
  | Attribute (Name id) a line => cls ← dget d id; Some (mk_member cls a (where_ rel line))
  | _ => None
  end.

Definition local_members (func : node) (rel : text) : list MemberRef :=
  omap (member_of (bound func) rel) (walk func).

(** What one node of the walk adds to [refs] and to [members]. *)
Definition ref_of (rel : text) (n : node) : option Ref :=
  match n with
  | Attribute _ _ line => path ← chain n; Some (mk_ref path (where_ rel line))
  | _ => None
  end.

Definition members_of (rel : text) (n : node) : list MemberRef :=
  match n with
  | Call _ _ kws line =>
      match class_call n with
      | Some cls => omap (λ kw : option text * node, arg ← kw.1; Some (mk_member cls arg (where_ rel line))) kws
      | None => []
      end
  | FunctionDef _ => local_members n rel
  | _ => []
  end.

(** The order of the dataclasses: field by field. *)
Fixpoint path_leb (p q : list text) : bool :=
  match p, q with
  | [], _ => true
  | _ :: _, [] => false
  | x :: p, y :: q => if bool_decide (x = y) then path_leb p q else text_leb x y
  end.
Definition ref_leb (a b : Ref) : bool :=
  if bool_decide (rf_path a = rf_path b) then text_leb (rf_where a) (rf_where b)
  else path_leb (rf_path a) (rf_path b).
Definition member_leb (a b : MemberRef) : bool :=
  path_leb [mr_cls a; mr_member a; mr_where a] [mr_cls b; mr_member b; mr_where b].

(** [scan]: the files as their names relative to the root and their trees; deduplicated, sorted. *)
Definition scan (files : list (text * node)) : list Ref * list MemberRef :=
  (isort ref_leb (uniq (files ≫= λ '(rel, tree), omap (ref_of rel) (walk tree))),
   isort member_leb (uniq (files ≫= λ '(rel, tree), walk tree ≫= members_of rel))).

(** ** The connects *)

Definition CONNECT_METHODS : list text := [u "connect"; u "connect_with_options"; u "connect_tcp_client"].
Definition CLIENT_BINDING : text := u "MQCNO_CLIENT_BINDING".

Record ConnectCall := mk_ccall { cc_where : text; cc_how : text; cc_client : bool }.

Definition is_client_binding (n : node) : bool :=
  match n with
  | Attribute _ a _ => bool_decide (a = CLIENT_BINDING)
  | Name id => bool_decide (id = CLIENT_BINDING)
  | _ => false
  end.
Definition names_client_binding (n : node) : bool := existsb is_client_binding (walk n).

(** The value of the first keyword of that name. *)
Definition keyword (k : text) (kws : list (option text * node)) : option node :=
  snd <$> head (filter (λ kw, kw.1 = Some k) kws).

(** [_connect_call] of a call. *)
Definition connect_call (func : node) (args : list node) (kws : list (option text * node)) :
  option (text * bool) :=
  let constructed :=
    if bool_decide (chain func = Some [u "QueueManager"]) then
      match (match args with a :: _ => Some a | [] => keyword (u "name") kws end) with
      | Some NoneConstant => None
      | _ => Some (u "QueueManager", false)
      end
    else None in
  match func with
  | Attribute _ attr _ =>
      if bool_decide (attr ∈ CONNECT_METHODS) then
        Some (attr, bool_decide (attr = u "connect_with_options") &&
                    match keyword (u "opts") kws with Some e => names_client_binding e | None => false end)
      else constructed
  | _ => constructed
  end.

Definition connect_of (rel : text) (n : node) : option ConnectCall :=
  match n with
  | Call f args kws line => '(how, client) ← connect_call f args kws; Some (mk_ccall (where_ rel line) how client)
  | _ => None
  end.

Definition connect_leb (a b : ConnectCall) : bool :=
  if bool_decide (cc_where a = cc_where b) then
    if bool_decide (cc_how a = cc_how b) then negb (cc_client a) || cc_client b else text_leb (cc_how a) (cc_how b)
  else text_leb (cc_where a) (cc_where b).

Definition connect_calls (files : list (text * node)) : list ConnectCall :=
  isort connect_leb (files ≫= λ '(rel, tree), omap (connect_of rel) (walk tree)).

(** ** The comparison with a binding *)

Section binding.
(** The imported binding: the attributes of its objects, whether a class is an [MQOpts]
    structure, and the instance a class called with no arguments makes ([None] when that
    raises). *)
Context {obj : Type} (getattr : obj → text → option obj) (is_struct : obj → bool)
  (make : obj → option obj) (binding : obj).

Fixpoint lookup_path (o : obj) (path : list text) : option obj :=
  match path with [] => Some o | name :: path => o' ← getattr o name; lookup_path o' path end.

(** The loop over a reference: the path up to the first name that does not exist. *)
Fixpoint first_missing (o : obj) (seen path : list text) : option (list text) :=
  match path with
  | [] => None
  | name :: path =>
      match getattr o name with
      | None => Some (seen ++ [name])
      | Some o' => first_missing o' (seen ++ [name]) path
      end
  end.

Definition ref_problem (r : Ref) : option text :=
  missing ← first_missing binding [] (rf_path r);
  Some (rf_where r ++ u ": " ++ str_join (u ".") (BINDING :: missing) ++ u " does not exist").

(** One turn of the loop over the members, with the messages and the cache [owners]. *)
Definition member_problem (st : list text * list (text * obj)) (r : MemberRef) :
  option (list text * list (text * obj)) :=
  let '(found, owners) := st in
  match getattr binding (mr_cls r) with
  | None => Some st
  | Some cls =>
      '(owner, owners') ← match dget owners (mr_cls r) with
        | Some o => Some (o, owners)
        | None => o ← (if is_struct cls then make cls else Some cls); Some (o, dset owners (mr_cls r) o)
        end;
      Some (match getattr owner (mr_member r) with
            | Some _ => found
            | None => found ++ [mr_where r ++ u ": " ++ BINDING ++ u "." ++ mr_cls r ++
                                u " has no member " ++ mr_member r]
            end, owners')
  end.

Fixpoint member_problems (st : list text * list (text * obj)) (rs : list MemberRef) :
  option (list text * list (text * obj)) :=
  match rs with [] => Some st | r :: rs => st ← member_problem st r; member_problems st rs end.

(** [problems]; [None] is the exception of a structure that cannot be made. *)
Definition problems (refs : list Ref) (members : list MemberRef) : option (list text) :=
  fst <$> member_problems (omap ref_problem refs, []) members.

(** The object a member of a class is looked up on. *)
Definition owner_of (cls : text) : option obj :=
  c ← getattr binding cls; if is_struct c then make c else Some c.

Definition class_has (cls member : text) : Prop :=
  ∃ o, owner_of cls = Some o ∧ is_Some (getattr o member).

Definition has_member (r : MemberRef) : Prop := class_has (mr_cls r) (mr_member r).

Lemma first_missing_None o seen path : first_missing o seen path = None ↔ is_Some (lookup_path o path).
Proof.
  revert o seen. induction path as [|name path IH]; intros o seen; simpl; [naive_solver|].
  destruct (getattr o name) as [o'|]; [apply IH|]. split; [done|by intros [? ?]].
Qed.

Lemma member_problems_clean st rs st' :
  (∀ k o, dget st.2 k = Some o → owner_of k = Some o) → member_problems st rs = Some st' → st'.1 = [] →
  st.1 = [] ∧ ∀ r, r ∈ rs → getattr binding (mr_cls r) = None ∨ has_member r.
Proof.
  revert st. induction rs as [|r rs IH]; intros [found owners] Hown H Hst; cbn [member_problems] in H.
  - injection H as <-. split; [done|by intros r ?%elem_of_nil].
  - destruct (member_problem (found, owners) r) as [[found1 owners1]|] eqn:Hr; [|done].
    cbn [mbind option_bind] in H. unfold member_problem in Hr. cbn [snd fst] in Hown.
    destruct (getattr binding (mr_cls r)) as [cls|] eqn:Hcls.
    2:{ injection Hr as <- <-. destruct (IH (found, owners) Hown H Hst) as [? Hall]. split; [done|].
        intros r' [->|Hr']%elem_of_cons; [by left|by apply Hall]. }
    assert (∃ o, owner_of (mr_cls r) = Some o ∧ (∀ k o, dget owners1 k = Some o → owner_of k = Some o) ∧
      found1 = match getattr o (mr_member r) with Some _ => found
        | None => found ++ [mr_where r ++ u ": " ++ BINDING ++ u "." ++ mr_cls r ++ u " has no member " ++ mr_member r] end)
      as (o & Ho & Hown1 & Hf).
    { destruct (dget owners (mr_cls r)) as [o|] eqn:Hd; cbn [mbind option_bind] in Hr.
      - injection Hr as <- <-. exists o. split_and!; [by apply Hown|done|done].
      - destruct (if is_struct cls then make cls else Some cls) as [o|] eqn:Hm; [|done].
        injection Hr as <- <-. exists o.
        assert (owner_of (mr_cls r) = Some o) as Ho by (unfold owner_of; by rewrite Hcls).
        split_and!; [done| |done]. intros k o' Hk. rewrite dget_dset in Hk.
        case_decide; [by simplify_eq|by apply Hown]. }
    destruct (IH (found1, owners1) Hown1 H Hst) as [Hf1 Hall]. cbn [fst] in Hf1. subst found1.
    destruct (getattr o (mr_member r)) as [x|] eqn:Hx; [|by destruct found].
    split; [done|]. intros r' [->|Hr']%elem_of_cons; [right; by exists o|by apply Hall].
Qed.

(** No problem means every name resolves and every member exists. *)
Lemma problems_clean refs members :
  problems refs members = Some [] →
  (∀ r, r ∈ refs → is_Some (lookup_path binding (rf_path r))) ∧
  ∀ r, r ∈ members → getattr binding (mr_cls r) = None ∨ has_member r.
Proof.
  unfold problems. destruct (member_problems _ _) as [[found owners]|] eqn:H; [|done]. intros [= ->].
  apply member_problems_clean in H as [Hrefs Hmem]; [|done|done]. split; [|done].
  cbn [fst] in Hrefs. intros r Hr. apply (first_missing_None binding []).
  destruct (first_missing binding [] (rf_path r)) as [p|] eqn:Hp; [|done]. exfalso.
  assert (∃ t, t ∈ omap ref_problem refs) as [t Ht].
  { eexists. apply list_elem_of_omap. exists r. split; [done|]. unfold ref_problem. by rewrite Hp. }
  rewrite Hrefs in Ht. by apply elem_of_nil in Ht.
Qed.

(** ** selfcheck.py *)

(** [_check_api]: the number of misses; an unrunnable check is one. *)
Definition check_api (files : list (text * node)) : nat :=
  let '(refs, members) := scan files in
  match problems refs members with Some l => length l | None => 1 end.
End binding.

(** What an installation answers: whether the interpreter is CPython 3.14, whether each module
    imports, whether ibmmq is installed, and the binding if it imports. *)
Record Install obj := mk_install {
    in_python : bool; in_modules : list (text * bool); in_mqi : bool; in_binding : option obj
  }.
Arguments mk_install {obj}.
Arguments in_python {obj}.
Arguments in_modules {obj}.
Arguments in_mqi {obj}.
Arguments in_binding {obj}.

(** [main]: the exit code. *)
Definition selfcheck_main {obj} (getattr : obj → text → option obj) (is_struct : obj → bool)
  (make : obj → option obj) (i : Install obj) (files : list (text * node)) : Z :=
  if negb (in_python i) then 1 else
  let failed := length (List.filter (λ m : text * bool, negb m.2) (in_modules i)) in
  let failed := failed +
    (if in_mqi i then
       match in_binding i with
       | None => 1
       | Some b => check_api getattr is_struct make b files
       end
     else 0) in
  if bool_decide (failed = 0) then 0 else 1.

(** ** What the scan finds *)

Lemma elem_of_scan_refs files r :
  r ∈ (scan files).1 ↔ ∃ rel tree n, (rel, tree) ∈ files ∧ within tree n ∧ ref_of rel n = Some r.
Proof.
  unfold scan. cbn [fst]. rewrite elem_of_isort, elem_of_uniq, list_elem_of_bind. split.
  - intros ([rel tree] & Hr & Hf). apply list_elem_of_omap in Hr as (n & Hn & Hr).
    apply elem_of_walk in Hn. by exists rel, tree, n.
  - intros (rel & tree & n & Hf & Hn & Hr). exists (rel, tree). split; [|done].
    apply list_elem_of_omap. exists n. by rewrite elem_of_walk.
Qed.

Lemma elem_of_scan_members files m :
  m ∈ (scan files).2 ↔ ∃ rel tree n, (rel, tree) ∈ files ∧ within tree n ∧ m ∈ members_of rel n.
Proof.
  unfold scan. cbn [snd]. rewrite elem_of_isort, elem_of_uniq, list_elem_of_bind. split.
  - intros ([rel tree] & Hr & Hf). apply list_elem_of_bind in Hr as (n & Hr & Hn).
    apply elem_of_walk in Hn. by exists rel, tree, n.
  - intros (rel & tree & n & Hf & Hn & Hr). exists (rel, tree). split; [|done].
    apply list_elem_of_bind. exists n. by rewrite elem_of_walk.
Qed.

Lemma within_trans a b c : within a b → within b c → within a c.
Proof. intros Hab. induction 1; [done|by econstructor]. Qed.

(** A class call is a call of an attribute whose chain is the class. *)
Lemma class_call_Some n c :
  class_call n = Some c → ∃ v a line, Attribute v a line ∈ children n ∧ chain (Attribute v a line) = Some [c].
Proof.
  unfold class_call. destruct n as [| |f args kws line| | | | |]; try done.
  destruct (chain f) as [[|x []]|] eqn:Hc; try done. intros [= ->].
  unfold chain in Hc. destruct f as [id|v a l| | | | | |]; try done.
  - cbn in Hc. rewrite andb_false_r in Hc. done.
  - exists v, a, l. split; [by left|done].
Qed.

Lemma class_call_ref files rel tree n c :
  (rel, tree) ∈ files → within tree n → class_call n = Some c → ∃ r, r ∈ (scan files).1 ∧ rf_path r = [c].
Proof.
  intros Hf Hn (v & a & line & Hch & Hc)%class_call_Some.
  exists (mk_ref [c] (where_ rel line)). split; [|done]. apply elem_of_scan_refs.
  exists rel, tree, (Attribute v a line). split_and!; [done|by econstructor|]. cbn [ref_of]. by rewrite Hc.
Qed.

(** What the assignments of a walk leave bound to a name: one of the classes it is assigned
    from, and some class if there is one. *)
Lemma bind_targets_spec d n id :
  dget (bind_targets d n) id = dget d id ∨
  ∃ ts v c, n = Assign ts v ∧ Name id ∈ ts ∧ class_call v = Some c ∧ dget (bind_targets d n) id = Some c.
Proof.
  destruct n as [| | | |ts v| | |]; try (by left). cbn [bind_targets].
  destruct (class_call v) as [cls|] eqn:Hv; [|by left].
  assert (dget (foldl (λ d t, match t with Name id => dset d id cls | _ => d end) d ts) id = dget d id ∨
    Name id ∈ ts ∧ dget (foldl (λ d t, match t with Name id => dset d id cls | _ => d end) d ts) id = Some cls)
    as [H|[Hin H]]; [|by left|right; by exists ts, v, cls].
  revert d. induction ts as [|t ts IH]; intros d; [by left|]. cbn [foldl].
  destruct (IH (match t with Name id => dset d id cls | _ => d end)) as [H|[Hin H]];
    [|right; split; [by right|done]].
  rewrite H. destruct t as [x| | | | | | |]; try (by left). rewrite dget_dset.
  case_decide as Hx; [subst; right; split; [by left|done]|by left].
Qed.

Lemma bind_targets_binds d ts v c id :
  class_call v = Some c → Name id ∈ ts → dget (bind_targets d (Assign ts v)) id = Some c.
Proof.
  intros Hv Hin. cbn [bind_targets]. rewrite Hv. revert d. induction ts as [|t ts IH] using rev_ind; intros d;
    [by apply elem_of_nil in Hin|]. rewrite foldl_app. cbn [foldl].
  apply elem_of_app in Hin as [Hin|Hin%list_elem_of_singleton].
  - destruct t as [x| | | | | | |]; try (by apply IH). rewrite dget_dset. case_decide; [done|by apply IH].
  - subst t. rewrite dget_dset. by rewrite decide_True.
Qed.

Lemma bound_assigned func id c :
  dget (bound func) id = Some c → ∃ ts v, within func (Assign ts v) ∧ Name id ∈ ts ∧ class_call v = Some c.
Proof.
  unfold bound. setoid_rewrite <-elem_of_walk. generalize (walk func). intros l.
  induction l as [|n l IH] using rev_ind; [done|]. rewrite foldl_app. cbn [foldl]. intros H.
  destruct (bind_targets_spec (foldl bind_targets [] l) n id) as [Hs|(ts & v & c' & -> & Hin & Hv & Hs)];
    rewrite Hs in H.
  - destruct (IH H) as (ts & v & ? & ?). exists ts, v. split; [apply elem_of_app; by left|done].
  - injection H as ->. exists ts, v. split; [apply elem_of_app; right; by left|done].
Qed.

Lemma assigned_bound func id ts v c :
  within func (Assign ts v) → Name id ∈ ts → class_call v = Some c → is_Some (dget (bound func) id).
Proof.
  unfold bound. rewrite <-elem_of_walk. generalize (walk func). intros l Hin Hid Hv.
  induction l as [|n l IH] using rev_ind; [by apply elem_of_nil in Hin|]. rewrite foldl_app. cbn [foldl].
  apply elem_of_app in Hin as [Hin|Hin%list_elem_of_singleton].
  - destruct (bind_targets_spec (foldl bind_targets [] l) n id) as [->|(? & ? & ? & _ & _ & _ & ->)];
      [by apply IH|by eexists].
  - subst n. rewrite (bind_targets_binds _ _ _ _ _ Hv Hid). by eexists.
Qed.

(** The class of every member found is itself a reference found. *)
Lemma member_class_ref files m :
  m ∈ (scan files).2 → ∃ r, r ∈ (scan files).1 ∧ rf_path r = [mr_cls m].
Proof.
  intros (rel & tree & n & Hf & Hn & Hm)%elem_of_scan_members.
  destruct n as [| |f args kws line| | |l| |]; try (by apply elem_of_nil in Hm).
  - cbn [members_of] in Hm. destruct (class_call (Call f args kws line)) as [c|] eqn:Hc; [|by apply elem_of_nil in Hm].
    apply list_elem_of_omap in Hm as ([[arg|] v] & _ & Hm); [|done]. injection Hm as <-.
    by eapply class_call_ref.
  - apply list_elem_of_omap in Hm as (k & _ & Hm). unfold member_of in Hm.
    destruct k as [|v a line| | | | | |]; try done. destruct v as [id| | | | | | |]; try done.
    destruct (dget (bound (FunctionDef l)) id) as [c|] eqn:Hb; [|done]. injection Hm as <-.
    apply bound_assigned in Hb as (ts & v & Hw & _ & Hv). eapply class_call_ref; [done| |done].
    eapply within_trans; [exact Hn|]. econstructor; [exact Hw|]. cbn. apply elem_of_app. right. by left.
Qed.

(** ** What the source uses, read off its syntax *)

(** [ibmmq.A.B]: attributes all the way down to the bare name. *)
Inductive names_path : node → list text → Prop :=
  | names_one a line : names_path (Attribute (Name BINDING) a line) [a]
  | names_more v path a line : names_path v path → names_path (Attribute v a line) (path ++ [a]).

(** [ibmmq.C(...)]. *)
Inductive makes (cls : text) : node → Prop :=
  | makes_class line' args kws line :
      makes cls (Call (Attribute (Name BINDING) cls line') args kws line).

(** A member of a class is used: as a keyword of a call that makes one, or as an attribute of a
    name that some function assigns from such a call, and from no other class. *)
Inductive uses_member (tree : node) (cls member : text) : Prop :=
  | used_as_keyword line' args kws line value :
      within tree (Call (Attribute (Name BINDING) cls line') args kws line) →
      (Some member, value) ∈ kws → uses_member tree cls member
  | used_on_local body id ts value line :
      within tree (FunctionDef body) →
      within (FunctionDef body) (Assign ts value) → Name id ∈ ts → makes cls value →
      (∀ ts' value' cls', within (FunctionDef body) (Assign ts' value') → Name id ∈ ts' →
         makes cls' value' → cls' = cls) →
      within (FunctionDef body) (Attribute (Name id) member line) → uses_member tree cls member.

Lemma names_path_chain n path parts : names_path n path → chain_from parts n = Some (path ++ parts).
Proof.
  intros H. revert parts. induction H as [a line|v path a line _ IH]; intros parts; [done|].
  cbn [chain_from]. by rewrite IH, <-app_assoc.
Qed.

Lemma makes_class_call cls n : makes cls n ↔ class_call n = Some cls.
Proof.
  split; [by intros []|]. unfold class_call. destruct n as [| |f args kws line| | | | |]; try done.
  unfold chain. destruct f as [id|v a l| | | | | |]; try done; cbn [chain_from].
  - by rewrite andb_false_r.
  - destruct v as [id|v b l'| | | | | |]; try done; cbn [chain_from].
    + case_bool_decide; [subst|done]. cbn. by intros [= ->].
    + assert (∀ v parts, 2 ≤ length parts → match chain_from parts v with Some [c] => Some c | _ => None end = None) as Hlong.
      { clear. induction v; intros parts Hl; try done; cbn [chain_from].
        - destruct parts as [|p [|q parts]]; simpl in Hl; [lia|lia|]. by destruct (_ && _).
        - apply IHv. simpl. lia. }
      rewrite Hlong; [done|simpl; lia].
Qed.

(** Every member used is among those the scan finds. *)
Lemma uses_member_found tree cls member rel :
  uses_member tree cls member → ∃ n w, within tree n ∧ mk_member cls member w ∈ members_of rel n.
Proof.
  intros [line' args kws line value Hw Hkw|body id ts value line Hf Ha Hid Hv Hone Hw].
  - eexists _, _. split; [exact Hw|]. cbn [members_of]. change (class_call _) with (Some cls). cbv iota beta.
    apply list_elem_of_omap. exists (Some member, value). by split.
  - exists (FunctionDef body), (where_ rel line). split; [done|]. cbn [members_of]. unfold local_members.
    apply list_elem_of_omap. exists (Attribute (Name id) member line). rewrite elem_of_walk. split; [done|].
    apply makes_class_call in Hv as Hc. destruct (assigned_bound _ _ _ _ _ Ha Hid Hc) as [c Hb].
    cbn [member_of]. rewrite Hb. apply bound_assigned in Hb as (ts' & v' & Ha' & Hid' & Hv').
    rewrite (Hone _ _ _ Ha' Hid' (proj2 (makes_class_call _ _) Hv')). done.
Qed.

(** C25. An installation whose self-check passes with ibmmq present has every module importing
    and a binding that has what the package's source names in it: each [ibmmq.A.B] chain
    anywhere in a file resolves, and a class has each member used of it as a keyword of a call
    that makes one or as an attribute of a local that is assigned from such calls of that one
    class. A member used on a parameter, or on a local assigned from two classes, is not
    covered. *)
Theorem selfcheck_sound {obj} (getattr : obj → text → option obj) is_struct make i files :
  selfcheck_main getattr is_struct make i files = 0%Z → in_mqi i = true →
  Forall (λ m, m.2 = true) (in_modules i) ∧
  ∃ b, in_binding i = Some b ∧ ∀ rel tree, (rel, tree) ∈ files →
    (∀ n path, within tree n → names_path n path → is_Some (lookup_path getattr b path)) ∧
    (∀ cls member, uses_member tree cls member → class_has getattr is_struct make b cls member).
Proof.
  unfold selfcheck_main. intros H Hmqi. rewrite Hmqi in H. destruct (in_python i); [|done]. cbn [negb] in H.
  case_bool_decide as H0; [clear H|done].
  assert (Forall (λ m, m.2 = true) (in_modules i)) as Hmod.
  { apply Forall_forall. intros [nm []] Hin; [done|]. exfalso.
    assert ((nm, false) ∈ List.filter (λ m : text * bool, negb m.2) (in_modules i)) as Hf.
    { by apply list_elem_of_In, filter_In; rewrite <-list_elem_of_In. }
    destruct (List.filter _ (in_modules i)); [by apply elem_of_nil in Hf|simpl in H0; lia]. }
  split; [done|]. destruct (in_binding i) as [b|]; [|lia]. exists b. split; [done|].
  assert (check_api getattr is_struct make b files = 0) as Hc by lia. unfold check_api in Hc.
  destruct (scan files) as [refs members] eqn:Hscan.
  destruct (problems getattr is_struct make b refs members) as [[|]|] eqn:Hp; [|done..].
  apply problems_clean in Hp as [Hrefs Hmem]. intros rel tree Hf. split.
  - intros n path Hn Hpath. pose proof (names_path_chain _ _ [] Hpath) as Hch. rewrite app_nil_r in Hch.
    assert (∃ w, mk_ref path w ∈ (scan files).1) as [w Hin].
    { assert (∃ v a line, n = Attribute v a line) as (v & a & line & ->) by (destruct Hpath; eauto).
      exists (where_ rel line). apply elem_of_scan_refs. exists rel, tree, (Attribute v a line).
      split_and!; [done..|]. cbn [ref_of]. unfold chain. by rewrite Hch. }
    rewrite Hscan in Hin. apply (Hrefs _ Hin).
  - intros cls member Hu. destruct (uses_member_found _ _ _ rel Hu) as (n & w & Hn & Hm).
    assert (mk_member cls member w ∈ (scan files).2) as Hin by (apply elem_of_scan_members; by exists rel, tree, n).
    destruct (member_class_ref _ _ Hin) as (r & Hr & Hpath). rewrite Hscan in Hin, Hr. cbn [fst snd] in *.
    destruct (Hmem _ Hin) as [Hnone|?]; [|done]. exfalso. specialize (Hrefs r Hr). rewrite Hpath in Hrefs.
    cbn in Hrefs. cbn in Hnone. rewrite Hnone in Hrefs. by destruct Hrefs.
Qed.

(** Every call in the source that connects to a queue manager is listed, once per call, with
    whether it names the client binding. *)
Theorem connect_calls_exact files c :
  c ∈ connect_calls files ↔ ∃ rel tree f args kws line how client,
    (rel, tree) ∈ files ∧ within tree (Call f args kws line) ∧
    connect_call f args kws = Some (how, client) ∧ c = mk_ccall (where_ rel line) how client.
Proof.
  unfold connect_calls. rewrite elem_of_isort, list_elem_of_bind. split.
  - intros ([rel tree] & Hc & Hf). apply list_elem_of_omap in Hc as (n & Hn%elem_of_walk & Hc).
    destruct n as [| |f args kws line| | | | |]; try done. cbn [connect_of] in Hc.
    destruct (connect_call f args kws) as [[how client]|] eqn:Hcc; [|done]. injection Hc as <-.
    by exists rel, tree, f, args, kws, line, how, client.
  - intros (rel & tree & f & args & kws & line & how & client & Hf & Hw & Hcc & ->).
    exists (rel, tree). split; [|done]. apply list_elem_of_omap. exists (Call f args kws line).
    rewrite elem_of_walk. split; [done|]. cbn [connect_of]. by rewrite Hcc.
Qed.

(** ** Witnesses *)

(** [def f(): cd = ibmmq.CD(ChannelName=...); cd.SSLCipherSpec]. *)
Definition demo_tree : node :=
  Other [FunctionDef [
    Assign [Name (u "cd")] (Call (Attribute (Name (u "ibmmq")) (u "CD") 2) [] [(Some (u "ChannelName"), NoneConstant)] 2);
    Other [Attribute (Name (u "cd")) (u "SSLCipherSpec") 3]]].

(** A binding with one class: objects are the texts of their paths. *)
Definition demo_getattr (o a : text) : option text :=
  if bool_decide (o = u "ibmmq" ∧ a = u "CD") then Some (u "CD")
  else if bool_decide (o = u "CD" ∧ a ∈ [u "ChannelName"; u "SSLCipherSpec"]) then Some (u "field")
  else None.

Lemma selfcheck_sound_witness :
  let i := mk_install true [(u "mqrc.dr", true)] true (Some (u "ibmmq")) in
  length (scan [(u "a.py", demo_tree)]).2 = 2 ∧
  class_has demo_getattr (λ _, false) (λ _, None) (u "ibmmq") (u "CD") (u "SSLCipherSpec").
Proof.
  intros i. split; [by vm_compute|].
  destruct (selfcheck_sound demo_getattr (λ _, false) (λ _, None) i [(u "a.py", demo_tree)] eq_refl eq_refl)
    as (_ & b & Hb & H). injection Hb as <-.
  set (call := Call (Attribute (Name (u "ibmmq")) (u "CD") 2) [] [(Some (u "ChannelName"), NoneConstant)] 2).
  set (body := [Assign [Name (u "cd")] call; Other [Attribute (Name (u "cd")) (u "SSLCipherSpec") 3]]).
  destruct (H (u "a.py") demo_tree) as [_ Hm]; [by left|]. apply Hm.
  apply (used_on_local _ _ _ body (u "cd") [Name (u "cd")] call 3).
  - eapply (within_child _ demo_tree); [constructor|by left].
  - eapply within_child; [constructor|by left].
  - by left.
  - constructor.
  - intros ts' value' cls' Hw _ Hv%makes_class_call.
    assert (Forall (λ n, match n with Assign _ v => class_call v = Some (u "CD") | _ => True end)
      (walk (FunctionDef body))) as Hall by (repeat (constructor; [done|]); constructor).
    rewrite Forall_forall in Hall. specialize (Hall _ (proj2 (elem_of_walk _ _) Hw)). simpl in Hall. congruence.
  - apply (within_child _ (Other [Attribute (Name (u "cd")) (u "SSLCipherSpec") 3])); [|by left].
    eapply within_child; [constructor|by right; left].
Defined.

(** [def f(qmgr): qmgr.inquire(...)]: the binding has no such member, and the check passes. *)
Example parameter_members_unchecked :
  selfcheck_main demo_getattr (λ _, false) (λ _, None)
    (mk_install true [] true (Some (u "ibmmq")))
    [(u "a.py", Other [FunctionDef [Other [Name (u "qmgr")]; Call (Attribute (Name (u "qmgr")) (u "inquire") 2) [] [] 2]])]
    = 0%Z ∧
  demo_getattr (u "CD") (u "inquire") = None.
Proof. by vm_compute. Qed.
