(* ===== verification/Logsearch.v ===== *)
(** * The log-search operator commands

    Models [status], [snapshot] and [restore] of mqlab/logsearch.py with their helpers:
    what the cluster's health and index settings mean, the names of snapshots and their
    order, and the transport steps around the snapshot API. What OpenSearch replies, the
    files of the snapshot store and the outcomes of the steps are inputs. *)

From S2P Require Import Prelude PyText PyCodec PyDict PyFloat PyJson Orchestrator Sequencer.

(** ** Health and settings *)

(** [v.get(...)] needs a mapping; [None] is the AttributeError. *)
Definition mapping (v : json) : option (list (text * json)) :=
  match v with JObj d => Some d | _ => None end.

(** [interpret_health(v) == "healthy"]; [None] is an exception of a body of another shape (a
    list or a mapping cannot be a member of the set). *)
Definition interpret_health (v : json) : option bool :=
  d ← mapping v;
  match dget_or d (u "status") JNull with
  | JStr s => Some (bool_decide (s ∈ [u "green"; u "yellow"]))
  | JArr _ | JObj _ => None
  | _ => Some false
  end.

(** [str(value).lower() == "true"]. *)
Definition says_true (v : json) : bool :=
  match v with JBool b => b | JStr s => bool_decide (lower_ascii s = u "true") | _ => false end.

Definition read_only_flag (entry : json) : option bool :=
  d ← mapping entry;
  settings ← mapping (dget_or d (u "settings") (JObj []));
  index ← mapping (dget_or settings (u "index") (JObj []));
  blocks ← mapping (dget_or index (u "blocks") (JObj []));
  let flat := dget_or settings (u "index.blocks.read_only_allow_delete") JNull in
  let nested := dget_or blocks (u "read_only_allow_delete") JNull in
  Some (says_true (match flat with JNull => nested | v => v end)).

Definition read_only_indices (v : json) : option (list text) :=
  d ← mapping v;
  flags ← mapM (λ kv, read_only_flag kv.2) d;
  Some (sorted_text ((λ x : (text * json) * bool, x.1.1) <$> filter (λ x, x.2 = true) (zip d flags))).

(** A reply of OpenSearch: a decoded body, the LogsearchError of an unreachable store, or a
    body that is not JSON. *)
Inductive reply := Body (v : json) | Unreachable | NotJson.

(** How a command ends: its exit code, or an exception that escapes. *)
Inductive finish := Exit (code : Z) | Crash.

(** A reply an HTTP call of a command continues with. *)
Definition with_body (r : reply) (k : json → finish) : finish :=
  match r with Body v => k v | Unreachable => Exit 2 | NotJson => Crash end.

(** The rows [disk_summary] reads; [None] is the exception of a body that is not a list of
    mappings (an empty mapping or string has no rows). *)
Definition disk_rows (v : json) : option (list (list (text * json))) :=
  match v with
  | JArr l => mapM mapping l
  | JObj [] | JStr [] => Some []
  | _ => None
  end.

(** [status]: the health, the disk allocation and the settings are all read before anything is
    judged. The line of [disk_summary] and the warning of [disk_full] are text only (for a
    percentage within the range of the floats). *)
Definition status (health allocation settings : reply) : finish :=
  with_body health (λ h, with_body allocation (λ a, with_body settings (λ s,
    match interpret_health h, disk_rows a, read_only_indices s with
    | Some healthy, Some _, Some read_only =>
        Exit (if healthy && bool_decide (read_only = []) then 0 else 1)
    | _, _, _ => Crash
    end))).

(** ** Snapshot names *)

(** A UTC time to the second. *)
Record Stamp := mk_stamp { st_y : N; st_m : N; st_d : N; st_H : N; st_M : N; st_S : N }.

Definition stamp_ok (t : Stamp) : Prop :=
  (1000 ≤ st_y t < 10000 ∧ st_m t < 100 ∧ st_d t < 100 ∧ st_H t < 100 ∧ st_M t < 100 ∧ st_S t < 100)%N.

(** The time as one number; it orders the times. *)
Definition stamp_number (t : Stamp) : N :=
  (((((st_y t * 100 + st_m t) * 100 + st_d t) * 100 + st_H t) * 100 + st_M t) * 100 + st_S t)%N.

(** [%m] and the like: two digits. *)
Definition pad2 (n : N) : text := [48 + n / 10; 48 + n mod 10]%N.

(** ["snap-" + now.strftime("%Y%m%dT%H%M%SZ").lower()], for a year of four digits. *)
Definition snapshot_name (t : Stamp) : text :=
  u "snap-" ++ pad2 (st_y t / 100) ++ pad2 (st_y t mod 100) ++ pad2 (st_m t) ++ pad2 (st_d t) ++
  u "t" ++ pad2 (st_H t) ++ pad2 (st_M t) ++ pad2 (st_S t) ++ u "z".

Definition latest_snapshot (names : list text) : option text := last (sorted_text names).

(** ** snapshot and restore *)

Definition GUEST_STAGE_DIR : text := u "/var/tmp/lab-staging".
Definition INVENTORY_HOST : text := u "obs".
Definition REMOTE_REPO_DIR : text := u "/var/lib/opensearch/snapshots".

Definition ansible_argv (host module args : text) : list text :=
  [u "ansible"; host; u "--become"; u "-m"; u "ansible.builtin." ++ module; u "-a"; args].

Definition stage_dir_argv (host stage_dir : text) : list text :=
  ansible_argv host (u "file") (u "path=" ++ stage_dir ++ u " state=directory owner=root group=root mode=0755").
Definition remove_argv (host path : text) : list text :=
  ansible_argv host (u "file") (u "path=" ++ path ++ u " state=absent").
Definition archive_argv (host repo_dir remote_tar : text) : list text :=
  ansible_argv host (u "shell") (u "tar czf " ++ remote_tar ++ u " -C " ++ repo_dir ++ u " .").
Definition fetch_argv (host remote_tar dest_dir : text) : list text :=
  ansible_argv host (u "fetch") (u "src=" ++ remote_tar ++ u " dest=" ++ dest_dir ++ u "/ flat=true").
Definition copy_argv (host local_tar remote_tar : text) : list text :=
  ansible_argv host (u "copy") (u "src=" ++ local_tar ++ u " dest=" ++ remote_tar).
Definition untar_argv (host repo_dir remote_tar : text) : list text :=
  ansible_argv host (u "shell") (u "tar xzf " ++ remote_tar ++ u " -C " ++ repo_dir).

Definition tar_name (name : text) : text := name ++ u ".tar.gz".
Definition remote_tar (name : text) : text := GUEST_STAGE_DIR ++ u "/" ++ tar_name name.

(** A CommandStep without retry, run in the ansible directory. *)
Definition transport (ansible_dir label : text) (argv : list text) : CommandStep :=
  mk_step label (mk_command argv (Some ansible_dir) None) None [].

Definition snapshot_steps (dir dest name : text) : list CommandStep :=
  [transport dir (u "ensure the guest staging dir") (stage_dir_argv INVENTORY_HOST GUEST_STAGE_DIR);
   transport dir (u "tar snapshot repo on guest") (archive_argv INVENTORY_HOST REMOTE_REPO_DIR (remote_tar name));
   transport dir (u "fetch snapshot to host state bucket") (fetch_argv INVENTORY_HOST (remote_tar name) dest);
   transport dir (u "remove the staged tarball from the guest") (remove_argv INVENTORY_HOST (remote_tar name))].

Definition restore_steps (dir local_tar name : text) : list CommandStep :=
  [transport dir (u "ensure the guest staging dir") (stage_dir_argv INVENTORY_HOST GUEST_STAGE_DIR);
   transport dir (u "stage snapshot to guest") (copy_argv INVENTORY_HOST local_tar (remote_tar name));
   transport dir (u "untar snapshot into guest repo") (untar_argv INVENTORY_HOST REMOTE_REPO_DIR (remote_tar name));
   transport dir (u "remove the staged tarball from the guest") (remove_argv INVENTORY_HOST (remote_tar name))].

(** What a command does: calls of the snapshot API, and the outputs of its steps. *)
Inductive act := TakeSnapshot (name : text) | Steps (out : list output) | PostRestore (name : text).

Section commands.
Context (fpow : float → nat → option float) (ansible_dir store : text).

(** The end of the steps: [StepFailedError] exits with the step's code; [None] when the run is
    observed in the middle. *)
Definition steps_finish (e : run_end) : option finish :=
  match e with
  | RDone => Some (Exit 0)
  | RError (StepFailedError _ code _ _) => Some (Exit code)
  | RError DelayOverflow => Some Crash
  | ROpen => None
  end.

(** [result.get("snapshot", {}).get("state")]. *)
Definition snapshot_state (v : json) : option json :=
  d ← mapping v; s ← mapping (dget_or d (u "snapshot") (JObj [])); Some (dget_or s (u "state") JNull).

Definition snapshot (now : Stamp) (put : reply) (ats : list Attempt) : list act * option finish :=
  let name := snapshot_name now in
  let taken := [TakeSnapshot name] in
  match put with
  | Unreachable => (taken, Some (Exit 2))
  | NotJson => (taken, Some Crash)
  | Body v =>
      match snapshot_state v with
      | None => (taken, Some Crash)
      | Some (JStr s) =>
          if bool_decide (s = u "SUCCESS") then
            let '(out, e) := run_steps fpow (snapshot_steps ansible_dir store name) false ats in
            (taken ++ [Steps out], steps_finish e)
          else (taken, Some (Exit 1))
      | Some _ => (taken, Some (Exit 1))
      end
  end.

(** The names of the artifacts among the files of the store. *)
Definition available (files : list text) : list text :=
  sorted_text (omap (strip_suffix (u ".tar.gz")) files).

(** [restore], for names without a slash: a file exists when it is in the store. *)
Definition restore (arg : option text) (files : list text) (ats : list Attempt) (post : reply) :
  list act * option finish :=
  let asked := match arg with Some (c :: s) => Some (c :: s) | _ => None end in
  match (match asked with Some n => Some n | None => latest_snapshot (available files) end) with
  | None | Some [] => ([], Some (Exit 1))
  | Some name =>
      if bool_decide (asked ≠ None) && negb (bool_decide (tar_name name ∈ files)) then ([], Some (Exit 1))
      else
        let local_tar := store ++ u "/" ++ tar_name name in
        let '(out, e) := run_steps fpow (restore_steps ansible_dir local_tar name) false ats in
        match e with
        | RDone =>
            ([Steps out; PostRestore name],
             Some (match post with Body _ => Exit 0 | Unreachable => Exit 2 | NotJson => Crash end))
        | _ => ([Steps out], steps_finish e)
        end
  end.
End commands.

(** ** The order of the names *)

Lemma text_leb_pad2 a b s t :
  (a < 100)%N → (b < 100)%N →
  text_leb (pad2 a ++ s) (pad2 b ++ t) = (a <? b)%N || ((a =? b)%N && text_leb s t).
Proof.
  intros Ha Hb. unfold pad2. cbn [app text_leb].
  assert (∀ x y : N, (48 + x <? 48 + y)%N = (x <? y)%N) as Hlt by (intros; apply eq_true_iff_eq; rewrite !N.ltb_lt; lia).
  assert (∀ x y : N, (48 + x =? 48 + y)%N = (x =? y)%N) as Heq by (intros; apply eq_true_iff_eq; rewrite !N.eqb_eq; lia).
  rewrite !Hlt, !Heq. pose proof (N.div_mod' a 10). pose proof (N.div_mod' b 10).
  pose proof (N.mod_lt a 10). pose proof (N.mod_lt b 10).
  destruct (N.ltb_spec (a / 10) (b / 10)), (N.eqb_spec (a / 10) (b / 10)), (N.ltb_spec (a mod 10) (b mod 10)),
    (N.eqb_spec (a mod 10) (b mod 10)), (N.ltb_spec a b), (N.eqb_spec a b); simpl; try done; try lia.
Qed.

(** A common prefix does not change the order. *)
Lemma text_leb_app p s t : text_leb (p ++ s) (p ++ t) = text_leb s t.
Proof.
  induction p as [|c p IH]; [done|]. cbn [app text_leb]. by rewrite N.ltb_irrefl, N.eqb_refl, IH.
Qed.

(** The names of snapshots sort as their times: the text order that [latest_snapshot]
    takes the maximum of is the order of the instants the names were made from. *)
Theorem snapshot_names_ordered a b :
  stamp_ok a → stamp_ok b →
  text_leb (snapshot_name a) (snapshot_name b) = true ↔ (stamp_number a ≤ stamp_number b)%N.
Proof.
  intros (Hy & Hm & Hd & HH & HM & HS) (Hy' & Hm' & Hd' & HH' & HM' & HS').
  assert (∀ y, (1000 ≤ y < 10000 → y / 100 < 100 ∧ y mod 100 < 100 ∧ y = y / 100 * 100 + y mod 100))%N as Hsplit.
  { intros y H. pose proof (N.div_mod' y 100). pose proof (N.mod_lt y 100).
    split_and!; [|lia|lia]. apply N.Div0.div_lt_upper_bound. lia. }
  destruct (Hsplit _ Hy) as (H1 & H2 & H3), (Hsplit _ Hy') as (H1' & H2' & H3').
  unfold snapshot_name. rewrite text_leb_app, !text_leb_pad2, text_leb_app, !text_leb_pad2 by done.
  unfold stamp_number. cbn [text_leb].
  set (y1 := (st_y a / 100)%N) in *. set (y2 := (st_y a mod 100)%N) in *.
  set (z1 := (st_y b / 100)%N) in *. set (z2 := (st_y b mod 100)%N) in *. rewrite H3, H3'.
  assert (text_leb (u "z") (u "z") = true) as -> by done.
  repeat rewrite ?orb_true_iff, ?andb_true_iff, ?N.ltb_lt, ?N.eqb_eq. lia.
Qed.

(** The latest name is a name, and none sorts after it. *)
Lemma latest_snapshot_spec names :
  match latest_snapshot names with
  | None => names = []
  | Some n => n ∈ names ∧ ∀ m, m ∈ names → text_leb m n = true
  end.
Proof.
  unfold latest_snapshot, sorted_text.
  assert (StronglySorted text_leb (isort text_leb names)) as Hs.
  { apply (isort_StronglySorted text_leb (λ _, True)); [| |by apply Forall_true].
    - intros x y _ _. apply text_leb_total.
    - intros x y z _ _ _. apply text_leb_trans. }
  destruct (last (isort text_leb names)) as [n|] eqn:Hl.
  - apply last_Some in Hl as [l Hl]. split; [apply (elem_of_isort text_leb); rewrite Hl, elem_of_app; by right; left|].
    intros m Hm. apply (elem_of_isort text_leb) in Hm. rewrite Hl in Hs, Hm.
    apply elem_of_app in Hm as [Hm|Hm].
    2:{ apply list_elem_of_singleton in Hm. subst m. destruct (text_leb_total n n); assumption. }
    apply StronglySorted_app in Hs as (Hall & _ & _). specialize (Hall m n Hm ltac:(by left)).
    by apply Is_true_true.
  - apply last_None in Hl. destruct names as [|x names]; [done|]. exfalso.
    assert (x ∈ isort text_leb (x :: names)) as Hx by (apply elem_of_isort; by left).
    rewrite Hl in Hx. by apply elem_of_nil in Hx.
Qed.

(** A failed step fails with a code other than 0. *)
Lemma run_attempts_failed fpow step n ats out label code s r spare :
  run_attempts fpow step n ats = (out, SError (StepFailedError label code s r), spare) → code ≠ 0%Z.
Proof.
  revert n out. induction ats as [|a ats IH]; intros n out; cbn [run_attempts]; [done|].
  destruct (Z.eqb_spec (at_exit a) 0); [done|].
  destruct (st_retry step) as [p|]; [|by intros [= _ _ <- _ _ _]].
  destruct (_ <=? _)%Z; [by intros [= _ _ <- _ _ _]|]. destruct (delay_before fpow p (S n)); [|done].
  destruct (run_attempts fpow step (S n) ats) as [[o e] sp] eqn:Hr. intros [= <- -> ->]. by eapply IH.
Qed.

Lemma run_steps_failed fpow steps step ats out label code s r :
  run_steps fpow steps step ats = (out, RError (StepFailedError label code s r)) → code ≠ 0%Z.
Proof.
  unfold run_steps. generalize (length steps), 0, fzero. intros total completed tot.
  revert completed tot ats out. induction steps as [|st steps IH]; intros completed tot ats out; cbn [run_from]; [done|].
  destruct (run_step fpow st ats) as [[o e] spare] eqn:Hr. destruct e as [sec ret|err|]; [| |done].
  - destruct (run_from fpow step total (S completed) (fadd tot sec) steps spare) as [o' e'] eqn:Hf.
    intros [= _ ->]. by eapply IH.
  - destruct err as [l c se re|]; [|done]. intros [= _ _ <- _ _]. by eapply run_attempts_failed.
Qed.

Lemma steps_succeeded fpow steps ats out e :
  run_steps fpow steps false ats = (out, e) → Forall unretried steps → steps_finish e = Some (Exit 0) →
  runs out = st_command <$> steps.
Proof.
  intros Hr Hu He. destruct e as [|[label code s r|]|]; [|injection He as ->; by apply run_steps_failed in Hr|done|done].
  by eapply run_steps_done_once.
Qed.

(** ** Properties *)

(** [status] exits 0 exactly when OpenSearch answered all three questions, the cluster is green
    or yellow, the allocation is a list of rows, and no index is read-only: a full store never
    passes. *)
Theorem status_exact health allocation settings :
  status health allocation settings = Exit 0 ↔
  ∃ h a s, health = Body h ∧ allocation = Body a ∧ settings = Body s ∧
    interpret_health h = Some true ∧ is_Some (disk_rows a) ∧ read_only_indices s = Some [].
Proof.
  unfold status, with_body. split.
  - destruct health as [h| |], allocation as [a| |], settings as [s| |]; try done.
    destruct (interpret_health h) as [[]|] eqn:Hh, (disk_rows a) as [rows|] eqn:Ha,
      (read_only_indices s) as [l|] eqn:Hs; try done; cbn.
    case_bool_decide; [|done]. subst. intros _. exists h, a, s. rewrite Ha. by eauto.
  - by intros (h & a & s & -> & -> & -> & -> & [rows ->] & ->).
Qed.

(** An index that carries the block, in either form, is reported. *)
Lemma read_only_reported v l name entry d :
  v = JObj d → (name, entry) ∈ d → read_only_flag entry = Some true → read_only_indices v = Some l → name ∈ l.
Proof.
  intros -> Hin Hf. unfold read_only_indices. cbn [mapping mbind option_bind].
  destruct (mapM (λ kv, read_only_flag kv.2) d) as [flags|] eqn:Hm; [|done]. intros [= <-].
  unfold sorted_text. apply elem_of_isort, list_elem_of_fmap. apply mapM_Some in Hm.
  exists ((name, entry), true). split; [done|]. apply list_elem_of_filter. split; [done|].
  apply list_elem_of_lookup in Hin as [i Hi]. pose proof (Forall2_lookup_l _ _ _ _ _ Hm Hi) as (b & Hb & Hfb).
  apply list_elem_of_lookup_2 with i. rewrite lookup_zip_with, Hi, Hb. cbn in *. congruence.
Qed.

(** A snapshot command that exits 0 took its snapshot, OpenSearch reported it consistent,
    and its tarball was then made, fetched to the host and removed from the guest, each
    command once and in that order; an inconsistent snapshot is never fetched. *)
Theorem snapshot_durable fpow dir store now put ats acts fin :
  snapshot fpow dir store now put ats = (acts, fin) →
  (fin = Some (Exit 0) → ∃ out, acts = [TakeSnapshot (snapshot_name now); Steps out] ∧
     runs out = st_command <$> snapshot_steps dir store (snapshot_name now)) ∧
  ((∃ out, Steps out ∈ acts) → ∃ v, put = Body v ∧ snapshot_state v = Some (JStr (u "SUCCESS"))).
Proof.
  unfold snapshot. intros H.
  assert (∀ fin', (acts, fin) = ([TakeSnapshot (snapshot_name now)], fin') → fin' ≠ Some (Exit 0) →
    (fin = Some (Exit 0) → ∃ out, acts = [TakeSnapshot (snapshot_name now); Steps out] ∧
      runs out = st_command <$> snapshot_steps dir store (snapshot_name now)) ∧
    ((∃ out, Steps out ∈ acts) → ∃ v, put = Body v ∧ snapshot_state v = Some (JStr (u "SUCCESS")))) as Hno.
  { intros fin' [= -> ->] Hne. split; [done|]. intros (out & Hin%list_elem_of_singleton). done. }
  destruct put as [v| |]; [|by eapply Hno|by eapply Hno].
  destruct (snapshot_state v) as [[| | | |s| |]|] eqn:Hs; try (by eapply Hno).
  case_bool_decide as Hsucc; [|by eapply Hno]. subst s.
  destruct (run_steps _ _ _ _) as [out e] eqn:Hr. injection H as <- <-. split; [|by intros _; exists v].
  intros He. exists out. split; [done|]. eapply steps_succeeded; [exact Hr|by repeat constructor|done].
Qed.

(** A restore without a name that exits 0 restored the newest snapshot of the store: over
    artifacts of any instants, next to any other files, it stages the artifact of the latest
    instant, each command once and in order, and only then asks OpenSearch to restore it. *)
Theorem restore_newest fpow dir store files ts ats post acts :
  Forall stamp_ok ts → (∀ n, n ∈ omap (strip_suffix (u ".tar.gz")) files ↔ n ∈ snapshot_name <$> ts) →
  restore fpow dir store None files ats post = (acts, Some (Exit 0)) → ∃ t out,
    t ∈ ts ∧ (∀ t', t' ∈ ts → (stamp_number t' ≤ stamp_number t)%N) ∧
    acts = [Steps out; PostRestore (snapshot_name t)] ∧
    runs out = st_command <$> restore_steps dir (store ++ u "/" ++ tar_name (snapshot_name t)) (snapshot_name t).
Proof.
  intros Hok Hfiles H. unfold restore in H. pose proof (latest_snapshot_spec (available files)) as Hl.
  destruct (latest_snapshot (available files)) as [[|c n]|]; [done| |done]. set (name := c :: n) in *.
  rewrite bool_decide_eq_false_2 in H by (by intros []). cbn [andb] in H.
  destruct Hl as [Hin Hmax].
  assert (∀ m, m ∈ available files ↔ m ∈ snapshot_name <$> ts) as Hav.
  { intros m. unfold available, sorted_text. by rewrite elem_of_isort, Hfiles. }
  apply Hav, list_elem_of_fmap in Hin as (t & Hname & Ht).
  destruct (run_steps _ _ _ _) as [out e] eqn:Hr.
  assert (e = RDone ∧ acts = [Steps out; PostRestore name]) as [-> ->].
  { destruct e as [|[label code s r|]|]; [by simplify_eq| |done|done].
    cbn [steps_finish] in H. injection H as _ ->. by apply run_steps_failed in Hr. }
  exists t, out. split; [done|]. split.
  - intros t' Ht'. rewrite Forall_forall in Hok. apply snapshot_names_ordered; [by apply Hok..|].
    rewrite <-Hname. apply Hmax, Hav. by apply list_elem_of_fmap_2.
  - rewrite <-Hname. split; [done|]. eapply steps_succeeded; [exact Hr|by repeat constructor|done].
Qed.

(** ** Witnesses *)

Definition demo_now (d : N) : Stamp := mk_stamp 2026 6 d 12 30 0.
Definition demo_ok : Attempt := mk_attempt 0 (float_of_Z 1) (float_of_Z 2).

Lemma snapshot_names_ordered_witness :
  snapshot_name (demo_now 8) = u "snap-20260608t123000z" ∧
  text_leb (snapshot_name (demo_now 8)) (snapshot_name (demo_now 10)) = true.
Proof.
  split; [by vm_compute|]. apply snapshot_names_ordered; vm_compute; done.
Defined.

Lemma snapshot_durable_witness :
  let put := Body (JObj [(u "snapshot", JObj [(u "state", JStr (u "SUCCESS"))])]) in
  let r := snapshot (λ _ _, None) (u "ansible") (u "state") (demo_now 8) put (replicate 4 demo_ok) in
  r.2 = Some (Exit 0) ∧ ∃ out, r.1 = [TakeSnapshot (snapshot_name (demo_now 8)); Steps out] ∧ length (runs out) = 4.
Proof.
  intros put r. assert (r.2 = Some (Exit 0)) as Hr by (by vm_compute). split; [done|].
  destruct (snapshot_durable _ _ _ _ _ _ r.1 r.2 (surjective_pairing r)) as [H _].
  destruct (H Hr) as (out & Ha & Hruns). exists out. split; [done|]. by rewrite Hruns.
Defined.

Lemma restore_newest_witness :
  let files := [tar_name (snapshot_name (demo_now 8)); u "notes.txt"; tar_name (snapshot_name (demo_now 9))] in
  let r := restore (λ _ _, None) (u "ansible") (u "state") None files (replicate 4 demo_ok) (Body (JObj [])) in
  ∃ out, r.1 = [Steps out; PostRestore (snapshot_name (demo_now 9))].
Proof.
  intros files r.
  destruct (restore_newest (λ _ _, None) (u "ansible") (u "state") files [demo_now 8; demo_now 9] (replicate 4 demo_ok)
    (Body (JObj [])) r.1) as (t & out & Ht & Hmax & Hr & _).
  - by repeat constructor.
  - intros n. assert (omap (strip_suffix (u ".tar.gz")) files = snapshot_name <$> [demo_now 8; demo_now 9]) as ->; [by vm_compute|done].
  - apply injective_projections; [done|by vm_compute].
  - exists out. rewrite Hr. assert (t = demo_now 9) as ->; [|done].
    rewrite !elem_of_cons, elem_of_nil in Ht. destruct Ht as [->|[->|[]]]; [|done].
    exfalso. specialize (Hmax (demo_now 9) ltac:(right; left)). by vm_compute in Hmax.
Defined.
