(* ===== verification/Corosync.v ===== *)
(** * The heartbeat editor of corosync.conf

    Models ansible/roles/rdqm-ha/library/rdqm_corosync_heartbeat.py: the parser of the
    sections of a corosync.conf, the edits that set the heartbeat timeout, and the module
    around them. CorosyncTree.v relates them to the tree of the file, CorosyncEdit.v proves
    what the module does. *)

From S2P Require Import Prelude PyText PyCodec PyDict.

Open Scope nat_scope.

(** ** The lines *)

(** What the three expressions [_OPEN], [_CLOSE], [_KEY] make of a line, blanks and comments
    being skipped; the keys and names are of the class [[A-Za-z0-9_.-]]. *)
Inductive kind := Skip | Opens (name : text) | Closes | Key (k v : text).

Definition name_char (c : N) : bool :=
  (((65 <=? c) && (c <=? 90)) || ((97 <=? c) && (c <=? 122)) || ((48 <=? c) && (c <=? 57)) ||
   (c =? 95) || (c =? 46) || (c =? 45))%N.

Definition kind_of (line : text) : kind :=
  let s := strip line in
  if startswith s (u "#") then Skip else
  match span name_char s with
  | ([], _) => if bool_decide (s = u "}") then Closes else Skip
  | (name, r) =>
      match lstrip r with
      | [123%N] => Opens name
      | 58%N :: v => Key name (lstrip v)
      | _ => Skip
      end
  end.

(** ** The sections *)

(** [Section]: its path, the lines of its braces, its keys with their line and value (the
    first occurrence), and the sections directly inside it. *)
Inductive section :=
  mk_section (name : text) (path : list text) (start end_ : nat)
    (keys : list (text * (nat * text))) (children : list section).

Definition sec_name (s : section) := let '(mk_section n _ _ _ _ _) := s in n.
Definition sec_path (s : section) := let '(mk_section _ p _ _ _ _) := s in p.
Definition sec_start (s : section) := let '(mk_section _ _ i _ _ _) := s in i.
Definition sec_end (s : section) := let '(mk_section _ _ _ j _ _) := s in j.
Definition sec_keys (s : section) := let '(mk_section _ _ _ _ ks _) := s in ks.
Definition sec_children (s : section) := let '(mk_section _ _ _ _ _ ch) := s in ch.

(** An entry of the parser's stack: a section not yet closed. *)
Record frame := mk_frame {
    fr_name : text; fr_path : list text; fr_start : nat;
    fr_keys : list (text * (nat * text)); fr_children : list section
  }.

Inductive conf_error :=
  | ClosesNothing (line : nat) | NeverClosed (name : text) | NotOneTotem (found : nat)
  | TokenOutOfRange (token : Z) | NotConverged.

(** The closed outermost sections, and the stack, its top first. *)
Abbreviation pstate := (list section * list frame)%type (only parsing).

Definition top_path (st : pstate) : list text := match st.2 with [] => [] | f :: _ => fr_path f end.

Definition put_section (s : section) (st : pstate) : pstate :=
  match st with
  | (roots, []) => (roots ++ [s], [])
  | (roots, f :: stack) =>
      (roots, mk_frame (fr_name f) (fr_path f) (fr_start f) (fr_keys f) (fr_children f ++ [s]) :: stack)
  end.

Definition put_key (k : text) (i : nat) (v : text) (st : pstate) : pstate :=
  match st with
  | (roots, []) => (roots, [])
  | (roots, f :: stack) =>
      (roots, mk_frame (fr_name f) (fr_path f) (fr_start f) (dsetdefault (fr_keys f) k (i, v))
                (fr_children f) :: stack)
  end.

(** One turn of the loop of [parse]. *)
Definition parse_line (i : nat) (line : text) (st : pstate) : res conf_error pstate :=
  match kind_of line with
  | Skip => Ok st
  | Key k v => Ok (put_key k i v st)
  | Opens n => Ok (st.1, mk_frame n (top_path st ++ [n]) i [] [] :: st.2)
  | Closes =>
      match st with
      | (_, []) => Err (ClosesNothing (S i))
      | (roots, f :: stack) =>
          Ok (put_section (mk_section (fr_name f) (fr_path f) (fr_start f) i (fr_keys f) (fr_children f))
                (roots, stack))
      end
  end.

Fixpoint parse_from (i : nat) (st : pstate) (lines : list text) : res conf_error pstate :=
  match lines with
  | [] => Ok st
  | line :: lines => st' ← parse_line i line st; parse_from (S i) st' lines
  end.

(** A section and the sections inside it, in the order they open. *)
Fixpoint preorder (s : section) : list section :=
  match s with mk_section _ _ _ _ _ ch => s :: concat (preorder <$> ch) end.

Definition parse (lines : list text) : res conf_error (list section) :=
  '(roots, stack) ← parse_from 0 ([], []) lines;
  match stack with
  | [] => Ok (concat (preorder <$> roots))
  | f :: _ => Err (NeverClosed (fr_name f))
  end.

(** ** The edits *)

Definition TOKEN_MIN : Z := 3000.
Definition TOKEN_MAX : Z := 120000.
Definition DEFAULT_INDENT : text := u "    ".

Definition heartbeat_values (token : Z) : list (text * text) :=
  [(u "knet_ping_timeout", Z_text (token / 2)); (u "knet_ping_interval", Z_text (token / 20));
   (u "knet_pong_count", u "2")].

Definition indent_of (line : text) : text := take (length line - length (lstrip line)) line.

Definition child_indent (lines : list text) (s : section) : text :=
  match List.find (λ l, negb (bool_decide (strip l = [])))
          (take (sec_end s - S (sec_start s)) (drop (S (sec_start s)) lines)) with
  | Some line => indent_of line
  | None => indent_of (nth (sec_start s) lines []) ++ DEFAULT_INDENT
  end.

Definition key_line (indent k v : text) : text := indent ++ k ++ u ": " ++ v.

(** [_set_key]: the changed lines, [None] when nothing changed. *)
Definition set_key (lines : list text) (s : section) (k v : text) : option (list text) :=
  match dget (sec_keys s) k with
  | Some (i, current) =>
      if bool_decide (current = v) then None
      else Some (<[i := key_line (indent_of (nth i lines [])) k v]> lines)
  | None =>
      Some (take (sec_end s) lines ++ key_line (child_indent lines s) k v :: drop (sec_end s) lines)
  end.

(** [_RING] of a key, whose characters are of the name class, and [int] of its digits (of at
    most 4300 of them). *)
Definition ring_link (k : text) : option N :=
  if startswith k (u "ring") then
    ds ← strip_suffix (u "_addr") (drop 4 k);
    if negb (bool_decide (ds = [])) && forallb (λ c, (48 <=? c) && (c <=? 57))%N ds
    then Some (digits_value ds) else None
  else None.

Definition NODE_PATH : list text := [u "nodelist"; u "node"].

Definition heartbeat_links (sections : list section) : list N :=
  match isort N.leb (uniq (List.filter (λ s, bool_decide (sec_path s = NODE_PATH)) sections ≫=
                             λ s, omap ring_link (sec_keys s).*1)) with
  | [] => [0%N]
  | links => links
  end.

Definition totem_of (sections : list section) : res conf_error section :=
  match List.filter (λ s, bool_decide (sec_path s = [u "totem"])) sections with
  | [t] => Ok t
  | l => Err (NotOneTotem (length l))
  end.

Definition link_number (s : section) : text := (dget_or (sec_keys s) (u "linknumber") (0, u "0")).2.

Definition is_interface (link : N) (s : section) : bool :=
  bool_decide (sec_name s = u "interface") && bool_decide (link_number s = N_text link).

Definition interface (totem : section) (link : N) : option section :=
  List.find (is_interface link) (sec_children totem).

(** The lines of a new interface block. *)
Definition interface_lines (inner : text) (link : N) : list text :=
  [inner ++ u "interface {"; key_line (inner ++ DEFAULT_INDENT) (u "linknumber") (N_text link); inner ++ u "}"].

Fixpoint values_edit (lines : list text) (s : section) (kvs : list (text * text)) : option (list text) :=
  match kvs with
  | [] => None
  | (k, v) :: kvs => match set_key lines s k v with Some l => Some l | None => values_edit lines s kvs end
  end.

Fixpoint links_edit (lines : list text) (totem : section) (token : Z) (links : list N) : option (list text) :=
  match links with
  | [] => None
  | link :: links =>
      match interface totem link with
      | None => Some (take (sec_end totem) lines ++ interface_lines (child_indent lines totem) link ++
                      drop (sec_end totem) lines)
      | Some i =>
          match values_edit lines i (heartbeat_values token) with
          | Some l => Some l
          | None => links_edit lines totem token links
          end
      end
  end.

(** [_next_edit]: the first missing edit, [None] when the file matches. *)
Definition next_edit (lines : list text) (token : Z) : res conf_error (option (list text)) :=
  sections ← parse lines;
  totem ← totem_of sections;
  Ok match set_key lines totem (u "token") (Z_text token) with
     | Some l => Some l
     | None => links_edit lines totem token (heartbeat_links sections)
     end.

(** The loop of [apply_heartbeat] with the passes left. *)
Fixpoint passes (n : nat) (lines : list text) (token : Z) : res conf_error (list text) :=
  match n with
  | 0 => Err NotConverged
  | S n =>
      e ← next_edit lines token;
      match e with None => Ok lines | Some lines' => passes n lines' token end
  end.

Definition apply_heartbeat (body : text) (token : Z) : res conf_error text :=
  _ ← raise_if (negb ((TOKEN_MIN <=? token) && (token <=? TOKEN_MAX)))%Z (TokenOutOfRange token);
  let lines := splitlines body in
  sections ← parse lines;
  lines' ← passes (2 + 4 * length (heartbeat_links sections)) lines token;
  Ok (str_join [10%N] lines' ++ [10%N]).

(** ** The module *)

(** How a run of the module ends: [fail_json], for a file that cannot be read or edited, or
    [exit_json] with what it wrote. *)
Inductive outcome :=
  | Fails (e : option conf_error)
  | Exits (changed : bool) (written : option text) (links : list N).

Definition heartbeat_main (before : option text) (token : Z) (check_mode : bool) : outcome :=
  match before with
  | None => Fails None
  | Some before =>
      match (after ← apply_heartbeat before token;
             sections ← parse (splitlines after);
             Ok (after, heartbeat_links sections)) with
      | Err e => Fails (Some e)
      | Ok (after, links) =>
          let changed := negb (bool_decide (after = before)) in
          Exits changed (if changed && negb check_mode then Some after else None) links
      end
  end.
