(* ===== verification/CorosyncTree.v ===== *)
(** * corosync.conf as a tree

    The tree of blocks a well-braced file stands for: the parser of Corosync.v accepts exactly
    the texts of trees and computes the sections of the tree, and setting a key by line numbers
    is setting it in the tree. *)

From S2P Require Import Prelude PyText PyCodec PyDict Corosync.

Open Scope nat_scope.

(** ** The tree of a file *)

(** A line that is no brace, or a block with its two brace lines. *)
Inductive item := Leaf (line : text) | Block (header name : text) (body : list item) (close : text).

Fixpoint flat (it : item) : list text :=
  match it with
  | Leaf l => [l]
  | Block h _ b c => h :: concat (flat <$> b) ++ [c]
  end.
Definition flats (l : list item) : list text := concat (flat <$> l).

Inductive item_wf : item → Prop :=
  | leaf_wf l : kind_of l ≠ Closes → (∀ n, kind_of l ≠ Opens n) → item_wf (Leaf l)
  | block_wf h n b c : kind_of h = Opens n → Forall item_wf b → kind_of c = Closes → item_wf (Block h n b c).

Section item_ind.
Context (P : item → Prop) (Hleaf : ∀ l, P (Leaf l))
  (Hblock : ∀ h n b c, Forall P b → P (Block h n b c)).

Fixpoint item_nested (it : item) : P it :=
  match it with
  | Leaf l => Hleaf l
  | Block h n b c => Hblock h n b c ((fix go l := match l return Forall P l with
      | [] => Forall_nil_2 P | x :: l => Forall_cons_2 P x l (item_nested x) (go l) end) b)
  end.
End item_ind.

(** The keys of a body whose first line has number [i], added to those of [ks]. *)
Definition leaf_key (i : nat) (it : item) (ks : list (text * (nat * text))) :=
  match it with
  | Leaf l => match kind_of l with Key k v => dsetdefault ks k (i, v) | _ => ks end
  | Block _ _ _ _ => ks
  end.

Fixpoint body_keys (i : nat) (b : list item) (ks : list (text * (nat * text))) :=
  match b with
  | [] => ks
  | it :: b => body_keys (i + length (flat it)) b (leaf_key i it ks)
  end.

(** The sections of a body. *)
Section secs.
Context (sec : nat → item → section).

Fixpoint secs_with (i : nat) (b : list item) : list section :=
  match b with
  | [] => []
  | it :: b => match it with Leaf _ => [] | Block _ _ _ _ => [sec i it] end ++ secs_with (i + length (flat it)) b
  end.
End secs.

Fixpoint sec_of (path : list text) (i : nat) (it : item) : section :=
  match it with
  | Leaf _ => mk_section [] [] 0 0 [] []
  | Block _ n b _ =>
      mk_section n (path ++ [n]) i (S i + length (flats b)) (body_keys (S i) b [])
        (secs_with (sec_of (path ++ [n])) (S i) b)
  end.
Definition secs (path : list text) : nat → list item → list section := secs_with (sec_of path).

(** What the parser makes of an item. *)
Definition feed (i : nat) (it : item) (st : pstate) : pstate :=
  match it with
  | Leaf l => match kind_of l with Key k v => put_key k i v st | _ => st end
  | Block _ _ _ _ => put_section (sec_of (top_path st) i it) st
  end.

Fixpoint feeds (i : nat) (b : list item) (st : pstate) : pstate :=
  match b with [] => st | it :: b => feeds (i + length (flat it)) b (feed i it st) end.

Lemma flats_app a b : flats (a ++ b) = flats a ++ flats b.
Proof. unfold flats. by rewrite fmap_app, concat_app. Qed.

Lemma flats_cons it b : flats (it :: b) = flat it ++ flats b.
Proof. done. Qed.

Lemma flat_block h n b c : flat (Block h n b c) = h :: flats b ++ [c].
Proof. done. Qed.

Lemma feeds_frame b : ∀ i roots n p s ks ch stack,
  feeds i b (roots, mk_frame n p s ks ch :: stack) =
  (roots, mk_frame n p s (body_keys i b ks) (ch ++ secs p i b) :: stack).
Proof.
  induction b as [|it b IH]; intros i roots n p s ks ch stack; [unfold secs; cbn; by rewrite app_nil_r|].
  unfold secs. cbn [feeds body_keys secs_with]. destruct it as [l|h m b' c]; cbn [feed leaf_key].
  - destruct (kind_of l); cbn [put_key fr_name fr_path fr_start fr_keys fr_children]; by rewrite IH.
  - cbn [put_section fr_name fr_path fr_start fr_keys fr_children top_path snd]. rewrite IH.
    unfold secs. by rewrite <-app_assoc.
Qed.

Lemma feeds_roots b : ∀ i roots, feeds i b (roots, []) = (roots ++ secs [] i b, []).
Proof.
  unfold secs. induction b as [|it b IH]; intros i roots; cbn [feeds secs_with]; [by rewrite app_nil_r|].
  destruct it as [l|h m b' c]; cbn [feed].
  - destruct (kind_of l); cbn [put_key]; by rewrite IH.
  - cbn [put_section top_path snd]. by rewrite IH, <-app_assoc.
Qed.

Lemma parse_items b : ∀ i st rest, Forall item_wf b →
  parse_from i st (flats b ++ rest) = parse_from (i + length (flats b)) (feeds i b st) rest.
Proof.
  assert (∀ b, Forall (λ it, item_wf it → ∀ i st rest,
    parse_from i st (flat it ++ rest) = parse_from (i + length (flat it)) (feed i it st) rest) b →
    ∀ i st rest, Forall item_wf b →
    parse_from i st (flats b ++ rest) = parse_from (i + length (flats b)) (feeds i b st) rest) as Hlist.
  { clear b. induction 1 as [|it b Hit Hb IH]; intros i st rest Hwf; [cbn; by rewrite Nat.add_0_r|].
    apply Forall_cons in Hwf as [Hw Hwf]. rewrite flats_cons, <-app_assoc, Hit, IH by done.
    cbn [feeds]. by rewrite length_app, Nat.add_assoc. }
  apply Hlist. apply Forall_true. clear b. intros it. induction it as [l|h n b c IH] using item_nested.
  - inversion_clear 1 as [? H1 H2|]. intros i st rest. cbn [flat app parse_from length feed]. unfold parse_line.
    rewrite Nat.add_1_r. destruct (kind_of l); [done|by destruct (H2 name)|done|done].
  - inversion_clear 1 as [|? ? ? ? Hh Hb Hc]. intros i [roots stack] rest.
    rewrite flat_block. cbn [app parse_from]. unfold parse_line at 1. rewrite Hh. cbn [mbind res_bind fst snd].
    rewrite <-app_assoc, Hlist by done. rewrite feeds_frame. cbn [app parse_from]. unfold parse_line. rewrite Hc.
    cbn [mbind res_bind length]. rewrite length_app. cbn [length].
    replace (i + S (length (flats b) + 1)) with (S (S i + length (flats b))) by lia.
    cbn [fr_name fr_path fr_start fr_keys fr_children]. done.
Qed.

Lemma parse_flats b : Forall item_wf b → parse (flats b) = Ok (concat (preorder <$> secs [] 0 b)).
Proof.
  intros Hwf. unfold parse. rewrite <-(app_nil_r (flats b)), parse_items by done.
  rewrite feeds_roots. by cbn [parse_from mbind res_bind app].
Qed.

(** *** Every file the parser accepts is the text of a tree *)

(** The lines of a tree under construction: the closed items, and the open blocks, innermost
    first, with their items so far. *)
Fixpoint unz (zs : list (text * text * list item)) (r : list item) : list text :=
  match zs with
  | [] => flats r
  | (h, _, b) :: zs => unz zs r ++ h :: flats b
  end.

Definition open_wf (z : text * text * list item) : Prop :=
  kind_of z.1.1 = Opens z.1.2 ∧ Forall item_wf z.2.

Lemma put_section_depth s st : length (put_section s st).2 = length st.2.
Proof. by destruct st as [roots [|f stack]]. Qed.

Lemma put_key_depth k i v st : length (put_key k i v st).2 = length st.2.
Proof. by destruct st as [roots [|f stack]]. Qed.

(** An item added to the innermost open block. *)
Lemma unz_add (zs : list (text * text * list item)) r it :
  Forall open_wf zs → Forall item_wf r → item_wf it → ∃ zs' r',
    length zs' = length zs ∧ Forall open_wf zs' ∧ Forall item_wf r' ∧ unz zs' r' = unz zs r ++ flat it.
Proof.
  intros Hzs Hr Hit. destruct zs as [|[[h n] b] zs].
  - exists [], (r ++ [it]). split_and!; [done|constructor|apply Forall_app; by split; [|constructor]|]. cbn. rewrite flats_app.
    unfold flats. cbn. by rewrite app_nil_r.
  - apply Forall_cons in Hzs as [[Hh Hb] Hzs]. exists ((h, n, b ++ [it]) :: zs), r.
    split_and!; [done| |done|].
    + constructor; [|done]. split; [done|]. apply Forall_app. by split; [|constructor].
    + cbn [unz]. rewrite flats_app, <-!app_assoc. cbn [app]. unfold flats at 3. cbn. by rewrite app_nil_r.
Qed.

Lemma parse_balanced lines : ∀ i st st' zs r,
  parse_from i st lines = Ok st' → st'.2 = [] → length zs = length st.2 →
  Forall open_wf zs → Forall item_wf r →
  ∃ b, Forall item_wf b ∧ unz zs r ++ lines = flats b.
Proof.
  induction lines as [|line lines IH]; intros i st st' zs r Hp He Hlen Hzs Hr; cbn [parse_from] in Hp.
  { injection Hp as <-. rewrite He in Hlen. destruct zs; [|done]. exists r. split; [done|]. apply app_nil_r. }
  apply bind_Ok in Hp as (st1 & H1 & Hp). unfold parse_line in H1.
  assert ((kind_of line ≠ Closes ∧ (∀ n, kind_of line ≠ Opens n) → length st1.2 = length st.2 →
    ∃ b, Forall item_wf b ∧ unz zs r ++ line :: lines = flats b)) as Hleaf.
  { intros [Hc Ho] Hd. destruct (unz_add zs r (Leaf line)) as (zs' & r' & Hl & Hzs' & Hr' & Hu); [done|done|by constructor|].
    destruct (IH _ _ _ zs' r' Hp He) as (b & Hb & Hbl); [congruence|done|done|].
    exists b. split; [done|]. rewrite <-Hbl, Hu, <-app_assoc. done. }
  destruct (kind_of line) as [|n| |k v] eqn:Hk.
  - injection H1 as <-. by apply Hleaf.
  - injection H1 as <-. destruct (IH _ _ _ ((line, n, []) :: zs) r Hp He) as (b & Hb & Hbl).
    + cbn. by rewrite Hlen.
    + by repeat constructor.
    + done.
    + exists b. split; [done|]. rewrite <-Hbl. cbn [unz]. by rewrite <-app_assoc.
  - destruct st as [roots [|f stack]]; [done|]. injection H1 as <-.
    destruct zs as [|[[h n] b0] zs]; [done|]. apply Forall_cons in Hzs as [[Hh Hb0] Hzs].
    destruct (unz_add zs r (Block h n b0 line)) as (zs' & r' & Hl & Hzs' & Hr' & Hu); [done|done|by constructor|].
    destruct (IH _ _ _ zs' r' Hp He) as (b & Hb & Hbl); [|done|done|].
    + rewrite Hl. cbn in Hlen. injection Hlen as ->. by destruct stack.
    + exists b. split; [done|]. rewrite <-Hbl, Hu. cbn [unz]. rewrite flat_block.
      rewrite <-!app_assoc. cbn [app]. by rewrite <-app_assoc.
  - injection H1 as <-. apply Hleaf; [done|apply put_key_depth].
Qed.

Lemma parse_tree lines sections :
  parse lines = Ok sections →
  ∃ b, Forall item_wf b ∧ lines = flats b ∧ sections = concat (preorder <$> secs [] 0 b).
Proof.
  intros H. pose proof H as Hp. unfold parse in Hp. apply bind_Ok in Hp as ([roots stack] & Hf & Hs).
  destruct stack as [|f stack]; [|done].
  destruct (parse_balanced lines 0 ([], []) (roots, []) [] [] Hf) as (b & Hb & Hl); [done|done|constructor|constructor|].
  cbn in Hl. subst lines. exists b. split_and!; [done|done|]. rewrite parse_flats in H by done. by injection H.
Qed.

(** ** The edits are edits of the tree *)

(** The value of the first occurrence of a key among the lines of a body. *)
Fixpoint value_of (b : list item) (k : text) : option text :=
  match b with
  | [] => None
  | Leaf l :: b =>
      match kind_of l with
      | Key k' v => if decide (k' = k) then Some v else value_of b k
      | _ => value_of b k
      end
  | Block _ _ _ _ :: b => value_of b k
  end.

(** The first line of a key, set. *)
Fixpoint replace_leaf (b : list item) (k v : text) : list item :=
  match b with
  | [] => []
  | Leaf l :: b =>
      match kind_of l with
      | Key k' _ => if decide (k' = k) then Leaf (key_line (indent_of l) k v) :: b else Leaf l :: replace_leaf b k v
      | _ => Leaf l :: replace_leaf b k v
      end
  | it :: b => it :: replace_leaf b k v
  end.

Definition set_body (indent : text) (b : list item) (k v : text) : option (list item) :=
  match value_of b k with
  | Some current => if bool_decide (current = v) then None else Some (replace_leaf b k v)
  | None => Some (b ++ [Leaf (key_line indent k v)])
  end.

Definition inner_indent (h : text) (b : list item) : text :=
  match List.find (λ l, negb (bool_decide (strip l = []))) (flats b) with
  | Some line => indent_of line
  | None => indent_of h ++ DEFAULT_INDENT
  end.

Lemma body_keys_known i b : ∀ ks k x, dget ks k = Some x → dget (body_keys i b ks) k = Some x.
Proof.
  revert i. induction b as [|it b IH]; intros i ks k x Hk; cbn [body_keys]; [done|]. apply IH.
  destruct it as [l|]; cbn [leaf_key]; [|done]. destruct (kind_of l) as [| | |k' v]; try done.
  rewrite dget_dsetdefault. case_decide; [subst; by rewrite Hk|done].
Qed.

(** The parser's dictionary holds the first occurrence of each key, with its line. *)
Lemma body_keys_first b : ∀ i ks k, dget ks k = None →
  match dget (body_keys i b ks) k with
  | None => value_of b k = None
  | Some (j, v) => ∃ b1 l b2, b = b1 ++ Leaf l :: b2 ∧ kind_of l = Key k v ∧ value_of b1 k = None ∧
      j = i + length (flats b1)
  end.
Proof.
  induction b as [|it b IH]; intros i ks k Hk; cbn [body_keys]; [by rewrite Hk|].
  assert (∀ i' ks', dget ks' k = None → i' = i + length (flat it) → value_of [it] k = None →
    value_of (it :: b) k = value_of b k → 
    match dget (body_keys i' b ks') k with
    | None => value_of (it :: b) k = None
    | Some (j, v) => ∃ b1 l b2, it :: b = b1 ++ Leaf l :: b2 ∧ kind_of l = Key k v ∧ value_of b1 k = None ∧
        j = i + length (flats b1)
    end) as Hskip.
  { intros i' ks' Hk' -> H1 Hv. specialize (IH (i + length (flat it)) ks' k Hk').
    destruct (dget (body_keys _ b ks') k) as [[j v]|]; [|by rewrite Hv].
    destruct IH as (b1 & l & b2 & -> & Hl & Hb1 & ->). exists (it :: b1), l, b2. split_and!; [done|done| |].
    - destruct it as [l0|]; [|done]. cbn [value_of] in H1 |- *. destruct (kind_of l0); try done.
      destruct (decide _); done.
    - rewrite flats_cons, length_app. lia. }
  destruct it as [l|h n b' c]; cbn [leaf_key]; [|by apply Hskip].
  destruct (kind_of l) as [| | |k' v] eqn:Hl.
  - apply Hskip; [done|done|cbn; by rewrite Hl|cbn; by rewrite Hl].
  - apply Hskip; [done|done|cbn; by rewrite Hl|cbn; by rewrite Hl].
  - apply Hskip; [done|done|cbn; by rewrite Hl|cbn; by rewrite Hl].
  - destruct (decide (k' = k)) as [->|Hne].
    + rewrite (body_keys_known _ _ _ k (i, v)); [|rewrite dget_dsetdefault, decide_True by done; by rewrite Hk].
      exists [], l, b. split_and!; [done|done|done|cbn; lia].
    + apply Hskip; [rewrite dget_dsetdefault, decide_False by done; done|done| |];
        cbn; by rewrite Hl, decide_False.
Qed.

Lemma value_of_first b1 l b2 k v :
  value_of b1 k = None → kind_of l = Key k v → value_of (b1 ++ Leaf l :: b2) k = Some v.
Proof.
  intros H Hl. induction b1 as [|[l0|] b1 IH]; cbn in *; [by rewrite Hl, decide_True| |by apply IH].
  destruct (kind_of l0); try (by apply IH). case_decide; [done|by apply IH].
Qed.

Lemma replace_leaf_first b1 l b2 k w v :
  value_of b1 k = None → kind_of l = Key k w →
  replace_leaf (b1 ++ Leaf l :: b2) k v = b1 ++ Leaf (key_line (indent_of l) k v) :: b2.
Proof.
  intros H Hl. induction b1 as [|[l0|] b1 IH]; cbn in *; [by rewrite Hl, decide_True| |by rewrite IH].
  destruct (kind_of l0); try (by rewrite IH). case_decide; [done|by rewrite IH].
Qed.

Section set_key.
Context (A B : list text) (h n c : text) (b : list item) (p : list text).
Let lines := A ++ flat (Block h n b c) ++ B.
Let s := sec_of p (length A) (Block h n b c).

Lemma lines_split : lines = (A ++ [h]) ++ flats b ++ [c] ++ B.
Proof. unfold lines. rewrite flat_block. rewrite <-!app_assoc. cbn. by rewrite <-app_assoc. Qed.

Lemma lines_end : take (sec_end s) lines = (A ++ [h]) ++ flats b ∧ drop (sec_end s) lines = [c] ++ B.
Proof.
  rewrite lines_split, app_assoc. set (X := (A ++ [h]) ++ flats b).
  assert (sec_end s = length X) as ->.
  { unfold s, X. cbn [sec_of sec_end]. rewrite !length_app. cbn [length]. lia. }
  by rewrite take_app_length, drop_app_length.
Qed.

Lemma child_indent_tree : child_indent lines s = inner_indent h b.
Proof.
  unfold child_indent, inner_indent. rewrite lines_split.
  replace (S (sec_start s)) with (length (A ++ [h])) by (rewrite length_app; cbn; lia).
  rewrite drop_app_length.
  replace (sec_end s - length (A ++ [h])) with (length (flats b))
    by (unfold s; cbn [sec_of sec_end]; rewrite length_app; cbn [length]; lia).
  rewrite take_app_length. destruct (List.find _ _); [done|].
  unfold s. cbn [sec_of sec_start]. rewrite <-app_assoc. cbn [app].
  rewrite app_nth2 by lia. by rewrite Nat.sub_diag.
Qed.

Lemma set_key_tree k v :
  set_key lines s k v = (λ b', A ++ flat (Block h n b' c) ++ B) <$> set_body (inner_indent h b) b k v.
Proof.
  unfold set_key, set_body. pose proof (body_keys_first b (S (length A)) [] k eq_refl) as Hk.
  replace (sec_keys s) with (body_keys (S (length A)) b []) by done.
  destruct (dget _ k) as [[j w]|].
  - destruct Hk as (b1 & l & b2 & Hb & Hl & Hb1 & ->).
    rewrite Hb at 1. rewrite (value_of_first b1 l b2 k w) by done.
    case_bool_decide; [done|]. cbn [fmap option_fmap option_map]. f_equal.
    rewrite Hb, (replace_leaf_first b1 l b2 k w v) by done.
    rewrite lines_split, Hb. rewrite !flat_block, !flats_app, !flats_cons. cbn [flat app].
    set (X := A ++ h :: flats b1).
    replace ((A ++ [h]) ++ (flats b1 ++ l :: flats b2) ++ c :: B) with (X ++ l :: (flats b2 ++ c :: B)).
    2:{ unfold X. rewrite <-!app_assoc. by cbn [app]. }
    replace (S (length A) + length (flats b1)) with (length X).
    2:{ unfold X. rewrite length_app. cbn [length]. lia. }
    rewrite app_nth2, Nat.sub_diag by lia. cbn [nth].
    replace (length X) with (length X + 0) by lia. rewrite insert_app_r. cbn [insert list_insert].
    unfold X. rewrite <-!app_assoc. done.
  - rewrite Hk. cbn [fmap option_fmap option_map]. f_equal. destruct lines_end as [-> ->].
    rewrite child_indent_tree, !flat_block, flats_app, <-!app_assoc. cbn [app]. rewrite <-!app_assoc. done.
Qed.
End set_key.

(** *** What the written lines parse to *)

Definition blank (t : text) : Prop := Forall (λ c, is_space c = true) t.
Definition one_line (t : text) : Prop := Forall (λ c, is_linebreak c = false) t.

Definition good_key (k : text) : bool := negb (bool_decide (k = [])) && forallb name_char k.

Lemma name_char_plain c : name_char c = true → is_space c = false ∧ c ≠ 35%N.
Proof.
  unfold name_char. rewrite !orb_true_iff, !andb_true_iff, !N.leb_le, !N.eqb_eq. intros H. split; [|lia].
  apply not_true_iff_false. unfold is_space.
  rewrite !orb_true_iff, !andb_true_iff, !N.leb_le, !N.eqb_eq. lia.
Qed.

Lemma strip_indented ind c w d :
  blank ind → is_space c = false → is_space d = false → strip (ind ++ c :: w ++ [d]) = c :: w ++ [d].
Proof.
  intros Hi Hc Hd. unfold strip, rstrip, lstrip. rewrite lstrip_by_all by done. rewrite lstrip_by_id by done.
  exact (rstrip_by_app is_space (c :: w) d [] Hd (Forall_nil_2 _)).
Qed.

(** A name, and what follows it on a stripped line. *)
Lemma kind_of_named ind k rest d :
  blank ind → good_key k = true → is_space d = false →
  match rest ++ [d] with c :: _ => name_char c = false | [] => True end →
  kind_of (ind ++ k ++ rest ++ [d]) =
  match lstrip (rest ++ [d]) with [123%N] => Opens k | 58%N :: v => Key k (lstrip v) | _ => Skip end.
Proof.
  unfold good_key. intros Hi [Hne Hk]%andb_true_iff Hd Hrest.
  destruct k as [|c k]; [done|]. clear Hne. cbn in Hk. apply andb_true_iff in Hk as [Hc Hk].
  destruct (name_char_plain c Hc) as [Hs Hh].
  unfold kind_of. cbn [app]. rewrite (app_assoc k), strip_indented by done.
  assert (startswith (c :: (k ++ rest) ++ [d]) (u "#") = false) as ->.
  { unfold startswith. apply bool_decide_eq_false_2. intros [? ?]. by simplify_eq/=. }
  change (c :: (k ++ rest) ++ [d]) with ((c :: k ++ rest) ++ [d]).
  replace ((c :: k ++ rest) ++ [d]) with ((c :: k) ++ (rest ++ [d])) by (cbn; by rewrite <-app_assoc).
  rewrite (span_app name_char (c :: k) (rest ++ [d])); [done| |done].
  apply Forall_cons. split; [done|]. rewrite forallb_forall in Hk. apply Forall_forall.
  intros x Hx. apply Hk. by apply list_elem_of_In.
Qed.

Lemma word_last v : word_ok v → ∃ w d, v = w ++ [d] ∧ is_space d = false.
Proof.
  intros [Hne Hv]. destruct v as [|d w _] using rev_ind; [done|].
  apply Forall_app in Hv as [_ Hd]. apply Forall_cons in Hd as [Hd _]. by exists w, d.
Qed.

Lemma lstrip_word_id v : word_ok v → lstrip v = v.
Proof.
  intros [Hne Hv]. destruct v as [|c v]; [done|]. apply Forall_cons in Hv as [Hc _].
  by apply lstrip_by_id.
Qed.

Lemma kind_key_line ind k v : blank ind → good_key k = true → word_ok v → kind_of (key_line ind k v) = Key k v.
Proof.
  intros Hi Hk Hv. destruct (word_last v Hv) as (w & d & -> & Hd). unfold key_line.
  rewrite (app_assoc (u ": ")), (kind_of_named ind k (u ": " ++ w) d); [|done|done|done|done].
  rewrite <-app_assoc. cbn. f_equal. exact (lstrip_word_id (w ++ [d]) Hv).
Qed.

Lemma kind_open_line ind n : blank ind → good_key n = true → kind_of (ind ++ n ++ u " {") = Opens n.
Proof.
  intros Hi Hn. change (u " {") with (u " " ++ [123%N]). by rewrite (kind_of_named ind n (u " ") 123%N).
Qed.

Lemma kind_close_line ind : blank ind → kind_of (ind ++ u "}") = Closes.
Proof.
  intros Hi. unfold kind_of. assert (strip (ind ++ u "}") = u "}") as ->; [|done].
  unfold strip, rstrip, lstrip. by rewrite lstrip_by_all.
Qed.

Lemma lstrip_suffix l : ∃ ind, l = ind ++ lstrip l ∧ blank ind ∧ indent_of l = ind.
Proof.
  unfold indent_of, lstrip, blank. induction l as [|c l (ind & H & Hb & Ht)]; [by exists []|]. cbn.
  destruct (is_space c) eqn:Hc.
  - exists (c :: ind). rewrite Forall_cons. split_and!; [by rewrite H at 1|done|done|].
    rewrite H at 1. rewrite length_app. destruct (lstrip_by is_space l) as [|x y] eqn:E.
    + cbn [length]. rewrite Nat.add_0_r, Nat.sub_0_r. rewrite H. cbn [take]. f_equal.
      rewrite app_nil_r. by apply take_ge.
    + replace (S (length ind + length (x :: y)) - length (x :: y)) with (S (length ind)) by lia.
      cbn [take]. f_equal. rewrite H. apply take_app_length.
  - exists []. split_and!; [done|constructor|]. by rewrite Nat.sub_diag.
Qed.

Lemma indent_blank l : blank (indent_of l).
Proof. by destruct (lstrip_suffix l) as (ind & _ & Hb & ->). Qed.

Lemma indent_one_line l : one_line l → one_line (indent_of l).
Proof.
  destruct (lstrip_suffix l) as (ind & Hl & _ & ->). unfold one_line. rewrite Hl at 1. by intros [? _]%Forall_app.
Qed.

Lemma indent_key_line ind k v : blank ind → good_key k = true → indent_of (key_line ind k v) = ind.
Proof.
  intros Hi Hk. unfold indent_of, key_line. unfold lstrip. rewrite lstrip_by_all by done.
  destruct k as [|c k]; [done|]. cbn [app]. rewrite lstrip_by_id.
  - rewrite length_app. replace (_ - _) with (length ind) by lia. apply take_app_length.
  - unfold good_key in Hk. cbn in Hk. apply andb_true_iff in Hk as [Hc _]. by apply name_char_plain.
Qed.

Lemma inner_indent_blank h b : blank (inner_indent h b).
Proof.
  unfold inner_indent. destruct (List.find _ _); [apply indent_blank|].
  apply Forall_app. split; [apply indent_blank|by repeat constructor].
Qed.

Lemma inner_indent_one_line h b : one_line h → Forall one_line (flats b) → one_line (inner_indent h b).
Proof.
  intros Hh Hb. unfold inner_indent. destruct (List.find _ _) as [l|] eqn:Hf.
  - apply List.find_some in Hf as [Hin _]. apply indent_one_line. rewrite Forall_forall in Hb.
    by apply Hb, list_elem_of_In.
  - apply Forall_app. split; [by apply indent_one_line|by repeat constructor].
Qed.
