(* ===== verification/CorosyncEdit.v ===== *)
(** * What the heartbeat module does

    Each edit of Corosync.v is an edit of the tree of the file that keeps every line the
    module does not own and brings the file one setting nearer to the goal; so the loop ends,
    and the file it leaves has every setting. *)

From S2P Require Import Prelude PyText PyCodec PyDict Corosync CorosyncTree.

Open Scope nat_scope.

(** ** What an edit keeps *)

(** The keys the module owns, with their values. *)
Definition settings (token : Z) : list (text * text) := (u "token", Z_text token) :: heartbeat_values token.

(** A line of the module: a setting, or one of a new interface block. *)
Definition own_line (token : Z) (l : text) : Prop :=
  ∃ ind, blank ind ∧ one_line ind ∧
    ((∃ k v, (k, v) ∈ settings token ∧ l = key_line ind k v) ∨
     (∃ link, l = key_line ind (u "linknumber") (N_text link)) ∨
     l = ind ++ u "interface {" ∨ l = ind ++ u "}").

(** [kept token a b]: [b] has the lines of [a] in their order, each as it is or, for a line of
    a setting's key, with the setting's value; every other line of [b] is the module's. *)
Inductive kept (token : Z) : list text → list text → Prop :=
  | kept_nil : kept token [] []
  | kept_same l a b : kept token a b → kept token (l :: a) (l :: b)
  | kept_set l k v w a b : kind_of l = Key k w → (k, v) ∈ settings token → kept token a b →
      kept token (l :: a) (key_line (indent_of l) k v :: b)
  | kept_own l a b : own_line token l → kept token a b → kept token a (l :: b).

Lemma settings_good token k v : (k, v) ∈ settings token → good_key k = true ∧ word_ok v ∧ k ≠ u "linknumber".
Proof.
  unfold settings, heartbeat_values. rewrite !elem_of_cons, elem_of_nil.
  intros [H|[H|[H|[H|[]]]]]; simplify_eq; split_and!; try done; try apply Z_text_word.
  by apply (bool_decide_unpack _).
Qed.

Lemma settings_fun token k v v' : (k, v) ∈ settings token → (k, v') ∈ settings token → v = v'.
Proof.
  unfold settings, heartbeat_values. rewrite !elem_of_cons, !elem_of_nil.
  intros [H|[H|[H|[H|[]]]]] [H'|[H'|[H'|[H'|[]]]]]; by simplify_eq.
Qed.

Lemma kept_refl token a : kept token a a.
Proof. induction a; by constructor. Qed.

Lemma kept_app token a b a' b' : kept token a b → kept token a' b' → kept token (a ++ a') (b ++ b').
Proof.
  induction 1 as [|l a b _ IH|l k v w a b Hl Hkv _ IH|l a b Hl _ IH]; intros H'; cbn; [done|..].
  - by apply kept_same, IH.
  - by eapply kept_set; [| |apply IH].
  - by apply kept_own; [|apply IH].
Qed.

Lemma kept_own_all token a : Forall (own_line token) a → kept token [] a.
Proof. induction 1; by constructor. Qed.

Lemma N_text_word n : word_ok (N_text n).
Proof.
  destruct (N_text_cons n) as (c & s & Hn & _). split; [by rewrite Hn|].
  eapply Forall_impl; [apply N_text_digits|]. intros x Hx. cbn in Hx. apply not_true_iff_false.
  unfold is_space. rewrite !orb_true_iff, !andb_true_iff, !N.leb_le, !N.eqb_eq. lia.
Qed.

(** A line of the module with a setting's key is that setting's line. *)
Lemma own_line_set token l k v w :
  own_line token l → kind_of l = Key k w → (k, v) ∈ settings token →
  own_line token (key_line (indent_of l) k v).
Proof.
  intros (ind & Hb & Ho & Hl) Hk Hkv. destruct (settings_good _ _ _ Hkv) as (Hg & Hw & Hne).
  destruct Hl as [(k' & v' & Hin & ->)|[[link ->]|[-> | ->]]].
  - destruct (settings_good _ _ _ Hin) as (Hg' & Hw' & _). rewrite kind_key_line in Hk by done. simplify_eq.
    rewrite indent_key_line by done. exists ind. split_and!; [done|done|]. left. by exists k, v.
  - rewrite kind_key_line in Hk by (done || apply N_text_word). by simplify_eq.
  - change (u "interface {") with (u "interface" ++ u " {") in Hk. by rewrite kind_open_line in Hk.
  - by rewrite kind_close_line in Hk.
Qed.

Lemma kept_trans token a b c : kept token a b → kept token b c → kept token a c.
Proof.
  intros H1 H2. revert a H1. induction H2 as [|l b c _ IH|l k v w b c Hl Hkv _ IH|l b c Hl _ IH]; intros a H1.
  - done.
  - inversion H1; subst; [by apply kept_same, IH| |by apply kept_own; [|apply IH]].
    by eapply kept_set; [| |apply IH].
  - inversion H1 as [|? a' ? Ha|l0 k0 v0 w0 a' ? Hl0 Hkv0 Ha|? ? ? Hown Ha]; subst.
    + by eapply kept_set; [| |apply IH].
    + destruct (settings_good _ _ _ Hkv0) as (Hg & Hw & _).
      rewrite kind_key_line in Hl by (done || apply indent_blank). simplify_eq.
      rewrite indent_key_line by (done || apply indent_blank).
      by eapply kept_set; [| |apply IH].
    + apply kept_own; [by eapply own_line_set|by apply IH].
  - by apply kept_own; [|apply IH].
Qed.

Lemma word_one_line w : word_ok w → one_line w.
Proof. intros [_ H]. by apply word_line. Qed.

Lemma key_line_one_line ind k v : one_line ind → good_key k = true → word_ok v → one_line (key_line ind k v).
Proof.
  intros Hi Hk Hv. unfold key_line, one_line. rewrite !Forall_app. split_and!; [done| |by repeat constructor|by apply word_one_line].
  apply word_line. unfold good_key in Hk. apply andb_true_iff in Hk as [_ Hk]. rewrite forallb_forall in Hk.
  apply Forall_forall. intros c Hc. apply name_char_plain, Hk. by apply list_elem_of_In.
Qed.

Lemma own_line_one_line token l : own_line token l → one_line l.
Proof.
  intros (ind & _ & Ho & [(k & v & Hkv & ->)|[[link ->]|[-> | ->]]]).
  - destruct (settings_good _ _ _ Hkv) as (? & ? & _). by apply key_line_one_line.
  - by apply key_line_one_line; [| |apply N_text_word].
  - apply Forall_app. split; [done|]. by repeat constructor.
  - apply Forall_app. split; [done|]. by repeat constructor.
Qed.

Lemma kept_one_line token a b : kept token a b → Forall one_line a → Forall one_line b.
Proof.
  induction 1 as [|l a b _ IH|l k v w a b Hl Hkv _ IH|l a b Hl _ IH]; intros Ha; [done|..].
  - apply Forall_cons in Ha as [? Ha]. constructor; auto.
  - apply Forall_cons in Ha as [Hll Ha]. constructor; [|auto].
    destruct (settings_good _ _ _ Hkv) as (? & ? & _). apply key_line_one_line; [by apply indent_one_line|done|done].
  - constructor; [by eapply own_line_one_line|auto].
Qed.

(** ** What is still missing *)

Definition tree_interface (link : N) (it : item) : bool :=
  match it with
  | Leaf _ => false
  | Block _ n b _ =>
      bool_decide (n = u "interface") &&
      bool_decide (default (u "0") (value_of b (u "linknumber")) = N_text link)
  end.

Definition missing_values (kvs : list (text * text)) (b : list item) : nat :=
  length (filter (λ kv, value_of b kv.1 ≠ Some kv.2) kvs).

Definition missing_link (kvs : list (text * text)) (b : list item) (link : N) : nat :=
  match List.find (tree_interface link) b with
  | Some (Block _ _ bi _) => missing_values kvs bi
  | _ => S (length kvs)
  end.

(** The edits a totem body [b] still needs. *)
Definition missing (token : Z) (links : list N) (b : list item) : nat :=
  (if decide (value_of b (u "token") = Some (Z_text token)) then 0 else 1) +
  sum_list (missing_link (heartbeat_values token) b <$> links).

(** [b'] is [b] with lines replaced by lines, and perhaps a line added at the end. *)
Inductive leaf_edit : list item → list item → Prop :=
  | leaf_edit_nil : leaf_edit [] []
  | leaf_edit_add l : leaf_edit [] [Leaf l]
  | leaf_edit_leaf l l' b b' : leaf_edit b b' → leaf_edit (Leaf l :: b) (Leaf l' :: b')
  | leaf_edit_same it b b' : leaf_edit b b' → leaf_edit (it :: b) (it :: b').

Lemma leaf_edit_find p b b' : (∀ l, p (Leaf l) = false) → leaf_edit b b' → List.find p b' = List.find p b.
Proof.
  intros Hp. induction 1 as [|l|l l' b b' _ IH|it b b' _ IH]; cbn; [done|by rewrite Hp|by rewrite !Hp, IH|].
  by destruct (p it).
Qed.

(** What setting a key does to a body. *)
Record set_spec (token : Z) (b b' : list item) (k v : text) : Prop := mk_set_spec {
    set_wf : Forall item_wf b → Forall item_wf b';
    set_value : value_of b' k = Some v;
    set_other : ∀ k', k' ≠ k → value_of b' k' = value_of b k';
    set_leaves : leaf_edit b b';
    set_kept : kept token (flats b) (flats b')
  }.

Lemma leaf_edit_refl b : leaf_edit b b.
Proof. induction b; by constructor. Qed.

Lemma leaf_edit_app b c c' : leaf_edit c c' → leaf_edit (b ++ c) (b ++ c').
Proof. intros H. induction b; [done|]. by apply leaf_edit_same. Qed.

Lemma value_of_app b c k : value_of (b ++ c) k = match value_of b k with Some v => Some v | None => value_of c k end.
Proof.
  induction b as [|[l|] b IH]; cbn; [done| |done]. destruct (kind_of l); try done. by case_decide.
Qed.

Lemma key_leaf_wf ind k v : blank ind → good_key k = true → word_ok v → item_wf (Leaf (key_line ind k v)).
Proof. intros. constructor; by rewrite kind_key_line. Qed.

Lemma first_leaf b k v : value_of b k = Some v → ∃ b1 l b2, b = b1 ++ Leaf l :: b2 ∧ kind_of l = Key k v ∧ value_of b1 k = None.
Proof.
  intros H. pose proof (body_keys_first b 0 [] k eq_refl) as Hk. destruct (dget _ k) as [[j w]|]; [|congruence].
  destruct Hk as (b1 & l & b2 & -> & Hl & Hb1 & _). exists b1, l, b2.
  rewrite (value_of_first _ _ _ _ w) in H by done. by simplify_eq.
Qed.

Lemma set_body_spec token ind b k v b' :
  (k, v) ∈ settings token → blank ind → one_line ind → set_body ind b k v = Some b' → set_spec token b b' k v.
Proof.
  intros Hkv Hi Ho H. destruct (settings_good _ _ _ Hkv) as (Hg & Hw & _). unfold set_body in H.
  destruct (value_of b k) as [cur|] eqn:Hcur.
  - case_bool_decide; [done|]. injection H as <-.
    apply first_leaf in Hcur as (b1 & l & b2 & -> & Hl & Hb1). rewrite (replace_leaf_first _ _ _ _ cur) by done.
    assert (kind_of (key_line (indent_of l) k v) = Key k v) as Hk' by (apply kind_key_line; [apply indent_blank|done|done]).
    split.
    + rewrite !Forall_app, !Forall_cons. intros (? & _ & ?). split_and!; [done| |done].
      apply key_leaf_wf; [apply indent_blank|done|done].
    + by apply value_of_first.
    + intros k' Hne. rewrite !value_of_app. destruct (value_of b1 k'); [done|]. cbn. rewrite Hk', Hl.
      by rewrite !decide_False by congruence.
    + apply leaf_edit_app, leaf_edit_leaf, leaf_edit_refl.
    + rewrite !flats_app, !flats_cons. apply kept_app; [apply kept_refl|]. eapply kept_set; [done|done|apply kept_refl].
  - injection H as <-. assert (kind_of (key_line ind k v) = Key k v) as Hk' by (by apply kind_key_line). split.
    + intros Hb. apply Forall_app. split; [done|]. constructor; [by apply key_leaf_wf|constructor].
    + rewrite value_of_app, Hcur. cbn. by rewrite Hk', decide_True.
    + intros k' Hne. rewrite value_of_app. destruct (value_of b k'); [done|]. cbn. rewrite Hk'. by rewrite decide_False by congruence.
    + rewrite <-(app_nil_r b) at 1. apply leaf_edit_app. constructor.
    + rewrite flats_app. rewrite <-(app_nil_r (flats b)) at 1. apply kept_app; [apply kept_refl|].
      apply kept_own_all. constructor; [|constructor]. exists ind. split_and!; [done|done|]. left. by exists k, v.
Qed.

Lemma set_body_None ind b k v : set_body ind b k v = None ↔ value_of b k = Some v.
Proof.
  unfold set_body. destruct (value_of b k) as [cur|]; [|done]. case_bool_decide; [by subst|].
  split; [done|]. by intros [= ->].
Qed.

Lemma missing_values_set token kvs b b' k v :
  NoDup kvs.*1 → (k, v) ∈ kvs → set_spec token b b' k v → value_of b k ≠ Some v →
  missing_values kvs b' < missing_values kvs b.
Proof.
  intros Hnd Hin [_ Hv Ho _ _] Hne. unfold missing_values. induction kvs as [|[k0 v0] kvs IH]; [by apply elem_of_nil in Hin|].
  cbn in Hnd. apply NoDup_cons in Hnd as [Hk0 Hnd]. rewrite !filter_cons. cbn [fst snd].
  apply elem_of_cons in Hin as [[= <- <-]|Hin].
  - rewrite (decide_False (P := value_of b' k ≠ Some v)) by tauto. rewrite decide_True by done.
    rewrite (list_filter_ext (λ kv : text * text, value_of b' kv.1 ≠ Some kv.2) (λ kv, value_of b kv.1 ≠ Some kv.2) kvs).
    { cbn [length]. lia. }
    intros [k1 v1] H1. cbn [fst snd]. rewrite Ho; [done|]. intros ->. apply Hk0. by apply (list_elem_of_fmap_2 fst _ (k, v1)).
  - specialize (IH Hnd Hin). assert (k0 ≠ k) as Hne0.
    { intros ->. apply Hk0. by apply (list_elem_of_fmap_2 fst _ (k, v)). }
    rewrite (Ho k0 Hne0). case_decide; cbn [length]; lia.
Qed.

Lemma find_app {A} (p : A → bool) a b :
  List.find p (a ++ b) = match List.find p a with Some x => Some x | None => List.find p b end.
Proof. induction a as [|x a IH]; cbn; [done|]. by destruct (p x). Qed.

Lemma sum_list_lt {A} (f g : A → nat) l x :
  (∀ y, y ∈ l → f y ≤ g y) → x ∈ l → f x < g x → sum_list (f <$> l) < sum_list (g <$> l).
Proof.
  intros Hle Hx Hlt. induction l as [|y l IH]; [by apply elem_of_nil in Hx|]. csimpl.
  assert (sum_list (f <$> l) ≤ sum_list (g <$> l)) as Hs.
  { clear -Hle. assert (∀ y, y ∈ l → f y ≤ g y) as H by (intros; apply Hle; by right). clear Hle.
    induction l as [|z l IH]; csimpl; [done|]. specialize (H z ltac:(left)) as Hz.
    specialize (IH ltac:(intros; apply H; by right)). lia. }
  specialize (Hle y ltac:(left)) as Hy. apply elem_of_cons in Hx as [<-|Hx]; [lia|].
  specialize (IH ltac:(intros; apply Hle; by right) Hx). lia.
Qed.

(** One edit of a totem body. *)
Record tree_step (token : Z) (links : list N) (b b' : list item) : Prop := mk_tree_step {
    ts_wf : Forall item_wf b → Forall item_wf b';
    ts_missing : missing token links b' < missing token links b;
    ts_kept : kept token (flats b) (flats b')
  }.

Lemma token_step token links ind b b' :
  blank ind → one_line ind → set_body ind b (u "token") (Z_text token) = Some b' → tree_step token links b b'.
Proof.
  intros Hi Ho H. assert (value_of b (u "token") ≠ Some (Z_text token)) as Hne.
  { intros Hv. apply (set_body_None ind) in Hv. congruence. }
  apply (set_body_spec token) in H; [|by left|done|done]. destruct H as [Hwf Hv _ Hl Hk]. split; [done| |done].
  unfold missing. rewrite Hv, decide_True by done. rewrite decide_False by done.
  assert (missing_link (heartbeat_values token) b' <$> links = missing_link (heartbeat_values token) b <$> links) as ->; [|lia].
  apply list_fmap_ext. intros _ link _. unfold missing_link. by rewrite (leaf_edit_find _ b b').
Qed.

(** A setting of the interface block in the body. *)
Lemma value_step token links ind b1 hi ni bi ci b2 bi' k v link :
  let b := b1 ++ Block hi ni bi ci :: b2 in
  link ∈ links → List.find (tree_interface link) b1 = None → tree_interface link (Block hi ni bi ci) = true →
  (k, v) ∈ heartbeat_values token → blank ind → one_line ind → set_body ind bi k v = Some bi' →
  tree_step token links b (b1 ++ Block hi ni bi' ci :: b2).
Proof.
  intros b Hin Hb1 Hp Hkv Hi Ho H. assert (value_of bi k ≠ Some v) as Hne.
  { intros Hv. apply (set_body_None ind) in Hv. congruence. }
  assert ((k, v) ∈ settings token) as Hkv' by (by right).
  destruct (settings_good _ _ _ Hkv') as (_ & _ & Hlink).
  apply (set_body_spec token) in H; [|done|done|done]. destruct H as [Hwf Hv Hoth Hl Hk].
  assert (missing_values (heartbeat_values token) bi' < missing_values (heartbeat_values token) bi) as Hlt.
  { eapply missing_values_set; [| |by split|done]; [|done]. apply (bool_decide_unpack _). by vm_compute. }
  assert (∀ l, tree_interface l (Block hi ni bi' ci) = tree_interface l (Block hi ni bi ci)) as Hti.
  { intros l. cbn. by rewrite Hoth. }
  split.
  - unfold b. rewrite !Forall_app, !Forall_cons. intros (? & Hblk & ?). split_and!; [done| |done].
    inversion_clear Hblk. constructor; auto.
  - unfold missing. assert (value_of (b1 ++ Block hi ni bi' ci :: b2) (u "token") = value_of b (u "token")) as ->
      by (unfold b; by rewrite !value_of_app).
    apply Nat.add_lt_mono_l, (sum_list_lt _ _ _ link); [|done|].
    + intros l _. unfold missing_link, b. rewrite !find_app. destruct (List.find (tree_interface l) b1); [done|]. cbn [List.find].
      rewrite Hti. destruct (tree_interface l _); [lia|done].
    + unfold missing_link, b. rewrite !find_app, Hb1. cbn [List.find]. by rewrite Hti, Hp.
  - unfold b. rewrite !flats_app, !flats_cons, !flat_block. apply kept_app; [apply kept_refl|].
    apply kept_same. apply kept_app; [|apply kept_refl]. apply kept_app; [done|apply kept_refl].
Qed.

(** A new interface block at the end of the body. *)
Definition new_interface (inner : text) (link : N) : item :=
  Block (inner ++ u "interface {") (u "interface")
    [Leaf (key_line (inner ++ DEFAULT_INDENT) (u "linknumber") (N_text link))] (inner ++ u "}").

Lemma interface_step token links inner b link :
  link ∈ links → List.find (tree_interface link) b = None → blank inner → one_line inner →
  tree_step token links b (b ++ [new_interface inner link]).
Proof.
  intros Hin Hb Hi Ho.
  assert (blank (inner ++ DEFAULT_INDENT) ∧ one_line (inner ++ DEFAULT_INDENT)) as [Hi' Ho'].
  { split; apply Forall_app; (split; [done|]); by repeat constructor. }
  assert (kind_of (key_line (inner ++ DEFAULT_INDENT) (u "linknumber") (N_text link)) = Key (u "linknumber") (N_text link)) as Hk.
  { apply kind_key_line; [done|done|apply N_text_word]. }
  split.
  - intros Hwf. apply Forall_app. split; [done|]. constructor; [|constructor]. constructor.
    + change (u "interface {") with (u "interface" ++ u " {"). by apply kind_open_line.
    + constructor; [|constructor]. constructor; by rewrite Hk.
    + by apply kind_close_line.
  - unfold missing. assert (value_of (b ++ [new_interface inner link]) (u "token") = value_of b (u "token")) as ->
      by (rewrite value_of_app; by destruct (value_of b (u "token"))).
    apply Nat.add_lt_mono_l, (sum_list_lt _ _ _ link); [|done|].
    + intros l _. unfold missing_link. rewrite find_app. destruct (List.find (tree_interface l) b); [done|]. cbn [List.find].
      destruct (tree_interface l _); [|done]. unfold new_interface, missing_values.
      rewrite length_filter. lia.
    + unfold missing_link. rewrite find_app, Hb. cbn [List.find].
      assert (tree_interface link (new_interface inner link) = true) as ->.
      { unfold new_interface. cbn [tree_interface value_of]. rewrite Hk, decide_True by done. cbn [default from_option].
        by rewrite !bool_decide_eq_true_2. }
      unfold new_interface, missing_values. pose proof (length_filter (λ kv : text * text,
        value_of [Leaf (key_line (inner ++ DEFAULT_INDENT) (u "linknumber") (N_text link))] kv.1 ≠ Some kv.2) (heartbeat_values token)).
      lia.
  - rewrite flats_app. rewrite <-(app_nil_r (flats b)) at 1. apply kept_app; [apply kept_refl|].
    apply kept_own_all. unfold flats. cbn. repeat constructor.
    + exists inner. split_and!; [done|done|]. by right; right; left.
    + exists (inner ++ DEFAULT_INDENT). split_and!; [done|done|]. right; left. by exists link.
    + exists inner. split_and!; [done|done|]. by right; right; right.
Qed.

(** ** The code's edits follow the tree *)

Lemma is_interface_tree link p i h n b c :
  is_interface link (sec_of p i (Block h n b c)) = tree_interface link (Block h n b c).
Proof.
  unfold is_interface, link_number. cbn [sec_of sec_name tree_interface sec_keys]. f_equal.
  pose proof (body_keys_first b (S i) [] (u "linknumber") eq_refl) as Hk. unfold dget_or.
  destruct (dget (body_keys (S i) b []) (u "linknumber")) as [[j v]|]; [|by rewrite Hk].
  destruct Hk as (b1 & l & b2 & -> & Hl & Hb1 & _). by rewrite (value_of_first _ _ _ _ v).
Qed.

Lemma find_interface link p b : ∀ i,
  match List.find (is_interface link) (secs p i b) with
  | None => List.find (tree_interface link) b = None
  | Some s => ∃ b1 hi ni bi ci b2, b = b1 ++ Block hi ni bi ci :: b2 ∧
      s = sec_of p (i + length (flats b1)) (Block hi ni bi ci) ∧
      List.find (tree_interface link) b1 = None ∧ tree_interface link (Block hi ni bi ci) = true
  end.
Proof.
  unfold secs. induction b as [|it b IH]; intros i; [done|]. cbn [secs_with].
  specialize (IH (i + length (flat it))). destruct it as [l|h n b0 c].
  - cbn [app List.find tree_interface]. destruct (List.find _ (secs_with _ _ _)) as [s|]; [|done].
    destruct IH as (b1 & hi & ni & bi & ci & b2 & -> & -> & ? & ?).
    exists (Leaf l :: b1), hi, ni, bi, ci, b2. split_and!; [done| |done|done].
    rewrite flats_cons, length_app. f_equal. lia.
  - cbn [app List.find]. rewrite is_interface_tree. destruct (tree_interface link (Block h n b0 c)) eqn:Ht.
    + exists [], h, n, b0, c, b. split_and!; [done| |done|done]. cbn [flats fmap list_fmap concat length]. by rewrite Nat.add_0_r.
    + destruct (List.find _ (secs_with _ _ _)) as [s|]; [|done].
      destruct IH as (b1 & hi & ni & bi & ci & b2 & -> & -> & ? & ?).
      exists (Block h n b0 c :: b1), hi, ni, bi, ci, b2. split_and!; [done| | |done].
      * rewrite flats_cons, length_app. f_equal. lia.
      * cbn [List.find]. by rewrite Ht.
Qed.

Lemma values_edit_tree A B h n b c p kvs :
  let lines := A ++ flat (Block h n b c) ++ B in
  match values_edit lines (sec_of p (length A) (Block h n b c)) kvs with
  | None => ∀ k v, (k, v) ∈ kvs → value_of b k = Some v
  | Some lines' => ∃ k v b', (k, v) ∈ kvs ∧ set_body (inner_indent h b) b k v = Some b' ∧
      lines' = A ++ flat (Block h n b' c) ++ B
  end.
Proof.
  intros lines. induction kvs as [|[k v] kvs IH]; cbn [values_edit]; [by intros k v ?%elem_of_nil|].
  unfold lines at 1. rewrite set_key_tree. destruct (set_body _ b k v) as [b'|] eqn:Hs; cbn [fmap option_fmap option_map].
  - exists k, v, b'. split_and!; [left|done|done].
  - apply set_body_None in Hs. destruct (values_edit _ _ kvs) as [lines'|].
    + destruct IH as (k' & v' & b' & ? & ? & ->). exists k', v', b'. split_and!; [by right|done|done].
    + intros k' v' [[= -> ->]|Hin]%elem_of_cons; [done|by apply IH].
Qed.

Lemma missing_values_0 kvs b : (∀ k v, (k, v) ∈ kvs → value_of b k = Some v) → missing_values kvs b = 0.
Proof.
  intros H. unfold missing_values. induction kvs as [|[k v] kvs IH]; [done|]. rewrite filter_cons. cbn [fst snd].
  rewrite decide_False by (intros Hn; apply Hn, H; by left). apply IH. intros k' v' ?. apply H. by right.
Qed.

Lemma one_line_flats A h n b c B :
  Forall one_line (A ++ flat (Block h n b c) ++ B) → one_line h ∧ Forall one_line (flats b).
Proof. rewrite flat_block, !Forall_app, Forall_cons, Forall_app. tauto. Qed.

Lemma links_edit_tree A B h n b c p token links all :
  let lines := A ++ flat (Block h n b c) ++ B in
  Forall one_line lines → (∀ l, l ∈ links → l ∈ all) →
  match links_edit lines (sec_of p (length A) (Block h n b c)) token links with
  | None => ∀ l, l ∈ links → missing_link (heartbeat_values token) b l = 0
  | Some lines' => ∃ b', lines' = A ++ flat (Block h n b' c) ++ B ∧ tree_step token all b b'
  end.
Proof.
  intros lines Ho. induction links as [|link links IH]; intros Hall; cbn [links_edit]; [by intros l ?%elem_of_nil|].
  destruct (one_line_flats _ _ _ _ _ _ Ho) as [Hh Hb].
  pose proof (find_interface link (p ++ [n]) b (S (length A))) as Hf. unfold interface.
  replace (sec_children (sec_of p (length A) (Block h n b c))) with (secs (p ++ [n]) (S (length A)) b) by done.
  destruct (List.find (is_interface link) (secs (p ++ [n]) (S (length A)) b)) as [s|].
  - destruct Hf as (b1 & hi & ni & bi & ci & b2 & Heq & Hs & Hb1 & Hp).
    set (A' := A ++ h :: flats b1). set (B' := flats b2 ++ c :: B).
    assert (∀ bi', A' ++ flat (Block hi ni bi' ci) ++ B' = A ++ flat (Block h n (b1 ++ Block hi ni bi' ci :: b2) c) ++ B) as Hl.
    { intros bi'. unfold A', B'. rewrite (flat_block h), flats_app, flats_cons. rewrite <-!app_assoc. cbn [app].
      rewrite <-!app_assoc. done. }
    assert (lines = A' ++ flat (Block hi ni bi ci) ++ B') as Hlines by (unfold lines; by rewrite Hl, <-Heq).
    replace (S (length A) + length (flats b1)) with (length A') in Hs
      by (unfold A'; rewrite length_app; cbn [length]; lia).
    subst s. pose proof (values_edit_tree A' B' hi ni bi ci (p ++ [n]) (heartbeat_values token)) as Hv.
    cbv zeta in Hv. rewrite <-Hlines in Hv.
    destruct (values_edit lines _ _) as [lines'|].
    + destruct Hv as (k & v & bi' & Hkv & Hset & ->). exists (b1 ++ Block hi ni bi' ci :: b2).
      split; [apply Hl|]. rewrite Heq. rewrite Hlines in Ho. destruct (one_line_flats _ _ _ _ _ _ Ho) as [Hhi Hbi].
      eapply value_step; [apply Hall; left|done|done|done|apply inner_indent_blank|by apply inner_indent_one_line|done].
    + specialize (IH ltac:(intros; apply Hall; by right)).
      destruct (links_edit _ _ _ _) as [lines'|]; [done|].
      intros l [->|Hl']%elem_of_cons; [|by apply IH]. unfold missing_link. rewrite Heq, find_app, Hb1.
      cbn [List.find]. rewrite Hp. by apply missing_values_0.
  - unfold lines. rewrite (child_indent_tree A B h n c b p). exists (b ++ [new_interface (inner_indent h b) link]).
    destruct (lines_end A B h n c b p) as [-> ->]. split.
    + rewrite flat_block, flats_app. unfold flats at 3. cbn. rewrite <-!app_assoc. cbn. done.
    + apply interface_step; [apply Hall; left|done|apply inner_indent_blank|by apply inner_indent_one_line].
Qed.

(** *** The sections of a tree do not depend on its line numbers, nor the links on the totem *)

Definition outline (s : section) : list text * list text := (sec_path s, (sec_keys s).*1).

Lemma dsetdefault_keys {V} (d d' : list (text * V)) k v v' :
  d.*1 = d'.*1 → (dsetdefault d k v).*1 = (dsetdefault d' k v').*1.
Proof.
  intros H. unfold dsetdefault.
  assert (is_Some (dget d k) ↔ is_Some (dget d' k)) as Hk by (by rewrite !dget_is_Some, H).
  destruct (dget d k) as [x|] eqn:E, (dget d' k) as [y|] eqn:E'; try done.
  - exfalso. destruct Hk as [Hk _]. by destruct Hk.
  - exfalso. destruct Hk as [_ Hk]. by destruct Hk.
  - rewrite dget_None in E, E'. rewrite !dset_keys_new, !fmap_app, H by done. done.
Qed.

Lemma body_keys_names b : ∀ i i' ks ks', ks.*1 = ks'.*1 → (body_keys i b ks).*1 = (body_keys i' b ks').*1.
Proof.
  induction b as [|it b IH]; intros i i' ks ks' H; cbn [body_keys]; [done|]. apply IH.
  destruct it as [l|]; cbn [leaf_key]; [|done]. destruct (kind_of l); try done. by apply dsetdefault_keys.
Qed.

Lemma secs_app p i a b : secs p i (a ++ b) = secs p i a ++ secs p (i + length (flats a)) b.
Proof.
  unfold secs. revert i. induction a as [|it a IH]; intros i; cbn [app secs_with].
  - cbn. by rewrite Nat.add_0_r.
  - rewrite IH, <-app_assoc, flats_cons, length_app. by rewrite Nat.add_assoc.
Qed.

Lemma concat_preorder_cons s l : concat (preorder <$> s :: l) = preorder s ++ concat (preorder <$> l).
Proof. done. Qed.

Lemma outline_secs b : ∀ p i i',
  outline <$> concat (preorder <$> secs p i b) = outline <$> concat (preorder <$> secs p i' b).
Proof.
  assert (∀ b, Forall (λ it, ∀ p i i', outline <$> preorder (sec_of p i it) = outline <$> preorder (sec_of p i' it)) b →
    ∀ p i i', outline <$> concat (preorder <$> secs p i b) = outline <$> concat (preorder <$> secs p i' b)) as Hlist.
  { clear b. unfold secs. induction 1 as [|it b Hit _ IH]; intros p i i'; cbn [secs_with]; [done|].
    destruct it as [l|h n b' c]; cbn [app].
    - apply IH.
    - rewrite !concat_preorder_cons, !fmap_app. f_equal; [apply Hit|apply IH]. }
  apply Hlist, Forall_true. intros it. clear b. induction it as [l|h n b c IH] using item_nested; intros p i i'; [done|].
  cbn [sec_of preorder]. csimpl. f_equal.
  - unfold outline. cbn [sec_path sec_keys]. f_equal. by apply body_keys_names.
  - apply Hlist, IH.
Qed.

Lemma sec_paths b : ∀ p i s, s ∈ concat (preorder <$> secs p i b) → ∃ h n b1 c, Block h n b1 c ∈ b ∧ (p ++ [n]) `prefix_of` sec_path s.
Proof.
  assert (∀ b, Forall (λ it, ∀ p i s, match it with Leaf _ => False | Block _ _ _ _ => s ∈ preorder (sec_of p i it) end →
    ∃ h n b1 c, it = Block h n b1 c ∧ (p ++ [n]) `prefix_of` sec_path s) b →
    ∀ p i s, s ∈ concat (preorder <$> secs p i b) → ∃ h n b1 c, Block h n b1 c ∈ b ∧ (p ++ [n]) `prefix_of` sec_path s) as Hlist.
  { clear b. unfold secs. induction 1 as [|it b Hit _ IH]; intros p i s; cbn [secs_with]; [by intros ?%elem_of_nil|].
    destruct it as [l|h n b' c]; cbn [app].
    - intros Hs. destruct (IH _ _ _ Hs) as (h & n & b1 & c & ? & ?). exists h, n, b1, c. split; [by right|done].
    - rewrite concat_preorder_cons. intros [Hs|Hs]%elem_of_app.
      + destruct (Hit p i s Hs) as (h' & n' & b1 & c' & Heq & Hp). exists h', n', b1, c'. split; [rewrite Heq; left|done].
      + destruct (IH _ _ _ Hs) as (h' & n' & b1 & c' & ? & ?). exists h', n', b1, c'. split; [by right|done]. }
  apply Hlist, Forall_true. intros it. clear b. induction it as [l|h n b c IH] using item_nested; intros p i s; [done|].
  cbn [sec_of preorder]. intros [->|Hs]%elem_of_cons; exists h, n, b, c; (split; [done|]); [done|].
  destruct (Hlist b IH _ _ _ Hs) as (h' & n' & b1 & c' & _ & Hp). etrans; [|exact Hp]. by exists [n'].
Qed.

(** The ring keys of the nodelist's nodes, of an outline. *)
Definition node_links (os : list (list text * list text)) : list N :=
  filter (λ o : list text * list text, o.1 = NODE_PATH) os ≫= λ o, omap ring_link o.2.

Lemma node_links_app a b : node_links (a ++ b) = node_links a ++ node_links b.
Proof. unfold node_links. by rewrite filter_app, bind_app. Qed.

Lemma node_links_none os : Forall (λ o, o.1 ≠ NODE_PATH) os → node_links os = [].
Proof. unfold node_links. induction 1 as [|o os Ho _ IH]; [done|]. by rewrite filter_cons, decide_False. Qed.

Lemma heartbeat_links_outline secs1 secs2 :
  node_links (outline <$> secs1) = node_links (outline <$> secs2) → heartbeat_links secs1 = heartbeat_links secs2.
Proof.
  intros H. unfold heartbeat_links.
  assert (∀ l, (List.filter (λ s, bool_decide (sec_path s = NODE_PATH)) l ≫= λ s, omap ring_link (sec_keys s).*1) =
    node_links (outline <$> l)) as Ho.
  { unfold node_links. induction l as [|s l IH]; [done|]. cbn [List.filter]. rewrite fmap_cons, filter_cons. cbn [outline fst].
    case_bool_decide; [rewrite decide_True by done|by rewrite decide_False].
    rewrite !bind_cons. cbn [snd]. by rewrite IH. }
  by rewrite !Ho, H.
Qed.

Definition totem_item (it : item) : bool := match it with Leaf _ => false | Block _ n _ _ => bool_decide (n = u "totem") end.

Lemma secs_block p i h n b c post :
  secs p i (Block h n b c :: post) = sec_of p i (Block h n b c) :: secs p (i + length (flat (Block h n b c))) post.
Proof. done. Qed.

Lemma links_totem pre h b b' c post :
  heartbeat_links (concat (preorder <$> secs [] 0 (pre ++ Block h (u "totem") b c :: post))) =
  heartbeat_links (concat (preorder <$> secs [] 0 (pre ++ Block h (u "totem") b' c :: post))).
Proof.
  apply heartbeat_links_outline.
  assert (∀ b i, node_links (outline <$> preorder (sec_of [] i (Block h (u "totem") b c))) = []) as Ht.
  { intros b0 i. apply node_links_none. apply Forall_forall. intros o (s & -> & Hs)%list_elem_of_fmap.
    destruct (sec_paths [Block h (u "totem") b0 c] [] i s) as (h' & n & b1 & c' & Hin & [k Hp]).
    - unfold secs. cbn [secs_with app]. rewrite concat_preorder_cons. apply elem_of_app. by left.
    - apply list_elem_of_singleton in Hin. simplify_eq. unfold outline. cbn [fst]. rewrite Hp. done. }
  rewrite !secs_app, !secs_block, !fmap_app, !concat_app, !concat_preorder_cons, !fmap_app, !node_links_app, !Ht.
  by rewrite (outline_secs post [] _ (0 + length (flats pre) + length (flat (Block h (u "totem") b' c)))).
Qed.

Lemma root_totems items : ∀ i,
  List.filter (λ s, bool_decide (sec_path s = [u "totem"])) (concat (preorder <$> secs [] i items)) =
  List.filter (λ s, bool_decide (sec_path s = [u "totem"])) (secs [] i items).
Proof.
  induction items as [|it items IH]; intros i; [done|]. destruct it as [l|h n b c]; [apply IH|].
  rewrite secs_block, concat_preorder_cons, List.filter_app, IH. cbn [sec_of preorder]. cbn [List.filter app].
  assert (List.filter (λ s, bool_decide (sec_path s = [u "totem"]))
    (concat (preorder <$> secs [n] (S i) b)) = []) as Hz.
  2:{ unfold secs in Hz. case_bool_decide; cbn [app]; by rewrite Hz. }
  assert (∀ l, Forall (λ s, sec_path s ≠ [u "totem"]) l → List.filter (λ s, bool_decide (sec_path s = [u "totem"])) l = []) as Hn.
  { induction 1 as [|s l Hs _ IHl]; [done|]. cbn. by rewrite bool_decide_eq_false_2. }
  apply Hn, Forall_forall. intros s Hs. destruct (sec_paths b [n] (S i) s Hs) as (h' & n' & b1 & c' & _ & [k Hp]).
  rewrite Hp. cbn. done.
Qed.

Lemma no_totems pre : ∀ i, Forall (λ it, totem_item it = false) pre →
  List.filter (λ s, bool_decide (sec_path s = [u "totem"])) (secs [] i pre) = [].
Proof.
  induction pre as [|it pre IH]; intros i Hf; [done|]. apply Forall_cons in Hf as [Hit Hf].
  destruct it as [l|h n b c]; [by apply IH|]. rewrite secs_block. cbn [List.filter sec_of sec_path app].
  cbn in Hit. apply bool_decide_eq_false in Hit. rewrite bool_decide_eq_false_2 by congruence. by apply IH.
Qed.

(** The totem section of a tree, and a tree with a totem section. *)
Lemma totem_of_tree pre h b c post :
  Forall (λ it, totem_item it = false) pre → Forall (λ it, totem_item it = false) post →
  totem_of (concat (preorder <$> secs [] 0 (pre ++ Block h (u "totem") b c :: post))) =
  Ok (sec_of [] (length (flats pre)) (Block h (u "totem") b c)).
Proof.
  intros Hpre Hpost. unfold totem_of. rewrite root_totems, secs_app, List.filter_app, no_totems by done.
  rewrite secs_block. cbn [List.filter app sec_of sec_path]. rewrite no_totems by done.
  by rewrite bool_decide_eq_true_2.
Qed.

Lemma first_totem items : ∀ i,
  List.filter (λ s, bool_decide (sec_path s = [u "totem"])) (secs [] i items) ≠ [] →
  ∃ pre h b c post, items = pre ++ Block h (u "totem") b c :: post ∧ Forall (λ it, totem_item it = false) pre.
Proof.
  induction items as [|it items IH]; intros i H; [done|].
  destruct (totem_item it) eqn:Hit.
  - destruct it as [|h n b c]; [done|]. cbn in Hit. apply bool_decide_eq_true in Hit as ->.
    by exists [], h, b, c, items.
  - assert (∃ j, List.filter (λ s, bool_decide (sec_path s = [u "totem"])) (secs [] j items) ≠ []) as [j Hj].
    { destruct it as [l|h n b c]; [by exists (i + length (flat (Leaf l)))|].
      exists (i + length (flat (Block h n b c))). rewrite secs_block in H. cbn [List.filter sec_of sec_path app] in H.
      cbn in Hit. apply bool_decide_eq_false in Hit. by rewrite bool_decide_eq_false_2 in H by congruence. }
    destruct (IH j Hj) as (pre & h & b & c & post & -> & Hpre). exists (it :: pre), h, b, c, post.
    split; [done|]. by constructor.
Qed.

Lemma totem_tree items t :
  totem_of (concat (preorder <$> secs [] 0 items)) = Ok t →
  ∃ pre h b c post, items = pre ++ Block h (u "totem") b c :: post ∧
    Forall (λ it, totem_item it = false) pre ∧ Forall (λ it, totem_item it = false) post.
Proof.
  intros H. unfold totem_of in H. rewrite root_totems in H.
  destruct (List.filter _ (secs [] 0 items)) as [|t0 [|t1 l]] eqn:Hf; try done.
  destruct (first_totem items 0) as (pre & h & b & c & post & -> & Hpre); [by rewrite Hf|].
  exists pre, h, b, c, post. split_and!; [done|done|].
  rewrite secs_app, List.filter_app, no_totems, secs_block in Hf by done. cbn [List.filter app sec_of sec_path] in Hf.
  rewrite bool_decide_eq_true_2 in Hf by done. injection Hf as _ Hf.
  apply Forall_forall. intros it Hit. destruct (totem_item it) eqn:Ht; [|done]. exfalso.
  revert Hf. match goal with |- context [secs [] ?j post] => generalize j end. clear -Hit Ht.
  induction post as [|it' post IH]; [by apply elem_of_nil in Hit|]. intros i Hf.
  apply elem_of_cons in Hit as [->|Hit].
  - destruct it' as [|h' n' b' c']; [done|]. cbn in Ht. apply bool_decide_eq_true in Ht as ->.
    rewrite secs_block in Hf. cbn [List.filter sec_of sec_path app] in Hf. by rewrite bool_decide_eq_true_2 in Hf.
  - destruct it' as [l|h' n' b' c']; [exact (IH Hit (i + length (flat (Leaf l))) Hf)|].
    rewrite secs_block in Hf. cbn [List.filter] in Hf. case_bool_decide; [done|]. by eapply IH.
Qed.

(** ** Convergence *)

Section converge.
Context (token : Z) (pre post : list item) (h c : text).

(** The file with totem body [b]. *)
Let file (b : list item) : list item := pre ++ Block h (u "totem") b c :: post.

Context (Hpre : Forall (λ it, totem_item it = false) pre) (Hpost : Forall (λ it, totem_item it = false) post).

Let links : list N := heartbeat_links (concat (preorder <$> secs [] 0 (file []))).

Lemma file_links b : heartbeat_links (concat (preorder <$> secs [] 0 (file b))) = links.
Proof. apply links_totem. Qed.

Lemma file_totem b : totem_of (concat (preorder <$> secs [] 0 (file b))) = Ok (sec_of [] (length (flats pre)) (Block h (u "totem") b c)).
Proof. by apply totem_of_tree. Qed.

Lemma file_flats b : flats (file b) = flats pre ++ flat (Block h (u "totem") b c) ++ flats post.
Proof. unfold file. by rewrite flats_app. Qed.

Lemma file_wf b b' : (Forall item_wf b → Forall item_wf b') → Forall item_wf (file b) → Forall item_wf (file b').
Proof.
  intros Hb. unfold file. rewrite !Forall_app, !Forall_cons. intros (? & Hblk & ?). split_and!; [done| |done].
  inversion_clear Hblk. constructor; auto.
Qed.

Lemma file_kept b b' : kept token (flats b) (flats b') → kept token (flats (file b)) (flats (file b')).
Proof.
  intros Hb. rewrite !file_flats, !flat_block. apply kept_app; [apply kept_refl|].
  apply kept_app; [|apply kept_refl]. apply kept_same, kept_app; [done|apply kept_refl].
Qed.

Lemma next_edit_tree b :
  Forall item_wf (file b) → Forall one_line (flats (file b)) →
  ∃ e, next_edit (flats (file b)) token = Ok e ∧
    match e with
    | None => True
    | Some lines' => ∃ b', lines' = flats (file b') ∧ tree_step token links b b'
    end.
Proof.
  intros Hwf Ho. unfold next_edit. rewrite parse_flats by done. cbn [mbind res_bind].
  rewrite file_totem. cbn [mbind res_bind]. eexists. split; [done|].
  rewrite file_links. rewrite file_flats in Ho |- *.
  rewrite set_key_tree. destruct (one_line_flats _ _ _ _ _ _ Ho) as [Hh Hb].
  destruct (set_body _ b (u "token") _) as [b'|] eqn:Hs; cbn [fmap option_fmap option_map].
  - exists b'. split; [by rewrite file_flats|].
    eapply token_step; [apply inner_indent_blank|by apply inner_indent_one_line|done].
  - pose proof (links_edit_tree (flats pre) (flats post) h (u "totem") b c [] token links links Ho (λ l Hl, Hl)) as Hl.
    destruct (links_edit _ _ _ _) as [lines'|]; [|done]. destruct Hl as (b' & -> & Hstep). exists b'.
    split; [by rewrite file_flats|done].
Qed.

Lemma passes_converge n : ∀ b,
  Forall item_wf (file b) → Forall one_line (flats (file b)) → missing token links b < n →
  ∃ b', passes n (flats (file b)) token = Ok (flats (file b')) ∧ Forall item_wf (file b') ∧
    kept token (flats (file b)) (flats (file b')) ∧ next_edit (flats (file b')) token = Ok None.
Proof.
  induction n as [|n IH]; intros b Hwf Ho Hm; [lia|]. cbn [passes].
  destruct (next_edit_tree b Hwf Ho) as (e & He & Hstep). rewrite He. cbn [mbind res_bind].
  destruct e as [lines'|]; [|exists b; split_and!; [done|done|apply kept_refl|done]].
  destruct Hstep as (b1 & -> & [Hw Hlt Hk]). apply file_kept in Hk.
  destruct (IH b1) as (b' & Hp & Hwf' & Hk' & Hn); [by eapply file_wf|by eapply kept_one_line|lia|].
  exists b'. split_and!; [done|done|by eapply kept_trans|done].
Qed.

Lemma missing_bound b : missing token links b < 2 + 4 * length links.
Proof.
  unfold missing. assert (∀ ls, sum_list (missing_link (heartbeat_values token) b <$> ls) ≤ 4 * length ls) as Hs.
  { induction ls as [|l ls IH]; csimpl; [done|].
    assert (missing_link (heartbeat_values token) b l ≤ 4); [|lia].
    unfold missing_link. destruct (List.find _ b) as [[|? ? bi ?]|]; [cbn; lia| |cbn; lia].
    unfold missing_values. etrans; [apply length_filter|]. cbn. lia. }
  specialize (Hs links). destruct (decide _); lia.
Qed.
End converge.

(** Nothing left to edit means every setting is in place. *)
Lemma set_key_None lines s k v : set_key lines s k v = None → snd <$> dget (sec_keys s) k = Some v.
Proof.
  unfold set_key. destruct (dget _ k) as [[i cur]|]; [|done]. case_bool_decide; [by subst|done].
Qed.

(** The settings are those of [token], in the totem section and in each link's interface. *)
Definition heartbeat_set (token : Z) (sections : list section) : Prop :=
  ∃ t, totem_of sections = Ok t ∧ snd <$> dget (sec_keys t) (u "token") = Some (Z_text token) ∧
    ∀ link, link ∈ heartbeat_links sections → ∃ i, interface t link = Some i ∧
      ∀ k v, (k, v) ∈ heartbeat_values token → snd <$> dget (sec_keys i) k = Some v.

Lemma next_edit_None lines token :
  next_edit lines token = Ok None → ∃ sections, parse lines = Ok sections ∧ heartbeat_set token sections.
Proof.
  unfold next_edit. intros H. apply bind_Ok in H as (sections & Hp & H). apply bind_Ok in H as (t & Ht & H).
  exists sections. split; [done|]. exists t. split; [done|]. injection H as H.
  destruct (set_key _ _ _ _) eqn:Hs; [done|]. apply set_key_None in Hs. split; [done|].
  revert H. generalize (heartbeat_links sections). induction l as [|link links IH]; intros H.
  - by intros link ?%elem_of_nil.
  - cbn [links_edit] in H. destruct (interface t link) as [i|] eqn:Hi; [|done].
    destruct (values_edit _ _ _) eqn:Hv; [done|]. intros l' [->|Hin]%elem_of_cons; [|by apply IH].
    exists i. split; [done|]. clear -Hv. revert Hv. generalize (heartbeat_values token).
    induction l as [|[k v] kvs IH]; intros Hv k' v'; [by intros ?%elem_of_nil|]. cbn [values_edit] in Hv.
    destruct (set_key lines i k v) eqn:Hs; [done|]. intros [[= -> ->]|Hin]%elem_of_cons; [by eapply set_key_None|by apply IH].
Qed.

Lemma splitlines_one_line s : Forall one_line (splitlines s).
Proof.
  unfold splitlines. assert (∀ n s cur, length s ≤ n → one_line (rev cur) → Forall one_line (splitlines_aux cur s)) as H.
  { induction n as [|n IH]; intros [|c t] cur Hn Hc; cbn [length] in Hn; try lia; cbn [splitlines_aux].
    - destruct cur; by repeat constructor.
    - destruct cur; by repeat constructor.
    - destruct (is_linebreak c) eqn:Hb.
      + constructor; [done|]. destruct c as [|[| | ]] eqn:Ec; try (apply IH; [lia|constructor]).
        repeat case_match; try (apply IH; [cbn [length] in *; lia|constructor]).
      + apply IH; [lia|]. cbn [rev]. apply Forall_app. split; [done|]. by repeat constructor. }
  eapply H; [done|constructor].
Qed.

Lemma kept_ne token a b : kept token a b → a ≠ [] → b ≠ [].
Proof. by inversion 1. Qed.

Lemma join_lines lines : lines ≠ [] → Forall one_line lines → splitlines (str_join [10%N] lines ++ [10%N]) = lines.
Proof. intros Hne Ho. rewrite str_join_lines by done. by apply splitlines_concat. Qed.

(** An application that succeeds is stable, keeps what is not its own and sets what it should;
    one that fails has a token out of range, unmatched braces or not one totem section. *)
Lemma apply_heartbeat_spec body token :
  match apply_heartbeat body token with
  | Ok out =>
      (TOKEN_MIN ≤ token ≤ TOKEN_MAX)%Z ∧ apply_heartbeat out token = Ok out ∧
      kept token (splitlines body) (splitlines out) ∧
      ∃ before after, parse (splitlines body) = Ok before ∧ parse (splitlines out) = Ok after ∧
        heartbeat_links after = heartbeat_links before ∧ heartbeat_set token after
  | Err e =>
      (e = TokenOutOfRange token ∧ ¬ (TOKEN_MIN ≤ token ≤ TOKEN_MAX)%Z) ∨
      parse (splitlines body) = Err e ∨
      ∃ sections, parse (splitlines body) = Ok sections ∧ totem_of sections = Err e
  end.
Proof.
  unfold apply_heartbeat at 1. destruct (raise_if _ _) as [[]|e] eqn:Hr; cbn [mbind res_bind].
  2:{ left. unfold raise_if in Hr. destruct (negb _) eqn:Hn; [|done]. injection Hr as <-. split; [done|].
      apply negb_true_iff in Hn. lia. }
  pose proof Hr as Hrange. apply raise_if_Ok, negb_false_iff in Hrange.
  destruct (parse (splitlines body)) as [before|e] eqn:Hp; cbn [mbind res_bind]; [|by right; left].
  destruct (parse_tree _ _ Hp) as (items & Hwf & Hlines & Hbefore).
  destruct (totem_of before) as [t|e] eqn:Ht.
  2:{ assert (passes (2 + 4 * length (heartbeat_links before)) (splitlines body) token = Err e) as ->.
      { cbn [Nat.add passes]. unfold next_edit. rewrite Hp. cbn [mbind res_bind]. by rewrite Ht. }
      cbn [mbind res_bind]. right; right. by exists before. }
  pose proof Ht as Hfile. rewrite Hbefore in Hfile.
  destruct (totem_tree _ _ Hfile) as (pre & h & b & c & post & -> & Hpre & Hpost).
  pose proof (file_links pre post h c b) as Hlinks. cbv zeta in Hlinks.
  destruct (passes_converge token pre post h c Hpre Hpost (2 + 4 * length (heartbeat_links before)) b)
    as (b' & Hpass & Hwf' & Hkept & Hnone).
  { done. } { rewrite <-Hlines. apply splitlines_one_line. }
  { rewrite Hbefore, Hlinks. apply missing_bound. }
  rewrite Hlines, Hpass. cbn [mbind res_bind]. set (lines' := flats (pre ++ Block h (u "totem") b' c :: post)) in *.
  assert (Forall one_line lines') as Ho by (eapply kept_one_line; [exact Hkept|rewrite <-Hlines; apply splitlines_one_line]).
  assert (lines' ≠ []) as Hne.
  { eapply kept_ne; [exact Hkept|]. rewrite file_flats, flat_block. by destruct (flats pre). }
  destruct (next_edit_None _ _ Hnone) as (after & Hafter & Hset).
  assert (after = concat (preorder <$> secs [] 0 (pre ++ Block h (u "totem") b' c :: post))) as Hae.
  { unfold lines' in Hafter. rewrite parse_flats in Hafter by done. by injection Hafter. }
  rewrite (join_lines lines') by done. split_and!.
  - lia. - lia.
  - unfold apply_heartbeat. rewrite Hr. cbn [mbind res_bind]. rewrite (join_lines lines') by done.
    rewrite Hafter. cbn [mbind res_bind Nat.add passes]. by rewrite Hnone.
  - done.
  - exists before, after. split_and!; [done|done| |done]. rewrite Hbefore, Hae. apply links_totem.
Qed.

(** ** Properties *)

(** C26. The heartbeat module does what IBM's procedure asks, for every corosync.conf: it fails
    exactly on a token out of range or a file without well-matched braces and exactly one
    totem section, its edits always converging in the passes it allows itself; otherwise the
    file has the token in the totem section and the knet values in the interface of every
    heartbeat link, the links being those of the old file, every other line kept in its place;
    and a second run, in either mode, changes nothing. *)
Theorem heartbeat_module_correct before token :
  match heartbeat_main (Some before) token false with
  | Exits changed written links =>
      let out := default before written in
      (TOKEN_MIN ≤ token ≤ TOKEN_MAX)%Z ∧
      (changed = true ↔ out ≠ before) ∧
      (∀ mode, heartbeat_main (Some out) token mode = Exits false None links) ∧
      kept token (splitlines before) (splitlines out) ∧
      ∃ old new, parse (splitlines before) = Ok old ∧ parse (splitlines out) = Ok new ∧
        heartbeat_links old = links ∧ heartbeat_links new = links ∧ heartbeat_set token new
  | Fails e =>
      (e = Some (TokenOutOfRange token) ∧ ¬ (TOKEN_MIN ≤ token ≤ TOKEN_MAX)%Z) ∨
      (∃ e', e = Some e' ∧ parse (splitlines before) = Err e') ∨
      ∃ e' sections, e = Some e' ∧ parse (splitlines before) = Ok sections ∧ totem_of sections = Err e'
  end.
Proof.
  pose proof (apply_heartbeat_spec before token) as Ha. unfold heartbeat_main at 1.
  destruct (apply_heartbeat before token) as [out|e]; cbn [mbind res_bind].
  2:{ destruct Ha as [[-> ?]|[?|(sections & ? & ?)]]; [by left|right; left; by eexists|right; right; by eexists _, sections]. }
  destruct Ha as (Hr & Hagain & Hkept & old & new & Hold & Hnew & Hlinks & Hset).
  rewrite Hnew. cbn [mbind res_bind]. rewrite andb_true_r.
  assert (default before (if negb (bool_decide (out = before)) then Some out else None) = out) as ->
    by (by case_bool_decide).
  split_and!; [lia|lia| | | |].
  - rewrite negb_true_iff, bool_decide_eq_false. done.
  - intros mode. unfold heartbeat_main. rewrite Hagain. cbn [mbind res_bind]. rewrite Hnew. cbn [mbind res_bind].
    by rewrite bool_decide_eq_true_2.
  - done.
  - by exists old, new.
Qed.

(** A file with two links, an interface block of a key the module does not own, and comments. *)
Definition demo_conf : list text :=
  [u "totem {"; u "    version: 2"; u "    token: 3000"; u "    interface {"; u "        linknumber: 1";
   u "        knet_transport: udp"; u "    }"; u "}"; u "# nodes"; u "nodelist {"; u "    node {";
   u "        ring0_addr: 10.0.0.1"; u "        ring1_addr: 10.1.0.1"; u "    }"; u "}"].

Definition demo_conf_after : list text :=
  [u "totem {"; u "    version: 2"; u "    token: 10000"; u "    interface {"; u "        linknumber: 1";
   u "        knet_transport: udp"; u "        knet_ping_timeout: 5000"; u "        knet_ping_interval: 500";
   u "        knet_pong_count: 2"; u "    }"; u "    interface {"; u "        linknumber: 0";
   u "        knet_ping_timeout: 5000"; u "        knet_ping_interval: 500"; u "        knet_pong_count: 2"; u "    }";
   u "}"; u "# nodes"; u "nodelist {"; u "    node {";
   u "        ring0_addr: 10.0.0.1"; u "        ring1_addr: 10.1.0.1"; u "    }"; u "}"].

Definition file_text (lines : list text) : text := str_join [10%N] lines ++ [10%N].

Example demo_conf_applied : apply_heartbeat (file_text demo_conf) 10000 = Ok (file_text demo_conf_after).
Proof. vm_compute. exact eq_refl. Qed.
