(* ===== verification/Mqweb.v ===== *)
(** * Following the active queue manager to its Console

    Models mqlab/mqweb_endpoints.py (the addresses of each queue manager's REST surface),
    mqlab/mqweb_probe.py (the state probe that finds the live one), the commands of
    mqlab/console.py and the whole of cli.console_open over them. What each address answers,
    the relays that are installed and the outcomes of systemd are inputs. *)

From S2P Require Import Prelude Trace PyText PyCodec PyDict PyFloat PyJson Hostfacts Versions VersionsLoad Stacks Inventory Operator.

Open Scope trace_scope.

(** ** mqweb_endpoints.py *)

Definition REST_PORT : text := u "9443".
Definition DATA_NET_A : text := u "net-data-a".
Definition DATA_NET_B : text := u "net-data-b".
Definition EXT_NET : text := u "net-ext".

Inductive EndpointError := NoAddress (node net : text) | NoVipB (stack : text) | NoEndpoint (stack : text).

Definition url_of (ip : text) : text := u "https://" ++ ip ++ u ":" ++ REST_PORT.

(** The address of a node on a net; a node the topology does not have has none. *)
Definition node_ip (t : Topo) (node net : text) : option text :=
  spec ← dget (t_nodes t) node; nic_ip spec net.

Definition node_urls (t : Topo) (group net : text) : res EndpointError (list text) :=
  res_mapM (λ host, ip ← of_option (NoAddress host net) (node_ip t host net); Ok (url_of ip)) (hosts_of t group).

Inductive endpoint_kind := VipKind | ActiveInstance | Counterparty.

Definition SITE_A : text := u "site-a".
Definition SITE_B : text := u "site-b".

Record Endpoints := mk_endpoints {
    ep_stack : text; ep_kind : endpoint_kind; ep_sites : list (text * list text)
  }.

Definition stack_endpoints (t : Topo) (name : text) (cfg : StackCfg) : res EndpointError Endpoints :=
  match or_none (dget (sc_qm cfg) (u "vip")) with
  | Some vip =>
      vip_b ← of_option (NoVipB name) (or_none (dget (sc_qm cfg) (u "vip_b")));
      Ok (mk_endpoints name VipKind [(SITE_A, [url_of vip]); (SITE_B, [url_of vip_b])])
  | None =>
      group_a ← of_option (NoEndpoint name) (or_none (sc_cluster_group cfg));
      site_a ← node_urls t group_a DATA_NET_A;
      match filter (λ g, g ≠ group_a) (sc_groups cfg) with
      | [] => Ok (mk_endpoints name ActiveInstance [(SITE_A, site_a)])
      | group_b :: _ =>
          site_b ← node_urls t group_b DATA_NET_B;
          Ok (mk_endpoints name ActiveInstance [(SITE_A, site_a); (SITE_B, site_b)])
      end
  end.

Definition SVC_SIM : text := u "svc-sim".

Definition mqweb_endpoints (t : Topo) : res EndpointError (list Endpoints) :=
  stacks ← res_mapM (λ nc, stack_endpoints t nc.1 nc.2) (t_stacks t);
  Ok (stacks ++ match node_ip t SVC_SIM EXT_NET with
                | Some ip => [mk_endpoints SVC_SIM Counterparty [(SITE_A, [url_of ip])]]
                | None => []
                end).

(** ** mqweb_probe.py *)

Inductive liveness := Live | Member | Unknown.
#[export] Instance liveness_eq_dec : EqDecision liveness.
Proof. solve_decision. Defined.

Definition LIVE_STATES : list text := [u "running"].
Definition MEMBER_STATES : list text := [u "replica"; u "recoveryGroupLeader"].
Definition AUTH_FAILURES : list Z := [401; 403]%Z.

Definition classify (state : option text) : liveness :=
  match state with
  | Some s => if bool_decide (s ∈ LIVE_STATES) then Live else if bool_decide (s ∈ MEMBER_STATES) then Member else Unknown
  | None => Unknown
  end.

(** What a request to an address gives: a body, decoded as JSON unless that raises a
    ValueError, an HTTP error, an OSError with its reason, or another exception. *)
Inductive fetched := Page (doc : option json) (shown : text) | HttpError (code : Z) | Failed (reason : text) | Raised.

(** An answer: the state, and a detail for the operator. *)
Record Answer := mk_answer { an_state : option text; an_detail : text }.

Inductive ProbeError :=
  | BadLogin (url : text) (code : Z) | NoneLive (answers : list (text * text * liveness)) | Escapes.

Definition as_object (v : json) : option (list (text * json)) := match v with JObj d => Some d | _ => None end.

(** [_records]. *)
Definition records (doc : option json) : option (list (list (text * json))) :=
  match doc with
  | Some (JObj d) => match dget d (u "qmgr") with Some (JArr l) => mapM as_object l | _ => None end
  | _ => None
  end.

Definition named (qm : text) (rec : list (text * json)) : bool :=
  match dget rec (u "name") with Some (JStr s) => bool_decide (s = qm) | _ => false end.

Section probe.
(** [repr] of a state that is not a text. *)
Context (repr : option json → text) (fetch : text → fetched).

Definition qm_state (url qm : text) : res ProbeError Answer :=
  match fetch url with
  | HttpError code =>
      if bool_decide (code ∈ AUTH_FAILURES) then Err (BadLogin url code)
      else Ok (mk_answer None (u "HTTP " ++ Z_text code))
  | Failed reason => Ok (mk_answer None (u "unreachable (" ++ reason ++ u ")"))
  | Raised => Err Escapes
  | Page doc shown =>
      match records doc with
      | None => Ok (mk_answer None (u "unparseable answer (" ++ shown ++ u ")"))
      | Some recs =>
          Ok match List.find (named qm) recs with
             | None => mk_answer None (u "no " ++ qm ++ u " record")
             | Some rec =>
                 match dget rec (u "state") with
                 | Some (JStr s) => mk_answer (Some s) s
                 | other => mk_answer None (u "state " ++ repr other)
                 end
             end
      end
  end.

(** The loop of [resolve_live]: each candidate is asked in turn, up to a live one. *)
Fixpoint resolve_from (seen : list (text * text * liveness)) (urls : list text) (qm : text) :
  traced text ProbeError text :=
  match urls with
  | [] => quiet (Err (NoneLive seen))
  | url :: urls =>
      let* answer := emit url (qm_state url qm) in
      match classify (an_state answer) with
      | Live => quiet (Ok url)
      | kind => resolve_from (seen ++ [(url, an_detail answer, kind)]) urls qm
      end
  end.

Definition resolve_live (urls : list text) (qm : text) : traced text ProbeError text := resolve_from [] urls qm.
End probe.

(** ** console.py *)

Definition FORWARD_PORT : text := u "19443".
Definition FORWARD_BACKEND : text := u "127.0.0.1:" ++ FORWARD_PORT.
Definition UNIT : text := u "mqlab-console-forward".
Definition IDLE_TIMEOUT : text := u "120".

Definition load_state_argv : list text := [u "systemctl"; u "show"; u "-p"; u "LoadState"; u "--value"; UNIT].
Definition stop_argv : list text := [u "sudo"; u "systemctl"; u "stop"; UNIT].

(** [urlsplit] of an address [url_of] makes: the host and the port. *)
Definition host_port (url : text) : text * text :=
  match cut 58 (drop 8 url) with Some (h, p) => (h, p) | None => (drop 8 url, REST_PORT) end.

Definition forward_argv (url user : text) : list text :=
  let '(host, port) := host_port url in
  [u "sudo"; u "systemd-run"; u "--unit=" ++ UNIT; u "--collect"; u "--uid=" ++ user; u "socat"; u "-T";
   IDLE_TIMEOUT; u "TCP4-LISTEN:" ++ FORWARD_PORT ++ u ",bind=127.0.0.1,reuseaddr,fork";
   u "TCP:" ++ host ++ u ":" ++ port].

(** [max(1, int(5.0 / 0.25))]. *)
Definition LISTEN_ATTEMPTS : nat := 20.

(** [wait_listening]: whether one of the attempts is accepted; each refused one is followed by
    an interval, but for the last. *)
Definition wait_listening (attempts : nat) (accepted : list bool) : bool := existsb id (take attempts accepted).

(** ** cli.console_open *)

(** What the machine answers: the addresses, whether the CA is there, the user, the listing of
    the relays ([None] when systemctl fails), the unit's state ([None] when it cannot be read),
    the success of the stop and of the start, and the attempts to connect that are accepted. *)
Record ConsoleWorld := mk_console_world {
    w_fetch : text → fetched; w_ca : bool; w_user : text; w_relays : option text;
    w_load_state : option text; w_stop : bool; w_start : bool; w_accepted : list bool
  }.

Inductive console_act := Ask (url : text) | Listing | LoadState | Run (argv : list text) | Banner (url : text).

(** An exit code, or an exception nothing catches. *)
Inductive stopped := Code (z : Z) | Crash.

Definition need {A} (s : stopped) (o : option A) : traced console_act stopped A := quiet (of_option s o).

(** [_console_qm]. *)
Definition console_qm (stacks : list (text * Stack)) (stack : text) : option text :=
  match dget stacks stack with
  | Some s => Some (qm_app (s_qm s))
  | None => (λ ns : text * Stack, qm_svc (s_qm ns.2)) <$> head stacks
  end.

(** [{r["stack"]: r for r in ...}]. *)
Definition by_stack (recs : list Endpoints) : list (text * Endpoints) :=
  foldl (λ d r, dset d (ep_stack r) r) [] recs.

Definition probe_failed (e : ProbeError) : stopped := match e with Escapes => Crash | _ => Code 1 end.

Definition console_step (argv : list text) (ok : bool) : traced console_act stopped () :=
  emit (Run argv) (if ok then Ok tt else Err (Code 1)).

(** [_console_access]: at least one relay to the forwarder. *)
Definition console_access (w : ConsoleWorld) : traced console_act stopped Relay :=
  emit Listing
    match w_relays w with
    | None => Err (Code 1)
    | Some listing =>
        match relays_to FORWARD_BACKEND listing with
        | Ok (r :: _) => Ok r
        | Ok [] | Err (Unreadable _ _) | Err (NoRelay _) => Err (Code 1)
        | Err (PortTooLong _) => Err Crash   (* a ValueError, not a RelayError *)
        end
    end.

(** What follows the search: the relay is looked up, a previous forwarder is stopped only when
    it is loaded, and a new one is started and waited for. *)
Definition forward_to (w : ConsoleWorld) (live : text) : traced console_act stopped () :=
  let* _ := console_access w in
  let* state := emit LoadState (of_option (Code 1) (w_load_state w)) in
  let* _ := (if bool_decide (strip state = u "loaded") then console_step stop_argv (w_stop w) else quiet (Ok tt)) in
  let* _ := console_step (forward_argv live (w_user w)) (w_start w) in
  let* _ := quiet (raise_if (negb (wait_listening LISTEN_ATTEMPTS (w_accepted w))) (Code 1)) in
  emit (Banner live) (Ok tt).

(** [if not rec.get(f"site-{site}")]: an empty list is refused as well. *)
Definition site_urls (rec : Endpoints) (site : text) : option (list text) :=
  match dget (ep_sites rec) (u "site-" ++ site) with Some ((_ :: _) as urls) => Some urls | _ => None end.

Definition console_open (repr : option json → text) (t : Topo) (w : ConsoleWorld) (stack site : text) :
  traced console_act stopped () :=
  let* recs := quiet (map_err (λ _, Crash) (mqweb_endpoints t)) in
  let* rec := need (Code 2) (dget (by_stack recs) stack) in
  let* urls := need (Code 2) (site_urls rec site) in
  let* stacks := quiet (map_err (λ _, Crash) (lab_stacks t)) in
  let* qm := need Crash (console_qm stacks stack) in
  let* _ := quiet (raise_if (negb (w_ca w)) (Code 1)) in
  let* live := (let m := resolve_live repr (w_fetch w) urls qm in (Ask <$> m.1, map_err probe_failed m.2)) in
  forward_to w live.

(** ** What the probe settles on *)

(** The page has a record of that name whose state is running. *)
Definition reports_running (f : fetched) (qm : text) : Prop :=
  ∃ d l rec shown, f = Page (Some (JObj d)) shown ∧ dget d (u "qmgr") = Some (JArr l) ∧ JObj rec ∈ l ∧
    dget rec (u "name") = Some (JStr qm) ∧ dget rec (u "state") = Some (JStr (u "running")).

Section probed.
Context (repr : option json → text) (fetch : text → fetched).

Definition answers_live (url qm : text) : Prop :=
  ∃ a, qm_state repr fetch url qm = Ok a ∧ classify (an_state a) = Live.

Lemma classify_live s : classify s = Live ↔ s = Some (u "running").
Proof.
  unfold classify. destruct s as [s|]; [|done]. unfold LIVE_STATES. case_bool_decide as H.
  - apply list_elem_of_singleton in H. by subst.
  - split; [by case_bool_decide|]. intros [= ->]. destruct H. by left.
Qed.

Lemma live_reports url qm : answers_live url qm → reports_running (fetch url) qm.
Proof.
  intros (a & Ha & Hl%classify_live). unfold qm_state in Ha.
  destruct (fetch url) as [doc shown|code|reason|]; [|case_bool_decide; [done|by simplify_eq/=]|by simplify_eq/=|done].
  destruct (records doc) as [recs|] eqn:Hr; [|by simplify_eq/=]. unfold records in Hr.
  destruct doc as [[| | | | | |d]|]; try done. destruct (dget d (u "qmgr")) as [[| | | | |l|]|] eqn:Hd; try done.
  destruct (List.find (named qm) recs) as [rec|] eqn:Hf; [|by simplify_eq/=].
  apply List.find_some in Hf as [Hin Hn]. unfold named in Hn.
  destruct (dget rec (u "name")) as [[| | | |s| |]|] eqn:Hname; try done. apply bool_decide_eq_true in Hn as ->.
  exists d, l, rec, shown. split_and!; [done|done| |done|].
  - apply list_elem_of_In in Hin. apply mapM_Some in Hr. apply list_elem_of_lookup in Hin as [i Hi].
    destruct (Forall2_lookup_r _ _ _ _ _ Hr Hi) as (v & Hv & Hobj). destruct v; try done. injection Hobj as ->.
    by eapply list_elem_of_lookup_2.
  - destruct (dget rec (u "state")) as [[| | | |s'| |]|]; by simplify_eq/=.
Qed.

(** The search: the first live candidate, after others that answered and were not; or none
    of the candidates is live; or it stopped at one that refused the login, or raised. *)
Lemma resolve_from_exact urls : ∀ seen qm,
  match resolve_from repr fetch seen urls qm with
  | (asked, Ok url) => ∃ pre post, urls = pre ++ url :: post ∧ asked = pre ++ [url] ∧ answers_live url qm ∧
      Forall (λ v, ¬ answers_live v qm) pre
  | (asked, Err (NoneLive answers)) => asked = urls ∧ answers.*1.*1 = seen.*1.*1 ++ urls ∧
      Forall (λ v, ¬ answers_live v qm) urls
  | (asked, Err (BadLogin url code)) => fetch url = HttpError code ∧ code ∈ AUTH_FAILURES ∧ last asked = Some url
  | (asked, Err Escapes) => ∃ url, fetch url = Raised ∧ last asked = Some url
  end.
Proof.
  induction urls as [|url urls IH]; intros seen qm; cbn [resolve_from].
  { split_and!; [done|by rewrite app_nil_r|constructor]. }
  unfold then_, emit. cbn [fst snd]. destruct (qm_state repr fetch url qm) as [a|e] eqn:Hq.
  - destruct (decide (classify (an_state a) = Live)) as [Hc|Hc].
    { rewrite Hc. cbn [fst snd quiet app]. exists [], urls. split_and!; [done|done|by exists a|constructor]. }
    assert (¬ answers_live url qm) as Hno.
    { intros (a' & Ha & Hl). rewrite Hq in Ha. by injection Ha as ->. }
    set (seen' := seen ++ [(url, an_detail a, classify (an_state a))]).
    specialize (IH seen' qm). destruct (resolve_from repr fetch seen' urls qm) as [asked res] eqn:Hr.
    assert (match classify (an_state a) with
            | Live => quiet (Ok url)
            | kind => resolve_from repr fetch (seen ++ [(url, an_detail a, kind)]) urls qm
            end = (asked, res)) as -> by (unfold seen' in Hr; by destruct (classify (an_state a))).
    cbn [fst snd app]. destruct res as [live|[bad code|answers|]].
    + destruct IH as (pre & post & -> & -> & Hv & Hpre). exists (url :: pre), post.
      split_and!; [done|done|done|by constructor].
    + destruct IH as (? & ? & Hl). split_and!; [done|done|]. by rewrite last_cons, Hl.
    + destruct IH as (-> & Ha & Hall). split_and!; [done| |by constructor].
      rewrite Ha. unfold seen'. by rewrite !fmap_app, <-app_assoc.
    + destruct IH as (bad & ? & Hl). exists bad. split; [done|]. by rewrite last_cons, Hl.
  - unfold qm_state in Hq. destruct (fetch url) as [doc shown|code|reason|] eqn:Hf; try done.
    + by destruct (records doc).
    + case_bool_decide; [|done]. by injection Hq as <-.
    + injection Hq as <-. by exists url.
Qed.
End probed.

(** ** The candidates *)

(** The address the topology gives for the queue manager of a stack on a site. *)
Definition candidate (t : Topo) (stack site ip : text) : Prop :=
  (stack = SVC_SIM ∧ site = u "a" ∧ node_ip t SVC_SIM EXT_NET = Some ip) ∨
  ∃ cfg, (stack, cfg) ∈ t_stacks t ∧
    match or_none (dget (sc_qm cfg) (u "vip")) with
    | Some vip => (site = u "a" ∧ ip = vip) ∨ (site = u "b" ∧ dget (sc_qm cfg) (u "vip_b") = Some ip)
    | None => ∃ group node net, node ∈ hosts_of t group ∧ node_ip t node net = Some ip ∧
        ((site = u "a" ∧ sc_cluster_group cfg = Some group ∧ net = DATA_NET_A) ∨
         (site = u "b" ∧ group ∈ sc_groups cfg ∧ sc_cluster_group cfg ≠ Some group ∧ net = DATA_NET_B))
    end.

Lemma or_none_Some o s : or_none o = Some s → o = Some s.
Proof. by destruct o as [[|]|]. Qed.

Lemma node_urls_candidates t group net urls url :
  node_urls t group net = Ok urls → url ∈ urls → ∃ node ip, url = url_of ip ∧ node ∈ hosts_of t group ∧ node_ip t node net = Some ip.
Proof.
  intros H Hin. destruct (res_mapM_elem _ _ _ _ H Hin) as (node & Hnode & Hu).
  apply bind_Ok in Hu as (ip & Hip%of_option_Ok & [= <-]). by exists node, ip.
Qed.

Lemma site_key site k : u "site-" ++ site = u "site-" ++ k → site = k.
Proof. apply app_inv_head. Qed.

Lemma stack_candidates t name cfg r urls site url :
  stack_endpoints t name cfg = Ok r → (name, cfg) ∈ t_stacks t → dget (ep_sites r) (u "site-" ++ site) = Some urls →
  url ∈ urls → ep_stack r = name ∧ ∃ ip, url = url_of ip ∧ candidate t name site ip.
Proof.
  intros H Hin Hs Hu. unfold stack_endpoints in H.
  assert (∀ ip P, P ip → (∀ ip, P ip → candidate t name site ip) → candidate t name site ip) as Hc by auto.
  destruct (or_none (dget (sc_qm cfg) (u "vip"))) as [vip|] eqn:Hvip.
  - apply bind_Ok in H as (vip_b & Hb%of_option_Ok%or_none_Some & [= <-]). split; [done|]. cbn [ep_sites dget] in Hs.
    change SITE_A with (u "site-" ++ u "a") in Hs. change SITE_B with (u "site-" ++ u "b") in Hs.
    repeat case_decide; simplify_eq; apply list_elem_of_singleton in Hu as ->; eexists; (split; [done|]); right; exists cfg;
      (split; [done|]); rewrite Hvip.
    + left. split; [|done]. by symmetry; apply site_key.
    + right. split; [|done]. by symmetry; apply site_key.
  - apply bind_Ok in H as (ga & Hga%of_option_Ok%or_none_Some & H). apply bind_Ok in H as (ua & Hua & H).
    assert (∀ urls', node_urls t ga DATA_NET_A = Ok urls' → url ∈ urls' → site = u "a" → ∃ ip, url = url_of ip ∧ candidate t name site ip) as HA.
    { intros urls' Hn Hu' ->. destruct (node_urls_candidates _ _ _ _ _ Hn Hu') as (node & ip & -> & Hnode & Hip).
      exists ip. split; [done|]. right. exists cfg. split; [done|]. rewrite Hvip. exists ga, node, DATA_NET_A. by eauto 6. }
    destruct (filter (λ g, g ≠ ga) (sc_groups cfg)) as [|gb l] eqn:Hf.
    + injection H as <-. split; [done|]. cbn [ep_sites dget] in Hs. change SITE_A with (u "site-" ++ u "a") in Hs.
      case_decide as Hd; [|done]. simplify_eq. eapply HA; [done|done|]. by symmetry; apply site_key.
    + apply bind_Ok in H as (ub & Hub & [= <-]). split; [done|]. cbn [ep_sites dget] in Hs.
      change SITE_A with (u "site-" ++ u "a") in Hs. change SITE_B with (u "site-" ++ u "b") in Hs.
      case_decide as Hd; [simplify_eq; eapply HA; [done|done|]; by symmetry; apply site_key|].
      case_decide as Hd'; [|done]. injection Hs as <-. apply site_key in Hd' as <-.
      destruct (node_urls_candidates _ _ _ _ _ Hub Hu) as (node & ip & -> & Hnode & Hip).
      exists ip. split; [done|]. right. exists cfg. split; [done|]. rewrite Hvip. exists gb, node, DATA_NET_B.
      assert (gb ∈ filter (λ g, g ≠ ga) (sc_groups cfg)) as Hgb by (rewrite Hf; left).
      apply list_elem_of_filter in Hgb as [Hne Hgb]. split_and!; [done|done|]. right. split_and!; try done. congruence.
Qed.

Lemma by_stack_Some recs s r : dget (by_stack recs) s = Some r → r ∈ recs ∧ ep_stack r = s.
Proof.
  unfold by_stack. assert (∀ d, dget (foldl (λ d r, dset d (ep_stack r) r) d recs) s = Some r →
    (r ∈ recs ∧ ep_stack r = s) ∨ dget d s = Some r) as H.
  { induction recs as [|r0 recs IH]; intros d; cbn [foldl]; [by right|].
    intros [[? ?]|Hd]%IH; [left; by split; [right|]|]. rewrite dget_dset in Hd. case_decide as He; [|by right].
    injection Hd as ->. left. by split; [left|]. }
  intros [?|?]%H; done.
Qed.

Lemma endpoints_candidates t recs r stack site urls url :
  mqweb_endpoints t = Ok recs → dget (by_stack recs) stack = Some r → dget (ep_sites r) (u "site-" ++ site) = Some urls →
  url ∈ urls → ∃ ip, url = url_of ip ∧ candidate t stack site ip.
Proof.
  intros H [Hr <-]%by_stack_Some Hs Hu. apply bind_Ok in H as (stacks & Hst & [= <-]).
  apply elem_of_app in Hr as [Hr|Hr].
  - destruct (res_mapM_elem _ _ _ _ Hst Hr) as ([name cfg] & Hin & Hc).
    destruct (stack_candidates _ _ _ _ _ _ _ Hc Hin Hs Hu) as [-> Hip]. exact Hip.
  - destruct (node_ip t SVC_SIM EXT_NET) as [ip|] eqn:Hip; [|by apply elem_of_nil in Hr].
    apply list_elem_of_singleton in Hr as ->. cbn [ep_sites dget] in Hs. change SITE_A with (u "site-" ++ u "a") in Hs.
    case_decide as Hd; [|done]. apply site_key in Hd as <-. injection Hs as <-. apply list_elem_of_singleton in Hu as ->.
    exists ip. split; [done|]. by left.
Qed.

Lemma site_urls_Some rec site urls :
  site_urls rec site = Some urls → dget (ep_sites rec) (u "site-" ++ site) = Some urls.
Proof. unfold site_urls. intros H. destruct (dget (ep_sites rec) (u "site-" ++ site)) as [[|v vs]|]; [done|exact H|done]. Qed.

Definition commands (acts : list console_act) : list (list text) := omap (λ a, match a with Run argv => Some argv | _ => None end) acts.

Lemma commands_app a b : commands (a ++ b) = commands a ++ commands b.
Proof. apply omap_app. Qed.

Lemma commands_asked l : commands (Ask <$> l) = [].
Proof. by induction l. Qed.

(** The commands of a successful forward. *)
Definition forward_commands (w : ConsoleWorld) (live : text) : list (list text) :=
  (if bool_decide (strip (default [] (w_load_state w)) = u "loaded") then [stop_argv] else []) ++
  [forward_argv live (w_user w)].

Lemma forward_to_spec w live acts r :
  forward_to w live = (acts, r) →
  commands acts `prefix_of` forward_commands w live ∧
  (r = Ok tt → is_Some (w_load_state w) ∧ last acts = Some (Banner live) ∧ commands acts = forward_commands w live).
Proof.
  unfold forward_to, forward_commands, then_, quiet, emit, console_access, console_step, emit. cbn [fst snd app].
  destruct (w_relays w) as [listing|]; [|by intros [= <- <-]; split; [apply prefix_nil|done]].
  destruct (relays_to FORWARD_BACKEND listing) as [[|rl rls]|[]]; try (by intros [= <- <-]; split; [apply prefix_nil|done]).
  cbn [fst snd app]. destruct (w_load_state w) as [state|]; cbn [of_option fst snd app];
    [|by intros [= <- <-]; split; [apply prefix_nil|done]].
  change (default [] (Some state)) with state.
  case_bool_decide; cbn [fst snd app].
  - destruct (w_stop w); cbn [fst snd app]; [|intros [= <- <-]; split; [by exists [forward_argv live (w_user w)]|done]].
    destruct (w_start w); cbn [fst snd app]; [|intros [= <- <-]; split; [done|done]].
    destruct (wait_listening LISTEN_ATTEMPTS (w_accepted w)); cbn [negb raise_if fst snd app]; intros [= <- <-];
      (split; [done|]); [|done]. intros _. by split_and!.
  - destruct (w_start w); cbn [fst snd app]; [|intros [= <- <-]; split; [done|done]].
    destruct (wait_listening LISTEN_ATTEMPTS (w_accepted w)); cbn [negb raise_if fst snd app]; intros [= <- <-];
      (split; [done|]); [|done]. intros _. by split_and!.
Qed.

Lemma forward_target ip user : 58%N ∉ ip → last (forward_argv (url_of ip) user) = Some (u "TCP:" ++ ip ++ u ":9443").
Proof.
  intros Hip. unfold forward_argv, host_port. change (drop 8 (url_of ip)) with (ip ++ 58%N :: REST_PORT).
  by rewrite cut_app.
Qed.

(** ** Properties *)

(** C10. `mqlab console open` never forwards to anything but the live queue manager: whatever the
    addresses answer, the only commands it runs are the stop of the previous forwarder and
    the start of one to an address the topology gives for that stack and site whose mqweb
    reported this queue manager running; and when it succeeds it has run exactly these, the
    stop only when a forwarder was loaded. *)
Theorem console_follows_active repr t w stack site acts r :
  console_open repr t w stack site = (acts, r) → commands acts ≠ [] →
  ∃ stacks qm ip, lab_stacks t = Ok stacks ∧ console_qm stacks stack = Some qm ∧
    candidate t stack site ip ∧ reports_running (w_fetch w (url_of ip)) qm ∧
    commands acts `prefix_of` forward_commands w (url_of ip) ∧
    (r = Ok tt → is_Some (w_load_state w) ∧ last acts = Some (Banner (url_of ip)) ∧
       commands acts = forward_commands w (url_of ip)) ∧
    (58%N ∉ ip → last (forward_argv (url_of ip) (w_user w)) = Some (u "TCP:" ++ ip ++ u ":9443")).
Proof.
  unfold console_open, need, then_, quiet. cbn [fst snd app]. intros H Hne.
  destruct (mqweb_endpoints t) as [recs|] eqn:Hrecs; cbn [map_err fst snd app] in H; [|by simplify_eq].
  destruct (dget (by_stack recs) stack) as [rec|] eqn:Hrec; cbn [of_option fst snd app] in H; [|by simplify_eq].
  destruct (site_urls rec site) as [urls|] eqn:Hsite; cbn [of_option fst snd app] in H; [|by simplify_eq].
  apply site_urls_Some in Hsite.
  destruct (lab_stacks t) as [stacks|] eqn:Hst; cbn [map_err fst snd app] in H; [|by simplify_eq].
  destruct (console_qm stacks stack) as [qm|] eqn:Hqm; cbn [of_option fst snd app] in H; [|by simplify_eq].
  destruct (w_ca w); cbn [negb raise_if fst snd app] in H; [|by simplify_eq].
  pose proof (resolve_from_exact repr (w_fetch w) urls [] qm) as Hres. unfold resolve_live in H.
  destruct (resolve_from repr (w_fetch w) [] urls qm) as [asked [live|e]]; cbn [map_err fst snd app] in H.
  2:{ injection H as <- <-. by rewrite commands_asked in Hne. }
  destruct Hres as (pre & post & Hurls & _ & Hlive & _).
  assert (live ∈ urls) as Hin by (rewrite Hurls; apply elem_of_app; right; left).
  destruct (endpoints_candidates _ _ _ _ _ _ _ Hrecs Hrec Hsite Hin) as (ip & -> & Hcand).
  destruct (forward_to w (url_of ip)) as [acts2 r2] eqn:Hf. cbn [fst snd] in H. injection H as <- <-.
  destruct (forward_to_spec _ _ _ _ Hf) as [Hpre Hok]. rewrite commands_app, commands_asked. cbn [app].
  exists stacks, qm, ip. split_and!; [done|done|done|by eapply live_reports|done| |apply forward_target].
  intros Hr. destruct (Hok Hr) as (? & Hlast & ?). split_and!; [done| |done].
  rewrite last_app, Hlast. done.
Qed.

(** ** A Native HA queue manager whose second instance is active *)

Definition demo_instance (ip : string) : NodeSpec := mk_node (PyStr (u "mq")) None None None [(DATA_NET_A, u ip)] None.
Definition demo_native : Topo :=
  mk_topo [(u "nha-a1", demo_instance "10.20.0.11"); (u "nha-a2", demo_instance "10.20.0.12"); (u "nha-a3", demo_instance "10.20.0.13")]
    [(u "nha_a", [u "nha-a1"; u "nha-a2"; u "nha-a3"])]
    [(u "nativeha-ubuntu",
      mk_cfg (Some (u "native-ha")) (Some (u "ubuntu")) (Some (u "NU")) [] (Some (u "nha_a")) [u "nha_a"] [] [] None [] [])]
    [] (Some (u "SVC"), Some (u "svc(1414)")) None (None, None) None.

(** The queue manager's name is that of the stack; the first instance is a replica. *)
Definition demo_page (qm state : text) : fetched :=
  Page (Some (JObj [(u "qmgr", JArr [JObj [(u "name", JStr qm); (u "state", JStr state)]])])) [].

Definition demo_qm : text :=
  match lab_stacks demo_native with Ok stacks => default [] (console_qm stacks (u "nativeha-ubuntu")) | Err _ => [] end.

Definition demo_console : ConsoleWorld :=
  mk_console_world
    (λ url, if bool_decide (url = url_of (u "10.20.0.12")) then demo_page demo_qm (u "running")
            else demo_page demo_qm (u "replica"))
    true (u "lab") (Some (relay_line (mk_relay (u "vergil-portforward-9443.service") 9443 FORWARD_BACKEND)))
    (Some (u "loaded")) true true [false; true].

Lemma console_follows_active_witness :
  ∃ acts, console_open (λ _, []) demo_native demo_console (u "nativeha-ubuntu") (u "a") = (acts, Ok ()) ∧
    commands acts ≠ [] ∧ omap (λ a, match a with Ask url => Some url | _ => None end) acts = [url_of (u "10.20.0.11"); url_of (u "10.20.0.12")] ∧
    ∃ ip, reports_running (w_fetch demo_console (url_of ip)) demo_qm ∧ commands acts = forward_commands demo_console (url_of ip).
Proof.
  destruct (console_open (λ _, []) demo_native demo_console (u "nativeha-ubuntu") (u "a")) as [acts r] eqn:H.
  assert (r = Ok ()) as -> by (vm_compute in H; by injection H).
  assert (commands acts ≠ []) as Hne by (vm_compute in H; injection H as <-; by vm_compute).
  exists acts. split; [done|]. split; [done|]. split; [by vm_compute in H; injection H as <-; vm_compute|].
  destruct (console_follows_active _ _ _ _ _ _ _ H Hne) as (stacks & qm & ip & Hst & Hqm & _ & Hrun & _ & Hok & _).
  exists ip. destruct (Hok eq_refl) as (_ & _ & Hc). split; [|done]. unfold demo_qm. by rewrite Hst, Hqm.
Defined.
