(* ===== verification/Verbs.v ===== *)
(** * The queue manager, DR and reload verbs

    Models what cli.py does for `mqlab qm ...`, `mqlab dr cutover|failback` and the probes of
    `mqlab status`: the stack's own verb is looked up in its registry and turned into commands
    on the running lab. What virsh, the secrets' script, the probes and the commands answer are
    inputs; every command, probe, rendered inventory and note is an effect of the trace. *)

From S2P Require Import Prelude Trace PyText PyCodec PyDict PyFloat PyJson JsonRoundTrip Hostfacts Versions VersionsLoad.
From S2P Require Import Stacks Lifecycle Orchestrator Phases Instances Inventory Sequencer Shell E2e.

Open Scope trace_scope.

(** ** The effects and the inputs *)

Inductive vop :=
  | Gate                          (* the record gate's virsh list *)
  | Domains                       (* the probe of the domains' states *)
  | Nets
  | Note (msg : text)
  | RenderInventory (inv : text)
  | Secret (name : text)          (* bash lab-secret.sh <name> *)
  | Probe (c : Command)
  | PrepareLab                    (* _prepare_lab: the host's checks and the resolved topology *)
  | Out (o : output).             (* what the run loop does *)

(** An exit code, an exception nothing catches, or a run whose attempts ran out. *)
Inductive verb_stop := VExit (code : Z) | VCrash | VOpen.

(** The language on values a topology can hold beside texts: [str(v)], [s.upper()], [dict(v)]
    of a truthy value that is no mapping, whether [sorted] of mixed keys succeeds, and a
    replacement field of [str.format] with a conversion, an attribute, an index or a format,
    given what was read of its name and what follows. *)
Record PyLang := mk_lang {
    py_str_of : pyval → text; py_upper : text → text;
    py_dict_of : pyval → option (list (pyval * pyval));
    py_sorts : list pyval → bool;
    py_odd_field : text → text → option text
  }.

Record VerbWorld := mk_verb_world {
    v_root : text; v_topo : Topo; v_records : store;
    v_virsh : option text;          (* the gate's listing, None when virsh fails *)
    v_domains : text; v_nets : text;
    v_secret : text → Z * text;     (* exit code and output of lab-secret.sh *)
    v_mqweb : text;                 (* the mqweb state directory *)
    v_probe : Command → Z * list text;
    v_load : text → res E2EError pyval;   (* a YAML file of the repository *)
    v_prepared : res verb_stop ();  (* how _prepare_lab ends *)
    v_dotfile : text;               (* where Vagrant keeps its machines *)
    v_pow : float → nat → option float;
    v_attempts : list Attempt
  }.

Definition vm_of (A : Type) : Type := traced vop verb_stop A.

Definition stop_unless {A} (s : verb_stop) (o : option A) : vm_of A := quiet (of_option s o).

Section verbs.
Context {FT : FloatText} (py : PyLang) (w : VerbWorld).
Abbreviation topo := (v_topo w).

Definition str_of (v : pyval) : text := match v with PyStr s => s | _ => py_str_of py v end.

(** [str.format] with the fields given by name; [None] is its exception. *)
Fixpoint py_format (fields : list (text * text)) (field : option text) (s : text) : option text :=
  match field, s with
  | None, [] => Some []
  | None, 123%N :: 123%N :: s => (λ r, 123%N :: r) <$> py_format fields None s
  | None, 125%N :: 125%N :: s => (λ r, 125%N :: r) <$> py_format fields None s
  | None, 123%N :: s => py_format fields (Some []) s
  | None, 125%N :: _ => None
  | None, c :: s => (λ r, c :: r) <$> py_format fields None s
  | Some _, [] => None
  | Some name, 125%N :: s => v ← dget fields name; r ← py_format fields None s; Some (v ++ r)
  | Some _, 123%N :: _ => None
  | Some name, c :: s =>
      if bool_decide (c ∈ u "!:.[") then py_odd_field py name (c :: s)
      else py_format fields (Some (name ++ [c])) s
  end.

Definition ansible_dir : option text := Some (path_of (v_root w) ["ansible"]%string).

(** [_stack_qm_or_exit]. *)
Definition stack_qm_or_exit (name : text) : vm_of Stack :=
  let* stacks := quiet (map_err (λ _, VCrash) (lab_stacks topo)) in
  let* stack := stop_unless (VExit 2) (dget stacks name) in
  let* _ := quiet (raise_if (bool_decide (s_short stack = [])) (VExit 2)) in
  quiet (Ok stack).

Definition gate_stop (e : BootstrapError) : verb_stop :=
  match e with
  | VirshFailed => VExit 1
  | ErrRecord (WriteFailed _) | ErrRecord (IntegerTooLong _) => VCrash
  | _ => VExit 2
  end.

(** [_require_record_if_live]. *)
Definition record_gate (name : text) : vm_of () :=
  let live := map_err gate_stop (stack_live topo (v_virsh w) name) in
  let* live := (match default [] (stack_members topo name) with [] => quiet live | _ => emit Gate live end) in
  quiet (map_err (λ e, gate_stop (ErrRecord e)) (_ ← require_record_if_live (v_records w) name live; Ok ())).

Definition probe_states : vm_of states := emit Domains (Ok (parse_domain_states (v_domains w))).

Definition verb_note (msg : text) : vm_of () := emit (Note msg) (Ok ()).

(** [_render_inventory]. *)
Definition render_inv : vm_of () :=
  let* inv := quiet (map_err (λ _, VCrash) (render_inventory topo)) in
  emit (RenderInventory inv) (Ok ()).

(** [run_steps], with [except StepFailedError]. *)
Definition run_verb (steps : list CommandStep) : vm_of () :=
  let '(out, e) := run_steps (v_pow w) steps false (v_attempts w) in
  (Out <$> out, match e with
                | RDone => Ok ()
                | RError (StepFailedError _ code _ _) => Err (VExit code)
                | RError DelayOverflow => Err VCrash
                | ROpen => Err VOpen
                end).

(** ** The provision environment *)

Definition source_secret (name : text) : vm_of text :=
  emit (Secret name) (let '(code, out) := v_secret w name in if (code =? 0)%Z then Ok (strip out) else Err (VExit 2)).

Fixpoint secrets_env (env : list (text * text)) (secrets : list text) : vm_of (list (text * text)) :=
  match secrets with
  | [] => quiet (Ok env)
  | s :: secrets =>
      let* value := source_secret s in
      secrets_env (dset env (py_upper py s) value) secrets
  end.

Definition stack_provision_env (stack : Stack) : vm_of (list (text * text)) :=
  let* env := secrets_env [] (s_secrets stack) in
  quiet (Ok (dset env (u "MQWEB_STATE_DIR") (v_mqweb w))).

(** [vm provision-env]: the lines it prints, none before everything was sourced. *)
Definition export_line (nv : text * text) : text := u "export " ++ nv.1 ++ u "=" ++ Shell.quote nv.2.

Definition vm_provision_env (name : text) : vm_of (list text) :=
  let* stacks := quiet (map_err (λ _, VCrash) (lab_stacks topo)) in
  let* stack := stop_unless (VExit 2) (dget stacks name) in
  let* env := stack_provision_env stack in
  quiet (Ok (export_line <$> env)).

(** ** The qm verbs *)

Definition down_of (d : states) (hosts : list text) : list text :=
  filter (λ h, classify d h ≠ RUNNING) hosts.

Definition not_running_note (down : list text) (stack : text) : text :=
  str_join (u ", ") down ++ u ": not running " ++ [8212%N] ++ u " run mqlab bootstrap " ++ stack ++ u " first".

Definition extra (key value : text) : list text := [u "-e"; key ++ u "=" ++ value].

Definition playbook_argv (qm : QmConfig) (playbook : text) : list text :=
  [u "ansible-playbook"; playbook] ++ extra (u "qm_name") (qm_app qm) ++ extra (u "qm_vip") (qm_vip qm) ++
  extra (u "qm_vip_ext") (qm_vip_ext qm) ++ extra (u "qm_app") (qm_app qm) ++ extra (u "qm_svc") (qm_svc qm) ++
  extra (u "chl_to_svc") (chl_to_svc qm) ++ extra (u "chl_to_app") (chl_to_app qm) ++
  extra (u "svc_req_queue") (req_queue qm) ++
  match or_none (qm_svc_conn qm) with Some conn => extra (u "svc_conn") conn | None => [] end.

(** [_qm_playbook]. A playbook that is no text breaks the command line. *)
Definition qm_playbook (stack : Stack) (playbook : pyval) (verb : text) : vm_of () :=
  let members := default [] (stack_members topo (s_name stack)) in
  let* d := probe_states in
  match down_of d members with
  | (_ :: _) as down =>
      let* _ := verb_note (not_running_note down (s_name stack)) in
      quiet (Err (VExit 3))
  | [] =>
      let* _ := render_inv in
      let* env := (if bool_decide (verb = u "qm-create") then
                     let* env := stack_provision_env stack in quiet (Ok (Some env))
                   else quiet (Ok None)) in
      let* playbook := stop_unless VCrash (match playbook with PyStr s => Some s | _ => None end) in
      run_verb [mk_step (s_name stack ++ u " " ++ verb)
                  (mk_command (playbook_argv (s_qm stack) playbook) ansible_dir env) None []]
  end.

(** [_probe_skipped_down]: whether a probe is skipped, with the note that says why. *)
Definition probe_skipped_down (probe : text) (d : states) (hosts : list text) : vm_of bool :=
  match hosts, down_of d hosts with
  | _ :: _, [] => quiet (Ok false)
  | _, down =>
      let reason := match down with
                    | [] => u "no target hosts"
                    | _ => u "domain(s) not running: " ++ str_join (u ", ") down
                    end in
      let* _ := verb_note (probe ++ u " probe skipped: " ++ reason) in
      quiet (Ok true)
  end.

(** The loop of [_qm_cmd_targets] over the DR groups. *)
Fixpoint dr_targets (verb : text) (d : states) (groups : list text) : vm_of (list (text * option text)) :=
  match groups with
  | [] => quiet (Ok [])
  | g :: groups =>
      let* skipped := probe_skipped_down (verb ++ u " site B (" ++ g ++ u ")") d (take 1 (hosts_of topo g)) in
      let* rest := dr_targets verb d groups in
      quiet (Ok (if skipped then rest else (g, Some (u "site B")) :: rest))
  end.

Definition cluster_text (stack : Stack) : text := default (u "None") (s_cluster_group stack).

(** [_qm_cmd_targets]. *)
Definition qm_cmd_targets (stack : Stack) (verb : text) : vm_of (list (text * option text)) :=
  if negb (bool_decide (verb = u "qm-status")) || negb (bool_decide (s_mechanism stack = u "native-ha")) ||
     bool_decide (s_dr_groups stack = [])
  then quiet (Ok [(cluster_text stack, None)])
  else
    let* d := probe_states in
    let* rest := dr_targets verb d (s_dr_groups stack) in
    quiet (Ok ((cluster_text stack, Some (u "site A")) :: rest)).

Definition shell_argv (group shell_cmd : text) : list text :=
  [u "ansible"; group ++ u "[0]"; u "-b"; u "-m"; u "shell"; u "-a"; shell_cmd].

Definition cluster_step (stack : Stack) (shell_cmd verb : text) (target : text * option text) : CommandStep :=
  plain_step (s_name stack ++ u " " ++ verb ++ match target.2 with Some l => u " (" ++ l ++ u ")" | None => [] end)
    (shell_argv target.1 shell_cmd) ansible_dir.

(** [_qm_cluster_cmd]. *)
Definition qm_cluster_cmd (stack : Stack) (shell_cmd verb : text) : vm_of () :=
  let* _ := render_inv in
  let* targets := qm_cmd_targets stack verb in
  run_verb (cluster_step stack shell_cmd verb <$> targets).

Definition script_argv (qm : QmConfig) (script : text) : list text :=
  [u "bash"; lab_script (v_root w) script; qm_app qm; qm_vip qm; default [] (qm_svc_conn qm); qm_svc qm; req_queue qm].

(** [_qm_script]. *)
Definition qm_script (stack : Stack) (script verb : text) : vm_of () :=
  run_verb [plain_step (s_name stack ++ u " " ++ verb) (script_argv (s_qm stack) script) None].

(** [impl = stack.verbs.get(verb)], refused when it is falsy. *)
Definition verb_impl (stack : Stack) (verb : text) : option pyval :=
  match dget (s_verbs stack) verb with Some v => if truthy v then Some v else None | None => None end.

(** [[(kind, value)] = impl.items()]. *)
Definition one_item (v : pyval) : option (pyval * pyval) :=
  match v with PyDict [kv] => Some kv | _ => None end.

Definition is_kind (kind : pyval) (s : text) : bool :=
  match kind with PyStr k => bool_decide (k = s) | _ => false end.

(** [_qm_dispatch]. *)
Definition qm_dispatch (name verb : text) : vm_of () :=
  let* stack := stack_qm_or_exit name in
  let* impl := stop_unless (VExit 2) (verb_impl stack verb) in
  let* _ := record_gate (s_name stack) in
  let* kv := stop_unless VCrash (one_item impl) in
  let '(kind, value) := kv in
  let qm := s_qm stack in
  if is_kind kind (u "playbook") then qm_playbook stack value verb
  else if is_kind kind (u "pcs") then qm_cluster_cmd stack (u "pcs " ++ str_of value) verb
  else if is_kind kind (u "cmd") then
    let* cmd := stop_unless VCrash (py_format [(u "qm", qm_app qm); (u "vip", qm_vip qm)] None (str_of value)) in
    qm_cluster_cmd stack cmd verb
  else if is_kind kind (u "script") then qm_script stack (str_of value) verb
  else quiet (Err (VExit 2)).

(** ** qm reload *)

Definition QM_RELOAD : text := u "qm-reload".

Definition group_running (d : states) (g : text) : bool :=
  match hosts_of topo g with [] => false | hosts => forallb (λ h, bool_decide (classify d h = RUNNING)) hosts end.

(** The loop of [_qm_reload_hosts] over the DR groups. *)
Fixpoint reload_groups (qm : text) (d : states) (groups : list text) : vm_of (list text) :=
  match groups with
  | [] => quiet (Ok [])
  | g :: groups =>
      if group_running d g then
        let* rest := reload_groups qm d groups in quiet (Ok (g :: rest))
      else
        let* _ := verb_note (g ++ u ": not running " ++ [8212%N] ++ u " not searched for the active " ++ qm) in
        reload_groups qm d groups
  end.

(** [_qm_reload_hosts]. *)
Definition qm_reload_hosts (stack : Stack) (cluster : text) : vm_of text :=
  let* d := probe_states in
  match down_of d (hosts_of topo cluster) with
  | (_ :: _) as down =>
      let* _ := verb_note (not_running_note down (s_name stack)) in
      quiet (Err (VExit 3))
  | [] =>
      let* rest := reload_groups (qm_app (s_qm stack)) d (s_dr_groups stack) in
      quiet (Ok (str_join (u ":") (cluster :: rest)))
  end.

Definition reload_argv (stack : Stack) (playbook hosts : text) (timeout : Z) : list text :=
  [u "ansible-playbook"; playbook] ++ extra (u "qm_stack") (s_name stack) ++
  extra (u "qm_name") (qm_app (s_qm stack)) ++ extra (u "qm_mechanism") (s_mechanism stack) ++
  extra (u "qm_hosts") hosts ++ extra (u "qm_reload_timeout") (Z_text timeout).

(** [_qm_reload_run]. *)
Definition qm_reload_run (name : text) (timeout : Z) : vm_of () :=
  let* stack := stack_qm_or_exit name in
  let* impl := stop_unless (VExit 2) (verb_impl stack QM_RELOAD) in
  let* kv := stop_unless VCrash (one_item impl) in
  let '(kind, value) := kv in
  let* _ := quiet (raise_if (negb (is_kind kind (u "playbook"))) (VExit 2)) in
  let* cluster := stop_unless (VExit 2) (or_none (s_cluster_group stack)) in
  let* _ := quiet (raise_if (bool_decide (hosts_of topo cluster = [])) (VExit 2)) in
  let* _ := record_gate (s_name stack) in
  let* hosts := qm_reload_hosts stack cluster in
  let* _ := render_inv in
  run_verb [plain_step (s_name stack ++ u " " ++ QM_RELOAD)
              (reload_argv stack (str_of value) hosts timeout) ansible_dir].

(** ** qm e2e *)

Definition e2e_step (stack : Stack) (count : Z) (p : E2EParams) : CommandStep :=
  mk_step (s_name stack ++ u " e2e x" ++ Z_text count ++ u " via " ++ e2_host p)
    (mk_command [u "vagrant"; u "ssh"; e2_host p; u "-c"; remote_command p count]
       (Some (path_of (v_root w) ["lab"]%string)) (Some [(u "VAGRANT_DOTFILE_PATH", v_dotfile w)])) None [].

(** [_qm_e2e_run]. *)
Definition qm_e2e_run (name : text) (count : Z) : vm_of () :=
  let* stack := stack_qm_or_exit name in
  let* _ := record_gate (s_name stack) in
  let* params := quiet (map_err (λ _, VExit 2) (derive (v_load w) stack topo)) in
  let* _ := emit PrepareLab (v_prepared w) in
  run_verb [e2e_step stack count params].

(** ** The DR verbs *)

(** [dict(x or {})]: a text never makes a mapping, a number or [True] is no iterable. *)
Definition verb_dict (v : option pyval) : option (list (pyval * pyval)) :=
  match v with
  | None => Some []
  | Some v =>
      if truthy v then
        match v with
        | PyDict d => Some d
        | PyStr _ | PyInt _ | PyBool _ => None
        | _ => py_dict_of py v
        end
      else Some []
  end.

(** [sorted(impl)], which the refusal of several keys shows. *)
Definition keys_sort (keys : list pyval) : bool :=
  (length keys <=? 1) || forallb (λ k, match k with PyStr _ => true | _ => false end) keys || py_sorts py keys.

(** [_dr_impl]: the kind, the value and whether the verb implements the drill. *)
Definition dr_impl (stack : Stack) (verb : text) : res verb_stop (text * text * bool) :=
  impl ← of_option VCrash (verb_dict (dget (s_verbs stack) (u "dr-" ++ verb)));
  _ ← raise_if (bool_decide (length impl = 0)) (VExit 2);
  let rpo0 := match yget impl (u "rpo0") with Some v => truthy v | None => false end in
  match ypop impl (u "rpo0") with
  | [(kind, value)] =>
      match kind with
      | PyStr k =>
          if bool_decide (k ∈ [u "script"; u "playbook"]) then Ok (k, str_of value, rpo0) else Err (VExit 2)
      | _ => Err (VExit 2)
      end
  | rest => Err (if keys_sort rest.*1 then VExit 2 else VCrash)
  end.

(** [_dr_command]. *)
Definition dr_command (stack : Stack) (kind value direction : text) (drill : bool) : Command :=
  if bool_decide (kind = u "script") then
    mk_command [u "bash"; lab_script (v_root w) value; direction; qm_app (s_qm stack)] ansible_dir
      (if drill then Some [(u "RPO0_DRILL", u "1")] else None)
  else
    mk_command ([u "ansible-playbook"; value] ++ extra (u "dr_direction") direction ++
                extra (u "qm_name") (qm_app (s_qm stack)) ++
                extra (u "rpo0_drill") (if drill then u "true" else u "false")) ansible_dir None.

(** [_dr_run]. *)
Definition dr_run (name direction verb : text) (drill : bool) : vm_of () :=
  let* stack := stack_qm_or_exit name in
  let* impl := quiet (dr_impl stack verb) in
  let '(kind, value, rpo0) := impl in
  let* _ := quiet (raise_if (drill && negb rpo0) (VExit 2)) in
  let* _ := record_gate (s_name stack) in
  let* _ := render_inv in
  run_verb [mk_step (s_name stack ++ u " dr " ++ verb) (dr_command stack kind value direction drill) None []].

(** A DR verb written as a plain text is no mapping: [dict] of it raises. *)
Lemma dr_impl_plain stack verb c s : dget (s_verbs stack) (u "dr-" ++ verb) = Some (PyStr (c :: s)) → dr_impl stack verb = Err VCrash.
Proof. intros H. unfold dr_impl. by rewrite H. Qed.

Inductive dr_verb := Cutover | Failback.

(** [dr_cutover] and [dr_failback]. *)
Definition dr (v : dr_verb) (name : text) (drill : bool) : vm_of () :=
  match v with
  | Cutover => dr_run name (u "a2b") (u "cutover") drill
  | Failback => dr_run name (u "b2a") (u "failback") drill
  end.

(** ** The probes of the phases *)

Definition PROMETHEUS_URL : text := u "http://10.50.0.2:9090".

Definition probe_exit (c : Command) : vm_of (Z * list text) := emit (Probe c) (Ok (v_probe w c)).

(** [_probe_qm_up]. *)
Definition probe_qm_up (stack : Stack) (d : states) : vm_of bool :=
  match verb_impl stack (u "qm-status"), or_none (s_cluster_group stack) with
  | Some impl, Some cluster =>
      let* skipped := probe_skipped_down (u "qm-status") d (take 1 (hosts_of topo cluster)) in
      if skipped : bool then quiet (Ok false)
      else
        let* kv := stop_unless VCrash (one_item impl) in
        let '(kind, value) := kv in
        let* shell_cmd := (if is_kind kind (u "pcs") then quiet (Ok (u "pcs " ++ str_of value))
                           else stop_unless VCrash (py_format [(u "qm", qm_name (s_qm stack))] None (str_of value))) in
        let* answer := probe_exit (mk_command (shell_argv cluster shell_cmd) ansible_dir None) in
        quiet (Ok (answer.1 =? 0)%Z)
  | _, _ => quiet (Ok false)
  end.

Definition json_truthy (v : json) : bool :=
  match v with
  | JNull => false
  | JBool b => b
  | JInt z => negb (z =? 0)%Z
  | JFloat f => negb (feqb f fzero)
  | JStr s => negb (bool_decide (s = []))
  | JArr l => negb (bool_decide (length l = 0))
  | JObj d => negb (bool_decide (length d = 0))
  end.

(** [v.get(k)], when [v] is an object. *)
Definition jfield (v : json) (k : text) : option (option json) :=
  match v with JObj d => Some (dget d k) | _ => None end.

Definition jor (o : option json) (other : json) : json :=
  match o with Some v => if json_truthy v then v else other | None => other end.

(** [needle in (x or "")]. *)
Definition jcontains (needle : text) (x : option json) : option bool :=
  match jor x (JStr []) with
  | JStr s => Some (bool_decide (is_Some (find_sub needle s)))
  | JArr l => Some (existsb (λ v, match v with JStr s => bool_decide (s = needle) | _ => false end) l)
  | JObj d => Some (dmem needle d)
  | _ => None
  end.

(** The [any] over the targets, which stops at the first one that is up. *)
Fixpoint any_target (needle : text) (targets : list json) : option bool :=
  match targets with
  | [] => Some false
  | t :: targets =>
      url ← jfield t (u "scrapeUrl");
      hit ← jcontains needle url;
      if (hit : bool) then
        health ← jfield t (u "health");
        if match health with Some (JStr s) => bool_decide (s = u "up") | _ => false end then Some true
        else any_target needle targets
      else any_target needle targets
  end.

Definition observed (port : pyval) (captured : list text) : option bool :=
  payload ← match captured with [] => Some (JObj []) | _ => match loads (str_join newline captured) with Ok v => Some v | Err _ => None end end;
  data ← jfield payload (u "data");
  targets ← jfield (jor data (JObj [])) (u "activeTargets");
  match jor targets (JArr []) with
  | JArr l => any_target (u ":" ++ str_of port ++ u "/") l
  | _ => None
  end.

Definition observe_command : Command :=
  mk_command [u "curl"; u "-fsS"; u "-m"; u "5"; PROMETHEUS_URL ++ u "/api/v1/targets"] None None.

(** [_probe_observe]. *)
Definition probe_observe (stack : Stack) (d : states) : vm_of bool :=
  match dget (s_alloc stack) (u "exporter_app_port") with
  | Some port =>
      if truthy port then
        let* skipped := probe_skipped_down (u "observe") d (hosts_of topo OBS_GROUP) in
        if skipped : bool then quiet (Ok false)
        else
          let* answer := probe_exit observe_command in
          if negb (answer.1 =? 0)%Z then quiet (Ok false)
          else stop_unless VCrash (observed port answer.2)
      else quiet (Ok false)
  | None => quiet (Ok false)
  end.

(** [_probe_all]. *)
Definition probe_all (stack : Stack) : vm_of States :=
  let* nets := emit Nets (Ok (parse_net_states (v_nets w))) in
  let* d := probe_states in
  let* qm_up := probe_qm_up stack d in
  let* observe := probe_observe stack d in
  quiet (Ok (build_states nets d qm_up observe)).
End verbs.

(** ** What a verb runs *)

Definition commands_of (ops : list vop) : list Command :=
  omap (λ o, match o with Out (ORun c) => Some c | _ => None end) ops.

Lemma commands_of_app a b : commands_of (a ++ b) = commands_of a ++ commands_of b.
Proof. apply omap_app. Qed.

(** The outcome of a single command that is not retried. *)
Definition single_end (ats : list Attempt) : res verb_stop () :=
  match ats with
  | [] => Err VOpen
  | a :: _ => if (at_exit a =? 0)%Z then Ok () else Err (VExit (at_exit a))
  end.

Lemma run_verb_single w st :
  st_retry st = None →
  commands_of (run_verb w [st]).1 = (match v_attempts w with [] => [] | _ => [st_command st] end) ∧
  (run_verb w [st]).2 = single_end (v_attempts w).
Proof.
  intros Hr. unfold run_verb, run_steps, run_from, run_step, run_attempts, single_end.
  destruct (v_attempts w) as [|a ats]; [done|]. rewrite Hr.
  destruct (at_exit a =? 0)%Z; [|done]. by rewrite andb_false_l.
Qed.

Lemma lab_stack_name svc name cfg r : lab_stack svc name cfg = Ok r → r.1 = name ∧ s_name r.2 = name.
Proof.
  unfold lab_stack. intros (short & _ & (mech & _ & (os & _ & [= <-])%bind_Ok)%bind_Ok)%bind_Ok. done.
Qed.

Lemma lab_stacks_name t stacks name s : lab_stacks t = Ok stacks → dget stacks name = Some s → s_name s = name.
Proof.
  intros (svc & _ & H)%bind_Ok Hd. apply dget_elem in Hd.
  destruct (res_mapM_elem _ _ _ _ H Hd) as ([n cfg] & _ & [Hn Hs]%lab_stack_name). cbn in *. congruence.
Qed.

Section stacks.
Context (w : VerbWorld).

Definition stack_named (name : text) (stack : Stack) : Prop :=
  ∃ stacks, lab_stacks (v_topo w) = Ok stacks ∧ dget stacks name = Some stack.

Lemma stack_or_exit_spec name :
  ∃ r, stack_qm_or_exit w name = ([], r) ∧ ∀ stack, r = Ok stack → stack_named name stack ∧ s_name stack = name ∧ s_short stack ≠ [].
Proof.
  unfold stack_qm_or_exit, stop_unless, then_, quiet. cbn [fst snd app].
  destruct (lab_stacks (v_topo w)) as [stacks|e] eqn:Hs; cbn [map_err fst snd app]; [|by eexists].
  destruct (dget stacks name) as [stack|] eqn:Hd; cbn [of_option fst snd app]; [|by eexists].
  case_bool_decide as Hsh; cbn [raise_if fst snd app]; [by eexists|]. eexists. split; [done|].
  intros ? [= <-]. split_and!; [by exists stacks|by eapply lab_stacks_name|done].
Qed.

(** The gate stays quiet but for its virsh, and lets through a stack that is not live or has
    a record. *)
Lemma record_gate_spec {FT : FloatText} name :
  ∃ pre r, record_gate w name = (pre, r) ∧ Forall (λ o, o = Gate) pre ∧
    (r = Ok () → ¬ (stack_live (v_topo w) (v_virsh w) name = Ok true ∧ dget (v_records w) name = None)).
Proof.
  unfold record_gate. set (m := match default [] (stack_members (v_topo w) name) with [] => _ | _ => _ end).
  assert (Forall (λ o, o = Gate) m.1 ∧ m.2 = map_err gate_stop (stack_live (v_topo w) (v_virsh w) name)) as [Hm Hl].
  { unfold m. destruct (default [] (stack_members (v_topo w) name)); (split; [|done]); repeat constructor. }
  unfold then_. destruct m as [pre lv]. cbn [fst snd] in *. subst lv.
  destruct (stack_live (v_topo w) (v_virsh w) name) as [live|e]; cbn [map_err quiet fst snd]; [|by eexists _, _].
  rewrite app_nil_r. eexists _, _. split; [done|]. split; [done|]. intros Hok [[= ->] Hd].
  unfold require_record_if_live, read_record in Hok. by rewrite Hd in Hok.
Qed.
End stacks.

Lemma then_quiet {A B} (r : res verb_stop A) (k : A → vm_of B) :
  then_ (quiet r) k = match r with Ok a => k a | Err e => ([], Err e) end.
Proof. destruct r as [a|e]; [|done]. unfold then_. cbn. by destruct (k a). Qed.

Lemma then_pair {A B} (pre : list vop) (r : res verb_stop A) (k : A → vm_of B) :
  then_ (pre, r) k = match r with Ok a => (pre ++ (k a).1, (k a).2) | Err e => (pre, Err e) end.
Proof. by destruct r. Qed.

(** What a user asks of a stack: a declared verb of its queue manager ([verb] is qm-create,
    qm-destroy, qm-up, qm-down or qm-status), a reload, a burst of requests, or a DR verb. *)
Inductive verb_request :=
  | QmVerb (verb : text) | Reload (timeout : Z) | E2eBurst (count : Z) | Dr (v : dr_verb) (drill : bool).

Section requests.
Context {FT : FloatText} (py : PyLang) (w : VerbWorld).

Definition run_request (name : text) (rq : verb_request) : vm_of () :=
  match rq with
  | QmVerb verb => qm_dispatch py w name verb
  | Reload timeout => qm_reload_run py w name timeout
  | E2eBurst count => qm_e2e_run w name count
  | Dr v drill => dr py w v name drill
  end.

(** A live stack whose operating system is not on record. *)
Definition unrecorded (name : text) : Prop :=
  stack_live (v_topo w) (v_virsh w) name = Ok true ∧ dget (v_records w) name = None.

Definition untouched {A} (m : vm_of A) : Prop := Forall (λ o, o = Gate) m.1 ∧ ∀ a, m.2 ≠ Ok a.

Lemma untouched_err {A} (e : verb_stop) : untouched (([], Err e) : vm_of A).
Proof. by split; [constructor|]. Qed.

Lemma untouched_gate {B} name (k : () → vm_of B) : unrecorded name → untouched (then_ (record_gate w name) k).
Proof.
  intros Hu. destruct (record_gate_spec w name) as (pre & r & -> & Hpre & Hok). rewrite then_pair.
  destruct r as [[]|e]; [by destruct (Hok eq_refl)|by split].
Qed.

Lemma untouched_quiet {A B} (r : res verb_stop A) (k : A → vm_of B) :
  (∀ a, r = Ok a → untouched (k a)) → untouched (then_ (quiet r) k).
Proof. intros H. rewrite then_quiet. destruct r; [by apply H|apply untouched_err]. Qed.

(** C13. Every qm verb, the reload and the burst included, and every DR verb is refused on a live
    stack that has no instance record: no inventory is rendered, the lab is not prepared,
    nothing is probed and no command runs. *)
Theorem verbs_need_record name rq :
  unrecorded name → untouched (run_request name rq) ∧ commands_of (run_request name rq).1 = [].
Proof.
  intros Hu. assert (untouched (run_request name rq)) as Hr.
  { destruct (stack_or_exit_spec w name) as (r & Hs & Hn).
    destruct rq as [verb|timeout|count|[] drill];
      unfold run_request, qm_dispatch, qm_reload_run, qm_e2e_run, dr, dr_run, stop_unless;
      rewrite Hs; apply untouched_quiet; intros stack (_ & Hname & _)%Hn;
      try (rewrite Hname; by apply untouched_gate); apply untouched_quiet; intros impl Himpl;
      try (rewrite Hname; by apply untouched_gate).
    - apply untouched_quiet. intros [kind value] _. do 3 (apply untouched_quiet; intros ? _). rewrite Hname. by apply untouched_gate.
    - destruct impl as [[kind value] rpo0]. apply untouched_quiet. intros ? _. rewrite Hname. by apply untouched_gate.
    - destruct impl as [[kind value] rpo0]. apply untouched_quiet. intros ? _. rewrite Hname. by apply untouched_gate. }
  split; [done|]. destruct Hr as [Hg _]. induction Hg as [|o l -> _ IH]; [done|exact IH].
Qed.
End requests.

Lemma stack_or_exit_named w name stack :
  stack_named w name stack → s_short stack ≠ [] → stack_qm_or_exit w name = ([], Ok stack).
Proof.
  intros (stacks & Hs & Hd) Hsh. unfold stack_qm_or_exit, stop_unless. rewrite Hs. cbn [map_err].
  rewrite then_quiet, Hd. cbn [of_option]. rewrite then_quiet, then_quiet. by rewrite bool_decide_eq_false_2.
Qed.

(** What a verb does once the gate has let it through: one command after the inventory. *)
Lemma gated_single {FT : FloatText} w name (pre : vm_of ()) st ops r :
  st_retry st = None → pre = record_gate w name →
  (let* _ := pre in let* _ := render_inv w in run_verb w [st]) = (ops, r) →
  commands_of ops ≠ [] ∨ r = Ok () →
  ¬ unrecorded w name ∧ ∃ inv gate run, render_inventory (v_topo w) = Ok inv ∧
    ops = gate ++ RenderInventory inv :: run ∧ Forall (λ o, o = Gate) gate ∧
    commands_of ops = [st_command st] ∧ r = single_end (v_attempts w).
Proof.
  intros Hst -> H Hran. destruct (record_gate_spec w name) as (gate & rg & Hg & Hgate & Hok). rewrite Hg in H.
  assert (commands_of gate = []) as Hc by (clear -Hgate; induction Hgate as [|o l -> _ IH]; [done|exact IH]).
  rewrite then_pair in H. destruct rg as [[]|e]; [|injection H as <- <-; rewrite Hc in Hran; naive_solver].
  split; [by apply Hok|]. unfold render_inv in H.
  destruct (render_inventory (v_topo w)) as [inv|e] eqn:Hi; cbn [map_err] in H;
    [|rewrite then_quiet in H; cbn in H; injection H as <- <-; rewrite app_nil_r, Hc in Hran; naive_solver].
  rewrite then_quiet in H. unfold emit in H. rewrite then_pair in H. cbn [fst snd] in H. injection H as <- <-.
  destruct (run_verb_single w st Hst) as [Hcmd Hend]. exists inv, gate, (run_verb w [st]).1.
  split_and!; [done|done|done| |done]. rewrite commands_of_app, Hc. cbn [app]. change (commands_of (RenderInventory inv :: ?l)) with (commands_of l).
  rewrite commands_of_app, Hc in Hran. cbn [app] in Hran.
  change (commands_of (RenderInventory inv :: (run_verb w [st]).1)) with (commands_of (run_verb w [st]).1) in *.
  rewrite Hcmd in *. rewrite Hend in Hran. destruct (v_attempts w); [|done]. by destruct Hran.
Qed.

Definition dr_name (v : dr_verb) : text := match v with Cutover => u "cutover" | Failback => u "failback" end.
Definition dr_direction (v : dr_verb) : text := match v with Cutover => u "a2b" | Failback => u "b2a" end.

(** C8. A cutover or a failback runs exactly the command the stack's own DR verb declares, in the
    direction asked for, after the record gate and a freshly rendered inventory, and ends as
    that command does. A drill reaches the command only when the verb declares that it seeds
    and verifies one: asked of another verb it exits 2 before anything runs, as a verb that is
    missing or malformed does. *)
Theorem dr_honours_drill {FT : FloatText} py w v name drill ops r :
  dr py w v name drill = (ops, r) →
  (∀ stack, stack_named w name stack → s_short stack ≠ [] →
     (∀ kind value, dr_impl py stack (dr_name v) = Ok (kind, value, false) → drill = true → ops = [] ∧ r = Err (VExit 2)) ∧
     (∀ e, dr_impl py stack (dr_name v) = Err e → ops = [] ∧ r = Err e)) ∧
  (commands_of ops ≠ [] ∨ r = Ok () →
     ∃ stack kind value rpo0 inv gate run,
       stack_named w name stack ∧ dr_impl py stack (dr_name v) = Ok (kind, value, rpo0) ∧ (drill = true → rpo0 = true) ∧
       ¬ unrecorded w name ∧ render_inventory (v_topo w) = Ok inv ∧
       ops = gate ++ RenderInventory inv :: run ∧ Forall (λ o, o = Gate) gate ∧
       commands_of ops = [dr_command w stack kind value (dr_direction v) drill] ∧ r = single_end (v_attempts w)).
Proof.
  intros H. assert (dr_run py w name (dr_direction v) (dr_name v) drill = (ops, r)) as H' by (by destruct v).
  clear H. rename H' into H. unfold dr_run in H. split.
  - intros stack Hn Hsh. rewrite (stack_or_exit_named _ _ _ Hn Hsh) in H. change (@nil vop, Ok stack) with (@quiet vop verb_stop _ (Ok stack)) in H.
    rewrite !then_quiet in H. split.
    + intros kind value Himpl ->. rewrite Himpl in H. cbn [negb andb raise_if] in H. rewrite then_quiet in H. by injection H as <- <-.
    + intros e He. rewrite He in H. by injection H as <- <-.
  - intros Hran. destruct (stack_or_exit_spec w name) as (rs & Hs & Hspec). rewrite Hs, then_pair in H.
    destruct rs as [stack|e]; [|injection H as <- <-; naive_solver]. destruct (Hspec _ eq_refl) as (Hn & Hname & _).
    cbn [app] in H. rewrite <-surjective_pairing in H. rewrite then_quiet in H.
    destruct (dr_impl py stack (dr_name v)) as [[[kind value] rpo0]|e] eqn:Himpl; [|injection H as <- <-; naive_solver].
    rewrite then_quiet in H. destruct (drill && negb rpo0) eqn:Hd; cbn [raise_if] in H; [injection H as <- <-; naive_solver|].
    rewrite Hname in H. eapply gated_single in H as (Hrec & inv & gate & run & Hi & Hops & Hg & Hc & Hr); [|done|done|done].
    exists stack, kind, value, rpo0, inv, gate, run. split_and!; try done. by destruct drill, rpo0.
Qed.

(** ** qm reload *)

(** A group that has hosts, all of them running. *)
Definition group_up (w : VerbWorld) (d : states) (g : text) : Prop :=
  hosts_of (v_topo w) g ≠ [] ∧ ∀ h, h ∈ hosts_of (v_topo w) g → classify d h = RUNNING.

Lemma group_running_spec w d g : group_running w d g = true ↔ group_up w d g.
Proof.
  unfold group_running, group_up. destruct (hosts_of (v_topo w) g) as [|h hosts]; [naive_solver|].
  rewrite List.forallb_forall. split.
  - intros H. split; [done|]. intros h' Hh%list_elem_of_In%H. by apply bool_decide_eq_true in Hh.
  - intros [_ H] h' Hh. apply bool_decide_eq_true_2, H. by apply list_elem_of_In.
Qed.

Lemma reload_groups_spec w qm d groups :
  ∃ notes, reload_groups w qm d groups = (notes, Ok (List.filter (group_running w d) groups)) ∧ commands_of notes = [] ∧
    ∀ g, g ∈ groups → group_running w d g = false →
      Note (g ++ u ": not running " ++ [8212%N] ++ u " not searched for the active " ++ qm) ∈ notes.
Proof.
  induction groups as [|g groups (notes & IH & Hc & Hn)]; cbn [reload_groups List.filter].
  { exists []. split_and!; [done|done|]. by intros g ?%elem_of_nil. }
  destruct (group_running w d g) eqn:Hg.
  - rewrite IH, then_pair. cbn [fst snd]. rewrite app_nil_r. exists notes. split_and!; [done|done|].
    intros g' [->|Hin]%elem_of_cons Hr; [congruence|by apply Hn].
  - unfold verb_note, emit. rewrite then_pair, IH. cbn [app fst snd]. eexists. split_and!; [done|exact Hc|].
    intros g' [->|Hin]%elem_of_cons Hr; [by left|right; by apply Hn].
Qed.

Lemma down_of_nil d hosts : down_of d hosts = [] ↔ ∀ h, h ∈ hosts → classify d h = RUNNING.
Proof.
  unfold down_of. split.
  - intros H h Hh. destruct (decide (classify d h = RUNNING)) as [|Hn]; [done|].
    assert (h ∈ filter (λ h, classify d h ≠ RUNNING) hosts) as Hin by (by apply list_elem_of_filter). rewrite H in Hin.
    by apply elem_of_nil in Hin.
  - intros H. destruct (filter _ hosts) as [|h l] eqn:Hf; [done|].
    assert (h ∈ filter (λ h, classify d h ≠ RUNNING) hosts) as [Hn Hh]%list_elem_of_filter by (rewrite Hf; left).
    by rewrite (H h Hh) in Hn.
Qed.

Lemma qm_reload_hosts_spec w stack cluster :
  ∃ pre r, qm_reload_hosts w stack cluster = (pre, r) ∧ commands_of pre = [] ∧
    ∀ hosts, r = Ok hosts →
      let d := parse_domain_states (v_domains w) in
      (∀ h, h ∈ hosts_of (v_topo w) cluster → classify d h = RUNNING) ∧
      hosts = str_join (u ":") (cluster :: List.filter (group_running w d) (s_dr_groups stack)) ∧
      ∀ g, g ∈ s_dr_groups stack → group_running w d g = false →
        Note (g ++ u ": not running " ++ [8212%N] ++ u " not searched for the active " ++ qm_app (s_qm stack)) ∈ pre.
Proof.
  unfold qm_reload_hosts, probe_states, emit. rewrite then_pair. set (d := parse_domain_states (v_domains w)).
  destruct (down_of d (hosts_of (v_topo w) cluster)) as [|h down] eqn:Hd.
  - destruct (reload_groups_spec w (qm_app (s_qm stack)) d (s_dr_groups stack)) as (notes & Hr & Hc & Hn).
    rewrite Hr, then_pair. cbn [quiet fst snd]. eexists _, _. split; [done|]. split; [by rewrite app_nil_r|].
    intros hosts [= <-]. split_and!; [by apply down_of_nil|done|]. intros g Hg Hrun. rewrite app_nil_r. right. by apply Hn.
  - unfold verb_note, emit. rewrite then_pair. eexists _, _. split; [done|]. split; [done|]. done.
Qed.

(** C9. `mqlab qm reload` restarts the queue manager only through the stack's reload playbook, and
    only when every host of its cluster group is running; it searches for the active instance
    in exactly that group and the DR groups that have hosts, all of them running, with a note
    for every other one, and ends as the playbook does. *)
Theorem reload_searches_running {FT : FloatText} py w name timeout ops r :
  qm_reload_run py w name timeout = (ops, r) → commands_of ops ≠ [] ∨ r = Ok () →
  ∃ stack impl value cluster,
    stack_named w name stack ∧ verb_impl stack QM_RELOAD = Some impl ∧ one_item impl = Some (PyStr (u "playbook"), value) ∧
    s_cluster_group stack = Some cluster ∧ hosts_of (v_topo w) cluster ≠ [] ∧ ¬ unrecorded w name ∧
    let d := parse_domain_states (v_domains w) in
    (∀ h, h ∈ hosts_of (v_topo w) cluster → classify d h = RUNNING) ∧
    (∀ g, group_running w d g = true ↔ group_up w d g) ∧
    commands_of ops =
      [mk_command (reload_argv stack (str_of py value)
                     (str_join (u ":") (cluster :: List.filter (group_running w d) (s_dr_groups stack))) timeout)
         (ansible_dir w) None] ∧
    (∀ g, g ∈ s_dr_groups stack → group_running w d g = false →
       Note (g ++ u ": not running " ++ [8212%N] ++ u " not searched for the active " ++ qm_app (s_qm stack)) ∈ ops) ∧
    r = single_end (v_attempts w).
Proof.
  intros H Hran. unfold qm_reload_run, stop_unless in H.
  destruct (stack_or_exit_spec w name) as (rs & Hs & Hspec). rewrite Hs, then_pair in H.
  destruct rs as [stack|e]; [|injection H as <- <-; naive_solver]. destruct (Hspec _ eq_refl) as (Hn & Hname & _).
  cbn [app] in H. rewrite <-surjective_pairing in H.
  destruct (verb_impl stack QM_RELOAD) as [impl|] eqn:Hi; cbn [of_option] in H; rewrite then_quiet in H;
    [|injection H as <- <-; naive_solver].
  destruct (one_item impl) as [[kind value]|] eqn:Ho; cbn [of_option] in H; rewrite then_quiet in H;
    [|injection H as <- <-; naive_solver].
  rewrite then_quiet in H. destruct (is_kind kind (u "playbook")) eqn:Hk; cbn [negb raise_if] in H;
    [|injection H as <- <-; naive_solver].
  assert (kind = PyStr (u "playbook")) as -> by (destruct kind; try done; by apply bool_decide_eq_true in Hk as ->).
  destruct (or_none (s_cluster_group stack)) as [cluster|] eqn:Hc; cbn [of_option] in H; rewrite then_quiet in H;
    [|injection H as <- <-; naive_solver].
  assert (s_cluster_group stack = Some cluster) as Hcl by (by destruct (s_cluster_group stack) as [[|]|]).
  rewrite then_quiet in H. case_bool_decide as Hh; cbn [raise_if] in H; [injection H as <- <-; naive_solver|].
  rewrite Hname in H. destruct (record_gate_spec w name) as (gate & rg & Hg & Hgate & Hok). rewrite Hg, then_pair in H.
  assert (commands_of gate = []) as Hgc by (clear -Hgate; induction Hgate as [|o l -> _ IH]; [done|exact IH]).
  destruct rg as [[]|e]; [|injection H as <- <-; rewrite Hgc in Hran; naive_solver].
  destruct (qm_reload_hosts_spec w stack cluster) as (pre & rh & Hrh & Hpc & Hhosts). rewrite Hrh, then_pair in H.
  destruct rh as [hosts|e]; [|injection H as <- <-; cbn [fst snd] in Hran; rewrite commands_of_app, Hgc, Hpc in Hran; naive_solver].
  destruct (Hhosts _ eq_refl) as (Hrun & -> & Hnotes). unfold render_inv in H.
  destruct (render_inventory (v_topo w)) as [inv|e]; cbn [map_err] in H; rewrite then_quiet in H; unfold emit in H; rewrite ?then_pair in H;
    cbn [fst snd] in H; injection H as <- <-; rewrite !commands_of_app, Hgc, Hpc in Hran |- *; cbn [app] in Hran |- *;
    [|naive_solver].
  set (st := plain_step _ _ _) in *. destruct (run_verb_single w st eq_refl) as [Hcmd Hend].
  change (commands_of (RenderInventory inv :: ?l)) with (commands_of l).
  change (commands_of (RenderInventory inv :: (run_verb w [st]).1)) with (commands_of (run_verb w [st]).1) in *.
  rewrite Hcmd, Hend in *. exists stack, impl, value, cluster. split_and!; try done.
  - by apply Hok.
  - apply group_running_spec.
  - destruct (v_attempts w); [by destruct Hran|done].
  - intros g Hgin Hgr. apply elem_of_app. right. apply elem_of_app. left. by apply Hnotes.
Qed.

(** ** The probes *)

(** The cluster's first host, the one the status command is sent to, is running. *)
Definition first_running (w : VerbWorld) (d : states) (cluster : text) : Prop :=
  ∃ h, head (hosts_of (v_topo w) cluster) = Some h ∧ classify d h = RUNNING.

Definition probes_of (ops : list vop) : list Command := omap (λ o, match o with Probe c => Some c | _ => None end) ops.

Lemma probes_of_app a b : probes_of (a ++ b) = probes_of a ++ probes_of b.
Proof. apply omap_app. Qed.

Lemma probe_skipped_spec probe d hosts :
  ∃ notes b, probe_skipped_down probe d hosts = (notes, Ok b) ∧ probes_of notes = [] ∧
    (b = false ↔ hosts ≠ [] ∧ ∀ h, h ∈ hosts → classify d h = RUNNING) ∧ (b = true → notes ≠ []).
Proof.
  unfold probe_skipped_down. destruct hosts as [|h hosts].
  - unfold verb_note, emit. rewrite then_pair. eexists _, true. split_and!; [done|done| |done]. split; [done|by intros []].
  - destruct (down_of d (h :: hosts)) as [|h' down] eqn:Hd.
    + exists [], false. split_and!; [done|done| |done]. split; [|done]. intros _. split; [done|by apply down_of_nil].
    + unfold verb_note, emit. rewrite then_pair. eexists _, true. split_and!; [done|done| |done].
      split; [done|]. intros [_ Hr%down_of_nil]. congruence.
Qed.

(** A target that is up at an address the needle is in. *)
Definition target_up (needle : text) (t : json) : Prop :=
  ∃ url, jfield t (u "scrapeUrl") = Some url ∧ jcontains needle url = Some true ∧
    jfield t (u "health") = Some (Some (JStr (u "up"))).

Lemma any_target_spec needle targets : any_target needle targets = Some true → Exists (target_up needle) targets.
Proof.
  induction targets as [|t targets IH]; [done|]. cbn [any_target]. intros H.
  destruct (jfield t (u "scrapeUrl")) as [url|] eqn:Hu; [|done]. cbn [mbind option_bind] in H.
  destruct (jcontains needle url) as [hit|] eqn:Hh; [|done]. cbn [mbind option_bind] in H.
  destruct hit; [|right; by apply IH].
  destruct (jfield t (u "health")) as [health|] eqn:He; [|done]. cbn [mbind option_bind] in H.
  destruct health as [[| | | |s| |]|]; try (right; by apply IH).
  case_bool_decide as Hs; [|right; by apply IH]. subst s. left. by exists url.
Qed.

Lemma take_one_running w d g :
  take 1 (hosts_of (v_topo w) g) ≠ [] ∧ (∀ h, h ∈ take 1 (hosts_of (v_topo w) g) → classify d h = RUNNING) → first_running w d g.
Proof.
  unfold first_running. destruct (hosts_of (v_topo w) g) as [|h hosts]; [by intros []|]. intros [_ H].
  exists h. split; [done|]. apply H. by left.
Qed.

(** The status probe: at most one command, sent only to a running host. *)
Lemma probe_qm_up_spec py w stack d :
  ∃ ops r, probe_qm_up py w stack d = (ops, r) ∧
    ((probes_of ops = [] ∧ ∀ b, r = Ok b → b = false) ∨
     ∃ cluster shell, s_cluster_group stack = Some cluster ∧ first_running w d cluster ∧
       let c := mk_command (shell_argv cluster shell) (ansible_dir w) None in
       probes_of ops = [c] ∧ r = Ok ((v_probe w c).1 =? 0)%Z).
Proof.
  unfold probe_qm_up. destruct (verb_impl stack (u "qm-status")) as [impl|];
    [|by eexists _, _; split; [done|]; left; split; [|by intros b [= <-]]].
  destruct (or_none (s_cluster_group stack)) as [cluster|] eqn:Hc;
    [|by eexists _, _; split; [done|]; left; split; [|by intros b [= <-]]].
  assert (s_cluster_group stack = Some cluster) as Hcl by (by destruct (s_cluster_group stack) as [[|]|]).
  destruct (probe_skipped_spec (u "qm-status") d (take 1 (hosts_of (v_topo w) cluster))) as (notes & b & Hp & Hn & Hb & _).
  rewrite Hp, then_pair. destruct b; cbn [quiet fst snd].
  { eexists _, _. split; [done|]. left. split; [by rewrite app_nil_r|by intros ? [= <-]]. }
  unfold stop_unless. rewrite then_quiet. destruct (one_item impl) as [[kind value]|]; cbn [of_option fst snd].
  2:{ eexists _, _. split; [done|]. left. split; [by rewrite app_nil_r|done]. }
  assert (∀ o : option text, ∃ ops r, then_ (stop_unless VCrash o) (λ shell_cmd,
      let* answer := probe_exit w (mk_command (shell_argv cluster shell_cmd) (ansible_dir w) None) in
      quiet (Ok (answer.1 =? 0)%Z)) = (ops, r) ∧ ((probes_of ops = [] ∧ ∀ b, r = Ok b → b = false) ∨
      ∃ shell, let c := mk_command (shell_argv cluster shell) (ansible_dir w) None in
        probes_of ops = [c] ∧ r = Ok ((v_probe w c).1 =? 0)%Z)) as Hrest.
  { intros [shell|]; unfold stop_unless; cbn [of_option]; rewrite then_quiet.
    - unfold probe_exit, emit. rewrite then_pair. cbn [quiet fst snd app]. eexists _, _. split; [done|]. right. by exists shell.
    - eexists _, _. split; [done|]. by left. }
  set (shell := if is_kind kind (u "pcs") then Some (u "pcs " ++ str_of py value)
                else py_format py [(u "qm", qm_name (s_qm stack))] None (str_of py value)).
  assert ((if is_kind kind (u "pcs") then quiet (Ok (u "pcs " ++ str_of py value))
     else quiet (of_option VCrash (py_format py [(u "qm", qm_name (s_qm stack))] None (str_of py value)))) = stop_unless VCrash shell) as ->
    by (unfold shell; by destruct (is_kind kind (u "pcs"))).
  destruct (Hrest shell) as (ops & r & -> & Hr). cbn [fst snd]. eexists _, _. split; [done|]. rewrite probes_of_app, Hn. cbn [app].
  destruct Hr as [Hr|(sh & Hr1 & Hr2)]; [by left|]. right. exists cluster, sh.
  split; [done|]. split; [by apply take_one_running, Hb|]. by split.
Qed.

Lemma probe_observe_spec {FT : FloatText} py w stack d :
  ∃ ops r, probe_observe py w stack d = (ops, r) ∧
    ((probes_of ops = [] ∧ ∀ b, r = Ok b → b = false) ∨
     ∃ port, dget (s_alloc stack) (u "exporter_app_port") = Some port ∧ group_up w d OBS_GROUP ∧ probes_of ops = [observe_command] ∧
       (r = Ok true → (v_probe w observe_command).1 = 0%Z ∧ observed py port (v_probe w observe_command).2 = Some true)).
Proof.
  unfold probe_observe. destruct (dget (s_alloc stack) (u "exporter_app_port")) as [port|];
    [|by eexists _, _; split; [done|]; left; split; [|by intros b [= <-]]].
  destruct (truthy port); [|by eexists _, _; split; [done|]; left; split; [|by intros b [= <-]]].
  destruct (probe_skipped_spec (u "observe") d (hosts_of (v_topo w) OBS_GROUP)) as (notes & b & Hp & Hn & Hb & _).
  rewrite Hp, then_pair. destruct b; cbn [quiet fst snd].
  { eexists _, _. split; [done|]. left. split; [by rewrite app_nil_r|by intros ? [= <-]]. }
  unfold probe_exit, emit. rewrite then_pair. eexists _, _. split; [done|]. right. exists port.
  split_and!; [done|by apply Hb| |]; cbn [fst snd].
  - rewrite probes_of_app, Hn. cbn [app]. by destruct (negb _).
  - destruct ((v_probe w observe_command).1 =? 0)%Z eqn:Hz; cbn [negb]; [|done]. unfold stop_unless, quiet. cbn [snd].
    intros H. split; [by apply Z.eqb_eq|]. by apply of_option_Ok in H.
Qed.

(** C21. The states the phases are judged by: the status command is sent only to a cluster whose
    first host is running, and Prometheus is asked only when every host it runs on is; a queue
    manager is up only when its command was sent and exited 0, and a stack is observed only when
    a target at its exporter's port answered as up. Whatever is not probed counts as not
    satisfied. *)
Theorem probes_only_running {FT : FloatText} py w stack ops r :
  probe_all py w stack = (ops, r) →
  let d := parse_domain_states (v_domains w) in
  (∀ c, c ∈ probes_of ops →
     (∃ cluster shell, s_cluster_group stack = Some cluster ∧ first_running w d cluster ∧ cmd_argv c = shell_argv cluster shell) ∨
     (c = observe_command ∧ group_up w d OBS_GROUP)) ∧
  (∀ st, r = Ok st →
     w_domains st = d ∧ w_nets st = parse_net_states (v_nets w) ∧
     (w_qm_up st = true → ∃ cluster shell c, s_cluster_group stack = Some cluster ∧ first_running w d cluster ∧
        c ∈ probes_of ops ∧ cmd_argv c = shell_argv cluster shell ∧ (v_probe w c).1 = 0%Z) ∧
     (w_observe st = true → ∃ port, dget (s_alloc stack) (u "exporter_app_port") = Some port ∧ group_up w d OBS_GROUP ∧
        observe_command ∈ probes_of ops ∧ (v_probe w observe_command).1 = 0%Z ∧
        observed py port (v_probe w observe_command).2 = Some true)).
Proof.
  intros H d. unfold probe_all, probe_states, emit in H. rewrite !then_pair in H. fold d in H.
  destruct (probe_qm_up_spec py w stack d) as (o1 & r1 & H1 & P1). destruct (probe_observe_spec py w stack d) as (o2 & r2 & H2 & P2).
  rewrite H1, then_pair in H. destruct r1 as [qm_up|e].
  2:{ cbn [fst snd] in H. injection H as <- <-. split; [|done]. intros c Hc.
      change (c ∈ probes_of o1) in Hc. destruct P1 as [[P1 _]|(cl & sh & ? & ? & P1 & ?)]; rewrite P1 in Hc; [by apply elem_of_nil in Hc|done]. }
  rewrite H2, then_pair in H. cbn [fst snd] in H.
  assert (probes_of ops = probes_of o1 ++ probes_of o2 ∧ r = match r2 with Ok b => Ok (build_states (parse_net_states (v_nets w)) d qm_up b) | Err e => Err e end)
    as [-> ->].
  { destruct r2; cbn [quiet fst snd] in H; injection H as <- <-; (split; [|done]);
      rewrite ?app_nil_r; exact (probes_of_app o1 o2). }
  split.
  - intros c [Hc|Hc]%elem_of_app.
    + left. destruct P1 as [[P1 _]|(cl & sh & ? & ? & P1 & ?)]; rewrite P1 in Hc; [by apply elem_of_nil in Hc|].
      apply list_elem_of_singleton in Hc as ->. by exists cl, sh.
    + right. destruct P2 as [[P2 _]|(port & ? & ? & P2 & ?)]; rewrite P2 in Hc; [by apply elem_of_nil in Hc|].
      by apply list_elem_of_singleton in Hc as ->.
  - intros st Hst. destruct r2 as [b|]; [|done]. injection Hst as <-. cbn. split_and!; [done|done| |].
    + intros ->. destruct P1 as [[_ P1]|(cl & sh & ? & ? & P1 & [= Hz])]; [by specialize (P1 _ eq_refl)|].
      exists cl, sh. eexists. split; [done|]. split; [done|]. split; [rewrite P1; apply elem_of_app; left; by apply list_elem_of_singleton|].
      split; [done|]. symmetry in Hz. by apply Z.eqb_eq in Hz.
    + intros ->. destruct P2 as [[_ P2]|(port & ? & ? & P2 & Hobs)]; [by specialize (P2 _ eq_refl)|].
      destruct (Hobs eq_refl) as [??]. exists port. split_and!; try done. rewrite P2. apply elem_of_app. right. by apply list_elem_of_singleton.
Qed.

(** ** A lab of one stack *)

Definition demo_py : PyLang := mk_lang (λ _, []) (λ s, s) (λ _, None) (λ _, false) (λ _ _, None).

Definition demo_cmd (kind value : string) : pyval := PyDict [(PyStr (u kind), PyStr (u value))].

Definition demo_nodes : list (text * NodeSpec) :=
  [(u "rdqm-a1", demo_host "10.50.0.21"); (u "rdqm-b1", demo_host "10.50.0.31"); (u "obs", demo_host "10.50.0.2")].

Definition demo_verbs : Topo :=
  mk_topo demo_nodes
    [(u "rdqm_a", [u "rdqm-a1"]); (u "rdqm_b", [u "rdqm-b1"]); (u "obs_box", [u "obs"])]
    [(u "rdqm-rhel",
      mk_cfg (Some (u "rdqm")) (Some (u "rhel")) (Some (u "RDQM"))
        [(u "qm-status", demo_cmd "cmd" "/opt/mqm/bin/rdqmstatus -m {qm}");
         (u "qm-reload", demo_cmd "playbook" "site-qm-reload.yml");
         (u "dr-cutover", PyDict [(PyStr (u "script"), PyStr (u "rdqm-dr-cutover.sh")); (PyStr (u "rpo0"), PyBool true)]);
         (u "dr-failback", demo_cmd "script" "rdqm-dr-cutover.sh")]
        (Some (u "rdqm_a")) [u "rdqm_a"; u "rdqm_b"] [u "rdqm_b"] [(u "vip", u "10.20.0.100")] None []
        [(u "exporter_app_port", PyInt 9157)])]
    [u "obs_box"] (Some (u "SVC"), Some (u "svc(1414)")) None (None, None) None.

Definition demo_listing : text :=
  str_join newline [u " 1  lab_rdqm-a1  running"; u " 2  lab_obs  running"; u " -  lab_rdqm-b1  shut off"].

Definition demo_page : text :=
  enc None 0 (JObj [(u "data", JObj [(u "activeTargets",
    JArr [JObj [(u "scrapeUrl", JStr (u "http://10.50.0.21:9157/metrics")); (u "health", JStr (u "up"))]])])]).

Definition demo_recorded : store := (write_record [] true (mk_record (u "rdqm-rhel") (mk_ref (u "rhel") 9) None (u "2026-10-14"))).2.

(** Site A and the observability guest are up, site B is not; commands exit as listed. *)
Definition demo_verb_world (records : store) (codes : list Z) : VerbWorld :=
  mk_verb_world (u "/lab") demo_verbs records (Some demo_listing) demo_listing [] (λ _, (0%Z, [])) (u "/state/mqweb")
    (λ c, (0%Z, if bool_decide (head (cmd_argv c) = Some (u "curl")) then [demo_page] else []))
    (λ path, Err (CannotRead path)) (Ok ()) (u "/state/vagrant") demo_pow (demo_attempt <$> codes).

Lemma demo_unrecorded : unrecorded (demo_verb_world [] [0%Z]) (u "rdqm-rhel").
Proof. by vm_compute. Qed.

Lemma verbs_need_record_witness :
  stack_live demo_verbs (Some demo_listing) (u "rdqm-rhel") = Ok true ∧
  commands_of (run_request demo_py (demo_verb_world [] [0%Z]) (u "rdqm-rhel") (Dr Failback false)).1 = [].
Proof. split; [by vm_compute|]. apply verbs_need_record, demo_unrecorded. Defined.

(** A drilled cutover runs the script with the drill asked for; a drilled failback, whose verb
    does not declare it, does not run. *)
Lemma dr_honours_drill_witness :
  (∃ stack kind value, dr_impl demo_py stack (u "cutover") = Ok (kind, value, true) ∧
     commands_of (dr demo_py (demo_verb_world demo_recorded [0%Z]) Cutover (u "rdqm-rhel") true).1 =
       [dr_command (demo_verb_world demo_recorded [0%Z]) stack kind value (u "a2b") true]) ∧
  dr demo_py (demo_verb_world demo_recorded [0%Z]) Failback (u "rdqm-rhel") true = ([], Err (VExit 2)).
Proof.
  split; [|by vm_compute].
  destruct (dr demo_py (demo_verb_world demo_recorded [0%Z]) Cutover (u "rdqm-rhel") true) as [ops r] eqn:H.
  assert (r = Ok ()) as -> by (vm_compute in H; injection H as <- <-; reflexivity).
  destruct (dr_honours_drill _ _ _ _ _ _ _ H) as [_ Hd].
  destruct (Hd (or_intror eq_refl)) as (stack & kind & value & rpo0 & inv & gate & run & _ & Hi & Hr & _ & _ & _ & _ & Hc & _).
  exists stack, kind, value. by rewrite (Hr eq_refl) in Hi.
Defined.

(** Site B is down: only site A is searched. *)
Lemma reload_searches_running_witness :
  ∃ stack value, commands_of (qm_reload_run demo_py (demo_verb_world demo_recorded [4%Z]) (u "rdqm-rhel") 300).1 =
      [mk_command (reload_argv stack value (u "rdqm_a") 300) (Some (u "/lab/ansible")) None] ∧
    (qm_reload_run demo_py (demo_verb_world demo_recorded [4%Z]) (u "rdqm-rhel") 300).2 = Err (VExit 4).
Proof.
  destruct (qm_reload_run demo_py (demo_verb_world demo_recorded [4%Z]) (u "rdqm-rhel") 300) as [ops r] eqn:H.
  assert (commands_of ops ≠ []) as Hne by (vm_compute in H; injection H as <- <-; by vm_compute).
  destruct (reload_searches_running _ _ _ _ _ _ H (or_introl Hne)) as
    (stack & impl & value & cluster & (stacks & Hs & Hd) & _ & _ & Hcl & _ & _ & Hrun).
  destruct Hrun as (_ & _ & Hc & _ & Hr). exists stack, (str_of demo_py value). cbn [fst snd]. split; [|exact Hr]. rewrite Hc.
  vm_compute in Hs. injection Hs as <-. vm_compute in Hd. injection Hd as <-. cbn in Hcl. injection Hcl as <-.
  vm_compute. exact eq_refl.
Defined.

(** The queue manager answered its status command and its exporter is a target that is up. *)
Lemma probes_only_running_witness :
  ∃ stack st, stack_named (demo_verb_world demo_recorded []) (u "rdqm-rhel") stack ∧
    (probe_all demo_py (demo_verb_world demo_recorded []) stack).2 = Ok st ∧ w_qm_up st = true ∧ w_observe st = true ∧
    ∃ cluster, s_cluster_group stack = Some cluster ∧
      first_running (demo_verb_world demo_recorded []) (parse_domain_states demo_listing) cluster.
Proof.
  destruct (lab_stacks demo_verbs) as [stacks|e] eqn:Hs; [|by vm_compute in Hs].
  destruct (dget stacks (u "rdqm-rhel")) as [stack|] eqn:Hd; [|vm_compute in Hs; injection Hs as <-; by vm_compute in Hd].
  destruct (probe_all demo_py (demo_verb_world demo_recorded []) stack) as [ops r] eqn:H.
  assert (∃ st, r = Ok st ∧ w_qm_up st = true ∧ w_observe st = true) as (st & -> & Hup & Hobs).
  { vm_compute in Hs. injection Hs as <-. vm_compute in Hd. injection Hd as <-. vm_compute in H. injection H as <- <-.
    eexists. split; [reflexivity|]. by split. }
  destruct (proj2 (probes_only_running _ _ _ _ _ H) st eq_refl) as (_ & _ & Hqm & _).
  destruct (Hqm Hup) as (cluster & sh & c & Hc & Hf & _). exists stack, st. split; [by exists stacks|].
  rewrite H. split; [done|]. split; [done|]. split; [done|]. by exists cluster.
Defined.
