(* ===== verification/GuestBoxes.v ===== *)
(** * The boxes the guests boot

    Models what cli.py does about boxes before a `vagrant up`: the selection of the box verbs,
    the boxes and DVDs a set of guests needs, the MQ boxes of a stack, and the reconciliation
    of Vagrant's per-machine box_meta with the resolved topology. Vagrant's machine directories
    are a state; what building a box, staging a DVD and removing a directory give are inputs. *)

From S2P Require Import Prelude Trace PyText PyCodec PyDict PyFloat PyJson JsonRoundTrip Hostfacts Versions VersionsLoad.
From S2P Require Import Stacks Orchestrator Phases Sequencer BoxClean.

Open Scope trace_scope.

(** An exit code, or an exception nothing catches. *)
Inductive box_stop := BoxExit (code : Z) | BoxCrash.

(** ** The selection of the box verbs *)

(** [_select_boxes]: [None] and the empty list name no box. *)
Definition select_boxes (fleet : list text) (names : option (list text)) (all : bool) : res box_stop (list text) :=
  if all then Ok fleet
  else match names with
       | None | Some [] => Err (BoxExit 2)
       | Some names =>
           if bool_decide (filter (λ n, n ∉ fleet) names = []) then Ok names else Err (BoxExit 2)
       end.

(** What a verb was given; [BuildConfig] is a [--config] file with the boxes it needs or the
    error that refuses it. *)
Inductive box_verb :=
  | BoxBuild (names : option (list text)) (all : bool) (config : option (option (list text)))
  | BoxRebuild (names : option (list text)) (all : bool)
  | BoxCleanV (names : option (list text)) (all yes : bool).

(** The function of box.py the verb calls. *)
Inductive box_call := CallBuild (names : list text) (force : bool) | CallClean (names : list text).

(** [box_build], [box_rebuild] and [box_clean], with [_config_boxes]. *)
Definition box_verb_call (fleet : list text) (v : box_verb) : res box_stop box_call :=
  match v with
  | BoxBuild names all (Some config) =>
      _ ← raise_if (match names with Some (_ :: _) => true | _ => false end || all) (BoxExit 2);
      boxes ← of_option (BoxExit 2) config;
      Ok (CallBuild boxes false)
  | BoxBuild names all None => boxes ← select_boxes fleet names all; Ok (CallBuild boxes false)
  | BoxRebuild names all => boxes ← select_boxes fleet names all; Ok (CallBuild boxes true)
  | BoxCleanV names all yes =>
      _ ← raise_if (all && negb yes) (BoxExit 2);
      boxes ← select_boxes fleet names all;
      Ok (CallClean boxes)
  end.

(** ** The MQ boxes of a stack *)

Definition boxes_of (boxes : list (text * BoxEntry)) (hosts : list text) : list BoxEntry :=
  omap (dget boxes) hosts.

(** [_commons_mq_boxes] and [_stack_mq_boxes], as lists of the sets' elements. *)
Definition commons_mq_boxes (t : Topo) (boxes : list (text * BoxEntry)) : list BoxEntry :=
  let excluded := non_mq_commons_hosts t in
  List.filter be_mq_bearing (boxes_of boxes (filter (λ h, h ∉ excluded) (commons_members t))).

Definition stack_mq_boxes (t : Topo) (boxes : list (text * BoxEntry)) (stack : text) : list BoxEntry :=
  boxes_of boxes (default [] (stack_members t stack)) ++ commons_mq_boxes t boxes.

(** ** The resolved topology *)

Section nodes.
Context (nodes : list (pyval * pyval)).

(** [(nodes.get(g) or {}).get(k)]; the outer [None] is an exception. *)
Definition node_field (k g : text) : option (option pyval) := (λ spec, yget spec k) <$> or_dict (yget nodes g).

Definition hashable (v : option pyval) : bool :=
  match v with Some (PyList _) | Some (PyDict _) => false | _ => true end.

(** A set of the guests' values of a field. *)
Definition field_set (k : text) (guests : list text) : option (list (option pyval)) :=
  vs ← mapM (node_field k) guests; if forallb hashable vs then Some vs else None.

Definition is_text (n : text) (v : option pyval) : bool :=
  match v with Some (PyStr s) => bool_decide (s = n) | _ => false end.

(** [_needed_local_boxes]. *)
Definition needed_local_boxes (fleet guests : list text) : option (list text) :=
  boxes ← field_set (u "box") guests;
  Some (sorted_text (List.filter (λ n, existsb (is_text n) boxes) fleet)).

(** [Path(dvd)] of the DVDs that are set. *)
Definition dvd_paths (dvds : list (option pyval)) : option (list text) :=
  mapM (λ v, match v with Some (PyStr s) => Some s | _ => None end)
    (List.filter (λ v, match v with Some v => truthy v | None => false end) dvds).

(** [_guests_dvds]. *)
Definition guests_dvds (guests : list text) : option (list text) :=
  dvds ← field_set (u "dvd") guests;
  paths ← dvd_paths dvds;
  Some (sorted_text (path_name <$> uniq paths)).

(** ** The machines' metadata *)

(** Vagrant's machine directories, each with the content of its libvirt/box_meta. *)
Abbreviation machines := (list (text * option text)).

Inductive stale := Retired (cached : text) | Repointed (cached : text) (resolved : pyval).

Section meta.
Context {FT : FloatText}.

(** [_cached_box_name]; the outer [None] is a box_meta that is not a JSON object. *)
Definition cached_box_name (ms : machines) (g : text) : option (option text) :=
  match dget ms g with
  | Some (Some content) =>
      match loads content with
      | Ok (JObj d) => Some match dget d (u "name") with Some (JStr s) => Some s | _ => None end
      | _ => None
      end
  | _ => Some None
  end.

(** [_stale_box_meta_note]. *)
Definition stale_note (ms : machines) (g : text) : option (option stale) :=
  cached ← cached_box_name ms g;
  match cached with
  | None => Some None
  | Some cached =>
      if bool_decide (cached ∈ RETIRED_BOX_NAMES) then Some (Some (Retired cached))
      else
        resolved ← node_field (u "box") g;
        match resolved with
        | None | Some PyNone => Some None
        | Some v => Some (if is_text cached (Some v) then None else Some (Repointed cached v))
        end
  end.

(** [_stale_box_meta_guests] and [_plan_reconcile_box_meta]: the stale guests, with the reason. *)
Fixpoint stale_guests (ms : machines) (guests : list text) : option (list (text * stale)) :=
  match guests with
  | [] => Some []
  | g :: guests =>
      n ← stale_note ms g;
      rest ← stale_guests ms guests;
      Some (match n with Some n => (g, n) :: rest | None => rest end)
  end.
End meta.
End nodes.
Abbreviation machines := (list (text * option text)).

(** ** The reconciliation and the ensure *)

Inductive box_act := StaleNote (g : text) (why : stale) | Forget (g : text) | BuildBoxes (names : list text) | StageDvd (iso : text).

(** The exit code of `rm -rf` on a machine directory with what is left of it; whether the
    terminal can pause a stepped run; and how building and staging end. *)
Record BoxWorld := mk_box_world {
    bw_rm : text → Z * option (option text); bw_tty : bool;
    bw_build : list text → res box_stop (); bw_stage : text → Z
  }.

Section ensure.
Context {FT : FloatText} (w : BoxWorld) (fleet : list text) (nodes : list (pyval * pyval)).

Definition left_of (ms : machines) (g : text) : machines :=
  match (bw_rm w g).2 with Some meta => dset ms g meta | None => dpop ms g end.

(** The run of the [forget] steps: it halts at the first that fails, and a stepped run pauses
    between two of them. *)
Fixpoint forget_steps (step : bool) (ms : machines) (gs : list text) : list box_act * machines * res box_stop () :=
  match gs with
  | [] => ([], ms, Ok ())
  | g :: gs =>
      let ms := left_of ms g in
      let code := (bw_rm w g).1 in
      if negb (code =? 0)%Z then ([Forget g], ms, Err (BoxExit code))
      else if step && negb (bw_tty w) && negb (bool_decide (gs = [])) then ([Forget g], ms, Err (BoxExit 2))
      else let '(ops, ms, r) := forget_steps step ms gs in (Forget g :: ops, ms, r)
  end.

(** [_reconcile_box_meta]. *)
Definition reconcile_box_meta (step : bool) (ms : machines) (guests : list text) : list box_act * machines * res box_stop () :=
  match stale_guests nodes ms guests with
  | None => ([], ms, Err BoxCrash)
  | Some stale =>
      let '(ops, ms, r) := forget_steps step ms stale.*1 in
      (((λ gn, StaleNote gn.1 gn.2) <$> stale) ++ ops, ms, r)
  end.

(** [_stage_rhel_dvd]. *)
Definition stage_rhel_dvd (isos : list text) : traced box_act box_stop () :=
  each (λ iso, emit (StageDvd iso) (if (bw_stage w iso =? 0)%Z then Ok () else Err (BoxExit (bw_stage w iso)))) isos.

(** [_ensure_local_boxes]. *)
Definition ensure_local_boxes (guests : list text) : traced box_act box_stop () :=
  let* needed := quiet (of_option BoxCrash (needed_local_boxes nodes fleet guests)) in
  let* _ := (match needed with [] => quiet (Ok ()) | _ => emit (BuildBoxes needed) (bw_build w needed) end) in
  let* dvds := quiet (of_option BoxCrash (guests_dvds nodes guests)) in
  stage_rhel_dvd dvds.

(** [_ensure_boxes]. *)
Definition ensure_boxes (step : bool) (ms : machines) (guests : list text) : list box_act * machines * res box_stop () :=
  let '(ops, ms, r) := reconcile_box_meta step ms guests in
  match r with
  | Err e => (ops, ms, Err e)
  | Ok _ => let m := ensure_local_boxes guests in (ops ++ m.1, ms, m.2)
  end.
End ensure.

(** ** What the reconciliation does *)

Section spec.
Context {FT : FloatText} (w : BoxWorld) (fleet : list text) (nodes : list (pyval * pyval)).

(** `rm -rf` of a directory that succeeds leaves none of it. *)
Definition rm_removes : Prop := ∀ g, (bw_rm w g).1 = 0%Z → (bw_rm w g).2 = None.

Lemma stale_guests_spec ms guests l :
  stale_guests nodes ms guests = Some l →
  (∀ g why, (g, why) ∈ l ↔ g ∈ guests ∧ stale_note nodes ms g = Some (Some why)) ∧
  ∀ g, g ∈ guests → is_Some (stale_note nodes ms g).
Proof.
  revert l. induction guests as [|g guests IH]; cbn [stale_guests].
  { intros l [= <-]. split; [|by intros g ?%elem_of_nil]. intros g why. split; [by intros ?%elem_of_nil|by intros [?%elem_of_nil _]]. }
  intros l H. destruct (stale_note nodes ms g) as [n|] eqn:Hn; [|done]. cbn [mbind option_bind] in H.
  destruct (stale_guests nodes ms guests) as [rest|]; [|done]. cbn [mbind option_bind] in H.
  destruct (IH rest eq_refl) as [Hrest Hall]. injection H as <-. split.
  - intros g' why. rewrite (elem_of_cons guests). destruct n as [n|]; [rewrite (elem_of_cons rest)|]; rewrite Hrest.
    + split; [intros [[= -> ->]|[? ?]]; naive_solver|]. intros [[->|?] Hs]; [left; congruence|by right].
    + split; [naive_solver|]. intros [[->|?] Hs]; [congruence|done].
  - intros g' [->|Hg]%elem_of_cons; [by exists n|by apply Hall].
Qed.

Lemma stale_guests_fst ms guests l g :
  stale_guests nodes ms guests = Some l → g ∈ l.*1 ↔ g ∈ guests ∧ ∃ why, stale_note nodes ms g = Some (Some why).
Proof.
  intros [H _]%stale_guests_spec. rewrite list_elem_of_fmap. split.
  - intros ([g' why] & -> & Hin). apply H in Hin as [? ?]. split; [done|by exists why].
  - intros [Hg [why Hw]]. exists (g, why). split; [done|]. by apply H.
Qed.

Lemma left_of_other ms g g' : g ≠ g' → dget (left_of w ms g) g' = dget ms g'.
Proof.
  intros Hne. unfold left_of. destruct (bw_rm w g).2 as [meta|]; [rewrite dget_dset|rewrite dget_dpop]; by rewrite decide_False.
Qed.

Lemma forget_steps_spec step gs : ∀ ms ops ms' r,
  forget_steps w step ms gs = (ops, ms', r) →
  (∃ forgotten, ops = Forget <$> forgotten ∧ forgotten `prefix_of` gs ∧
     (∀ g, g ∉ forgotten → dget ms' g = dget ms g) ∧ (r = Ok () → forgotten = gs)) ∧
  (rm_removes → r = Ok () → ∀ g, g ∈ gs → dget ms' g = None).
Proof.
  induction gs as [|g gs IH]; intros ms ops ms' r; cbn [forget_steps].
  { intros [= <- <- <-]. split; [by exists []|]. by intros _ _ g ?%elem_of_nil. }
  destruct ((bw_rm w g).1 =? 0)%Z eqn:Hc; cbn [negb].
  - case_match.
    + intros [= <- <- <-]. split; [|done]. exists [g]. split_and!; [done|by exists gs| |done].
      intros g' Hg'. apply left_of_other. intros ->. apply Hg'. by left.
    + destruct (forget_steps w step (left_of w ms g) gs) as [[ops0 ms0] r0] eqn:Hf. intros [= <- <- <-].
      destruct (IH _ _ _ _ Hf) as [(forgotten & -> & Hp & Hsame & Hok) Hgone]. split.
      * exists (g :: forgotten). split_and!; [done|by apply prefix_cons| |by intros ->%Hok].
        intros g' [Hne Hn]%not_elem_of_cons. rewrite Hsame by done. by apply left_of_other.
      * intros Hrm Hr g' [->|Hin]%elem_of_cons; [|by apply Hgone].
        destruct (decide (g ∈ gs)) as [Hin|Hn]; [by apply Hgone|]. rewrite (Hsame g) by (rewrite (Hok Hr); done).
        unfold left_of. rewrite Hrm by (by apply Z.eqb_eq). rewrite dget_dpop. by rewrite decide_True.
  - intros [= <- <- <-]. split; [|done]. exists [g]. split_and!; [done|by exists gs| |done].
    intros g' Hg'. apply left_of_other. intros ->. apply Hg'. by left.
Qed.

(** The box Vagrant has on record for a guest is not a retired one, and is the one the
    topology resolves the guest to. *)
Definition settled (ms : list (text * option text)) (g : text) : Prop :=
  ∃ cached, cached_box_name ms g = Some cached ∧
    match cached with
    | None => True
    | Some b => (b ∉ RETIRED_BOX_NAMES) ∧ ∀ v, node_field nodes (u "box") g = Some (Some v) → v = PyNone ∨ v = PyStr b
    end.

Lemma is_text_spec n v : is_text n v = true ↔ v = Some (PyStr n).
Proof.
  destruct v as [[]|]; cbn [is_text]; try (split; congruence). rewrite bool_decide_eq_true. split; congruence.
Qed.

Lemma not_stale_settled ms g : stale_note nodes ms g = Some None → settled ms g.
Proof.
  unfold stale_note, settled. destruct (cached_box_name ms g) as [[b|]|]; cbn [mbind option_bind]; [|by exists None|done].
  case_bool_decide as Hr; [done|]. intros H. exists (Some b). split; [done|]. split; [done|]. intros v Hv. rewrite Hv in H.
  cbn [mbind option_bind] in H. destruct (is_text b (Some v)) eqn:Ht; [right; apply is_text_spec in Ht; congruence|].
  destruct v; try done. by left.
Qed.

Lemma settled_same ms ms' g : dget ms' g = dget ms g → settled ms g → settled ms' g.
Proof. intros H (cached & Hc & Hm). exists cached. split; [|done]. unfold cached_box_name in *. by rewrite H. Qed.

Lemma settled_gone ms g : dget ms g = None → settled ms g.
Proof. intros H. exists None. split; [|done]. unfold cached_box_name. by rewrite H. Qed.

Lemma reconcile_spec step ms guests ops ms' r :
  reconcile_box_meta w nodes step ms guests = (ops, ms', r) →
  (∀ names, BuildBoxes names ∉ ops) ∧
  (∀ g, dget ms' g ≠ dget ms g → g ∈ guests ∧ ∃ why, stale_note nodes ms g = Some (Some why)) ∧
  (rm_removes → r = Ok () → ∀ g, g ∈ guests → settled ms' g).
Proof.
  unfold reconcile_box_meta. destruct (stale_guests nodes ms guests) as [stale|] eqn:Hs.
  2:{ intros [= <- <- <-]. split_and!; [by intros names ?%elem_of_nil|by intros g []|done]. }
  destruct (forget_steps w step ms stale.*1) as [[ops0 ms0] r0] eqn:Hf. intros [= <- <- <-].
  destruct (forget_steps_spec _ _ _ _ _ _ Hf) as [(forgotten & -> & [rest Hp] & Hsame & Hok) Hgone]. split_and!.
  - intros names [Hin|Hin]%elem_of_app; apply list_elem_of_fmap in Hin as (? & ? & _); done.
  - intros g Hg. destruct (decide (g ∈ forgotten)) as [Hin|Hn]; [|by destruct (Hg (Hsame g Hn))].
    apply (stale_guests_fst _ _ _ _ Hs). rewrite Hp. apply elem_of_app. by left.
  - intros Hrm -> g Hg. destruct (decide (g ∈ stale.*1)) as [Hin|Hn]; [by apply settled_gone, Hgone|].
    apply (settled_same ms); [apply Hsame; by rewrite (Hok eq_refl)|]. apply not_stale_settled.
    destruct (proj2 (stale_guests_spec _ _ _ Hs) g Hg) as [[why|] Hw]; [|done]. destruct Hn.
    apply (stale_guests_fst _ _ _ _ Hs). split; [done|by exists why].
Qed.

Lemma field_set_elem k guests vs g v :
  field_set nodes k guests = Some vs → g ∈ guests → node_field nodes k g = Some v → v ∈ vs.
Proof.
  unfold field_set. destruct (mapM (node_field nodes k) guests) as [l|] eqn:Hm; [|done]. cbn [mbind option_bind].
  destruct (forallb hashable l); [|done]. intros [= <-] Hg Hv. apply mapM_Some in Hm.
  apply list_elem_of_lookup in Hg as [i Hi]. destruct (Forall2_lookup_l _ _ _ _ _ Hm Hi) as (y & Hy & Hgy).
  rewrite Hv in Hgy. injection Hgy as ->. by eapply list_elem_of_lookup_2.
Qed.

Lemma field_set_image k guests vs v :
  field_set nodes k guests = Some vs → v ∈ vs → ∃ g, g ∈ guests ∧ node_field nodes k g = Some v.
Proof.
  unfold field_set. destruct (mapM (node_field nodes k) guests) as [l|] eqn:Hm; [|done]. cbn [mbind option_bind].
  destruct (forallb hashable l); [|done]. intros [= <-] Hv. apply mapM_Some in Hm.
  apply list_elem_of_lookup in Hv as [i Hi]. destruct (Forall2_lookup_r _ _ _ _ _ Hm Hi) as (g & Hg & Hgv).
  exists g. split; [by eapply list_elem_of_lookup_2|done].
Qed.

(** A box of the fleet is needed exactly when a guest resolves to it. *)
Lemma needed_exact guests needed n :
  needed_local_boxes nodes fleet guests = Some needed →
  n ∈ needed ↔ n ∈ fleet ∧ ∃ g, g ∈ guests ∧ node_field nodes (u "box") g = Some (Some (PyStr n)).
Proof.
  unfold needed_local_boxes. destruct (field_set nodes (u "box") guests) as [vs|] eqn:Hv; [|done]. cbn [mbind option_bind].
  intros [= <-]. unfold sorted_text. rewrite elem_of_isort, !list_elem_of_In, List.filter_In, <-!list_elem_of_In. f_equiv.
  rewrite List.existsb_exists. split.
  - intros (v & Hin%list_elem_of_In & ->%is_text_spec). by eapply field_set_image.
  - intros (g & Hg & Hb). exists (Some (PyStr n)). split; [apply list_elem_of_In; by eapply field_set_elem|by apply is_text_spec].
Qed.

Lemma dvds_staged guests isos g dvd :
  guests_dvds nodes guests = Some isos → g ∈ guests → node_field nodes (u "dvd") g = Some (Some (PyStr dvd)) → dvd ≠ [] →
  path_name dvd ∈ isos.
Proof.
  unfold guests_dvds. destruct (field_set nodes (u "dvd") guests) as [vs|] eqn:Hv; [|done]. cbn [mbind option_bind].
  destruct (dvd_paths vs) as [paths|] eqn:Hp; [|done]. cbn [mbind option_bind]. intros [= <-] Hg Hd Hne.
  unfold sorted_text. rewrite elem_of_isort. apply list_elem_of_fmap_2. apply elem_of_uniq.
  pose proof (field_set_elem _ _ _ _ _ Hv Hg Hd) as Hin. unfold dvd_paths in Hp. apply mapM_Some in Hp.
  set (p := λ v : option pyval, match v with Some v => truthy v | None => false end) in *.
  assert (Some (PyStr dvd) ∈ List.filter p vs) as Hf.
  { apply list_elem_of_In, List.filter_In. split; [by apply list_elem_of_In|]. unfold p, truthy. by rewrite bool_decide_eq_false_2. }
  apply list_elem_of_lookup in Hf as [i Hi]. destruct (Forall2_lookup_l _ _ _ _ _ Hp Hi) as (y & Hy & [= <-]).
  by eapply list_elem_of_lookup_2.
Qed.

Lemma ensure_local_spec guests :
  (∀ names, BuildBoxes names ∈ (ensure_local_boxes w fleet nodes guests).1 → needed_local_boxes nodes fleet guests = Some names) ∧
  ((ensure_local_boxes w fleet nodes guests).2 = Ok () →
   ∃ needed isos, needed_local_boxes nodes fleet guests = Some needed ∧ guests_dvds nodes guests = Some isos ∧
     (needed ≠ [] → BuildBoxes needed ∈ (ensure_local_boxes w fleet nodes guests).1 ∧ bw_build w needed = Ok ()) ∧
     ∀ iso, iso ∈ isos → StageDvd iso ∈ (ensure_local_boxes w fleet nodes guests).1 ∧ bw_stage w iso = 0%Z).
Proof.
  unfold ensure_local_boxes. destruct (needed_local_boxes nodes fleet guests) as [needed|]; cbn [of_option];
    [|split; [by intros names ?%elem_of_nil|done]].
  set (k := λ _ : (), then_ (quiet (of_option BoxCrash (guests_dvds nodes guests))) (stage_rhel_dvd w)).
  set (b := match needed with [] => quiet (Ok ()) | _ => emit (BuildBoxes needed) (bw_build w needed) end).
  assert (∀ {A B} (x : A) (f : A → traced box_act box_stop B), then_ (quiet (Ok x)) f = f x) as Hq
    by (intros A B x f; unfold then_, quiet; cbn; by destruct (f x)).
  rewrite Hq. change (then_ b (λ _, _)) with (then_ b k).
  assert (∀ iso, BuildBoxes iso ∉ (k ()).1) as Hk.
  { intros names Hin. unfold k in Hin. apply elem_of_then in Hin as [Hin|(isos & _ & Hin)]; [by apply elem_of_nil in Hin|].
    apply elem_of_each in Hin as (iso & _ & Hin). by apply list_elem_of_singleton in Hin. }
  split.
  - intros names [Hin|([] & _ & Hin)]%elem_of_then; [|by destruct (Hk names)]. unfold b in Hin.
    destruct needed as [|n needed]; [by apply elem_of_nil in Hin|]. apply list_elem_of_singleton in Hin. congruence.
  - intros ([] & Hb & Hks)%then_Ok. unfold k in Hks. apply then_Ok in Hks as (isos & Hi & Hst). cbn [quiet snd] in Hi.
    apply of_option_Ok in Hi. exists needed, isos. split_and!; [done|done| |].
    + intros Hne. split; [|by unfold b in Hb; destruct needed]. apply elem_of_then. left. unfold b.
      destruct needed; [done|]. by apply list_elem_of_singleton.
    + intros iso Hin. destruct (each_Ok _ _ Hst) as [Ht Hall]. split.
      * apply elem_of_then. right. exists (). split; [done|]. unfold k. rewrite Hi. cbn [of_option]. rewrite Hq. unfold stage_rhel_dvd.
        rewrite Ht. apply list_elem_of_bind. exists iso. split; [by apply list_elem_of_singleton|done].
      * specialize (Hall _ Hin). cbn [emit snd] in Hall. by destruct (Z.eqb_spec (bw_stage w iso) 0).
Qed.

(** C22. Before a `vagrant up`, every guest is made to boot the box the topology resolves it to:
    when the ensure succeeds, the box on record for a guest is neither retired nor another
    one, every box of the fleet that a guest boots has been built and its DVD staged; nothing
    that no guest needs is built, and however it ends only the directories of guests whose
    record was stale are touched. *)
Theorem ensure_boots_resolved step ms guests ops ms' r :
  ensure_boxes w fleet nodes step ms guests = (ops, ms', r) →
  (∀ g, dget ms' g ≠ dget ms g → g ∈ guests ∧ ∃ why, stale_note nodes ms g = Some (Some why)) ∧
  (∀ names n, BuildBoxes names ∈ ops → n ∈ names → n ∈ fleet ∧ ∃ g, g ∈ guests ∧ node_field nodes (u "box") g = Some (Some (PyStr n))) ∧
  (rm_removes → r = Ok () → ∀ g, g ∈ guests →
     settled ms' g ∧
     (∀ n, node_field nodes (u "box") g = Some (Some (PyStr n)) → n ∈ fleet →
        ∃ names, n ∈ names ∧ BuildBoxes names ∈ ops ∧ bw_build w names = Ok ()) ∧
     (∀ dvd, node_field nodes (u "dvd") g = Some (Some (PyStr dvd)) → dvd ≠ [] →
        StageDvd (path_name dvd) ∈ ops ∧ bw_stage w (path_name dvd) = 0%Z)).
Proof.
  unfold ensure_boxes. destruct (reconcile_box_meta w nodes step ms guests) as [[ops0 ms0] r0] eqn:Hr.
  destruct (reconcile_spec _ _ _ _ _ _ Hr) as (Hnb & Hch & Hset). destruct (ensure_local_spec guests) as [Hbuilt Hok].
  intros H. assert (ms' = ms0 ∧ ∀ names, BuildBoxes names ∈ ops → needed_local_boxes nodes fleet guests = Some names) as [-> Hops].
  { destruct r0 as [[]|e]; injection H as <- <- <-; (split; [done|]); intros names Hin; [|by destruct (Hnb names)].
    apply elem_of_app in Hin as [Hin|Hin]; [by destruct (Hnb names)|by apply Hbuilt]. }
  split_and!; [done| |].
  - intros names n Hin Hn. by apply (needed_exact _ _ _ (Hops names Hin)).
  - intros Hrm -> g Hg. destruct r0 as [[]|e]; [|by simplify_eq]. injection H as <- Hres.
    destruct (Hok Hres) as (needed & isos & Hne & Hdv & Hbuild & Hstage). split_and!; [by apply Hset| |].
    + intros n Hn Hf. assert (n ∈ needed) as Hin by (apply (needed_exact _ _ _ Hne); split; [done|by exists g]).
      destruct Hbuild as [Hb Hbw]; [by destruct needed; [apply elem_of_nil in Hin|]|]. exists needed. split_and!; [done| |done].
      apply elem_of_app. by right.
    + intros dvd Hd Hnil. destruct (Hstage _ (dvds_staged _ _ _ _ Hdv Hg Hd Hnil)) as [Hs Hz]. split; [|done].
      apply elem_of_app. by right.
Qed.
End spec.

(** ** The selection *)

(** A box verb acts only on boxes of the fleet, named one by one or all of them asked for, and
    cleans all of them only when that was confirmed; what a build file needs excludes names. *)
Theorem box_selection_exact fleet v :
  match box_verb_call fleet v with
  | Ok (CallClean names) => ∃ given all yes, v = BoxCleanV given all yes ∧ (all = true → yes = true) ∧
      (if all then names = fleet else given = Some names ∧ names ≠ [] ∧ ∀ n, n ∈ names → n ∈ fleet)
  | Ok (CallBuild names force) =>
      (∃ given, v = BoxBuild given false (Some (Some names)) ∧ (given = None ∨ given = Some []) ∧ force = false) ∨
      ∃ given all, (v = BoxBuild given all None ∧ force = false ∨ v = BoxRebuild given all ∧ force = true) ∧
        (if all : bool then names = fleet else given = Some names ∧ names ≠ [] ∧ ∀ n, n ∈ names → n ∈ fleet)
  | Err e => e = BoxExit 2
  end.
Proof.
  assert (∀ given all, match select_boxes fleet given all with
    | Ok names => if all : bool then names = fleet else given = Some names ∧ names ≠ [] ∧ ∀ n, n ∈ names → n ∈ fleet
    | Err e => e = BoxExit 2 end) as Hs.
  { intros given []; [done|]. unfold select_boxes. destruct given as [[|n names]|]; try done. case_bool_decide as Hf; [|done].
    split_and!; [done|done|]. intros m Hm. destruct (decide (m ∈ fleet)) as [|Hn]; [done|].
    assert (m ∈ filter (λ n, n ∉ fleet) (n :: names)) as Hin by (by apply list_elem_of_filter). rewrite Hf in Hin. by apply elem_of_nil in Hin. }
  destruct v as [given all [[boxes|]|]|given all|given all yes]; cbn [box_verb_call].
  - destruct given as [[|]|], all; cbn; try done; left; eexists; split_and!; eauto.
  - destruct given as [[|]|], all; done.
  - specialize (Hs given all). destruct (select_boxes fleet given all) as [names|e]; cbn; [|done]. right. exists given, all. split; [by left|done].
  - specialize (Hs given all). destruct (select_boxes fleet given all) as [names|e]; cbn; [|done]. right. exists given, all. split; [by right|done].
  - destruct (all && negb yes) eqn:Hy; [done|]. cbn [raise_if mbind res_bind].
    specialize (Hs given all). destruct (select_boxes fleet given all) as [names|e]; cbn; [|done].
    exists given, all, yes. split_and!; [done|by destruct all, yes|done].
Qed.

(** ** A lab with a repointed guest *)

Definition demo_nodes : list (pyval * pyval) :=
  [(PyStr (u "mq-a1"), PyDict [(PyStr (u "box"), PyStr (u "mq-rhel9")); (PyStr (u "dvd"), PyStr (u "/iso/rhel-9.6-x86_64-dvd.iso"))]);
   (PyStr (u "obs"), PyDict [(PyStr (u "box"), PyStr (u "obs-ubuntu24"))])].

Definition demo_meta (name : string) : option text := Some (enc None 0 (JObj [(u "name", JStr (u name))])).

(** One guest was first created from the base box, the other one from the box it has. *)
Definition demo_machines : list (text * option text) := [(u "mq-a1", demo_meta "rhel/9-x86_64"); (u "obs", demo_meta "obs-ubuntu24")].

Definition demo_box_world : BoxWorld := mk_box_world (λ _, (0%Z, None)) true (λ _, Ok ()) (λ _, 0%Z).

Lemma ensure_boots_resolved_witness :
  ∃ ops, ensure_boxes demo_box_world [u "mq-rhel9"; u "obs-ubuntu24"; u "infra-ubuntu24"] demo_nodes false demo_machines [u "mq-a1"; u "obs"] =
    (ops, [(u "obs", demo_meta "obs-ubuntu24")], Ok ()) ∧
    settled demo_nodes [(u "obs", demo_meta "obs-ubuntu24")] (u "mq-a1") ∧ StageDvd (u "rhel-9.6-x86_64-dvd.iso") ∈ ops.
Proof.
  destruct (ensure_boxes demo_box_world [u "mq-rhel9"; u "obs-ubuntu24"; u "infra-ubuntu24"] demo_nodes false demo_machines [u "mq-a1"; u "obs"])
    as [[ops ms] r] eqn:H.
  assert (ms = [(u "obs", demo_meta "obs-ubuntu24")] ∧ r = Ok ()) as [-> ->] by (vm_compute in H; injection H as <- <- <-; by vm_compute).
  destruct (ensure_boots_resolved _ _ _ _ _ _ _ _ _ H) as (_ & _ & Hok).
  destruct (Hok ltac:(done) eq_refl (u "mq-a1") ltac:(by left)) as (Hs & _ & Hd). exists ops. split; [done|]. split; [done|].
  apply (Hd (u "/iso/rhel-9.6-x86_64-dvd.iso")); [by vm_compute|done].
Defined.
