(* ===== verification/Tools.v ===== *)
(** * The helper tools

    Models tools/ibm_doc_cache.py (where a page of the IBM documentation is cached, and the
    fetch of a list of pages), tools/release_version_guard.py, mqlab/mqexporter.py and
    mqlab/venvsync.py. What urllib, the HTML parser, git, the container and uv answer are
    inputs. *)

From S2P Require Import Prelude Trace PyText PyCodec PyDict Phases.

Open Scope trace_scope.

(** ** tools/ibm_doc_cache.py *)

Definition lower_az (c : N) : bool := ((97 <=? c) && (c <=? 122))%N.
Definition upper_az (c : N) : bool := ((65 <=? c) && (c <=? 90))%N.
Definition digit_09 (c : N) : bool := ((48 <=? c) && (c <=? 57))%N.

(** [$] of [re.match]: the end of the text, or a newline that ends it. *)
Definition at_end (s : text) : bool := match s with [] => true | [c] => (c =? 10)%N | _ => false end.

(** [_LANG]. *)
Definition is_lang (s : text) : bool :=
  match s with
  | a :: b :: r =>
      lower_az a && lower_az b &&
      (at_end r || match r with 45%N :: c :: d :: r => lower_az c && lower_az d && at_end r | _ => false end)
  | _ => false
  end.

(** [_OLD_PREFIX]: the product code and the version. *)
Definition old_prefix (s : text) : option (text * text) :=
  if startswith s (u "SS") then
    let '(code, r) := span (λ c, upper_az c || digit_09 c) (drop 2 s) in
    if bool_decide (code = []) then None
    else match r with
         | 95%N :: d :: r =>
             if re_digit d then
               let '(v, r) := span (λ c, digit_09 c || upper_az c || lower_az c || (c =? 46)%N) r in
               if at_end r then Some (u "SS" ++ code, d :: v) else None
             else None
         | _ => None
         end
  else None.

Definition alnum_az (c : N) : bool := upper_az c || lower_az c || digit_09 c.
Definition segment_char (c : N) : bool := alnum_az c || bool_decide (c ∈ u "._-").

(** [_SAFE_SEGMENT]. *)
Definition safe_segment (s : text) : bool :=
  match s with c :: s => alnum_az c && at_end (span segment_char s).2 | [] => false end.

(** A newline at the end of a segment passes: [$] matches before it. *)
Lemma safe_segment_newline : safe_segment (u "abc" ++ [10%N]) = true.
Proof. done. Qed.

(** What urlparse gives of a URL, and parse_qs of its query: the topics. *)
Record DocUrl := mk_doc_url {
    du_scheme : text; du_host : option text; du_path : text; du_topics : list text
  }.

Inductive DocError :=
  | NotIbm | NotDocs | NoPage | NoTopic | UnknownShape | UnsafeSegment (s : text)
  | NoContentPath | FetchFailed.

Definition doc_shape (du : DocUrl) (rest : list text) : res DocError (text * text * text) :=
  match head rest ≫= old_prefix with
  | Some (product, version) =>
      match tail rest with
      | [] => Err NoPage
      | page => let slug := str_join (u "-") page in Ok (product, version, default slug (strip_suffix (u ".html") slug))
      end
  | None =>
      match rest with
      | [lang; product; version] =>
          if is_lang lang then
            match du_topics du with
            | ((_ :: _) as slug) :: _ => Ok (product, version, slug)
            | _ => Err NoTopic
            end
          else Err UnknownShape
      | _ => Err UnknownShape
      end
  end.

(** [_coords]: the product, the version and the slug. *)
Definition coords (du : DocUrl) : res DocError (text * text * text) :=
  _ ← raise_if (negb (bool_decide (du_scheme du = u "https") && bool_decide (du_host du ∈ [Some (u "www.ibm.com"); Some (u "ibm.com")]))) NotIbm;
  match filter (λ s, s ≠ []) (split_on 47 (du_path du)) with
  | seg :: rest =>
      _ ← raise_if (negb (bool_decide (seg = u "docs"))) NotDocs;
      let rest := match rest with
                  | lang :: p :: _ => if is_lang lang && bool_decide (is_Some (old_prefix p)) then tail rest else rest
                  | _ => rest
                  end in
      pvs ← doc_shape du rest;
      _ ← res_mapM (λ s, raise_if (negb (safe_segment s)) (UnsafeSegment s)) [pvs.1.1; pvs.1.2; pvs.2];
      Ok pvs
  | [] => Err NotDocs
  end.

(** [m.group(1)] of [re.search] for a field of the page: ["<name>":"<value>"], the value not
    empty and, for a content path, a name that ends with .html. *)
Fixpoint json_field (ok : text → bool) (key : text) (s : text) : option text :=
  match (if startswith s key then
           match span (λ c, negb (c =? 34)%N) (drop (length key) s) with
           | (v, 34%N :: _) => if ok v then Some v else None
           | _ => None
           end
         else None) with
  | Some v => Some v
  | None => match s with [] => None | _ :: s => json_field ok key s end
  end.

Definition Q : text := [34%N].
Definition content_path (v : text) : bool := endswith v (u ".html") && (5 <? length v).
Definition old_url_of (page : text) : option text := json_field content_path (Q ++ u "oldUrl" ++ Q ++ u ":" ++ Q) page.
Definition title_of (page : text) : text :=
  default [] (json_field (λ v, negb (bool_decide (v = []))) (Q ++ u "title" ++ Q ++ u ":" ++ Q) page).

(** _TextExtractor, over the events of the parser: [es_skip] counts the open scripts and
    styles. *)
Inductive html_event := StartTag (tag : text) | EndTag (tag : text) | Data (s : text).
Record Extractor := mk_extractor { es_skip : nat; es_out : list text }.

Definition hidden (tag : text) : bool := bool_decide (tag ∈ [u "script"; u "style"]).
Definition BLOCKS : list text :=
  [u "p"; u "div"; u "li"; u "tr"; u "br"; u "h1"; u "h2"; u "h3"; u "h4"; u "pre"; u "table"].

Definition handle (x : Extractor) (e : html_event) : Extractor :=
  match e with
  | StartTag tag =>
      if hidden tag then mk_extractor (S (es_skip x)) (es_out x)
      else if bool_decide (tag ∈ BLOCKS) then mk_extractor (es_skip x) (es_out x ++ [[10%N]]) else x
  | EndTag tag => if hidden tag && (0 <? es_skip x) then mk_extractor (es_skip x - 1) (es_out x) else x
  | Data s => if (es_skip x =? 0) && negb (bool_decide (strip s = [])) then mk_extractor (es_skip x) (es_out x ++ [s]) else x
  end.

(** [re.sub(r"[ \t]+", " ", s)], [blank] being whether the last character was one. *)
Fixpoint squeeze_blanks (blank : bool) (s : text) : text :=
  match s with
  | [] => []
  | c :: s =>
      if (c =? 32)%N || (c =? 9)%N then (if blank then squeeze_blanks true s else 32%N :: squeeze_blanks true s)
      else c :: squeeze_blanks false s
  end.

(** Newlines beyond the second of a run are dropped; [n] of them came before. *)
Fixpoint squeeze_lines (n : nat) (s : text) : text :=
  match s with
  | [] => []
  | c :: s =>
      if (c =? 10)%N then (if n <? 2 then 10%N :: squeeze_lines (S n) s else squeeze_lines n s)
      else c :: squeeze_lines 0 s
  end.

Definition extract_text (events : list html_event) : text :=
  strip (squeeze_lines 0 (squeeze_blanks false (concat (es_out (foldl handle (mk_extractor 0 []) events))))).

Inductive doc_op := Get (url : text) | MkDirs (dir : text) | WriteFile (path content : text).

Definition CONTENT_API : text := u "https://www.ibm.com/docs/api/v1/content/".

(** The web, the parser, and the text of a page's record. *)
Record DocWorld := mk_doc_world {
    dw_get : text → option text; dw_parse : text → DocUrl; dw_events : text → list html_event;
    dw_meta : text → text → text → text → text
  }.

Section docs.
Context (w : DocWorld) (cache : text).

Definition get (url : text) : traced doc_op DocError text := emit (Get url) (of_option FetchFailed (dw_get w url)).
Definition write (path content : text) : traced doc_op DocError () := emit (WriteFile path content) (Ok ()).

Definition doc_dir (pvs : text * text * text) : text :=
  path_join (path_join (path_join cache pvs.1.1) pvs.1.2) pvs.2.

(** [fetch]: the directory the page is in. *)
Definition fetch (url : text) : traced doc_op DocError text :=
  let* pvs := quiet (coords (dw_parse w url)) in
  let* shell := get url in
  let* old_url := quiet (of_option NoContentPath (old_url_of shell)) in
  let* body := get (CONTENT_API ++ old_url) in
  let dest := doc_dir pvs in
  let* _ := emit (MkDirs dest) (Ok ()) in
  let* _ := write (path_join dest (u "content.html")) body in
  let* _ := write (path_join dest (u "content.txt")) (extract_text (dw_events w body)) in
  let* _ := write (path_join dest (u "meta.json")) (dw_meta w url old_url (title_of shell) body) in
  quiet (Ok dest).

(** The loop of [main]: every URL is tried, and one that fails makes the exit code 1. *)
Fixpoint fetch_all (urls : list text) : list doc_op * Z :=
  match urls with
  | [] => ([], 0%Z)
  | url :: urls =>
      let m := fetch url in
      let '(ops, rc) := fetch_all urls in
      (m.1 ++ ops, match m.2 with Ok _ => rc | Err _ => 1%Z end)
  end.
End docs.

(** ** tools/release_version_guard.py *)

Definition parse_tag_version (ref : text) : text := if startswith ref (u "v") then drop 1 ref else ref.
Definition base_version (version : text) : text := match cut 45 version with Some (core, _) => core | None => version end.
Definition is_prerelease (version : text) : bool := bool_decide (45%N ∈ version).

(** [main]: the value of the prerelease output, when the versions agree. *)
Definition release_guard (ref pyproject version_file : text) : option text :=
  let tag := parse_tag_version ref in
  if bool_decide (base_version tag = pyproject) && bool_decide (pyproject = strip version_file)
  then Some (if is_prerelease tag then u "true" else u "false") else None.

(** ** mqlab/mqexporter.py *)

(** [_target_arch], of the machine's name in lower case. *)
Definition target_arch (machine : text) : text :=
  if bool_decide (machine ∈ [u "aarch64"; u "arm64"]) then u "arm64" else u "x64".
Definition binary_name (machine : text) : text := u "mq_prometheus-" ++ target_arch machine.
Definition exporter_dir (cache_root mq_version : text) : text := path_join (path_join cache_root (u "mq-exporter")) mq_version.
Definition exporter_binary_path (cache_root mq_version machine : text) : text :=
  path_join (exporter_dir cache_root mq_version) (binary_name machine).

(** [ensure_mq_exporter_binary]; [None] is the failure of the container. *)
Definition ensure_mq_exporter_binary (exists_file : text → bool) (built : bool) (cache_root mq_version machine : text) :
  traced text () text :=
  let binary := exporter_binary_path cache_root mq_version machine in
  if exists_file binary then quiet (Ok binary)
  else emit (exporter_dir cache_root mq_version) (if built then Ok binary else Err ()).

(** ** mqlab/venvsync.py *)

(** [ensure_venv_current]: the notice of a missing uv, or the exit code of a failed sync. *)
Definition ensure_venv_current (uv : option text) (sync : text → Z) : traced text Z () :=
  match uv with
  | None => quiet (Ok ())
  | Some uv => emit uv (if (sync uv =? 0)%Z then Ok () else Err (sync uv))
  end.

(** ** Where pages are cached *)

(** A path segment: plain characters, the first a letter or a digit, and maybe a newline. *)
Definition plain_segment (s : text) : Prop :=
  ∃ c stem nl, s = c :: stem ++ nl ∧ alnum_az c = true ∧ Forall (λ c, segment_char c = true) stem ∧ (nl = [] ∨ nl = [10%N]).

Lemma span_spec p s a b : span p s = (a, b) → s = a ++ b ∧ Forall (λ c, p c = true) a.
Proof.
  revert a b. induction s as [|c s IH]; intros a b; cbn [span]; [by intros [= <- <-]|].
  destruct (p c) eqn:Hc; [|by intros [= <- <-]]. destruct (span p s) as [a' b'] eqn:Hs. intros [= <- <-].
  destruct (IH _ _ eq_refl) as [-> ?]. split; [done|by constructor].
Qed.

Lemma safe_segment_plain s : safe_segment s = true → plain_segment s.
Proof.
  destruct s as [|c s]; [done|]. cbn [safe_segment]. intros [Hc Hs]%andb_true_iff.
  destruct (span segment_char s) as [stem nl] eqn:Hsp. apply span_spec in Hsp as [-> Hst]. cbn [snd] in Hs.
  exists c, stem, nl. split_and!; [done|done|done|]. destruct nl as [|d [|]]; [by left| |done]. right. by apply N.eqb_eq in Hs as ->.
Qed.

Lemma alnum_not c x : alnum_az c = true → alnum_az x = false → c ≠ x.
Proof. congruence. Qed.

Lemma plain_no_slash s : plain_segment s → (47%N ∉ s) ∧ s ≠ [] ∧ s ≠ u "." ∧ s ≠ u "..".
Proof.
  intros (c & stem & nl & -> & Hc & Hst & Hnl). split_and!.
  - intros [<-|[Hin|Hin]%elem_of_app]%elem_of_cons; [done| |].
    + rewrite Forall_forall in Hst. by specialize (Hst _ Hin).
    + destruct Hnl as [->| ->]; [by apply elem_of_nil in Hin|by apply list_elem_of_singleton in Hin].
  - done.
  - intros [= -> _]. done.
  - intros [= -> _]. done.
Qed.

Lemma coords_plain du p v s : coords du = Ok (p, v, s) → plain_segment p ∧ plain_segment v ∧ plain_segment s.
Proof.
  unfold coords. intros (_ & _ & H)%bind_Ok. destruct (filter _ _) as [|seg rest]; [done|].
  apply bind_Ok in H as (_ & _ & H). apply bind_Ok in H as ([[p' v'] s'] & _ & H). apply bind_Ok in H as (l & Hl & [= -> -> ->]).
  cbn [fst snd] in Hl.
  assert (∀ x, x ∈ [p; v; s] → plain_segment x) as Hall.
  { intros x Hx. destruct (res_mapM_image _ _ _ _ Hl Hx) as (y & _ & Hy). apply safe_segment_plain.
    by destruct (safe_segment x). }
  split_and!; apply Hall; set_solver.
Qed.

Lemma slash_inj a b x y : 47%N ∉ x → 47%N ∉ y → a ++ [SLASH] ++ x = b ++ [SLASH] ++ y → a = b ∧ x = y.
Proof.
  intros Hx Hy H. apply (f_equal (rev (A := N))) in H. rewrite !List.rev_app_distr in H. cbn [rev app] in H. rewrite <-!app_assoc in H.
  cbn [app] in H. assert (∀ z, 47%N ∉ z → 47%N ∉ rev z) as Hrev by (intros z Hz Hin; apply Hz; apply list_elem_of_In, List.in_rev; by apply list_elem_of_In).
  apply (f_equal (cut 47)) in H. rewrite !cut_app in H by (by apply Hrev). injection H as Hxy Hab.
  apply (f_equal (rev (A := N))) in Hxy, Hab. by rewrite !List.rev_involutive in Hxy, Hab.
Qed.

Lemma join_plain c x : plain_segment x → path_join c x ≠ u "." ∧ path_join c x ≠ [SLASH].
Proof.
  intros (Hs & Hne & Hd & _)%plain_no_slash. unfold path_join. repeat case_bool_decide; subst.
  - split; [done|]. intros ->. apply Hs. by left.
  - split; [by intros [=]|]. by intros [= ->].
  - destruct x as [|a x]; [done|]. split; intros Heq; apply (f_equal length) in Heq; rewrite !length_app in Heq;
      [change (length (u ".")) with 1 in Heq|]; cbn [length] in Heq; lia.
Qed.

Lemma join_after c x y : plain_segment x → path_join (path_join c x) y = path_join c x ++ [SLASH] ++ y.
Proof. intros [Hd Hs]%(join_plain c). unfold path_join at 1. by rewrite !bool_decide_eq_false_2. Qed.

Lemma join_inj c x y : path_join c x = path_join c y → x = y.
Proof.
  unfold path_join. repeat case_bool_decide; [done|by intros Heq%(inj (app c))|]. intros Heq%(inj (app c)). by injection Heq.
Qed.

(** Two pages that are cached in one directory are one product, version and slug. *)
Lemma doc_dir_inj cache p v s p' v' s' :
  plain_segment p → plain_segment v → plain_segment s → plain_segment p' → plain_segment v' → plain_segment s' →
  doc_dir cache (p, v, s) = doc_dir cache (p', v', s') → (p, v, s) = (p', v', s').
Proof.
  intros Hp Hv Hs Hp' Hv' Hs'. unfold doc_dir. cbn [fst snd]. rewrite !(join_after (path_join cache _)) by done.
  intros H. apply slash_inj in H as [H ->]; [|by apply plain_no_slash..]. rewrite !join_after in H by done.
  apply slash_inj in H as [H ->]; [|by apply plain_no_slash..]. by apply join_inj in H as ->.
Qed.

(** ** What a run doc_writes *)

Definition doc_writes (ops : list doc_op) : list text := omap (λ o, match o with WriteFile p _ => Some p | _ => None end) ops.

Lemma fetch_spec w cache url :
  match coords (dw_parse w url) with
  | Err e => fetch w cache url = ([], Err e)
  | Ok pvs =>
      (∀ dir, (fetch w cache url).2 = Ok dir → dir = doc_dir cache pvs ∧
         doc_writes (fetch w cache url).1 = path_join dir <$> [u "content.html"; u "content.txt"; u "meta.json"]) ∧
      ((doc_writes (fetch w cache url).1 ≠ [] → (fetch w cache url).2 = Ok (doc_dir cache pvs)))
  end.
Proof.
  unfold fetch. destruct (coords (dw_parse w url)) as [pvs|e]; [|done]. unfold then_, quiet, get, write, emit. cbn [fst snd app].
  destruct (dw_get w url) as [shell|]; cbn [of_option fst snd app]; [|by split].
  destruct (old_url_of shell) as [old|]; cbn [of_option fst snd app]; [|by split].
  destruct (dw_get w (CONTENT_API ++ old)) as [body|]; cbn [of_option fst snd app]; [|by split].
  split; [|done]. by intros dir [= <-].
Qed.

(** The documentation cache is keyed soundly: a URL that is not of a known shape is refused
    before any request; a page is written only into the directory its product, version and
    slug name, three plain segments under the cache, so that nothing escapes it and no two
    pages of another product, version or slug share a directory; and the exit code is 0
    exactly when every page was cached. *)
Theorem doc_cache_sound w cache urls :
  ((fetch_all w cache urls).2 = 0%Z ↔ ∀ url, url ∈ urls → ∃ dir, (fetch w cache url).2 = Ok dir) ∧
  (∀ url e, coords (dw_parse w url) = Err e → fetch w cache url = ([], Err e)) ∧
  (∀ path, path ∈ doc_writes (fetch_all w cache urls).1 → ∃ url p v s name,
     url ∈ urls ∧ coords (dw_parse w url) = Ok (p, v, s) ∧ plain_segment p ∧ plain_segment v ∧ plain_segment s ∧
     name ∈ [u "content.html"; u "content.txt"; u "meta.json"] ∧ path = path_join (doc_dir cache (p, v, s)) name) ∧
  (∀ url url' pvs pvs', coords (dw_parse w url) = Ok pvs → coords (dw_parse w url') = Ok pvs' →
     doc_dir cache pvs = doc_dir cache pvs' → pvs = pvs').
Proof.
  split_and!.
  - induction urls as [|url urls IH]; cbn [fetch_all]; [split; [by intros _ url ?%elem_of_nil|done]|].
    destruct (fetch_all w cache urls) as [ops rc]. cbn [snd] in *. destruct (fetch w cache url).2 as [dir|e] eqn:Hf.
    + rewrite IH. split; [intros H url' [->|Hin]%elem_of_cons; [by exists dir|by apply H]|]. intros H url' Hin. apply H. by right.
    + split; [done|]. intros H. destruct (H url) as [dir Hd]; [by left|]. congruence.
  - intros url e He. pose proof (fetch_spec w cache url) as H. by rewrite He in H.
  - intros path Hin. assert (∃ url, url ∈ urls ∧ path ∈ doc_writes (fetch w cache url).1) as (url & Hu & Hp).
    { induction urls as [|url urls IH]; cbn [fetch_all] in Hin; [by apply elem_of_nil in Hin|].
      destruct (fetch_all w cache urls) as [ops rc]. cbn [fst] in *. unfold doc_writes in Hin. rewrite omap_app in Hin.
      apply elem_of_app in Hin as [Hin|Hin]; [exists url; split; [by left|done]|].
      destruct (IH Hin) as (url' & ? & ?). exists url'. split; [by right|done]. }
    pose proof (fetch_spec w cache url) as H. destruct (coords (dw_parse w url)) as [[[p v] s]|e] eqn:Hc.
    2:{ rewrite H in Hp. by apply elem_of_nil in Hp. }
    destruct H as [Hok Hne]. rewrite (proj2 (Hok _ (Hne ltac:(by intros Hn; rewrite Hn in Hp; apply elem_of_nil in Hp)))) in Hp.
    apply list_elem_of_fmap in Hp as (name & -> & Hname). destruct (coords_plain _ _ _ _ Hc) as (? & ? & ?).
    by exists url, p, v, s, name.
  - intros url url' [[p v] s] [[p' v'] s'] (Hp & Hv & Hs)%coords_plain (Hp' & Hv' & Hs')%coords_plain. by apply doc_dir_inj.
Qed.

(** ** The release guard and the ensures *)

(** A release passes exactly when the tag's core, pyproject.toml and VERSION agree, and is
    flagged a pre-release exactly when the tag has a suffix. *)
Theorem release_guard_exact ref pyproject version_file flag :
  release_guard ref pyproject version_file = Some flag ↔
    base_version (parse_tag_version ref) = pyproject ∧ pyproject = strip version_file ∧
    flag = (if bool_decide (base_version (parse_tag_version ref) = parse_tag_version ref) then u "false" else u "true").
Proof.
  unfold release_guard. set (tag := parse_tag_version ref).
  assert (is_prerelease tag = negb (bool_decide (base_version tag = tag))) as Hpre.
  { unfold is_prerelease, base_version. destruct (cut 45 tag) as [[core r]|] eqn:Hc.
    - apply cut_Some in Hc as [Htag _]. rewrite bool_decide_eq_true_2 by (rewrite Htag; apply elem_of_app; right; left).
      rewrite bool_decide_eq_false_2; [done|]. rewrite Htag. intros Heq. apply (f_equal length) in Heq. rewrite length_app in Heq. cbn in Heq. lia.
    - rewrite (bool_decide_eq_true_2 (tag = tag)) by done. apply bool_decide_eq_false_2. by apply cut_None. }
  rewrite Hpre. destruct (decide (base_version tag = pyproject)) as [H1|H1].
  2:{ rewrite (bool_decide_eq_false_2 (base_version tag = pyproject)) by done. split; [done|by intros [? _]]. }
  rewrite (bool_decide_eq_true_2 (base_version tag = pyproject)) by done.
  destruct (decide (pyproject = strip version_file)) as [H2|H2].
  2:{ rewrite (bool_decide_eq_false_2 (pyproject = strip version_file)) by done. split; [done|by intros (_ & ? & _)]. }
  rewrite (bool_decide_eq_true_2 (pyproject = strip version_file)) by done. cbn [andb].
  destruct (bool_decide (base_version tag = tag)); cbn [negb]; (split; [by intros [= <-]|by intros (_ & _ & ->)]).
Qed.
